(* ===== verification/_CoqProject ===== *)
-Q . S2P
Prelude.v
SsvTypes.v
Messages.v
QbftTypes.v
MsgContainer.v
Qbft.v
Sample.v
QbftInv.v
QbftProgress.v
QbftSafety.v
QbftTotal.v
ForkSchedule.v
ForkMonitor.v
ValidationTypes.v
DutyState.v
ValidatorRules.v
RoundTimeout.v
ConsensusValidation.v
PartialValidation.v
Subnet.v
Validator.v
Interpolation.v
BlsLagrange.v
BlsInterface.v
ThresholdBls.v
SampleBls.v
MultiIndex.v
NetworkState.v
Sql.v
Database.v
EventProcessor.v
EventSample.v
DatabaseSync.v
DatabaseLoad.v
EventSync.v
EventBatch.v
EventNonces.v
CollectorState.v
CollectorRuns.v
CollectorLiveness.v
CollectorKeys.v
SignatureCollector.v
SignatureRouting.v
CommitteeBatches.v
InstanceTask.v
InstanceRuns.v
InstanceLiveness.v
InstanceBuffer.v
QbftManager.v
QbftRouting.v
Processor.v
Doppelganger.v
DutiesTracker.v
MessageSender.v
MessageReceiver.v
MessageRate.v
Subscriptions.v
PeerManager.v
Handshake.v
Network.v
BeaconTypes.v
ConsensusData.v
Voting.v
StoreTypes.v
StoreEffects.v
PostConsensus.v
ValidatorStore.v
StoreSafety.v
