(* ===== verification/Prelude.v ===== *)
(** * Anchor: a verification development

    Anchor is a client for distributed Ethereum validators: the operators of a committee
    run one validator together.  For every duty they agree on the data to sign with an
    instance of the QBFT consensus protocol, exchange partial signatures, and gossip both
    kinds of message over topics that belong to subnets.  This library models the core of
    that program and proves it correct.  Paths below are relative to [src/anchor].

    ** Parts and how they interact

    A duty starts in the validator store ([validator_store]).  The metadata service reads
    the duties of a slot and publishes voting assignments, a voting context with the vote
    to propose, and later the data of the aggregators.  The operations of the store wait
    for these, have the committee agree on the value with an instance of QBFT, ask the
    slashing database, and request the validator's signature.  The signature collector
    ([signature_collector]) signs with the operator's share, sends the partial signature,
    collects those of the others, and answers once a quorum combines to a signature
    ([common/bls_lagrange]).

    The QBFT manager ([qbft_manager]) hands messages to the task of their duty's instance;
    the task feeds the instance ([common/qbft]) with messages, its own signed messages and
    timer ticks, and reports the decision to everyone who waits for it.  The message sender
    ([message_sender]) signs outgoing messages and routes them to the subnet of the
    committee under the fork of their slot ([subnet_service], [common/fork]).

    Bytes arrive on a gossip topic ([network], with the peer manager and the handshake).
    The message receiver ([message_receiver]) has the message validator
    ([message_validator]) decode them, find the committee in the network state, check topic
    and domain, and run the rules for consensus messages or partial signatures against the
    duty state of the message identifier, with the schedules of the duties tracker
    ([duties_tracker]); what is accepted goes to the QBFT manager or the signature
    collector, unless the doppelganger check ([operator_doppelganger]) is still watching.
    Work of all kinds is queued in the processor ([processor]).  The fork monitor publishes
    the lifecycle of forks, and the subnet service subscribes to the topics of the
    committees of this operator.

    The committees come from the contract on the execution layer.  The event processor
    ([eth]) turns its logs into statements on the tables of the database ([database]),
    one transaction per block, and into queued updates of the in-memory network state,
    which are replayed once the block is committed.

    ** Files

    - [Prelude]: outcomes (value, error, panic) of fallible code, the state monad of
      methods on [&mut self] and its weakest preconditions, record update, machine
      integers and bytes, counting and sorting.
    - [SsvTypes], [Messages]: [common/ssv_types] (rounds, committee arithmetic, roles,
      message identifiers, committee identifiers, partial signatures, signed messages,
      their structural validation and aggregation).  The SSZ encodings that Rust derives
      are the parameter [SszCodec].
    - [QbftTypes], [MsgContainer], [Qbft]: [common/qbft/src].  The record [Qbft] has the
      fields of [struct Qbft] plus an outbox in place of the sender callback, and there is
      one definition per method of [lib.rs], with the same name.
    - [QbftInv], [QbftProgress], [QbftSafety], [QbftTotal]: the proofs about instances and
      networks.
    - [Sample]: concrete instances of every parameter, on which the definitions run.
    - [ForkSchedule], [ForkMonitor]: [common/fork/src] ([fork.rs], [schedule.rs],
      [lifecycle.rs]; [monitor.rs]).
    - [ValidationTypes], [DutyState], [ValidatorRules], [ConsensusValidation],
      [PartialValidation], [Validator]: [message_validator/src], file by file; [Validator]
      also has [do_send] of [message_sender/src/network.rs].
    - [RoundTimeout]: [qbft_manager/src/timeout.rs].
    - [InstanceTask]: the task of one instance ([qbft_manager/src/instance.rs]); an event is
      one iteration of its loop with the branch of [select!] that was ready, or the
      signing of one of its messages.  [QbftManager]: the manager
      ([qbft_manager/src/lib.rs]).  [InstanceRuns], [InstanceLiveness], [InstanceBuffer],
      [QbftRouting]: the proofs about tasks and the manager.
    - [Subnet]: [subnet_service/src] ([subnet.rs], [topic.rs], [routing.rs] and the subnet
      queries of [service.rs]).
    - [Interpolation], [BlsLagrange]: [common/bls_lagrange/src], over any field and any
      groups that are modules over it; these two files use MathComp.  [BlsInterface] states
      what the signature collector relies on, [ThresholdBls] discharges it from the model
      of [bls_lagrange] and the laws of a pairing, [SampleBls] is a concrete library.
    - [MultiIndex], [NetworkState]: [database/src/multi_index.rs], the queries of
      [state.rs] and the updates of [pending_updates.rs], with the abstract state that the
      maps and their indices represent.
    - [Sql], [Database]: the tables with their keys, cascades and triggers, one definition
      per statement of [sql_operations.rs], loading ([state.rs]), and the operations of
      [database/src].
    - [EventProcessor]: [eth/src] ([event_processor.rs], [util.rs], [error.rs]).
      [EventSample]: a small chain to run it on.
    - [DatabaseSync], [DatabaseLoad], [EventSync], [EventBatch], [EventNonces]: the proofs
      about tables, memory, events and batches.
    - [CollectorState], [SignatureCollector]: [signature_collector/src/lib.rs], the task of
      one signing root and the manager with its batches, packets and threads.
      [CollectorRuns], [CollectorLiveness], [CollectorKeys], [SignatureRouting],
      [CommitteeBatches]: the proofs about them.
    - [Processor]: [processor/src].  [Doppelganger]: [operator_doppelganger/src].
      [DutiesTracker]: [duties_tracker/src].  [MessageSender]: [message_sender/src].
      [MessageReceiver]: [message_receiver/src], composed with validator, manager,
      collector and doppelganger check to the node.
    - [MessageRate], [Subscriptions]: [subnet_service/src] ([message_rate.rs];
      [subscriptions.rs], [scoring.rs]).  [PeerManager]: [network/src/peer_manager].
      [Handshake]: [network/src/handshake].  [Network]: [network/src/network.rs], composed
      with the three before.
    - [BeaconTypes]: the beacon chain's containers and the slashing database, as interfaces.
      [ConsensusData]: [common/ssv_types/src/consensus.rs], the values that are decided and
      their validators.  [Voting]: [validator_store/src/metadata_service.rs] and the voting
      data of [lib.rs].
    - [StoreTypes]: the pure parts of [validator_store/src/lib.rs].  [StoreEffects]: the
      calls of its operations, the machine that answers them, and pools of operations.
      [PostConsensus]: [aggregator_post_consensus.rs].  [ValidatorStore]: every operation of
      the store as a program, with the same name.  [StoreSafety]: the proofs about pools.

    ** What is shown

    - Consensus.  [QbftSafety] runs any number of honest instances of one duty against at
      most [f] faulty operators that may send anything their signatures allow, with any
      order of deliveries and timer ticks: no two honest instances decide differently and
      none equivocates.  [QbftProgress]: decisions are valid and final, rounds never go
      back, and an instance completes once its timer has fired often enough.  Leaders
      exist, are unique and rotate; quorum queries of the container are exact.
      [QbftTotal]: no call panics.
    - Instances.  Every caller of an instance is answered, exactly once, and all with the
      same valid value, after at most as many timer ticks as rounds are left; the decided message is broadcast once; buffering early messages
      makes no difference; the manager queues only work the instances can handle, and
      what an instance sends reaches the instance of the same identity at every peer.
    - Validation.  An accepted message was checked in full, is not accepted a second time,
      and meets what the consensus proofs assume of delivered messages; no sequence of
      messages takes a duty state out of its limits; the ring of slots is large enough for
      exact duty counts; acceptance windows, proposer choice and round estimates agree
      with the instance and its timers.
    - Routing.  Topic strings round-trip, the whitelist is exactly the set of routed
      topics, subscriptions, publishing and validation agree on the subnet, and the fork
      lifecycle has exactly its documented windows.
    - Keys.  Any threshold-many shares of a split key sign for it and one fewer do not; the
      check on announced share keys accepts exactly the keys of such shares.
    - Registry.  Over any sequence of batches, index updates and restarts, memory and
      tables agree, nothing panics, and the network view of the validator is the one of
      the tables, with well-formed committees.  Two exceptions are stated: the status of a
      cluster that got a registration while it was liquidated, and our own id once our
      operator is removed.  A batch that fails with an error keeps exactly the blocks
      before the failure; a panic of the replay, which the invariant excludes, would leave
      the tables one block ahead of the memory.  A registration takes effect completely or counts its
      nonce only; nonces count all registrations.
    - Signatures.  A stored validator's collector answers with a verifying signature once a
      quorum of correct operators has sent shares, whatever else arrives; callers get the
      signature they asked for; a committee sends one post-consensus message per slot; the
      shares in a collector's queue are attributed to the member that signed their packet.
    - Messages.  What the sender puts on the network is signed and verifiable; what reaches
      an instance or a collector was validated; nothing does while the doppelganger check
      watches; the proposer of an accepted proposal is the scheduled one.
    - Network.  Once the subnet service is idle and its events are taken, subscriptions
      follow the committees and forks; two nodes complete the
      handshake exactly if their domains agree; the peer manager's look-ups, blocks and
      limits are those of its history of events.
    - Duties.  [StoreSafety] runs any number of operations of the store interleaved, with
      any answers of their surroundings, of which only the slashing database must keep its
      promise: one block signature per validator and slot,
      attestations that passed the slashing database and never clash, committee votes that
      follow one decision.  [PostConsensus]: the members of a committee sign the same
      roots, once, within the receivers' limits.  [Voting], [StoreTypes]: aggregation data
      passes the check of the other operators exactly if the fetched objects in it fit what
      was asked for; one decided block per proposal.
    - Types.  Identifiers, committee ids and enum codecs round-trip; aggregation of valid
      messages is valid; structural faults are always rejected.

    ** Modelling conventions

    [u64] and [usize] are [N], with wrap-around written out where the code can overflow
    (release builds wrap); [Round] is [positive], as in Rust it is non-zero; [u8] counters
    wrap.  Times are nanoseconds in [N].  [HashMap] and [HashSet] are [gmap] and [gset];
    where an iteration order could matter it is a parameter.  A panic is the outcome
    [Panic], or [None] where the function cannot fail otherwise.  Text carried by errors,
    logging and metrics are dropped.  Slot and epoch arithmetic follows the consensus
    client's saturating operations.  The only fuel is in decimal formatting: twenty digits,
    which hold every [u64].  Floating point is that of [SpecFloat], with the formats of
    [f32] and [f64]; [powf] is a parameter.  Concurrent tasks are explicit: an event names
    the branch of a [select!] that was ready, or the thread that moves; an operation of the
    validator store is a program in a free monad over its calls, and a wait may be answered
    at any time or never.

    Parameters stand for code outside the repository, with their documented behaviour as
    hypotheses: SSZ codecs (decoding inverts encoding; [SszSized] where lengths matter),
    SHA-256 and RSA (class [Crypto];
    unforgeability is a hypothesis of the theorems that need it), BLS keys, the slot clock
    (a regular clock where times matter), [ChainSpec], libp2p's identity topic hash, the
    field and groups of blst (class laws [BlstLaws]), and Keccak, hexadecimal, base64 and
    key formats ([EthLib], [KeyLib]).  The registry theorems assume no Keccak collision
    among the cluster id preimages that occur, and that the contract registers our key
    under one id.  The interface [NetworkView] is discharged by [EventBatch],
    [DutiesProvider] by [DutiesTracker].  RSA signing promises verifiable signatures, the
    peer store, JSON, protobuf and libp2p keys are [PeerLib] and [HandshakeLib], the order
    of a hash map is [HashOrder], the beacon containers and their signing roots are
    [BeaconLib] and [SigningLib], and the slashing database is [SlashingLib] with its
    documented promise [SlashingLaws]; beacon nodes, clocks and schedulers answer anything
    unless a theorem says otherwise.  [KeyLib] also has the share
    check of [bls_lagrange], as [BlsLagrange] cannot be loaded beside the library of
    finite maps.  SQLite is modelled by its tables: a statement is a function on them,
    and a transaction is a copy that a commit publishes.

    ** Not modelled

    Requests to beacon and execution nodes and the loops that only sleep and call what is
    modelled ([eth/src/sync.rs], [registration_service.rs], the phases of the metadata
    service, the pollers of the duties tracker); the construction of the libp2p stack and
    discovery; schema migrations, which a library runs; key generation and splitting, which
    call OpenSSL and read and write files; the command line, configuration, HTTP API,
    metrics and logging.  These are I/O around the parts above, or wiring without state of
    its own. *)

From stdpp Require Export base gmap list strings sorting fin_sets.
From Stdlib Require Export Strings.Byte.

(** ** Fallible and stateful code

    A Rust function returns normally, returns an error through [?], or panics.
    [outcome] has a constructor for each; pure fallible functions return an
    [outcome], methods on [&mut self] are [action]s.  Mutations made before an
    early [return Err(..)] persist in Rust, so an [action] yields the state on
    every outcome. *)

Inductive outcome (E A : Type) : Type :=
  | Ok (a : A)
  | Err (e : E)
  | Panic.
Arguments Ok {E A} a.
Arguments Err {E A} e.
Arguments Panic {E A}.

#[export] Instance outcome_ret E : MRet (outcome E) := λ A a, Ok a.
#[export] Instance outcome_bind E : MBind (outcome E) := λ A B k m,
  match m with Ok a => k a | Err e => Err e | Panic => Panic end.

Definition is_ok {E A} (o : outcome E A) : bool :=
  match o with Ok _ => true | _ => false end.

(** [res.ok()] *)
Definition ok {E A} (o : outcome E A) : option A :=
  match o with Ok a => Some a | _ => None end.

(** [opt.ok_or(e)?] *)
Definition ok_or {E A} (o : option A) (e : E) : outcome E A :=
  match o with Some a => Ok a | None => Err e end.

(** [opt.expect(..)] *)
Definition expect {E A} (o : option A) : outcome E A :=
  match o with Some a => Ok a | None => Panic end.

(** [res.map_err(f)] *)
Definition map_err {E F A} (f : E → F) (o : outcome E A) : outcome F A :=
  match o with Ok a => Ok a | Err e => Err (f e) | Panic => Panic end.

(** [iter.map(f).collect::<Result<Vec<_>, _>>()]: stops at the first failure. *)
Fixpoint try_map {E A B} (f : A → outcome E B) (l : list A) : outcome E (list B) :=
  match l with
  | [] => Ok []
  | x :: l => y ← f x; ys ← try_map f l; mret (y :: ys)
  end.

(** [for x in l { f(x)?; }] and [iter.try_for_each(f)] over a pure body. *)
Fixpoint try_for_each {E A} (f : A → outcome E unit) (l : list A) : outcome E unit :=
  match l with
  | [] => Ok tt
  | x :: l => _ ← f x; try_for_each f l
  end.

(** Inversion of a successful run. *)
Section outcome_inv.
Context {E : Type}.

Lemma bind_ok {A B} (m : outcome E A) (k : A → outcome E B) b :
  m ≫= k = Ok b ↔ ∃ a, m = Ok a ∧ k a = Ok b.
Proof. destruct m; simpl; naive_solver. Qed.

Lemma ok_or_ok {A} (o : option A) (e : E) a : ok_or o e = Ok a ↔ o = Some a.
Proof. destruct o; simpl; naive_solver. Qed.

Lemma map_err_ok {E' A} (f : E' → E) (o : outcome E' A) a : map_err f o = Ok a ↔ o = Ok a.
Proof. destruct o; simpl; naive_solver. Qed.

Lemma try_map_ok {A B} (f : A → outcome E B) l k :
  try_map f l = Ok k ↔ Forall2 (λ x y, f x = Ok y) l k.
Proof.
  revert k. induction l as [|x l IH]; intros k; simpl.
  - split; [intros [= <-]; constructor|]. by inversion 1.
  - rewrite bind_ok. split.
    + intros (y & Hy & (ys & Hys & [= <-])%bind_ok). constructor; [done|]. by apply IH.
    + inversion 1; subst. eexists. split; [done|]. rewrite bind_ok.
      eexists. split; [by apply IH|done].
Qed.

Lemma try_for_each_ok {A} (f : A → outcome E unit) l u :
  try_for_each f l = Ok u ↔ Forall (λ x, f x = Ok tt) l.
Proof.
  destruct u. induction l as [|x l IH]; simpl; [by split|].
  rewrite bind_ok, Forall_cons, <- IH. split; [intros ([] & ? & ?)|intros []]; eauto.
Qed.
End outcome_inv.

(** A computation that cannot panic. *)
Definition total {E A} (o : outcome E A) : Prop := o ≠ Panic.

Section total.
Context {E : Type}.

Lemma total_ret {A} (a : A) : total (mret a : outcome E A).
Proof. done. Qed.
Lemma total_bind {A B} (m : outcome E A) (k : A → outcome E B) :
  total m → (∀ a, m = Ok a → total (k a)) → total (m ≫= k).
Proof. destruct m; cbn; unfold total; auto. Qed.
Lemma total_ok_or {A} (o : option A) (e : E) : total (ok_or o e).
Proof. by destruct o. Qed.
Lemma total_map_err {E' A} (f : E' → E) (o : outcome E' A) : total o → total (map_err f o).
Proof. by destruct o. Qed.
Lemma total_try_map {A B} (f : A → outcome E B) l : (∀ x, total (f x)) → total (try_map f l).
Proof.
  intros Hf. induction l as [|x l IH]; cbn; [done|].
  apply total_bind; [done|]. intros y _. by apply total_bind.
Qed.
Lemma total_try_for_each {A} (f : A → outcome E unit) l :
  (∀ x, total (f x)) → total (try_for_each f l).
Proof. intros Hf. induction l; cbn; [done|]. by apply total_bind. Qed.
End total.

Create HintDb total.
#[export] Hint Resolve total_ok_or total_map_err : total.

(** Splits a computation into its steps, each discharged by the database. *)
Ltac solve_total :=
  repeat first [ done | solve [auto with total]
               | apply total_bind; [|intros ? ?] | apply total_map_err
               | apply total_try_map; intros ? | apply total_try_for_each; intros ?
               | match goal with
                 | |- total (match ?x with _ => _ end) => destruct x eqn:?
                 | |- total (if ?x then _ else _) => destruct x eqn:?
                 end ].

Definition action (S E A : Type) : Type := S → outcome E A * S.

#[export] Instance action_ret S E : MRet (action S E) := λ A a s, (Ok a, s).
#[export] Instance action_bind S E : MBind (action S E) := λ A B k m s,
  match m s with
  | (Ok a, s') => k a s'
  | (Err e, s') => (Err e, s')
  | (Panic, s') => (Panic, s')
  end.

Definition gets {S E A} (f : S → A) : action S E A := λ s, (Ok (f s), s).
Definition modify {S E} (f : S → S) : action S E unit := λ s, (Ok tt, f s).
Definition throw {S E A} (e : E) : action S E A := λ s, (Err e, s).
Definition lift {S E A} (o : outcome E A) : action S E A := λ s, (o, s).

(** [if !b { return Err(e); }] *)
Definition ensure {E} (b : bool) (e : E) : outcome E unit := if b then Ok tt else Err e.

Lemma ensure_ok {E} b (e : E) u : ensure b e = Ok u ↔ b = true.
Proof. destruct b, u; simpl; naive_solver. Qed.

Lemma total_ensure {E} b (e : E) : total (ensure b e).
Proof. by destruct b. Qed.
#[export] Hint Resolve total_ensure : total.

(** [match m { Ok(a) => .., Err(_) => .. }]: the error is dropped, its state changes
    kept. *)
Definition attempt {S E A} (m : action S E A) : action S E (option A) := λ s,
  match m s with
  | (Ok a, s') => (Ok (Some a), s')
  | (Err _, s') => (Ok None, s')
  | (Panic, s') => (Panic, s')
  end.

(** [if let Err(e) = m { log }] *)
Definition ignore_err {S E A} (m : action S E A) : action S E unit := _ ← attempt m; mret tt.

(** [for x in l { f(x)?; }] over a stateful body. *)
Fixpoint for_each {S E A} (f : A → action S E unit) (l : list A) : action S E unit :=
  match l with
  | [] => mret tt
  | x :: l => _ ← f x; for_each f l
  end.

(** Weakest preconditions: what every run of an action establishes, on each of
    its three outcomes. *)
Definition wp {S E A} (m : action S E A) (Q : outcome E A → S → Prop) (s : S) : Prop :=
  Q (m s).1 (m s).2.

Section wp.
Context {S E : Type}.
Implicit Types s : S.

Lemma wp_ret {A} (a : A) (Q : outcome E A → S → Prop) s :
  Q (Ok a) s → wp (mret a) Q s.
Proof. done. Qed.

Lemma wp_bind {A B} (m : action S E A) (k : A → action S E B) Q s :
  wp m (λ o s', match o with
                | Ok a => wp (k a) Q s'
                | Err e => Q (Err e) s'
                | Panic => Q Panic s'
                end) s →
  wp (m ≫= k) Q s.
Proof. unfold wp, mbind, action_bind. by destruct (m s) as [[]]. Qed.

(** A run of a bind that succeeds, taken apart. *)
Lemma action_bind_ok {A B} (m : action S E A) (k : A → action S E B) s b s' :
  (m ≫= k) s = (Ok b, s') → ∃ a s1, m s = (Ok a, s1) ∧ k a s1 = (Ok b, s').
Proof. unfold mbind, action_bind. destruct (m s) as [[a| |] s1]; [|done..]. intros H. by exists a, s1. Qed.

Lemma wp_gets {A} (f : S → A) (Q : outcome E A → S → Prop) s :
  Q (Ok (f s)) s → wp (gets f) Q s.
Proof. done. Qed.

Lemma wp_modify (f : S → S) (Q : outcome E unit → S → Prop) s :
  Q (Ok tt) (f s) → wp (modify f) Q s.
Proof. done. Qed.

Lemma wp_throw {A} (e : E) (Q : outcome E A → S → Prop) s :
  Q (Err e) s → wp (throw e) Q s.
Proof. done. Qed.

Lemma wp_lift {A} (o : outcome E A) (Q : outcome E A → S → Prop) s :
  Q o s → wp (lift o) Q s.
Proof. done. Qed.

Lemma wp_ensure (b : bool) (e : E) (Q : outcome E unit → S → Prop) s :
  (b = true → Q (Ok tt) s) → (b = false → Q (Err e) s) → wp (lift (ensure b e)) Q s.
Proof. unfold wp; destruct b; simpl; auto. Qed.

Lemma wp_attempt {A} (m : action S E A) (Q : outcome E (option A) → S → Prop) s :
  wp m (λ o s', Q (match o with Ok a => Ok (Some a) | Err _ => Ok None | Panic => Panic end) s') s →
  wp (attempt m) Q s.
Proof. unfold wp, attempt. by destruct (m s) as [[]]. Qed.

Lemma wp_mono {A} (m : action S E A) (Q Q' : outcome E A → S → Prop) s :
  wp m Q s → (∀ o s', Q o s' → Q' o s') → wp m Q' s.
Proof. unfold wp. auto. Qed.

(** Reading a postcondition off a known run. *)
Lemma wp_result {A} (m : action S E A) (Q : outcome E A → S → Prop) s o s' :
  wp m Q s → m s = (o, s') → Q o s'.
Proof. unfold wp. by intros H He; rewrite He in H. Qed.

(** A postcondition on the final state alone. *)
Lemma wp_final {A} (m : action S E A) (P : S → Prop) s :
  wp m (λ _, P) s ↔ P (m s).2.
Proof. done. Qed.

(** A loop: every iteration moves along the preorder [R], and a successful one
    establishes [P x], which does not depend on where along [R] it is read. *)
Lemma wp_for_each {A} (R : relation S) (P : A → S → Prop) (f : A → action S E unit) l s :
  PreOrder R → (∀ x s s', R s s' → P x s' → P x s) →
  (∀ x s, wp (f x) (λ o s', R s s' ∧ (o = Ok tt → P x s)) s) →
  wp (for_each f l) (λ o s', R s s' ∧ (o = Ok tt → ∀ x, x ∈ l → P x s)) s.
Proof.
  intros HR HP Hf. revert s. induction l as [|x l IH]; intros s; cbn [for_each].
  - apply wp_ret. split; [done|]. set_solver.
  - apply wp_bind. eapply wp_mono; [apply Hf|]. intros [[]|e|] s' [Hs Hx]; [|done..].
    eapply wp_mono; [apply IH|]. intros o s'' [Hs' Hl]. split; [by etrans|].
    intros Ho y [->|Hy]%elem_of_cons; [auto|]. eapply HP; [exact Hs|auto].
Qed.

(** An action that only reads the state. *)
Lemma wp_pure {A} (m : action S E A) (Q : outcome E A → S → Prop) s :
  (m s).2 = s → Q (m s).1 s → wp m Q s.
Proof. unfold wp. by intros ->. Qed.
End wp.

(** One step of symbolic execution of an action. *)
Ltac wp_step :=
  lazymatch goal with
  | |- wp (mbind _ _) _ _ => apply wp_bind
  | |- wp (mret _) _ _ => apply wp_ret
  | |- wp (gets _) _ _ => apply wp_gets
  | |- wp (modify _) _ _ => apply wp_modify
  | |- wp (throw _) _ _ => apply wp_throw
  | |- wp (lift (ensure _ _)) _ _ => apply wp_ensure; intros ?
  | |- wp (lift _) _ _ => apply wp_lift
  | |- wp (attempt _) _ _ => apply wp_attempt
  | |- wp (ignore_err _) _ _ => unfold ignore_err; apply wp_bind
  | |- wp (if ?b then _ else _) _ _ => destruct b eqn:?
  | |- wp (match ?x with _ => _ end) _ _ => destruct x eqn:?
  | |- match ?x with Ok _ => _ | Err _ => _ | Panic => _ end => destruct x eqn:?
  end; cbv beta iota.
Ltac wp_run := repeat wp_step.

(** An action that only moves the state along a preorder. *)
Definition preserves {S E A} (R : relation S) (m : action S E A) : Prop := ∀ s, R s (m s).2.

Section preserves.
Context {S E : Type} (R : relation S) `{!PreOrder R}.

Lemma preserves_ret {A} (a : A) : preserves R (mret a : action S E A).
Proof. intros s. cbn. done. Qed.
Lemma preserves_throw {A} (e : E) : preserves R (throw e : action S E A).
Proof. intros s. cbn. done. Qed.
Lemma preserves_lift {A} (o : outcome E A) : preserves R (lift o : action S E A).
Proof. intros s. cbn. done. Qed.
Lemma preserves_bind {A B} (m : action S E A) (k : A → action S E B) :
  preserves R m → (∀ a, preserves R (k a)) → preserves R (m ≫= k).
Proof.
  intros Hm Hk s. specialize (Hm s). unfold mbind, action_bind.
  destruct (m s) as [[a|e|] s']; cbn in *; [|done..]. etrans; [exact Hm|apply Hk].
Qed.
Lemma preserves_attempt {A} (m : action S E A) : preserves R m → preserves R (attempt m).
Proof.
  intros Hm s. specialize (Hm s). unfold attempt. by destruct (m s) as [[a|e|] s'].
Qed.
Lemma preserves_for_each {A} (f : A → action S E unit) l :
  (∀ x, preserves R (f x)) → preserves R (for_each f l).
Proof.
  intros Hf. induction l; cbn [for_each]; [apply preserves_ret|]. by apply preserves_bind.
Qed.
End preserves.

Create HintDb preserves.
#[export] Hint Resolve preserves_ret preserves_throw preserves_lift preserves_bind preserves_attempt
  preserves_for_each : preserves.

(** An action that keeps an invariant. *)
Definition keeps {S E A} (I : S → Prop) (m : action S E A) : Prop := preserves (λ s s', I s → I s') m.

#[export] Instance keeps_preorder {S} (I : S → Prop) : PreOrder (λ s s', I s → I s').
Proof. split; intros ?; auto. Qed.

Section keeps.
Context {S E : Type} (I : S → Prop).

Lemma keeps_ret {A} (a : A) : keeps I (mret a : action S E A).
Proof. apply preserves_ret, _. Qed.
Lemma keeps_throw {A} (e : E) : keeps I (throw e : action S E A).
Proof. apply preserves_throw, _. Qed.
Lemma keeps_lift {A} (o : outcome E A) : keeps I (lift o : action S E A).
Proof. apply preserves_lift, _. Qed.
Lemma keeps_bind {A B} (m : action S E A) (k : A → action S E B) :
  keeps I m → (∀ a, keeps I (k a)) → keeps I (m ≫= k).
Proof. apply preserves_bind, _. Qed.
Lemma keeps_modify (f : S → S) : (∀ s, I s → I (f s)) → keeps I (modify f : action S E unit).
Proof. intros Hf s. apply Hf. Qed.
(** A value that is read satisfies what the invariant says of it. *)
Lemma keeps_gets {A B} (f : S → A) (k : A → action S E B) :
  (∀ s, I s → I (k (f s) s).2) → keeps I (gets f ≫= k).
Proof. intros Hk s. apply Hk. Qed.
Lemma wp_keeps {A} (m : action S E A) s : keeps I m → I s → wp m (λ _, I) s.
Proof. intros Hm Hs. by apply Hm. Qed.
Lemma keeps_wp {A} (m : action S E A) : (∀ s, I s → wp m (λ _, I) s) → keeps I m.
Proof. intros Hm s. apply Hm. Qed.
Lemma keeps_gets_any {A} (f : S → A) : keeps I (gets f : action S E A).
Proof. by intros s. Qed.
Lemma keeps_ignore_err {A} (m : action S E A) : keeps I m → keeps I (ignore_err m).
Proof. intros Hm. apply keeps_bind; [by apply preserves_attempt|]. intros. apply keeps_ret. Qed.
Lemma keeps_for_each {A} (f : A → action S E unit) l :
  (∀ x, x ∈ l → keeps I (f x)) → keeps I (for_each f l).
Proof.
  intros Hf. induction l as [|x l IH]; cbn [for_each]; [apply keeps_ret|].
  apply keeps_bind; [apply Hf; by left|]. intros _. apply IH. intros y Hy. apply Hf. by right.
Qed.
(** Taking an item off a list of pending ones and running it. *)
Lemma keeps_pop {A} (items : S → list A) (P : A → Prop) (del : S → S)
    (run : A → action S E unit) i :
  (∀ s, I s → Forall P (items s)) → (∀ s, I s → I (del s)) → (∀ x, P x → keeps I (run x)) →
  keeps I (x ← gets (λ s, items s !! i); _ ← modify del; from_option run (mret tt) x).
Proof.
  intros Hitems Hdel Hrun. apply keeps_gets. intros s Hs.
  destruct (items s !! i) as [x|] eqn:Hi; cbn; [|by apply Hdel].
  apply Hrun; [|by apply Hdel]. eapply Forall_lookup_1; [by apply Hitems|done].
Qed.
End keeps.

(** One step through an action that keeps an invariant. *)
Ltac keeps_step :=
  lazymatch goal with
  | |- keeps _ (mret _) => apply keeps_ret
  | |- keeps _ (throw _) => apply keeps_throw
  | |- keeps _ (lift _) => apply keeps_lift
  | |- keeps _ (gets _) => apply keeps_gets_any
  | |- keeps _ (_ ≫= _) => apply keeps_bind; [|intros ?]
  | |- keeps _ (ignore_err _) => apply keeps_ignore_err
  | |- keeps _ (if ?b then _ else _) => destruct b eqn:?
  | |- keeps _ (match ?x with _ => _ end) => destruct x eqn:?
  end.

(** ** Record update: [r <| field := v |>]

    A record declares its eta-expansion; the setter of a field is found by
    abstracting the projection in it. *)

Class Eta (R : Type) := eta : R → R.
Class Setter {R T : Type} (proj : R → T) := setter : (T → T) → R → R.

Ltac solve_setter :=
  lazymatch goal with
  | |- @Setter ?R ?T ?proj =>
      let inst := constr:(_ : Eta R) in
      let body := eval hnf in inst in
      lazymatch eval pattern proj in body with
      | ?F _ =>
          let t := eval cbv beta in (λ (f : T → T), F (λ r, f (proj r))) in
          exact t
      end
  end.
#[export] Hint Extern 0 (Setter _) => solve_setter : typeclass_instances.

Declare Scope record_scope.
Delimit Scope record_scope with record.
Notation "r <| p := v |>" := (setter (proj:=p) (λ _, v) r)
  (at level 12, left associativity, format "r  <| p  :=  v |>") : record_scope.
Open Scope record_scope.

(** ** Machine integers and bytes

    Unsigned 64-bit integers ([u64], and [usize] on the 64-bit targets the
    program supports) are [N]; wrap-around is written out where the code can
    overflow.  Lengths of in-memory collections are [nat]. *)

Definition u64_max : N := 2 ^ 64 - 1.
Definition wrap64 (n : N) : N := n `mod` 2 ^ 64.

Abbreviation bytes := (list byte) (only parsing).

#[export] Instance byte_eq_dec : EqDecision byte := Byte.byte_eq_dec.
#[export] Program Instance byte_countable : Countable byte :=
  inj_countable Byte.to_N Byte.of_N _.
Next Obligation. apply Byte.of_to_N. Qed.

Definition byte_of_N (n : N) : byte := default x00 (Byte.of_N (n `mod` 256)).

(** [to_le_bytes] / [from_le_bytes] of an integer of [len] bytes. *)
Fixpoint to_le_bytes (len : nat) (v : N) : bytes :=
  match len with
  | O => []
  | S len => byte_of_N v :: to_le_bytes len (v `div` 256)
  end.

Fixpoint from_le_bytes (bs : bytes) : N :=
  match bs with
  | [] => 0
  | b :: bs => Byte.to_N b + 256 * from_le_bytes bs
  end%N.

Lemma to_N_byte_of_N n : Byte.to_N (byte_of_N n) = (n `mod` 256)%N.
Proof.
  unfold byte_of_N.
  pose proof (Byte.to_of_N_option_map (n `mod` 256)) as Hm.
  pose proof (N.mod_lt n 256 ltac:(lia)) as Hlt.
  destruct (N.leb_spec (n `mod` 256) 255); [|lia].
  destruct (Byte.of_N _) as [b|]; simpl in *; congruence.
Qed.

Lemma byte_of_to_N b : byte_of_N (Byte.to_N b) = b.
Proof.
  unfold byte_of_N. pose proof (Byte.to_N_bounded b).
  rewrite N.mod_small by lia. by rewrite Byte.of_to_N.
Qed.

Lemma length_to_le_bytes len v : length (to_le_bytes len v) = len.
Proof. revert v. induction len; intros v; simpl; auto. Qed.

Lemma from_to_le_bytes len v :
  (v < 256 ^ N.of_nat len)%N → from_le_bytes (to_le_bytes len v) = v.
Proof.
  revert v. induction len as [|len IH]; intros v Hv; cbn [to_le_bytes from_le_bytes].
  - change (256 ^ N.of_nat 0)%N with 1%N in Hv. lia.
  - rewrite to_N_byte_of_N, IH.
    + pose proof (N.div_mod v 256). lia.
    + apply N.Div0.div_lt_upper_bound.
      rewrite Nat2N.inj_succ, N.pow_succ_r' in Hv. done.
Qed.

Lemma from_le_bytes_bound bs : (from_le_bytes bs < 256 ^ N.of_nat (length bs))%N.
Proof.
  induction bs as [|b bs IH]; cbn [from_le_bytes length]; [done|].
  rewrite Nat2N.inj_succ, N.pow_succ_r'. pose proof (Byte.to_N_bounded b). lia.
Qed.

Lemma to_from_le_bytes bs : to_le_bytes (length bs) (from_le_bytes bs) = bs.
Proof.
  induction bs as [|b bs IH]; cbn [from_le_bytes to_le_bytes length]; [done|].
  pose proof (Byte.to_N_bounded b) as Hb. f_equal.
  - rewrite <- (byte_of_to_N b) at 2. unfold byte_of_N. do 2 f_equal.
    rewrite (N.mul_comm 256), N.Div0.mod_add. done.
  - rewrite (N.mul_comm 256), N.div_add, N.div_small by lia. done.
Qed.

(** The length of a vector as a [usize]. *)
Definition len {A} (l : list A) : N := N.of_nat (length l).

(** [VariableList::new(v)]: a list bounded by a type-level capacity. *)
Definition try_to_variable_list {E A} (cap : N) (err : N → N → E) (v : list A)
    : outcome E (list A) :=
  if (len v <=? cap)%N then Ok v else Err (err (len v) cap).

Lemma total_try_to_variable_list {E A} cap (err : N → N → E) (v : list A) :
  total (try_to_variable_list cap err v).
Proof. unfold try_to_variable_list. by destruct (_ <=? _)%N. Qed.
#[export] Hint Resolve total_try_to_variable_list : total.

Lemma try_to_variable_list_ok {E A} cap (err : N → N → E) (v w : list A) :
  try_to_variable_list cap err v = Ok w ↔ w = v ∧ (len v <= cap)%N.
Proof. unfold try_to_variable_list. destruct (N.leb_spec (len v) cap); naive_solver lia. Qed.

(** ** Sets, lists and counting *)

Section counting.
Context `{Countable A}.
Implicit Types X Y C : gset A.

(** Two subsets of [C] overlap in at least what exceeds [C]. *)
Lemma size_intersection X Y C :
  X ⊆ C → Y ⊆ C → size X + size Y ≤ size C + size (X ∩ Y).
Proof.
  intros HX HY.
  assert (size (X ∪ Y) ≤ size C) by (apply subseteq_size; set_solver).
  assert (size (X ∪ Y) = size X + size (Y ∖ X)) as Hu by apply size_union_alt.
  assert (size Y = size (Y ∖ X) + size (X ∩ Y)) as HYs.
  { rewrite <- size_union by set_solver. f_equal.
    apply set_eq. intros z. destruct (decide (z ∈ X)); set_solver. }
  lia.
Qed.

Lemma size_pos_elem X : 0 < size X → ∃ x, x ∈ X.
Proof. apply size_pos_elem_of. Qed.

(** A set larger than [B] has an element outside it. *)
Lemma size_gt_witness X Y : size Y < size X → ∃ x, x ∈ X ∧ x ∉ Y.
Proof.
  intros Hlt. destruct (decide (X ⊆ Y)) as [Hs|Hns].
  - apply subseteq_size in Hs. lia.
  - assert (0 < size (X ∖ Y)) as Hpos.
    { assert (size X ≤ size (Y ∪ X)) by (apply subseteq_size; set_solver).
      pose proof (size_union_alt Y X). lia. }
    destruct (size_pos_elem _ Hpos) as [x Hx]. exists x. set_solver.
Qed.
End counting.

Lemma NoDup_length_size `{Countable A} (l : list A) :
  NoDup l → size (list_to_set l : gset A) = length l.
Proof. apply size_list_to_set. Qed.

(** ** [slice::sort_by_key]: a stable sort by an integer key *)

Section sort_by_key.
Context {A : Type} (key : A → N).

Fixpoint insert_by_key (x : A) (l : list A) : list A :=
  match l with
  | [] => [x]
  | y :: l' => if (key x <=? key y)%N then x :: y :: l' else y :: insert_by_key x l'
  end.

Fixpoint sort_by_key (l : list A) : list A :=
  match l with
  | [] => []
  | x :: l => insert_by_key x (sort_by_key l)
  end.

Abbreviation key_le := (λ x y, key x <= key y)%N.

Lemma insert_by_key_perm x l : insert_by_key x l ≡ₚ x :: l.
Proof.
  induction l as [|y l IH]; simpl; [done|]. destruct (_ <=? _)%N; [done|].
  rewrite IH. apply Permutation_swap.
Qed.

Lemma sort_by_key_perm l : sort_by_key l ≡ₚ l.
Proof. induction l as [|x l IH]; simpl; [done|]. by rewrite insert_by_key_perm, IH. Qed.

Lemma insert_by_key_sorted x l :
  StronglySorted key_le l → StronglySorted key_le (insert_by_key x l).
Proof.
  induction 1 as [|y l Hl IH Hy]; simpl; [by repeat constructor|].
  destruct (N.leb_spec (key x) (key y)) as [Hle|Hgt].
  - constructor; [by constructor|]. constructor; [done|].
    eapply Forall_impl; [exact Hy|]. simpl. lia.
  - constructor; [done|]. rewrite insert_by_key_perm. constructor; [lia|done].
Qed.

Lemma sort_by_key_sorted l : StronglySorted key_le (sort_by_key l).
Proof. induction l; simpl; [constructor|]. by apply insert_by_key_sorted. Qed.
End sort_by_key.

(** ** Automation *)

Create HintDb anchor.

(** Split conjunctions and use boolean tests as propositions. *)
Ltac split_and_hyps :=
  repeat match goal with
  | H : _ ∧ _ |- _ => destruct H
  | H : andb _ _ = true |- _ => apply andb_true_iff in H as [??]
  | H : orb _ _ = false |- _ => apply orb_false_iff in H as [??]
  | H : negb _ = true |- _ => apply negb_true_iff in H
  | H : negb _ = false |- _ => apply negb_false_iff in H
  | H : bool_decide _ = true |- _ => apply bool_decide_eq_true in H
  | H : bool_decide _ = false |- _ => apply bool_decide_eq_false in H
  end.
