(* ===== verification/SsvTypes.v ===== *)
(** * SSV data types

    The value types of [anchor/common/ssv_types/src]: consensus rounds
    ([round.rs]), the committee-size arithmetic ([lib.rs]), duty roles and the
    56-byte message identifier ([msgid.rs]), committee identifiers
    ([committee.rs]), and the hand-written wire discriminants of [message.rs],
    [consensus.rs] and [partial_sig.rs].  The theorems are the Byzantine quorum
    arithmetic and the round trips of the encodings. *)

From S2P Require Import Prelude.

(** ** Identifiers *)

(** [OperatorId(u64)] and [ValidatorIndex(usize)]. *)
Abbreviation OperatorId := N (only parsing).
Abbreviation ValidatorIndex := N (only parsing).
(** [Slot] and [Epoch] wrap a [u64]. *)
Abbreviation Slot := N (only parsing).
Abbreviation Epoch := N (only parsing).
(** [Hash256]: 32 bytes, which the code compares, tests for zero and uses as map
    keys; kept as the 256-bit number they spell. *)
Abbreviation Hash256 := N (only parsing).

(** ** [round.rs] *)

(** [Round(NonZeroUsize)]. *)
Abbreviation Round := positive (only parsing).

Definition round_get (r : Round) : N := N.pos r.

(** [impl From<u64> for Round]: panics on zero. *)
Definition round_from {E} (n : N) : outcome E Round :=
  match n with N0 => Panic | Npos p => Ok p end.

(** [impl Add<u64> for Round]: checked addition. *)
Definition round_add (r : Round) (rhs : N) : option Round :=
  let n := (round_get r + rhs)%N in
  if (n <=? u64_max)%N then match n with N0 => None | Npos p => Some p end else None.

Definition round_default : Round := 1%positive.

Definition round_next (r : Round) : option Round :=
  if (round_get r + 1 <=? u64_max)%N then Some (r + 1)%positive else None.

(** ** Committee sizes ([lib.rs]) *)

Definition MAX_SIGNATURES : nat := 13.

(** [members.saturating_sub(1) / 3]; subtraction on [nat] saturates. *)
Definition get_f (members : nat) : nat := (members - 1) `div` 3.

Definition quorum_size (committee_size : nat) : nat := get_f committee_size * 2 + 1.

Definition is_valid_committee_size (committee_size : nat) : bool :=
  let f := get_f committee_size in
  bool_decide ((committee_size - 1) `mod` 3 = 0) &&
  (bool_decide (1 ≤ f) && bool_decide (f ≤ get_f MAX_SIGNATURES)).

Lemma valid_committee_size_form n :
  is_valid_committee_size n = true → n = 3 * get_f n + 1 ∧ 1 ≤ get_f n.
Proof.
  unfold is_valid_committee_size. intros ?. split_and_hyps.
  unfold get_f in *. pose proof (Nat.div_mod_eq (n - 1) 3).
  split; [|done]. destruct (n - 1) eqn:E; simpl in *; lia.
Qed.

(** the committee sizes the code accepts are exactly 4, 7, 10 and 13, the
    sizes [3f + 1] of the SSV contracts. *)
Theorem valid_committee_sizes (n : nat) :
  is_valid_committee_size n = true ↔ n ∈ [4; 7; 10; 13].
Proof.
  split.
  - intros Hv. pose proof (valid_committee_size_form n Hv) as [Hn Hf].
    unfold is_valid_committee_size in Hv. split_and_hyps.
    change (get_f MAX_SIGNATURES) with 4 in *.
    assert (get_f n = 1 ∨ get_f n = 2 ∨ get_f n = 3 ∨ get_f n = 4) as Hc by lia.
    destruct Hc as [Hc|[Hc|[Hc|Hc]]]; rewrite Hc in Hn; subst n; set_solver.
  - intros Hin. repeat (apply elem_of_cons in Hin as [->|Hin]; [done|]). set_solver.
Qed.

(** Two quorums of a valid committee share an operator outside any set of at most
    [f] faulty ones. *)
Lemma quorum_intersection (C Q1 Q2 B : gset OperatorId) :
  is_valid_committee_size (size C) = true →
  Q1 ⊆ C → Q2 ⊆ C → quorum_size (size C) ≤ size Q1 → quorum_size (size C) ≤ size Q2 →
  size B ≤ get_f (size C) →
  ∃ x, x ∈ Q1 ∧ x ∈ Q2 ∧ x ∉ B.
Proof.
  intros Hv H1 H2 Hq1 Hq2 HB.
  pose proof (valid_committee_size_form _ Hv) as [Hn Hf].
  pose proof (size_intersection Q1 Q2 C H1 H2).
  unfold quorum_size in *.
  destruct (size_gt_witness (Q1 ∩ Q2) B) as (x & Hx & HxB); [lia|].
  exists x. set_solver.
Qed.

(** A quorum has a member outside any [f] faulty operators. *)
Lemma quorum_honest (C Q B : gset OperatorId) :
  is_valid_committee_size (size C) = true →
  quorum_size (size C) ≤ size Q → size B ≤ get_f (size C) →
  ∃ x, x ∈ Q ∧ x ∉ B.
Proof.
  intros Hv Hq HB. unfold quorum_size in *. apply size_gt_witness. lia.
Qed.

(** ** [msgid.rs] *)

Module Role.
Inductive Role :=
  | Committee
  | Aggregator
  | Proposer
  | SyncCommittee
  | ValidatorRegistration
  | VoluntaryExit
  | AggregatorCommittee
  | PTCAttester
  | ProposerPreferences.

#[global] Instance Role_eq_dec : EqDecision Role.
Proof. solve_decision. Defined.

(** [impl From<Role> for [u8; 4]]. *)
Definition role_to_bytes (r : Role) : bytes :=
  match r with
  | Committee => [x00; x00; x00; x00]
  | Aggregator => [x01; x00; x00; x00]
  | Proposer => [x02; x00; x00; x00]
  | SyncCommittee => [x03; x00; x00; x00]
  | ValidatorRegistration => [x04; x00; x00; x00]
  | VoluntaryExit => [x05; x00; x00; x00]
  | AggregatorCommittee => [x06; x00; x00; x00]
  | PTCAttester => [x07; x00; x00; x00]
  | ProposerPreferences => [x08; x00; x00; x00]
  end.

(** [impl TryFrom<&[u8]> for Role]. *)
Definition role_of_bytes (bs : bytes) : option Role :=
  match bs with
  | [x00; x00; x00; x00] => Some Committee
  | [x01; x00; x00; x00] => Some Aggregator
  | [x02; x00; x00; x00] => Some Proposer
  | [x03; x00; x00; x00] => Some SyncCommittee
  | [x04; x00; x00; x00] => Some ValidatorRegistration
  | [x05; x00; x00; x00] => Some VoluntaryExit
  | [x06; x00; x00; x00] => Some AggregatorCommittee
  | [x07; x00; x00; x00] => Some PTCAttester
  | [x08; x00; x00; x00] => Some ProposerPreferences
  | _ => None
  end.

Definition is_committee_role (r : Role) : bool :=
  match r with Committee | AggregatorCommittee => true | _ => false end.

Definition max_round (r : Role) : option N :=
  match r with
  | Committee | Aggregator | AggregatorCommittee => Some 12%N
  | Proposer => Some 2%N
  | SyncCommittee => Some 6%N
  | ValidatorRegistration | VoluntaryExit | PTCAttester | ProposerPreferences => None
  end.

Definition is_qbft_role (r : Role) : bool := bool_decide (is_Some (max_round r)).

Definition monotonic_slot_role (r : Role) : bool :=
  negb (is_committee_role r) && negb (bool_decide (r = ProposerPreferences)).

Lemma role_roundtrip r : role_of_bytes (role_to_bytes r) = Some r.
Proof. by destruct r. Qed.

Lemma length_role_to_bytes r : length (role_to_bytes r) = 4.
Proof. by destruct r. Qed.
End Role.
Abbreviation Role := Role.Role (only parsing).

(** [DomainType([u8; 4])], [CommitteeId([u8; 32])] and [PublicKeyBytes] (48 bytes)
    are byte lists of fixed length. *)
Abbreviation DomainType := bytes (only parsing).
Abbreviation CommitteeId := bytes (only parsing).
Abbreviation PublicKeyBytes := bytes (only parsing).
Definition MESSAGE_ID_LEN : nat := 56.
Abbreviation MessageId := bytes (only parsing).

Inductive DutyExecutor :=
  | ExecCommittee (id : CommitteeId)
  | ExecValidator (pk : PublicKeyBytes).

#[export] Instance DutyExecutor_eq_dec : EqDecision DutyExecutor.
Proof. solve_decision. Defined.

(** [dst[off..off + src.len()].copy_from_slice(src)]. *)
Definition copy_from_slice (dst : bytes) (off : nat) (src : bytes) : bytes :=
  take off dst ++ src ++ drop (off + length src) dst.

Definition message_id_new (domain : DomainType) (role : Role) (ex : DutyExecutor) : MessageId :=
  let id := replicate MESSAGE_ID_LEN x00 in
  let id := copy_from_slice id 0 domain in
  let id := copy_from_slice id 4 (Role.role_to_bytes role) in
  match ex with
  | ExecCommittee committee_id => copy_from_slice id 24 committee_id
  | ExecValidator public_key => copy_from_slice id 8 public_key
  end.

(** [self.0[lo..hi]] *)
Definition slice (lo hi : nat) (bs : bytes) : bytes := take (hi - lo) (drop lo bs).

Definition message_id_domain (id : MessageId) : DomainType := slice 0 4 id.

Definition message_id_role (id : MessageId) : option Role := Role.role_of_bytes (slice 4 8 id).

Section executor.
(** [bls::PublicKeyBytes::deserialize]. *)
Context (pk_deserialize : bytes → option PublicKeyBytes).

Definition message_id_duty_executor (id : MessageId) : option DutyExecutor :=
  role ← message_id_role id;
  match role with
  | Role.Committee | Role.AggregatorCommittee =>
      let tail := drop 24 id in
      if decide (length tail = 32) then Some (ExecCommittee tail) else None
  | _ => ExecValidator <$> pk_deserialize (drop 8 id)
  end.

(** The executor a role names: a committee for the two committee roles, a
    validator for the others; and the byte arrays have their fixed lengths. *)
Definition executor_matches (role : Role) (ex : DutyExecutor) : Prop :=
  match ex with
  | ExecCommittee id => Role.is_committee_role role = true ∧ length id = 32
  | ExecValidator pk => Role.is_committee_role role = false ∧ length pk = 48
  end.
End executor.

Lemma message_id_new_parts domain role ex :
  length domain = 4 → executor_matches role ex →
  message_id_new domain role ex =
    domain ++ Role.role_to_bytes role ++
    match ex with
    | ExecCommittee id => replicate 16 x00 ++ id
    | ExecValidator pk => pk
    end.
Proof.
  intros Hd Hex. destruct domain as [|d0 [|d1 [|d2 [|d3 [|]]]]]; try done.
  unfold message_id_new, copy_from_slice.
  destruct ex as [id|pk]; destruct Hex as [_ Hlen]; rewrite Hlen;
    destruct role; cbn -[app]; by rewrite app_nil_r.
Qed.

(** a message identifier built from a domain, a role and the executor that role
    names decodes back to exactly those three, and has 56 bytes. *)
Theorem message_id_roundtrip pk_deserialize domain role ex :
  (∀ pk, length pk = 48 → pk_deserialize pk = Some pk) →
  length domain = 4 → executor_matches role ex →
  let id := message_id_new domain role ex in
  length id = MESSAGE_ID_LEN ∧ message_id_domain id = domain ∧
  message_id_role id = Some role ∧
  message_id_duty_executor pk_deserialize id = Some ex.
Proof.
  intros Hpk Hd Hex id. unfold id.
  rewrite (message_id_new_parts _ _ _ Hd Hex).
  destruct domain as [|d0 [|d1 [|d2 [|d3 [|]]]]]; try done.
  unfold message_id_domain, message_id_duty_executor, message_id_role, slice.
  destruct ex as [cid|pk]; destruct Hex as [Hr Hlen]; destruct role; try done;
    cbn -[length]; rewrite ?Hpk by done; cbn; rewrite ?Hlen; try done;
    (rewrite decide_True by done; done).
Qed.

Lemma message_id_roundtrip_witness :
  let id := message_id_new [x00; x00; x00; x01] Role.Committee
              (ExecCommittee (replicate 32 x2a)) in
  length id = MESSAGE_ID_LEN ∧ message_id_domain id = [x00; x00; x00; x01] ∧
  message_id_role id = Some Role.Committee ∧
  message_id_duty_executor Some id = Some (ExecCommittee (replicate 32 x2a)).
Proof. apply (message_id_roundtrip Some); done. Defined.

(** ** [committee.rs] *)

Section committee_id.
(** SHA-256, from the [sha2] crate. *)
Context (sha256 : bytes → bytes).

(** The bytes fed to the hasher: [(id.0 as u32).to_le_bytes()] of each id. *)
Definition committee_id_preimage (operator_ids : list OperatorId) : bytes :=
  operator_ids ≫= λ id, to_le_bytes 4 (id `mod` 2 ^ 32).

(** [impl From<&[OperatorId]> for CommitteeId]: the slice order is kept. *)
Definition committee_id_of_slice (operator_ids : list OperatorId) : CommitteeId :=
  sha256 (committee_id_preimage operator_ids).

(** [impl From<Vec<OperatorId>> for CommitteeId]: sorts first. *)
Definition committee_id_of_vec (operator_ids : list OperatorId) : CommitteeId :=
  committee_id_of_slice (merge_sort N.le operator_ids).
End committee_id.

Lemma committee_id_preimage_inj (l k : list OperatorId) :
  Forall (λ id, id < 2 ^ 32)%N l → Forall (λ id, id < 2 ^ 32)%N k →
  committee_id_preimage l = committee_id_preimage k → l = k.
Proof.
  intros Hl. revert k. induction Hl as [|x l Hx Hl IH]; intros [|y k] Hk He; try done.
  apply Forall_cons in Hk as [Hy Hk].
  change (to_le_bytes 4 (x `mod` 2 ^ 32) ++ committee_id_preimage l =
          to_le_bytes 4 (y `mod` 2 ^ 32) ++ committee_id_preimage k) in He.
  apply app_inj_1 in He as [Hb Hrest]; [|by rewrite !length_to_le_bytes].
  rewrite !N.mod_small in Hb by done.
  f_equal; [|by apply IH].
  apply (f_equal from_le_bytes) in Hb. rewrite !from_to_le_bytes in Hb; done.
Qed.

#[export] Instance N_le_antisymm : AntiSymm (=) N.le.
Proof. intros x y. lia. Qed.
#[export] Instance N_le_trans : Transitive N.le.
Proof. intros x y z. lia. Qed.
#[export] Instance N_le_total : Total N.le.
Proof. intros x y. lia. Qed.

(** Sorting makes a list canonical for its permutation class. *)
Lemma merge_sort_perm_eq (l k : list N) :
  l ≡ₚ k → merge_sort N.le l = merge_sort N.le k.
Proof.
  intros Hp. apply (StronglySorted_unique N.le).
  - apply StronglySorted_merge_sort; apply _.
  - apply StronglySorted_merge_sort; apply _.
  - by rewrite !merge_sort_Permutation.
Qed.

Lemma merge_sort_fixed (l : list N) : StronglySorted N.le l → merge_sort N.le l = l.
Proof.
  intros Hl. apply (StronglySorted_unique N.le); [|done|apply merge_sort_Permutation].
  apply StronglySorted_merge_sort; apply _.
Qed.

(** a committee identifier computed from a vector of 32-bit operator ids does
    not depend on the order of the vector, and tells apart any two committees whose
    hash inputs do not collide. *)
Theorem committee_id_canonical (sha256 : bytes → bytes) (l k : list OperatorId) :
  Forall (λ id, id < 2 ^ 32)%N l → Forall (λ id, id < 2 ^ 32)%N k →
  (let pre := λ ids, committee_id_preimage (merge_sort N.le ids) in
   sha256 (pre l) = sha256 (pre k) → pre l = pre k) →
  committee_id_of_vec sha256 l = committee_id_of_vec sha256 k ↔ l ≡ₚ k.
Proof.
  intros Hl Hk Hinj. unfold committee_id_of_vec. split.
  - intros He. apply Hinj, committee_id_preimage_inj in He.
    + by rewrite <- (merge_sort_Permutation N.le l), He, merge_sort_Permutation.
    + by rewrite merge_sort_Permutation.
    + by rewrite merge_sort_Permutation.
  - intros Hp. by rewrite (merge_sort_perm_eq _ _ Hp).
Qed.

Lemma committee_id_canonical_witness :
  committee_id_of_vec id [3; 1; 2; 4]%N = committee_id_of_vec id [4; 3; 2; 1]%N ↔
  ([3; 1; 2; 4] ≡ₚ [4; 3; 2; 1])%N.
Proof.
  apply committee_id_canonical.
  - by repeat constructor.
  - by repeat constructor.
  - intros pre Hxy. exact Hxy.
Defined.

(** ** Wire discriminants *)

(** [ssz::DecodeError]; [OtherDecodeError] stands for the variants only the [ssz] crate
    constructs. *)
Inductive DecodeError :=
  | InvalidByteLength (len expected : nat)
  | NoMatchingVariant
  | BytesInvalid (reason : string)
  | OtherDecodeError.

(** [MsgType] ([message.rs]). *)
Inductive MsgType := SSVConsensusMsgType | SSVPartialSignatureMsgType.

#[export] Instance MsgType_eq_dec : EqDecision MsgType.
Proof. solve_decision. Defined.

Definition msg_type_to_u64 (m : MsgType) : N :=
  match m with SSVConsensusMsgType => 0 | SSVPartialSignatureMsgType => 1 end.

Definition msg_type_of_u64 (v : N) : outcome DecodeError MsgType :=
  match v with
  | 0%N => Ok SSVConsensusMsgType
  | 1%N => Ok SSVPartialSignatureMsgType
  | _ => Err NoMatchingVariant
  end.

(** [QbftMessageType] ([consensus.rs]). *)
Inductive QbftMessageType := Proposal | Prepare | Commit | RoundChange.

#[export] Instance QbftMessageType_eq_dec : EqDecision QbftMessageType.
Proof. solve_decision. Defined.

(** [impl Encode for QbftMessageType]. *)
Definition qbft_message_type_encode (t : QbftMessageType) : bytes :=
  to_le_bytes 8 match t with Proposal => 0 | Prepare => 1 | Commit => 2 | RoundChange => 3 end.

(** [impl Decode for QbftMessageType]. *)
Definition qbft_message_type_decode (bs : bytes) : outcome DecodeError QbftMessageType :=
  if decide (length bs = 8) then
    match from_le_bytes bs with
    | 0%N => Ok Proposal
    | 1%N => Ok Prepare
    | 2%N => Ok Commit
    | 3%N => Ok RoundChange
    | _ => Err NoMatchingVariant
    end
  else Err (InvalidByteLength (length bs) 8).

(** [PartialSignatureKind] ([partial_sig.rs]). *)
Module PartialSignatureKind.
Inductive PartialSignatureKind :=
  | PostConsensus
  | RandaoPartialSig
  | SelectionProofPartialSig
  | ContributionProofs
  | ValidatorRegistration
  | VoluntaryExit
  | AggregatorCommitteePartialSig
  | PTCAttester
  | ProposerPreferences
  | RequestAuth.

#[global] Instance PartialSignatureKind_eq_dec : EqDecision PartialSignatureKind.
Proof. solve_decision. Defined.

(** [kind as u64]: the explicit discriminants. *)
Definition kind_to_u64 (k : PartialSignatureKind) : N :=
  match k with
  | PostConsensus => 0
  | RandaoPartialSig => 1
  | SelectionProofPartialSig => 2
  | ContributionProofs => 3
  | ValidatorRegistration => 4
  | VoluntaryExit => 5
  | AggregatorCommitteePartialSig => 6
  | PTCAttester => 7
  | ProposerPreferences => 8
  | RequestAuth => 9
  end.

(** [impl TryFrom<u64> for PartialSignatureKind]. *)
Definition kind_of_u64 (v : N) : option PartialSignatureKind :=
  match v with
  | 0%N => Some PostConsensus
  | 1%N => Some RandaoPartialSig
  | 2%N => Some SelectionProofPartialSig
  | 3%N => Some ContributionProofs
  | 4%N => Some ValidatorRegistration
  | 5%N => Some VoluntaryExit
  | 6%N => Some AggregatorCommitteePartialSig
  | 7%N => Some PTCAttester
  | 8%N => Some ProposerPreferences
  | 9%N => Some RequestAuth
  | _ => None
  end.

(** [impl Encode] and [impl Decode for PartialSignatureKind]. *)
Definition kind_encode (k : PartialSignatureKind) : bytes := to_le_bytes 8 (kind_to_u64 k).

Definition kind_decode (bs : bytes) : outcome DecodeError PartialSignatureKind :=
  if decide (length bs = 8) then ok_or (kind_of_u64 (from_le_bytes bs)) NoMatchingVariant
  else Err (InvalidByteLength (length bs) 8).
End PartialSignatureKind.
Abbreviation PartialSignatureKind := PartialSignatureKind.PartialSignatureKind (only parsing).

(** the two hand-written eight-byte enum codecs are exact: decoding accepts
    precisely the encodings, and returns the encoded value. *)
Theorem enum_codecs_exact (bs : bytes) (t : QbftMessageType) (k : PartialSignatureKind) :
  (qbft_message_type_decode bs = Ok t ↔ bs = qbft_message_type_encode t) ∧
  (PartialSignatureKind.kind_decode bs = Ok k ↔ bs = PartialSignatureKind.kind_encode k).
Proof.
  split; split.
  - unfold qbft_message_type_decode. case_decide as Hlen; [|done]. intros He.
    rewrite <- (to_from_le_bytes bs), Hlen. unfold qbft_message_type_encode. f_equal.
    repeat case_match; simplify_eq; done.
  - intros ->. by destruct t.
  - unfold PartialSignatureKind.kind_decode. case_decide as Hlen; [|done]. intros He.
    rewrite <- (to_from_le_bytes bs), Hlen. unfold PartialSignatureKind.kind_encode. f_equal.
    unfold PartialSignatureKind.kind_of_u64 in He.
    repeat case_match; simplify_eq/=; done.
  - intros ->. by destruct k.
Qed.

(** ** [partial_sig.rs] *)

Record PartialSignatureMessage := {
  partial_signature : bytes;
  signing_root : Hash256;
  psm_signer : OperatorId;
  validator_index : ValidatorIndex;
}.

Record PartialSignatureMessages := {
  kind : PartialSignatureKind;
  psm_slot : Slot;
  messages : list PartialSignatureMessage;
}.

Inductive PartialSignatureMessagesError :=
  | PsmEmpty
  | PsmInconsistentSigners
  | PsmZeroSigner.

(** [PartialSignatureMessages::validate]. *)
Definition partial_signature_messages_validate (m : PartialSignatureMessages)
    : outcome PartialSignatureMessagesError OperatorId :=
  first ← ok_or (head (messages m)) PsmEmpty;
  if decide (psm_signer first = 0%N) then Err PsmZeroSigner
  else if existsb (λ m, negb (bool_decide (psm_signer m = psm_signer first)))
                  (drop 1 (messages m))
  then Err PsmInconsistentSigners
  else Ok (psm_signer first).

(** What a successful validation promises: every entry carries the same non-zero
    signer. *)
Lemma partial_signature_messages_validate_ok m s :
  partial_signature_messages_validate m = Ok s ↔
  messages m ≠ [] ∧ s ≠ 0%N ∧ Forall (λ x, psm_signer x = s) (messages m).
Proof.
  unfold partial_signature_messages_validate. destruct (messages m) as [|x l]; cbn; rewrite ?drop_0.
  { split; [done|]. naive_solver. }
  case_decide as Hz; [split; [done|]|].
  { intros (_ & Hs & Hall). apply Forall_cons in Hall. naive_solver. }
  destruct (existsb (λ m, negb (bool_decide (psm_signer m = psm_signer x))) l) eqn:He.
  - split; [done|]. intros (_ & _ & Hall). apply Forall_cons in Hall as [Hx Hl].
    apply existsb_exists in He as (y & Hy & Hne). apply list_elem_of_In in Hy.
    rewrite Forall_forall in Hl. split_and_hyps. exfalso. apply Hne.
    rewrite (Hl _ Hy). done.
  - split.
    + intros [= <-]. split; [done|]. split; [done|]. constructor; [done|].
      apply Forall_forall. intros y Hy. destruct (decide (psm_signer y = psm_signer x)) as [|Hne]; [done|].
      assert (existsb (λ m, negb (bool_decide (psm_signer m = psm_signer x))) l = true) as Ht; [|congruence].
      apply existsb_exists. exists y. split; [by apply list_elem_of_In|].
      by rewrite bool_decide_eq_false_2.
    + intros (_ & _ & Hall). apply Forall_cons in Hall as [-> _]. done.
Qed.
