(* ===== verification/Messages.v ===== *)
(** * SSV messages

    The message containers of [anchor/common/ssv_types/src/message.rs] and
    [consensus.rs]: an [SSVMessage], its signed form with one or more operator
    signatures, and the QBFT payload.  Construction, structural validation and the
    aggregation of commit signatures are modelled in full; the derived SSZ codecs
    are the interface [SszCodec]. *)

From S2P Require Import Prelude SsvTypes.

(** ** Size limits *)

Definition RSA_SIGNATURE_SIZE : N := 256.
Definition RoundChangeJustificationLength : N := 51852.
Definition PrepareJustificationLength : N := 3700.
Definition SSVMessageDataLen : N := 726932.
Definition SSVMessageFullDataLen : N := 8388836.
(** Capacity [U13] of the signature, signer and justification lists. *)
Definition MaxSigners : N := 13.
Definition BYTES_PER_LENGTH_OFFSET : N := 4.

Definition MAX_CONSENSUS_MSG_SIZE : N :=
  (8 + 8 + 8 + (56 + BYTES_PER_LENGTH_OFFSET) + 32 + 8
   + (MaxSigners * (RoundChangeJustificationLength + BYTES_PER_LENGTH_OFFSET)
      + BYTES_PER_LENGTH_OFFSET)
   + (MaxSigners * (PrepareJustificationLength + BYTES_PER_LENGTH_OFFSET)
      + BYTES_PER_LENGTH_OFFSET))%N.

Definition PARTIAL_SIGNATURE_MSG_SIZE : N := (96 + 32 + 8 + 8)%N.

Definition MAX_PARTIAL_SIGNATURE_MSGS_SIZE : N :=
  (8 + 8 + 5048 * PARTIAL_SIGNATURE_MSG_SIZE + BYTES_PER_LENGTH_OFFSET)%N.

(** ** [SSVMessage] *)

Record SSVMessage := {
  msg_type : MsgType;
  msg_id : MessageId;
  ssv_data : bytes;
}.

#[export] Instance SSVMessage_eq_dec : EqDecision SSVMessage.
Proof. solve_decision. Defined.

Inductive SSVMessageError :=
  | EmptyData
  | SSVDataTooBig (provided max : N)
  | SSVWrongDomain (got want : string)
  | SSVSignerNotInCommittee (got : N) (want : list N).

Definition ssv_message_validate (m : SSVMessage) : outcome SSVMessageError unit :=
  match ssv_data m with
  | [] => Err EmptyData
  | _ =>
    match msg_type m with
    | SSVConsensusMsgType =>
        if (MAX_CONSENSUS_MSG_SIZE <? len (ssv_data m))%N
        then Err (SSVDataTooBig (len (ssv_data m)) MAX_CONSENSUS_MSG_SIZE) else Ok tt
    | SSVPartialSignatureMsgType =>
        if (MAX_PARTIAL_SIGNATURE_MSGS_SIZE <? len (ssv_data m))%N
        then Err (SSVDataTooBig (len (ssv_data m)) MAX_PARTIAL_SIGNATURE_MSGS_SIZE) else Ok tt
    end
  end.

Definition ssv_message_new (ty : MsgType) (id : MessageId) (data : bytes)
    : outcome SSVMessageError SSVMessage :=
  data ← try_to_variable_list SSVMessageDataLen SSVDataTooBig data;
  let m := {| msg_type := ty; msg_id := id; ssv_data := data |} in
  _ ← ssv_message_validate m;
  mret m.

(** ** [SignedSSVMessage] *)

Record SignedSSVMessage := {
  signatures : list bytes;
  operator_ids : list OperatorId;
  ssv_message : SSVMessage;
  full_data : bytes;
}.

#[export] Instance SignedSSVMessage_eq_dec : EqDecision SignedSSVMessage.
Proof. solve_decision. Defined.
#[export] Instance SignedSSVMessage_eta : Eta SignedSSVMessage := λ m,
  {| signatures := signatures m; operator_ids := operator_ids m;
     ssv_message := ssv_message m; full_data := full_data m |}.

Inductive SignedSSVMessageError :=
  | TooManySignatures (provided max : N)
  | WrongRSASignatureSize (index length sig_length : N)
  | TooManyOperatorIDs (provided max : N)
  | FullDataTooLong (provided max : N)
  | NoSigners
  | SignersAndSignaturesWithDifferentLength
  | ZeroSigner
  | SignersNotSorted
  | NoSignatures
  | DuplicatedSigner
  | InvalidSSVMessage (e : SSVMessageError).

(** The [HashSet::insert] loop of [validate]. *)
Fixpoint has_duplicate_signer (seen : gset OperatorId) (ids : list OperatorId) : bool :=
  match ids with
  | [] => false
  | x :: ids =>
      if decide (x ∈ seen) then true else has_duplicate_signer ({[x]} ∪ seen) ids
  end.

(** The signature-size loop of [validate], at index [i]. *)
Fixpoint validate_signature_sizes (i : N) (sigs : list bytes)
    : outcome SignedSSVMessageError unit :=
  match sigs with
  | [] => Ok tt
  | sig :: sigs =>
      if (len sig =? RSA_SIGNATURE_SIZE)%N then validate_signature_sizes (i + 1) sigs
      else Err (WrongRSASignatureSize i (len sig) RSA_SIGNATURE_SIZE)
  end.

Definition signed_message_validate (m : SignedSSVMessage) : outcome SignedSSVMessageError unit :=
  _ ← validate_signature_sizes 0 (signatures m);
  if decide (operator_ids m = []) then Err NoSigners
  else if decide (signatures m = []) then Err NoSignatures
  else if existsb (λ id, id =? 0)%N (operator_ids m) then Err ZeroSigner
  else if has_duplicate_signer ∅ (operator_ids m) then Err DuplicatedSigner
  else if negb (len (operator_ids m) =? len (signatures m))%N
  then Err SignersAndSignaturesWithDifferentLength
  else map_err InvalidSSVMessage (ssv_message_validate (ssv_message m)).

(** The conversion of each [u8; 256] to a bounded list, at index [i]. *)
Fixpoint signatures_to_variable_lists (i : N) (sigs : list bytes)
    : outcome SignedSSVMessageError (list bytes) :=
  match sigs with
  | [] => Ok []
  | sig :: sigs =>
      s ← try_to_variable_list RSA_SIGNATURE_SIZE
            (λ _ _, WrongRSASignatureSize i (len sig) RSA_SIGNATURE_SIZE) sig;
      ss ← signatures_to_variable_lists (i + 1) sigs;
      mret (s :: ss)
  end.

Definition signed_message_new (sigs : list bytes) (ids : list OperatorId)
    (ssv : SSVMessage) (data : bytes) : outcome SignedSSVMessageError SignedSSVMessage :=
  sigs ← signatures_to_variable_lists 0 sigs;
  sigs ← try_to_variable_list MaxSigners TooManySignatures sigs;
  ids ← try_to_variable_list MaxSigners TooManyOperatorIDs ids;
  data ← try_to_variable_list SSVMessageFullDataLen FullDataTooLong data;
  let m := {| signatures := sigs; operator_ids := ids; ssv_message := ssv; full_data := data |} in
  _ ← signed_message_validate m;
  mret m.

Definition set_full_data (m : SignedSSVMessage) (data : bytes)
    : outcome SignedSSVMessageError SignedSSVMessage :=
  data ← try_to_variable_list SSVMessageFullDataLen FullDataTooLong data;
  mret (m <| full_data := data |>).

Definition without_full_data (m : SignedSSVMessage) : SignedSSVMessage :=
  m <| full_data := [] |>.

(** [VariableList::push] of each element of [xs] in turn. *)
Fixpoint push_all {A} (err : N → N → SignedSSVMessageError) (l xs : list A)
    : outcome SignedSSVMessageError (list A) :=
  match xs with
  | [] => Ok l
  | x :: xs =>
      if (len l <? MaxSigners)%N then push_all err (l ++ [x]) xs
      else Err (err (len l + 1)%N (N.of_nat MAX_SIGNATURES))
  end.

Fixpoint aggregate_loop (m : SignedSSVMessage) (others : list SignedSSVMessage)
    : outcome SignedSSVMessageError SignedSSVMessage :=
  match others with
  | [] => Ok m
  | o :: others =>
      if negb (len (operator_ids o) =? len (signatures o))%N
      then Err SignersAndSignaturesWithDifferentLength
      else
        sigs ← push_all TooManySignatures (signatures m) (signatures o);
        ids ← push_all TooManyOperatorIDs (operator_ids m) (operator_ids o);
        aggregate_loop (m <| signatures := sigs |> <| operator_ids := ids |>) others
  end.

(** [SignedSSVMessage::aggregate].  On an error the caller drops the partially
    extended message, so only the successful result is returned. *)
Definition aggregate (m : SignedSSVMessage) (others : list SignedSSVMessage)
    : outcome SignedSSVMessageError SignedSSVMessage :=
  m ← aggregate_loop m others;
  let sig_pairs := sort_by_key snd (zip (signatures m) (operator_ids m)) in
  sigs ← try_to_variable_list MaxSigners TooManySignatures (sig_pairs.*1);
  ids ← try_to_variable_list MaxSigners TooManyOperatorIDs (sig_pairs.*2);
  mret (m <| signatures := sigs |> <| operator_ids := ids |>).

(** ** QBFT payload ([consensus.rs]) *)

Record QbftMessage := {
  qbft_message_type : QbftMessageType;
  height : N;
  round : N;
  identifier : bytes;
  root : Hash256;
  data_round : N;
  round_change_justification : list bytes;
  prepare_justification : list bytes;
}.

#[export] Instance QbftMessage_eq_dec : EqDecision QbftMessage.
Proof. solve_decision. Defined.

Record UnsignedSSVMessage := {
  unsigned_ssv_message : SSVMessage;
  unsigned_full_data : bytes;
}.

(** The derived SSZ codecs, generated by [ssz_derive]. *)
Class SszCodec := {
  signed_from_ssz : bytes → option SignedSSVMessage;
  signed_as_ssz : SignedSSVMessage → bytes;
  qbft_from_ssz : bytes → option QbftMessage;
  qbft_as_ssz : QbftMessage → bytes;
  psm_from_ssz : bytes → option PartialSignatureMessages;
}.

(** Decoding inverts encoding. *)
Class SszRoundTrip `{SszCodec} := {
  qbft_ssz_roundtrip m : qbft_from_ssz (qbft_as_ssz m) = Some m;
  signed_ssz_roundtrip m : signed_from_ssz (signed_as_ssz m) = Some m;
}.

(** [SSVMessage::extract_slot]. *)
Definition extract_slot `{SszCodec} (m : SSVMessage) : option Slot :=
  match msg_type m with
  | SSVConsensusMsgType => height <$> qbft_from_ssz (ssv_data m)
  | SSVPartialSignatureMsgType => psm_slot <$> psm_from_ssz (ssv_data m)
  end.

(** ** Structural validity *)

Lemma len_eqb {A B} (l : list A) (k : list B) :
  (len l =? len k)%N = true ↔ length l = length k.
Proof. unfold len. rewrite N.eqb_eq. lia. Qed.

Lemma validate_signature_sizes_ok i sigs :
  validate_signature_sizes i sigs = Ok tt ↔ Forall (λ s, len s = RSA_SIGNATURE_SIZE) sigs.
Proof.
  revert i. induction sigs as [|s sigs IH]; intros i; simpl; [by split|].
  rewrite Forall_cons. destruct (N.eqb_spec (len s) RSA_SIGNATURE_SIZE).
  - rewrite IH. naive_solver.
  - naive_solver.
Qed.

Lemma has_duplicate_signer_false seen ids :
  has_duplicate_signer seen ids = false ↔ NoDup ids ∧ ∀ x, x ∈ ids → x ∉ seen.
Proof.
  revert seen. induction ids as [|x ids IH]; intros seen; simpl.
  - split; [intros _|done]. split; [constructor|set_solver].
  - rewrite NoDup_cons. case_decide as Hx.
    + split; [done|]. intros [_ Hn]. destruct (Hn x); set_solver.
    + rewrite IH. set_solver.
Qed.

Lemma existsb_zero_false (ids : list N) :
  existsb (λ id, id =? 0)%N ids = false ↔ 0%N ∉ ids.
Proof.
  induction ids as [|x ids IH]; simpl.
  - set_solver.
  - rewrite orb_false_iff, IH, N.eqb_neq. set_solver.
Qed.

(** What [SignedSSVMessage::validate] accepts. *)
Record signed_wf (m : SignedSSVMessage) : Prop := {
  swf_sizes : Forall (λ s, len s = RSA_SIGNATURE_SIZE) (signatures m);
  swf_signers : operator_ids m ≠ [];
  swf_signatures : signatures m ≠ [];
  swf_nonzero : 0%N ∉ operator_ids m;
  swf_nodup : NoDup (operator_ids m);
  swf_paired : length (operator_ids m) = length (signatures m);
  swf_ssv : ssv_message_validate (ssv_message m) = Ok tt;
}.

Lemma signed_message_validate_ok m :
  signed_message_validate m = Ok tt ↔ signed_wf m.
Proof.
  unfold signed_message_validate, mbind, outcome_bind.
  pose proof (validate_signature_sizes_ok 0 (signatures m)) as Hsz.
  split.
  - destruct (validate_signature_sizes 0 (signatures m)) as [[]| |] eqn:E1; try done.
    case_decide; [done|]. case_decide; [done|].
    destruct (existsb _ _) eqn:E2; [done|].
    destruct (has_duplicate_signer _ _) eqn:E3; [done|].
    destruct (negb _) eqn:E4; [done|].
    apply has_duplicate_signer_false in E3 as [E3 _].
    apply existsb_zero_false in E2. split_and_hyps. apply len_eqb in E4.
    intros Hs. split; try done; [by apply Hsz|].
    destruct (ssv_message_validate _) as [[]| |]; done.
  - intros [H1 H2 H3 H4 H5 H6 H7]. apply Hsz in H1 as ->.
    rewrite !decide_False by done.
    rewrite (proj2 (existsb_zero_false _) H4).
    rewrite (proj2 (has_duplicate_signer_false _ _)) by (split; [done|set_solver]).
    rewrite (proj2 (len_eqb _ _) H6). simpl. by rewrite H7.
Qed.

Lemma signatures_to_variable_lists_ok i sigs sigs' :
  signatures_to_variable_lists i sigs = Ok sigs' → sigs' = sigs.
Proof.
  revert i sigs'. induction sigs as [|sig sigs IH]; intros i sigs'; cbn [signatures_to_variable_lists].
  - by intros [= <-].
  - intros (s & [-> _]%try_to_variable_list_ok & H)%bind_ok.
    apply bind_ok in H as (ss & ->%IH & [= <-]). done.
Qed.

Lemma signed_message_new_ok sigs ids ssv data m :
  signed_message_new sigs ids ssv data = Ok m →
  {| signatures := sigs; operator_ids := ids; ssv_message := ssv; full_data := data |} = m ∧
  signed_wf m.
Proof.
  unfold signed_message_new. intros (s1 & ->%signatures_to_variable_lists_ok & H)%bind_ok.
  apply bind_ok in H as (s2 & [-> _]%try_to_variable_list_ok & H).
  apply bind_ok in H as (s3 & [-> _]%try_to_variable_list_ok & H).
  apply bind_ok in H as (s4 & [-> _]%try_to_variable_list_ok & H).
  apply bind_ok in H as ([] & Hwf%signed_message_validate_ok & [= <-]). done.
Qed.

(** ** Aggregation *)

(** The (signature, signer) pairs of a message. *)
Definition sig_pairs (m : SignedSSVMessage) : list (bytes * OperatorId) :=
  zip (signatures m) (operator_ids m).

Definition paired (m : SignedSSVMessage) : Prop :=
  length (operator_ids m) = length (signatures m).

Lemma push_all_fits {A} err (l xs : list A) :
  (len (l ++ xs) <= MaxSigners)%N → push_all err l xs = Ok (l ++ xs).
Proof.
  revert l. induction xs as [|x xs IH]; intros l Hl; simpl.
  - by rewrite app_nil_r.
  - unfold len in *. rewrite length_app in Hl. simpl in Hl.
    destruct (N.ltb_spec (N.of_nat (length l)) MaxSigners); [|lia].
    rewrite IH; rewrite <- app_assoc; simpl; [done|].
    rewrite length_app. simpl. lia.
Qed.

Lemma aggregate_loop_fits m others :
  Forall paired others →
  (len (operator_ids m ++ (others ≫= operator_ids)) <= MaxSigners)%N →
  (len (signatures m ++ (others ≫= signatures)) <= MaxSigners)%N →
  aggregate_loop m others =
    Ok (m <| signatures := signatures m ++ (others ≫= signatures) |>
          <| operator_ids := operator_ids m ++ (others ≫= operator_ids) |>).
Proof.
  intros Hp. revert m. induction Hp as [|o others Ho Hp IH]; intros m H1 H2;
    cbn [aggregate_loop].
  - simpl. rewrite !app_nil_r. by destruct m.
  - rewrite (proj2 (len_eqb _ _) Ho). cbn [negb]. rewrite !bind_cons in *.
    unfold len in *. rewrite !length_app in H1, H2.
    rewrite push_all_fits by (unfold len; rewrite length_app; lia). simpl.
    rewrite push_all_fits by (unfold len; rewrite length_app; lia). simpl.
    rewrite IH; simpl; rewrite <- ?app_assoc; try done; rewrite !length_app; lia.
Qed.

Lemma zip_concat_pairs m others :
  paired m → Forall paired others →
  zip (signatures m ++ (others ≫= signatures)) (operator_ids m ++ (others ≫= operator_ids)) =
  sig_pairs m ++ (others ≫= sig_pairs).
Proof.
  intros Hm Hp. unfold sig_pairs. rewrite zip_with_app by done. f_equal.
  induction Hp as [|o others Ho Hp IH]; [done|]. rewrite !bind_cons.
  rewrite zip_with_app by done. by rewrite IH.
Qed.

Lemma paired_lengths others :
  Forall paired others →
  length (others ≫= operator_ids) = length (others ≫= signatures).
Proof.
  induction 1 as [|o others Ho Hp IH]; [done|].
  rewrite !bind_cons, !length_app. unfold paired in Ho. lia.
Qed.

Lemma sig_pairs_snd m : paired m → (sig_pairs m).*2 = operator_ids m.
Proof. intros Hm. unfold sig_pairs. rewrite snd_zip; [done|]. rewrite <- Hm. done. Qed.

Lemma sig_pairs_fst m : paired m → (sig_pairs m).*1 = signatures m.
Proof. intros Hm. unfold sig_pairs. rewrite fst_zip; [done|]. rewrite Hm. done. Qed.

(** Aggregation of messages that fit keeps every (signature, signer) pair, sorted by
    signer, and leaves the signed content alone. *)
Lemma aggregate_spec m others :
  paired m → Forall paired others →
  (len (operator_ids m ++ (others ≫= operator_ids)) <= MaxSigners)%N →
  ∃ r, aggregate m others = Ok r ∧
    sig_pairs r = sort_by_key snd (sig_pairs m ++ (others ≫= sig_pairs)) ∧
    paired r ∧ ssv_message r = ssv_message m ∧ full_data r = full_data m.
Proof.
  intros Hm Hp Hlen. unfold aggregate.
  assert (len (signatures m ++ (others ≫= signatures)) <= MaxSigners)%N as Hlen'.
  { unfold len in *. rewrite length_app in *. rewrite <- (paired_lengths others Hp).
    unfold paired in Hm. lia. }
  rewrite aggregate_loop_fits by done. cbn. rewrite zip_concat_pairs by done.
  set (pairs := sort_by_key snd _).
  assert (len pairs <= MaxSigners)%N as Hps.
  { unfold len in *. unfold pairs. rewrite sort_by_key_perm, <- zip_concat_pairs by done.
    rewrite length_zip_with. lia. }
  assert ((len pairs.*1 <=? MaxSigners)%N = true) as H1.
  { apply N.leb_le. unfold len in *. by rewrite length_fmap. }
  assert ((len pairs.*2 <=? MaxSigners)%N = true) as H2.
  { apply N.leb_le. unfold len in *. by rewrite length_fmap. }
  unfold try_to_variable_list. rewrite H1. cbn. rewrite H2. cbn.
  eexists. split; [done|]. cbn. split_and!; try done.
  - unfold sig_pairs. cbn. apply zip_fst_snd.
  - unfold paired. cbn. by rewrite !length_fmap.
Qed.

Lemma signed_wf_paired m : signed_wf m → paired m.
Proof. by intros []. Qed.

Lemma Forall_bind {A B} (P : B → Prop) (f : A → list B) l :
  Forall (λ x, Forall P (f x)) l → Forall P (l ≫= f).
Proof.
  induction 1 as [|x l Hx Hl IH]; [constructor|].
  rewrite bind_cons. by apply Forall_app.
Qed.

Lemma sig_pairs_bind_snd others :
  Forall paired others → (others ≫= sig_pairs).*2 = others ≫= operator_ids.
Proof.
  induction 1 as [|o others Ho Hp IH]; [done|].
  rewrite !bind_cons, fmap_app, IH. by rewrite sig_pairs_snd.
Qed.

Lemma sig_pairs_bind_fst others :
  Forall paired others → (others ≫= sig_pairs).*1 = others ≫= signatures.
Proof.
  induction 1 as [|o others Ho Hp IH]; [done|].
  rewrite !bind_cons, fmap_app, IH. by rewrite sig_pairs_fst.
Qed.

(** aggregating structurally valid messages with distinct signers, at most
    thirteen in all, succeeds; the result signs the same content, carries exactly the
    given (signature, signer) pairs in increasing signer order, and is itself
    structurally valid. *)
Theorem aggregate_valid m others :
  Forall (λ x, signed_message_validate x = Ok tt) (m :: others) →
  NoDup ((m :: others) ≫= operator_ids) →
  (len ((m :: others) ≫= operator_ids) <= MaxSigners)%N →
  ∃ r, aggregate m others = Ok r ∧
    signed_message_validate r = Ok tt ∧
    ssv_message r = ssv_message m ∧
    StronglySorted N.le (operator_ids r) ∧
    sig_pairs r ≡ₚ (m :: others) ≫= sig_pairs.
Proof.
  intros Hv Hnd Hlen.
  assert (Forall signed_wf (m :: others)) as Hwf.
  { eapply Forall_impl; [exact Hv|]. intros x. apply signed_message_validate_ok. }
  assert (Forall paired (m :: others)) as Hpd.
  { eapply Forall_impl; [exact Hwf|]. apply signed_wf_paired. }
  pose proof Hpd as [Hm Hp]%Forall_cons.
  rewrite bind_cons in Hnd, Hlen.
  destruct (aggregate_spec m others Hm Hp Hlen) as (r & Hr & Hpairs & Hpr & Hssv & _).
  assert (sig_pairs r ≡ₚ sig_pairs m ++ (others ≫= sig_pairs)) as Hperm.
  { rewrite Hpairs. apply sort_by_key_perm. }
  assert (operator_ids r ≡ₚ operator_ids m ++ (others ≫= operator_ids)) as Hids.
  { rewrite <- (sig_pairs_snd r Hpr), Hperm, fmap_app.
    by rewrite sig_pairs_snd, sig_pairs_bind_snd. }
  assert (signatures r ≡ₚ signatures m ++ (others ≫= signatures)) as Hsigs.
  { rewrite <- (sig_pairs_fst r Hpr), Hperm, fmap_app.
    by rewrite sig_pairs_fst, sig_pairs_bind_fst. }
  apply Forall_cons in Hwf as [[Hm1 Hm2 Hm3 Hm4 Hm5 Hm6 Hm7] Hwfo].
  exists r. split_and!; [done| |done| |by rewrite bind_cons].
  - apply signed_message_validate_ok. split; [| | | | |done|by rewrite Hssv].
    + rewrite Hsigs. apply Forall_app. split; [done|].
      apply Forall_bind. eapply Forall_impl; [exact Hwfo|]. by intros x [].
    + intros He. rewrite He in Hids. symmetry in Hids. apply Permutation_nil_r in Hids.
      by apply app_eq_nil in Hids as [? _].
    + intros He. rewrite He in Hsigs. symmetry in Hsigs. apply Permutation_nil_r in Hsigs.
      by apply app_eq_nil in Hsigs as [? _].
    + rewrite Hids. intros [?|(x & ? & Hx)%list_elem_of_bind]%elem_of_app; [done|].
      rewrite Forall_forall in Hwfo. by destruct (Hwfo x Hx).
    + by rewrite Hids.
  - rewrite <- (sig_pairs_snd r Hpr), Hpairs. 
    eapply (StronglySorted_fmap snd); [|apply sort_by_key_sorted]. done.
Qed.

(** A signature-size-correct message of operator [op], for witnesses. *)
Definition sample_signed (op : OperatorId) : SignedSSVMessage :=
  {| signatures := [replicate 256 (byte_of_N op)]; operator_ids := [op];
     ssv_message := {| msg_type := SSVConsensusMsgType;
                       msg_id := replicate 56 x00; ssv_data := [x01] |};
     full_data := [] |}.

Lemma aggregate_valid_witness :
  ∃ r, aggregate (sample_signed 3) [sample_signed 1; sample_signed 4] = Ok r ∧
    signed_message_validate r = Ok tt ∧
    ssv_message r = ssv_message (sample_signed 3) ∧
    StronglySorted N.le (operator_ids r) ∧
    sig_pairs r ≡ₚ [sample_signed 3; sample_signed 1; sample_signed 4] ≫= sig_pairs.
Proof.
  apply aggregate_valid.
  - repeat constructor.
  - apply (bool_decide_unpack _). vm_compute. exact I.
  - apply N.leb_le. vm_compute. reflexivity.
Defined.
