(* ===== verification/QbftTypes.v ===== *)
(** * QBFT types and configuration

    [anchor/common/qbft/src/qbft_types.rs], [config.rs] and [error.rs]: the leader
    function trait and its round-robin implementation, instance states, wrapped
    messages, and the configuration builder with its validation.  The theorems say
    that a configuration the builder accepts has exactly one leader per round and
    that leadership rotates through the whole committee. *)

From S2P Require Import Prelude SsvTypes Messages.

(** ** Leader functions *)

(** [trait LeaderFunction]; [None] is a panic. *)
Class LeaderFunction (F : Type) :=
  leader_function : F → OperatorId → Round → N → list OperatorId → option bool.

(** What the consensus instance relies on: a round has at most one leader. *)
Class UniqueLeader (F : Type) `{LeaderFunction F} :=
  leader_unique : ∀ (f : F) a b r h c,
    leader_function f a r h c = Some true → leader_function f b r h c = Some true → a = b.

Record DefaultLeaderFunction := {
  slots_per_epoch : positive;
  include_epoch_shift : bool;
}.

Definition default_leader_fn_default : DefaultLeaderFunction :=
  {| slots_per_epoch := 32; include_epoch_shift := false |}.

(** The index into the sorted committee; [usize] additions wrap in release builds. *)
Definition leader_index (f : DefaultLeaderFunction) (r : Round) (instance_height : N)
    (committee_len : N) : N :=
  let eth_epoch := if include_epoch_shift f
                   then (instance_height `div` N.pos (slots_per_epoch f))%N else 0%N in
  (wrap64 (wrap64 (round_get r - round_get round_default + instance_height) + eth_epoch)
     `mod` committee_len)%N.

(** [impl LeaderFunction for DefaultLeaderFunction]: [% sorted_committee.len()] panics
    on an empty committee. *)
#[export] Instance default_leader_function : LeaderFunction DefaultLeaderFunction :=
  λ f operator_id r instance_height committee,
    let sorted_committee := merge_sort N.le committee in
    if decide (sorted_committee = []) then None
    else
      let index := leader_index f r instance_height (len sorted_committee) in
      leader ← sorted_committee !! N.to_nat index;
      Some (bool_decide (operator_id = leader)).

#[export] Instance default_unique_leader : UniqueLeader DefaultLeaderFunction.
Proof.
  intros f a b r h c. unfold leader_function, default_leader_function.
  case_decide; [done|]. destruct (_ !! _) as [l|]; simpl; [|done].
  intros [= Ha%bool_decide_eq_true] [= Hb%bool_decide_eq_true]. congruence.
Qed.

(** The leader of a round, as the operator the sorted committee has at the index. *)
Definition leader_of (f : DefaultLeaderFunction) (r : Round) (h : N)
    (committee : list OperatorId) : option OperatorId :=
  let s := merge_sort N.le committee in s !! N.to_nat (leader_index f r h (len s)).

Lemma merge_sort_nil_iff (c : list N) : merge_sort N.le c = [] ↔ c = [].
Proof.
  split; [|by intros ->]. intros He.
  pose proof (merge_sort_Permutation N.le c) as Hp. rewrite He in Hp.
  by apply Permutation_nil_l in Hp.
Qed.

Lemma length_merge_sort (c : list N) : length (merge_sort N.le c) = length c.
Proof. by rewrite merge_sort_Permutation. Qed.

Lemma leader_index_lt f r h n : (0 < n)%N → (leader_index f r h n < n)%N.
Proof. intros Hn. unfold leader_index. apply N.mod_lt. lia. Qed.

Lemma leader_of_some f r h c : c ≠ [] → ∃ op, leader_of f r h c = Some op ∧ op ∈ c.
Proof.
  intros Hc. unfold leader_of.
  assert (merge_sort N.le c ≠ []) as Hs by (by rewrite merge_sort_nil_iff).
  set (s := merge_sort N.le c) in *.
  assert (0 < len s)%N as Hlen by (unfold len; destruct s; simpl; [done|lia]).
  pose proof (leader_index_lt f r h (len s) Hlen) as Hlt.
  destruct (lookup_lt_is_Some_2 s (N.to_nat (leader_index f r h (len s)))) as [op Hop].
  { unfold len in *. lia. }
  exists op. split; [done|]. apply list_elem_of_lookup_2 in Hop.
  by rewrite <- (merge_sort_Permutation N.le c).
Qed.

Lemma leader_function_iff f op r h c :
  leader_function f op r h c = Some true ↔ leader_of f r h c = Some op.
Proof.
  unfold leader_function, default_leader_function, leader_of. case_decide as Hs.
  - rewrite Hs. done.
  - destruct (_ !! _) as [l|] eqn:El; simpl; [|done].
    rewrite inj_iff by apply _. rewrite bool_decide_eq_true. naive_solver.
Qed.

(** ** Instance states *)

Inductive InstanceState :=
  | AwaitingProposal
  | PrepareState (proposal_root : Hash256)
  | CommitState (proposal_root : Hash256)
  | SentRoundChange
  | CompleteState
  | RoundChangeConsensus.

#[export] Instance InstanceState_eq_dec : EqDecision InstanceState.
Proof. solve_decision. Defined.

(** [impl From<InstanceState> for u8]. *)
Definition state_u8 (s : InstanceState) : N :=
  match s with
  | AwaitingProposal => 0
  | PrepareState _ => 1
  | CommitState _ => 2
  | SentRoundChange => 4
  | CompleteState => 5
  | RoundChangeConsensus => 6
  end.

Inductive InstanceStateKind :=
  | KindAwaitingProposal
  | KindPrepare
  | KindCommit
  | KindSentRoundChange
  | KindComplete
  | KindRoundChangeConsensus.

Definition state_kind (s : InstanceState) : InstanceStateKind :=
  match s with
  | AwaitingProposal => KindAwaitingProposal
  | PrepareState _ => KindPrepare
  | CommitState _ => KindCommit
  | SentRoundChange => KindSentRoundChange
  | CompleteState => KindComplete
  | RoundChangeConsensus => KindRoundChangeConsensus
  end.

Inductive Completed (D : Type) :=
  | TimedOut
  | Success (d : D).
Arguments TimedOut {D}.
Arguments Success {D} d.

(** ** Wrapped messages *)

Record WrappedQbftMessage := {
  signed_message : SignedSSVMessage;
  qbft_message : QbftMessage;
}.

#[export] Instance WrappedQbftMessage_eq_dec : EqDecision WrappedQbftMessage.
Proof. solve_decision. Defined.

Record UnsignedWrappedQbftMessage := {
  unsigned_message : UnsignedSSVMessage;
  unsigned_qbft_message : QbftMessage;
}.

(** ** Configuration *)

Inductive ConfigBuilderError :=
  | NoParticipants
  | ZeroMaxRounds
  | ExceedingStartingRound
  | InvalidCommitteeSize
  | MissingOperatorId
  | OperatorNotParticipant
  | MissingInstanceHeight.

(** [Config<F>]; [committee_members] is an [IndexSet], a duplicate-free list in
    insertion order.  [ConfigBuilder<F>] has the same fields. *)
Record Config (F : Type) := {
  cfg_operator_id : OperatorId;
  cfg_instance_height : N;
  cfg_round : Round;
  cfg_committee_members : list OperatorId;
  cfg_round_time : N;
  cfg_max_rounds : N;
  cfg_leader_fn : F;
}.
Arguments cfg_operator_id {F} c.
Arguments cfg_instance_height {F} c.
Arguments cfg_round {F} c.
Arguments cfg_committee_members {F} c.
Arguments cfg_round_time {F} c.
Arguments cfg_max_rounds {F} c.
Arguments cfg_leader_fn {F} c.

Definition ConfigBuilder := Config.

(** [ConfigBuilder::new_with_leader_fn]: round 1, two-second rounds, four rounds. *)
Definition config_builder_new {F} (operator_id : OperatorId) (instance_height : N)
    (committee_members : list OperatorId) (leader_fn : F) : ConfigBuilder F :=
  {| cfg_operator_id := operator_id; cfg_instance_height := instance_height;
     cfg_round := round_default; cfg_committee_members := committee_members;
     cfg_round_time := 2000000000; cfg_max_rounds := 4; cfg_leader_fn := leader_fn |}.

Definition with_max_rounds {F} (max_rounds : N) (b : ConfigBuilder F) : ConfigBuilder F :=
  {| cfg_operator_id := cfg_operator_id b; cfg_instance_height := cfg_instance_height b;
     cfg_round := cfg_round b; cfg_committee_members := cfg_committee_members b;
     cfg_round_time := cfg_round_time b; cfg_max_rounds := max_rounds;
     cfg_leader_fn := cfg_leader_fn b |}.

(** [Config::quorum_size]. *)
Definition cfg_quorum_size {F} (c : Config F) : nat :=
  quorum_size (length (cfg_committee_members c)).

(** [ConfigBuilder::build]. *)
Definition config_build {F} (b : ConfigBuilder F) : outcome ConfigBuilderError (Config F) :=
  let committee_size := length (cfg_committee_members b) in
  if decide (committee_size = 0) then Err NoParticipants
  else if bool_decide (cfg_operator_id b ∉ cfg_committee_members b)
  then Err OperatorNotParticipant
  else if negb (is_valid_committee_size committee_size) then Err InvalidCommitteeSize
  else if (cfg_max_rounds b =? 0)%N then Err ZeroMaxRounds
  else if (cfg_max_rounds b <? round_get (cfg_round b))%N then Err ExceedingStartingRound
  else Ok b.

(** What the builder guarantees to the instance. *)
Record config_wf {F} (c : Config F) : Prop := {
  cwf_member : cfg_operator_id c ∈ cfg_committee_members c;
  cwf_size : is_valid_committee_size (length (cfg_committee_members c)) = true;
  cwf_round : (round_get (cfg_round c) <= cfg_max_rounds c)%N;
}.

Lemma config_build_ok {F} (b c : Config F) :
  config_build b = Ok c ↔ b = c ∧ config_wf c.
Proof.
  unfold config_build. split.
  - case_decide; [done|]. case_bool_decide; [done|]. destruct (is_valid_committee_size _) eqn:Hv; [|done].
    simpl. destruct (N.eqb_spec (cfg_max_rounds b) 0); [done|].
    destruct (N.ltb_spec (cfg_max_rounds b) (round_get (cfg_round b))); [done|].
    intros [= <-]. split; [done|]. split; [|done|lia].
    destruct (decide (cfg_operator_id b ∈ cfg_committee_members b)); [done|naive_solver].
  - intros [<- [Hm Hs Hr]]. rewrite decide_False.
    2:{ destruct (cfg_committee_members b); simpl; [set_solver|lia]. }
    rewrite bool_decide_eq_false_2 by naive_solver. rewrite Hs. simpl.
    destruct (N.eqb_spec (cfg_max_rounds b) 0); [unfold round_get in Hr; lia|].
    destruct (N.ltb_spec (cfg_max_rounds b) (round_get (cfg_round b))); [lia|done].
Qed.

(** a configuration the builder accepts has exactly one leader in every round,
    the leader is a committee member, and [leader_function] never panics on it. *)
Theorem config_leader_exists_unique (b c : Config DefaultLeaderFunction) (r : Round) (h : N) :
  config_build b = Ok c →
  ∃ leader, leader ∈ cfg_committee_members c ∧
    ∀ op, leader_function (cfg_leader_fn c) op r h (cfg_committee_members c) =
          Some (bool_decide (op = leader)).
Proof.
  intros [<- [Hm _ _]]%config_build_ok.
  assert (cfg_committee_members b ≠ []) as Hne by (intros He; rewrite He in Hm; set_solver).
  destruct (leader_of_some (cfg_leader_fn b) r h _ Hne) as (l & Hl & Hin).
  exists l. split; [done|]. intros op.
  unfold leader_function, default_leader_function, leader_of in *.
  rewrite decide_False by (by rewrite merge_sort_nil_iff). by rewrite Hl.
Qed.

Lemma config_leader_exists_unique_witness :
  let c := config_builder_new 1 100 [1; 2; 3; 4]%N default_leader_fn_default in
  ∃ leader, leader ∈ cfg_committee_members c ∧
    ∀ op, leader_function (cfg_leader_fn c) op 2 100 (cfg_committee_members c) =
          Some (bool_decide (op = leader)).
Proof. intros c. apply (config_leader_exists_unique c c). vm_compute. reflexivity. Defined.

(** ** Rotation *)

(** The epoch shift of [leader_index]. *)
Definition epoch_shift (f : DefaultLeaderFunction) (h : N) : N :=
  if include_epoch_shift f then (h `div` N.pos (slots_per_epoch f))%N else 0%N.

Lemma leader_index_no_overflow f r h n :
  (round_get r + h + epoch_shift f h <= u64_max)%N →
  leader_index f r h n = ((round_get r - 1 + h + epoch_shift f h) `mod` n)%N.
Proof.
  intros Hb. unfold leader_index. fold (epoch_shift f h).
  change (round_get round_default) with 1%N. unfold wrap64, u64_max in *.
  rewrite (N.mod_small (round_get r - 1 + h)) by lia.
  by rewrite (N.mod_small (round_get r - 1 + h + epoch_shift f h)) by lia.
Qed.

Lemma mod_shift_unique (b n i : N) :
  (i < n)%N → ∃ k, (k < n ∧ (b + k) `mod` n = i)%N ∧
    ∀ k', (k' < n → (b + k') `mod` n = i → k' = k)%N.
Proof.
  intros Hi. set (m := (b `mod` n)%N).
  assert (m < n)%N as Hm by (apply N.mod_lt; lia).
  assert (∀ k, ((b + k) `mod` n = (m + k) `mod` n)%N) as Hred.
  { intros k. unfold m. by rewrite N.Div0.add_mod_idemp_l. }
  assert (∀ k, (k < n → (m + k) `mod` n = if m + k <? n then m + k else m + k - n)%N) as Hc.
  { intros k Hk. destruct (N.ltb_spec (m + k) n); [by apply N.mod_small|].
    replace (m + k)%N with ((m + k - n) + 1 * n)%N at 1 by lia.
    rewrite N.Div0.mod_add. apply N.mod_small. lia. }
  exists (if i <? m then i + n - m else i - m)%N. split.
  - assert ((if i <? m then i + n - m else i - m) < n)%N as Hk
      by (destruct (N.ltb_spec i m); lia).
    split; [done|]. rewrite Hred, Hc by done.
    destruct (N.ltb_spec i m).
    + destruct (N.ltb_spec (m + (i + n - m)) n); lia.
    + destruct (N.ltb_spec (m + (i - m)) n); lia.
  - intros k Hk. rewrite Hred, Hc by done.
    destruct (N.ltb_spec (m + k) n), (N.ltb_spec i m); lia.
Qed.

Lemma round_add_some r k :
  (round_get r + k <= u64_max)%N →
  ∃ r', round_add r k = Some r' ∧ round_get r' = (round_get r + k)%N.
Proof.
  intros Hb. unfold round_add. destruct (N.leb_spec (round_get r + k) u64_max); [|lia].
  unfold round_get in *. destruct (N.pos r + k)%N as [|p] eqn:E; [lia|]. by exists p.
Qed.

(** leadership rotates: over any [n] consecutive rounds of an [n]-member committee
    every member leads exactly once, as long as the index arithmetic stays below
    [2^64]. *)
Theorem leader_rotation (f : DefaultLeaderFunction) (r : Round) (h : N)
    (c : list OperatorId) (op : OperatorId) :
  NoDup c → op ∈ c →
  (round_get r + len c + h + epoch_shift f h <= u64_max)%N →
  ∃ k, (k < len c)%N ∧
    ∀ k', (k' < len c)%N →
      ∃ r', round_add r k' = Some r' ∧
        leader_function f op r' h c = Some (bool_decide (k' = k)).
Proof.
  intros Hnd Hop Hb.
  set (s := merge_sort N.le c).
  assert (s ≡ₚ c) as Hs by apply merge_sort_Permutation.
  assert (len s = len c) as Hlen by (unfold len; by rewrite Hs).
  rewrite <- Hs in Hop. apply list_elem_of_lookup_1 in Hop as [i Hi].
  pose proof (lookup_lt_Some _ _ _ Hi) as Hilt.
  destruct (mod_shift_unique (round_get r - 1 + h + epoch_shift f h) (len s) (N.of_nat i))
    as (k & [Hk Hke] & Hku); [unfold len in *; lia|].
  exists k. split; [by rewrite <- Hlen|]. intros k' Hk'. rewrite <- Hlen in Hk'.
  destruct (round_add_some r k') as (r' & Hr' & Hg); [lia|].
  exists r'. split; [done|].
  unfold leader_function, default_leader_function. fold s. rewrite decide_False.
  2:{ intros He. rewrite He in Hi. done. }
  rewrite leader_index_no_overflow by lia. rewrite Hg.
  replace (round_get r + k' - 1 + h + epoch_shift f h)%N
    with (round_get r - 1 + h + epoch_shift f h + k')%N by (unfold round_get; lia).
  set (idx := ((round_get r - 1 + h + epoch_shift f h + k') `mod` len s)%N).
  assert (idx < len s)%N as Hidx by (apply N.mod_lt; unfold len in *; lia).
  destruct (lookup_lt_is_Some_2 s (N.to_nat idx)) as [l Hl]; [unfold len in *; lia|].
  rewrite Hl. simpl. f_equal. apply bool_decide_ext. split.
  - intros ->. apply Hku; [done|]. fold idx.
    assert (NoDup s) as Hnds by (by rewrite Hs).
    pose proof (NoDup_lookup s _ _ _ Hnds Hl Hi). lia.
  - intros ->. unfold idx in Hl. rewrite Hke in Hl.
    rewrite Nat2N.id in Hl. congruence.
Qed.

Lemma leader_rotation_witness :
  ∃ k, (k < len [7; 3; 5; 9])%N ∧
    ∀ k', (k' < len [7; 3; 5; 9])%N →
      ∃ r', round_add 1 k' = Some r' ∧
        leader_function default_leader_fn_default 5 r' 1234 [7; 3; 5; 9]%N =
          Some (bool_decide (k' = k)).
Proof.
  apply leader_rotation.
  - apply (bool_decide_unpack _). vm_compute. exact I.
  - apply (bool_decide_unpack _). vm_compute. exact I.
  - apply N.leb_le. vm_compute. reflexivity.
Defined.
