(* ===== verification/MsgContainer.v ===== *)
(** * The QBFT message container

    [anchor/common/qbft/src/msg_container.rs]: the messages of one type received in
    each round, with the operators that sent them.  The theorems characterise when a
    value has a quorum, show that the answer does not depend on the iteration order of
    the hash map that counts values, and specify the f+1 round-change trigger. *)

From S2P Require Import Prelude SsvTypes Messages QbftTypes.

(** ** The container *)

Record MessageContainer := {
  mc_messages : gmap Round (list WrappedQbftMessage);
  mc_senders_by_round : gmap Round (gset OperatorId);
  mc_values_by_round : gmap Round (gset Hash256);
  mc_quorum_size : nat;
}.

Definition container_new (q : nat) : MessageContainer :=
  {| mc_messages := ∅; mc_senders_by_round := ∅; mc_values_by_round := ∅;
     mc_quorum_size := q |}.

(** [entry(k).or_default()] read back. *)
Definition mc_msgs (c : MessageContainer) (r : Round) : list WrappedQbftMessage :=
  default [] (mc_messages c !! r).
Definition mc_senders (c : MessageContainer) (r : Round) : gset OperatorId :=
  default ∅ (mc_senders_by_round c !! r).

(** [MessageContainer::add_message]: false, and no change, for a sender that already
    has a message in the round. *)
Definition add_message (r : Round) (sender : OperatorId) (msg : WrappedQbftMessage)
    (c : MessageContainer) : bool * MessageContainer :=
  if decide (sender ∈ mc_senders c r) then (false, c)
  else
    (true,
     {| mc_messages := <[r := mc_msgs c r ++ [msg]]> (mc_messages c);
        mc_senders_by_round := <[r := {[sender]} ∪ mc_senders c r]> (mc_senders_by_round c);
        mc_values_by_round :=
          <[r := {[root (qbft_message msg)]} ∪ default ∅ (mc_values_by_round c !! r)]>
            (mc_values_by_round c);
        mc_quorum_size := mc_quorum_size c |}).

(** The [value_counts] loop of [has_quorum]. *)
Definition count_value (m : gmap Hash256 nat) (msg : WrappedQbftMessage) : gmap Hash256 nat :=
  let v := root (qbft_message msg) in <[v := S (default 0 (m !! v))]> m.
Definition value_counts (msgs : list WrappedQbftMessage) : gmap Hash256 nat :=
  foldl count_value ∅ msgs.

(** [value_counts.into_iter().find(..)], for a given iteration order of the map. *)
Definition find_quorum (q : nat) (order : list (Hash256 * nat)) : option Hash256 :=
  fst <$> List.find (λ p, bool_decide (q ≤ p.2)) order.

(** [MessageContainer::has_quorum]. *)
Definition mc_has_quorum (c : MessageContainer) (r : Round) : option Hash256 :=
  round_messages ← mc_messages c !! r;
  find_quorum (mc_quorum_size c) (map_to_list (value_counts round_messages)).

Definition has_quorum_disregarding_root (c : MessageContainer) (r : Round) : bool :=
  match mc_messages c !! r with
  | Some msgs => bool_decide (mc_quorum_size c ≤ length msgs)
  | None => false
  end.

(** [BTreeMap::range(start..)]: the entries in increasing key order. *)
Definition btree_range {A} (start : Round) (m : gmap Round A) : list (Round * A) :=
  filter (λ p, (start ≤ p.1)%positive) (sort_by_key (λ p, N.pos p.1) (map_to_list m)).

Definition lowest_partial_quorum_above_round (c : MessageContainer) (r : Round) (partial : nat)
    : option Round :=
  start_round ← round_next r;
  let '(min_future_round, all_operators) :=
    foldl (λ '(m, ops) '(r, operators),
             (match m with None => Some r | Some _ => m end, ops ∪ operators))
          (None, ∅ : gset OperatorId)
          (btree_range start_round (mc_senders_by_round c)) in
  if decide (partial ≤ size all_operators) then min_future_round else None.

Definition get_messages_for_round (c : MessageContainer) (r : Round) : list WrappedQbftMessage :=
  mc_msgs c r.

Definition get_quorum_of_messages (c : MessageContainer) (r : Round) : list WrappedQbftMessage :=
  match mc_has_quorum c r, mc_messages c !! r with
  | Some hash, Some msgs => filter (λ m, root (qbft_message m) = hash) msgs
  | _, _ => []
  end.

(** ** Well-formed containers

    [P r s m] is what the instance knows of a message [m] stored in round [r] for the
    sender [s].  Each sender of a round has exactly one message in it. *)
Definition mc_wf (P : Round → OperatorId → WrappedQbftMessage → Prop) (c : MessageContainer) : Prop :=
  ∀ r, ∃ l, NoDup l ∧ list_to_set l = mc_senders c r ∧ Forall2 (P r) l (mc_msgs c r).

Section container.
Context (P : Round → OperatorId → WrappedQbftMessage → Prop).
Implicit Types c : MessageContainer.

Lemma container_new_wf q : mc_wf P (container_new q).
Proof. intros r. exists []. split; [constructor|]. split; [done|constructor]. Qed.

Lemma add_message_msgs r s m c r' :
  (add_message r s m c).1 = true →
  mc_msgs (add_message r s m c).2 r' =
    if decide (r = r') then mc_msgs c r ++ [m] else mc_msgs c r'.
Proof.
  unfold add_message. case_decide; [done|]. intros _. unfold mc_msgs at 1. cbn.
  rewrite lookup_insert. by case_decide.
Qed.

Lemma add_message_senders r s m c r' :
  (add_message r s m c).1 = true →
  mc_senders (add_message r s m c).2 r' =
    if decide (r = r') then {[s]} ∪ mc_senders c r else mc_senders c r'.
Proof.
  unfold add_message. case_decide; [done|]. intros _. unfold mc_senders at 1. cbn.
  rewrite lookup_insert. by case_decide.
Qed.

Lemma add_message_fresh r s m c :
  (add_message r s m c).1 = true ↔ s ∉ mc_senders c r.
Proof. unfold add_message. by case_decide. Qed.

Lemma add_message_dup r s m c : (add_message r s m c).1 = false → (add_message r s m c).2 = c.
Proof. unfold add_message. by case_decide. Qed.

Lemma add_message_quorum_size r s m c :
  mc_quorum_size (add_message r s m c).2 = mc_quorum_size c.
Proof. unfold add_message. by case_decide. Qed.

(** Stored messages stay. *)
Lemma add_message_prefix r s m c r' :
  mc_msgs c r' `prefix_of` mc_msgs (add_message r s m c).2 r'.
Proof.
  destruct (add_message r s m c).1 eqn:Hadd; [|by rewrite add_message_dup].
  rewrite add_message_msgs by done. case_decide; [subst|done]. by apply prefix_app_r.
Qed.

Lemma add_message_wf r s m c :
  P r s m → mc_wf P c → mc_wf P (add_message r s m c).2.
Proof.
  intros HP Hwf. destruct (add_message r s m c).1 eqn:Hadd.
  2:{ by rewrite add_message_dup. }
  intros r'. rewrite add_message_msgs, add_message_senders by done.
  apply add_message_fresh in Hadd. destruct (Hwf r') as (l & Hnd & Hl & Hall).
  case_decide; [subst r'|by exists l].
  exists (l ++ [s]). split_and!.
  - apply NoDup_app. split_and!; [done| |apply NoDup_singleton].
    intros x Hx ->%list_elem_of_singleton. apply Hadd. rewrite <- Hl. set_solver.
  - rewrite list_to_set_app_L, Hl. set_solver.
  - apply Forall2_app; [done|]. by constructor.
Qed.

Lemma mc_wf_impl (P' : Round → OperatorId → WrappedQbftMessage → Prop) c :
  (∀ r s m, P r s m → P' r s m) → mc_wf P c → mc_wf P' c.
Proof.
  intros Himp Hwf r. destruct (Hwf r) as (l & ? & ? & Hall).
  exists l. split_and!; [done|done|]. eapply Forall2_impl; [exact Hall|]. naive_solver.
Qed.

Lemma mc_wf_elem c r m :
  mc_wf P c → m ∈ mc_msgs c r → ∃ s, s ∈ mc_senders c r ∧ P r s m.
Proof.
  intros Hwf Hm. destruct (Hwf r) as (l & _ & Hl & Hall).
  apply list_elem_of_lookup in Hm as [i Hi].
  destruct (Forall2_lookup_r _ _ _ _ _ Hall Hi) as (s & Hs & HP).
  exists s. split; [|done]. rewrite <- Hl. apply elem_of_list_to_set.
  by eapply list_elem_of_lookup_2.
Qed.

(** The senders of the messages that satisfy [Q] form a set as large as those
    messages are many. *)
Lemma mc_wf_senders_of c r (Q : WrappedQbftMessage → Prop) `{∀ m, Decision (Q m)} :
  mc_wf P c →
  ∃ X : gset OperatorId, X ⊆ mc_senders c r ∧
    size X = length (filter Q (mc_msgs c r)) ∧
    ∀ s, s ∈ X → ∃ m, m ∈ mc_msgs c r ∧ P r s m ∧ Q m.
Proof.
  intros Hwf. destruct (Hwf r) as (l & Hnd & Hl & Hall). rewrite <- Hl. clear Hl.
  generalize dependent (mc_msgs c r). intros ms Hall.
  induction Hall as [|s m l ms HP Hall IH].
  - exists ∅. split; [done|]. split; [done|]. set_solver.
  - apply NoDup_cons in Hnd as [Hs Hnd]. destruct (IH Hnd) as (X & HX & Hsz & HXm).
    rewrite filter_cons. case_decide as HQ.
    + exists ({[s]} ∪ X). split; [set_solver|]. split.
      * rewrite size_union, size_singleton, Hsz; [done|]. set_solver.
      * intros s' [->%elem_of_singleton|Hs']%elem_of_union.
        { exists m. split; [left|done]. }
        destruct (HXm _ Hs') as (m' & ? & ? & ?). exists m'. set_solver.
    + exists X. split; [set_solver|]. split; [done|].
      intros s' Hs'. destruct (HXm _ Hs') as (m' & ? & ? & ?). exists m'. set_solver.
Qed.
End container.

(** ** Quorums of a value *)

(** How many messages of a round carry the value. *)
Definition votes (msgs : list WrappedQbftMessage) (v : Hash256) : nat :=
  length (filter (λ m, root (qbft_message m) = v) msgs).

Lemma votes_cons m msgs v :
  votes (m :: msgs) v = (if decide (root (qbft_message m) = v) then 1 else 0) + votes msgs v.
Proof. unfold votes. rewrite filter_cons. by case_decide. Qed.

Lemma votes_prefix msgs msgs' v : msgs `prefix_of` msgs' → votes msgs v ≤ votes msgs' v.
Proof. intros [k ->]. unfold votes. rewrite filter_app, length_app. lia. Qed.

Lemma value_counts_lookup_acc msgs (acc : gmap Hash256 nat) v :
  foldl count_value acc msgs !! v =
    if decide (votes msgs v = 0) then acc !! v else Some (default 0 (acc !! v) + votes msgs v).
Proof.
  revert acc. induction msgs as [|m msgs IH]; intros acc; [done|].
  cbn [foldl]. rewrite IH, votes_cons. unfold count_value. rewrite lookup_insert.
  destruct (decide (root (qbft_message m) = v)) as [->|Hne]; simpl; [|done].
  case_decide as H0; [rewrite H0|]; f_equal; lia.
Qed.

Lemma value_counts_lookup msgs v :
  value_counts msgs !! v = if decide (votes msgs v = 0) then None else Some (votes msgs v).
Proof.
  unfold value_counts. rewrite value_counts_lookup_acc, lookup_empty. by case_decide.
Qed.

Lemma find_quorum_some q order v :
  find_quorum q order = Some v → ∃ n, (v, n) ∈ order ∧ q ≤ n.
Proof.
  unfold find_quorum. intros ([v' n] & Hf & ->)%fmap_Some.
  apply List.find_some in Hf as [Hin Hq]. apply list_elem_of_In in Hin.
  apply bool_decide_eq_true in Hq. by exists n.
Qed.

Lemma find_quorum_none q order v n :
  find_quorum q order = None → (v, n) ∈ order → n < q.
Proof.
  unfold find_quorum. intros Hf%fmap_None Hin.
  apply list_elem_of_In in Hin.
  pose proof (List.find_none _ _ Hf _ Hin) as Hn. simpl in Hn.
  apply bool_decide_eq_false in Hn. lia.
Qed.

Lemma find_quorum_counts q msgs order v :
  0 < q → order ≡ₚ map_to_list (value_counts msgs) →
  find_quorum q order = Some v → q ≤ votes msgs v.
Proof.
  intros Hq Hp (n & Hin & Hn)%find_quorum_some. rewrite Hp in Hin.
  apply elem_of_map_to_list in Hin. rewrite value_counts_lookup in Hin.
  case_decide; simplify_eq. done.
Qed.

Lemma find_quorum_exists q msgs order v :
  0 < q → order ≡ₚ map_to_list (value_counts msgs) →
  q ≤ votes msgs v → is_Some (find_quorum q order).
Proof.
  intros Hq Hp Hv. destruct (find_quorum q order) eqn:E; [by eexists|].
  exfalso. apply (find_quorum_none _ _ v (votes msgs v)) in E; [lia|].
  rewrite Hp. apply elem_of_map_to_list. rewrite value_counts_lookup.
  rewrite decide_False by lia. done.
Qed.

Lemma mc_has_quorum_votes c r v :
  0 < mc_quorum_size c → mc_has_quorum c r = Some v →
  mc_quorum_size c ≤ votes (mc_msgs c r) v.
Proof.
  intros Hq. unfold mc_has_quorum, mc_msgs.
  destruct (mc_messages c !! r) as [msgs|]; simpl; [|done].
  by apply find_quorum_counts.
Qed.

Lemma find_quorum_nil q order msgs :
  0 < q → order ≡ₚ map_to_list (value_counts msgs) → msgs = [] → find_quorum q order = None.
Proof.
  intros Hq Hp ->. unfold value_counts in Hp. simpl in Hp. rewrite map_to_list_empty in Hp.
  apply Permutation_nil_r in Hp as ->. done.
Qed.

(** A quorum's voters are a set of distinct senders as large as the quorum. *)
Lemma mc_has_quorum_voters P c r v :
  mc_wf P c → 0 < mc_quorum_size c → mc_has_quorum c r = Some v →
  ∃ X : gset OperatorId, X ⊆ mc_senders c r ∧ mc_quorum_size c ≤ size X ∧
    ∀ s, s ∈ X → ∃ m, m ∈ mc_msgs c r ∧ P r s m ∧ root (qbft_message m) = v.
Proof.
  intros Hwf Hq Hhq. pose proof (mc_has_quorum_votes _ _ _ Hq Hhq) as Hv.
  destruct (mc_wf_senders_of P c r (λ m, root (qbft_message m) = v) Hwf) as (X & HX & Hsz & Hall).
  exists X. split; [done|]. split; [|done]. rewrite Hsz. exact Hv.
Qed.

(** Two values cannot both have a quorum of the same round of a valid committee. *)
Lemma votes_quorum_unique P c r v w (C : gset OperatorId) :
  mc_wf P c → mc_senders c r ⊆ C → is_valid_committee_size (size C) = true →
  quorum_size (size C) ≤ votes (mc_msgs c r) v →
  quorum_size (size C) ≤ votes (mc_msgs c r) w → v = w.
Proof.
  intros Hwf HC Hv Hqv Hqw.
  destruct (decide (v = w)) as [|Hne]; [done|]. exfalso.
  destruct (Hwf r) as (l & Hnd & Hl & Hall).
  assert (length (mc_msgs c r) ≤ size C) as Hlen.
  { rewrite <- (Forall2_length _ _ _ Hall), <- (NoDup_length_size l Hnd), Hl.
    by apply subseteq_size. }
  assert (votes (mc_msgs c r) v + votes (mc_msgs c r) w ≤ length (mc_msgs c r)) as Hsum.
  { clear -Hne. induction (mc_msgs c r) as [|m ms IH]; [done|].
    rewrite !votes_cons. simpl. repeat case_decide; subst; done || lia. }
  pose proof (valid_committee_size_form _ Hv) as [Hn Hf]. unfold quorum_size in *. lia.
Qed.

(** [has_quorum] is exact and independent of the hash map's iteration order.  In a
    container whose senders belong to a valid committee and whose threshold is that
    committee's quorum, whatever order [value_counts] is traversed in, the value found
    is the one and only value with a quorum of votes, and one is found whenever it
    exists. *)
Theorem has_quorum_order_independent P c r (C : gset OperatorId) order :
  mc_wf P c → mc_senders c r ⊆ C → is_valid_committee_size (size C) = true →
  mc_quorum_size c = quorum_size (size C) →
  order ≡ₚ map_to_list (value_counts (mc_msgs c r)) →
  find_quorum (mc_quorum_size c) order = mc_has_quorum c r ∧
  ∀ v, mc_has_quorum c r = Some v ↔ mc_quorum_size c ≤ votes (mc_msgs c r) v.
Proof.
  intros Hwf HC Hval Hq Hp.
  assert (0 < mc_quorum_size c) as Hpos by (rewrite Hq; unfold quorum_size; lia).
  assert (∀ o v, o ≡ₚ map_to_list (value_counts (mc_msgs c r)) →
            find_quorum (mc_quorum_size c) o = Some v ↔
            mc_quorum_size c ≤ votes (mc_msgs c r) v) as Hexact.
  { intros o v Ho. split; [by apply find_quorum_counts|]. intros Hv.
    destruct (find_quorum_exists _ _ _ v Hpos Ho Hv) as [w Hw]. rewrite Hw. f_equal.
    apply find_quorum_counts with (msgs := mc_msgs c r) in Hw; [|done|done].
    rewrite Hq in *. symmetry. by eapply votes_quorum_unique. }
  assert (mc_has_quorum c r =
          find_quorum (mc_quorum_size c) (map_to_list (value_counts (mc_msgs c r)))) as Hdef.
  { unfold mc_has_quorum, mc_msgs. destruct (mc_messages c !! r) as [ms|]; [done|].
    simpl. unfold value_counts. simpl. by rewrite map_to_list_empty. }
  rewrite Hdef. split; [|intros v; by apply Hexact].
  apply option_eq. intros v. by rewrite !Hexact.
Qed.

(** ** The f+1 trigger *)

Lemma elem_of_btree_range {A} start (m : gmap Round A) p :
  p ∈ btree_range start m ↔ m !! p.1 = Some p.2 ∧ (start ≤ p.1)%positive.
Proof.
  unfold btree_range. rewrite list_elem_of_filter, sort_by_key_perm.
  destruct p. rewrite elem_of_map_to_list. naive_solver.
Qed.

Lemma filter_strongly_sorted {A} (R : relation A) (Q : A → Prop) `{∀ x, Decision (Q x)} l :
  StronglySorted R l → StronglySorted R (filter Q l).
Proof.
  induction 1 as [|x l Hl IH Hx]; [constructor|]. rewrite filter_cons.
  case_decide; [|done]. constructor; [done|].
  rewrite Forall_forall in *. intros y [_ Hy]%list_elem_of_filter. auto.
Qed.

Lemma btree_range_head {A} start (m : gmap Round A) p l :
  btree_range start m = p :: l → ∀ q, q ∈ btree_range start m → (p.1 ≤ q.1)%positive.
Proof.
  intros Heq q Hq.
  assert (StronglySorted (λ x y : Round * A, (N.pos x.1 <= N.pos y.1)%N) (btree_range start m))
    as Hs by apply filter_strongly_sorted, sort_by_key_sorted.
  rewrite Heq in Hs, Hq. apply StronglySorted_inv in Hs as [_ Hall].
  apply elem_of_cons in Hq as [->|Hq]; [done|].
  rewrite Forall_forall in Hall. specialize (Hall q Hq). lia.
Qed.

Lemma union_fold_range (l : list (Round * gset OperatorId)) m ops :
  foldl (λ '(m, ops) '(r, operators),
           (match m with None => Some r | Some _ => m end, ops ∪ operators)) (m, ops) l =
  (match m with None => fst <$> head l | Some _ => m end, ops ∪ ⋃ (l.*2)).
Proof.
  revert m ops. induction l as [|[r o] l IH]; intros m ops; simpl.
  - destruct m; f_equal; set_solver.
  - rewrite IH. f_equal; [by destruct m|]. set_solver.
Qed.

Lemma round_next_succ r start : round_next r = Some start → start = Pos.succ r.
Proof. unfold round_next. destruct (_ <=? _)%N; [|done]. intros [= <-]. lia. Qed.

(** The operators with a message in some round above [r]. *)
Definition senders_above (c : MessageContainer) (r : Round) (X : gset OperatorId) : Prop :=
  ∀ s, s ∈ X ↔ ∃ r', (r < r')%positive ∧ s ∈ mc_senders c r'.

Lemma senders_above_range c r start X :
  round_next r = Some start → senders_above c r X →
  X = ⋃ ((btree_range start (mc_senders_by_round c)).*2).
Proof.
  intros ->%round_next_succ HX. apply set_eq. intros s. rewrite (HX s), elem_of_union_list. split.
  - intros (r' & Hr & Hs). unfold mc_senders in Hs.
    destruct (mc_senders_by_round c !! r') as [Y|] eqn:E; simpl in Hs; [|set_solver].
    exists Y. split; [|done]. apply list_elem_of_fmap. exists (r', Y).
    split; [done|]. apply elem_of_btree_range. simpl. split; [done|lia].
  - intros (Y & HY & Hs). apply list_elem_of_fmap in HY as ([r' Y'] & -> & Hp).
    apply elem_of_btree_range in Hp as [Hl Hle]. simpl in *.
    exists r'. split; [lia|]. unfold mc_senders. by rewrite Hl.
Qed.

(** the f+1 trigger of [received_round_change].  With [X] the operators that have
    a round-change in any round above [r], the search returns a round exactly when [X]
    reaches the threshold, and that round is the lowest one above [r] in which
    some message was stored. *)
Theorem lowest_partial_quorum_spec c r k X r' :
  0 < k → is_Some (round_next r) → senders_above c r X →
  lowest_partial_quorum_above_round c r k = Some r' ↔
  k ≤ size X ∧ (r < r')%positive ∧ is_Some (mc_senders_by_round c !! r') ∧
  ∀ r'', (r < r'')%positive → is_Some (mc_senders_by_round c !! r'') → (r' ≤ r'')%positive.
Proof.
  intros Hk [start Hn] HX. unfold lowest_partial_quorum_above_round. rewrite Hn.
  pose proof (round_next_succ _ _ Hn) as ->.
  cbn [mbind option_bind]. rewrite union_fold_range, (union_empty_l_L (⋃ _)).
  rewrite <- (senders_above_range c r (Pos.succ r) X) by done.
  pose proof (btree_range_head (Pos.succ r) (mc_senders_by_round c)) as Hhead.
  pose proof (senders_above_range _ _ _ _ Hn HX) as HXr.
  pose proof (λ p, elem_of_btree_range (Pos.succ r) (mc_senders_by_round c) p) as Hel.
  destruct (btree_range _ _) as [|[p Y] l].
  - simpl in *. subst X. rewrite size_empty, decide_False by lia. split; [done|]. lia.
  - cbn [head fmap option_fmap option_map fst]. specialize (Hhead _ _ eq_refl).
    destruct (proj1 (Hel (p, Y))) as [Hp Hle]; [left|]. simpl in *.
    assert (∀ r'', (r < r'')%positive → is_Some (mc_senders_by_round c !! r'') →
              (p ≤ r'')%positive) as Hmin.
    { intros r'' Hr [Z HZ]. apply (Hhead (r'', Z)). apply Hel. simpl. split; [done|lia]. }
    case_decide as Hsz; [|split; [done|naive_solver]]. split.
    + intros [= <-]. split_and!; [done|lia|by exists Y|done].
    + intros (_ & Hr' & Hs' & Hmin'). f_equal.
      apply Pos.le_antisym; [by apply Hmin|]. apply Hmin'; [lia|by exists Y].
Qed.

(** ** A container with three votes *)

Definition bare_vote (s : OperatorId) (r : N) (v : Hash256) : WrappedQbftMessage :=
  {| signed_message :=
       {| signatures := [[x2a]]; operator_ids := [s];
          ssv_message := {| msg_type := SSVConsensusMsgType; msg_id := []; ssv_data := [x01] |};
          full_data := [] |};
     qbft_message :=
       {| qbft_message_type := Prepare; height := 0; round := r; identifier := []; root := v;
          data_round := 0; round_change_justification := []; prepare_justification := [] |} |}.

Definition three_votes : MessageContainer :=
  foldl (λ c s, (add_message 2 s (bare_vote s 2 7) c).2) (container_new 3) [1; 2; 4]%N.

Lemma three_votes_wf : mc_wf (λ _ _ _, True) three_votes.
Proof.
  unfold three_votes. cbn [foldl].
  do 3 (apply add_message_wf; [exact I|]). apply container_new_wf.
Qed.

Lemma three_votes_senders :
  mc_senders_by_round three_votes = {[2%positive := list_to_set [1; 2; 4]%N]}.
Proof. by vm_compute. Qed.

Lemma has_quorum_order_independent_witness :
  find_quorum 3 [(7%N, 3)] = mc_has_quorum three_votes 2 ∧
  ∀ v, mc_has_quorum three_votes 2 = Some v ↔ 3 ≤ votes (mc_msgs three_votes 2) v.
Proof.
  apply (has_quorum_order_independent (λ _ _ _, True) three_votes 2
           (list_to_set [1; 2; 3; 4]%N) [(7%N, 3)]).
  - exact three_votes_wf.
  - apply (bool_decide_unpack _). by vm_compute.
  - by vm_compute.
  - by vm_compute.
  - by vm_compute.
Defined.

Lemma lowest_partial_quorum_spec_witness :
  lowest_partial_quorum_above_round three_votes 1 2 = Some 2%positive ↔
  2 ≤ size (list_to_set [1; 2; 4]%N : gset OperatorId) ∧ (1 < 2)%positive ∧
  is_Some (mc_senders_by_round three_votes !! 2%positive) ∧
  ∀ r'', (1 < r'')%positive → is_Some (mc_senders_by_round three_votes !! r'') →
         (2 ≤ r'')%positive.
Proof.
  apply lowest_partial_quorum_spec.
  - lia.
  - by eexists.
  - intros s. split.
    + intros Hs. exists 2%positive. split; [lia|].
      unfold mc_senders. rewrite three_votes_senders, lookup_singleton_eq. exact Hs.
    + intros (r' & _ & Hs). unfold mc_senders in Hs. rewrite three_votes_senders in Hs.
      destruct (decide (r' = 2%positive)) as [->|Hne].
      * rewrite lookup_singleton_eq in Hs. exact Hs.
      * rewrite lookup_singleton_ne in Hs by done. set_solver.
Defined.
