(* ===== verification/Qbft.v ===== *)
(** * The QBFT consensus instance

    [anchor/common/qbft/src/lib.rs], every method of [Qbft<F, D, S>].  A method on
    [&self] is a function of the instance, a method on [&mut self] an [action] on it.
    The [message_sender] callback is the log [qb_outbox] of what was sent, in order. *)

From S2P Require Import Prelude SsvTypes Messages QbftTypes MsgContainer.

(** ** Errors ([error.rs]) *)

Inductive QbftError :=
  | SignerNotInCommittee
  | WrongHeight
  | WrongRound
  | PastRound
  | InvalidFullData
  | DataValidationFailed
  | MissingOperators
  | InvalidDataRound
  | WrongMessageType
  | NotEnoughSignatures
  | ProposalNotFromLeader
  | ProposalAlreadyReceived
  | ProposalNotAccepted
  | ProposalMissingData
  | ProposalNotFound
  | ProposedDataMismatch
  | DuplicateProposal
  | ProposalRoundChangeJustificationNoQuorum
  | RoundChangeJustificationNoQuorum
  | RoundChangeJustificationWrongRound
  | RoundChangeJustificationWrongHeight
  | RoundChangeJustificationInvalidMessage
  | RoundChangeJustificationNotRoundChange
  | RoundChangeJustificationInvalidDataRound
  | RoundChangeJustificationDecodeFailed
  | RoundChangeJustificationInvalidPrepareRoot
  | RoundChangeJustificationNotInCommittee
  | RoundChangeJustificationNoPrepareQuorum
  | RoundChangeJustificationMultiSigner
  | RoundChangeJustificationTooBig (provided max : N)
  | RoundChangeJustificationListTooBig (provided max : N)
  | PrepareJustificationWrongRound
  | PrepareJustificationMultiSigner
  | PrepareJustificationWrongHeight
  | PrepareJustificationNoQuorum
  | PrepareJustificationDecodeFailed
  | PrepareJustificationNotPrepare
  | PrepareJustificationRootMismatch
  | PrepareJustificationTooBig (provided max : N)
  | PrepareJustificationListTooBig (provided max : N)
  | MissingLastPreparedValue
  | FailedToAggregate (e : SignedSSVMessageError)
  | SignedMessageError (e : SignedSSVMessageError)
  | InvalidState
  | MissingData
  | CommitQuorumMismatch
  | MissingCommit.

(** ** Data *)

(** [trait QbftData]: the consensus value, its hash and its SSZ codec. *)
Class QbftData (D : Type) := {
  data_hash : D → Hash256;
  data_as_ssz : D → bytes;
  data_from_ssz : bytes → option D;
}.

Record ValidData (D : Type) := mkValidData { vd_hash : Hash256; vd_data : D }.
Arguments mkValidData {D} vd_hash vd_data.
Arguments vd_hash {D} v.
Arguments vd_data {D} v.

Inductive MessageContent (D : Type) :=
  | Complete (v : ValidData D)
  | HashOnly (h : Hash256).
Arguments Complete {D} v.
Arguments HashOnly {D} h.

Inductive RcJustificationOutcome (D : Type) :=
  | HighestPrepared (v : ValidData D)
  | PreparedExistsButDataMissing (h : Hash256)
  | NoPrepared.
Arguments HighestPrepared {D} v.
Arguments PreparedExistsButDataMissing {D} h.
Arguments NoPrepared {D}.

Record MessageData := {
  md_data_round : N;
  md_round : N;
  md_root : Hash256;
  md_full_data : bytes;
}.

Record Qbft (F D : Type) := {
  qb_config : Config F;
  qb_identifier : MessageId;
  qb_instance_height : N;
  qb_start_data_hash : Hash256;
  qb_start_data : D;
  qb_valid_start_data : ValidData D;
  qb_data : gmap Hash256 D;
  qb_current_round : Round;
  qb_state : InstanceState;
  qb_completed : option (Completed Hash256);
  qb_propose_container : MessageContainer;
  qb_prepare_container : MessageContainer;
  qb_commit_container : MessageContainer;
  qb_round_change_container : MessageContainer;
  qb_proposal_accepted_for_current_round : bool;
  qb_proposal_root : option Hash256;
  qb_last_prepared_round : option Round;
  qb_last_prepared_value : option Hash256;
  qb_aggregated_commit : option SignedSSVMessage;
  qb_outbox : list UnsignedWrappedQbftMessage;
  qb_data_validator : D → D → bool;
}.
Arguments qb_config {F D} q.
Arguments qb_identifier {F D} q.
Arguments qb_instance_height {F D} q.
Arguments qb_start_data_hash {F D} q.
Arguments qb_start_data {F D} q.
Arguments qb_valid_start_data {F D} q.
Arguments qb_data {F D} q.
Arguments qb_current_round {F D} q.
Arguments qb_state {F D} q.
Arguments qb_completed {F D} q.
Arguments qb_propose_container {F D} q.
Arguments qb_prepare_container {F D} q.
Arguments qb_commit_container {F D} q.
Arguments qb_round_change_container {F D} q.
Arguments qb_proposal_accepted_for_current_round {F D} q.
Arguments qb_proposal_root {F D} q.
Arguments qb_last_prepared_round {F D} q.
Arguments qb_last_prepared_value {F D} q.
Arguments qb_aggregated_commit {F D} q.
Arguments qb_outbox {F D} q.
Arguments qb_data_validator {F D} q.

#[export] Instance Qbft_eta F D : Eta (Qbft F D) := λ q,
  {| qb_config := qb_config q; qb_identifier := qb_identifier q;
     qb_instance_height := qb_instance_height q;
     qb_start_data_hash := qb_start_data_hash q; qb_start_data := qb_start_data q;
     qb_valid_start_data := qb_valid_start_data q; qb_data := qb_data q;
     qb_current_round := qb_current_round q; qb_state := qb_state q;
     qb_completed := qb_completed q; qb_propose_container := qb_propose_container q;
     qb_prepare_container := qb_prepare_container q;
     qb_commit_container := qb_commit_container q;
     qb_round_change_container := qb_round_change_container q;
     qb_proposal_accepted_for_current_round := qb_proposal_accepted_for_current_round q;
     qb_proposal_root := qb_proposal_root q;
     qb_last_prepared_round := qb_last_prepared_round q;
     qb_last_prepared_value := qb_last_prepared_value q;
     qb_aggregated_commit := qb_aggregated_commit q; qb_outbox := qb_outbox q;
     qb_data_validator := qb_data_validator q |}.

Section qbft.
Context {F D : Type} `{!LeaderFunction F} `{!QbftData D} {Codec : SszCodec}.
Implicit Types (q : Qbft F D) (w : WrappedQbftMessage).

(** ** Checks *)

Definition check_leader q (operator_id : OperatorId) (r : Round) : option bool :=
  leader_function (cfg_leader_fn (qb_config q)) operator_id r
    (qb_instance_height q) (cfg_committee_members (qb_config q)).

Definition check_committee q (operator_id : OperatorId) : bool :=
  bool_decide (operator_id ∈ cfg_committee_members (qb_config q)).

(** The committee members among the signers of some messages. *)
Definition unique_operators q (msgs : list SignedSSVMessage) : gset OperatorId :=
  list_to_set (filter (λ op, check_committee q op) (msgs ≫= operator_ids)).

Definition has_quorum q (msgs : list SignedSSVMessage) : bool :=
  bool_decide (cfg_quorum_size (qb_config q) ≤ size (unique_operators q msgs)).

Definition is_proposal_accepted q : outcome QbftError unit :=
  ensure (qb_proposal_accepted_for_current_round q) ProposalNotAccepted.

Definition try_decode_signed_ssv_messages (messages : list bytes) (decode_err : QbftError)
    : outcome QbftError (list SignedSSVMessage) :=
  try_map (λ bs, ok_or (signed_from_ssz bs) decode_err) messages.

Definition try_encode_signed_ssv_messages (cap : N) (messages : list SignedSSVMessage)
    (inner_error_fn outer_error_fn : N → N → QbftError) : outcome QbftError (list bytes) :=
  message_vec ← try_map (λ msg, try_to_variable_list cap inner_error_fn
                                  (signed_as_ssz (without_full_data msg))) messages;
  try_to_variable_list MaxSigners outer_error_fn message_vec.

(** The round checks at the head of [validate_message]. *)
Definition validate_message_round q w : outcome QbftError unit :=
  let m := qbft_message w in
  _ ← (if (round m <? round_get (qb_current_round q))%N
       then ensure (bool_decide (qbft_message_type m = Commit)
                    && has_quorum q [signed_message w]) PastRound
       else Ok tt);
  if (round_get (qb_current_round q) <? round m)%N
  then match qbft_message_type m with
       | Proposal | RoundChange => Ok tt
       | Commit => ensure (has_quorum q [signed_message w]) WrongRound
       | Prepare => Err WrongRound
       end
  else Ok tt.

Definition validate_message q w : outcome QbftError (MessageContent D * OperatorId) :=
  let m := qbft_message w in
  let ids := operator_ids (signed_message w) in
  let data := full_data (signed_message w) in
  _ ← validate_message_round q w;
  _ ← ensure (height m =? qb_instance_height q)%N WrongHeight;
  _ ← try_for_each (λ signer, ensure (check_committee q signer) SignerNotInCommittee) ids;
  if decide (1 < length ids) then Ok (HashOnly (root m), 0%N)
  else
    signer ← ok_or (head ids) MissingOperators;
    if bool_decide (data = []) || bool_decide (qbft_message_type m = RoundChange)
    then Ok (HashOnly (root m), signer)
    else
      d ← ok_or (data_from_ssz data) InvalidFullData;
      _ ← ensure (qb_data_validator q d (qb_start_data q)) DataValidationFailed;
      Ok (Complete (mkValidData (root m) d), signer).

(** [Iterator::max_by_key]: the last of several maximal elements. *)
Definition max_by_key {A} (key : A → N) (l : list A) : option A :=
  foldl (λ acc x, match acc with
                  | None => Some x
                  | Some y => if (key y <=? key x)%N then Some x else Some y
                  end) None l.

Definition justify_round_change_quorum q : RcJustificationOutcome D :=
  let rcs := get_messages_for_round (qb_round_change_container q) (qb_current_round q) in
  if negb (has_quorum q (signed_message <$> rcs)) then NoPrepared
  else
    match max_by_key (λ m, data_round (qbft_message m))
            (filter (λ m, data_round (qbft_message m) ≠ 0%N) rcs) with
    | None => NoPrepared
    | Some highest_prepared =>
        let claimed_hash := root (qbft_message highest_prepared) in
        let bs := full_data (signed_message highest_prepared) in
        if decide (bs = []) then PreparedExistsButDataMissing claimed_hash
        else
          match data_from_ssz bs with
          | None => PreparedExistsButDataMissing claimed_hash
          | Some d =>
              if negb (data_hash d =? claimed_hash)%N
              then PreparedExistsButDataMissing claimed_hash
              else if negb (qb_data_validator q d (qb_start_data q))
              then PreparedExistsButDataMissing claimed_hash
              else HighestPrepared (mkValidData claimed_hash d)
          end
    end.

(** ** Justifications of received messages *)

Definition is_valid_prepare_justification_for_round_and_root q
    (justification : SignedSSVMessage) (r : Round) (rt : Hash256) : outcome QbftError unit :=
  match operator_ids justification with
  | [operator_id] =>
      _ ← ensure (bool_decide (length (signatures justification) = 1))
            PrepareJustificationMultiSigner;
      _ ← ensure (check_committee q operator_id) SignerNotInCommittee;
      prepare ← ok_or (qbft_from_ssz (ssv_data (ssv_message justification)))
                  PrepareJustificationDecodeFailed;
      _ ← ensure (bool_decide (qbft_message_type prepare = Prepare))
            PrepareJustificationNotPrepare;
      _ ← ensure (height prepare =? qb_instance_height q)%N PrepareJustificationWrongHeight;
      _ ← ensure (round prepare =? round_get r)%N PrepareJustificationWrongRound;
      ensure (Messages.root prepare =? rt)%N PrepareJustificationRootMismatch
  | _ => Err PrepareJustificationMultiSigner
  end.

(** The part of the loop of [validate_proposal_justifications] that concerns a round
    change with a prepared value. *)
Definition validate_prepared_round_change q (msg rc : QbftMessage) : outcome QbftError unit :=
  _ ← ensure (data_round rc <? round rc)%N RoundChangeJustificationInvalidDataRound;
  _ ← ensure (root msg =? root rc)%N RoundChangeJustificationInvalidPrepareRoot;
  inner ← try_decode_signed_ssv_messages (round_change_justification rc)
            RoundChangeJustificationDecodeFailed;
  _ ← ensure (has_quorum q inner) RoundChangeJustificationNoPrepareQuorum;
  try_for_each (λ signed_prepare,
    r ← round_from (data_round rc);
    is_valid_prepare_justification_for_round_and_root q signed_prepare r (root rc)) inner.

(** The loop of [validate_proposal_justifications] over the round changes, with its two
    mutable variables; it returns the final [max_prepared_msg]. *)
Fixpoint validate_round_changes q (msg : QbftMessage) (max_prepared_round : N)
    (max_prepared_msg : option QbftMessage) (rcs : list SignedSSVMessage)
    : outcome QbftError (option QbftMessage) :=
  match rcs with
  | [] => Ok max_prepared_msg
  | signed_round_change :: rcs =>
      _ ← ensure (bool_decide (length (operator_ids signed_round_change) = 1)
                  && bool_decide (length (signatures signed_round_change) = 1))
            RoundChangeJustificationMultiSigner;
      _ ← try_for_each (λ signer, ensure (check_committee q signer)
                                    RoundChangeJustificationNotInCommittee)
            (operator_ids signed_round_change);
      rc ← ok_or (qbft_from_ssz (ssv_data (ssv_message signed_round_change)))
             RoundChangeJustificationDecodeFailed;
      _ ← ensure (bool_decide (qbft_message_type rc = RoundChange))
            RoundChangeJustificationNotRoundChange;
      _ ← ensure (round rc =? round msg)%N RoundChangeJustificationWrongRound;
      _ ← ensure (height rc =? qb_instance_height q)%N RoundChangeJustificationWrongHeight;
      if (0 <? data_round rc)%N
      then
        let '(mpr, mpm) :=
          if (max_prepared_round <? data_round rc)%N then (data_round rc, Some rc)
          else (max_prepared_round, max_prepared_msg) in
        _ ← validate_prepared_round_change q msg rc;
        validate_round_changes q msg mpr mpm rcs
      else validate_round_changes q msg max_prepared_round max_prepared_msg rcs
  end.

Definition validate_proposal_justifications q w : outcome QbftError unit :=
  let msg := qbft_message w in
  signed_rcs ← try_decode_signed_ssv_messages (round_change_justification msg)
                 RoundChangeJustificationDecodeFailed;
  _ ← ensure (has_quorum q signed_rcs) ProposalRoundChangeJustificationNoQuorum;
  max_prepared_msg ← validate_round_changes q msg 0 None signed_rcs;
  match max_prepared_msg with
  | None => Ok tt
  | Some mpm =>
      prepares ← try_decode_signed_ssv_messages (prepare_justification msg)
                   PrepareJustificationNoQuorum;
      _ ← ensure (has_quorum q prepares) PrepareJustificationNoQuorum;
      _ ← ensure (root msg =? root mpm)%N PrepareJustificationRootMismatch;
      try_for_each (λ signed_prepare,
        r ← round_from (data_round mpm);
        is_valid_prepare_justification_for_round_and_root q signed_prepare r (root mpm))
        prepares
  end.

(** ** Outgoing messages *)

Definition get_message_data q (ty : QbftMessageType) (hash : Hash256) : MessageData :=
  let bytes_of h := default [] (data_as_ssz <$> qb_data q !! h) in
  let current := round_get (qb_current_round q) in
  match ty with
  | RoundChange =>
      match qb_last_prepared_value q, qb_last_prepared_round q with
      | Some last_prepared_value, Some last_prepared_round =>
          {| md_data_round := round_get last_prepared_round; md_round := current;
             md_root := last_prepared_value; md_full_data := bytes_of last_prepared_value |}
      | _, _ =>
          {| md_data_round := 0; md_round := current; md_root := 0; md_full_data := [] |}
      end
  | Proposal =>
      {| md_data_round := 0; md_round := current; md_root := hash;
         md_full_data := bytes_of hash |}
  | Prepare | Commit =>
      {| md_data_round := 0; md_round := current; md_root := hash; md_full_data := [] |}
  end.

Definition clear_full_data (msgs : list SignedSSVMessage)
    : outcome QbftError (list SignedSSVMessage) :=
  try_map (λ m, map_err (λ _, InvalidFullData) (set_full_data m [])) msgs.

Definition new_unsigned_message q (ty : QbftMessageType) (hash : Hash256)
    (round_change_justification prepare_justification : list SignedSSVMessage)
    : outcome QbftError UnsignedWrappedQbftMessage :=
  let data := get_message_data q ty hash in
  rcj ← clear_full_data round_change_justification;
  pj ← clear_full_data prepare_justification;
  rcj ← try_encode_signed_ssv_messages RoundChangeJustificationLength rcj
          RoundChangeJustificationTooBig RoundChangeJustificationListTooBig;
  pj ← try_encode_signed_ssv_messages PrepareJustificationLength pj
         PrepareJustificationTooBig PrepareJustificationListTooBig;
  let qbft_message :=
    {| qbft_message_type := ty; height := qb_instance_height q; round := md_round data;
       identifier := qb_identifier q; root := md_root data; data_round := md_data_round data;
       Messages.round_change_justification := rcj; Messages.prepare_justification := pj |} in
  match ssv_message_new SSVConsensusMsgType (qb_identifier q) (qbft_as_ssz qbft_message) with
  | Ok ssv_message =>
      Ok {| unsigned_message := {| unsigned_ssv_message := ssv_message;
                                   unsigned_full_data := md_full_data data |};
            unsigned_qbft_message := qbft_message |}
  | _ => Panic
  end.

Definition get_round_change_justifications q : list SignedSSVMessage :=
  if decide (qb_current_round q ≤ round_default)%positive then []
  else
    match qb_state q with
    | AwaitingProposal =>
        let round_changes :=
          get_messages_for_round (qb_round_change_container q) (qb_current_round q) in
        if has_quorum q (signed_message <$> round_changes)
        then signed_message <$> round_changes else []
    | _ => []
    end.

Definition get_round_change_prepare_justifications q : list SignedSSVMessage :=
  match qb_last_prepared_value q, qb_last_prepared_round q with
  | Some last_prepared_value, Some last_prepared_round =>
      let prepares := get_messages_for_round (qb_prepare_container q) last_prepared_round in
      let filtered_prepares :=
        filter (λ m, root (qbft_message m) = last_prepared_value) prepares in
      if has_quorum q (signed_message <$> filtered_prepares)
      then signed_message <$> filtered_prepares else []
  | _, _ => []
  end.

(** The loop of [get_prepare_justifications]: the first round change with the highest
    prepared round. *)
Definition highest_prepared_step (acc : option (Round * Hash256 * WrappedQbftMessage))
    (rc_msg : WrappedQbftMessage) : option (Round * Hash256 * WrappedQbftMessage) :=
  match data_round (qbft_message rc_msg) with
  | N0 => acc
  | Npos prepared_round =>
      let update := Some (prepared_round, root (qbft_message rc_msg), rc_msg) in
      match acc with
      | None => update
      | Some (r, _, _) => if decide (r < prepared_round)%positive then update else acc
      end
  end.

Definition get_prepare_justifications q
    : outcome QbftError (list SignedSSVMessage * option Hash256) :=
  if decide (qb_current_round q = round_default) then Ok ([], None)
  else if negb (bool_decide (qb_state q = AwaitingProposal)) then Ok ([], None)
  else
    let potential_prepare_just := get_round_change_prepare_justifications q in
    if negb (bool_decide (potential_prepare_just = []))
    then match qb_last_prepared_value q with
         | Some last_prepared => Ok (potential_prepare_just, Some last_prepared)
         | None => Err MissingLastPreparedValue
         end
    else
      let round_changes :=
        get_messages_for_round (qb_round_change_container q) (qb_current_round q) in
      if negb (has_quorum q (signed_message <$> round_changes)) then Ok ([], None)
      else
        match foldl highest_prepared_step None round_changes with
        | Some (_, prepared_value, highest_rc) =>
            prepare_msgs ← try_decode_signed_ssv_messages
                             (Messages.round_change_justification (qbft_message highest_rc))
                             RoundChangeJustificationDecodeFailed;
            if has_quorum q prepare_msgs then Ok (prepare_msgs, Some prepared_value)
            else Ok ([], None)
        | None => Ok ([], None)
        end.

Definition qaction (A : Type) : Type := action (Qbft F D) QbftError A.

(** [self.message_sender.send(msg)] *)
Definition send (msg : UnsignedWrappedQbftMessage) : qaction unit :=
  modify (λ q, q <| qb_outbox := qb_outbox q ++ [msg] |>).

(** [self.data.insert(hash, data)] *)
Definition insert_data (hash : Hash256) (d : D) : qaction unit :=
  modify (λ q, q <| qb_data := <[hash := d]> (qb_data q) |>).

Definition set_state (st : InstanceState) : qaction unit :=
  modify (λ q, q <| qb_state := st |>).

Definition send_proposal (hash : Hash256) (d : D) : qaction unit :=
  _ ← insert_data hash d;
  round_change_justifications ← gets get_round_change_justifications;
  pj ← gets get_prepare_justifications;
  pj ← lift pj;
  let '(prepare_justifications, value) := pj in
  let value_to_propose := default hash value in
  msg ← gets (λ q, new_unsigned_message q Proposal value_to_propose
                     round_change_justifications prepare_justifications);
  msg ← lift msg;
  send msg.

Definition send_prepare (hash : Hash256) : qaction unit :=
  known ← gets (λ q, bool_decide (is_Some (qb_data q !! hash)));
  _ ← lift (ensure known MissingData);
  msg ← gets (λ q, new_unsigned_message q Prepare hash [] []);
  msg ← lift msg;
  send msg.

Definition send_commit (hash : Hash256) : qaction unit :=
  msg ← gets (λ q, new_unsigned_message q Commit hash [] []);
  msg ← lift msg;
  send msg.

Definition send_round_change (hash : Hash256) : qaction unit :=
  justifications ← gets get_round_change_prepare_justifications;
  msg ← gets (λ q, new_unsigned_message q RoundChange hash justifications []);
  msg ← lift msg;
  _ ← modify (λ q, q <| qb_proposal_accepted_for_current_round := false |>);
  send msg.

(** ** Rounds *)

Definition start_round : qaction unit :=
  st ← gets qb_state;
  if decide (st = SentRoundChange) then mret tt
  else
    _ ← set_state AwaitingProposal;
    leader ← gets (λ q, check_leader q (cfg_operator_id (qb_config q)) (qb_current_round q));
    leader ← lift (expect leader);
    if (leader : bool)
    then
      outcome ← gets justify_round_change_quorum;
      match outcome with
      | HighestPrepared v => ignore_err (send_proposal (vd_hash v) (vd_data v))
      | NoPrepared =>
          v ← gets qb_valid_start_data;
          ignore_err (send_proposal (vd_hash v) (vd_data v))
      | PreparedExistsButDataMissing _ => mret tt
      end
    else mret tt.

Definition set_round (new_round : Round) : qaction unit :=
  _ ← modify (λ q, q <| qb_current_round := new_round |>);
  start_round.

(** The instance before [new] starts its first round. *)
Definition qbft_init (config : Config F) (start_data : D) (data_validator : D → D → bool)
    (id : MessageId) : Qbft F D :=
  let q := cfg_quorum_size config in
  let hash := data_hash start_data in
  {| qb_config := config; qb_identifier := id;
     qb_instance_height := cfg_instance_height config;
     qb_start_data_hash := hash; qb_start_data := start_data;
     qb_valid_start_data := mkValidData hash start_data;
     qb_data := {[hash := start_data]};
     qb_current_round := cfg_round config; qb_state := AwaitingProposal;
     qb_completed := None;
     qb_propose_container := container_new q; qb_prepare_container := container_new q;
     qb_commit_container := container_new q; qb_round_change_container := container_new q;
     qb_proposal_accepted_for_current_round := false; qb_proposal_root := None;
     qb_last_prepared_round := None; qb_last_prepared_value := None;
     qb_aggregated_commit := None; qb_outbox := []; qb_data_validator := data_validator |}.

Definition qbft_new (config : Config F) (start_data : D) (data_validator : D → D → bool)
    (id : MessageId) : outcome QbftError unit * Qbft F D :=
  start_round (qbft_init config start_data data_validator id).

(** Giving up on the instance. *)
Definition time_out : qaction unit :=
  _ ← set_state CompleteState;
  modify (λ q, q <| qb_completed := Some TimedOut |>).

(** [Qbft::end_round], called when the round timer fires. *)
Definition end_round : qaction unit :=
  next ← gets (λ q, round_next (qb_current_round q));
  match next with
  | None => time_out
  | Some next_round =>
      max_rounds ← gets (λ q, cfg_max_rounds (qb_config q));
      if (max_rounds <? round_get next_round)%N then time_out
      else
        _ ← modify (λ q, q <| qb_current_round := next_round |>);
        _ ← set_state SentRoundChange;
        sent ← attempt (send_round_change 0%N);
        match sent with
        | Some _ => start_round
        | None => mret tt
        end
  end.

(** ** Handlers *)

Definition received_propose (valid_data : ValidData D) (operator_id : OperatorId) (r : Round)
    (w : WrappedQbftMessage) : qaction unit :=
  q ← gets (λ q, q);
  _ ← lift (ensure (negb (bool_decide (r = qb_current_round q)
                          && negb (bool_decide (qb_state q = AwaitingProposal)))) InvalidState);
  leader ← lift (expect (check_leader q operator_id r));
  _ ← lift (ensure leader ProposalNotFromLeader);
  _ ← lift (if decide (round_default < r)%positive
            then validate_proposal_justifications q w else Ok tt);
  _ ← insert_data (vd_hash valid_data) (vd_data valid_data);
  fresh ← gets (λ q, (add_message r operator_id w (qb_propose_container q)).1);
  _ ← modify (λ q, q <| qb_propose_container :=
                         (add_message r operator_id w (qb_propose_container q)).2 |>);
  _ ← lift (ensure fresh DuplicateProposal);
  q ← gets (λ q, q);
  _ ← lift (ensure (negb (qb_proposal_accepted_for_current_round q
                          && bool_decide (r = qb_current_round q))) ProposalAlreadyReceived);
  _ ← (if decide (qb_current_round q < r)%positive
       then modify (λ q, q <| qb_current_round := r |>) else mret tt);
  _ ← modify (λ q, q <| qb_proposal_accepted_for_current_round := true |>);
  _ ← modify (λ q, q <| qb_proposal_root := Some (vd_hash valid_data) |>);
  _ ← set_state (PrepareState (vd_hash valid_data));
  send_prepare (root (qbft_message w)).

(** The tail of [received_prepare], for a message that was stored and matches the
    accepted proposal. *)
Definition check_prepare_quorum (r : Round) : qaction unit :=
  q ← gets (λ q, q);
  match mc_has_quorum (qb_prepare_container q) r with
  | None => mret tt
  | Some hash =>
      match qb_state q with
      | PrepareState proposal_root =>
          _ ← lift (ensure (hash =? proposal_root)%N ProposedDataMismatch);
          _ ← set_state (CommitState proposal_root);
          _ ← modify (λ q, q <| qb_last_prepared_value := Some hash |>);
          _ ← modify (λ q, q <| qb_last_prepared_round := Some (qb_current_round q) |>);
          send_commit hash
      | _ => mret tt
      end
  end.

Definition received_prepare (operator_id : OperatorId) (r : Round) (w : WrappedQbftMessage)
    : qaction unit :=
  q ← gets (λ q, q);
  if decide (is_Some (qb_completed q)) then mret tt
  else
    _ ← lift (ensure (state_u8 (qb_state q) <? state_u8 SentRoundChange)%N InvalidState);
    _ ← lift (ensure (bool_decide (qbft_message_type (qbft_message w) = Prepare))
                WrongMessageType);
    fresh ← gets (λ q, (add_message r operator_id w (qb_prepare_container q)).1);
    _ ← modify (λ q, q <| qb_prepare_container :=
                           (add_message r operator_id w (qb_prepare_container q)).2 |>);
    if negb fresh then mret tt
    else
      _ ← lift (is_proposal_accepted q);
      _ ← lift (match qb_proposal_root q with
                | Some accepted_root =>
                    ensure (root (qbft_message w) =? accepted_root)%N ProposedDataMismatch
                | None => Ok tt
                end);
      check_prepare_quorum r.

Definition aggregate_commit_messages (q : Qbft F D) (commit_quorum : list WrappedQbftMessage)
    : outcome QbftError SignedSSVMessage :=
  match commit_quorum with
  | [] => Err MissingCommit
  | first_commit :: rest =>
      let aggregated_commit := signed_message first_commit in
      _ ← ensure (forallb (λ c, bool_decide (ssv_message aggregated_commit =
                                             ssv_message (signed_message c))) rest)
            CommitQuorumMismatch;
      aggregated_commit ← map_err FailedToAggregate
                            (aggregate aggregated_commit (signed_message <$> rest));
      data ← ok_or (qb_data q !! root (qbft_message first_commit)) MissingData;
      map_err SignedMessageError (set_full_data aggregated_commit (data_as_ssz data))
  end.

(** The tail of [received_commit], for a message that was stored. *)
Definition check_commit_quorum (r : Round) : qaction unit :=
  q ← gets (λ q, q);
  match mc_has_quorum (qb_commit_container q) r with
  | None => mret tt
  | Some hash =>
      _ ← lift (match qb_state q with
                | PrepareState proposal_root | CommitState proposal_root =>
                    ensure (hash =? proposal_root)%N ProposedDataMismatch
                | _ => Err InvalidState
                end);
      let commit_quorum := get_quorum_of_messages (qb_commit_container q) r in
      aggregated_commit ← lift (aggregate_commit_messages q commit_quorum);
      _ ← modify (λ q, q <| qb_aggregated_commit := Some aggregated_commit |>);
      _ ← set_state CompleteState;
      modify (λ q, q <| qb_completed := Some (Success hash) |>)
  end.

Definition received_commit (operator_id : OperatorId) (r : Round) (w : WrappedQbftMessage)
    : qaction unit :=
  q ← gets (λ q, q);
  if decide (is_Some (qb_completed q)) then mret tt
  else
    _ ← lift (ensure (state_u8 (qb_state q) <? state_u8 SentRoundChange)%N InvalidState);
    _ ← lift (ensure (bool_decide (qbft_message_type (qbft_message w) = Commit))
                WrongMessageType);
    _ ← lift (is_proposal_accepted q);
    _ ← lift (match qb_proposal_root q with
              | Some accepted_root =>
                  ensure (root (qbft_message w) =? accepted_root)%N ProposedDataMismatch
              | None => Err ProposalNotFound
              end);
    fresh ← gets (λ q, (add_message r operator_id w (qb_commit_container q)).1);
    _ ← modify (λ q, q <| qb_commit_container :=
                           (add_message r operator_id w (qb_commit_container q)).2 |>);
    if negb fresh then mret tt else check_commit_quorum r.

(** The justification checks of [received_round_change]. *)
Definition validate_round_change (q : Qbft F D) (m : QbftMessage) : outcome QbftError unit :=
  if (0 <? data_round m)%N
  then
    justifications ← try_decode_signed_ssv_messages (round_change_justification m)
                       RoundChangeJustificationDecodeFailed;
    _ ← ensure (has_quorum q justifications) RoundChangeJustificationNoQuorum;
    _ ← ensure (data_round m <? round m)%N InvalidDataRound;
    try_for_each (λ justification,
      r ← round_from (data_round m);
      is_valid_prepare_justification_for_round_and_root q justification r (root m))
      justifications
  else Ok tt.

Definition received_round_change (operator_id : OperatorId) (r : Round) (w : WrappedQbftMessage)
    : qaction unit :=
  q ← gets (λ q, q);
  _ ← lift (ensure (state_u8 (qb_state q) <? state_u8 CompleteState)%N InvalidState);
  _ ← lift (validate_round_change q (qbft_message w));
  let had_quorum_before := has_quorum_disregarding_root (qb_round_change_container q) r in
  _ ← modify (λ q, q <| qb_round_change_container :=
                         (add_message r operator_id w (qb_round_change_container q)).2 |>);
  if had_quorum_before then mret tt
  else
    q ← gets (λ q, q);
    if has_quorum_disregarding_root (qb_round_change_container q) r
    then
      _ ← set_state RoundChangeConsensus;
      set_round r
    else
      match lowest_partial_quorum_above_round (qb_round_change_container q)
              (qb_current_round q)
              (get_f (length (cfg_committee_members (qb_config q))) + 1) with
      | Some future =>
          if decide (qb_current_round q < future)%positive
          then
            _ ← set_state SentRoundChange;
            _ ← modify (λ q, q <| qb_current_round := future |>);
            _ ← modify (λ q, q <| qb_proposal_accepted_for_current_round := false |>);
            send_round_change 0%N
          else mret tt
      | None => mret tt
      end.

Definition received_decided (w : WrappedQbftMessage) : qaction unit :=
  q ← gets (λ q, q);
  _ ← lift (ensure (has_quorum q [signed_message w]) NotEnoughSignatures);
  match qb_completed q with
  | Some (Success _) => mret tt
  | _ =>
      d ← lift (ok_or (data_from_ssz (full_data (signed_message w))) InvalidFullData);
      _ ← lift (ensure (qb_data_validator q d (qb_start_data q)) InvalidFullData);
      _ ← set_state CompleteState;
      _ ← insert_data (root (qbft_message w)) d;
      _ ← modify (λ q, q <| qb_completed := Some (Success (root (qbft_message w))) |>);
      modify (λ q, q <| qb_aggregated_commit := Some (signed_message w) |>)
  end.

(** [Qbft::receive]: the entry point for messages from the network. *)
Definition receive (w : WrappedQbftMessage) : qaction unit :=
  validated ← gets (λ q, validate_message q w);
  validated ← lift validated;
  let '(validated_msg, signer) := validated in
  msg_round ← lift (round_from (round (qbft_message w)));
  match qbft_message_type (qbft_message w) with
  | Proposal =>
      match validated_msg with
      | Complete valid_data => received_propose valid_data signer msg_round w
      | HashOnly _ => mret tt
      end
  | Prepare => received_prepare signer msg_round w
  | Commit =>
      if decide (length (operator_ids (signed_message w)) = 1)
      then received_commit signer msg_round w
      else received_decided w
  | RoundChange => received_round_change signer msg_round w
  end.

(** [Qbft::completed]: the decided data itself. *)
Definition completed (q : Qbft F D) : option (Completed D) :=
  match qb_completed q with
  | None => None
  | Some TimedOut => Some TimedOut
  | Some (Success hash) => Success <$> qb_data q !! hash
  end.
End qbft.
