(* ===== verification/Sample.v ===== *)
(** * A concrete setting

    Instances of the interfaces the development is generic in, used to run the
    definitions on concrete inputs: an injective codec for the derived SSZ encodings, a
    consensus value that is a number, and a committee of four operators. *)

From S2P Require Import Prelude SsvTypes Messages QbftTypes MsgContainer Qbft.

(** ** A codec: one byte per bit of the countable encoding *)

Fixpoint bits_of_pos (p : positive) : bytes :=
  match p with
  | xH => []
  | xO p => x00 :: bits_of_pos p
  | xI p => x01 :: bits_of_pos p
  end.

Fixpoint pos_of_bits (bs : bytes) : option positive :=
  match bs with
  | [] => Some xH
  | x00 :: bs => xO <$> pos_of_bits bs
  | x01 :: bs => xI <$> pos_of_bits bs
  | _ => None
  end.

Lemma pos_of_bits_of_pos p : pos_of_bits (bits_of_pos p) = Some p.
Proof. induction p as [p IH|p IH|]; simpl; [by rewrite IH..|done]. Qed.

Definition bits_encode `{Countable A} (a : A) : bytes := bits_of_pos (encode a).
Definition bits_decode `{Countable A} (bs : bytes) : option A := pos_of_bits bs ≫= decode.

Lemma bits_decode_encode `{Countable A} (a : A) : bits_decode (bits_encode a) = Some a.
Proof. unfold bits_decode, bits_encode. rewrite pos_of_bits_of_pos. simpl. apply decode_encode. Qed.

#[export] Program Instance MsgType_countable : Countable MsgType :=
  inj_countable msg_type_to_u64
    (λ n, ok (msg_type_of_u64 n)) _.
Next Obligation. by intros []. Qed.

#[export] Program Instance QbftMessageType_countable : Countable QbftMessageType :=
  inj_countable qbft_message_type_encode
    (λ b, ok (qbft_message_type_decode b)) _.
Next Obligation. by intros []. Qed.

#[export] Program Instance SSVMessage_countable : Countable SSVMessage :=
  inj_countable (λ m, (msg_type m, msg_id m, ssv_data m))
    (λ '(t, i, d), Some {| msg_type := t; msg_id := i; ssv_data := d |}) _.
Next Obligation. by intros []. Qed.

#[export] Program Instance SignedSSVMessage_countable : Countable SignedSSVMessage :=
  inj_countable (λ m, (signatures m, operator_ids m, ssv_message m, full_data m))
    (λ '(s, o, m, f), Some {| signatures := s; operator_ids := o; ssv_message := m;
                              full_data := f |}) _.
Next Obligation. by intros []. Qed.

#[export] Program Instance QbftMessage_countable : Countable QbftMessage :=
  inj_countable (λ m, (qbft_message_type m, height m, round m, identifier m, root m,
                       data_round m, round_change_justification m, prepare_justification m))
    (λ '(t, h, r, i, rt, dr, rcj, pj),
       Some {| qbft_message_type := t; height := h; round := r; identifier := i; root := rt;
               data_round := dr; round_change_justification := rcj;
               prepare_justification := pj |}) _.
Next Obligation. by intros []. Qed.

#[export] Program Instance PartialSignatureKind_countable : Countable PartialSignatureKind :=
  inj_countable PartialSignatureKind.kind_to_u64 PartialSignatureKind.kind_of_u64 _.
Next Obligation. by intros []. Qed.

#[export] Instance PartialSignatureMessage_eq_dec : EqDecision PartialSignatureMessage.
Proof. solve_decision. Defined.
#[export] Instance PartialSignatureMessages_eq_dec : EqDecision PartialSignatureMessages.
Proof. solve_decision. Defined.

#[export] Program Instance PartialSignatureMessage_countable : Countable PartialSignatureMessage :=
  inj_countable (λ m, (partial_signature m, signing_root m, psm_signer m, validator_index m))
    (λ '(s, r, o, v), Some {| partial_signature := s; signing_root := r; psm_signer := o;
                              validator_index := v |}) _.
Next Obligation. by intros []. Qed.

#[export] Program Instance PartialSignatureMessages_countable : Countable PartialSignatureMessages :=
  inj_countable (λ m, (kind m, psm_slot m, messages m))
    (λ '(k, s, l), Some {| kind := k; psm_slot := s; messages := l |}) _.
Next Obligation. by intros []. Qed.

Definition sample_codec : SszCodec :=
  {| signed_from_ssz := bits_decode; signed_as_ssz := bits_encode;
     qbft_from_ssz := bits_decode; qbft_as_ssz := bits_encode;
     psm_from_ssz := bits_decode |}.

Lemma sample_codec_roundtrip : @SszRoundTrip sample_codec.
Proof. split; intros m; apply bits_decode_encode. Qed.

(** ** Consensus values *)

Definition sample_data : QbftData N :=
  {| data_hash := λ d, d; data_as_ssz := bits_encode; data_from_ssz := bits_decode |}.

(** ** A committee *)

Definition sample_committee : list OperatorId := [1; 2; 3; 4]%N.

Definition sample_config (i : OperatorId) : Config DefaultLeaderFunction :=
  config_builder_new i 0 sample_committee default_leader_fn_default.

Definition sample_identifier : MessageId := [x01].

(** A signature of [o] on an unsigned message. *)
Definition sign (o : OperatorId) (u : UnsignedWrappedQbftMessage) : WrappedQbftMessage :=
  {| signed_message := {| signatures := [[x2a]]; operator_ids := [o];
                          ssv_message := unsigned_ssv_message (unsigned_message u);
                          full_data := unsigned_full_data (unsigned_message u) |};
     qbft_message := unsigned_qbft_message u |}.

(** A signed consensus message with the given content. *)
Definition sample_message (o : OperatorId) (ty : QbftMessageType) (r : N) (v : Hash256)
    : WrappedQbftMessage :=
  let m := {| qbft_message_type := ty; height := 0; round := r; identifier := sample_identifier;
              root := v; data_round := 0; round_change_justification := [];
              prepare_justification := [] |} in
  {| signed_message := {| signatures := [[x2a]]; operator_ids := [o];
       ssv_message := {| msg_type := SSVConsensusMsgType; msg_id := sample_identifier;
                         ssv_data := bits_encode m |};
       full_data := match ty with Proposal => bits_encode v | _ => [] end |};
     qbft_message := m |}.

(** The instance of operator [i], which would propose [d]. *)
Definition sample_qbft (i : OperatorId) (d : N) : Qbft DefaultLeaderFunction N :=
  (@qbft_new _ _ _ sample_data sample_codec (sample_config i) d (λ _ _, true)
     sample_identifier).2.
