(* ===== verification/QbftInv.v ===== *)
(** * What one QBFT instance maintains

    The invariant of a single instance of [Qbft.v], relative to a relation [S] that says
    which operator has signed which message.  Every handler preserves it, whatever its
    outcome: the messages in the containers come from the committee, an instance prepares
    at most one value per round and only a justified one, commits only to a value with a
    prepare quorum, reports its lock in later round changes, and completes only with a
    commit quorum. *)

From S2P Require Import Prelude SsvTypes Messages QbftTypes MsgContainer Qbft.

(** ** Evidence *)

Section evidence.
Context {Codec : SszCodec}.
(** The committee, identifier and height of the instance. *)
Context (committee : list OperatorId) (ident : MessageId) (ht : N).
(** [S o m]: operator [o] has signed [m]. *)
Context (S : OperatorId → SSVMessage → Prop).

Definition committee_set : gset OperatorId := list_to_set committee.

(** [o] signed a consensus message of this instance that satisfies [P]. *)
Definition signed_qbft (P : QbftMessage → Prop) (o : OperatorId) : Prop :=
  ∃ ssv m, S o ssv ∧ msg_id ssv = ident ∧ qbft_from_ssz (ssv_data ssv) = Some m ∧
           height m = ht ∧ P m.

Definition vote (ty : QbftMessageType) (r : N) (v : Hash256) : OperatorId → Prop :=
  signed_qbft (λ m, qbft_message_type m = ty ∧ round m = r ∧ root m = v).

(** A quorum of the committee satisfies [P]. *)
Definition quorum_of (P : OperatorId → Prop) : Prop :=
  ∃ X : gset OperatorId, X ⊆ committee_set ∧ quorum_size (length committee) ≤ size X ∧
    ∀ o, o ∈ X → P o.

(** A value may be proposed in round [r] > 1 when a quorum sent round changes to [r] and
    each of them either prepared nothing, or prepared that value earlier with a quorum. *)
Definition rc_supports (r : N) (v : Hash256) (m : QbftMessage) : Prop :=
  qbft_message_type m = RoundChange ∧ round m = r ∧
  (data_round m ≠ 0%N →
     (data_round m < r)%N ∧ quorum_of (vote Prepare (data_round m) v)).

Definition justified (r : Round) (v : Hash256) : Prop :=
  (1 < r)%positive → quorum_of (signed_qbft (rc_supports (N.pos r) v)).

(** Every signer of the message really signed it, for this instance. *)
Definition authentic (sm : SignedSSVMessage) : Prop :=
  msg_id (ssv_message sm) = ident ∧ ∀ o, o ∈ operator_ids sm → S o (ssv_message sm).

Definition justification_bytes (m : QbftMessage) : list bytes :=
  round_change_justification m ++ prepare_justification m.

(** What message validation establishes of a message before an instance receives it:
    the payload is decoded from the signed bytes, several signers only on commits, and
    genuine signatures on the message and on two levels of justifications. *)
Record checked (w : WrappedQbftMessage) : Prop := {
  ck_decode : qbft_from_ssz (ssv_data (ssv_message (signed_message w))) = Some (qbft_message w);
  ck_multi : 1 < length (operator_ids (signed_message w)) →
             qbft_message_type (qbft_message w) = Commit;
  ck_auth : authentic (signed_message w);
  ck_nested : ∀ b sm, b ∈ justification_bytes (qbft_message w) → signed_from_ssz b = Some sm →
              authentic sm ∧
              ∀ m b' sm', qbft_from_ssz (ssv_data (ssv_message sm)) = Some m →
                b' ∈ justification_bytes m → signed_from_ssz b' = Some sm' → authentic sm';
}.

Lemma authentic_signed_qbft sm o m (P : QbftMessage → Prop) :
  authentic sm → o ∈ operator_ids sm → qbft_from_ssz (ssv_data (ssv_message sm)) = Some m →
  height m = ht → P m → signed_qbft P o.
Proof. intros [Hid Hs] Ho Hm Hh HP. exists (ssv_message sm), m. auto. Qed.
End evidence.

Section evidence_mono.
Context {Codec : SszCodec} (committee : list OperatorId) (ident : MessageId) (ht : N).
Context (S S' : OperatorId → SSVMessage → Prop).
Hypothesis HS : ∀ o m, S o m → S' o m.

Lemma signed_qbft_mono (P P' : QbftMessage → Prop) o :
  (∀ m, P m → P' m) → signed_qbft ident ht S P o → signed_qbft ident ht S' P' o.
Proof. intros HP (ssv & m & ? & ? & ? & ? & ?). exists ssv, m. auto 10. Qed.

Lemma vote_mono ty r v o : vote ident ht S ty r v o → vote ident ht S' ty r v o.
Proof. by apply signed_qbft_mono. Qed.

Lemma quorum_of_mono (P P' : OperatorId → Prop) :
  (∀ o, P o → P' o) → quorum_of committee P → quorum_of committee P'.
Proof. intros HP (X & ? & ? & ?). exists X. auto. Qed.

Lemma justified_mono r v : justified committee ident ht S r v → justified committee ident ht S' r v.
Proof.
  intros Hj Hr. eapply quorum_of_mono; [|exact (Hj Hr)]. intros o.
  apply signed_qbft_mono. intros m (? & ? & Hp). split_and!; [done..|].
  intros Hd. destruct (Hp Hd) as [? Hq]. split; [done|].
  eapply quorum_of_mono; [|done]. intros ?. apply vote_mono.
Qed.
End evidence_mono.

(** ** Inversion of the justification checks *)

Section checks.
Context {F D : Type} `{!LeaderFunction F} `{!QbftData D} {Codec : SszCodec}.
Implicit Types (q : Qbft F D) (w : WrappedQbftMessage) (sm : SignedSSVMessage).

Abbreviation members q := (cfg_committee_members (qb_config q)).

Lemma elem_of_unique_operators q msgs o :
  o ∈ unique_operators q msgs ↔ o ∈ members q ∧ ∃ sm, sm ∈ msgs ∧ o ∈ operator_ids sm.
Proof.
  unfold unique_operators, check_committee.
  rewrite elem_of_list_to_set, list_elem_of_filter, Is_true_true, bool_decide_eq_true,
    list_elem_of_bind. naive_solver.
Qed.

(** A quorum of messages is a quorum of committee members that signed one of them. *)
Lemma has_quorum_signers q msgs (P : OperatorId → Prop) :
  has_quorum q msgs = true →
  (∀ sm o, sm ∈ msgs → o ∈ operator_ids sm → P o) →
  quorum_of (members q) P.
Proof.
  intros Hq HP. unfold has_quorum in Hq. split_and_hyps.
  exists (unique_operators q msgs). split_and!; [|done|].
  - intros o [Ho _]%elem_of_unique_operators. by apply elem_of_list_to_set.
  - intros o (_ & sm & Hsm & Ho)%elem_of_unique_operators. eauto.
Qed.

(** A prepare message the justification check accepts. *)
Definition prepare_ok q (r : N) (v : Hash256) sm : Prop :=
  ∃ m, qbft_from_ssz (ssv_data (ssv_message sm)) = Some m ∧
    qbft_message_type m = Prepare ∧ height m = qb_instance_height q ∧
    round m = r ∧ root m = v.

Lemma is_valid_prepare_justification_ok q sm r v u :
  is_valid_prepare_justification_for_round_and_root q sm r v = Ok u →
  prepare_ok q (N.pos r) v sm.
Proof.
  unfold is_valid_prepare_justification_for_round_and_root.
  destruct (operator_ids sm) as [|op [|??]]; try done.
  intros (? & _ & H)%bind_ok. apply bind_ok in H as (? & _ & H).
  apply bind_ok in H as (m & Hm%ok_or_ok & H).
  apply bind_ok in H as (? & H1%ensure_ok & H). apply bind_ok in H as (? & H2%ensure_ok & H).
  apply bind_ok in H as (? & H3%ensure_ok & H4%ensure_ok).
  apply N.eqb_eq in H2, H3, H4. split_and_hyps. exists m. auto.
Qed.

Lemma try_decode_ok msgs e l :
  try_decode_signed_ssv_messages msgs e = Ok l →
  ∀ sm, sm ∈ l → ∃ b, b ∈ msgs ∧ signed_from_ssz b = Some sm.
Proof.
  intros Hl%try_map_ok sm [i Hi]%list_elem_of_lookup.
  destruct (Forall2_lookup_r _ _ _ _ _ Hl Hi) as (b & Hb & Hd%ok_or_ok).
  exists b. split; [|done]. by eapply list_elem_of_lookup_2.
Qed.

(** A justification list that passed: a quorum, all prepares for the round and root. *)
Definition prepares_ok q (r : N) (v : Hash256) (msgs : list bytes) : Prop :=
  ∃ l, has_quorum q l = true ∧
    (∀ sm, sm ∈ l → ∃ b, b ∈ msgs ∧ signed_from_ssz b = Some sm) ∧
    ∀ sm, sm ∈ l → prepare_ok q r v sm.

Lemma for_each_prepare_ok q l n v u :
  try_for_each (λ sm, r ← round_from n;
    is_valid_prepare_justification_for_round_and_root q sm r v) l = Ok u →
  ∀ sm, sm ∈ l → prepare_ok q n v sm.
Proof.
  rewrite try_for_each_ok, Forall_forall. intros Hall sm Hsm.
  specialize (Hall sm Hsm). apply bind_ok in Hall as (r & Hr & Hok).
  destruct n; simplify_eq/=. by eapply is_valid_prepare_justification_ok.
Qed.

Lemma validate_prepared_round_change_ok q msg rc u :
  validate_prepared_round_change q msg rc = Ok u →
  (data_round rc < round rc)%N ∧ root msg = root rc ∧
  prepares_ok q (data_round rc) (root rc) (round_change_justification rc).
Proof.
  unfold validate_prepared_round_change. intros (? & H1%ensure_ok & H)%bind_ok.
  apply bind_ok in H as (? & H2%ensure_ok & H). apply bind_ok in H as (l & H3 & H).
  apply bind_ok in H as (? & H4%ensure_ok & H5).
  split; [by apply N.ltb_lt|]. split; [by apply N.eqb_eq|].
  exists l. split; [done|]. split; [by eapply try_decode_ok|].
  by eapply for_each_prepare_ok.
Qed.

(** A round change the proposal check accepts. *)
Definition round_change_ok q (msg : QbftMessage) sm : Prop :=
  ∃ rc, qbft_from_ssz (ssv_data (ssv_message sm)) = Some rc ∧
    qbft_message_type rc = RoundChange ∧ round rc = round msg ∧
    height rc = qb_instance_height q ∧
    (data_round rc ≠ 0%N →
      (data_round rc < round rc)%N ∧ root msg = root rc ∧
      prepares_ok q (data_round rc) (root rc) (round_change_justification rc)).

Lemma validate_round_changes_ok q msg mpr mpm l res :
  validate_round_changes q msg mpr mpm l = Ok res →
  ∀ sm, sm ∈ l → round_change_ok q msg sm.
Proof.
  revert mpr mpm. induction l as [|s l IH]; intros mpr mpm Hok sm Hsm; [set_solver|].
  cbn [validate_round_changes] in Hok.
  apply bind_ok in Hok as (? & _ & H). apply bind_ok in H as (? & _ & H).
  apply bind_ok in H as (rc & Hrc%ok_or_ok & H).
  apply bind_ok in H as (? & H1%ensure_ok & H). apply bind_ok in H as (? & H2%ensure_ok & H).
  apply bind_ok in H as (? & H3%ensure_ok & H). apply N.eqb_eq in H2, H3. split_and_hyps.
  destruct (N.ltb_spec 0 (data_round rc)) as [Hd|Hd].
  - destruct (if (mpr <? data_round rc)%N then _ else _) as [mpr' mpm'] eqn:E in H.
    apply bind_ok in H as ([] & Hp%validate_prepared_round_change_ok & H).
    apply elem_of_cons in Hsm as [->|Hsm]; [|by eapply IH].
    exists rc. auto 10.
  - apply elem_of_cons in Hsm as [->|Hsm]; [|by eapply IH].
    exists rc. split_and!; [done..|]. intros Hn. lia.
Qed.

Lemma validate_proposal_justifications_ok q w u :
  validate_proposal_justifications q w = Ok u →
  ∃ l, has_quorum q l = true ∧
    (∀ sm, sm ∈ l → ∃ b, b ∈ round_change_justification (qbft_message w) ∧
                          signed_from_ssz b = Some sm) ∧
    ∀ sm, sm ∈ l → round_change_ok q (qbft_message w) sm.
Proof.
  unfold validate_proposal_justifications. intros (l & H1 & H)%bind_ok.
  apply bind_ok in H as (? & H2%ensure_ok & H). apply bind_ok in H as (mpm & H3 & _).
  exists l. split; [done|]. split; [by eapply try_decode_ok|].
  by eapply validate_round_changes_ok.
Qed.
End checks.

(** ** Outgoing messages *)

Section outgoing.
Context {F D : Type} `{!LeaderFunction F} `{!QbftData D} {Codec : SszCodec}.
Implicit Types (q : Qbft F D) (u : UnsignedWrappedQbftMessage).

Abbreviation out := unsigned_qbft_message.

Lemma ssv_message_new_ok ty id data m :
  ssv_message_new ty id data = Ok m → m = {| msg_type := ty; msg_id := id; ssv_data := data |}.
Proof.
  unfold ssv_message_new, try_to_variable_list. destruct (_ <=? _)%N; [|done].
  cbn. destruct (ssv_message_validate _) as [[]| |]; [|done..]. by intros [= <-].
Qed.

(** The signed bytes are those of the payload, and the payload is for the current round. *)
Lemma new_unsigned_message_ok q ty hash a b u :
  new_unsigned_message q ty hash a b = Ok u →
  unsigned_ssv_message (unsigned_message u) =
    {| msg_type := SSVConsensusMsgType; msg_id := qb_identifier q;
       ssv_data := qbft_as_ssz (out u) |} ∧
  qbft_message_type (out u) = ty ∧ height (out u) = qb_instance_height q ∧
  round (out u) = round_get (qb_current_round q) ∧
  root (out u) = md_root (get_message_data q ty hash) ∧
  data_round (out u) = md_data_round (get_message_data q ty hash).
Proof.
  unfold new_unsigned_message. intros (? & _ & H)%bind_ok. apply bind_ok in H as (? & _ & H).
  apply bind_ok in H as (? & _ & H). apply bind_ok in H as (? & _ & H).
  destruct (ssv_message_new _ _ _) as [ssv| |] eqn:Hssv; [|done..].
  apply ssv_message_new_ok in Hssv as ->. simplify_eq/=. split_and!; try done.
  unfold get_message_data. destruct ty; try done.
  destruct (qb_last_prepared_value q), (qb_last_prepared_round q); done.
Qed.

Lemma message_data_root q ty hash :
  ty ≠ RoundChange → md_root (get_message_data q ty hash) = hash.
Proof. by destruct ty. Qed.
End outgoing.

(** ** The invariant *)

Section invariant.
Context {F D : Type} `{!LeaderFunction F} `{!QbftData D} {Codec : SszCodec}.
Context (committee : list OperatorId) (ident : MessageId) (ht : N) (lf : F).
Implicit Types (q : Qbft F D) (w : WrappedQbftMessage) (u : UnsignedWrappedQbftMessage).
Implicit Types (S : OperatorId → SSVMessage → Prop).

Abbreviation out := unsigned_qbft_message.
Abbreviation Q := (quorum_size (length committee)).

Definition stored_vote S (ty : QbftMessageType) (r : Round) (s : OperatorId) w : Prop :=
  s ∈ committee ∧ vote ident ht S ty (N.pos r) (root (qbft_message w)) s.

Definition stored_proposal S (r : Round) (s : OperatorId) w : Prop :=
  leader_function lf s r ht committee = Some true ∧
  justified committee ident ht S r (root (qbft_message w)).

(** The instance belongs to the committee, identifier, height and leader function. *)
Record static q : Prop := {
  st_committee : cfg_committee_members (qb_config q) = committee;
  st_leader : cfg_leader_fn (qb_config q) = lf;
  st_identifier : qb_identifier q = ident;
  st_height : qb_instance_height q = ht;
  st_prepare : mc_quorum_size (qb_prepare_container q) = Q;
  st_commit : mc_quorum_size (qb_commit_container q) = Q;
  st_round_change : mc_quorum_size (qb_round_change_container q) = Q;
}.

(** A sent message is encoded faithfully and belongs to a round already entered. *)
Definition out_wf q u : Prop :=
  unsigned_ssv_message (unsigned_message u) =
    {| msg_type := SSVConsensusMsgType; msg_id := ident; ssv_data := qbft_as_ssz (out u) |} ∧
  height (out u) = ht ∧
  ∃ r : Round, round (out u) = N.pos r ∧ (r ≤ qb_current_round q)%positive.

Record inv S q : Prop := {
  inv_static : static q;
  inv_outbox : ∀ u, u ∈ qb_outbox q → out_wf q u;
  inv_propose : mc_wf (stored_proposal S) (qb_propose_container q);
  inv_prepare : mc_wf (stored_vote S Prepare) (qb_prepare_container q);
  inv_commit : mc_wf (stored_vote S Commit) (qb_commit_container q);
  (** a value is prepared only after its proposal was stored *)
  inv_sent_prepare : ∀ u r, u ∈ qb_outbox q →
    qbft_message_type (out u) = Prepare → round (out u) = N.pos r →
    ∃ w, w ∈ mc_msgs (qb_propose_container q) r ∧ root (qbft_message w) = root (out u);
  (** a commit follows a prepare quorum, and is remembered as prepared *)
  inv_sent_commit : ∀ u r, u ∈ qb_outbox q →
    qbft_message_type (out u) = Commit → round (out u) = N.pos r →
    Q ≤ votes (mc_msgs (qb_prepare_container q) r) (root (out u)) ∧
    ∃ lr, qb_last_prepared_round q = Some lr ∧ (r ≤ lr)%positive;
  inv_prepared : ∀ lr, qb_last_prepared_round q = Some lr →
    (lr ≤ qb_current_round q)%positive ∧ is_Some (qb_last_prepared_value q);
  (** a round change reports a prepared round no older than any earlier commit *)
  inv_lock : ∀ u u', u ∈ qb_outbox q → u' ∈ qb_outbox q →
    qbft_message_type (out u) = RoundChange → qbft_message_type (out u') = Commit →
    (round (out u') < round (out u))%N → (round (out u') <= data_round (out u))%N;
  inv_completed : ∀ v, qb_completed q = Some (Success v) →
    ∃ r, quorum_of committee (vote ident ht S Commit r v);
}.

Lemma stored_vote_mono S S' ty r s w :
  (∀ o m, S o m → S' o m) → stored_vote S ty r s w → stored_vote S' ty r s w.
Proof. intros HS [? ?]. split; [done|]. by eapply vote_mono. Qed.

Lemma inv_mono S S' q : (∀ o m, S o m → S' o m) → inv S q → inv S' q.
Proof.
  intros HS [H1 H2 H3 H4 H5 H6 H7 H8 H9 H10]. split; try done.
  - eapply mc_wf_impl, H3. intros r s w [? ?]. split; [done|]. by eapply justified_mono.
  - eapply mc_wf_impl, H4. intros r s w. by apply stored_vote_mono.
  - eapply mc_wf_impl, H5. intros r s w. by apply stored_vote_mono.
  - intros v Hv. destruct (H10 v Hv) as [r Hr]. exists r.
    eapply quorum_of_mono, Hr. intros o. by apply vote_mono.
Qed.

(** Appending a message to the outbox. *)
Lemma inv_send S q ty hash a b u :
  inv S q → new_unsigned_message q ty hash a b = Ok u →
  (ty = Prepare → ∃ w, w ∈ mc_msgs (qb_propose_container q) (qb_current_round q) ∧
                        root (qbft_message w) = hash) →
  (ty = Commit → Q ≤ votes (mc_msgs (qb_prepare_container q) (qb_current_round q)) hash ∧
                 qb_last_prepared_round q = Some (qb_current_round q)) →
  inv S (q <| qb_outbox := qb_outbox q ++ [u] |>).
Proof.
  intros [H1 H2 H3 H4 H5 H6 H7 H8 H9 H10] Hu Hprep Hcom.
  destruct (new_unsigned_message_ok _ _ _ _ _ _ Hu) as (Hssv & Hty & Hht & Hr & Hrt & Hdr).
  destruct H1. unfold round_get in Hr. split; cbn; try done.
  - intros u' [Hin| ->%list_elem_of_singleton]%elem_of_app; [by apply H2|].
    unfold out_wf. split_and!; [congruence..|]. exists (qb_current_round q). done.
  - intros u' r [Hin| ->%list_elem_of_singleton]%elem_of_app Ht Hr'; [by eapply H6|].
    rewrite Hr in Hr'. simplify_eq. rewrite Hrt, message_data_root by congruence.
    apply Hprep. congruence.
  - intros u' r [Hin| ->%list_elem_of_singleton]%elem_of_app Ht Hr'; [by eapply H7|].
    rewrite Hr in Hr'. simplify_eq. rewrite Hrt, message_data_root by congruence.
    destruct Hcom as [? ->]; [congruence|]. split; [done|]. by eexists.
  - intros u1 u2 [Hin1| ->%list_elem_of_singleton]%elem_of_app
      [Hin2| ->%list_elem_of_singleton]%elem_of_app Ht1 Ht2 Hlt; [by eapply H9| | |congruence].
    + destruct (H2 _ Hin1) as (_ & _ & r & Hr1 & Hle). lia.
    + destruct (H2 _ Hin2) as (_ & _ & r & Hr2 & Hle).
      destruct (H7 _ _ Hin2 Ht2 Hr2) as (_ & lr & Hlr & Hrl).
      destruct (H8 _ Hlr) as [_ [lv Hlv]].
      rewrite Hdr. rewrite <- Hty, Ht1. simpl. rewrite Hlr, Hlv. simpl. unfold round_get. lia.
Qed.

(** Changing the fields the invariant does not read, and entering a later round. *)
Lemma inv_advance S q q' :
  inv S q →
  qb_config q' = qb_config q → qb_identifier q' = qb_identifier q →
  qb_instance_height q' = qb_instance_height q →
  qb_propose_container q' = qb_propose_container q →
  qb_prepare_container q' = qb_prepare_container q →
  qb_commit_container q' = qb_commit_container q →
  mc_quorum_size (qb_round_change_container q') = mc_quorum_size (qb_round_change_container q) →
  qb_outbox q' = qb_outbox q →
  (qb_current_round q ≤ qb_current_round q')%positive →
  qb_last_prepared_round q' = qb_last_prepared_round q →
  qb_last_prepared_value q' = qb_last_prepared_value q →
  (∀ v, qb_completed q' = Some (Success v) → qb_completed q = Some (Success v)) →
  inv S q'.
Proof.
  intros [[] H2 H3 H4 H5 H6 H7 H8 H9 H10] E1 E2 E3 E4 E5 E6 E7 E8 E9 E10 E11 E12.
  split; rewrite ?E4, ?E5, ?E6, ?E8, ?E10, ?E11; try done.
  - split; congruence.
  - intros u Hu. destruct (H2 u Hu) as (? & ? & r & ? & ?). unfold out_wf.
    split_and!; [done..|]. exists r. split; [done|lia].
  - intros lr Hlr. destruct (H8 lr Hlr). split; [lia|done].
  - auto.
Qed.

Lemma inv_add_propose S q r s w :
  inv S q → stored_proposal S r s w →
  inv S (q <| qb_propose_container := (add_message r s w (qb_propose_container q)).2 |>).
Proof.
  intros [[] H2 H3 H4 H5 H6 H7 H8 H9 H10] Hw. split; cbn; try done.
  - by apply add_message_wf.
  - intros u r' Hu Ht Hr. destruct (H6 u r' Hu Ht Hr) as (w' & Hw' & ?). exists w'.
    split; [|done]. eapply elem_of_prefix; [exact Hw'|]. apply add_message_prefix.
Qed.

Lemma inv_add_prepare S q r s w :
  inv S q → stored_vote S Prepare r s w →
  inv S (q <| qb_prepare_container := (add_message r s w (qb_prepare_container q)).2 |>).
Proof.
  intros [[] H2 H3 H4 H5 H6 H7 H8 H9 H10] Hw. split; cbn; try done.
  - split; cbn; rewrite ?add_message_quorum_size; done.
  - by apply add_message_wf.
  - intros u r' Hu Ht Hr. destruct (H7 u r' Hu Ht Hr) as [Hv ?]. split; [|done].
    etrans; [exact Hv|]. apply votes_prefix, add_message_prefix.
Qed.

Lemma inv_add_commit S q r s w :
  inv S q → stored_vote S Commit r s w →
  inv S (q <| qb_commit_container := (add_message r s w (qb_commit_container q)).2 |>).
Proof.
  intros [[] H2 H3 H4 H5 H6 H7 H8 H9 H10] Hw. split; cbn; try done.
  - split; cbn; rewrite ?add_message_quorum_size; done.
  - by apply add_message_wf.
Qed.

Lemma inv_set_prepared S q v :
  inv S q →
  inv S (q <| qb_last_prepared_value := Some v |>
           <| qb_last_prepared_round := Some (qb_current_round q) |>).
Proof.
  intros [[] H2 H3 H4 H5 H6 H7 H8 H9 H10]. split; cbn; try done.
  - intros u r Hu Ht Hr. destruct (H7 u r Hu Ht Hr) as (? & lr & Hlr & ?).
    destruct (H8 lr Hlr). split; [done|]. eexists. split; [done|]. lia.
  - intros lr [= <-]. split; [lia|by eexists].
Qed.

Lemma inv_complete S q r v :
  inv S q → quorum_of committee (vote ident ht S Commit r v) →
  inv S (q <| qb_completed := Some (Success v) |>).
Proof.
  intros [[] H2 H3 H4 H5 H6 H7 H8 H9 H10] Hq. split; cbn; try done.
  intros v' [= <-]. by exists r.
Qed.

(** A quorum of stored votes is a quorum of votes. *)
Lemma stored_quorum S ty c r v :
  mc_wf (stored_vote S ty) c → mc_quorum_size c = Q → mc_has_quorum c r = Some v →
  quorum_of committee (vote ident ht S ty (N.pos r) v).
Proof.
  intros Hwf HQ Hq.
  destruct (mc_has_quorum_voters _ _ _ _ Hwf ltac:(rewrite HQ; unfold quorum_size; lia) Hq)
    as (X & _ & Hsz & HX).
  exists X. split_and!.
  - intros o (m & _ & [Ho _] & _)%HX. by apply elem_of_list_to_set.
  - by rewrite <- HQ.
  - by intros o (m & _ & [_ Hv] & <-)%HX.
Qed.

Lemma stored_votes_quorum S ty c r v :
  mc_wf (stored_vote S ty) c → Q ≤ votes (mc_msgs c r) v →
  quorum_of committee (vote ident ht S ty (N.pos r) v).
Proof.
  intros Hwf Hv.
  destruct (mc_wf_senders_of _ c r (λ m, root (qbft_message m) = v) Hwf) as (X & _ & Hsz & HX).
  exists X. split_and!.
  - intros o (m & _ & [Ho _] & _)%HX. by apply elem_of_list_to_set.
  - by rewrite Hsz.
  - by intros o (m & _ & [_ Hvt] & <-)%HX.
Qed.

(** ** Every handler preserves it *)

Abbreviation keeps S m q := (wp m (λ _ q', inv S q') q).

Ltac advance := eapply inv_advance; [eassumption|try done..].

Lemma send_proposal_inv S q hash d : inv S q → keeps S (send_proposal hash d) q.
Proof.
  intros Hq. unfold send_proposal, insert_data, send. wp_run; try by advance.
  eapply inv_send; [by advance|eassumption|done|done].
Qed.

Lemma send_round_change_inv S q hash : inv S q → keeps S (send_round_change hash) q.
Proof.
  intros Hq. unfold send_round_change, send. wp_run; try done.
  eapply inv_advance; [eapply (inv_send S q); [done|eassumption|done|done]|done..].
Qed.

Lemma send_prepare_inv S q hash w :
  inv S q → w ∈ mc_msgs (qb_propose_container q) (qb_current_round q) →
  root (qbft_message w) = hash → keeps S (send_prepare hash) q.
Proof.
  intros Hq Hw Hr. unfold send_prepare, send. wp_run; try done.
  eapply inv_send; [done|eassumption|eauto|done].
Qed.

Lemma send_commit_inv S q hash :
  inv S q → Q ≤ votes (mc_msgs (qb_prepare_container q) (qb_current_round q)) hash →
  qb_last_prepared_round q = Some (qb_current_round q) → keeps S (send_commit hash) q.
Proof.
  intros Hq Hv Hl. unfold send_commit, send. wp_run; try done.
  eapply inv_send; [done|eassumption|done|done].
Qed.

Lemma start_round_inv S q : inv S q → keeps S start_round q.
Proof.
  intros Hq. unfold start_round, set_state. wp_run; try done; try by advance.
  all: eapply wp_mono; [apply send_proposal_inv; by advance|].
  all: by intros [] q' Hq'; wp_run.
Qed.

Lemma set_round_inv S q r :
  inv S q → (qb_current_round q ≤ r)%positive → keeps S (set_round r) q.
Proof. intros Hq Hr. unfold set_round. wp_run. apply start_round_inv. by advance. Qed.

Lemma end_round_inv S q : inv S q → keeps S end_round q.
Proof.
  intros Hq. unfold end_round, time_out, set_state. wp_run; try done; try by advance.
  eapply wp_mono; [apply send_round_change_inv|].
  - advance. cbn. match goal with E : round_next _ = _ |- _ => apply round_next_succ in E end. lia.
  - intros [] q' Hq'; wp_run; try done. by apply start_round_inv.
Qed.

(** The evidence in a proposal whose justifications were validated. *)
Lemma prepares_ok_quorum S q r v msgs :
  static q → prepares_ok q r v msgs →
  (∀ b sm, b ∈ msgs → signed_from_ssz b = Some sm → authentic ident S sm) →
  quorum_of committee (vote ident ht S Prepare r v).
Proof.
  intros [] (l & Hq & Hdec & Hok) Hauth.
  rewrite <- st_committee0. apply (has_quorum_signers q l); [done|].
  intros sm o Hsm Ho. destruct (Hok sm Hsm) as (m & Hm & ? & ? & ? & ?).
  destruct (Hdec sm Hsm) as (b & Hb & Hbs).
  eapply authentic_signed_qbft; [eauto|done|done|congruence|done].
Qed.

Lemma proposal_justified S q w r :
  static q → checked ident S w → round (qbft_message w) = N.pos r →
  ((1 < r)%positive → validate_proposal_justifications q w = Ok tt) →
  justified committee ident ht S r (root (qbft_message w)).
Proof.
  intros Hst Hck Hr Hval H1. specialize (Hval H1).
  apply validate_proposal_justifications_ok in Hval as (l & Hq & Hdec & Hok).
  rewrite <- (st_committee _ Hst) at 1. apply (has_quorum_signers q l); [done|].
  intros sm o Hsm Ho. destruct (Hok sm Hsm) as (rc & Hrc & Hty & Hround & Hht & Hprep).
  destruct (Hdec sm Hsm) as (b & Hb & Hbs).
  destruct (ck_nested _ _ _ Hck b sm) as [Hauth Hinner]; [|done|].
  { apply elem_of_app. by left. }
  eapply authentic_signed_qbft; [done|done|done|by rewrite Hht, (st_height _ Hst)|].
  split_and!; [done|congruence|]. intros Hd. destruct (Hprep Hd) as (Hlt & Heq & Hps).
  split; [congruence|]. rewrite Heq. eapply prepares_ok_quorum; [done|done|].
  intros b' sm' Hb' Hs'. eapply Hinner; [done| |done]. apply elem_of_app. by left.
Qed.

Lemma received_propose_inv S q w vd s r :
  inv S q → checked ident S w → round (qbft_message w) = N.pos r →
  (qb_current_round q ≤ r)%positive → vd_hash vd = root (qbft_message w) →
  keeps S (received_propose vd s r w) q.
Proof.
  intros Hq Hck Hr Hle Hvd. pose proof (inv_static _ _ Hq) as Hst.
  unfold received_propose, insert_data, set_state.
  wp_step. wp_step. wp_step. wp_step; [|done]. wp_step. wp_step.
  unfold expect. destruct (check_leader _ s r) as [[]|] eqn:Hl; [|by wp_run|done].
  wp_step. wp_step; [|done]. wp_step. wp_step. wp_step; [|done..].
  assert (stored_proposal S r s w) as Hstored.
  { split.
    - destruct Hst. unfold check_leader in Hl. by rewrite <- st_leader0, <- st_height0, <- st_committee0.
    - eapply proposal_justified; [done..|]. intros Hr1. case_decide; [by destruct a|done]. }
  wp_step. wp_step. wp_step. wp_step. wp_step. wp_step.
  set (q1 := q <| qb_data := _ |>).
  assert (inv S q1) as Hq1 by by advance.
  pose proof (inv_add_propose S q1 r s w Hq1 Hstored) as Hq2.
  wp_step. wp_step; [|done]. wp_step. wp_step. wp_step. wp_step; [|done]. wp_step.
  match goal with H : (add_message _ _ _ _).1 = true |- _ => rename H into Hfresh end.
  pose proof (add_message_msgs _ _ _ _ r Hfresh) as Hmsgs. rewrite decide_True in Hmsgs by done.
  wp_step; wp_run; (eapply send_prepare_inv; [advance; cbn; lia| |done]);
    cbn in *; [|replace (qb_current_round q) with r by lia]; rewrite Hmsgs; set_solver.
Qed.

Lemma checked_vote S w s ty r :
  checked ident S w → operator_ids (signed_message w) = [s] →
  height (qbft_message w) = ht → qbft_message_type (qbft_message w) = ty →
  round (qbft_message w) = N.pos r → s ∈ committee → stored_vote S ty r s w.
Proof.
  intros [] Hids Hh Hty Hr Hs. split; [done|].
  eapply authentic_signed_qbft; [done|rewrite Hids; set_solver|done|done|done].
Qed.

Lemma check_prepare_quorum_inv S q :
  inv S q → keeps S (check_prepare_quorum (qb_current_round q)) q.
Proof.
  intros Hq. unfold check_prepare_quorum, set_state. wp_run; try done.
  match goal with E : mc_has_quorum _ _ = Some _ |- _ => rename E into Hhq end.
  pose proof (st_prepare _ (inv_static _ _ Hq)) as HQ.
  apply mc_has_quorum_votes in Hhq; [|rewrite HQ; unfold quorum_size; lia].
  rewrite HQ in Hhq. apply send_commit_inv; [|done|done].
  eapply inv_advance; [by eapply inv_set_prepared|done..].
Qed.

Lemma received_prepare_inv S q w s r :
  inv S q → stored_vote S Prepare r s w → r = qb_current_round q →
  keeps S (received_prepare s r w) q.
Proof.
  intros Hq Hw ->. pose proof (inv_add_prepare S q _ s w Hq Hw) as Hadd.
  unfold received_prepare, is_proposal_accepted. wp_run; try done.
  all: by apply (check_prepare_quorum_inv S _ Hadd).
Qed.

Lemma check_commit_quorum_inv S q r : inv S q → keeps S (check_commit_quorum r) q.
Proof.
  intros Hq. unfold check_commit_quorum, set_state. wp_run; try done.
  all: match goal with E : mc_has_quorum _ _ = Some ?h |- _ =>
    eapply stored_quorum in E; [|apply Hq|apply (inv_static _ _ Hq)];
    pose proof (inv_complete S q _ h Hq E) end.
  all: by advance.
Qed.

Lemma received_commit_inv S q w s r :
  inv S q → stored_vote S Commit r s w → keeps S (received_commit s r w) q.
Proof.
  intros Hq Hw. pose proof (inv_add_commit S q r s w Hq Hw) as Hadd.
  unfold received_commit, is_proposal_accepted. wp_run; try done.
  all: by apply (check_commit_quorum_inv S _ r Hadd).
Qed.

Lemma received_round_change_inv S q w s r :
  inv S q → (qb_current_round q ≤ r)%positive → keeps S (received_round_change s r w) q.
Proof.
  intros Hq Hr.
  assert (inv S (q <| qb_round_change_container :=
                       (add_message r s w (qb_round_change_container q)).2 |>)) as Hadd.
  { advance. apply add_message_quorum_size. }
  unfold received_round_change, set_state. wp_run; try done.
  - apply set_round_inv; [by advance|done].
  - apply send_round_change_inv. advance. cbn in *. lia.
Qed.

Lemma received_decided_inv S q w :
  inv S q → checked ident S w → height (qbft_message w) = ht →
  qbft_message_type (qbft_message w) = Commit → keeps S (received_decided w) q.
Proof.
  intros Hq [] Hh Hty. unfold received_decided, set_state, insert_data. wp_run; try done.
  all: match goal with E : has_quorum _ _ = true |- _ =>
    eapply (has_quorum_signers q _ (vote ident ht S Commit (round (qbft_message w))
                                      (root (qbft_message w)))) in E;
      [rewrite (st_committee _ (inv_static _ _ Hq)) in E|] end.
  all: try (intros sm o ->%list_elem_of_singleton Ho;
            by eapply authentic_signed_qbft).
  all: match goal with E : quorum_of _ _ |- _ => pose proof (inv_complete S q _ _ Hq E) end.
  all: by advance.
Qed.

(** What [validate_message] establishes. *)
Lemma validate_message_ok q w content s :
  validate_message q w = Ok (content, s) →
  height (qbft_message w) = qb_instance_height q ∧
  (∀ o, o ∈ operator_ids (signed_message w) → o ∈ cfg_committee_members (qb_config q)) ∧
  (length (operator_ids (signed_message w)) ≤ 1 → operator_ids (signed_message w) = [s]) ∧
  (∀ v, content = Complete v → vd_hash v = root (qbft_message w)) ∧
  (qbft_message_type (qbft_message w) ≠ Commit →
     (round_get (qb_current_round q) <= round (qbft_message w))%N) ∧
  (qbft_message_type (qbft_message w) = Prepare →
     round (qbft_message w) = round_get (qb_current_round q)).
Proof.
  unfold validate_message. intros ([] & Hround & H)%bind_ok.
  apply bind_ok in H as (? & H1%ensure_ok & H). apply bind_ok in H as (? & H2 & H).
  rewrite try_for_each_ok, Forall_forall in H2.
  assert (∀ o, o ∈ operator_ids (signed_message w) → o ∈ cfg_committee_members (qb_config q)).
  { intros o Ho. specialize (H2 o Ho). apply ensure_ok in H2.
    unfold check_committee in H2. by split_and_hyps. }
  assert ((qbft_message_type (qbft_message w) ≠ Commit →
             (round_get (qb_current_round q) <= round (qbft_message w))%N) ∧
          (qbft_message_type (qbft_message w) = Prepare →
             round (qbft_message w) = round_get (qb_current_round q))) as [Hr1 Hr2].
  { unfold validate_message_round in Hround. apply bind_ok in Hround as (? & Hr1 & Hr2).
    split.
    - intros Hc. destruct (N.ltb_spec (round (qbft_message w)) (round_get (qb_current_round q)));
        [|done]. apply ensure_ok in Hr1. by split_and_hyps.
    - intros Hp. rewrite Hp in *. destruct (N.ltb_spec (round_get (qb_current_round q)) (round (qbft_message w)));
        [done|]. destruct (N.ltb_spec (round (qbft_message w)) (round_get (qb_current_round q)));
        [|lia]. apply ensure_ok in Hr1. by split_and_hyps. }
  split; [by apply N.eqb_eq|]. split; [done|]. case_decide.
  { simplify_eq. split_and!; [lia|done|done|done]. }
  apply bind_ok in H as (s' & Hs%ok_or_ok & H).
  assert (operator_ids (signed_message w) = [s']) as Hids.
  { destruct (operator_ids (signed_message w)) as [|? [|]]; simplify_eq/=; [done|lia]. }
  destruct (_ || _).
  - simplify_eq. split_and!; done.
  - apply bind_ok in H as (d & _ & H). apply bind_ok in H as (? & _ & H). simplify_eq.
    split_and!; try done. by intros v [= <-].
Qed.

Lemma receive_inv S q w : inv S q → checked ident S w → keeps S (receive w) q.
Proof.
  intros Hq Hck. unfold receive. wp_step. wp_step. wp_step. wp_step.
  wp_step; [|done..]. destruct a as [content s].
  match goal with E : validate_message _ _ = _ |- _ =>
    apply validate_message_ok in E as (Hh & Hmem & Hone & Hvd & Hge & Hprep) end.
  destruct (inv_static _ _ Hq). rewrite st_committee0 in Hmem. rewrite st_height0 in Hh.
  wp_step. wp_step. wp_step; [|done..]. rename a into r.
  assert (round (qbft_message w) = N.pos r) as Hr
    by (destruct (round (qbft_message w)); simplify_eq/=; done).
  rewrite Hr in Hge, Hprep. unfold round_get in *.
  destruct (decide (1 < length (operator_ids (signed_message w)))) as [Hmulti|Hsingle].
  - rewrite (ck_multi _ _ _ Hck Hmulti). wp_step; [lia|].
    apply received_decided_inv; [done..|]. by apply (ck_multi _ _ _ Hck).
  - specialize (Hone ltac:(lia)). rewrite Hone in *.
    assert (s ∈ committee) as Hs by (apply Hmem; set_solver).
    destruct (qbft_message_type (qbft_message w)) eqn:Hty.
    + destruct content; [|done]. apply received_propose_inv; auto. specialize (Hge ltac:(done)). lia.
    + apply received_prepare_inv; [done| |naive_solver]. by eapply checked_vote.
    + rewrite decide_True by done. apply received_commit_inv; [done|]. by eapply checked_vote.
    + apply received_round_change_inv; [done|]. specialize (Hge ltac:(done)). lia.
Qed.

Lemma qbft_new_inv S (config : Config F) start validator :
  cfg_committee_members config = committee → cfg_leader_fn config = lf →
  cfg_instance_height config = ht →
  inv S (qbft_new config start validator ident).2.
Proof.
  intros Hc Hl Hh. apply start_round_inv. split; cbn; try done; try apply container_new_wf.
  - split; cbn; unfold cfg_quorum_size; congruence.
  - set_solver.
  - set_solver.
  - set_solver.
  - set_solver.
Qed.

(** ** Consequences for one instance *)

Context `{!UniqueLeader F} {RoundTrip : SszRoundTrip}.

(** The proposals of a round all come from its one leader, so there is at most one. *)
Lemma propose_unique S q r w w' :
  inv S q → w ∈ mc_msgs (qb_propose_container q) r → w' ∈ mc_msgs (qb_propose_container q) r →
  w = w'.
Proof.
  intros Hq Hw Hw'. destruct (inv_propose _ _ Hq r) as (l & Hnd & _ & Hall).
  apply list_elem_of_lookup in Hw as [i Hi]. apply list_elem_of_lookup in Hw' as [j Hj].
  destruct (Forall2_lookup_r _ _ _ _ _ Hall Hi) as (s & Hs & [Hls _]).
  destruct (Forall2_lookup_r _ _ _ _ _ Hall Hj) as (s' & Hs' & [Hls' _]).
  assert (s = s') as <- by (by eapply leader_unique).
  assert (i = j) as <- by (by eapply NoDup_lookup). congruence.
Qed.

(** Every sent vote is a signed message of the instance. *)
Lemma sent_decodes S q u :
  inv S q → u ∈ qb_outbox q →
  msg_id (unsigned_ssv_message (unsigned_message u)) = ident ∧
  qbft_from_ssz (ssv_data (unsigned_ssv_message (unsigned_message u))) = Some (out u).
Proof.
  intros Hq Hu. destruct (inv_outbox _ _ Hq u Hu) as (-> & _ & _). simpl.
  by rewrite qbft_ssz_roundtrip.
Qed.
End invariant.
