(* ===== verification/QbftProgress.v ===== *)
(** * How an instance evolves

    One relation, [extends], between an instance before and after any call: rounds only
    grow, sent messages stay sent, data is only added and only after validation, and a
    completion is never undone.  From it: a decision is stable and valid, and an instance
    that never decides is timed out after at most [max_rounds] timer ticks. *)

From S2P Require Import Prelude SsvTypes Messages QbftTypes MsgContainer Qbft Sample QbftInv.

Section extends.
Context {F D : Type} `{!LeaderFunction F} `{!QbftData D} {Codec : SszCodec}.
Implicit Types (q : Qbft F D) (w : WrappedQbftMessage).
Implicit Types R : relation (option (Completed Hash256)).

(** [R] relates the completion before and after. *)
Record extends R q q' : Prop := {
  ex_config : qb_config q' = qb_config q;
  ex_identifier : qb_identifier q' = qb_identifier q;
  ex_height : qb_instance_height q' = qb_instance_height q;
  ex_start : qb_start_data q' = qb_start_data q;
  ex_valid_start : qb_valid_start_data q' = qb_valid_start_data q;
  ex_validator : qb_data_validator q' = qb_data_validator q;
  ex_round : (qb_current_round q ≤ qb_current_round q')%positive;
  ex_outbox : qb_outbox q `prefix_of` qb_outbox q';
  ex_data_kept : ∀ h, is_Some (qb_data q !! h) → is_Some (qb_data q' !! h);
  ex_data_valid : ∀ h d, qb_data q' !! h = Some d →
    qb_data q !! h = Some d ∨ qb_data_validator q d (qb_start_data q) = true ∨
    d = vd_data (qb_valid_start_data q);
  ex_completed : R (qb_completed q) (qb_completed q');
  ex_success : ∀ v, qb_completed q' = Some (Success v) →
    qb_completed q = Some (Success v) ∨ is_Some (qb_data q' !! v);
}.

#[local] Instance extends_refl R : Reflexive R → Reflexive (extends R).
Proof. intros HR q. split; try done; auto. Qed.

#[local] Instance extends_trans R : Transitive R → Transitive (extends R).
Proof.
  intros HR q1 q2 q3 [] []. split; try congruence.
  - lia.
  - by etrans.
  - auto.
  - intros h d Hd. destruct (ex_data_valid1 h d Hd) as [Hd2|[Hv|Hv]].
    + auto.
    + right; left. congruence.
    + right; right. congruence.
  - by etrans.
  - intros v Hv. destruct (ex_success1 v Hv) as [Hv2|]; [|auto].
    destruct (ex_success0 v Hv2); auto.
Qed.

Lemma extends_weaken R R' q q' :
  (∀ c c', R c c' → R' c c') → extends R q q' → extends R' q q'.
Proof. intros HR []. split; auto. Qed.

(** Sequencing: what was reached so far, then the rest. *)
Lemma wp_extends {A} R (m : action (Qbft F D) QbftError A) q0 q :
  Transitive R → extends R q0 q → wp m (λ _, extends R q) q → wp m (λ _, extends R q0) q.
Proof. intros HR H1 H2. eapply wp_mono; [exact H2|]. intros o q' H3. by etrans. Qed.

Abbreviation unchanged := (extends (=)).

Lemma insert_data_extends q h d :
  qb_data_validator q d (qb_start_data q) = true ∨ d = vd_data (qb_valid_start_data q) →
  unchanged q (q <| qb_data := <[h := d]> (qb_data q) |>).
Proof.
  intros Hd. split; cbn; try done; auto.
  - intros k Hk. rewrite lookup_insert. case_decide; [by eexists|done].
  - intros k d'. rewrite lookup_insert. case_decide; [|auto]. intros [= <-]. auto.
Qed.

Lemma send_extends q u : unchanged q (q <| qb_outbox := qb_outbox q ++ [u] |>).
Proof. split; cbn; try done; auto. by apply prefix_app_r. Qed.

(** A change of fields outside the relation, or of the round upwards. *)
Lemma frame_extends q q' :
  qb_config q' = qb_config q → qb_identifier q' = qb_identifier q →
  qb_instance_height q' = qb_instance_height q → qb_start_data q' = qb_start_data q →
  qb_valid_start_data q' = qb_valid_start_data q →
  qb_data_validator q' = qb_data_validator q →
  (qb_current_round q ≤ qb_current_round q')%positive →
  qb_outbox q' = qb_outbox q → qb_data q' = qb_data q →
  qb_completed q' = qb_completed q → unchanged q q'.
Proof.
  intros ? ? ? ? ? ? ? Ho Hd Hc. split; rewrite ?Ho, ?Hd, ?Hc; auto.
Qed.
Ltac frame := apply frame_extends; try done; cbn.

Lemma send_proposal_extends q hash d :
  qb_data_validator q d (qb_start_data q) = true ∨ d = vd_data (qb_valid_start_data q) →
  wp (send_proposal hash d) (λ _, unchanged q) q.
Proof.
  intros Hd. unfold send_proposal, insert_data, send.
  pose proof (insert_data_extends q hash d Hd). wp_run; try done.
  etrans; [done|]. apply send_extends.
Qed.

Lemma send_round_change_extends q hash : wp (send_round_change hash) (λ _, unchanged q) q.
Proof.
  unfold send_round_change, send. wp_run; try done.
  etrans; [|apply send_extends]. by frame.
Qed.

Lemma send_prepare_extends q hash : wp (send_prepare hash) (λ _, unchanged q) q.
Proof. unfold send_prepare, send. wp_run; try done. apply send_extends. Qed.

Lemma send_commit_extends q hash : wp (send_commit hash) (λ _, unchanged q) q.
Proof. unfold send_commit, send. wp_run; try done. apply send_extends. Qed.

(** [justify_round_change_quorum] only yields validated data. *)
Lemma justify_round_change_quorum_valid q v :
  justify_round_change_quorum q = HighestPrepared v →
  qb_data_validator q (vd_data v) (qb_start_data q) = true ∧ data_hash (vd_data v) = vd_hash v.
Proof.
  unfold justify_round_change_quorum. destruct (negb _); [done|].
  destruct (max_by_key _ _) as [m|]; [|done]. case_decide; [done|].
  destruct (data_from_ssz _) as [d|]; [|done].
  destruct (N.eqb_spec (data_hash d) (root (qbft_message m))); [|done]. cbn.
  destruct (qb_data_validator _ _ _) eqn:?; [|done]. by intros [= <-].
Qed.

Lemma start_round_extends q : wp start_round (λ _, unchanged q) q.
Proof.
  unfold start_round, set_state.
  assert (unchanged q (q <| qb_state := AwaitingProposal |>)) as Hs by by frame.
  wp_run; try done.
  all: eapply wp_mono; [eapply (wp_extends (=)); [apply _|exact Hs|apply send_proposal_extends]|].
  all: try (by intros [] q' Hq'; wp_run).
  - left. match goal with E : _ = HighestPrepared _ |- _ =>
      by apply justify_round_change_quorum_valid in E as [] end.
  - by right.
Qed.

Lemma set_round_extends q r :
  (qb_current_round q ≤ r)%positive → wp (set_round r) (λ _, unchanged q) q.
Proof.
  intros Hr. unfold set_round. wp_run.
  eapply (wp_extends (=)); [apply _| |apply start_round_extends]. by frame.
Qed.

(** Completion after a timer tick: anything completed stays completed. *)
Definition tick_completed : relation (option (Completed Hash256)) :=
  λ c c', is_Some c → is_Some c'.

(** Completion after a message: moreover a success stays the same success. *)
Definition receive_completed : relation (option (Completed Hash256)) :=
  λ c c', tick_completed c c' ∧ ∀ v, c = Some (Success v) → c' = Some (Success v).

#[local] Instance receive_completed_preorder : PreOrder receive_completed.
Proof.
  unfold receive_completed, tick_completed. split.
  - intros c. auto.
  - intros c1 c2 c3 [H1 H2] [H3 H4]. auto.
Qed.

Lemma unchanged_receive q q' : unchanged q q' → extends receive_completed q q'.
Proof. apply extends_weaken. by intros ? ? ->. Qed.

Lemma end_round_extends q : wp end_round (λ _, extends tick_completed q) q.
Proof.
  unfold end_round, time_out, set_state.
  assert (extends tick_completed q
            (q <| qb_state := CompleteState |> <| qb_completed := Some TimedOut |>)) as Hto.
  { split; cbn; try done; auto. by intros _. }
  wp_run; try done.
  match goal with E : round_next _ = _ |- _ => apply round_next_succ in E end.
  eapply wp_mono; [apply send_round_change_extends|].
  intros o q' Hq'.
  assert (unchanged q q') as Hqq' by (etrans; [|exact Hq']; frame; lia).
  assert (unchanged q q' → extends tick_completed q q') as Hw
    by (apply extends_weaken; by intros ? ? -> ?).
  destruct o; wp_run; auto.
  eapply wp_mono; [apply start_round_extends|]. intros o q'' Hq''.
  eapply (extends_weaken (=)); [|by etrans]. by intros ? ? -> ?.
Qed.

Lemma validate_message_data q w v s :
  validate_message q w = Ok (Complete v, s) →
  qb_data_validator q (vd_data v) (qb_start_data q) = true.
Proof.
  unfold validate_message. intros (? & _ & H)%bind_ok.
  apply bind_ok in H as (? & _ & H). apply bind_ok in H as (? & _ & H).
  case_decide; [done|]. apply bind_ok in H as (? & _ & H). destruct (_ || _); [done|].
  apply bind_ok in H as (d & _ & H). apply bind_ok in H as (? & Hd%ensure_ok & H).
  by simplify_eq.
Qed.

Lemma received_propose_extends q vd s r w :
  (qb_current_round q ≤ r)%positive →
  qb_data_validator q (vd_data vd) (qb_start_data q) = true →
  wp (received_propose vd s r w) (λ _, unchanged q) q.
Proof.
  intros Hr Hd. unfold received_propose, insert_data, set_state.
  pose proof (insert_data_extends q (vd_hash vd) (vd_data vd) (or_introl Hd)) as Hi.
  wp_run; try done; try (etrans; [exact Hi|by frame]).
  all: eapply (wp_extends (=)); [apply _| |apply send_prepare_extends].
  all: etrans; [exact Hi|]; frame; lia.
Qed.

Lemma received_prepare_extends q s r w : wp (received_prepare s r w) (λ _, unchanged q) q.
Proof.
  unfold received_prepare, check_prepare_quorum, is_proposal_accepted, set_state.
  wp_run; try done; try by frame.
  all: eapply (wp_extends (=)); [apply _| |apply send_commit_extends]; by frame.
Qed.

(** A commit quorum completes the instance with data it holds. *)
Lemma aggregate_commit_data q l sm :
  aggregate_commit_messages q l = Ok sm →
  ∃ w rest, l = w :: rest ∧ is_Some (qb_data q !! root (qbft_message w)).
Proof.
  unfold aggregate_commit_messages. destruct l as [|w rest]; [done|].
  intros (? & _ & H)%bind_ok. apply bind_ok in H as (? & _ & H).
  apply bind_ok in H as (d & Hd%ok_or_ok & _). exists w, rest. eauto.
Qed.

Lemma quorum_messages_root c r h w rest :
  mc_has_quorum c r = Some h → get_quorum_of_messages c r = w :: rest →
  root (qbft_message w) = h.
Proof.
  unfold get_quorum_of_messages. intros ->. destruct (mc_messages c !! r) as [ms|]; [|done].
  intros Hf. assert (w ∈ filter (λ m, root (qbft_message m) = h) ms) as Hw
    by (rewrite Hf; left). by apply list_elem_of_filter in Hw as [].
Qed.

Lemma received_commit_extends q s r w :
  wp (received_commit s r w) (λ _, extends receive_completed q) q.
Proof.
  unfold received_commit, check_commit_quorum, is_proposal_accepted, set_state.
  wp_run; try done; try (apply unchanged_receive; by frame).
  all: match goal with
       | H : aggregate_commit_messages _ _ = Ok _, E : mc_has_quorum _ _ = Some _ |- _ =>
           apply aggregate_commit_data in H as (w' & rest & Hl & Hd);
           apply (quorum_messages_root _ _ _ _ _ E) in Hl; cbn in Hd; subst
       end.
  all: split; cbn; try done; auto.
  all: try (split; [by eexists|]; intros v Hv; exfalso; eauto).
  all: intros v [= <-]; auto.
Qed.

Lemma received_round_change_extends q s r w :
  (qb_current_round q ≤ r)%positive →
  wp (received_round_change s r w) (λ _, unchanged q) q.
Proof.
  intros Hr. unfold received_round_change, set_state. wp_run; try done; try by frame.
  - eapply (wp_extends (=)); [apply _| |by apply set_round_extends]. by frame.
  - eapply (wp_extends (=)); [apply _| |apply send_round_change_extends].
    frame. cbn in *. lia.
Qed.

Lemma received_decided_extends q w :
  wp (received_decided w) (λ _, extends receive_completed q) q.
Proof.
  unfold received_decided, set_state, insert_data. wp_run; try done.
  all: split; cbn; try done.
  all: try (intros k; rewrite lookup_insert; case_decide; naive_solver).
  all: try (intros v [= <-]; rewrite lookup_insert_eq; eauto).
  all: split; [by eexists|]; congruence.
Qed.

Lemma receive_extends q w : wp (receive w) (λ _, extends receive_completed q) q.
Proof.
  unfold receive. wp_step. wp_step. wp_step. wp_step. wp_step; [|done..].
  destruct a as [content s].
  match goal with E : validate_message _ _ = _ |- _ =>
    pose proof E as Hval; apply validate_message_ok in E as (_ & _ & _ & _ & Hge & _) end.
  wp_step. wp_step. wp_step; [|done..]. rename a into r.
  assert (round (qbft_message w) = N.pos r) as Hr
    by (destruct (round (qbft_message w)); simplify_eq/=; done).
  rewrite Hr in Hge. unfold round_get in Hge.
  destruct (qbft_message_type (qbft_message w)) eqn:Hty.
  - destruct content as [v|]; [|by wp_step]. eapply wp_mono; [|intros ? ?; apply unchanged_receive].
    apply received_propose_extends; [specialize (Hge ltac:(done)); lia|].
    by eapply validate_message_data.
  - eapply wp_mono; [apply received_prepare_extends|intros ? ?; apply unchanged_receive].
  - wp_step; [apply received_commit_extends|apply received_decided_extends].
  - eapply wp_mono; [|intros ? ?; apply unchanged_receive].
    apply received_round_change_extends. specialize (Hge ltac:(done)). lia.
Qed.
End extends.

(** ** Runs of one instance *)

Section calls.
Context {F D : Type} `{!LeaderFunction F} `{!QbftData D} {Codec : SszCodec}.
Implicit Types (q : Qbft F D) (w : WrappedQbftMessage).

(** The calls the manager makes on an instance ([qbft_manager/src/instance.rs]). *)
Inductive Call :=
  | CallReceive (w : WrappedQbftMessage)
  | CallEndRound.

Definition run_call (c : Call) q : Qbft F D :=
  match c with
  | CallReceive w => (receive w q).2
  | CallEndRound => (end_round q).2
  end.

Definition run_calls (cs : list Call) q : Qbft F D := foldl (λ q c, run_call c q) q cs.

(** How many times the round timer fired. *)
Fixpoint ticks (cs : list Call) : nat :=
  match cs with
  | [] => 0
  | CallReceive _ :: cs => ticks cs
  | CallEndRound :: cs => S (ticks cs)
  end.

Lemma run_call_extends c q : extends tick_completed q (run_call c q).
Proof.
  destruct c as [w|]; simpl.
  - eapply extends_weaken; [|apply wp_final, receive_extends]. by intros ? ? [].
  - apply wp_final, end_round_extends.
Qed.

Lemma qbft_new_extends config start validator id :
  extends (=) (qbft_init config start validator id) (qbft_new config start validator id).2.
Proof. exact (proj1 (wp_final _ _ _) (start_round_extends _)). Qed.

Lemma tick_completed_preorder : PreOrder tick_completed.
Proof. unfold tick_completed. split; [intros ?; auto|intros ???; auto]. Qed.
#[local] Existing Instance tick_completed_preorder.
#[local] Existing Instance extends_trans.
#[local] Existing Instance extends_refl.

Lemma run_calls_extends cs q : extends tick_completed q (run_calls cs q).
Proof.
  revert q. induction cs as [|c cs IH]; intros q; simpl; [done|].
  etrans; [apply run_call_extends|apply IH].
Qed.

(** A timer tick ends the instance or enters the next round, within the limit. *)
Lemma end_round_progress q :
  is_Some (qb_completed (end_round q).2) ∨
  (round_get (qb_current_round q) + 1 <= round_get (qb_current_round (end_round q).2))%N ∧
  (round_get (qb_current_round q) + 1 <= cfg_max_rounds (qb_config q))%N.
Proof.
  apply (proj1 (wp_final end_round (λ q', is_Some (qb_completed q') ∨
    (round_get (qb_current_round q) + 1 <= round_get (qb_current_round q'))%N ∧
    (round_get (qb_current_round q) + 1 <= cfg_max_rounds (qb_config q))%N) q)).
  unfold end_round, time_out, set_state. wp_run; try (left; by eexists).
  match goal with E : round_next _ = _ |- _ => apply round_next_succ in E as -> end.
  match goal with E : (_ <? _)%N = false |- _ => apply N.ltb_ge in E; cbn in E end.
  eapply wp_mono; [apply send_round_change_extends|]. intros o q' [].
  cbn in *. unfold round_get in *.
  destruct o; wp_run; try (right; lia).
  eapply wp_mono; [apply start_round_extends|]. intros o q'' []. right. lia.
Qed.

Lemma run_calls_completes cs q :
  is_Some (qb_completed q) ∨
    0 < ticks cs ∧
    (cfg_max_rounds (qb_config q) < round_get (qb_current_round q) + N.of_nat (ticks cs))%N →
  is_Some (qb_completed (run_calls cs q)).
Proof.
  revert q. induction cs as [|c cs IH]; intros q; simpl.
  - intros [?|[Ht _]]; [done|lia].
  - intros Hq. apply IH. destruct (run_call_extends c q) as [Hc _ _ _ _ _ Hr _ _ _ Hd _].
    assert (c = CallEndRound → is_Some (qb_completed (run_call c q)) ∨
      (round_get (qb_current_round q) + 1 <= round_get (qb_current_round (run_call c q)))%N ∧
      (round_get (qb_current_round q) + 1 <= cfg_max_rounds (qb_config q))%N) as Hp
      by (intros ->; apply end_round_progress).
    rewrite Hc. generalize dependent (run_call c q). intros q' _ Hr Hd Hp.
    destruct Hq as [Hq|[Ht Hlt]]; [left; by apply Hd|]. unfold round_get in *.
    destruct c as [w|]; [right; split; [done|lia]|].
    destruct (Hp eq_refl) as [?|[Hn Hm]]; [by left|]. right. lia.
Qed.

(** C4: an instance terminates.  From a configuration the builder accepts, whatever
    messages arrive in between, once the round timer has fired often enough to pass
    [max_rounds] the instance is completed, with a decision or a timeout. *)
Theorem instance_terminates builder config start validator id cs :
  config_build builder = Ok config →
  (cfg_max_rounds config < round_get (cfg_round config) + N.of_nat (ticks cs))%N →
  is_Some (qb_completed (run_calls cs (qbft_new config start validator id).2)).
Proof.
  intros [_ []]%config_build_ok Hlt. apply run_calls_completes. right.
  destruct (qbft_new_extends config start validator id) as [Hc _ _ _ _ _ Hr _ _ _ _ _].
  rewrite Hc. cbn [qbft_init qb_config qb_current_round] in Hr |- *. unfold round_get in *. split; lia.
Qed.

(** a decision is final.  Once an instance has succeeded with a value, no sequence of
    messages, valid or not, changes that value. *)
Theorem decision_stable q v ws :
  qb_completed q = Some (Success v) →
  qb_completed (run_calls (CallReceive <$> ws) q) = Some (Success v).
Proof.
  revert q. induction ws as [|w ws IH]; intros q Hq; simpl; [done|]. apply IH.
  destruct (proj1 (wp_final _ _ _) (receive_extends q w)) as [_ _ _ _ _ _ _ _ _ _ [_ Hs] _].
  by apply Hs.
Qed.

(** A success is with data the instance holds, and that data was validated. *)
Lemma success_data config start validator id cs v :
  let q := run_calls cs (qbft_new config start validator id).2 in
  qb_completed q = Some (Success v) →
  ∃ d, qb_data q !! v = Some d ∧ (validator d start = true ∨ d = start).
Proof.
  intros q Hq.
  assert (extends tick_completed (qbft_init config start validator id) q) as Hex.
  { etrans; [|apply run_calls_extends]. eapply (extends_weaken (=)); [|apply qbft_new_extends].
    by intros ? ? -> ?. }
  destruct Hex as [_ _ _ _ _ _ _ _ _ Hd _ Hs].
  destruct (Hs v Hq) as [?|[d Hv]]; [done|]. exists d. split; [done|].
  destruct (Hd v d Hv) as [Hi|Hi]; [|exact Hi].
  cbn in Hi. apply lookup_singleton_Some in Hi as []. by right.
Qed.


(** rounds never go back and sent messages are never retracted, whatever is called. *)
Theorem rounds_monotone cs q :
  (qb_current_round q ≤ qb_current_round (run_calls cs q))%positive ∧
  qb_outbox q `prefix_of` qb_outbox (run_calls cs q).
Proof. destruct (run_calls_extends cs q). done. Qed.
End calls.

(** ** On a concrete instance *)

Module SampleProgress.
#[local] Existing Instance sample_data.
#[local] Existing Instance sample_codec.

(** A decided message: the commit for the value 10, signed by operators 1, 2 and 3. *)
Definition decided_message : WrappedQbftMessage :=
  let w := sample_message 1 Commit 1 10 in
  {| signed_message := signed_message w <| operator_ids := [1; 2; 3]%N |>
                         <| full_data := bits_encode 10%N |>;
     qbft_message := qbft_message w |}.

Lemma instance_terminates_witness :
  is_Some (qb_completed (run_calls (replicate 4 CallEndRound) (sample_qbft 2 20))).
Proof.
  apply (instance_terminates (sample_config 2) (sample_config 2)).
  - by vm_compute.
  - by vm_compute.
Defined.

Lemma decided_success :
  qb_completed (run_calls [CallReceive decided_message] (sample_qbft 2 20)) =
    Some (Success 10%N).
Proof. by vm_compute. Qed.

Lemma decision_stable_witness :
  qb_completed (run_calls (CallReceive <$> [sample_message 3 Prepare 1 10; decided_message])
    (run_calls [CallReceive decided_message] (sample_qbft 2 20))) = Some (Success 10%N).
Proof. exact (decision_stable _ _ _ decided_success). Defined.

End SampleProgress.
