(* ===== verification/QbftSafety.v ===== *)
(** * Agreement

    A network of instances of one duty: the honest operators run [Qbft.v], the operators
    in [byz] do anything.  An event delivers a message to an instance or fires its round
    timer.  A delivered message is arbitrary, except that validation has checked it
    ([deliverable]): a signature of an honest operator, on the message or on one of its
    justifications, is on a message that operator has sent.  With at most [f] faulty
    operators out of [3f + 1], no two honest instances decide differently. *)

From S2P Require Import Prelude SsvTypes Messages QbftTypes MsgContainer Qbft Sample QbftInv.
From S2P Require Import QbftProgress.

Section network.
Context {F D : Type} `{!LeaderFunction F} `{!QbftData D} {Codec : SszCodec}.
Context (committee : list OperatorId) (byz : gset OperatorId) (ident : MessageId).

Abbreviation World := (gmap OperatorId (Qbft F D)).
Implicit Types (W : World) (w : WrappedQbftMessage) (sm : SignedSSVMessage).

(** The instance has handed [ssv] to its message sender, which signs it. *)
Definition sent (q : Qbft F D) (ssv : SSVMessage) : bool :=
  existsb (λ u, bool_decide (unsigned_ssv_message (unsigned_message u) = ssv)) (qb_outbox q).

Definition has_signed W (o : OperatorId) (ssv : SSVMessage) : bool :=
  bool_decide (o ∈ byz) || match W !! o with Some q => sent q ssv | None => false end.

Definition authenticb W sm : bool :=
  bool_decide (msg_id (ssv_message sm) = ident) &&
  forallb (λ o, has_signed W o (ssv_message sm)) (operator_ids sm).

(** The signatures in a list of justifications, and in theirs down to [depth]. *)
Fixpoint justifications_authentic (depth : nat) W (m : QbftMessage) : bool :=
  match depth with
  | O => true
  | S depth =>
      forallb (λ b, match signed_from_ssz b with
                    | None => true
                    | Some sm =>
                        authenticb W sm &&
                        match qbft_from_ssz (ssv_data (ssv_message sm)) with
                        | None => true
                        | Some m' => justifications_authentic depth W m'
                        end
                    end) (justification_bytes m)
  end.

Definition deliverable W w : bool :=
  bool_decide (qbft_from_ssz (ssv_data (ssv_message (signed_message w))) =
               Some (qbft_message w)) &&
  (bool_decide (length (operator_ids (signed_message w)) ≤ 1)
   || bool_decide (qbft_message_type (qbft_message w) = Commit)) &&
  authenticb W (signed_message w) && justifications_authentic 2 W (qbft_message w).

Inductive Event :=
  | Deliver (i : OperatorId) (w : WrappedQbftMessage)
  | RoundTimeout (i : OperatorId).

Definition net_step W (e : Event) : option World :=
  match e with
  | Deliver i w =>
      q ← W !! i;
      if deliverable W w then Some (<[i := (receive w q).2]> W) else None
  | RoundTimeout i => q ← W !! i; Some (<[i := (end_round q).2]> W)
  end.

Fixpoint net_run W (es : list Event) : option World :=
  match es with
  | [] => Some W
  | e :: es => W' ← net_step W e; net_run W' es
  end.

(** Each honest operator starts an instance with its own configuration and data. *)
Definition Setup : Type := Config F * D * (D → D → bool).
Definition net_init (setups : gmap OperatorId Setup) : World :=
  (λ '(config, start, validator), (qbft_new config start validator ident).2) <$> setups.

(** The instances agree on the committee, the height and the leader function; everyone
    in the committee is honest and running, or faulty; and at most [f] are faulty. *)
Record net_wf (ht : N) (lf : F) (setups : gmap OperatorId Setup) : Prop := {
  nw_setup : ∀ i c d v, setups !! i = Some (c, d, v) →
    cfg_committee_members c = committee ∧ cfg_leader_fn c = lf ∧ cfg_instance_height c = ht;
  nw_honest : ∀ i, i ∈ committee → i ∉ byz → is_Some (setups !! i);
  nw_nodup : NoDup committee;
  nw_size : is_valid_committee_size (length committee) = true;
  nw_faulty : size byz ≤ get_f (length committee);
}.

(** ** The invariant of the network *)

Context (ht : N) (lf : F).

Definition signed_in W (o : OperatorId) (ssv : SSVMessage) : Prop := has_signed W o ssv = true.

Definition net_inv W : Prop :=
  ∀ i q, W !! i = Some q → inv committee ident ht lf (signed_in W) q.

Lemma authenticb_authentic W sm :
  authenticb W sm = true → authentic ident (signed_in W) sm.
Proof.
  unfold authenticb. intros ?. split_and_hyps. split; [done|].
  intros o Ho. rewrite List.forallb_forall in *. apply H0. by apply list_elem_of_In.
Qed.

Lemma justifications_authentic_elem depth W m b sm :
  justifications_authentic (S depth) W m = true → b ∈ justification_bytes m →
  signed_from_ssz b = Some sm →
  authentic ident (signed_in W) sm ∧
  ∀ m', qbft_from_ssz (ssv_data (ssv_message sm)) = Some m' →
        justifications_authentic depth W m' = true.
Proof.
  cbn [justifications_authentic]. rewrite List.forallb_forall. intros Hall Hb Hsm.
  specialize (Hall b (proj1 (list_elem_of_In _ _) Hb)). rewrite Hsm in Hall.
  split_and_hyps. split; [by apply authenticb_authentic|]. intros m' Hm'. by rewrite Hm' in *.
Qed.

Lemma deliverable_checked W w : deliverable W w = true → checked ident (signed_in W) w.
Proof.
  unfold deliverable. intros ?. split_and_hyps. split.
  - done.
  - intros Hlen. destruct (bool_decide (_ ≤ 1)) eqn:E; simpl in *; split_and_hyps; [lia|done].
  - by apply authenticb_authentic.
  - intros b sm Hb Hsm.
    destruct (justifications_authentic_elem _ _ _ _ _ H0 Hb Hsm) as [? Hin]. split; [done|].
    intros m b' sm' Hm Hb' Hsm'.
    by destruct (justifications_authentic_elem _ _ _ _ _ (Hin m Hm) Hb' Hsm').
Qed.

(** Nothing that was signed is unsigned later. *)
Lemma has_signed_mono W i q q' o ssv :
  W !! i = Some q → qb_outbox q `prefix_of` qb_outbox q' →
  signed_in W o ssv → signed_in (<[i := q']> W) o ssv.
Proof.
  unfold signed_in, has_signed. intros Hi Hp [Hb|Hs]%orb_true_iff; apply orb_true_iff; [by left|].
  right. rewrite lookup_insert. case_decide; [subst o|done]. rewrite Hi in Hs.
  destruct Hp as [k Hk]. unfold sent in *. rewrite Hk, existsb_app, Hs. done.
Qed.

Lemma net_inv_update W i q q' :
  net_inv W → W !! i = Some q → qb_outbox q `prefix_of` qb_outbox q' →
  inv committee ident ht lf (signed_in W) q' → net_inv (<[i := q']> W).
Proof.
  intros HW Hi Hp Hq' j qj Hj.
  eapply inv_mono; [intros o m; by apply (has_signed_mono W i q q')|].
  rewrite lookup_insert in Hj. case_decide; [by simplify_eq|by eapply HW].
Qed.

Lemma net_step_inv W e W' : net_inv W → net_step W e = Some W' → net_inv W'.
Proof.
  intros HW Hstep. destruct e as [i w|i]; simpl in Hstep;
    destruct (W !! i) as [q|] eqn:Hi; try done; simpl in Hstep.
  - destruct (deliverable W w) eqn:Hd; [|done]. injection Hstep as <-.
    apply deliverable_checked in Hd.
    eapply net_inv_update; [done|done| |apply wp_final, receive_inv; eauto].
    apply (ex_outbox _ _ _ (proj1 (wp_final _ _ _) (receive_extends q w))).
  - injection Hstep as <-.
    eapply net_inv_update; [done|done| |apply wp_final, end_round_inv; eauto].
    apply (ex_outbox _ _ _ (proj1 (wp_final _ _ _) (end_round_extends q))).
Qed.

Lemma net_run_inv W es W' : net_inv W → net_run W es = Some W' → net_inv W'.
Proof.
  revert W. induction es as [|e es IH]; intros W HW Hrun; simpl in Hrun; [by simplify_eq|].
  destruct (net_step W e) as [W1|] eqn:Hs; [|done]. eapply IH; [|done]. by eapply net_step_inv.
Qed.

Lemma net_step_dom W e W' : net_step W e = Some W' → dom W' = dom W.
Proof.
  destruct e as [i w|i]; simpl; destruct (W !! i) as [q|] eqn:Hi; try done; simpl.
  - destruct (deliverable W w); [|done]. intros [= <-]. rewrite dom_insert_L.
    apply elem_of_dom_2 in Hi. set_solver.
  - intros [= <-]. rewrite dom_insert_L. apply elem_of_dom_2 in Hi. set_solver.
Qed.

Lemma net_run_dom W es W' : net_run W es = Some W' → dom W' = dom W.
Proof.
  revert W. induction es as [|e es IH]; intros W Hrun; simpl in Hrun; [by simplify_eq|].
  destruct (net_step W e) as [W1|] eqn:Hs; [|done].
  rewrite (IH W1 Hrun). by eapply net_step_dom.
Qed.

Lemma net_init_inv setups : net_wf ht lf setups → net_inv (net_init setups).
Proof.
  intros [] i q Hq. unfold net_init in Hq. rewrite lookup_fmap in Hq.
  apply fmap_Some in Hq as ([[c d] v] & Hi & ->).
  destruct (nw_setup0 i c d v Hi) as (? & ? & ?). by apply qbft_new_inv.
Qed.

(** ** Agreement *)

Section agreement.
Context `{!UniqueLeader F} {RoundTrip : SszRoundTrip}.
Context (W : World).
Hypothesis HW : net_inv W.
Hypothesis Hhonest : ∀ i, i ∈ committee → i ∉ byz → is_Some (W !! i).
Hypothesis Hnodup : NoDup committee.
Hypothesis Hsize : is_valid_committee_size (length committee) = true.
Hypothesis Hfaulty : size byz ≤ get_f (length committee).

Abbreviation signed := (signed_in W).
Abbreviation quorum P := (quorum_of committee P).

Lemma committee_set_size : size (committee_set committee) = length committee.
Proof. by apply NoDup_length_size. Qed.

(** Two quorums share an honest, running operator. *)
Lemma quorums_meet P P' :
  quorum P → quorum P' → ∃ o q, (o ∉ byz) ∧ W !! o = Some q ∧ P o ∧ P' o.
Proof.
  intros (X & HX & HsX & HPX) (Y & HY & HsY & HPY).
  destruct (quorum_intersection (committee_set committee) X Y byz) as (o & HoX & HoY & Hob);
    rewrite ?committee_set_size; try done.
  assert (o ∈ committee) as Ho by (apply HX in HoX; by apply elem_of_list_to_set in HoX).
  destruct (Hhonest o Ho Hob) as [q Hq]. exists o, q. auto.
Qed.

(** A message an honest operator signed is in its outbox. *)
Lemma honest_signed o q P :
  o ∉ byz → W !! o = Some q → signed_qbft ident ht signed P o →
  ∃ u, u ∈ qb_outbox q ∧ P (unsigned_qbft_message u).
Proof.
  intros Hb Hq (ssv & m & Hs & _ & Hm & _ & HP).
  unfold signed_in, has_signed in Hs. rewrite bool_decide_eq_false_2, Hq in Hs by done.
  simpl in Hs. unfold sent in Hs. apply existsb_exists in Hs as (u & Hu & Hssv).
  apply list_elem_of_In in Hu. apply bool_decide_eq_true in Hssv as <-.
  exists u. split; [done|]. destruct (sent_decodes _ _ _ _ _ _ _ (HW o q Hq) Hu) as [_ Hd].
  by simplify_eq.
Qed.

Lemma quorum_honest_signed P :
  quorum (signed_qbft ident ht signed P) →
  ∃ o q u, W !! o = Some q ∧ u ∈ qb_outbox q ∧ P (unsigned_qbft_message u).
Proof.
  intros HP. destruct (quorums_meet _ _ HP HP) as (o & q & Hb & Hq & Ho & _).
  destruct (honest_signed o q P Hb Hq Ho) as (u & ? & ?). by exists o, q, u.
Qed.

(** One value per round can have a prepare quorum. *)
Lemma prepare_quorum_unique r v v' :
  quorum (vote ident ht signed Prepare r v) → quorum (vote ident ht signed Prepare r v') → v = v'.
Proof.
  intros Hv Hv'. destruct (quorums_meet _ _ Hv Hv') as (o & q & Hb & Hq & Ho & Ho').
  destruct (honest_signed o q _ Hb Hq Ho) as (u & Hu & Ht & Hr & <-).
  destruct (honest_signed o q _ Hb Hq Ho') as (u' & Hu' & Ht' & Hr' & <-).
  pose proof (HW o q Hq) as Hinv.
  destruct (inv_outbox _ _ _ _ _ _ Hinv u Hu) as (_ & _ & p & Hp & _).
  destruct (inv_sent_prepare _ _ _ _ _ _ Hinv u p Hu Ht Hp) as (w & Hw & <-).
  destruct (inv_sent_prepare _ _ _ _ _ _ Hinv u' p Hu' Ht') as (w' & Hw' & <-); [congruence|].
  by rewrite (propose_unique _ _ _ _ _ _ p w w' Hinv Hw Hw').
Qed.

(** A commit quorum implies a prepare quorum of the same round. *)
Lemma commit_prepare_quorum r v :
  quorum (vote ident ht signed Commit r v) →
  (0 < r)%N ∧ quorum (vote ident ht signed Prepare r v).
Proof.
  intros (o & q & u & Hq & Hu & Ht & <- & <-)%quorum_honest_signed.
  pose proof (HW o q Hq) as Hinv.
  destruct (inv_outbox _ _ _ _ _ _ Hinv u Hu) as (_ & _ & p & Hp & _). rewrite Hp.
  destruct (inv_sent_commit _ _ _ _ _ _ Hinv u p Hu Ht Hp) as [Hvotes _].
  split; [lia|]. eapply stored_votes_quorum; [apply Hinv|done].
Qed.

(** A prepare quorum implies that the value was justified in that round. *)
Lemma prepare_quorum_justified r v :
  quorum (vote ident ht signed Prepare r v) → (1 < r)%N →
  quorum (signed_qbft ident ht signed (rc_supports committee ident ht signed r v)).
Proof.
  intros (o & q & u & Hq & Hu & Ht & <- & <-)%quorum_honest_signed H1.
  pose proof (HW o q Hq) as Hinv.
  destruct (inv_outbox _ _ _ _ _ _ Hinv u Hu) as (_ & _ & p & Hp & _). rewrite Hp in *.
  destruct (inv_sent_prepare _ _ _ _ _ _ Hinv u p Hu Ht Hp) as (w & Hw & <-).
  destruct (mc_wf_elem _ _ _ _ (inv_propose _ _ _ _ _ _ Hinv) Hw) as (s & _ & _ & Hj).
  apply Hj. lia.
Qed.

(** Once a value has a commit quorum, no other is ever prepared in that or a later
    round. *)
Lemma commit_locks r v r' v' :
  quorum (vote ident ht signed Commit r v) → (r <= r')%N →
  quorum (vote ident ht signed Prepare r' v') → v' = v.
Proof.
  intros Hc. revert v'. induction r' as [r' IH] using (well_founded_induction N.lt_wf_0).
  intros v' Hle Hp. destruct (commit_prepare_quorum _ _ Hc) as [Hpos Hpr].
  destruct (N.eq_dec r r') as [<-|Hne]; [by eapply prepare_quorum_unique|].
  pose proof (prepare_quorum_justified _ _ Hp ltac:(lia)) as Hrc.
  destruct (quorums_meet _ _ Hrc Hc) as (o & q & Hb & Hq & Ho & Ho').
  destruct (honest_signed o q _ Hb Hq Ho) as (u & Hu & Ht & Hr & Hsup).
  destruct (honest_signed o q _ Hb Hq Ho') as (u' & Hu' & Ht' & Hr' & _).
  pose proof (inv_lock _ _ _ _ _ _ (HW o q Hq) u u' Hu Hu' Ht Ht' ltac:(lia)) as Hlock.
  destruct Hsup as [Hlt Hprep]; [lia|]. apply (IH (data_round (unsigned_qbft_message u))); [lia|lia|done].
Qed.

Lemma commit_quorums_agree r v r' v' :
  quorum (vote ident ht signed Commit r v) → quorum (vote ident ht signed Commit r' v') → v = v'.
Proof.
  intros Hv Hv'. destruct (N.le_ge_cases r r') as [Hle|Hle].
  - symmetry. eapply commit_locks; [exact Hv|done|by apply commit_prepare_quorum].
  - eapply commit_locks; [exact Hv'|done|by apply commit_prepare_quorum].
Qed.

(** An honest operator votes for one value per round. *)
Lemma honest_votes_once i q u u' ty :
  W !! i = Some q → u ∈ qb_outbox q → u' ∈ qb_outbox q → ty = Prepare ∨ ty = Commit →
  qbft_message_type (unsigned_qbft_message u) = ty →
  qbft_message_type (unsigned_qbft_message u') = ty →
  round (unsigned_qbft_message u) = round (unsigned_qbft_message u') →
  root (unsigned_qbft_message u) = root (unsigned_qbft_message u').
Proof.
  intros Hq Hu Hu' Hty Ht Ht' Hr. pose proof (HW i q Hq) as Hinv.
  destruct (inv_outbox _ _ _ _ _ _ Hinv u Hu) as (_ & _ & p & Hp & _).
  pose proof Hp as Hp'. rewrite Hr in Hp'. destruct Hty as [->| ->].
  - destruct (inv_sent_prepare _ _ _ _ _ _ Hinv u p Hu Ht Hp) as (w & Hw & <-).
    destruct (inv_sent_prepare _ _ _ _ _ _ Hinv u' p Hu' Ht' Hp') as (w' & Hw' & <-).
    by rewrite (propose_unique _ _ _ _ _ _ p w w' Hinv Hw Hw').
  - destruct (inv_sent_commit _ _ _ _ _ _ Hinv u p Hu Ht Hp) as [Hv _].
    destruct (inv_sent_commit _ _ _ _ _ _ Hinv u' p Hu' Ht' Hp') as [Hv' _].
    eapply prepare_quorum_unique; eapply stored_votes_quorum; done || apply Hinv.
Qed.
End agreement.

Lemma net_run_facts setups es W :
  net_wf ht lf setups → net_run (net_init setups) es = Some W →
  net_inv W ∧ ∀ i, i ∈ committee → i ∉ byz → is_Some (W !! i).
Proof.
  intros Hwf Hrun. split; [by eapply net_run_inv, Hrun; apply net_init_inv|].
  intros i Hi Hb. apply elem_of_dom. rewrite (net_run_dom _ _ _ Hrun). unfold net_init.
  rewrite dom_fmap_L. apply elem_of_dom. by apply (nw_honest _ _ _ Hwf).
Qed.

(** C1: agreement.  In any run of the network with at most [f] faulty operators in a
    committee of [3f + 1], whatever messages the faulty operators make up and in whatever
    order messages are delivered and timers fire, two honest instances that decide
    decide the same value, also when they decide in different rounds. *)
Theorem agreement `{!UniqueLeader F} {RoundTrip : SszRoundTrip} setups es W i j q q' v v' :
  net_wf ht lf setups → net_run (net_init setups) es = Some W →
  W !! i = Some q → W !! j = Some q' →
  qb_completed q = Some (Success v) → qb_completed q' = Some (Success v') → v = v'.
Proof.
  intros Hwf Hrun Hi Hj Hv Hv'. destruct (net_run_facts _ _ _ Hwf Hrun) as [HW Hh].
  destruct (inv_completed _ _ _ _ _ _ (HW i q Hi) v Hv) as [r Hr].
  destruct (inv_completed _ _ _ _ _ _ (HW j q' Hj) v' Hv') as [r' Hr'].
  destruct Hwf. by eapply commit_quorums_agree.
Qed.

(** C2: no equivocation.  In any such run an honest instance never hands out two prepare
    messages, nor two commit messages, of the same round with different values. *)
Theorem no_equivocation `{!UniqueLeader F} {RoundTrip : SszRoundTrip} setups es W i q u u' ty :
  net_wf ht lf setups → net_run (net_init setups) es = Some W → W !! i = Some q →
  u ∈ qb_outbox q → u' ∈ qb_outbox q → ty = Prepare ∨ ty = Commit →
  qbft_message_type (unsigned_qbft_message u) = ty →
  qbft_message_type (unsigned_qbft_message u') = ty →
  round (unsigned_qbft_message u) = round (unsigned_qbft_message u') →
  root (unsigned_qbft_message u) = root (unsigned_qbft_message u').
Proof.
  intros Hwf Hrun. destruct (net_run_facts _ _ _ Hwf Hrun) as [HW Hh]. destruct Hwf.
  by apply honest_votes_once.
Qed.
End network.

(** ** A run *)

Module SampleRun.
#[local] Existing Instance sample_data.
#[local] Existing Instance sample_codec.

(** Operators 1, 2 and 3 are honest, each with its own start data; 4 is faulty. *)
Definition setups : gmap OperatorId (Setup (F := DefaultLeaderFunction) (D := N)) :=
  list_to_map ((λ i, (i, (sample_config i, (10 * i)%N, λ _ _, true))) <$> [1; 2; 3]%N).

Definition byz : gset OperatorId := {[4%N]}.

(** Everyone receives what each of [senders] sent last. *)
Definition broadcast (W : gmap OperatorId (Qbft DefaultLeaderFunction N))
    (senders : list OperatorId) : list Event :=
  o ← senders;
  match W !! o ≫= λ q, last (qb_outbox q) with
  | Some u => i ← [1; 2; 3]%N; mret (Deliver i (sign o u))
  | None => []
  end.

Definition phase (W : gmap OperatorId (Qbft DefaultLeaderFunction N))
    (senders : list OperatorId) : gmap OperatorId (Qbft DefaultLeaderFunction N) :=
  default W (net_run byz sample_identifier W (broadcast W senders)).

Definition W0 := net_init sample_identifier setups.
(** The leader's proposal, then the prepares, then the commits. *)
Definition W1 := phase W0 [1%N].
Definition W2 := phase W1 [1; 2; 3]%N.
Definition run : list Event :=
  broadcast W0 [1%N] ++ broadcast W1 [1; 2; 3]%N ++ broadcast W2 [1; 2; 3]%N.

Definition final := default W0 (net_run byz sample_identifier W0 run).
Definition decided (i : OperatorId) : option (Completed Hash256) := final !! i ≫= qb_completed.

Lemma setups_wf :
  net_wf sample_committee byz 0 default_leader_fn_default setups.
Proof.
  split.
  - intros i c d v Hi. apply elem_of_list_to_map_2 in Hi.
    apply list_elem_of_fmap in Hi as (k & [= -> -> -> ->] & _). done.
  - intros i Hi Hb.
    assert (i = 1 ∨ i = 2 ∨ i = 3)%N as [->|[->| ->]] by (unfold byz in Hb; set_solver);
      by eexists.
  - apply (bool_decide_unpack _). by vm_compute.
  - done.
  - by vm_compute.
Qed.

Lemma final_run : net_run byz sample_identifier W0 run = Some final.
Proof.
  unfold final. destruct (net_run _ _ _ _) eqn:E; [done|]. exfalso.
  assert (is_Some (net_run byz sample_identifier W0 run)) as [? Hs]
    by (apply (bool_decide_unpack _); by vm_compute). congruence.
Qed.

Lemma decided_inv i c :
  decided i = Some c → ∃ q, final !! i = Some q ∧ qb_completed q = Some c.
Proof. unfold decided. generalize final. intros W. apply bind_Some. Qed.

(** The run ends with operators 1 and 2 both decided, on the same value. *)
Lemma agreement_witness :
  ∃ v v', decided 1 = Some (Success v) ∧ decided 2 = Some (Success v') ∧ v = v'.
Proof.
  assert (decided 1 = Some (Success 10%N)) as H1 by (by vm_compute).
  assert (decided 2 = Some (Success 10%N)) as H2 by (by vm_compute).
  exists 10%N, 10%N. split; [exact H1|]. split; [exact H2|].
  destruct (decided_inv _ _ H1) as (q1 & Hq1 & Hc1).
  destruct (decided_inv _ _ H2) as (q2 & Hq2 & Hc2).
  exact (agreement _ _ _ _ _ (RoundTrip := sample_codec_roundtrip) _ _ _ _ _ _ _ _ _
           setups_wf final_run Hq1 Hq2 Hc1 Hc2).
Defined.

(** The type of the last message an operator sent. *)
Definition last_sent (W : gmap OperatorId (Qbft DefaultLeaderFunction N)) (i : OperatorId)
    : option QbftMessageType :=
  q ← W !! i; u ← last (qb_outbox q); Some (qbft_message_type (unsigned_qbft_message u)).

Lemma last_sent_inv W i ty :
  last_sent W i = Some ty →
  ∃ q u, W !! i = Some q ∧ u ∈ qb_outbox q ∧ qbft_message_type (unsigned_qbft_message u) = ty.
Proof.
  unfold last_sent. intros (q & Hq & (u & Hu & [= Hty])%bind_Some)%bind_Some.
  exists q, u. split_and!; [done| |done]. by apply last_Some_elem_of.
Qed.

(** Operator 1 sent a commit in the run. *)
Lemma no_equivocation_witness :
  ∃ q u, final !! 1%N = Some q ∧ u ∈ qb_outbox q ∧
    qbft_message_type (unsigned_qbft_message u) = Commit ∧
    root (unsigned_qbft_message u) = root (unsigned_qbft_message u).
Proof.
  assert (last_sent final 1 = Some Commit) as H1 by (by vm_compute).
  destruct (last_sent_inv _ _ _ H1) as (q & u & Hq & Hu & Hty).
  exists q, u. split; [exact Hq|]. split; [exact Hu|]. split; [exact Hty|].
  exact (no_equivocation _ _ _ _ _ (RoundTrip := sample_codec_roundtrip) _ _ _ _ _ _ _ _
           setups_wf final_run Hq Hu Hu (or_intror eq_refl) Hty Hty eq_refl).
Defined.
End SampleRun.
