(* ===== verification/QbftTotal.v ===== *)
(** * An instance does not panic

    The [expect]s and conversions of [anchor/common/qbft/src/lib.rs] that could panic: the
    leader of a round, the conversion of a round number, and the construction of an
    outgoing message, whose size is bounded by the limits on its justifications.  On a
    configuration the builder accepts, an instance never panics on a message with a
    non-zero round, which message validation guarantees. *)

From S2P Require Import Prelude SsvTypes Messages QbftTypes MsgContainer Qbft Sample QbftInv QbftProgress.

(** ** The size of an encoded message *)

(** A list of variable-size items in SSZ: an offset and the content of each. *)
Definition ssz_list_len (l : list bytes) : N :=
  foldr (λ b n, BYTES_PER_LENGTH_OFFSET + len b + n)%N 0%N l.

(** The length of the SSZ encoding of a [QbftMessage]: five fixed-size fields, and for
    each of the three variable-size ones an offset and its content. *)
Definition qbft_ssz_len (m : QbftMessage) : N :=
  (8 + 8 + 8 + 32 + 8 + (BYTES_PER_LENGTH_OFFSET + len (identifier m))
   + (BYTES_PER_LENGTH_OFFSET + ssz_list_len (round_change_justification m))
   + (BYTES_PER_LENGTH_OFFSET + ssz_list_len (prepare_justification m)))%N.

(** What the derived encoder is relied on for. *)
Class SszSized (Codec : SszCodec) : Prop :=
  qbft_as_ssz_len : ∀ m, len (qbft_as_ssz m) = qbft_ssz_len m.

Lemma ssz_list_len_bound l cap :
  Forall (λ b, len b <= cap)%N l →
  (ssz_list_len l <= len l * (cap + BYTES_PER_LENGTH_OFFSET))%N.
Proof.
  unfold len. induction 1 as [|b l Hb Hl IH]; [done|].
  cbn [ssz_list_len foldr length]. fold (ssz_list_len l). rewrite Nat2N.inj_succ.
  rewrite N.mul_succ_l. unfold len in *. lia.
Qed.

(** A message within the limits of its type fits in a consensus message. *)
Lemma qbft_message_fits `{!SszSized Codec} (m : QbftMessage) :
  (len (identifier m) <= 56)%N →
  (len (round_change_justification m) <= MaxSigners)%N →
  Forall (λ b, len b <= RoundChangeJustificationLength)%N (round_change_justification m) →
  (len (prepare_justification m) <= MaxSigners)%N →
  Forall (λ b, len b <= PrepareJustificationLength)%N (prepare_justification m) →
  (0 < len (qbft_as_ssz m) <= MAX_CONSENSUS_MSG_SIZE)%N.
Proof.
  intros Hid Hrn Hr%ssz_list_len_bound Hpn Hp%ssz_list_len_bound.
  rewrite qbft_as_ssz_len. unfold qbft_ssz_len, MAX_CONSENSUS_MSG_SIZE.
  assert (len (round_change_justification m) * (RoundChangeJustificationLength + 4) <=
          MaxSigners * (RoundChangeJustificationLength + 4))%N by (by apply N.mul_le_mono_r).
  assert (len (prepare_justification m) * (PrepareJustificationLength + 4) <=
          MaxSigners * (PrepareJustificationLength + 4))%N by (by apply N.mul_le_mono_r).
  unfold BYTES_PER_LENGTH_OFFSET in *. lia.
Qed.

Lemma ssv_message_new_fits id data :
  (0 < len data <= MAX_CONSENSUS_MSG_SIZE)%N →
  ∃ m, ssv_message_new SSVConsensusMsgType id data = Ok m.
Proof.
  intros [Hpos Hle]. unfold ssv_message_new, try_to_variable_list.
  destruct (N.leb_spec (len data) SSVMessageDataLen) as [_|Hgt].
  2: { exfalso. revert Hle Hgt. unfold MAX_CONSENSUS_MSG_SIZE, SSVMessageDataLen, MaxSigners,
         RoundChangeJustificationLength, PrepareJustificationLength, BYTES_PER_LENGTH_OFFSET. lia. }
  cbn [mbind outcome_bind]. unfold ssv_message_validate. cbn [ssv_data msg_type].
  destruct data as [|b data]; [by cbv in Hpos|].
  destruct (N.ltb_spec MAX_CONSENSUS_MSG_SIZE (len (b :: data))); [lia|]. by eexists.
Qed.

(** ** Pure checks *)

Section checks_total.
Context {F D : Type} `{!LeaderFunction F} `{!QbftData D} {Codec : SszCodec}.
Implicit Types (q : Qbft F D) (w : WrappedQbftMessage).

Lemma total_is_valid_prepare_justification q sm r v :
  total (is_valid_prepare_justification_for_round_and_root q sm r v).
Proof. unfold is_valid_prepare_justification_for_round_and_root. solve_total. Qed.

Lemma total_try_decode bs e : total (try_decode_signed_ssv_messages bs e).
Proof. unfold try_decode_signed_ssv_messages. solve_total. Qed.

(** The conversion of a prepared round, after the check that there is one. *)
Lemma total_prepare_loop q n v l :
  (0 < n)%N →
  total (try_for_each (λ sm, r ← round_from n;
           is_valid_prepare_justification_for_round_and_root q sm r v) l).
Proof.
  intros Hn. apply total_try_for_each. intros sm. destruct n as [|p]; [lia|].
  cbn [round_from mbind outcome_bind]. apply total_is_valid_prepare_justification.
Qed.
#[local] Hint Resolve total_is_valid_prepare_justification total_try_decode
  total_prepare_loop : total.

Lemma total_validate_prepared_round_change q msg rc :
  (0 < data_round rc)%N → total (validate_prepared_round_change q msg rc).
Proof. intros Hpos. unfold validate_prepared_round_change. solve_total. Qed.
#[local] Hint Resolve total_validate_prepared_round_change : total.

(** The loop over the round changes; the message it selects has a prepared round. *)
Lemma validate_round_changes_total q msg n best l :
  (∀ m, best = Some m → (0 < data_round m)%N) →
  total (validate_round_changes q msg n best l) ∧
  ∀ m, validate_round_changes q msg n best l = Ok (Some m) → (0 < data_round m)%N.
Proof.
  revert n best. induction l as [|sm l IH]; intros n best Hb; cbn [validate_round_changes].
  { split; [done|]. intros m [= ->]. auto. }
  assert (∀ rc, (0 < data_round rc)%N →
            ∀ m, (if (n <? data_round rc)%N then Some rc else best) = Some m →
            (0 < data_round m)%N) as Hn by (intros rc Hrc m; destruct (_ <? _)%N; naive_solver).
  split.
  - do 2 (apply total_bind; [solve_total|intros ? _]). apply total_bind; [solve_total|].
    intros rc _. do 3 (apply total_bind; [solve_total|intros ? _]).
    destruct (N.ltb_spec 0 (data_round rc)) as [Hpos|]; [|by apply IH].
    destruct (n <? data_round rc)%N eqn:Hlt; (apply total_bind; [auto with total|intros _ _]).
    all: apply IH; specialize (Hn _ Hpos); by rewrite Hlt in Hn.
  - intros m H. do 2 (apply bind_ok in H as (? & _ & H)). apply bind_ok in H as (rc & _ & H).
    do 3 (apply bind_ok in H as (? & _ & H)).
    destruct (N.ltb_spec 0 (data_round rc)) as [Hpos|]; [|by eapply IH].
    destruct (n <? data_round rc)%N eqn:Hlt; apply bind_ok in H as (? & _ & H).
    all: eapply IH; [|exact H]; specialize (Hn _ Hpos); by rewrite Hlt in Hn.
Qed.

Lemma total_validate_proposal_justifications q w : total (validate_proposal_justifications q w).
Proof.
  unfold validate_proposal_justifications. apply total_bind; [auto with total|intros rcs _].
  apply total_bind; [auto with total|intros _ _].
  destruct (validate_round_changes_total q (qbft_message w) 0 None rcs) as [Ht Hd]; [done|].
  apply total_bind; [done|]. intros [m|] Hm; [|done]. apply Hd in Hm. solve_total.
Qed.

Lemma total_validate_round_change q m : total (validate_round_change q m).
Proof.
  unfold validate_round_change. destruct (N.ltb_spec 0 (data_round m)); solve_total.
Qed.

Lemma total_validate_message q w : total (validate_message q w).
Proof. unfold validate_message, validate_message_round. solve_total. Qed.

Lemma total_get_prepare_justifications q : total (get_prepare_justifications q).
Proof. unfold get_prepare_justifications. solve_total. Qed.

Lemma total_push_all {A} err (l xs : list A) : total (push_all err l xs).
Proof. revert l. induction xs; intros l; cbn; [done|]. by destruct (_ <? _)%N. Qed.
#[local] Hint Resolve total_push_all : total.

Lemma total_aggregate m others : total (aggregate m others).
Proof.
  assert (∀ others m, total (aggregate_loop m others)) as Hl.
  { intros os. induction os as [|o os IH]; intros x; cbn [aggregate_loop]; solve_total. }
  unfold aggregate. solve_total.
Qed.
#[local] Hint Resolve total_aggregate : total.

Lemma total_set_full_data m d : total (set_full_data m d).
Proof. unfold set_full_data. solve_total. Qed.
#[local] Hint Resolve total_set_full_data : total.

Lemma total_aggregate_commit_messages q l : total (aggregate_commit_messages q l).
Proof. unfold aggregate_commit_messages. solve_total. Qed.

(** Justifications are encoded within the limits, or an error is returned. *)
Lemma total_try_encode cap l inner outer : total (try_encode_signed_ssv_messages cap l inner outer).
Proof. unfold try_encode_signed_ssv_messages. solve_total. Qed.

Lemma try_encode_ok cap l inner outer bs :
  try_encode_signed_ssv_messages cap l inner outer = Ok bs →
  (len bs <= MaxSigners)%N ∧ Forall (λ b, len b <= cap)%N bs.
Proof.
  intros (bs' & Hbs%try_map_ok & H)%bind_ok. apply try_to_variable_list_ok in H as [-> Hl].
  split; [done|]. clear Hl. induction Hbs as [|sm b l' bs Hb _ IH]; constructor; [|done].
  by apply try_to_variable_list_ok in Hb as [-> ?].
Qed.
#[local] Hint Resolve total_try_encode : total.

(** The [expect] on a new message: it always fits. *)
Lemma total_new_unsigned_message `{!SszSized Codec} q ty h rcj pj :
  (len (qb_identifier q) <= 56)%N → total (new_unsigned_message q ty h rcj pj).
Proof.
  intros Hid. unfold new_unsigned_message, clear_full_data.
  do 2 (apply total_bind; [solve_total|intros ? _]).
  apply total_bind; [solve_total|]. intros rcj' [Hr1 Hr2]%try_encode_ok.
  apply total_bind; [solve_total|]. intros pj' [Hp1 Hp2]%try_encode_ok.
  match goal with |- context [ssv_message_new _ ?id (qbft_as_ssz ?m)] =>
    destruct (ssv_message_new_fits id (qbft_as_ssz m)) as [ssv ->];
      [by apply qbft_message_fits|done] end.
Qed.
End checks_total.

(** ** Actions *)

#[export] Hint Resolve total_is_valid_prepare_justification total_validate_proposal_justifications
  total_validate_round_change total_validate_message total_get_prepare_justifications
  total_aggregate_commit_messages total_new_unsigned_message : total.

(** Refutes a branch in which a total computation panicked. *)
Ltac no_panic :=
  match goal with
  | E : ?o = Panic |- _ => exfalso; revert E; change (total o); solve [solve_total]
  end.

Section actions_total.
Context {F D : Type} `{!LeaderFunction F} `{!QbftData D} {Codec : SszCodec} `{!SszSized Codec}.
Implicit Types (q : Qbft F D) (w : WrappedQbftMessage).

(** What the instance needs: an identifier that fits, and a leader in every round. *)
Record steady q : Prop := {
  st_identifier : (len (qb_identifier q) <= 56)%N;
  st_leader : ∀ op r, is_Some (check_leader q op r);
}.

Lemma steady_extends R q q' : extends R q q' → steady q → steady q'.
Proof.
  intros [Hc Hi Hh] [Hid Hl]. split; [by rewrite Hi|].
  intros op r. unfold check_leader. rewrite Hc, Hh. apply Hl.
Qed.

Definition never_panics {A} (m : action (Qbft F D) QbftError A) q : Prop :=
  wp m (λ o _, total o) q.

Lemma wp_and {A} (m : action (Qbft F D) QbftError A) (P Q : outcome QbftError A → Qbft F D → Prop) q :
  wp m P q → wp m Q q → wp m (λ o q', P o q' ∧ Q o q') q.
Proof. done. Qed.

Lemma send_proposal_total q h d : steady q → never_panics (send_proposal h d) q.
Proof.
  intros [Hid _]. unfold never_panics, send_proposal, insert_data, send. wp_run; try done; no_panic.
Qed.

Lemma send_prepare_total q h : steady q → never_panics (send_prepare h) q.
Proof. intros [Hid _]. unfold never_panics, send_prepare, send. wp_run; try done; no_panic. Qed.

Lemma send_commit_total q h : steady q → never_panics (send_commit h) q.
Proof. intros [Hid _]. unfold never_panics, send_commit, send. wp_run; try done; no_panic. Qed.

Lemma send_round_change_total q h : steady q → never_panics (send_round_change h) q.
Proof. intros [Hid _]. unfold never_panics, send_round_change, send. wp_run; try done; no_panic. Qed.

Lemma expect_leader_total q op r : steady q → total (@expect QbftError _ (check_leader q op r)).
Proof. intros [_ Hl]. by destruct (Hl op r) as [? ->]. Qed.
#[local] Hint Resolve expect_leader_total : total.

Lemma start_round_total q : steady q → never_panics start_round q.
Proof.
  intros Hq. unfold never_panics, start_round, set_state.
  assert (steady (q <| qb_state := AwaitingProposal |>)) as Hs by (by destruct Hq).
  wp_run; try done; try no_panic.
  all: eapply wp_mono; [by apply send_proposal_total|]; intros [] ? Ho; by wp_run.
Qed.

Lemma set_round_total q r : steady q → never_panics (set_round r) q.
Proof.
  intros Hq. unfold never_panics, set_round. wp_run. apply start_round_total. by destruct Hq.
Qed.

Lemma end_round_total q : steady q → never_panics end_round q.
Proof.
  intros Hq. unfold never_panics, end_round, time_out, set_state. wp_run; try done.
  match goal with |- wp _ _ ?q' => assert (steady q') as Hs by (by destruct Hq) end.
  eapply wp_mono; [apply wp_and; [by apply send_round_change_total|
                                  apply send_round_change_extends]|].
  intros o q' [Ho Hq']. destruct o; try done; wp_run; try done.
  apply start_round_total. by eapply steady_extends.
Qed.

Lemma received_propose_total q vd s r w : steady q → never_panics (received_propose vd s r w) q.
Proof.
  intros Hq. unfold never_panics, received_propose, insert_data, set_state.
  wp_run; try done; try no_panic.
  all: apply send_prepare_total; by destruct Hq.
Qed.

Lemma received_prepare_total q s r w : steady q → never_panics (received_prepare s r w) q.
Proof.
  intros Hq. unfold never_panics, received_prepare, check_prepare_quorum, is_proposal_accepted,
    set_state.
  wp_run; try done; try no_panic.
  all: apply send_commit_total; by destruct Hq.
Qed.

Lemma received_commit_total q s r w : never_panics (received_commit s r w) q.
Proof.
  unfold never_panics, received_commit, check_commit_quorum, is_proposal_accepted, set_state.
  wp_run; try done; try no_panic.
Qed.

Lemma received_round_change_total q s r w :
  steady q → never_panics (received_round_change s r w) q.
Proof.
  intros Hq. unfold never_panics, received_round_change, set_state. wp_run; try done; try no_panic.
  - apply set_round_total. by destruct Hq.
  - apply send_round_change_total. by destruct Hq.
Qed.

Lemma received_decided_total q w : never_panics (received_decided w) q.
Proof.
  unfold never_panics, received_decided, set_state, insert_data. wp_run; try done; no_panic.
Qed.

Lemma receive_total q w :
  steady q → round (qbft_message w) ≠ 0%N → never_panics (receive w) q.
Proof.
  intros Hq Hr. unfold never_panics, receive.
  wp_step. wp_step. wp_step. wp_step. wp_step; [|done|no_panic]. destruct a as [content s].
  destruct (round (qbft_message w)) as [|r]; [done|]. wp_step. wp_step. cbn [round_from].
  cbv beta iota.
  repeat wp_step; try done.
  - by apply received_propose_total.
  - by apply received_prepare_total.
  - by apply received_commit_total.
  - apply received_decided_total.
  - by apply received_round_change_total.
Qed.
End actions_total.

(** ** The whole instance *)

(** An instance of the manager: the default leader function. *)
Section instance_total.
Context {D : Type} `{!QbftData D} {Codec : SszCodec} `{!SszSized Codec}.
Implicit Types q : Qbft DefaultLeaderFunction D.

Lemma qbft_init_steady config start validator id :
  config_wf config → length id = MESSAGE_ID_LEN →
  steady (qbft_init config start validator id : Qbft DefaultLeaderFunction D).
Proof.
  intros [Hm _ _] Hid. split.
  - cbn. unfold len. rewrite Hid. done.
  - intros op r. unfold check_leader. cbn [qbft_init qb_config qb_instance_height].
    unfold leader_function, default_leader_function.
    assert (cfg_committee_members config ≠ []) as Hne by (intros He; rewrite He in Hm; set_solver).
    rewrite decide_False by (by rewrite merge_sort_nil_iff).
    destruct (leader_of_some (cfg_leader_fn config) r (cfg_instance_height config) _ Hne)
      as (l & Hl & _).
    unfold leader_of in Hl. rewrite Hl. by eexists.
Qed.

(** The messages a caller hands over have a round. *)
Definition call_ok (c : Call) : Prop :=
  match c with
  | CallReceive w => round (qbft_message w) ≠ 0%N
  | CallEndRound => True
  end.

(** What a call returns. *)
Definition call_outcome (c : Call) q : outcome QbftError unit :=
  match c with
  | CallReceive w => (receive w q).1
  | CallEndRound => (end_round q).1
  end.

Lemma run_calls_steady cs q : steady q → steady (run_calls cs q).
Proof. apply steady_extends with (R:=tick_completed), run_calls_extends. Qed.

Lemma qbft_new_steady config start validator id :
  config_wf config → length id = MESSAGE_ID_LEN →
  total (qbft_new config start validator id : outcome QbftError unit * Qbft DefaultLeaderFunction D).1 ∧
  steady (qbft_new config start validator id : outcome QbftError unit * Qbft DefaultLeaderFunction D).2.
Proof.
  intros Hc Hid. pose proof (qbft_init_steady config start validator id Hc Hid) as Hs.
  split; [by apply start_round_total|].
  eapply steady_extends; [apply qbft_new_extends|done].
Qed.

Lemma call_total c q : steady q → call_ok c → total (call_outcome c q).
Proof. destruct c; intros Hq Hc; [by apply receive_total|by apply end_round_total]. Qed.

(** C26: an instance never panics.  From a configuration the builder accepts, creating
    the instance and every later call, in any order, return normally or with an error,
    provided the messages have a non-zero round: there is always a leader to compare
    with, prepared rounds are converted only after they were checked, and every message
    the instance builds fits in a consensus message. *)
Theorem instance_never_panics builder config (start : D) validator id cs c :
  config_build builder = Ok config → length id = MESSAGE_ID_LEN →
  Forall call_ok (cs ++ [c]) →
  let new := qbft_new config start validator id in
  new.1 ≠ Panic ∧ call_outcome c (run_calls cs new.2) ≠ Panic.
Proof.
  intros [_ Hc]%config_build_ok Hid [_ Hok%Forall_inv]%Forall_app.
  destruct (qbft_new_steady config start validator id Hc Hid) as [Hn Hs].
  split; [exact Hn|]. apply call_total; [by apply run_calls_steady|done].
Qed.
End instance_total.

(** ** On a concrete instance *)

Module SampleTotal.
#[local] Existing Instance sample_data.

(** An encoder that yields as many bytes as SSZ does. *)
#[local] Instance sized_codec : SszCodec :=
  {| signed_from_ssz := bits_decode; signed_as_ssz := bits_encode;
     qbft_from_ssz := bits_decode;
     qbft_as_ssz := λ m, replicate (N.to_nat (qbft_ssz_len m)) x00;
     psm_from_ssz := bits_decode |}.

#[local] Instance sized_codec_sized : SszSized sized_codec.
Proof. intros m. unfold len. cbn [qbft_as_ssz sized_codec]. rewrite length_replicate. lia. Qed.

Definition total_calls : list Call :=
  [CallReceive (sample_message 1 Proposal 1 10); CallEndRound;
   CallReceive (sample_message 2 RoundChange 2 10)].

Lemma instance_never_panics_witness :
  let new := qbft_new (sample_config 2) 20%N (λ _ _, true) (replicate 56 x01) in
  new.1 ≠ Panic ∧ call_outcome CallEndRound (run_calls total_calls new.2) ≠ Panic.
Proof.
  apply (instance_never_panics (sample_config 2)).
  - by vm_compute.
  - done.
  - by repeat constructor.
Defined.

(** The condition on rounds is needed: a decided message for round 0 with a quorum of
    signers passes the instance's own checks and panics in the conversion. *)
Lemma round_zero_panics :
  let w := SampleProgress.decided_message in
  let m := qbft_message w in
  let w0 := {| signed_message := signed_message w;
               qbft_message := {| qbft_message_type := Commit; height := height m; round := 0;
                 identifier := identifier m; root := root m; data_round := 0;
                 round_change_justification := []; prepare_justification := [] |} |} in
  call_outcome (CallReceive w0) (sample_qbft 2 20) = Panic.
Proof. by vm_compute. Qed.
End SampleTotal.
