(* ===== verification/ForkSchedule.v ===== *)
(** * The fork schedule

    [anchor/common/fork/src/fork.rs], [lifecycle.rs] and [schedule.rs]: the protocol forks,
    the schedule that says which one is active at an epoch, and the warm-up and grace
    windows around an activation.  A schedule either constructor yields always has an
    active fork, forks never deactivate, and [lifecycle_at] realises exactly the half-open
    windows its documentation gives. *)

From S2P Require Import Prelude SsvTypes.

(** ** Forks *)

Inductive Fork := Alan | Boole.

#[export] Instance Fork_eq_dec : EqDecision Fork.
Proof. solve_decision. Defined.

(** [Ord] on [Fork]: the declaration order. *)
Definition fork_index (f : Fork) : nat := match f with Alan => 0 | Boole => 1 end.
Definition fork_le (f g : Fork) : bool := fork_index f <=? fork_index g.

Definition fork_of_index (n : nat) : option Fork :=
  match n with 0 => Some Alan | 1 => Some Boole | _ => None end.
#[export] Program Instance Fork_countable : Countable Fork :=
  inj_countable fork_index fork_of_index _.
Next Obligation. by intros []. Qed.

(** [Fork::all] *)
Definition all_forks : list Fork := [Alan; Boole].

Definition fork_name (f : Fork) : string := match f with Alan => "alan" | Boole => "boole" end.

Definition ALAN_TOPIC_PREFIX : string := "ssv.v2.".

Definition topic_prefix (f : Fork) (network_name : string) : string :=
  match f with
  | Alan => ALAN_TOPIC_PREFIX
  | _ => ("/ssv/" +:+ network_name +:+ "/" +:+ fork_name f +:+ "/")%string
  end.

(** ** Configuration and schedule *)

Record ForkConfig := mkForkConfig {
  fc_fork : Fork;
  fc_epoch : Epoch;
  fc_domain_type : DomainType;
}.

Record ForkSchedule := mkForkSchedule {
  fs_configs : gmap Fork ForkConfig;
  fs_network_name : string;
}.

(** Iteration over a [BTreeMap<Fork, _>]: increasing keys. *)
Definition fork_entries {A} (m : gmap Fork A) : list (Fork * A) :=
  omap (λ f, pair f <$> m !! f) all_forks.

(** [iter().take_while(p)] *)
Fixpoint take_while {A} (p : A → bool) (l : list A) : list A :=
  match l with
  | [] => []
  | x :: l => if p x then x :: take_while p l else []
  end.

(** [ForkSchedule::new] *)
Definition fork_schedule_new (fork : Fork) (baseline : DomainType) (network_name : string)
    : ForkSchedule :=
  mkForkSchedule
    (foldl (λ m f, <[f := mkForkConfig f 0 baseline]> m) ∅
       (take_while (λ f, fork_le f fork) all_forks))
    network_name.

(** The error strings of [from_fork_configs], without their text. *)
Inductive ForkScheduleError :=
  | AlanNotAtGenesis
  | AlanMissing
  | ForkNotChronological (fork : Fork) (epoch prev : Epoch)
  | DomainReused (fork previous : Fork).

(** The validation loop of [from_fork_configs], with its mutable [prev_epoch] and
    [domains]. *)
Fixpoint check_fork_configs (prev_epoch : option Epoch) (domains : gmap (list byte) Fork)
    (entries : list (Fork * (Epoch * DomainType))) : outcome ForkScheduleError unit :=
  match entries with
  | [] => Ok tt
  | (fork, (epoch, domain_type)) :: entries =>
      _ ← match prev_epoch with
          | Some prev =>
              ensure (negb ((epoch <=? prev)%N && negb (epoch =? 0)%N))
                (ForkNotChronological fork epoch prev)
          | None => Ok tt
          end;
      _ ← match domains !! domain_type with
          | Some previous_fork => Err (DomainReused fork previous_fork)
          | None => Ok tt
          end;
      check_fork_configs (Some epoch) (<[domain_type := fork]> domains) entries
  end.

Definition from_fork_configs (raw_configs : gmap Fork (Epoch * DomainType))
    (network_name : string) : outcome ForkScheduleError ForkSchedule :=
  _ ← match raw_configs !! Alan with
      | Some (epoch, _) => ensure (epoch =? 0)%N AlanNotAtGenesis
      | None => Err AlanMissing
      end;
  _ ← check_fork_configs None ∅ (fork_entries raw_configs);
  mret (mkForkSchedule
          (map_imap (λ fork '(epoch, domain_type), Some (mkForkConfig fork epoch domain_type))
             raw_configs)
          network_name).

Definition fork_epoch (s : ForkSchedule) (f : Fork) : option Epoch :=
  fc_epoch <$> fs_configs s !! f.
Definition fork_domain_type (s : ForkSchedule) (f : Fork) : option DomainType :=
  fc_domain_type <$> fs_configs s !! f.

(** [max_by_key(|config| config.fork)]: the last of the maximal elements. *)
Definition max_fork (acc : option ForkConfig) (c : ForkConfig) : option ForkConfig :=
  match acc with
  | Some b => if fork_le (fc_fork b) (fc_fork c) then Some c else Some b
  | None => Some c
  end.

(** [active_fork_config]; [None] is its [expect]. *)
Definition active_fork_config (s : ForkSchedule) (epoch : Epoch) : option ForkConfig :=
  foldl max_fork None
    (filter (λ c, (fc_epoch c <= epoch)%N) (fork_entries (fs_configs s)).*2).

Definition active_fork (s : ForkSchedule) (epoch : Epoch) : option Fork :=
  fc_fork <$> active_fork_config s epoch.

(** [min_by_key(|(_, config)| config.epoch)]: the first of the minimal elements. *)
Definition min_epoch (acc : option (Fork * ForkConfig)) (p : Fork * ForkConfig)
    : option (Fork * ForkConfig) :=
  match acc with
  | Some b => if (fc_epoch p.2 <? fc_epoch b.2)%N then Some p else Some b
  | None => Some p
  end.

Definition next_fork_after (s : ForkSchedule) (epoch : Epoch) : option (Fork * Epoch) :=
  (λ p, (p.1, fc_epoch p.2)) <$>
    foldl min_epoch None (filter (λ p, (epoch < fc_epoch p.2)%N) (fork_entries (fs_configs s))).

(** ** Lifecycle *)

Definition FORK_PREPARATION_EPOCHS : N := 1.
Definition SUBSEQUENT_WINDOW_SLOTS : N := 32.

Inductive ForkLifecycle :=
  | Normal (current : ForkConfig)
  | WarmUp (current upcoming : ForkConfig)
  | GracePeriod (current previous : ForkConfig).

Definition current_fork_config (l : ForkLifecycle) : ForkConfig :=
  match l with Normal c | WarmUp c _ | GracePeriod c _ => c end.

(** [lifecycle_at] after the warm-up test. *)
Definition grace_or_normal (s : ForkSchedule) (current : ForkConfig) (slot : Slot)
    (slots_per_epoch : positive) : option ForkLifecycle :=
  let activation_slot := wrap64 (fc_epoch current * N.pos slots_per_epoch) in
  if (0 <? fc_epoch current)%N
     && (slot <? wrap64 (activation_slot + SUBSEQUENT_WINDOW_SLOTS))%N
  then
    previous ← active_fork_config s (fc_epoch current - 1);
    Some (GracePeriod current previous)
  else Some (Normal current).

(** [lifecycle_at]; [None] is a panic, and the unchecked [u64] products wrap. *)
Definition lifecycle_at (s : ForkSchedule) (slot : Slot) (slots_per_epoch : positive)
    : option ForkLifecycle :=
  let epoch := (slot `div` N.pos slots_per_epoch)%N in
  current ← active_fork_config s epoch;
  match next_fork_after s epoch with
  | Some (upcoming_fork, upcoming_epoch) =>
      let preparation_start_slot :=
        wrap64 ((upcoming_epoch - FORK_PREPARATION_EPOCHS) * N.pos slots_per_epoch) in
      if (preparation_start_slot <=? slot)%N
      then upcoming ← fs_configs s !! upcoming_fork; Some (WarmUp current upcoming)
      else grace_or_normal s current slot slots_per_epoch
  | None => grace_or_normal s current slot slots_per_epoch
  end.

(** ** Well-formed schedules *)

Record schedule_wf (s : ForkSchedule) : Prop := {
  sw_key : ∀ f c, fs_configs s !! f = Some c → fc_fork c = f;
  sw_genesis : ∃ c, fs_configs s !! Alan = Some c ∧ fc_epoch c = 0%N;
}.

Lemma fork_schedule_new_wf f d n : schedule_wf (fork_schedule_new f d n).
Proof.
  split; destruct f; cbn.
  - intros f c Hc. by apply lookup_insert_Some in Hc as [[<- <-]|[_ ?]].
  - intros f c Hc. apply lookup_insert_Some in Hc as [[<- <-]|[_ Hc]]; [done|].
    by apply lookup_insert_Some in Hc as [[<- <-]|[_ ?]].
  - by eexists.
  - by eexists.
Qed.

Lemma from_fork_configs_ok raw n s :
  from_fork_configs raw n = Ok s →
  schedule_wf s ∧
  ∀ f, fs_configs s !! f = (λ '(e, d), mkForkConfig f e d) <$> raw !! f.
Proof.
  unfold from_fork_configs. intros (? & Ha & H)%bind_ok.
  apply bind_ok in H as (? & _ & [= <-]). cbn.
  assert (∀ f, map_imap (λ f '(e, d), Some (mkForkConfig f e d)) raw !! f =
               (λ '(e, d), mkForkConfig f e d) <$> raw !! f) as Hl.
  { intros f. rewrite map_lookup_imap. by destruct (raw !! f) as [[]|]. }
  split; [|done]. split; cbn.
  - intros f c. rewrite Hl. by destruct (raw !! f) as [[]|]; intros [= <-].
  - destruct (raw !! Alan) as [[e d]|] eqn:E; [|done].
    apply ensure_ok, N.eqb_eq in Ha as ->. exists (mkForkConfig Alan 0 d).
    by rewrite Hl, E.
Qed.

(** A well-formed schedule is Alan at genesis, then possibly Boole. *)
Lemma schedule_wf_cases s :
  schedule_wf s →
  ∃ da, fs_configs s !! Alan = Some (mkForkConfig Alan 0 da) ∧
    (fs_configs s !! Boole = None ∨
     ∃ b db, fs_configs s !! Boole = Some (mkForkConfig Boole b db)).
Proof.
  intros [Hk ([f e da] & Ha & He)]. pose proof (Hk _ _ Ha) as Hf. simpl in *. subst.
  exists da. split; [done|]. destruct (fs_configs s !! Boole) as [[f b db]|] eqn:Hb; [|auto].
  right. pose proof (Hk _ _ Hb). simpl in *. subst. by exists b, db.
Qed.

Ltac schedule_cases s Hwf :=
  destruct (schedule_wf_cases s Hwf) as (da & Ha & [Hb|(b & db & Hb)]).

Lemma active_fork_config_cases s e :
  schedule_wf s →
  active_fork_config s e =
    match fs_configs s !! Boole with
    | Some c => if decide (fc_epoch c <= e)%N then Some c else fs_configs s !! Alan
    | None => fs_configs s !! Alan
    end.
Proof.
  intros Hwf. unfold active_fork_config, fork_entries. schedule_cases s Hwf;
    cbn; rewrite Ha, Hb; cbn; repeat (case_decide; cbn); done || lia.
Qed.

Lemma active_fork_config_some s e : schedule_wf s → is_Some (active_fork_config s e).
Proof.
  intros Hwf. rewrite active_fork_config_cases by done.
  schedule_cases s Hwf; rewrite Hb, Ha; [done|]. by case_decide.
Qed.

Lemma next_fork_after_cases s e :
  schedule_wf s →
  next_fork_after s e =
    match fs_configs s !! Boole with
    | Some c => if decide (e < fc_epoch c)%N then Some (Boole, fc_epoch c) else None
    | None => None
    end.
Proof.
  intros Hwf. unfold next_fork_after, fork_entries. schedule_cases s Hwf;
    cbn; rewrite Ha, Hb; cbn; repeat (case_decide; cbn); done || lia.
Qed.

(** the active fork.  A schedule either constructor accepts has exactly one active
    fork at every epoch: the latest one, in the order of the protocol, among those
    scheduled at or before that epoch.  It never goes back as epochs pass. *)
Theorem active_fork_spec s e :
  schedule_wf s →
  (∃ f, active_fork s e = Some f ∧ (∃ ef, fork_epoch s f = Some ef ∧ (ef <= e)%N) ∧
     ∀ g eg, fork_epoch s g = Some eg → (eg <= e)%N → fork_le g f = true) ∧
  ∀ e' f f', (e <= e')%N → active_fork s e = Some f → active_fork s e' = Some f' →
    fork_le f f' = true.
Proof.
  intros Hwf. unfold active_fork, fork_epoch. split.
  - rewrite active_fork_config_cases by done. schedule_cases s Hwf; rewrite Hb.
    + exists Alan. rewrite Ha. split; [done|]. split; [exists 0%N; split; [done|lia]|].
      intros [] eg; [done|]. by rewrite Hb.
    + cbn. case_decide as He.
      * exists Boole. rewrite Hb. split; [done|]. split; [by exists b|]. by intros [].
      * exists Alan. rewrite Ha. split; [done|]. split; [exists 0%N; split; [done|lia]|].
        intros [] eg; [done|]. rewrite Hb. intros [= <-] ?. lia.
  - intros e' f f' Hle. rewrite !active_fork_config_cases by done.
    schedule_cases s Hwf; rewrite Hb, ?Ha; cbn; repeat case_decide; rewrite ?Ha;
      intros [= <-] [= <-]; done || lia.
Qed.

(** Products of scheduled epochs do not overflow. *)
Definition schedule_fits (s : ForkSchedule) (spe : positive) : Prop :=
  ∀ f e, fork_epoch s f = Some e → (e * N.pos spe + SUBSEQUENT_WINDOW_SLOTS < 2 ^ 64)%N.

Lemma wrap64_small n : (n < 2 ^ 64)%N → wrap64 n = n.
Proof. apply N.mod_small. Qed.

Lemma slot_epoch_le slot spe e : (e <= slot `div` N.pos spe)%N ↔ (e * N.pos spe <= slot)%N.
Proof.
  rewrite N.mul_comm. split; intros H.
  - etrans; [apply N.mul_le_mono_l, H|]. by apply N.Div0.mul_div_le.
  - by apply N.div_le_lower_bound.
Qed.

(** The windows of the documentation of [lifecycle_at], [c] being the active fork. *)
Definition lifecycle_window (s : ForkSchedule) (slot : Slot) (spe : positive) (c : ForkConfig)
    (l : ForkLifecycle) : Prop :=
  match l with
  | WarmUp _ u =>
      fs_configs s !! fc_fork u = Some u ∧ (slot < fc_epoch u * N.pos spe)%N ∧
      ((fc_epoch u - FORK_PREPARATION_EPOCHS) * N.pos spe <= slot)%N
  | GracePeriod _ p =>
      (fc_epoch c * N.pos spe <= slot < fc_epoch c * N.pos spe + SUBSEQUENT_WINDOW_SLOTS)%N ∧
      fc_epoch c ≠ 0%N ∧ active_fork_config s (fc_epoch c - 1) = Some p
  | Normal _ =>
      (fc_epoch c = 0%N ∨ (fc_epoch c * N.pos spe + SUBSEQUENT_WINDOW_SLOTS <= slot)%N) ∧
      ∀ f e, fork_epoch s f = Some e → (slot < e * N.pos spe)%N →
        (slot < (e - FORK_PREPARATION_EPOCHS) * N.pos spe)%N
  end.

Lemma grace_or_normal_spec s slot spe c :
  schedule_wf s → schedule_fits s spe → fs_configs s !! fc_fork c = Some c →
  (fc_epoch c * N.pos spe <= slot)%N →
  (∀ f e, fork_epoch s f = Some e → (slot < e * N.pos spe)%N →
     (slot < (e - FORK_PREPARATION_EPOCHS) * N.pos spe)%N) →
  ∃ l, grace_or_normal s c slot spe = Some l ∧ current_fork_config l = c ∧
       lifecycle_window s slot spe c l.
Proof.
  intros Hwf Hfit Hc Hslot Hup. unfold grace_or_normal.
  assert (fc_epoch c * N.pos spe + SUBSEQUENT_WINDOW_SLOTS < 2 ^ 64)%N as Hf.
  { apply (Hfit (fc_fork c)). unfold fork_epoch. by rewrite Hc. }
  rewrite (wrap64_small (_ * _)) by lia. rewrite wrap64_small by done.
  destruct (N.ltb_spec 0 (fc_epoch c)); cbn [andb];
    [|exists (Normal c); unfold lifecycle_window; split_and!; [done|done|left; lia|done]].
  destruct (N.ltb_spec slot (fc_epoch c * N.pos spe + SUBSEQUENT_WINDOW_SLOTS));
    [|exists (Normal c); unfold lifecycle_window; split_and!; [done|done|right; lia|done]].
  destruct (active_fork_config_some s (fc_epoch c - 1) Hwf) as [p Hp].
  rewrite Hp. exists (GracePeriod c p). unfold lifecycle_window.
  split_and!; [done|done|lia|lia|lia|done].
Qed.

Lemma active_fork_config_started s slot spe c :
  schedule_wf s → active_fork_config s (slot `div` N.pos spe) = Some c →
  fs_configs s !! fc_fork c = Some c ∧ (fc_epoch c * N.pos spe <= slot)%N.
Proof.
  intros Hwf. rewrite active_fork_config_cases by done.
  schedule_cases s Hwf; rewrite Hb, Ha.
  - intros [= <-]. split; [done|]. cbn. lia.
  - case_decide as He; intros [= <-]; (split; [done|]); [by apply slot_epoch_le|cbn; lia].
Qed.

(** The lifecycle windows.  For a schedule either constructor accepts, with epochs
    small enough not to overflow, [lifecycle_at] never panics, always reports the active
    fork as current, and is in warm-up exactly in the epoch-long window before an upcoming
    activation, else in the grace period exactly in the 32 slots from a non-genesis
    activation, else normal. *)
Lemma lifecycle_windows s slot spe :
  schedule_wf s → schedule_fits s spe →
  ∃ l c, lifecycle_at s slot spe = Some l ∧
    active_fork_config s (slot `div` N.pos spe) = Some c ∧ current_fork_config l = c ∧
    lifecycle_window s slot spe c l.
Proof.
  intros Hwf Hfit. unfold lifecycle_at. rewrite next_fork_after_cases by done.
  destruct (active_fork_config_some s (slot `div` N.pos spe) Hwf) as [c Hc]. rewrite Hc. cbn [mbind option_bind].
  destruct (active_fork_config_started _ _ _ _ Hwf Hc) as [Hcc Hcs].
  pose proof (grace_or_normal_spec s slot spe c Hwf Hfit Hcc Hcs) as Hrest.
  assert ((∀ f e, fork_epoch s f = Some e → (slot < e * N.pos spe)%N →
             (slot < (e - FORK_PREPARATION_EPOCHS) * N.pos spe)%N) →
          ∃ l c', grace_or_normal s c slot spe = Some l ∧ Some c = Some c' ∧
            current_fork_config l = c' ∧ lifecycle_window s slot spe c' l) as Hdone
    by (intros Hup; destruct (Hrest Hup) as (l & ? & ? & ?); by exists l, c).
  schedule_cases s Hwf; rewrite Hb; cbn [fc_epoch].
  - apply Hdone. intros [] e; unfold fork_epoch; rewrite ?Ha, ?Hb; intros [= <-]; cbn; lia.
  - pose proof (slot_epoch_le slot spe b) as Hse. case_decide as Hlt.
    + pose proof (Hfit Boole b) as Hf. unfold fork_epoch in Hf. rewrite Hb in Hf.
      specialize (Hf eq_refl). rewrite wrap64_small by (unfold FORK_PREPARATION_EPOCHS; lia).
      destruct (N.leb_spec ((b - FORK_PREPARATION_EPOCHS) * N.pos spe) slot).
      * rewrite Hb. eexists _, c. split_and!; [done..|]. cbn. split_and!; [done|lia|done].
      * apply Hdone. intros [] e; unfold fork_epoch; rewrite ?Ha, ?Hb; intros [= <-]; cbn; lia.
    + apply Hdone. intros [] e; unfold fork_epoch; rewrite ?Ha, ?Hb; intros [= <-]; cbn; lia.
Qed.

(** The domains of a schedule are four bytes long. *)
Definition domains_wf (schedule : ForkSchedule) : Prop :=
  ∀ epoch config, active_fork_config schedule epoch = Some config →
    length (fc_domain_type config) = 4.

(** A schedule with Boole at epoch 100. *)
Definition sample_schedule : ForkSchedule :=
  mkForkSchedule {[ Alan := mkForkConfig Alan 0 [x00; x00; x00; x01];
                    Boole := mkForkConfig Boole 100 [x00; x00; x00; x02] ]} "mainnet".

Lemma sample_schedule_ok :
  from_fork_configs {[ Alan := (0%N, [x00; x00; x00; x01]); Boole := (100%N, [x00; x00; x00; x02]) ]}
    "mainnet" = Ok sample_schedule.
Proof. by vm_compute. Qed.

Lemma sample_domains : domains_wf sample_schedule.
Proof.
  intros epoch config. rewrite active_fork_config_cases
    by exact (proj1 (from_fork_configs_ok _ _ _ sample_schedule_ok)).
  assert (fs_configs sample_schedule !! Boole = Some (mkForkConfig Boole 100 [x00; x00; x00; x02]))
    as -> by by vm_compute.
  assert (fs_configs sample_schedule !! Alan = Some (mkForkConfig Alan 0 [x00; x00; x00; x01]))
    as -> by by vm_compute.
  case_decide; by intros [= <-].
Qed.

Lemma active_fork_spec_witness :
  active_fork sample_schedule 100 = Some Boole ∧
  ∀ e' f f', (100 <= e')%N → active_fork sample_schedule 100 = Some f →
    active_fork sample_schedule e' = Some f' → fork_le f f' = true.
Proof.
  split; [by vm_compute|].
  apply (active_fork_spec sample_schedule 100).
  exact (proj1 (from_fork_configs_ok _ _ _ sample_schedule_ok)).
Defined.

Lemma lifecycle_windows_witness :
  ∃ l c, lifecycle_at sample_schedule 3180 32 = Some l ∧
    active_fork_config sample_schedule (3180 `div` 32) = Some c ∧ current_fork_config l = c ∧
    lifecycle_window sample_schedule 3180 32 c l.
Proof.
  apply (lifecycle_windows sample_schedule 3180 32).
  - exact (proj1 (from_fork_configs_ok _ _ _ sample_schedule_ok)).
  - intros f e Hf. destruct f; vm_compute in Hf; injection Hf as <-; by vm_compute.
Defined.
