(* ===== verification/ForkMonitor.v ===== *)
(** * The fork monitor

    [anchor/common/fork/src/monitor.rs]: a task reads the slot clock about once a slot,
    derives the fork lifecycle of the highest slot it has seen, and publishes it when it
    changed; a clock that cannot be read, or that goes back across a lifecycle boundary,
    shuts the client down.  The theorem: what is published is the lifecycle of the highest
    slot observed, at the windows the schedule documents, it never goes back, and the
    client is shut down exactly for those two reasons. *)

From S2P Require Import Prelude SsvTypes ForkSchedule.

#[export] Instance ForkConfig_eq_dec : EqDecision ForkConfig.
Proof. solve_decision. Defined.
#[export] Instance ForkLifecycle_eq_dec : EqDecision ForkLifecycle.
Proof. solve_decision. Defined.

(** [enum ClockObservation] *)
Inductive ClockObservation := Advanced | BackwardsWithinWindow | BackwardsAcrossBoundary.

(** The reasons of a shutdown. *)
Inductive ShutdownReason := ClockUnreadable | RolledBack.

(** The task: the highest slot observed, the streak of missing boundaries ([u32]), the
    value of the watch channel with all values it has had, the requested shutdown, and how
    long the task sleeps. *)
Record ForkMonitor := mkForkMonitor {
  fm_highest_observed_slot : Slot;
  fm_boundary_unavailable_streak : N;
  fm_published : ForkLifecycle;
  fm_history : list ForkLifecycle;
  fm_shutdown : option ShutdownReason;
  fm_sleep : N;
}.
#[export] Instance ForkMonitor_eta : Eta ForkMonitor := λ m,
  mkForkMonitor (fm_highest_observed_slot m) (fm_boundary_unavailable_streak m) (fm_published m)
    (fm_history m) (fm_shutdown m) (fm_sleep m).

(** What the clock answers in an iteration: [now()], and [duration_to_slot] of the next
    slot. *)
Record ClockReading := {
  cr_now : option Slot;
  cr_until_boundary : option N;
}.

#[export] Instance ClockObservation_eq_dec : EqDecision ClockObservation.
Proof. solve_decision. Defined.

Section monitor.
Context (schedule : ForkSchedule) (slots_per_epoch : positive).
(** [slot_clock.slot_duration()], in nanoseconds. *)
Context (one_slot : N).
Implicit Types m : ForkMonitor.

(** [classify_observation]; [None] is a panic of [lifecycle_at]. *)
Definition classify_observation (highest_observed_slot now : Slot) : option ClockObservation :=
  if (highest_observed_slot <=? now)%N then Some Advanced
  else
    observed ← lifecycle_at schedule now slots_per_epoch;
    published ← lifecycle_at schedule highest_observed_slot slots_per_epoch;
    Some (if bool_decide (observed = published) then BackwardsWithinWindow else BackwardsAcrossBoundary).

(** The forks [error_on_overlapping_windows] reports. *)
Definition overlapping_windows : option (list Fork) :=
  foldr (λ fork acc,
    acc ← acc;
    match fs_configs schedule !! fork with
    | None => Some acc
    | Some config =>
        let fork_epoch := fc_epoch config in
        if (fork_epoch =? 0)%N then Some acc
        else
          previous ← active_fork_config schedule (fork_epoch - 1);
          let previous_activation_slot := wrap64 (fc_epoch previous * N.pos slots_per_epoch) in
          if (previous_activation_slot =? 0)%N then Some acc
          else
            let previous_grace_end := wrap64 (previous_activation_slot + SUBSEQUENT_WINDOW_SLOTS) in
            let preparation_start := wrap64 ((fork_epoch - FORK_PREPARATION_EPOCHS) * N.pos slots_per_epoch) in
            Some (if (preparation_start <? previous_grace_end)%N then fork :: acc else acc)
    end) (Some []) all_forks.

(** [spawn], up to the start of the task: the monitor at the current slot. *)
Definition monitor_spawn (now : option Slot) : outcome unit ForkMonitor :=
  current_slot ← ok_or now tt;
  initial ← expect (lifecycle_at schedule current_slot slots_per_epoch);
  _ ← expect overlapping_windows;
  Ok (mkForkMonitor current_slot 0 initial [initial] None 0).

(** The pacing at the end of an iteration. *)
Definition pace (reading : ClockReading) m : ForkMonitor :=
  match cr_until_boundary reading with
  | Some until_boundary =>
      m <| fm_boundary_unavailable_streak := 0%N |> <| fm_sleep := N.min until_boundary one_slot |>
  | None =>
      let streak := ((fm_boundary_unavailable_streak m + 1) `mod` 2 ^ 32)%N in
      m <| fm_boundary_unavailable_streak := streak |>
        <| fm_sleep := if (1 <? streak)%N then one_slot else 0%N |>
  end.

(** [send_if_modified] *)
Definition publish (lifecycle : ForkLifecycle) m : ForkMonitor :=
  if bool_decide (fm_published m = lifecycle) then m
  else m <| fm_published := lifecycle |> <| fm_history := fm_history m ++ [lifecycle] |>.

(** One iteration of [run]; after a shutdown request the task has returned. *)
Definition monitor_iteration (reading : ClockReading) m : option ForkMonitor :=
  match fm_shutdown m with
  | Some _ => Some m
  | None =>
      match cr_now reading with
      | None => Some (m <| fm_shutdown := Some ClockUnreadable |>)
      | Some now =>
          observation ← classify_observation (fm_highest_observed_slot m) now;
          match observation with
          | BackwardsAcrossBoundary => Some (m <| fm_shutdown := Some RolledBack |>)
          | _ =>
              let m := if bool_decide (observation = Advanced)
                       then m <| fm_highest_observed_slot := now |> else m in
              lifecycle ← lifecycle_at schedule (fm_highest_observed_slot m) slots_per_epoch;
              Some (pace reading (publish lifecycle m))
          end
      end
  end.

Definition monitor_run (readings : list ClockReading) (m : ForkMonitor) : option ForkMonitor :=
  foldl (λ acc reading, acc ≫= monitor_iteration reading) (Some m) readings.

(** ** What is published *)

Hypothesis Hwf : schedule_wf schedule.
Hypothesis Hfit : schedule_fits schedule slots_per_epoch.

Abbreviation lifecycle := (λ slot, lifecycle_at schedule slot slots_per_epoch).

Lemma lifecycle_some slot : ∃ l, lifecycle slot = Some l.
Proof. destruct (lifecycle_windows schedule slot slots_per_epoch Hwf Hfit) as (l & _ & Hl & _). by exists l. Qed.

(** The highest of the slots observed. *)
Definition highest_slot (start : Slot) (readings : list ClockReading) : Slot :=
  foldl N.max start (omap cr_now readings).

(** A reading the monitor goes on after. *)
Definition tolerable (highest : Slot) (reading : ClockReading) : Prop :=
  ∃ now, cr_now reading = Some now ∧ ((highest <= now)%N ∨ lifecycle now = lifecycle highest).

(** The values the channel has had are the lifecycles of increasing slots, each different
    from the one before. *)
Definition published_in_order (upto : Slot) (history : list ForkLifecycle) : Prop :=
  ∃ slots, StronglySorted N.lt slots ∧ Forall (λ slot, slot <= upto)%N slots ∧
    Forall2 (λ slot l, lifecycle slot = Some l) slots history ∧
    ∀ i l l', history !! i = Some l → history !! S i = Some l' → l ≠ l'.

Record monitor_ok (start : Slot) (readings : list ClockReading) m : Prop := {
  mo_published : lifecycle (fm_highest_observed_slot m) = Some (fm_published m);
  mo_last : last (fm_history m) = Some (fm_published m);
  mo_order : published_in_order (fm_highest_observed_slot m) (fm_history m);
  mo_running : fm_shutdown m = None ↔ ∀ before reading after,
    readings = before ++ reading :: after → tolerable (highest_slot start before) reading;
  mo_highest : fm_shutdown m = None → fm_highest_observed_slot m = highest_slot start readings;
  mo_sleep : (fm_sleep m <= one_slot)%N;
}.

Lemma highest_slot_snoc start readings reading :
  highest_slot start (readings ++ [reading]) =
    match cr_now reading with
    | Some now => N.max (highest_slot start readings) now
    | None => highest_slot start readings
    end.
Proof.
  unfold highest_slot. rewrite omap_app, foldl_app. cbn. by destruct (cr_now reading).
Qed.

Lemma split_snoc {A} (P : list A → A → Prop) (l : list A) x :
  (∀ before y after, l ++ [x] = before ++ y :: after → P before y) ↔
  (∀ before y after, l = before ++ y :: after → P before y) ∧ P l x.
Proof.
  split.
  - intros H. split; [|by apply (H l x [])]. intros before y after ->.
    apply (H before y (after ++ [x])). by rewrite <- app_assoc.
  - intros [H Hx] before y after Heq. destruct after as [|z after] using rev_ind; [|clear IHafter].
    + by apply app_inj_2 in Heq as [-> [= ->]].
    + rewrite app_comm_cons, app_assoc in Heq. apply app_inj_2 in Heq as [-> _]; [|done]. by eapply H.
Qed.

Lemma published_in_order_later upto upto' history :
  (upto <= upto')%N → published_in_order upto history → published_in_order upto' history.
Proof.
  intros Hle (slots & Hs & Hu & H). exists slots. split; [done|]. split; [|done].
  eapply Forall_impl; [exact Hu|]. cbn. lia.
Qed.

Lemma published_in_order_snoc upto now history l l' :
  last history = Some l → lifecycle upto = Some l → lifecycle now = Some l' → l ≠ l' → (upto <= now)%N →
  published_in_order upto history → published_in_order now (history ++ [l']).
Proof.
  intros Hlast Hl Hl' Hne Hle (slots & Hs & Hu & Hf & Hd).
  assert (upto < now)%N as Hlt.
  { destruct (N.lt_eq_cases upto now) as [[?|Heq] _]; [done|done|]. subst. congruence. }
  exists (slots ++ [now]). split_and!.
  - apply StronglySorted_app. split_and!; [|done|by repeat constructor].
    intros x y Hx ->%list_elem_of_singleton. rewrite Forall_forall in Hu. specialize (Hu _ Hx). cbn in Hu. lia.
  - apply Forall_app_2; [|by repeat constructor]. eapply Forall_impl; [exact Hu|]. cbn. lia.
  - by apply Forall2_app; [|repeat constructor].
  - intros i a b Ha Hb. destruct (decide (S i < length history)) as [Hi|Hi].
    + rewrite lookup_app_l in Ha, Hb by lia. by eapply Hd.
    + apply lookup_lt_Some in Hb as Hlen. rewrite length_app in Hlen. cbn in Hlen.
      assert (S i = length history) as Hi' by lia. rewrite Hi', list_lookup_middle in Hb by done.
      rewrite lookup_app_l in Ha by lia. rewrite last_lookup in Hlast.
      replace (pred (length history)) with i in Hlast by lia. congruence.
Qed.

(** A tolerated reading: the highest slot moves to [slot], whose lifecycle is published. *)
Lemma publish_ok start readings reading m slot l :
  monitor_ok start readings m → fm_shutdown m = None → tolerable (fm_highest_observed_slot m) reading →
  (fm_highest_observed_slot m <= slot)%N → slot = highest_slot start (readings ++ [reading]) →
  lifecycle slot = Some l →
  monitor_ok start (readings ++ [reading])
    (pace reading (publish l (m <| fm_highest_observed_slot := slot |>))).
Proof.
  intros [Hp Hl Ho Hr Hh Hs] Hrun Htol Hle Hslot Hlc. set (m1 := m <| fm_highest_observed_slot := slot |>).
  set (m2 := publish l m1).
  assert (fm_highest_observed_slot m2 = slot ∧ fm_shutdown m2 = None ∧ fm_published m2 = l ∧
    last (fm_history m2) = Some l ∧ published_in_order slot (fm_history m2)) as (E1 & E2 & E3 & E4 & E5).
  { unfold m2, publish. case_bool_decide as He; cbn in *.
    - subst l. by split_and!; [..|eapply published_in_order_later].
    - split_and!; [done..|by rewrite last_snoc|]. by eapply published_in_order_snoc. }
  assert (∀ n s, monitor_ok start (readings ++ [reading])
    (m2 <| fm_boundary_unavailable_streak := n |> <| fm_sleep := s |>) ↔ (s <= one_slot)%N) as Hm.
  { intros n s. split; [by intros []|]. intros Hsl.
    split; cbn; rewrite ?E1, ?E2, ?E3; [done|done|done| |done|done].
    rewrite (split_snoc (λ before y, tolerable (highest_slot start before) y)).
    split; [|done]. intros _. split; [by apply Hr|]. by rewrite <- Hh. }
  unfold pace. destruct (cr_until_boundary reading); apply Hm; [lia|]. destruct (_ <? _)%N; lia.
Qed.

(** A reading that is not tolerated. *)
Lemma shutdown_ok start readings reading m reason :
  monitor_ok start readings m → fm_shutdown m = None → ¬ tolerable (fm_highest_observed_slot m) reading →
  monitor_ok start (readings ++ [reading]) (m <| fm_shutdown := Some reason |>).
Proof.
  intros [Hp Hl Ho Hr Hh Hs] Hrun Htol. split; cbn; [done..| |done|done].
  rewrite (split_snoc (λ before y, tolerable (highest_slot start before) y)).
  split; [done|]. intros [_ Ht]. by rewrite <- Hh in Ht.
Qed.

Lemma monitor_iteration_ok start readings reading m :
  monitor_ok start readings m →
  ∃ m', monitor_iteration reading m = Some m' ∧ monitor_ok start (readings ++ [reading]) m'.
Proof.
  intros Hok. unfold monitor_iteration. destruct (fm_shutdown m) as [r|] eqn:Hrun.
  { exists m. split; [done|]. destruct Hok as [Hp Hl Ho Hr Hh Hs]. split; [done..| |congruence|done].
    rewrite (split_snoc (λ before y, tolerable (highest_slot start before) y)). rewrite Hrun in Hr |- *.
    split; [done|]. intros [Ht _]. by apply Hr in Ht. }
  pose proof (mo_highest _ _ _ Hok Hrun) as Hh.
  destruct (cr_now reading) as [now|] eqn:Hnow.
  2: { eexists. split; [done|]. apply shutdown_ok; [done|done|]. intros (now & ? & _). congruence. }
  unfold classify_observation. destruct (N.leb_spec (fm_highest_observed_slot m) now) as [Hle|Hlt].
  - destruct (lifecycle_some now) as [l Hl]. cbn [mbind option_bind]. rewrite bool_decide_true by done.
    change (fm_highest_observed_slot (m <| fm_highest_observed_slot := now |>)) with now.
    rewrite Hl. cbn [mbind option_bind]. eexists. split; [done|]. apply publish_ok; [done|done|by exists now; auto|done| |done].
    rewrite highest_slot_snoc, Hnow, <- Hh. lia.
  - destruct (lifecycle_some now) as [l Hl]. destruct (lifecycle_some (fm_highest_observed_slot m)) as [h Hh'].
    rewrite Hl. cbn [mbind option_bind]. rewrite Hh'. cbn [mbind option_bind].
    case_bool_decide as He.
    + rewrite bool_decide_false by done. rewrite Hh'. cbn [mbind option_bind]. eexists. split; [done|].
      pose proof (publish_ok start readings reading m (fm_highest_observed_slot m) h Hok Hrun) as Hp.
      replace (m <| fm_highest_observed_slot := fm_highest_observed_slot m |>) with m in Hp by by destruct m.
      apply Hp; [exists now; rewrite Hl, Hh', He; by auto|done| |done].
      rewrite highest_slot_snoc, Hnow, <- Hh. lia.
    + eexists. split; [done|]. apply shutdown_ok; [done|done|].
      intros (now' & Hn & [Hle|Heq]); rewrite Hnow in Hn; injection Hn as <-; [lia|congruence].
Qed.

(** C33: the published fork lifecycle.  For a schedule either constructor accepts, with
    epochs small enough not to overflow, the monitor starts whenever the clock can be read
    and never panics.  After any readings, it runs exactly if every reading gave a slot
    that was not behind the highest one, or whose lifecycle is the same; then the
    published lifecycle is the one of the highest slot observed, with its current fork
    active and in the window the schedule documents.  In any case the values published are
    the lifecycles of increasing slots, none repeated, and no sleep is longer than a
    slot. *)
Theorem fork_monitor_publishes start readings :
  ∃ m0 m, monitor_spawn (Some start) = Ok m0 ∧
    monitor_run readings m0 = Some m ∧
    (fm_shutdown m = None ↔ ∀ before reading after,
       readings = before ++ reading :: after → tolerable (highest_slot start before) reading) ∧
    (fm_shutdown m = None → ∃ c,
       lifecycle (highest_slot start readings) = Some (fm_published m) ∧
       active_fork_config schedule (highest_slot start readings `div` N.pos slots_per_epoch) = Some c ∧
       current_fork_config (fm_published m) = c ∧
       lifecycle_window schedule (highest_slot start readings) slots_per_epoch c (fm_published m)) ∧
    last (fm_history m) = Some (fm_published m) ∧
    published_in_order (fm_highest_observed_slot m) (fm_history m) ∧ (fm_sleep m <= one_slot)%N.
Proof.
  destruct (lifecycle_some start) as [l Hl].
  assert (overlapping_windows = Some []) as Hov.
  { unfold overlapping_windows. schedule_cases schedule Hwf; cbn [all_forks foldr mbind option_bind]; rewrite Ha, Hb;
      cbn [mbind option_bind fc_epoch]; [done|].
    destruct (N.eqb_spec b 0) as [|Hne]; [done|]. rewrite (active_fork_config_cases schedule (b - 1)), Hb by done.
    cbn [fc_epoch]. rewrite decide_False by lia. rewrite Ha. cbn [mbind option_bind fc_epoch]. by rewrite N.mul_0_l. }
  set (m0 := mkForkMonitor start 0 l [l] None 0).
  assert (∃ m, monitor_run readings m0 = Some m ∧ monitor_ok start readings m) as (m & Hm & [Hp Hla Ho Hr Hh Hs]).
  { induction readings as [|reading readings IH] using rev_ind.
    - exists m0. split; [done|]. split; cbn; [done|done| | |done|lia].
      + exists [start]. split_and!; [by repeat constructor..|]. by intros [].
      + split; [|done]. by intros _ [].
    - destruct IH as (m & Hm & Hok). unfold monitor_run in *. rewrite foldl_app, Hm. cbn.
      by apply monitor_iteration_ok. }
  exists m0, m. unfold monitor_spawn. cbn [ok_or mbind outcome_bind]. rewrite Hl, Hov. cbn.
  split_and!; [done..| |done|done|done]. intros Hrun. rewrite <- (Hh Hrun).
  destruct (lifecycle_windows schedule (fm_highest_observed_slot m) slots_per_epoch Hwf Hfit)
    as (l' & c & Hl' & Hc & Hcur & Hw). rewrite Hp in Hl'. injection Hl' as <-. by exists c.
Qed.
End monitor.

(** The monitor around the Boole fork at epoch 100: it publishes the preparation window and
    the activation, tolerates a step back within the window, and gives up on one across
    it. *)
Lemma fork_monitor_publishes_witness :
  ∃ m0 m, monitor_spawn sample_schedule 32 (Some 3100%N) = Ok m0 ∧
    monitor_run sample_schedule 32 12
      ((λ s, {| cr_now := Some s; cr_until_boundary := Some 5%N |}) <$> [3180; 3205; 3203; 3100]%N) m0 = Some m ∧
    fm_shutdown m = Some RolledBack ∧ length (fm_history m) = 3 ∧ (fm_sleep m <= 12)%N.
Proof.
  destruct (fork_monitor_publishes sample_schedule 32 12
    (proj1 (from_fork_configs_ok _ _ _ sample_schedule_ok))
    ltac:(intros f e Hf; destruct f; vm_compute in Hf; injection Hf as <-; by vm_compute) 3100
    ((λ s, {| cr_now := Some s; cr_until_boundary := Some 5%N |}) <$> [3180; 3205; 3203; 3100]%N))
    as (m0 & m & H0 & Hm & _ & _ & _ & _ & Hs).
  exists m0, m. split; [done|]. split; [done|].
  assert (monitor_spawn sample_schedule 32 (Some 3100%N) ≫= (λ m0, ok_or (monitor_run sample_schedule 32 12
    ((λ s, {| cr_now := Some s; cr_until_boundary := Some 5%N |}) <$> [3180; 3205; 3203; 3100]%N) m0) tt) = Ok m) as Hr.
  { rewrite H0. cbn [mbind outcome_bind]. by rewrite Hm. }
  vm_compute in Hr. injection Hr as <-. by split_and!.
Defined.
