(* ===== verification/ValidationTypes.v ===== *)
(** * Validation verdicts

    The error type of [anchor/message_validator/src/lib.rs] and its classification for
    gossip.  Payloads that are diagnostic text built with [format!], or that carry a type
    of the consensus client, are left out; the others are kept. *)

From S2P Require Import Prelude SsvTypes Messages ForkSchedule.

Inductive ValidationFailure :=
  | VF_WrongDomain
  | VF_NoShareMetadata
  | VF_UnknownValidator
  | VF_ValidatorLiquidated
  | VF_ValidatorNotAttesting
  | VF_ValidatorRegistrationRetired
  | VF_EarlySlotMessage
  | VF_LateSlotMessage
  | VF_SlotAlreadyAdvanced (got want : N)
  | VF_RoundAlreadyAdvanced (got want : N)
  | VF_DecidedWithSameSigners
  | VF_PubSubDataTooBig (n : N)
  | VF_IncorrectTopic
  | VF_TopicForkMismatch
  | VF_UnknownMessageSlot
  | VF_NonExistentCommitteeID
  | VF_RoundTooHigh
  | VF_ValidatorIndexMismatch
  | VF_NoDuty
  | VF_EstimatedRoundNotInAllowedSpread
  | VF_EmptyData
  | VF_MismatchedIdentifier
  | VF_SignatureVerification
  | VF_PubSubMessageHasNoData
  | VF_MalformedPubSubMessage
  | VF_NilSignedSSVMessage
  | VF_NilSSVMessage
  | VF_SSVDataTooBig
  | VF_InvalidRole
  | VF_UnexpectedConsensusMessage
  | VF_NoSigners
  | VF_WrongRSASignatureSize
  | VF_ZeroSigner
  | VF_SignerNotInCommittee
  | VF_DuplicatedSigner
  | VF_SignerNotLeader (signer leader : OperatorId)
  | VF_SignersNotSorted
  | VF_InconsistentSigners
  | VF_InvalidHash
  | VF_FullDataHash
  | VF_UndecodableMessageData
  | VF_EventMessage
  | VF_UnknownSSVMessageType
  | VF_UnknownQBFTMessageType
  | VF_InvalidPartialSignatureType
  | VF_PartialSignatureTypeRoleMismatch
  | VF_NonDecidedWithMultipleSigners (got want : nat)
  | VF_DecidedNotEnoughSigners (got want : nat)
  | VF_DifferentProposalData
  | VF_MalformedJustifications
  | VF_UnexpectedPrepareJustifications
  | VF_UnexpectedRoundChangeJustifications
  | VF_NoPartialSignatureMessages
  | VF_NoValidators
  | VF_NoSignatures
  | VF_OperatorNotFound (operator_id : OperatorId)
  | VF_SignersAndSignaturesWithDifferentLength
  | VF_PartialSigOneSigner
  | VF_PrepareOrCommitWithFullData
  | VF_FullDataNotInConsensusMessage
  | VF_TooManyValidatorIndexOccurrences (validator_index : ValidatorIndex) (got limit : nat)
  | VF_ZeroRound
  | VF_RoundOverflow
  | VF_DuplicatedMessage
  | VF_InvalidPartialSignatureTypeCount
  | VF_TooManyDistinctSigningRoots
  | VF_RelayedDuplicateMessage
  | VF_TooManyPartialSignatureMessages (got limit : N)
  | VF_InconsistentValidatorIndices
  | VF_EncodeOperators
  | VF_SlotStartTimeNotFound (slot : Slot)
  | VF_SignatureVerificationFailed
  | VF_ExcessiveDutyCount (got limit : N) (role : Role)
  | VF_SyncCommitteePeriodCalculationFailure
  | VF_UnexpectedFailure
  | VF_RoleNotActiveBeforeFork (role : Role) (current_fork minimum_fork : Fork)
  | VF_RoleNotActiveAfterFork (role : Role) (current_fork deprecated_since_fork : Fork)
  | VF_RoleNotActiveBeforeEthFork (role : Role)
  | VF_RoleNotActiveAfterEthFork (role : Role).

(** [libp2p::gossipsub::MessageAcceptance] *)
Inductive MessageAcceptance := Accept | Reject | Ignore.

(** [impl From<&ValidationFailure> for MessageAcceptance] *)
Definition failure_acceptance (f : ValidationFailure) : MessageAcceptance :=
  match f with
  | VF_WrongDomain
  | VF_NoShareMetadata
  | VF_UnknownValidator
  | VF_ValidatorLiquidated
  | VF_ValidatorNotAttesting
  | VF_ValidatorRegistrationRetired
  | VF_EarlySlotMessage
  | VF_LateSlotMessage
  | VF_SlotAlreadyAdvanced _ _
  | VF_RoundAlreadyAdvanced _ _
  | VF_DecidedWithSameSigners
  | VF_PubSubDataTooBig _
  | VF_IncorrectTopic
  | VF_NonExistentCommitteeID
  | VF_RoundTooHigh
  | VF_RoundOverflow
  | VF_ValidatorIndexMismatch
  | VF_ExcessiveDutyCount _ _ _
  | VF_NoDuty
  | VF_EstimatedRoundNotInAllowedSpread
  | VF_TooManyDistinctSigningRoots
  | VF_RelayedDuplicateMessage => Ignore
  | _ => Reject
  end.

(** [impl From<SignedSSVMessageError> for ValidationFailure] *)
Definition failure_of_signed_error (e : SignedSSVMessageError) : ValidationFailure :=
  match e with
  | WrongRSASignatureSize _ _ _ => VF_WrongRSASignatureSize
  | NoSigners => VF_NoSigners
  | NoSignatures => VF_NoSignatures
  | ZeroSigner => VF_ZeroSigner
  | DuplicatedSigner => VF_DuplicatedSigner
  | SignersAndSignaturesWithDifferentLength => VF_SignersAndSignaturesWithDifferentLength
  | InvalidSSVMessage EmptyData => VF_EmptyData
  | InvalidSSVMessage (SSVDataTooBig _ _) => VF_SSVDataTooBig
  | InvalidSSVMessage (SSVWrongDomain _ _) => VF_WrongDomain
  | InvalidSSVMessage (SSVSignerNotInCommittee _ _) => VF_SignerNotInCommittee
  | TooManySignatures _ _ | TooManyOperatorIDs _ _ | FullDataTooLong _ _ | SignersNotSorted =>
      VF_UnexpectedFailure
  end.

(** a structural fault of a signed message is the sender's: whatever makes
    [SignedSSVMessage::validate] fail, the gossip verdict is to reject, never to ignore. *)
Theorem structural_failure_rejected m e :
  signed_message_validate m = Err e → failure_acceptance (failure_of_signed_error e) = Reject.
Proof.
  unfold signed_message_validate, ssv_message_validate.
  assert (∀ i e, validate_signature_sizes i (signatures m) = Err e →
                 failure_acceptance (failure_of_signed_error e) = Reject) as Hs.
  { induction (signatures m) as [|s l IH]; intros i e'; simpl; [done|].
    destruct (_ =? _)%N; [apply IH|by intros [= <-]]. }
  intros H. destruct (validate_signature_sizes _ _) eqn:E; cbn in H; simplify_eq; [|by eapply Hs].
  repeat (case_decide || case_match); by simplify_eq/=.
Qed.

Lemma structural_failure_rejected_witness :
  failure_acceptance (failure_of_signed_error NoSigners) = Reject.
Proof.
  apply (structural_failure_rejected
    {| signatures := []; operator_ids := [];
       ssv_message := {| msg_type := SSVConsensusMsgType; msg_id := []; ssv_data := [] |};
       full_data := [] |}).
  by vm_compute.
Defined.
