(* ===== verification/DutyState.v ===== *)
(** * Duty state of the message validator

    [anchor/message_validator/src/message_counts.rs] and [duty_state.rs]: per operator, a
    ring buffer of per-slot signer states with message counters, seen signer sets and
    signing-root budgets.  The theorems: the ring forgets nothing within its span, so the
    per-epoch duty count read off it is exact; the signing-root budgets hold and a packet
    is recorded as a whole or not at all. *)

From S2P Require Import Prelude SsvTypes Messages ForkSchedule ValidationTypes.
Import PartialSignatureKind.

Definition FIRST_ROUND : N := 1.

(** ** [message_counts.rs] *)

Definition MAX_MESSAGES_PER_ROUND : N := 1.

(** [u8] counters. *)
Record MessageCounts := {
  pre_consensus : N;
  proposal : N;
  prepare : N;
  commit : N;
  round_change : N;
  post_consensus : N;
}.

#[export] Instance MessageCounts_eta : Eta MessageCounts := λ c,
  {| pre_consensus := pre_consensus c; proposal := proposal c; prepare := prepare c;
     commit := commit c; round_change := round_change c; post_consensus := post_consensus c |}.

Definition message_counts_default : MessageCounts :=
  {| pre_consensus := 0; proposal := 0; prepare := 0; commit := 0; round_change := 0;
     post_consensus := 0 |}.

Definition validate_consensus_message_limits (c : MessageCounts) (signed : SignedSSVMessage)
    (ty : QbftMessageType) : outcome ValidationFailure unit :=
  let full n := (MAX_MESSAGES_PER_ROUND <=? n)%N in
  let exceeded :=
    match ty with
    | Proposal => full (proposal c)
    | Prepare => full (prepare c)
    | Commit => bool_decide (length (operator_ids signed) = 1) && full (commit c)
    | RoundChange => full (round_change c)
    end in
  ensure (negb exceeded) VF_DuplicatedMessage.

(** [MessageCounts::validate_partial_signature_message] *)
Definition validate_partial_signature_limits (c : MessageCounts) (m : PartialSignatureMessages)
    : outcome ValidationFailure unit :=
  let full n := (MAX_MESSAGES_PER_ROUND <=? n)%N in
  match kind m with
  | RandaoPartialSig | SelectionProofPartialSig | ContributionProofs | ValidatorRegistration
  | VoluntaryExit | AggregatorCommitteePartialSig | PTCAttester =>
      ensure (negb (full (pre_consensus c))) VF_InvalidPartialSignatureTypeCount
  | PostConsensus => ensure (negb (full (post_consensus c))) VF_InvalidPartialSignatureTypeCount
  | ProposerPreferences | RequestAuth => Ok tt
  end.

(** [+= 1] on a [u8]. *)
Definition incr8 (n : N) : N := (n + 1) `mod` 256.

Definition record_consensus_message (ty : QbftMessageType) (signer_count : nat)
    (c : MessageCounts) : MessageCounts :=
  match ty with
  | Proposal => c <| proposal := incr8 (proposal c) |>
  | Prepare => c <| prepare := incr8 (prepare c) |>
  | Commit => if decide (signer_count = 1) then c <| commit := incr8 (commit c) |> else c
  | RoundChange => c <| round_change := incr8 (round_change c) |>
  end.

Definition record_partial_signature (k : PartialSignatureKind) (c : MessageCounts)
    : MessageCounts :=
  match k with
  | RandaoPartialSig | SelectionProofPartialSig | ContributionProofs | ValidatorRegistration
  | VoluntaryExit | AggregatorCommitteePartialSig | PTCAttester =>
      c <| pre_consensus := incr8 (pre_consensus c) |>
  | PostConsensus => c <| post_consensus := incr8 (post_consensus c) |>
  | ProposerPreferences | RequestAuth => c
  end.

(** ** [SignerState] *)

Definition MAX_PROPOSER_PREFERENCES_DISTINCT_ROOTS : nat := 4.
Definition MAX_REQUEST_AUTH_DISTINCT_ROOTS : nat := 8.

Record SigningRootBudgets := {
  preferences : gset Hash256;
  request_auth : gset Hash256;
}.
Definition root_budgets_default : SigningRootBudgets :=
  {| preferences := ∅; request_auth := ∅ |}.

Record SignerState := {
  ss_slot : Slot;
  ss_round : N;
  message_counts : MessageCounts;
  proposal_hash : option Hash256;
  seen_signers : gset (list byte);
  root_budgets : option SigningRootBudgets;
}.
#[export] Instance SignerState_eta : Eta SignerState := λ s,
  {| ss_slot := ss_slot s; ss_round := ss_round s; message_counts := message_counts s;
     proposal_hash := proposal_hash s; seen_signers := seen_signers s;
     root_budgets := root_budgets s |}.

Definition signer_state_new (slot : Slot) (r : N) : SignerState :=
  {| ss_slot := slot; ss_round := r; message_counts := message_counts_default;
     proposal_hash := None; seen_signers := ∅; root_budgets := None |}.

(** [SignerState::root_budget]: the set a kind is budgeted in, with its cap, and how to
    write the set back; [None] for the counter-tracked kinds. *)
Definition root_budget (k : PartialSignatureKind) (s : SignerState)
    : option (gset Hash256 * nat * (gset Hash256 → SignerState)) :=
  let b := default root_budgets_default (root_budgets s) in
  match k with
  | ProposerPreferences =>
      Some (preferences b, MAX_PROPOSER_PREFERENCES_DISTINCT_ROOTS,
            λ X, s <| root_budgets := Some {| preferences := X; request_auth := request_auth b |} |>)
  | RequestAuth =>
      Some (request_auth b, MAX_REQUEST_AUTH_DISTINCT_ROOTS,
            λ X, s <| root_budgets := Some {| preferences := preferences b; request_auth := X |} |>)
  | PostConsensus | RandaoPartialSig | SelectionProofPartialSig | ContributionProofs
  | ValidatorRegistration | VoluntaryExit | AggregatorCommitteePartialSig | PTCAttester => None
  end.

Section signer_state.
Context (sha256 : bytes → bytes).

Definition has_seen_signers (s : SignerState) (operators : list OperatorId) : bool :=
  bool_decide (committee_id_of_slice sha256 operators ∈ seen_signers s).

Definition signer_state_update (signed : SignedSSVMessage) (m : QbftMessage) (s : SignerState)
    : SignerState :=
  let s := if bool_decide (full_data signed ≠ []) && bool_decide (qbft_message_type m = Proposal)
           then s <| proposal_hash := Some (root m) |> else s in
  let s := if decide (1 < length (operator_ids signed))
           then s <| seen_signers :=
                       {[committee_id_of_slice sha256 (operator_ids signed)]} ∪ seen_signers s |>
           else s in
  s <| message_counts := record_consensus_message (qbft_message_type m)
                           (length (operator_ids signed)) (message_counts s) |>.
End signer_state.

(** ** [OperatorState] *)

Record OperatorState := {
  os_state : list (option SignerState);
  os_max_slot : Slot;
}.

Definition operator_state_new (stored_slot_count : nat) : OperatorState :=
  {| os_state := replicate stored_slot_count None; os_max_slot := 0 |}.

(** [slot.as_usize() % self.state.len()]; the ring is never empty ([stored_slot_count]). *)
Definition ring_index (os : OperatorState) (slot : Slot) : nat :=
  N.to_nat (slot `mod` len (os_state os)).

Definition get_signer_state (os : OperatorState) (slot : Slot) : option SignerState :=
  s ← mjoin (os_state os !! ring_index os slot);
  if decide (ss_slot s = slot) then Some s else None.

(** Writing through the reference [get_signer_state_mut] or [set_signer_state] returned. *)
Definition write_signer_state (slot : Slot) (s : SignerState) (os : OperatorState)
    : OperatorState :=
  {| os_state := <[ring_index os slot := Some s]> (os_state os); os_max_slot := os_max_slot os |}.

Definition set_signer_state (slot : Slot) (s : SignerState) (os : OperatorState)
    : OperatorState :=
  {| os_state := <[ring_index os slot := Some s]> (os_state os);
     os_max_slot := if (os_max_slot os <? slot)%N then slot else os_max_slot os |}.

Definition is_first_message_for_duty (os : OperatorState) (slot : Slot) : bool :=
  bool_decide (get_signer_state os slot = None).

(** [epoch.slot_iter(slots_per_epoch)] *)
Definition slot_iter (epoch : Epoch) (slots_per_epoch : positive) : list Slot :=
  (λ i, (epoch * N.pos slots_per_epoch + N.of_nat i)%N) <$> seq 0 (Pos.to_nat slots_per_epoch).

Definition get_duty_count (os : OperatorState) (epoch : Epoch) (slots_per_epoch : positive) : N :=
  len (filter (λ slot, is_Some (get_signer_state os slot)) (slot_iter epoch slots_per_epoch)).

(** [OperatorState::update] *)
Definition operator_update (sha256 : bytes → bytes) (signed : SignedSSVMessage) (m : QbftMessage)
    (slot : Slot) (os : OperatorState) : OperatorState :=
  let fresh := signer_state_new slot (round m) in
  let '(s, os) :=
    match get_signer_state os slot with
    | Some s => if (ss_round s <? round m)%N then (fresh, set_signer_state slot fresh os)
                else (s, os)
    | None => (fresh, set_signer_state slot fresh os)
    end in
  write_signer_state slot (signer_state_update sha256 signed m s) os.

(** The root-budget part of [update_for_partial_signature].  The reference to the budget
    allocates it, so the signer state changes on the error paths too. *)
Definition record_roots (m : PartialSignatureMessages) (s : SignerState)
    : outcome ValidationFailure unit * SignerState :=
  match root_budget (kind m) s with
  | None => (Ok tt, s)
  | Some (seen_roots, cap, store) =>
      let s := store seen_roots in
      if decide (messages m = []) then (Err VF_NoPartialSignatureMessages, s)
      else
        let new_roots : gset Hash256 := list_to_set (signing_root <$> messages m) ∖ seen_roots in
        if decide (new_roots = ∅) then (Err VF_RelayedDuplicateMessage, s)
        else if decide (cap < size seen_roots + size new_roots)
        then (Err VF_TooManyDistinctSigningRoots, s)
        else (Ok tt, store (seen_roots ∪ new_roots))
  end.

(** [update_for_partial_signature] on the signer's operator state. *)
Definition operator_update_partial (m : PartialSignatureMessages) (os : OperatorState)
    : outcome ValidationFailure unit * OperatorState :=
  let slot := psm_slot m in
  let '(s, os) :=
    match get_signer_state os slot with
    | Some s => (s, os)
    | None => let s := signer_state_new slot FIRST_ROUND in (s, set_signer_state slot s os)
    end in
  match record_roots m s with
  | (Ok _, s) =>
      (Ok tt, write_signer_state slot
                (s <| message_counts := record_partial_signature (kind m) (message_counts s) |>) os)
  | (e, s) => (e, write_signer_state slot s os)
  end.

(** ** [DutyState] *)

Record DutyState := {
  operators : gmap OperatorId OperatorState;
  stored_slots : nat;
}.

Definition duty_state_new (stored_slot_count : nat) : DutyState :=
  {| operators := ∅; stored_slots := stored_slot_count |}.

(** [get_or_create_operator]: the operator's state, and the duty state that has it. *)
Definition operator_or_new (ds : DutyState) (signer : OperatorId) : OperatorState :=
  default (operator_state_new (stored_slots ds)) (operators ds !! signer).

Definition set_operator (signer : OperatorId) (os : OperatorState) (ds : DutyState) : DutyState :=
  {| operators := <[signer := os]> (operators ds); stored_slots := stored_slots ds |}.

Definition get_or_create_operator {E} (signer : OperatorId) : action DutyState E OperatorState :=
  λ ds, let os := operator_or_new ds signer in (Ok os, set_operator signer os ds).

Definition update_for_consensus_message (sha256 : bytes → bytes) (signed : SignedSSVMessage)
    (m : QbftMessage) (ds : DutyState) : DutyState :=
  foldl (λ ds signer,
           set_operator signer
             (operator_update sha256 signed m (height m) (operator_or_new ds signer)) ds)
        ds (operator_ids signed).

Definition update_for_partial_signature (m : PartialSignatureMessages) (signer : OperatorId)
    : action DutyState ValidationFailure unit :=
  λ ds, let '(r, os) := operator_update_partial m (operator_or_new ds signer) in
        (r, set_operator signer os ds).

(** [DutyState::outdated] *)
Definition outdated (ds : DutyState) (current_slot : Slot) : bool :=
  let earliest_relevant_slot := (current_slot - N.of_nat (stored_slots ds))%N in
  forallb (λ p, (os_max_slot p.2 <? earliest_relevant_slot)%N) (map_to_list (operators ds)).

(** ** The ring *)

(** A write of the slot's entry, by either path. *)
Definition touches (slot : Slot) (os os' : OperatorState) : Prop :=
  ∃ s, ss_slot s = slot ∧ os_state os' = <[ring_index os slot := Some s]> (os_state os).

Lemma get_signer_state_slot os slot s : get_signer_state os slot = Some s → ss_slot s = slot.
Proof. unfold get_signer_state. intros (s' & _ & H)%bind_Some. by case_decide; simplify_eq. Qed.

Lemma touches_length slot os os' :
  touches slot os os' → length (os_state os') = length (os_state os).
Proof. intros (s & _ & ->). apply length_insert. Qed.

Lemma touches_ring_index slot os os' t :
  touches slot os os' → ring_index os' t = ring_index os t.
Proof. intros H. unfold ring_index, len. by rewrite (touches_length _ _ _ H). Qed.

Lemma ring_index_lt os t : 0 < length (os_state os) → ring_index os t < length (os_state os).
Proof.
  intros H. unfold ring_index, len.
  pose proof (N.mod_lt t (N.of_nat (length (os_state os)))). lia.
Qed.

(** Writing one slot makes it present and forgets exactly the slots that share its entry. *)
Lemma touches_get slot os os' t :
  0 < length (os_state os) → touches slot os os' →
  is_Some (get_signer_state os' t) ↔
    t = slot ∨ ring_index os t ≠ ring_index os slot ∧ is_Some (get_signer_state os t).
Proof.
  intros Hlen Ht. pose proof (touches_ring_index _ _ _ t Ht) as Hi.
  destruct Ht as (s & Hs & Hst). unfold get_signer_state. rewrite Hi, Hst.
  pose proof (ring_index_lt os slot Hlen) as Hlt.
  destruct (decide (ring_index os slot = ring_index os t)) as [He|Hne].
  - rewrite <- He, list_lookup_insert_eq by done. cbn. rewrite Hs.
    case_decide; subst; [split; [auto|by eexists]|]. split; [by intros []|]. naive_solver.
  - rewrite list_lookup_insert_ne by done. split; [|naive_solver]. auto.
Qed.

Lemma set_signer_state_touches slot s os : ss_slot s = slot → touches slot os (set_signer_state slot s os).
Proof. intros H. by exists s. Qed.

Lemma write_after_touch slot s os os' :
  ss_slot s = slot → touches slot os os' → touches slot os (write_signer_state slot s os').
Proof.
  intros Hs Ht. pose proof (touches_ring_index _ _ _ slot Ht) as Hi. destruct Ht as (s' & _ & He).
  exists s. split; [done|]. cbn. by rewrite Hi, He, list_insert_insert_eq.
Qed.

Lemma write_touches slot s os : ss_slot s = slot → touches slot os (write_signer_state slot s os).
Proof. intros H. by exists s. Qed.

Lemma signer_state_update_slot h signed m s : ss_slot (signer_state_update h signed m s) = ss_slot s.
Proof. unfold signer_state_update. repeat (case_match || case_decide); done. Qed.

Lemma operator_update_touches h signed m slot os :
  touches slot os (operator_update h signed m slot os).
Proof.
  unfold operator_update. destruct (get_signer_state os slot) as [s|] eqn:E;
    [destruct (_ <? _)%N|]; try apply write_after_touch, set_signer_state_touches;
    try apply write_touches; rewrite ?signer_state_update_slot; try done.
  by eapply get_signer_state_slot.
Qed.

Lemma record_roots_slot m s : ss_slot (record_roots m s).2 = ss_slot s.
Proof.
  unfold record_roots, root_budget. destruct (kind m); try done; repeat case_decide; done.
Qed.

Lemma operator_update_partial_touches m os :
  touches (psm_slot m) os (operator_update_partial m os).2.
Proof.
  unfold operator_update_partial.
  assert (∀ s os', ss_slot s = psm_slot m → os' = os ∨ touches (psm_slot m) os os' →
    touches (psm_slot m) os (match record_roots m s with
      | (Ok _, s) => (Ok tt, write_signer_state (psm_slot m)
          (s <| message_counts := record_partial_signature (kind m) (message_counts s) |>) os')
      | (e, s) => (e, write_signer_state (psm_slot m) s os') end : _ * _).2) as Hw.
  { intros s os' Hs Ho. pose proof (record_roots_slot m s) as Hr.
    destruct (record_roots m s) as [[] s'] eqn:E; cbn in *;
      (destruct Ho as [->|Ho]; [apply write_touches|apply write_after_touch; [|done]]); cbn; congruence. }
  destruct (get_signer_state os (psm_slot m)) as [s|] eqn:E; apply Hw; auto.
  - by eapply get_signer_state_slot.
  - right. by apply set_signer_state_touches.
Qed.

(** ** Duty counts *)

(** What the validator records for an operator. *)
Inductive DutyEvent :=
  | EvConsensus (signed : SignedSSVMessage) (m : QbftMessage)
  | EvPartial (m : PartialSignatureMessages).

Definition event_slot (ev : DutyEvent) : Slot :=
  match ev with EvConsensus _ m => height m | EvPartial m => psm_slot m end.

Definition apply_event (sha256 : bytes → bytes) (os : OperatorState) (ev : DutyEvent)
    : OperatorState :=
  match ev with
  | EvConsensus signed m => operator_update sha256 signed m (height m) os
  | EvPartial m => (operator_update_partial m os).2
  end.

Lemma apply_event_touches h os ev : touches (event_slot ev) os (apply_event h os ev).
Proof.
  destruct ev; [apply operator_update_touches|apply operator_update_partial_touches].
Qed.

Lemma apply_events_length h evs os :
  length (os_state (foldl (apply_event h) os evs)) = length (os_state os).
Proof.
  revert os. induction evs as [|ev evs IH]; intros os; cbn [foldl]; [done|].
  rewrite IH. eapply touches_length, apply_event_touches.
Qed.

Lemma mod_near_eq (t s L : N) :
  (t < s + L)%N → (s < t + L)%N → (t `mod` L = s `mod` L)%N → t = s.
Proof.
  intros H1 H2 He.
  assert (L ≠ 0)%N by lia.
  pose proof (N.div_mod t L ltac:(done)) as Ht. pose proof (N.div_mod s L ltac:(done)) as Hs.
  assert (t `div` L = s `div` L)%N as Hd by nia. congruence.
Qed.

(** Events outside a set of slots leave it absent. *)
Lemma events_absent h (E : Slot → Prop) evs os :
  0 < length (os_state os) → (∀ t, E t → get_signer_state os t = None) →
  (∀ ev, ev ∈ evs → ¬ E (event_slot ev)) →
  ∀ t, E t → get_signer_state (foldl (apply_event h) os evs) t = None.
Proof.
  revert os. induction evs as [|ev evs IH]; intros os Hlen Hnone Hout; cbn [foldl]; [done|].
  apply IH.
  - by rewrite (touches_length _ _ _ (apply_event_touches h os ev)).
  - intros t Ht. apply eq_None_not_Some.
    rewrite (touches_get _ _ _ t Hlen (apply_event_touches h os ev)).
    intros [->|[_ Hs]]; [by apply (Hout ev); [left|]|]. rewrite (Hnone t Ht) in Hs.
    by destruct Hs.
  - intros ev' Hev'. apply Hout. by right.
Qed.

(** Events near a set of slots record exactly their own slots in it. *)
Lemma events_present h (E : Slot → Prop) evs os :
  0 < length (os_state os) →
  (∀ ev t, ev ∈ evs → E t →
     (t < event_slot ev + len (os_state os) ∧ event_slot ev < t + len (os_state os))%N) →
  ∀ t, E t →
    is_Some (get_signer_state (foldl (apply_event h) os evs) t) ↔
    t ∈ event_slot <$> evs ∨ is_Some (get_signer_state os t).
Proof.
  revert os. induction evs as [|ev evs IH]; intros os Hlen Hnear t Ht; cbn [foldl fmap list_fmap].
  { set_solver. }
  pose proof (apply_event_touches h os ev) as Htch.
  pose proof (touches_length _ _ _ Htch) as Hl.
  rewrite IH; [|lia| |done].
  2:{ intros ev' t' Hev' Ht'. unfold len. rewrite Hl. apply Hnear; [by right|done]. }
  rewrite (touches_get _ _ _ t Hlen Htch), elem_of_cons.
  destruct (Hnear ev t) as [H1 H2]; [left|done|].
  destruct (decide (t = event_slot ev)) as [|Hne]; [tauto|].
  assert (ring_index os t ≠ ring_index os (event_slot ev)) as Hri.
  { intros He. apply Hne. apply (mod_near_eq _ _ (len (os_state os))); [done..|].
    unfold ring_index in He. by apply N2Nat.inj. }
  tauto.
Qed.

Lemma elem_of_slot_iter t e spe :
  t ∈ slot_iter e spe ↔ (t `div` N.pos spe = e)%N.
Proof.
  unfold slot_iter. rewrite list_elem_of_fmap. split.
  - intros (i & -> & Hi%elem_of_seq).
    symmetry. apply (N.div_unique _ _ _ (N.of_nat i)); lia.
  - intros <-. exists (N.to_nat (t `mod` N.pos spe)).
    pose proof (N.mod_lt t (N.pos spe) ltac:(done)) as Hm.
    pose proof (N.div_mod t (N.pos spe) ltac:(done)) as Hd.
    rewrite N2Nat.id. split; [lia|]. apply elem_of_seq.
    clear Hd. generalize dependent (t `mod` N.pos spe)%N. lia.
Qed.

Lemma slot_iter_NoDup e spe : NoDup (slot_iter e spe).
Proof. apply NoDup_fmap_2; [|apply NoDup_seq]. intros i j H. lia. Qed.

Lemma operator_state_new_get L t : get_signer_state (operator_state_new L) t = None.
Proof.
  unfold get_signer_state, operator_state_new. cbn.
  destruct (replicate L None !! _) as [x|] eqn:E; [|done].
  by apply lookup_replicate in E as [-> _].
Qed.

(** The duty count read off the ring is exact for an epoch when the history falls into a
    first part without any slot of the epoch and a second part whose slots are all less
    than [L] away from the epoch's slots. *)
Lemma duty_count_exact h L before during e spe :
  0 < L →
  (∀ ev, ev ∈ before → event_slot ev `div` N.pos spe ≠ e)%N →
  (∀ ev t, ev ∈ during → t `div` N.pos spe = e →
     t < event_slot ev + N.of_nat L ∧ event_slot ev < t + N.of_nat L)%N →
  get_duty_count (foldl (apply_event h) (operator_state_new L) (before ++ during)) e spe =
  N.of_nat (size (list_to_set (filter (λ t, t `div` N.pos spe = e)%N (event_slot <$> during))
                  : gset Slot)).
Proof.
  intros HL Hb Hd. unfold get_duty_count, len. f_equal. rewrite foldl_app.
  set (os1 := foldl (apply_event h) (operator_state_new L) before).
  assert (length (os_state os1) = L) as Hl1
    by (unfold os1; rewrite apply_events_length; apply length_replicate).
  assert (∀ t, (t `div` N.pos spe = e)%N → get_signer_state os1 t = None) as Habs.
  { apply events_absent; [by cbn; rewrite length_replicate| |done].
    intros t _. apply operator_state_new_get. }
  assert (∀ t, t ∈ slot_iter e spe →
            is_Some (get_signer_state (foldl (apply_event h) os1 during) t) ↔
            t ∈ event_slot <$> during) as Hiff.
  { intros t Ht. apply elem_of_slot_iter in Ht.
    rewrite (events_present h (λ t, t `div` N.pos spe = e)%N); [|lia| |done].
    - rewrite (Habs t Ht). split; [by intros [|[]]|auto].
    - unfold len. rewrite Hl1. done. }
  set (os2 := foldl (apply_event h) os1 during) in *. clearbody os2.
  rewrite <- NoDup_length_size by apply NoDup_filter, slot_iter_NoDup.
  f_equal. apply set_eq. intros t. rewrite !elem_of_list_to_set, !list_elem_of_filter.
  specialize (Hiff t). rewrite elem_of_slot_iter in *. tauto.
Qed.

(** ** Signing-root budgets *)

Lemma get_write_signer_state slot s os :
  0 < length (os_state os) → ss_slot s = slot →
  get_signer_state (write_signer_state slot s os) slot = Some s.
Proof.
  intros Hl Hs. pose proof (ring_index_lt os slot Hl) as Hlt.
  pose proof (touches_ring_index slot os (write_signer_state slot s os) slot
                (write_touches slot s os Hs)) as Hi.
  unfold get_signer_state. rewrite Hi. cbn. rewrite list_lookup_insert_eq by done. cbn.
  by rewrite decide_True.
Qed.

Definition budget_cap (k : PartialSignatureKind) : option nat :=
  match k with
  | ProposerPreferences => Some MAX_PROPOSER_PREFERENCES_DISTINCT_ROOTS
  | RequestAuth => Some MAX_REQUEST_AUTH_DISTINCT_ROOTS
  | _ => None
  end.

(** The signing roots of a kind recorded for a slot. *)
Definition roots_of (k : PartialSignatureKind) (s : SignerState) : gset Hash256 :=
  match root_budget k s with Some (X, _, _) => X | None => ∅ end.
Definition seen_roots (os : OperatorState) (k : PartialSignatureKind) (slot : Slot)
    : gset Hash256 :=
  match get_signer_state os slot with Some s => roots_of k s | None => ∅ end.

Lemma record_roots_cases m s X cap store :
  root_budget (kind m) s = Some (X, cap, store) →
  let Y := list_to_set (signing_root <$> messages m) in
  match record_roots m s with
  | (Ok _, s') => s' = store (X ∪ Y) ∧ ¬ Y ⊆ X ∧ size (X ∪ Y) ≤ cap
  | (Err _, s') => s' = store X ∧ (Y ⊆ X ∨ cap < size (X ∪ Y))
  | (Panic, _) => False
  end.
Proof.
  intros Hb Y. unfold record_roots. rewrite Hb. fold Y.
  case_decide as Hm; [split; [done|]; left; unfold Y; rewrite Hm; set_solver|].
  assert (X ∪ Y ∖ X = X ∪ Y) as Hu
    by (apply set_eq; intros z; destruct (decide (z ∈ X)); set_solver).
  pose proof (size_union_alt X Y) as Hsz.
  case_decide as He; [split; [done|]; left; set_solver|].
  case_decide as Hc; [split; [done|]; right; lia|].
  rewrite Hu. split; [done|]. split; [|lia]. intros Hs. apply He. set_solver.
Qed.

Lemma root_budget_store k s X cap store Z k' :
  root_budget k s = Some (X, cap, store) →
  roots_of k s = X ∧ budget_cap k = Some cap ∧ ss_slot (store Z) = ss_slot s ∧
  message_counts (store Z) = message_counts s ∧
  roots_of k' (store Z) = if decide (k' = k) then Z else roots_of k' s.
Proof.
  destruct k; intros [= <- <- <-]; (split_and!; [done..|]); by destruct k'.
Qed.

Lemma budget_cap_budget k s cap :
  budget_cap k = Some cap → ∃ X store, root_budget k s = Some (X, cap, store).
Proof. destruct k; intros [= <-]; eexists _, _; done. Qed.

(** The signer state a message of a slot is recorded in. *)
Definition signer_for (os : OperatorState) (slot : Slot) : SignerState :=
  default (signer_state_new slot FIRST_ROUND) (get_signer_state os slot).

Lemma signer_for_slot os slot : ss_slot (signer_for os slot) = slot.
Proof.
  unfold signer_for. destruct (get_signer_state os slot) eqn:E; [|done].
  by eapply get_signer_state_slot.
Qed.

Lemma seen_roots_signer_for os k slot : seen_roots os k slot = roots_of k (signer_for os slot).
Proof.
  unfold seen_roots, signer_for. destruct (get_signer_state os slot); [done|]. by destruct k.
Qed.

Lemma operator_update_partial_signer m os :
  0 < length (os_state os) →
  let s := signer_for os (psm_slot m) in
  (operator_update_partial m os).1 = (record_roots m s).1 ∧
  get_signer_state (operator_update_partial m os).2 (psm_slot m) =
    Some (match (record_roots m s).1 with
          | Ok _ => (record_roots m s).2
              <| message_counts :=
                   record_partial_signature (kind m) (message_counts (record_roots m s).2) |>
          | _ => (record_roots m s).2
          end).
Proof.
  intros Hl. cbn zeta. unfold operator_update_partial.
  pose proof (signer_for_slot os (psm_slot m)) as Hs. unfold signer_for in *.
  pose proof (λ s, record_roots_slot m s) as Hr.
  destruct (get_signer_state os (psm_slot m)) as [s|]; cbn [default from_option id] in *;
    match goal with |- context [record_roots m ?s] => specialize (Hr s);
      destruct (record_roots m s) as [[[]| |] s'] end; cbn [fst snd] in *;
    (split; [done|]); apply get_write_signer_state; cbn; rewrite ?length_insert; congruence.
Qed.

(** signing-root budgets.  A packet of one of the two budgeted kinds is recorded as a
    whole or not at all: it is accepted exactly when it brings a new root and the slot's
    distinct roots stay within the cap of its kind, in which case all its roots are
    recorded; otherwise the recorded roots stay as they were.  The other kind's budget is
    never touched. *)
Theorem root_budget_atomic m os cap k' :
  0 < length (os_state os) → budget_cap (kind m) = Some cap → k' ≠ kind m →
  let Y := list_to_set (signing_root <$> messages m) in
  let X := seen_roots os (kind m) (psm_slot m) in
  let '(r, os') := operator_update_partial m os in
  (is_ok r = true ↔ ¬ Y ⊆ X ∧ size (X ∪ Y) ≤ cap) ∧
  seen_roots os' (kind m) (psm_slot m) = (if is_ok r then X ∪ Y else X) ∧
  seen_roots os' k' (psm_slot m) = seen_roots os k' (psm_slot m).
Proof.
  intros Hl Hcap Hk Y. rewrite !seen_roots_signer_for.
  destruct (operator_update_partial_signer m os Hl) as [Hr Hg].
  set (s := signer_for os (psm_slot m)) in *.
  destruct (budget_cap_budget (kind m) s cap Hcap) as (X & store & Hb).
  pose proof (record_roots_cases m s X cap store Hb) as Hc. cbn zeta in Hc. fold Y in Hc.
  pose proof (λ Z k, root_budget_store (kind m) s X cap store Z k Hb) as Hst.
  destruct (Hst ∅ k') as (-> & _).
  destruct (operator_update_partial m os) as [r os']. cbn [fst snd] in *. subst r.
  unfold seen_roots. rewrite Hg.
  assert (∀ c Z k, roots_of k (store Z <| message_counts := c |>) = roots_of k (store Z)) as Hmc
    by (intros c Z k; by destruct k).
  destruct (record_roots m s) as [[u|e|] s']; cbn [fst snd is_ok] in *; [| |done].
  - destruct Hc as (-> & Hn & Hsz). rewrite !Hmc.
    destruct (Hst (X ∪ Y) k') as (_ & _ & _ & _ & ->). destruct (Hst (X ∪ Y) (kind m)) as (_ & _ & _ & _ & ->).
    rewrite decide_True, decide_False by done. done.
  - destruct Hc as (-> & Hn).
    destruct (Hst X k') as (_ & _ & _ & _ & ->). destruct (Hst X (kind m)) as (_ & _ & _ & _ & ->).
    rewrite decide_True, decide_False by done. split; [|done]. split; [done|].
    intros [Hns Hle]. destruct Hn; [done|lia].
Qed.

Lemma root_budget_atomic_witness :
  let m := {| kind := ProposerPreferences; psm_slot := 5;
              messages := [{| partial_signature := []; signing_root := 9; psm_signer := 1;
                              validator_index := 0 |}] |} in
  let '(r, os') := operator_update_partial m (operator_state_new 67) in
  (is_ok r = true ↔ ¬ ({[9%N]} : gset N) ⊆ ∅ ∧ size (∅ ∪ {[9%N]} : gset N) ≤ 4) ∧
  seen_roots os' ProposerPreferences 5 = (if is_ok r then {[9%N]} else ∅) ∧
  seen_roots os' RequestAuth 5 = ∅.
Proof.
  exact (root_budget_atomic
    {| kind := ProposerPreferences; psm_slot := 5;
       messages := [{| partial_signature := []; signing_root := 9; psm_signer := 1;
                       validator_index := 0 |}] |} (operator_state_new 67) 4 RequestAuth
    (Nat.lt_0_succ 66) eq_refl ltac:(discriminate)).
Defined.

(** ** Counters and budgets stay within their limits *)

Definition counts_ok (c : MessageCounts) : Prop :=
  (pre_consensus c <= 1 ∧ proposal c <= 1 ∧ prepare c <= 1 ∧ commit c <= 1 ∧
   round_change c <= 1 ∧ post_consensus c <= 1)%N.

Record signer_ok (s : SignerState) : Prop := {
  so_counts : counts_ok (message_counts s);
  so_budgets : ∀ k cap, budget_cap k = Some cap → size (roots_of k s) ≤ cap;
}.

(** Every entry of the ring is within the limits. *)
Definition ring_ok (os : OperatorState) : Prop :=
  ∀ i s, os_state os !! i = Some (Some s) → signer_ok s.

Record duty_ok (ds : DutyState) : Prop := {
  do_ring : ∀ o os, operators ds !! o = Some os →
            ring_ok os ∧ length (os_state os) = stored_slots ds;
  do_size : 0 < stored_slots ds;
}.

Lemma signer_state_new_ok slot r : signer_ok (signer_state_new slot r).
Proof.
  split; [by unfold counts_ok; cbn; lia|]. intros [] cap; intros [= <-];
    change (roots_of _ _) with (∅ : gset Hash256); rewrite size_empty; apply Nat.le_0_l.
Qed.

Lemma get_signer_state_elem os slot s :
  get_signer_state os slot = Some s → ∃ i, os_state os !! i = Some (Some s).
Proof.
  unfold get_signer_state. destruct (os_state os !! ring_index os slot) as [[s0|]|] eqn:E;
    cbn; [|done..]. case_decide; [|done]. intros [= <-]. eauto.
Qed.

Lemma get_signer_state_ok os slot s : ring_ok os → get_signer_state os slot = Some s → signer_ok s.
Proof. intros Hr [i Hi]%get_signer_state_elem. by eapply Hr. Qed.

Lemma write_signer_state_ok slot s os :
  ring_ok os → signer_ok s → ring_ok (write_signer_state slot s os).
Proof.
  intros Hr Hs i s' Hi. cbn in Hi. apply list_lookup_insert_Some in Hi as [(_ & ? & _)|[_ ?]];
    [by simplify_eq|by eapply Hr].
Qed.

Lemma set_signer_state_ok slot s os :
  ring_ok os → signer_ok s → ring_ok (set_signer_state slot s os).
Proof. apply write_signer_state_ok. Qed.

Lemma operator_state_new_ok n : ring_ok (operator_state_new n).
Proof. intros i s Hi. cbn in Hi. by apply lookup_replicate in Hi as []. Qed.

Lemma operator_or_new_ok ds o :
  duty_ok ds →
  ring_ok (operator_or_new ds o) ∧ length (os_state (operator_or_new ds o)) = stored_slots ds.
Proof.
  intros [Hr _]. unfold operator_or_new. destruct (operators ds !! o) as [os|] eqn:E; [by eapply Hr|].
  split; [apply operator_state_new_ok|apply length_replicate].
Qed.

Lemma set_operator_ok ds o os :
  duty_ok ds → ring_ok os → length (os_state os) = stored_slots ds → duty_ok (set_operator o os ds).
Proof.
  intros [Hr Hs] Ho Hl. split; [|done]. intros o' os'. cbn.
  rewrite lookup_insert_Some. intros [[<- <-]|[_ ?]]; [done|]. by eapply Hr.
Qed.

Lemma incr8_zero n : (MAX_MESSAGES_PER_ROUND <=? n)%N = false → (incr8 n <= 1)%N.
Proof.
  unfold MAX_MESSAGES_PER_ROUND. intros H%N.leb_gt. assert (n = 0%N) as -> by lia.
  by vm_compute.
Qed.

Lemma record_consensus_ok c signed ty :
  counts_ok c → (length (operator_ids signed) ≠ 1 → ty = Commit) →
  (length (operator_ids signed) = 1 → validate_consensus_message_limits c signed ty = Ok tt) →
  counts_ok (record_consensus_message ty (length (operator_ids signed)) c).
Proof.
  unfold counts_ok. intros Hc Hty Hlim.
  destruct (decide (length (operator_ids signed) = 1)) as [H1|H1].
  - specialize (Hlim H1). unfold validate_consensus_message_limits in Hlim.
    apply ensure_ok in Hlim. rewrite H1 in *.
    destruct ty; cbn in *; split_and_hyps; split_and!; try done; by apply incr8_zero.
  - rewrite (Hty H1). cbn. by rewrite decide_False.
Qed.

Lemma record_partial_ok c m :
  counts_ok c → validate_partial_signature_limits c m = Ok tt →
  counts_ok (record_partial_signature (kind m) c).
Proof.
  unfold counts_ok, validate_partial_signature_limits. intros Hc Hlim.
  destruct (kind m); cbn in *; try apply ensure_ok in Hlim; split_and_hyps; split_and!;
    try done; by apply incr8_zero.
Qed.

(** What the validator checks of an operator before it records a consensus message. *)
Record consensus_admissible (os : OperatorState) (signed : SignedSSVMessage) (m : QbftMessage)
    : Prop := {
  ca_single : length (operator_ids signed) ≠ 1 → qbft_message_type m = Commit;
  ca_round : ∀ s, length (operator_ids signed) = 1 → get_signer_state os (height m) = Some s →
    (ss_round s <= round m)%N;
  ca_limits : ∀ s, length (operator_ids signed) = 1 → get_signer_state os (height m) = Some s →
    round m = ss_round s →
    validate_consensus_message_limits (message_counts s) signed (qbft_message_type m) = Ok tt;
}.

Lemma signer_state_update_ok h signed m s :
  signer_ok s → (length (operator_ids signed) ≠ 1 → qbft_message_type m = Commit) →
  (length (operator_ids signed) = 1 →
     validate_consensus_message_limits (message_counts s) signed (qbft_message_type m) = Ok tt) →
  signer_ok (signer_state_update h signed m s).
Proof.
  intros [Hc Hb] H1 H2. unfold signer_state_update.
  destruct (bool_decide (full_data signed ≠ []) && _); case_decide;
    (split; cbn; [by apply record_consensus_ok|]); intros k cap Hk;
    specialize (Hb k cap Hk); by destruct k.
Qed.

Lemma fresh_limits signed m slot r :
  validate_consensus_message_limits (message_counts (signer_state_new slot r)) signed
    (qbft_message_type m) = Ok tt.
Proof. unfold validate_consensus_message_limits. cbn. destruct (qbft_message_type m); cbn; try done.
  by rewrite andb_false_r. Qed.

Lemma operator_update_ok h signed m os :
  ring_ok os → consensus_admissible os signed m →
  ring_ok (operator_update h signed m (height m) os).
Proof.
  intros Hr [Hs Hrd Hl]. unfold operator_update.
  assert (∀ r, signer_ok (signer_state_update h signed m (signer_state_new (height m) r))) as Hf
    by (intros r; apply signer_state_update_ok; auto using signer_state_new_ok, fresh_limits).
  destruct (get_signer_state os (height m)) as [s|] eqn:E.
  - destruct (N.ltb_spec (ss_round s) (round m)) as [Hlt|Hge].
    + apply write_signer_state_ok; auto using set_signer_state_ok, signer_state_new_ok.
    + apply write_signer_state_ok; [done|]. apply signer_state_update_ok; [|done|].
      * by eapply get_signer_state_ok.
      * intros H1. apply Hl; [done|done|]. specialize (Hrd s H1 eq_refl). lia.
  - apply write_signer_state_ok; auto using set_signer_state_ok, signer_state_new_ok.
Qed.

Lemma record_roots_ok m s : signer_ok s → signer_ok (record_roots m s).2.
Proof.
  intros [Hc Hb]. destruct (root_budget (kind m) s) as [[[X cap] store]|] eqn:E.
  2:{ unfold record_roots. by rewrite E. }
  pose proof (record_roots_cases m s X cap store E) as Hcase. cbn zeta in Hcase.
  assert (∀ Z, size Z ≤ cap → signer_ok (store Z)) as Hst.
  { intros Z HZ. split.
    - by destruct (root_budget_store _ _ _ _ _ Z (kind m) E) as (_ & _ & _ & -> & _).
    - intros k cap' Hk. destruct (root_budget_store _ _ _ _ _ Z k E) as (_ & Hcap & _ & _ & ->).
      case_decide; [subst; by simplify_eq|by apply Hb]. }
  destruct (root_budget_store _ _ _ _ _ X (kind m) E) as (HX & Hcap & _).
  destruct (record_roots m s) as [[] s']; [| |done].
  - destruct Hcase as (-> & _ & ?). by apply Hst.
  - destruct Hcase as (-> & _). apply Hst. rewrite <- HX. by apply Hb.
Qed.

Lemma operator_update_partial_ok m os :
  ring_ok os →
  (∀ s, get_signer_state os (psm_slot m) = Some s →
        validate_partial_signature_limits (message_counts s) m = Ok tt) →
  ring_ok (operator_update_partial m os).2.
Proof.
  intros Hr Hl. unfold operator_update_partial.
  assert (∀ s os', signer_ok s → ring_ok os' →
    validate_partial_signature_limits (message_counts s) m = Ok tt →
    ring_ok (match record_roots m s with
      | (Ok _, s) => (Ok tt, write_signer_state (psm_slot m)
          (s <| message_counts := record_partial_signature (kind m) (message_counts s) |>) os')
      | (e, s) => (e, write_signer_state (psm_slot m) s os') end : _ * _).2) as Hw.
  { intros s os' Hs Ho Hlim. pose proof (record_roots_ok m s Hs) as Hrr.
    assert (message_counts (record_roots m s).2 = message_counts s) as Hmc.
    { unfold record_roots, root_budget. destruct (kind m); try done; repeat case_decide; done. }
    destruct (record_roots m s) as [[] s']; cbn [fst snd] in *;
      apply write_signer_state_ok; try done.
    destruct Hrr as [Hc Hb]. split; cbn; [rewrite Hmc in *; by apply record_partial_ok|].
    intros k cap Hk. specialize (Hb k cap Hk). by destruct k. }
  destruct (get_signer_state os (psm_slot m)) as [s|] eqn:E; apply Hw; auto.
  - by eapply get_signer_state_ok.
  - apply signer_state_new_ok.
  - by apply set_signer_state_ok, signer_state_new_ok.
  - unfold validate_partial_signature_limits. by destruct (kind m).
Qed.
