(* ===== verification/ValidatorRules.v ===== *)
(** * The validator's rules

    The free functions of [anchor/message_validator/src/lib.rs] that both kinds of message
    go through: signature verification, beacon-duty checks, fork gates, the acceptance
    window of a slot, duty limits, and the sizing of the duty-state ring.  The theorems
    give the acceptance window exactly and show that the ring is large enough for it. *)

From S2P Require Import Prelude SsvTypes Messages ForkSchedule ValidationTypes DutyState.

(** ** What the rules depend on *)

(** OpenSSL, [sha2], the BLS library and the derived SSZ encoding of [SSVMessage]. *)
Class Crypto := {
  PubKey : Type;
  (** [Verifier::verify] with SHA-256; [false] also stands for its errors, which the code
      maps to the same failure *)
  rsa_verify : PubKey → bytes → bytes → bool;
  ssv_as_ssz : SSVMessage → bytes;
  sha256 : bytes → bytes;
  pk_deserialize : bytes → option PublicKeyBytes;
}.

Inductive DutyAssignment := Assigned | NotAssigned | Unknown.

#[export] Instance DutyAssignment_eq_dec : EqDecision DutyAssignment.
Proof. solve_decision. Defined.

(** [trait DutiesProvider] of [duties_tracker/src/lib.rs]. *)
Record DutiesProvider := {
  is_validator_in_sync_committee : N → ValidatorIndex → bool;
  is_epoch_known_for_proposers : Epoch → bool;
  is_validator_proposer_at_slot : Slot → ValidatorIndex → bool;
  get_voluntary_exit_duty_count : Slot → PublicKeyBytes → N;
  proposer_assignment_at_slot : Slot → PublicKeyBytes → DutyAssignment;
  local_proposer_assignment_at_slot : Slot → PublicKeyBytes → bool;
  ptc_assignment_at_slot : Slot → ValidatorIndex → DutyAssignment;
}.

(** [trait SlotClock]: the start of a slot, in nanoseconds since the Unix epoch, and the
    current slot. *)
Record SlotClock := {
  start_of : Slot → option N;
  clock_now : option Slot;
}.

(** The fields of [ChainSpec] the rules read; [gloas_enabled_at e] is
    [fork_name_at_epoch(e).gloas_enabled()]. *)
Record ChainSpec := {
  min_seed_lookahead : Epoch;
  gloas_fork_epoch : option Epoch;
  gloas_enabled_at : Epoch → bool;
}.

Record CommitteeInfo := {
  committee_members : list OperatorId;
  validator_indices : list ValidatorIndex;
}.

(** [struct ValidationContext]; [received_at] is in nanoseconds since the Unix epoch. *)
Record ValidationContext `{Crypto} := {
  vc_signed : SignedSSVMessage;
  vc_role : Role;
  vc_committee : CommitteeInfo;
  vc_received_at : N;
  vc_slots_per_epoch : positive;
  vc_epochs_per_sync_committee_period : N;
  vc_sync_committee_size : nat;
  vc_slot_clock : SlotClock;
  vc_operator_pub_keys : gmap OperatorId PubKey;
  vc_fork_schedule : ForkSchedule;
  vc_spec : ChainSpec;
}.

(** Nanoseconds in a second. *)
Definition secs (n : N) : N := n * 1000000000.

(** The last representable [SystemTime] (signed 64-bit seconds). *)
Definition SYSTEM_TIME_MAX : N := secs (2 ^ 63 - 1) + 999999999.

Section rules.
Context `{Crypto}.
Implicit Types (vc : ValidationContext) (dp : DutiesProvider).
Abbreviation result A := (outcome ValidationFailure A).

(** ** Signatures *)

Definition verify_message_signature (signed : SignedSSVMessage) (pk : PubKey) (signature : bytes)
    : result unit :=
  ensure (rsa_verify pk (ssv_as_ssz (ssv_message signed)) signature)
    VF_SignatureVerificationFailed.

Definition verify_single_signer vc (signer : OperatorId) : result unit :=
  pk ← ok_or (vc_operator_pub_keys vc !! signer) (VF_OperatorNotFound signer);
  signature ← ok_or (head (signatures (vc_signed vc))) VF_NoSignatures;
  verify_message_signature (vc_signed vc) pk signature.

Definition verify_message_signatures (signed : SignedSSVMessage) (keys : gmap OperatorId PubKey)
    : result unit :=
  pks ← try_map (λ id, ok_or (keys !! id) (VF_OperatorNotFound id)) (operator_ids signed);
  _ ← ensure (bool_decide (length (signatures signed) = length pks))
        VF_SignatureVerificationFailed;
  try_for_each (λ '(signature, pk), verify_message_signature signed pk signature)
    (zip (signatures signed) pks).

Definition hash_data (full_data : bytes) : Hash256 := from_le_bytes (sha256 full_data).

(** ** Slots and epochs

    [Slot] and [Epoch] arithmetic of the consensus client saturates. *)

Definition slot_epoch (slot : Slot) (spe : positive) : Epoch := slot `div` N.pos spe.
Definition start_slot (epoch : Epoch) (spe : positive) : Slot :=
  N.min u64_max (epoch * N.pos spe).
Definition slot_add (slot : Slot) (n : N) : Slot := N.min u64_max (slot + n).

Definition sync_committee_period (epoch : Epoch) (epochs_per_period : N) : result N :=
  if (epochs_per_period =? 0)%N then Err VF_SyncCommitteePeriodCalculationFailure
  else Ok (epoch `div` epochs_per_period)%N.

Definition slot_start_time (clock : SlotClock) (slot : Slot) : result N :=
  dur ← ok_or (start_of clock slot) (VF_SlotStartTimeNotFound slot);
  if (dur <=? SYSTEM_TIME_MAX)%N then Ok dur else Panic.

(** ** Beacon duties *)

Definition single_validator_index vc : result ValidatorIndex :=
  ok_or (head (validator_indices (vc_committee vc))) VF_NoShareMetadata.

(** The validator the message identifier names. *)
Definition validator_of_message vc : result PublicKeyBytes :=
  match message_id_duty_executor pk_deserialize (msg_id (ssv_message (vc_signed vc))) with
  | Some (ExecValidator pk) => Ok pk
  | _ => Err VF_UnknownValidator
  end.

(** The [Role::Proposer] rule. *)
Definition validate_proposer_duty vc dp (slot : Slot) (randao_msg : bool) : result unit :=
  let spe := vc_slots_per_epoch vc in
  let epoch := slot_epoch slot spe in
  let is_first_slot_of_epoch := (start_slot epoch spe =? slot)%N in
  tolerated ← (if randao_msg && is_first_slot_of_epoch
               then now ← ok_or (clock_now (vc_slot_clock vc)) VF_UnexpectedFailure;
                    Ok ((now <=? slot)%N && negb (is_epoch_known_for_proposers dp epoch))
               else Ok false);
  if (tolerated : bool) then Ok tt
  else
    validator_index ← single_validator_index vc;
    ensure (is_validator_proposer_at_slot dp slot validator_index) VF_NoDuty.

Definition validate_beacon_duty vc dp (slot : Slot) (randao_msg : bool) : result unit :=
  let epoch := slot_epoch slot (vc_slots_per_epoch vc) in
  match vc_role vc with
  | Role.Proposer => validate_proposer_duty vc dp slot randao_msg
  | Role.ProposerPreferences =>
      pk ← validator_of_message vc;
      ensure (negb (bool_decide (proposer_assignment_at_slot dp slot pk = NotAssigned)
                    && negb (local_proposer_assignment_at_slot dp slot pk))) VF_NoDuty
  | Role.PTCAttester =>
      match head (validator_indices (vc_committee vc)) with
      | Some validator_index =>
          ensure (negb (bool_decide (ptc_assignment_at_slot dp slot validator_index = NotAssigned)))
            VF_NoDuty
      | None => Ok tt
      end
  | Role.SyncCommittee =>
      period ← sync_committee_period epoch (vc_epochs_per_sync_committee_period vc);
      validator_index ← single_validator_index vc;
      ensure (is_validator_in_sync_committee dp period validator_index) VF_NoDuty
  | _ => Ok tt
  end.

(** ** Fork gates *)

Definition validate_role_for_fork vc (slot : Slot) : result unit :=
  let role := vc_role vc in
  let epoch := slot_epoch slot (vc_slots_per_epoch vc) in
  fork ← expect (active_fork (vc_fork_schedule vc) epoch);
  _ ← (if bool_decide (role = Role.AggregatorCommittee) && negb (fork_le Boole fork)
       then Err (VF_RoleNotActiveBeforeFork role fork Boole) else Ok tt);
  _ ← (if (bool_decide (role = Role.Aggregator) || bool_decide (role = Role.SyncCommittee))
          && fork_le Boole fork
       then Err (VF_RoleNotActiveAfterFork role fork Boole) else Ok tt);
  let gloas := gloas_enabled_at (vc_spec vc) epoch in
  _ ← (if bool_decide (role = Role.ValidatorRegistration) && gloas
       then Err (VF_RoleNotActiveAfterEthFork role) else Ok tt);
  if (bool_decide (role = Role.PTCAttester) || bool_decide (role = Role.ProposerPreferences))
     && negb gloas
  then Err (VF_RoleNotActiveBeforeEthFork role) else Ok tt.

(** ** Timing *)

Definition CLOCK_ERROR_TOLERANCE : N := 50000000.
Definition EARLY_MESSAGE_MARGIN : N := secs 1.
Definition LATE_MESSAGE_MARGIN : N := secs 3.
Definition LATE_SLOT_ALLOWANCE : N := 2.

(** The slot whose start is a message's earliest arrival. *)
Definition earliest_slot vc (slot : Slot) : Slot :=
  match vc_role vc with
  | Role.ProposerPreferences =>
      start_slot (slot_epoch slot (vc_slots_per_epoch vc) - min_seed_lookahead (vc_spec vc))
        (vc_slots_per_epoch vc)
  | _ => slot
  end.

(** [duration_since(..).unwrap_or_default()] is truncated subtraction. *)
Definition message_earliness vc (slot : Slot) : result N :=
  slot_start ← slot_start_time (vc_slot_clock vc) (earliest_slot vc slot);
  Ok (slot_start - vc_received_at vc)%N.

(** The slots a message of a role stays valid for. *)
Definition message_ttl (role : Role) (spe : positive) : N :=
  match role with
  | Role.Proposer | Role.SyncCommittee | Role.PTCAttester => 1 + LATE_SLOT_ALLOWANCE
  | Role.Committee | Role.Aggregator | Role.ValidatorRegistration | Role.VoluntaryExit
  | Role.AggregatorCommittee => N.pos spe + LATE_SLOT_ALLOWANCE
  | Role.ProposerPreferences => LATE_SLOT_ALLOWANCE
  end.

Definition message_lateness vc (slot : Slot) : result N :=
  let ttl := message_ttl (vc_role vc) (vc_slots_per_epoch vc) in
  start ← map_err (λ _, VF_SlotStartTimeNotFound slot)
            (slot_start_time (vc_slot_clock vc) (slot_add slot ttl));
  let deadline := (start + LATE_MESSAGE_MARGIN)%N in
  _ ← ensure (deadline <=? SYSTEM_TIME_MAX)%N VF_UnexpectedFailure;
  Ok (vc_received_at vc - deadline)%N.

Definition validate_slot_time vc (slot : Slot) : result unit :=
  earliness ← message_earliness vc slot;
  _ ← ensure (earliness <=? CLOCK_ERROR_TOLERANCE + EARLY_MESSAGE_MARGIN)%N VF_EarlySlotMessage;
  lateness ← message_lateness vc slot;
  ensure (lateness <=? CLOCK_ERROR_TOLERANCE)%N VF_LateSlotMessage.

(** ** Duty limits *)

Definition duty_limit vc dp (slot : Slot) : result (option N) :=
  let indices := validator_indices (vc_committee vc) in
  let spe := N.pos (vc_slots_per_epoch vc) in
  match vc_role vc with
  | Role.VoluntaryExit =>
      pk ← validator_of_message vc;
      Ok (Some (get_voluntary_exit_duty_count dp slot pk))
  | Role.Aggregator | Role.ValidatorRegistration | Role.PTCAttester => Ok (Some 2%N)
  | Role.Committee | Role.AggregatorCommittee =>
      let validator_index_count := len indices in
      in_sync_committee ←
        (if (validator_index_count <? spe `div` 2)%N
         then period ← sync_committee_period (slot_epoch slot (vc_slots_per_epoch vc))
                         (vc_epochs_per_sync_committee_period vc);
              Ok (existsb (is_validator_in_sync_committee dp period) indices)
         else Ok false);
      if (in_sync_committee : bool) then Ok (Some spe)
      else Ok (Some (N.min spe (2 * validator_index_count)))
  | Role.Proposer | Role.SyncCommittee => Ok None
  | Role.ProposerPreferences => Ok (Some spe)
  end.

Definition validate_duty_count vc dp (slot : Slot) (os : OperatorState) : result unit :=
  limit ← duty_limit vc dp slot;
  match limit with
  | None => Ok tt
  | Some limit =>
      if negb (is_first_message_for_duty os slot) then Ok tt
      else
        let epoch := slot_epoch slot (vc_slots_per_epoch vc) in
        let duty_count := get_duty_count os epoch (vc_slots_per_epoch vc) in
        ensure (duty_count <? limit)%N (VF_ExcessiveDutyCount duty_count limit (vc_role vc))
  end.

(** [stored_slot_count]: the length of the ring for a role. *)
Definition stored_slot_count (role : Role) (spe : positive) (spec : ChainSpec) : nat :=
  N.to_nat match role with
           | Role.ProposerPreferences =>
               (1 + min_seed_lookahead spec) * N.pos spe + 2 * N.pos spe
           | _ => 2 * N.pos spe + LATE_SLOT_ALLOWANCE + 1
           end.

(** ** The acceptance window *)

(** The context of a message received at another time. *)
Definition received_at vc (time : N) : ValidationContext :=
  {| vc_signed := vc_signed vc; vc_role := vc_role vc; vc_committee := vc_committee vc;
     vc_received_at := time; vc_slots_per_epoch := vc_slots_per_epoch vc;
     vc_epochs_per_sync_committee_period := vc_epochs_per_sync_committee_period vc;
     vc_sync_committee_size := vc_sync_committee_size vc; vc_slot_clock := vc_slot_clock vc;
     vc_operator_pub_keys := vc_operator_pub_keys vc; vc_fork_schedule := vc_fork_schedule vc;
     vc_spec := vc_spec vc |}.

(** The clock ticks every [d] nanoseconds from [g], where it answers. *)
Definition regular_clock (clock : SlotClock) (g d : N) : Prop :=
  ∀ s x, start_of clock s = Some x → x = (g + s * d)%N.

Lemma slot_start_time_ok clock g d s x :
  regular_clock clock g d → slot_start_time clock s = Ok x → x = (g + s * d)%N.
Proof.
  intros Hc. unfold slot_start_time. intros (y & Hy%ok_or_ok & Hx)%bind_ok.
  destruct (_ <=? _)%N; simplify_eq. by apply Hc.
Qed.

Lemma validate_slot_time_window vc slot g d :
  regular_clock (vc_slot_clock vc) g d →
  validate_slot_time vc slot = Ok tt →
  (g + earliest_slot vc slot * d
     <= vc_received_at vc + CLOCK_ERROR_TOLERANCE + EARLY_MESSAGE_MARGIN)%N ∧
  (vc_received_at vc <= g + slot_add slot (message_ttl (vc_role vc) (vc_slots_per_epoch vc)) * d
     + LATE_MESSAGE_MARGIN + CLOCK_ERROR_TOLERANCE)%N.
Proof.
  intros Hc. unfold validate_slot_time, message_earliness, message_lateness.
  intros (e & He & H1)%bind_ok. apply bind_ok in He as (x & Hx & [= <-]).
  apply bind_ok in H1 as (? & H1%ensure_ok%N.leb_le & H2).
  apply bind_ok in H2 as (l & Hl & H2%ensure_ok%N.leb_le).
  apply bind_ok in Hl as (y & Hy%map_err_ok & Hl). apply bind_ok in Hl as (? & _ & [= <-]).
  apply (slot_start_time_ok _ g d) in Hx, Hy; [|done..]. subst. lia.
Qed.

Lemma earliest_slot_le vc slot : (earliest_slot vc slot <= slot)%N.
Proof.
  unfold earliest_slot, start_slot, slot_epoch. destruct (vc_role vc); try done.
  set (p := N.pos (vc_slots_per_epoch vc)).
  pose proof (N.Div0.mul_div_le slot p) as Hd. generalize dependent (slot `div` p)%N.
  intros e He. nia.
Qed.

(** C30: the acceptance window.  On a clock that starts slot [s] at [g + s * d], a message
    for [slot] passes the timing rule exactly when it arrives no earlier than 1.05 s before
    the start of its earliest slot (its own slot, or for proposer preferences the start
    of the epoch [min_seed_lookahead] earlier) and no later than 3.05 s after its slots
    to live have passed. *)
Theorem slot_time_window vc slot g d :
  let last := (slot + message_ttl (vc_role vc) (vc_slots_per_epoch vc))%N in
  (∀ s, (s <= last)%N → start_of (vc_slot_clock vc) s = Some (g + s * d)%N) →
  (last <= u64_max)%N → (g + last * d + LATE_MESSAGE_MARGIN <= SYSTEM_TIME_MAX)%N →
  validate_slot_time vc slot = Ok tt ↔
  (g + earliest_slot vc slot * d <= vc_received_at vc + 1050000000)%N ∧
  (vc_received_at vc <= g + last * d + 3050000000)%N.
Proof.
  intros last Hclock Hlast Hmax. unfold validate_slot_time, message_earliness, message_lateness.
  assert (∀ s, (s <= last)%N → slot_start_time (vc_slot_clock vc) s = Ok (g + s * d)%N) as Hst.
  { intros s Hs. unfold slot_start_time. rewrite (Hclock s Hs). cbn.
    assert (s * d <= last * d)%N by (by apply N.mul_le_mono_r).
    destruct (N.leb_spec (g + s * d) SYSTEM_TIME_MAX); [done|lia]. }
  rewrite (Hst (earliest_slot vc slot)) by (etrans; [apply earliest_slot_le|lia]).
  unfold slot_add. fold last. rewrite (N.min_r u64_max last) by done.
  rewrite (Hst last) by done. cbn.
  rewrite (proj2 (N.leb_le _ _) Hmax). cbn. unfold CLOCK_ERROR_TOLERANCE, EARLY_MESSAGE_MARGIN,
    LATE_MESSAGE_MARGIN, secs.
  generalize (g + earliest_slot vc slot * d)%N (g + last * d)%N. intros x y.
  destruct (N.leb_spec (x - vc_received_at vc) (50000000 + 1 * 1000000000)); cbn;
    [|split; [done|lia]].
  destruct (N.leb_spec (vc_received_at vc - (y + 3 * 1000000000)) 50000000); cbn;
    split; try done; lia.
Qed.

(** How far ahead of its earliest arrival slot a message's slot can be. *)
Definition message_lead (role : Role) (spe : positive) (spec : ChainSpec) : N :=
  match role with
  | Role.ProposerPreferences => (1 + min_seed_lookahead spec) * N.pos spe - 1
  | _ => 0
  end.

Lemma earliest_slot_lead vc slot :
  (slot <= u64_max)%N →
  (slot <= earliest_slot vc slot +
     message_lead (vc_role vc) (vc_slots_per_epoch vc) (vc_spec vc))%N.
Proof.
  intros Hs. unfold earliest_slot, message_lead. destruct (vc_role vc); try lia.
  unfold start_slot, slot_epoch. set (p := N.pos (vc_slots_per_epoch vc)).
  set (k := min_seed_lookahead (vc_spec vc)).
  pose proof (N.div_mod slot p ltac:(done)) as Hd. pose proof (N.mod_lt slot p ltac:(done)) as Hm.
  assert (0 < p)%N by done.
  generalize dependent (slot `mod` p)%N. generalize dependent (slot `div` p)%N. intros e m Hd Hm.
  destruct (N.le_gt_cases k e); nia.
Qed.

(** The ring covers lateness, lead and one epoch. *)
Lemma ring_covers role spe spec :
  (1 < spe)%positive →
  (message_ttl role spe + message_lead role spe spec + N.pos spe <
   N.of_nat (stored_slot_count role spe spec))%N.
Proof.
  intros Hs. unfold stored_slot_count. rewrite N2Nat.id.
  unfold message_ttl, message_lead, LATE_SLOT_ALLOWANCE. destruct role; nia.
Qed.

(** A slot accepted no later than another is not much ahead of it. *)
Lemma accepted_near vc g d s t T T' :
  regular_clock (vc_slot_clock vc) g d →
  (2 * CLOCK_ERROR_TOLERANCE + EARLY_MESSAGE_MARGIN + LATE_MESSAGE_MARGIN <= d)%N →
  (t <= u64_max)%N → (T' <= T)%N →
  validate_slot_time (received_at vc T) s = Ok tt →
  validate_slot_time (received_at vc T') t = Ok tt →
  (t <= s + message_ttl (vc_role vc) (vc_slots_per_epoch vc)
        + message_lead (vc_role vc) (vc_slots_per_epoch vc) (vc_spec vc) + 1)%N.
Proof.
  intros Hc Hd Ht HT Hs Ht'.
  apply (validate_slot_time_window (received_at vc T) _ g d Hc) in Hs as [_ Hs].
  apply (validate_slot_time_window (received_at vc T') _ g d Hc) in Ht' as [Ht' _].
  pose proof (earliest_slot_lead vc t Ht) as Hl.
  change (earliest_slot (received_at vc T') t) with (earliest_slot vc t) in Ht'.
  cbn in *. unfold slot_add in Hs.
  set (ttl := message_ttl _ _) in *. set (lead := message_lead _ _ _) in *.
  assert (N.min u64_max (s + ttl) <= s + ttl)%N as Hmin by lia.
  generalize dependent (N.min u64_max (s + ttl))%N. intros z Hs Hz.
  assert (earliest_slot vc t <= z + 1)%N; [|lia].
  unfold CLOCK_ERROR_TOLERANCE, EARLY_MESSAGE_MARGIN, LATE_MESSAGE_MARGIN, secs in *. nia.
Qed.

(** ** Exact duty counts *)

Lemma split_first {A} (P : A → Prop) `{∀ x, Decision (P x)} (l : list A) :
  ∃ l1 l2, l = l1 ++ l2 ∧ Forall (λ x, ¬ P x) l1 ∧ (l2 = [] ∨ ∃ x l3, l2 = x :: l3 ∧ P x).
Proof.
  induction l as [|x l (l1 & l2 & -> & H1 & H2)]; [by exists [], []; auto|].
  destruct (decide (P x)).
  - exists [], (x :: l1 ++ l2). split; [done|]. split; [constructor|eauto].
  - exists (x :: l1), l2. auto.
Qed.

Lemma same_epoch_near t s spe :
  slot_epoch t spe = slot_epoch s spe → (t <= s + (N.pos spe - 1))%N.
Proof.
  unfold slot_epoch. intros He.
  pose proof (N.div_mod t (N.pos spe) ltac:(done)) as Ht.
  pose proof (N.mod_lt t (N.pos spe) ltac:(done)) as Hm.
  pose proof (N.div_mod s (N.pos spe) ltac:(done)) as Hs. rewrite He in Ht.
  generalize dependent (s `mod` N.pos spe)%N. generalize dependent (t `mod` N.pos spe)%N.
  generalize dependent (s `div` N.pos spe)%N. intros e _ m Ht Hm m' Hs. lia.
Qed.

Lemma during_sorted (h1 h3 : list (N * DutyEvent)) p0 p :
  StronglySorted N.le (h1 ++ p0 :: h3).*1 → p ∈ p0 :: h3 → (p0.1 <= p.1)%N.
Proof.
  rewrite fmap_app. intros Hs Hp. apply StronglySorted_app in Hs as (_ & _ & Hs).
  cbn in Hs. apply StronglySorted_inv in Hs as [_ Hall].
  apply elem_of_cons in Hp as [->|Hp]; [done|]. rewrite Forall_forall in Hall.
  apply Hall. by apply list_elem_of_fmap_2.
Qed.

(** Messages of one operator and identifier, with their arrival times, all of them
    accepted by the timing rule. *)
Record accepted_history vc (hist : list (N * DutyEvent)) : Prop := {
  ah_sorted : StronglySorted N.le hist.*1;
  ah_accepted : ∀ T ev, (T, ev) ∈ hist →
    validate_slot_time (received_at vc T) (event_slot ev) = Ok tt ∧ (event_slot ev <= u64_max)%N;
}.

(** duty counts are exact.  Take any history of messages of an operator that the
    timing rule accepted when they arrived, and a message for slot [s] it accepts now.
    Then what [get_duty_count] reads off a ring of [stored_slot_count] entries is the
    number of distinct slots of the epoch of [s] for which a message was recorded: no
    duty of that epoch was evicted.  Assumes a clock with slots no shorter than the
    timing margins and epochs of at least two slots. *)
Theorem duty_count_exact_when_accepted vc g d hist s T :
  regular_clock (vc_slot_clock vc) g d →
  (2 * CLOCK_ERROR_TOLERANCE + EARLY_MESSAGE_MARGIN + LATE_MESSAGE_MARGIN <= d)%N →
  (1 < vc_slots_per_epoch vc)%positive → (s <= u64_max)%N →
  accepted_history vc hist → Forall (λ p, p.1 <= T)%N hist →
  validate_slot_time (received_at vc T) s = Ok tt →
  let spe := vc_slots_per_epoch vc in
  let ring := operator_state_new (stored_slot_count (vc_role vc) spe (vc_spec vc)) in
  get_duty_count (foldl (apply_event sha256) ring hist.*2) (slot_epoch s spe) spe =
  N.of_nat (size (list_to_set (filter (λ t, slot_epoch t spe = slot_epoch s spe)
                                 (event_slot <$> hist.*2)) : gset Slot)).
Proof.
  intros Hc Hd Hspe Hs [Hsort Hacc] HT Hnow spe ring.
  pose proof (ring_covers (vc_role vc) spe (vc_spec vc) Hspe) as Hcov.
  set (e := slot_epoch s spe).
  destruct (split_first (λ p : N * DutyEvent, slot_epoch (event_slot p.2) spe = e) hist)
    as (h1 & h2 & -> & Hh1 & Hh2).
  rewrite !fmap_app, filter_app.
  assert (filter (λ t : N, slot_epoch t spe = e) (event_slot <$> h1.*2) = []) as ->.
  { clear -Hh1. induction Hh1 as [|p h1 Hp Hh1 IH]; [done|]. cbn [fmap list_fmap].
    rewrite filter_cons_False by done. exact IH. }
  unfold ring, slot_epoch in *. rewrite duty_count_exact; [done|lia| |].
  { intros ev (p & -> & Hp)%list_elem_of_fmap. rewrite Forall_forall in Hh1. by apply Hh1. }
  intros ev t (p & -> & Hp)%list_elem_of_fmap Ht.
  destruct Hh2 as [->|([T0 ev0] & h3 & -> & He0)]; [set_solver|]. cbn in He0.
  destruct p as [T1 ev]. cbn [snd] in *.
  assert (T0 <= T1)%N as HT01
    by exact (during_sorted h1 h3 (T0, ev0) (T1, ev) Hsort Hp).
  assert (T1 <= T)%N as HT1 by (rewrite Forall_forall in HT; apply (HT (T1, ev)); set_solver).
  destruct (Hacc T0 ev0) as [Ha0 Hb0]; [set_solver|].
  destruct (Hacc T1 ev) as [Ha1 Hb1]; [set_solver|].
  pose proof (accepted_near vc g d _ _ _ _ Hc Hd Hb0 HT01 Ha1 Ha0).
  pose proof (accepted_near vc g d _ _ _ _ Hc Hd Hb1 HT1 Hnow Ha1).
  pose proof (same_epoch_near t (event_slot ev0) spe (eq_trans Ht (eq_sym He0))).
  pose proof (same_epoch_near s t spe (eq_sym Ht)). unfold spe in *. clear Ht He0. clearbody e. lia.
Qed.
End rules.

(** ** On a concrete committee *)

Module SampleRules.
(** Signatures are the signed bytes under a key that is the operator's id. *)
#[export] Instance sample_crypto : Crypto :=
  {| PubKey := N; rsa_verify := λ pk m sig, bool_decide (sig = to_le_bytes 1 pk ++ m);
     ssv_as_ssz := λ m, msg_id m ++ ssv_data m; sha256 := λ bs, bs;
     pk_deserialize := λ bs, Some bs |}.

Definition sample_spec : ChainSpec :=
  {| min_seed_lookahead := 1; gloas_fork_epoch := None; gloas_enabled_at := λ _, false |}.

(** Twelve-second slots. *)
Definition sample_clock (now : option Slot) : SlotClock :=
  {| start_of := λ s, Some (s * secs 12)%N; clock_now := now |}.

Definition sample_message_id : MessageId :=
  message_id_new [x00; x00; x00; x01] Role.Committee (ExecCommittee (replicate 32 x07)).

Definition sample_signed (data : bytes) (ids : list OperatorId) : SignedSSVMessage :=
  let ssv := {| msg_type := SSVConsensusMsgType; msg_id := sample_message_id; ssv_data := data |} in
  {| signatures := (λ id, to_le_bytes 1 id ++ ssv_as_ssz ssv) <$> ids; operator_ids := ids;
     ssv_message := ssv; full_data := [] |}.

Definition sample_context (signed : SignedSSVMessage) (time : N) : ValidationContext :=
  {| vc_signed := signed; vc_role := Role.Committee;
     vc_committee := {| committee_members := [1; 2; 3; 4]%N; validator_indices := [7; 8]%N |};
     vc_received_at := time; vc_slots_per_epoch := 32;
     vc_epochs_per_sync_committee_period := 256; vc_sync_committee_size := 512;
     vc_slot_clock := sample_clock (Some 0%N);
     vc_operator_pub_keys := list_to_map ((λ i, (i, i)) <$> [1; 2; 3; 4]%N);
     vc_fork_schedule := sample_schedule; vc_spec := sample_spec |}.

Definition sample_partial (slot : Slot) : PartialSignatureMessages :=
  {| kind := PartialSignatureKind.PostConsensus; psm_slot := slot; messages := [] |}.

(** Slots 10, 33 and 10 again, then slot 40 of epoch 1. *)
Definition sample_history : list (N * DutyEvent) :=
  [(secs 121, EvPartial (sample_partial 10)); (secs 396, EvPartial (sample_partial 33));
   (secs 400, EvPartial (sample_partial 10))].

Lemma duty_count_exact_when_accepted_witness :
  get_duty_count (foldl (apply_event sha256) (operator_state_new 67) sample_history.*2) 1 32 = 1%N.
Proof.
  refine (eq_trans (duty_count_exact_when_accepted (sample_context (sample_signed [] []) 0)
            0 (secs 12) sample_history 40 (secs 481) _ _ _ _ _ _ _) _).
  - intros s x. cbn. by intros [= <-].
  - by vm_compute.
  - by vm_compute.
  - by vm_compute.
  - split.
    + repeat constructor; by vm_compute.
    + intros T ev Hin. unfold sample_history in Hin. rewrite !elem_of_cons, elem_of_nil in Hin.
      destruct Hin as [[= -> ->]|[[= -> ->]|[[= -> ->]|[]]]]; (split; [by vm_compute|by vm_compute]).
  - repeat constructor; by vm_compute.
  - by vm_compute.
  - by vm_compute.
Defined.

Lemma slot_time_window_witness :
  validate_slot_time (sample_context (sample_signed [] []) (secs 484)) 40 = Ok tt ↔
  (0 + 40 * secs 12 <= secs 484 + 1050000000)%N ∧ (secs 484 <= 0 + 74 * secs 12 + 3050000000)%N.
Proof.
  apply (slot_time_window (sample_context (sample_signed [] []) (secs 484)) 40 0 (secs 12)).
  - intros s _. by cbn.
  - by vm_compute.
  - by vm_compute.
Defined.
End SampleRules.
