(* ===== verification/RoundTimeout.v ===== *)
(** * Round timeouts

    [anchor/qbft_manager/src/timeout.rs]: when a round of a consensus instance times out,
    either at a cumulative deadline from a fixed origin or relative to the round's start.
    Instants and durations are nanoseconds. *)

From S2P Require Import Prelude SsvTypes ValidatorRules.

Definition QUICK_TIMEOUT_THRESHOLD : N := 8.
(** In seconds. *)
Definition QUICK_TIMEOUT : N := 2.
Definition SLOW_TIMEOUT : N := 120.
Definition PROPOSER_ROUND_TIMEOUT : N := 1500000000.
Definition LEGACY_PROPOSER_ROUND_TIMEOUT : N := secs 2.

(** [Duration::MAX] and the last [Instant] (signed 64-bit seconds). *)
Definition DURATION_MAX : N := secs u64_max + 999999999.
Definition INSTANT_MAX : N := secs (2 ^ 63 - 1) + 999999999.

Definition checked_mul64 (a b : N) : option N := if (a * b <=? u64_max)%N then Some (a * b)%N else None.
Definition checked_sub64 (a b : N) : option N := if (b <=? a)%N then Some (a - b)%N else None.
Definition checked_add_to (max a b : N) : option N :=
  if (a + b <=? max)%N then Some (a + b)%N else None.

(** [TimeoutMode] ([qbft_manager/src/lib.rs]). *)
Inductive TimeoutMode :=
  | SlotTime (round_deadline_origin : N)
  | Relative (current_round_start_time round_timeout : N).

Definition cumulative_timeout (round : N) : option N :=
  if (round <=? QUICK_TIMEOUT_THRESHOLD)%N
  then secs <$> checked_mul64 round QUICK_TIMEOUT
  else
    let quick_portion := secs (QUICK_TIMEOUT_THRESHOLD * QUICK_TIMEOUT) in
    slow_rounds ← checked_sub64 round QUICK_TIMEOUT_THRESHOLD;
    slow_portion ← secs <$> checked_mul64 slow_rounds SLOW_TIMEOUT;
    checked_add_to DURATION_MAX quick_portion slow_portion.

Definition single_round_timeout (round round_timeout : N) : N :=
  if (round <=? QUICK_TIMEOUT_THRESHOLD)%N then round_timeout else secs SLOW_TIMEOUT.

Definition calculate_round_timeout (round : N) (mode : TimeoutMode) : option N :=
  match mode with
  | SlotTime origin =>
      total ← cumulative_timeout round;
      checked_add_to INSTANT_MAX origin total
  | Relative start round_timeout =>
      checked_add_to INSTANT_MAX start (single_round_timeout round round_timeout)
  end.

(** The sum of the timeouts of rounds 1 to [n], each of the relative mode. *)
Fixpoint sum_of_rounds (n : nat) : N :=
  match n with
  | O => 0
  | S n => sum_of_rounds n + single_round_timeout (N.of_nat (S n)) (secs QUICK_TIMEOUT)
  end.

Lemma sum_of_rounds_closed n :
  sum_of_rounds n =
    (if N.of_nat n <=? 8 then secs (N.of_nat n * 2) else secs (16 + (N.of_nat n - 8) * 120))%N.
Proof.
  induction n as [|n IH]; [done|]. cbn [sum_of_rounds]. rewrite IH.
  unfold single_round_timeout, QUICK_TIMEOUT_THRESHOLD, QUICK_TIMEOUT, SLOW_TIMEOUT, secs.
  destruct (N.leb_spec (N.of_nat n) 8), (N.leb_spec (N.of_nat (S n)) 8); lia.
Qed.

(** Rounds whose cumulative timeout is representable. *)
Definition round_fits (n : N) : Prop := (16 + n * 120 <= u64_max)%N.

Lemma cumulative_timeout_closed n :
  round_fits n →
  cumulative_timeout n =
    Some (if n <=? 8 then secs (n * 2) else secs (16 + (n - 8) * 120))%N.
Proof.
  unfold round_fits, cumulative_timeout, checked_mul64, checked_sub64, checked_add_to,
    QUICK_TIMEOUT_THRESHOLD, QUICK_TIMEOUT, SLOW_TIMEOUT, DURATION_MAX.
  intros Hf. destruct (N.leb_spec n 8).
  - destruct (N.leb_spec (n * 2) u64_max); [done|lia].
  - destruct (N.leb_spec 8 n); [cbn [mbind option_bind]|lia].
    destruct (N.leb_spec ((n - 8) * 120) u64_max); [|lia]. cbn [fmap option_fmap option_map mbind option_bind].
    unfold secs in *. destruct (N.leb_spec (8 * 2 * 1000000000 + (n - 8) * 120 * 1000000000)
                                 (u64_max * 1000000000 + 999999999)); [|lia].
    f_equal. lia.
Qed.

(** the cumulative deadline of round [n] is the sum of the timeouts its first [n]
    rounds have one by one, so that an instance timed from a fixed origin and one timed
    round by round (with two-second quick rounds) keep the same schedule. *)
Theorem cumulative_timeout_is_sum n :
  round_fits (N.of_nat n) → cumulative_timeout (N.of_nat n) = Some (sum_of_rounds n).
Proof. intros Hf. by rewrite cumulative_timeout_closed, sum_of_rounds_closed. Qed.

Lemma cumulative_timeout_is_sum_witness : cumulative_timeout 12 = Some (sum_of_rounds 12).
Proof. apply (cumulative_timeout_is_sum 12). by vm_compute. Defined.
