(* ===== verification/ConsensusValidation.v ===== *)
(** * Validation of consensus messages

    [anchor/message_validator/src/consensus_message.rs], every function of it.  Checks that
    touch the duty state are [action]s on it.  The theorems connect the validator with the
    consensus instances it protects: a message it accepts meets the assumptions under
    which [QbftSafety.v] proves agreement, its leader is the instance's leader, its round
    estimate follows the round timer, and its per-round message counters never overflow. *)

From S2P Require Import Prelude SsvTypes Messages QbftTypes QbftInv ForkSchedule.
From S2P Require Import ValidationTypes DutyState ValidatorRules RoundTimeout Sample.

Section consensus.
Context {C : Crypto} {Codec : SszCodec}.
Implicit Types (vc : ValidationContext) (dp : DutiesProvider) (m : QbftMessage).
Abbreviation result A := (outcome ValidationFailure A).
Abbreviation dstate A := (action DutyState ValidationFailure A).

(** ** Justifications *)

(** [validate_justification_list]; [inner] is what to do with the payload of each
    justification when [check_inner_justifications] is set. *)
Definition validate_justification_list (keys : gmap OperatorId PubKey)
    (inner : option (QbftMessage → result unit)) (justifications : list bytes) : result unit :=
  try_for_each (λ bs,
    signed ← ok_or (signed_from_ssz bs) VF_MalformedJustifications;
    _ ← verify_message_signatures signed keys;
    match inner with
    | Some check =>
        m ← ok_or (qbft_from_ssz (ssv_data (ssv_message signed))) VF_MalformedJustifications;
        check m
    | None => Ok tt
    end) justifications.

Definition validate_justifications_with (keys : gmap OperatorId PubKey)
    (inner : option (QbftMessage → result unit)) m : result unit :=
  _ ← ensure (bool_decide (prepare_justification m = [])
              || bool_decide (qbft_message_type m = Proposal))
        VF_UnexpectedPrepareJustifications;
  _ ← ensure (bool_decide (round_change_justification m = [])
              || bool_decide (qbft_message_type m = Proposal)
              || bool_decide (qbft_message_type m = RoundChange))
        VF_UnexpectedRoundChangeJustifications;
  _ ← validate_justification_list keys inner (prepare_justification m);
  validate_justification_list keys inner (round_change_justification m).

(** [validate_justifications]: the recursion with the flag set is one level deep. *)
Definition validate_justifications (keys : gmap OperatorId PubKey)
    (check_inner_justifications : bool) m : result unit :=
  validate_justifications_with keys
    (if check_inner_justifications then Some (validate_justifications_with keys None) else None) m.

(** ** Semantics *)

(** The signer-count rules. *)
Definition validate_signer_count (signers : nat) (required_quorum : nat) m : result unit :=
  if decide (1 < signers)
  then
    _ ← ensure (bool_decide (qbft_message_type m = Commit))
          (VF_NonDecidedWithMultipleSigners signers 1);
    ensure (bool_decide (required_quorum ≤ signers))
      (VF_DecidedNotEnoughSigners signers required_quorum)
  else Ok tt.

(** The full-data rules. *)
Definition validate_full_data (signed : SignedSSVMessage) m : result unit :=
  if decide (full_data signed = []) then Ok tt
  else
    _ ← ensure (negb (bool_decide (qbft_message_type m = Prepare)
                      || bool_decide (qbft_message_type m = Commit)
                         && bool_decide (length (operator_ids signed) = 1)))
          VF_PrepareOrCommitWithFullData;
    ensure (hash_data (full_data signed) =? root m)%N VF_InvalidHash.

Definition validate_consensus_message_semantics (signed : SignedSSVMessage) m
    (committee_info : CommitteeInfo) (keys : gmap OperatorId PubKey) : result unit :=
  let id := msg_id (ssv_message signed) in
  let required_quorum := quorum_size (length (committee_members committee_info)) in
  _ ← validate_signer_count (length (operator_ids signed)) required_quorum m;
  _ ← validate_full_data signed m;
  _ ← ensure (negb (round m =? 0)%N) VF_ZeroRound;
  _ ← match message_id_role id with
      | Some role => ensure (Role.is_qbft_role role) VF_UnexpectedConsensusMessage
      | None => Ok tt
      end;
  role ← expect (message_id_role id);
  max_round ← ok_or (Role.max_round role) VF_UnexpectedConsensusMessage;
  _ ← ensure (round m <=? max_round)%N VF_RoundTooHigh;
  _ ← ensure (bool_decide (identifier m = id)) VF_MismatchedIdentifier;
  validate_justifications keys true m.

(** ** QBFT logic *)

(** Subtraction on [u64] in release builds. *)
Definition wsub64 (a b : N) : N := wrap64 (a + 2 ^ 64 - b).

Definition round_robin_proposer (ht : N) (r : Round) (committee : list OperatorId)
    (slots_per_epoch : positive) (schedule : ForkSchedule) : result OperatorId :=
  if decide (committee = []) then Err VF_NonExistentCommitteeID
  else
    let committee := merge_sort N.le committee in
    let n := len committee in
    let first_round_index := (ht `mod` n)%N in
    let epoch := (ht `div` N.pos slots_per_epoch)%N in
    fork ← expect (active_fork schedule epoch);
    let eth_epoch := if fork_le Boole fork then epoch else 0%N in
    let index :=
      (wrap64 (wsub64 (wrap64 (first_round_index + round_get r)) FIRST_ROUND + eth_epoch)
         `mod` n)%N in
    expect (committee !! N.to_nat index).

Definition MAX_ALLOWED_ROUNDS_FUTURE : N := 3.
Definition QUICK_TIMEOUT_THRESHOLD : N := 8.
Definition QUICK_TIMEOUT : N := secs 2.
Definition SLOW_TIMEOUT : N := secs 120.

(** [Duration::as_secs] *)
Definition as_secs (duration : N) : N := duration `div` secs 1.

Definition current_estimated_round (since_slot_start : N) : result Round :=
  let delta_quick := (as_secs since_slot_start `div` as_secs QUICK_TIMEOUT)%N in
  let current_quick_round := (FIRST_ROUND + delta_quick)%N in
  if (current_quick_round <=? QUICK_TIMEOUT_THRESHOLD)%N then round_from current_quick_round
  else
    let time_in_quick_phase := (QUICK_TIMEOUT * QUICK_TIMEOUT_THRESHOLD)%N in
    let since_first_slow_round := (since_slot_start - time_in_quick_phase)%N in
    let delta_slow := (as_secs since_first_slow_round `div` as_secs SLOW_TIMEOUT)%N in
    round_from (QUICK_TIMEOUT_THRESHOLD + FIRST_ROUND + delta_slow).

Definition validate_round_in_allowed_spread vc m : result unit :=
  slot_start ← slot_start_time (vc_slot_clock vc) (height m);
  estimated_round ← (if (slot_start <? vc_received_at vc)%N
                     then current_estimated_round (vc_received_at vc - slot_start)
                     else round_from FIRST_ROUND);
  highest_allowed ← ok_or (round_add estimated_round MAX_ALLOWED_ROUNDS_FUTURE) VF_RoundOverflow;
  ensure (negb ((round m <? FIRST_ROUND)%N || (round_get highest_allowed <? round m)%N))
    VF_EstimatedRoundNotInAllowedSpread.

(** The leader rule for proposals. *)
Definition validate_proposal_leader vc m : result unit :=
  if decide (qbft_message_type m = Proposal)
  then
    signer ← ok_or (head (operator_ids (vc_signed vc))) VF_NoSigners;
    r ← round_from (round m);
    leader ← round_robin_proposer (height m) r (committee_members (vc_committee vc))
               (vc_slots_per_epoch vc) (vc_fork_schedule vc);
    ensure (signer =? leader)%N (VF_SignerNotLeader signer leader)
  else Ok tt.

(** The rules for one signer that has a state for the slot. *)
Definition validate_signer_state vc m (s : SignerState) : result unit :=
  let signed := vc_signed vc in
  let signers := operator_ids signed in
  if decide (length signers = 1)
  then
    _ ← ensure (ss_round s <=? round m)%N (VF_RoundAlreadyAdvanced (round m) (ss_round s));
    if (round m =? ss_round s)%N
    then
      _ ← ensure (negb (bool_decide (full_data signed ≠ []) &&
                        match proposal_hash s with
                        | Some hash => negb (hash =? root m)%N
                        | None => false
                        end)) VF_DifferentProposalData;
      validate_consensus_message_limits (message_counts s) signed (qbft_message_type m)
    else Ok tt
  else if decide (1 < length signers)
  then ensure (negb (has_seen_signers sha256 s signers)) VF_DecidedWithSameSigners
  else Ok tt.

Definition validate_qbft_logic vc m : dstate unit :=
  let signers := operator_ids (vc_signed vc) in
  _ ← lift (validate_proposal_leader vc m);
  _ ← for_each (λ signer,
        os ← get_or_create_operator signer;
        match get_signer_state os (height m) with
        | None => mret tt
        | Some s => lift (validate_signer_state vc m s)
        end) signers;
  if decide (length signers = 1)
  then lift (validate_round_in_allowed_spread vc m)
  else mret tt.

(** ** Duty logic *)

Definition validate_qbft_message_by_duty_logic vc dp m : dstate unit :=
  let signers := operator_ids (vc_signed vc) in
  _ ← (if Role.is_committee_role (vc_role vc) then mret tt
       else for_each (λ signer,
              os ← get_or_create_operator signer;
              lift (ensure (os_max_slot os <=? height m)%N
                      (VF_SlotAlreadyAdvanced (height m) (os_max_slot os)))) signers);
  _ ← lift (validate_beacon_duty vc dp (height m) false);
  _ ← lift (validate_slot_time vc (height m));
  for_each (λ signer,
    os ← get_or_create_operator signer;
    lift (validate_duty_count vc dp (height m) os)) signers.

(** [validate_consensus_message] *)
Definition validate_consensus_message vc dp : dstate QbftMessage :=
  let signed := vc_signed vc in
  m ← lift (ok_or (qbft_from_ssz (ssv_data (ssv_message signed))) VF_UndecodableMessageData);
  _ ← lift (validate_role_for_fork vc (height m));
  _ ← lift (validate_consensus_message_semantics signed m (vc_committee vc)
              (vc_operator_pub_keys vc));
  _ ← validate_qbft_logic vc m;
  _ ← validate_qbft_message_by_duty_logic vc dp m;
  _ ← lift (verify_message_signatures signed (vc_operator_pub_keys vc));
  _ ← modify (update_for_consensus_message sha256 signed m);
  mret m.

(** ** What an accepted message guarantees *)

Section accepted.
(** [S o ssv]: operator [o] signed [ssv].  A signature that verifies under an operator's
    key was made by that operator on that message. *)
Context (S : OperatorId → SSVMessage → Prop) (keys : gmap OperatorId PubKey).
Hypothesis unforgeable : ∀ o pk ssv sig,
  keys !! o = Some pk → rsa_verify pk (ssv_as_ssz ssv) sig = true → S o ssv.

Lemma verify_message_signatures_ok signed u :
  verify_message_signatures signed keys = Ok u →
  ∀ o, o ∈ operator_ids signed → S o (ssv_message signed).
Proof.
  unfold verify_message_signatures. intros (pks & Hpks%try_map_ok & H)%bind_ok.
  apply bind_ok in H as (? & Hlen%ensure_ok & H). split_and_hyps.
  apply try_for_each_ok in H. rewrite Forall_forall in H.
  intros o [i Hi]%list_elem_of_lookup.
  destruct (Forall2_lookup_l _ _ _ _ _ Hpks Hi) as (pk & Hpk & Hk%ok_or_ok).
  destruct (lookup_lt_is_Some_2 (signatures signed) i) as [sig Hsig].
  { rewrite Hlen. by eapply lookup_lt_Some. }
  assert ((sig, pk) ∈ zip (signatures signed) pks) as Hz.
  { apply list_elem_of_lookup. exists i. by apply lookup_zip_Some. }
  specialize (H _ Hz). apply ensure_ok in H. by eapply unforgeable.
Qed.

Lemma validate_justification_list_ok inner l u b sm :
  validate_justification_list keys inner l = Ok u → b ∈ l → signed_from_ssz b = Some sm →
  (∀ o, o ∈ operator_ids sm → S o (ssv_message sm)) ∧
  ∀ check m, inner = Some check → qbft_from_ssz (ssv_data (ssv_message sm)) = Some m →
    check m = Ok tt.
Proof.
  unfold validate_justification_list. rewrite try_for_each_ok, Forall_forall. intros Hall Hb Hsm.
  specialize (Hall b Hb). apply bind_ok in Hall as (sm' & Hs%ok_or_ok & H). simplify_eq.
  apply bind_ok in H as (? & Hv & H).
  split; [by eapply verify_message_signatures_ok|]. intros check m -> Hm.
  apply bind_ok in H as (m' & Hm'%ok_or_ok & H). by simplify_eq.
Qed.

Lemma validate_justifications_with_ok inner m u b sm :
  validate_justifications_with keys inner m = Ok u → b ∈ justification_bytes m →
  signed_from_ssz b = Some sm →
  (∀ o, o ∈ operator_ids sm → S o (ssv_message sm)) ∧
  ∀ check m', inner = Some check → qbft_from_ssz (ssv_data (ssv_message sm)) = Some m' →
    check m' = Ok tt.
Proof.
  unfold validate_justifications_with. intros (? & _ & H)%bind_ok.
  apply bind_ok in H as (? & _ & H). apply bind_ok in H as (? & Hp & Hr).
  intros [Hb|Hb]%elem_of_app Hsm.
  - exact (validate_justification_list_ok _ _ _ _ _ Hr Hb Hsm).
  - exact (validate_justification_list_ok _ _ _ _ _ Hp Hb Hsm).
Qed.

(** The justifications of a message, and theirs, carry the identifier [id]. *)
Definition nested_identifiers (id : MessageId) m : Prop :=
  ∀ b sm, b ∈ justification_bytes m → signed_from_ssz b = Some sm →
    msg_id (ssv_message sm) = id ∧
    ∀ m' b' sm', qbft_from_ssz (ssv_data (ssv_message sm)) = Some m' →
      b' ∈ justification_bytes m' → signed_from_ssz b' = Some sm' →
      msg_id (ssv_message sm') = id.

Lemma validate_justifications_authentic id m u :
  validate_justifications keys true m = Ok u → nested_identifiers id m →
  ∀ b sm, b ∈ justification_bytes m → signed_from_ssz b = Some sm →
    authentic id S sm ∧
    ∀ m' b' sm', qbft_from_ssz (ssv_data (ssv_message sm)) = Some m' →
      b' ∈ justification_bytes m' → signed_from_ssz b' = Some sm' → authentic id S sm'.
Proof.
  unfold validate_justifications. intros Hv Hid b sm Hb Hsm.
  destruct (Hid b sm Hb Hsm) as [Hi Hin].
  destruct (validate_justifications_with_ok _ _ _ _ _ Hv Hb Hsm) as [Hs Hchk].
  split; [by split|]. intros m' b' sm' Hm' Hb' Hsm'.
  specialize (Hchk _ m' eq_refl Hm').
  destruct (validate_justifications_with_ok _ _ _ _ _ Hchk Hb' Hsm') as [Hs' _].
  split; [by eapply Hin|done].
Qed.
End accepted.

(** What [validate_consensus_message_semantics] establishes. *)
Record semantics_ok (signed : SignedSSVMessage) m (info : CommitteeInfo)
    (keys : gmap OperatorId PubKey) : Prop := {
  sem_multi : 1 < length (operator_ids signed) →
    qbft_message_type m = Commit ∧
    quorum_size (length (committee_members info)) ≤ length (operator_ids signed);
  sem_hash : full_data signed ≠ [] → hash_data (full_data signed) = root m;
  sem_round : ∃ role limit, message_id_role (msg_id (ssv_message signed)) = Some role ∧
    Role.max_round role = Some limit ∧ (1 <= round m <= limit)%N;
  sem_identifier : identifier m = msg_id (ssv_message signed);
  sem_justifications : validate_justifications keys true m = Ok tt;
}.

Lemma validate_consensus_message_semantics_ok signed m info keys u :
  validate_consensus_message_semantics signed m info keys = Ok u →
  semantics_ok signed m info keys.
Proof.
  unfold validate_consensus_message_semantics. intros (? & H1 & H)%bind_ok.
  apply bind_ok in H as (? & H2 & H). apply bind_ok in H as (? & H3%ensure_ok & H).
  apply bind_ok in H as (? & _ & H). apply bind_ok in H as (role & Hrole & H).
  apply bind_ok in H as (limit & Hlim%ok_or_ok & H).
  apply bind_ok in H as (? & H4%ensure_ok%N.leb_le & H).
  apply bind_ok in H as ([] & H5%ensure_ok & H6). split_and_hyps.
  destruct u. split; try done.
  - intros Hm. unfold validate_signer_count in H1. rewrite decide_True in H1 by done.
    apply bind_ok in H1 as (? & Hc%ensure_ok & Hq%ensure_ok). by split_and_hyps.
  - intros Hf. unfold validate_full_data in H2. rewrite decide_False in H2 by done.
    apply bind_ok in H2 as (? & _ & Hh%ensure_ok%N.eqb_eq). done.
  - destruct (message_id_role _) as [r|] eqn:Er; simplify_eq/=.
    exists role, limit. apply N.eqb_neq in H3. split_and!; [done..|lia|done].
Qed.

(** ** The duty state under validation *)

(** Validation creates empty operator entries, which read the same. *)
Record same_ops (ds ds' : DutyState) : Prop := {
  so_stored : stored_slots ds' = stored_slots ds;
  so_ops : ∀ o, operator_or_new ds' o = operator_or_new ds o;
}.

#[local] Instance same_ops_preorder : PreOrder same_ops.
Proof. split; [done|]. intros ds1 ds2 ds3 [] []. split; [congruence|]. intros o. congruence. Qed.

Lemma set_operator_same ds signer : same_ops ds (set_operator signer (operator_or_new ds signer) ds).
Proof.
  split; [done|]. intros o. unfold operator_or_new at 1. cbn.
  rewrite lookup_insert. by case_decide; subst.
Qed.

Lemma get_or_create_same {E} signer ds (Q : outcome E OperatorState → DutyState → Prop) :
  (∀ ds', same_ops ds ds' → Q (Ok (operator_or_new ds signer)) ds') →
  wp (get_or_create_operator signer) Q ds.
Proof. intros HQ. apply HQ, set_operator_same. Qed.

Lemma same_ops_duty_ok ds ds' : same_ops ds ds' → duty_ok ds → duty_ok ds'.
Proof.
  intros [Hs Ho] Hds. split; [|rewrite Hs; apply Hds]. intros o os Hos.
  pose proof (operator_or_new_ok ds o Hds) as [Hr Hl]. rewrite <- Ho in Hr, Hl.
  unfold operator_or_new in Hr, Hl. rewrite Hos in Hr, Hl. cbn in *. split; [done|congruence].
Qed.

(** [validate_qbft_logic] leaves the duty state alone and, when it succeeds, has checked
    every signer that has a state for the slot. *)
Lemma validate_qbft_logic_wp vc m ds :
  wp (validate_qbft_logic vc m) (λ o ds', same_ops ds ds' ∧ (o = Ok tt →
    ∀ signer s, signer ∈ operator_ids (vc_signed vc) →
      get_signer_state (operator_or_new ds signer) (height m) = Some s →
      validate_signer_state vc m s = Ok tt)) ds.
Proof.
  unfold validate_qbft_logic. wp_step. wp_step. wp_step; [|done..].
  wp_step. eapply wp_mono.
  { apply (wp_for_each same_ops (λ signer ds, ∀ s,
      get_signer_state (operator_or_new ds signer) (height m) = Some s →
      validate_signer_state vc m s = Ok tt)); [apply _| |].
    - intros x s s' [_ Ho]. by rewrite Ho.
    - intros x s. wp_step. apply get_or_create_same. intros ds' Hds'.
      destruct (get_signer_state (operator_or_new s x) (height m)) as [st|] eqn:E.
      + wp_step. split; [done|]. intros Hok st' [= <-]. done.
      + wp_step. done. }
  intros [[]|e|] ds' [Hs Hl]; [|done..]. wp_step; wp_step; (split; [done|]); eauto.
Qed.

Lemma duty_logic_same vc dp m ds :
  wp (validate_qbft_message_by_duty_logic vc dp m) (λ _ ds', same_ops ds ds') ds.
Proof.
  assert (∀ (f : OperatorId → OperatorState → result unit) l ds,
    wp (for_each (λ signer, os ← get_or_create_operator signer; lift (f signer os)) l)
      (λ _ ds', same_ops ds ds') ds) as Hloop.
  { intros f l ds0. eapply wp_mono.
    - apply (wp_for_each same_ops (λ _ _, True)); [apply _|done|].
      intros x s. wp_step. apply get_or_create_same. intros ds' Hds'. by wp_step.
    - by intros o s' [? _]. }
  unfold validate_qbft_message_by_duty_logic. wp_step.
  eapply (wp_mono _ (λ _ ds', same_ops ds ds')).
  { destruct (Role.is_committee_role _); [by wp_step|]. apply Hloop. }
  intros [[]|e|] ds1 H1; [|done..].
  wp_step. wp_step. wp_step; [|done..]. wp_step. wp_step. wp_step; [|done..].
  eapply wp_mono; [apply Hloop|]. intros o ds2 H2. cbn in H2. by etrans.
Qed.

Lemma update_for_consensus_message_ok vc m ds :
  duty_ok ds →
  (1 < length (operator_ids (vc_signed vc)) → qbft_message_type m = Commit) →
  (∀ signer s, signer ∈ operator_ids (vc_signed vc) →
     get_signer_state (operator_or_new ds signer) (height m) = Some s →
     validate_signer_state vc m s = Ok tt) →
  duty_ok (update_for_consensus_message sha256 (vc_signed vc) m ds).
Proof.
  intros Hds Hty Hst. unfold update_for_consensus_message.
  assert (∀ o ds', o ∈ operator_ids (vc_signed vc) → duty_ok ds' →
    (length (operator_ids (vc_signed vc)) = 1 → ds' = ds) →
    duty_ok (set_operator o (operator_update sha256 (vc_signed vc) m (height m)
                               (operator_or_new ds' o)) ds')) as Hone.
  { intros o ds' Ho Hds' Heq. destruct (operator_or_new_ok ds' o Hds') as [Hr Hl].
    apply set_operator_ok; [done| |].
    - apply operator_update_ok; [done|].
      assert (∀ s, length (operator_ids (vc_signed vc)) = 1 →
                get_signer_state (operator_or_new ds' o) (height m) = Some s →
                validate_signer_state vc m s = Ok tt) as Hv
        by (intros s H1; rewrite (Heq H1); by apply Hst).
      split.
      + intros Hne. apply Hty. destruct (operator_ids (vc_signed vc)) as [|? []]; [set_solver|done|].
        cbn. lia.
      + intros s H1 Hs. specialize (Hv s H1 Hs). unfold validate_signer_state in Hv.
        rewrite decide_True in Hv by done. by apply bind_ok in Hv as (? & ?%ensure_ok%N.leb_le & _).
      + intros s H1 Hs Hrd. specialize (Hv s H1 Hs). unfold validate_signer_state in Hv.
        rewrite decide_True in Hv by done. apply bind_ok in Hv as (? & _ & Hv).
        rewrite Hrd, N.eqb_refl in Hv. by apply bind_ok in Hv as (? & _ & Hv).
    - by rewrite (touches_length _ _ _ (operator_update_touches _ _ _ _ _)). }
  destruct (operator_ids (vc_signed vc)) as [|o [|o' l]] eqn:Hids; cbn [foldl]; [done| |].
  - apply Hone; [left|done|done].
  - assert (∀ l' ds', (∀ x, x ∈ l' → x ∈ o :: o' :: l) → duty_ok ds' →
      duty_ok (foldl (λ ds signer, set_operator signer
        (operator_update sha256 (vc_signed vc) m (height m) (operator_or_new ds signer)) ds) ds' l'))
      as Hfold.
    { intros l'. induction l' as [|x l' IH]; intros ds' Hin Hds'; cbn [foldl]; [done|].
      apply IH; [intros y Hy; apply Hin; by right|]. apply Hone; [apply Hin; left|done|done]. }
    apply (Hfold (o :: o' :: l) ds); [done|done].
Qed.

(** Everything about one run of [validate_consensus_message]. *)
Lemma validate_consensus_message_wp vc dp ds :
  wp (validate_consensus_message vc dp) (λ o ds', (duty_ok ds → duty_ok ds') ∧
    ∀ m, o = Ok m →
      qbft_from_ssz (ssv_data (ssv_message (vc_signed vc))) = Some m ∧
      semantics_ok (vc_signed vc) m (vc_committee vc) (vc_operator_pub_keys vc) ∧
      verify_message_signatures (vc_signed vc) (vc_operator_pub_keys vc) = Ok tt ∧
      (∀ signer s, signer ∈ operator_ids (vc_signed vc) →
         get_signer_state (operator_or_new ds signer) (height m) = Some s →
         validate_signer_state vc m s = Ok tt) ∧
      ∃ ds0, same_ops ds ds0 ∧ ds' = update_for_consensus_message sha256 (vc_signed vc) m ds0) ds.
Proof.
  unfold validate_consensus_message. wp_step. wp_step. wp_step; [|done..].
  rename a into m. match goal with E : ok_or _ _ = _ |- _ => apply ok_or_ok in E end.
  wp_step. wp_step. wp_step; [|done..]. wp_step. wp_step. wp_step; [|done..].
  match goal with E : validate_consensus_message_semantics _ _ _ _ = _ |- _ =>
    apply validate_consensus_message_semantics_ok in E as Hsem end.
  wp_step. eapply wp_mono; [apply validate_qbft_logic_wp|].
  intros [[]|e|] ds1 [H1 Hst]; [|split; [by apply same_ops_duty_ok|done]..].
  wp_step. eapply wp_mono; [apply duty_logic_same|].
  intros o ds2 H2. assert (same_ops ds ds2) as H12 by by etrans.
  destruct o as [[]|e|]; [|split; [by apply same_ops_duty_ok|done]..].
  wp_step. wp_step. wp_step; [|split; [by apply same_ops_duty_ok|done]..].
  wp_step. wp_step. wp_step. destruct a1. split; [|intros m' [= <-]; eauto 10].
  intros Hds. apply update_for_consensus_message_ok.
  - by eapply same_ops_duty_ok.
  - intros Hl. by apply (sem_multi _ _ _ _ Hsem).
  - intros signer s Hin Hs. eapply Hst; [done|done|]. by rewrite <- (so_ops _ _ H12).
Qed.

Lemma leader_index_reduced (h rd sh n : N) :
  (1 <= rd)%N → (rd + h + sh + n <= u64_max)%N → (0 < n)%N →
  ((rd - 1 + h + sh) `mod` n =
   wrap64 (wsub64 (wrap64 (h `mod` n + rd)) FIRST_ROUND + sh) `mod` n)%N.
Proof.
  intros H1 Hb Hn. pose proof (N.mod_lt h n ltac:(lia)) as Hm.
  replace (rd - 1 + h + sh)%N with (h + (rd - 1 + sh))%N by lia.
  rewrite <- N.Div0.add_mod_idemp_l. generalize dependent (h `mod` n)%N. intros x Hx.
  unfold wsub64, FIRST_ROUND. unfold u64_max in *. rewrite (wrap64_small (x + rd)) by lia.
  replace (x + rd + 2 ^ 64 - 1)%N with ((x + rd - 1) + 1 * 2 ^ 64)%N by lia.
  unfold wrap64 at 2. rewrite N.Div0.mod_add, (N.mod_small (x + rd - 1)) by lia.
  rewrite wrap64_small by lia. f_equal. lia.
Qed.

(** The validator delivers what the consensus instances assume.  If signatures are
    unforgeable and [validate_consensus_message] accepts a message, then the message is
    [checked] in the sense of the instance invariant (the payload is what was signed,
    only commits have several signers, and the message, its justifications and theirs
    were really signed by their signers), for a positive round within the role's limit;
    a message with several signers has a quorum of them.  The identifiers of the
    justifications, which the code does not compare with the message's, are a
    hypothesis. *)
Lemma validated_message_checked vc dp ds ds' m (S : OperatorId → SSVMessage → Prop) :
  let id := msg_id (ssv_message (vc_signed vc)) in
  (∀ o pk ssv sig, vc_operator_pub_keys vc !! o = Some pk →
     rsa_verify pk (ssv_as_ssz ssv) sig = true → S o ssv) →
  nested_identifiers id m →
  validate_consensus_message vc dp ds = (Ok m, ds') →
  checked id S {| signed_message := vc_signed vc; qbft_message := m |} ∧
  identifier m = id ∧ (1 <= round m)%N ∧
  (1 < length (operator_ids (vc_signed vc)) →
     quorum_size (length (committee_members (vc_committee vc)))
       ≤ length (operator_ids (vc_signed vc))).
Proof.
  intros id Hunf Hnest Hv. pose proof (validate_consensus_message_wp vc dp ds) as Hwp.
  unfold wp in Hwp. rewrite Hv in Hwp. destruct Hwp as [_ Hwp].
  destruct (Hwp m eq_refl) as (Hdec & [Hm Hh (role & limit & _ & _ & Hr) Hid Hj] & Hsig & _).
  split; [|split_and!; [done|lia|by apply Hm]].
  split; cbn.
  - done.
  - intros Hl. by apply Hm.
  - split; [done|]. by eapply verify_message_signatures_ok.
  - by eapply validate_justifications_authentic.
Qed.

(** the validator and the instance agree on the leader.  For a non-empty committee
    and a schedule with an active fork, the operator [round_robin_proposer] expects is
    exactly the one the instance's leader function accepts, when the instance shifts by
    the epoch from the Boole fork on, as the manager configures it. *)
Theorem round_robin_proposer_is_leader ht r committee spe schedule fork :
  committee ≠ [] → active_fork schedule (ht `div` N.pos spe) = Some fork →
  (round_get r + ht + ht `div` N.pos spe + len committee <= u64_max)%N →
  ∃ leader, round_robin_proposer ht r committee spe schedule = Ok leader ∧
    ∀ op, leader_function {| slots_per_epoch := spe; include_epoch_shift := fork_le Boole fork |}
            op r ht committee = Some (bool_decide (op = leader)).
Proof.
  intros Hne Hfork Hb. set (f := {| slots_per_epoch := spe |}).
  destruct (leader_of_some f r ht committee Hne) as (l & Hl & _).
  assert (merge_sort N.le committee ≠ []) as Hs by (by rewrite merge_sort_nil_iff).
  assert (leader_index f r ht (len (merge_sort N.le committee)) =
    (wrap64 (wsub64 (wrap64 (ht `mod` len (merge_sort N.le committee) + round_get r)) FIRST_ROUND
       + (if fork_le Boole fork then ht `div` N.pos spe else 0))
     `mod` len (merge_sort N.le committee))%N) as Hidx.
  { rewrite leader_index_no_overflow.
    2:{ unfold epoch_shift, f. cbn [include_epoch_shift slots_per_epoch].
        set (e := (ht `div` N.pos spe)%N) in *. clearbody e.
        destruct (fork_le Boole fork); lia. }
    change (epoch_shift f ht) with (if fork_le Boole fork then ht `div` N.pos spe else 0)%N.
    unfold len in *. rewrite length_merge_sort.
    set (sh := (if fork_le Boole fork then ht `div` N.pos spe else 0)%N).
    assert (sh <= ht `div` N.pos spe)%N as Hsh by (unfold sh; destruct (fork_le _ _); [done|apply N.le_0_l]).
    clearbody sh.
    apply leader_index_reduced; [unfold round_get; lia| |].
    - set (e := (ht `div` N.pos spe)%N) in *. clearbody e. lia.
    - destruct committee; [done|]. cbn. lia. }
  exists l. split.
  - unfold round_robin_proposer. rewrite decide_False by done. rewrite Hfork. cbn [expect mbind outcome_bind].
    unfold leader_of in Hl. rewrite Hidx in Hl. by rewrite Hl.
  - intros op. unfold leader_function, default_leader_function. rewrite decide_False by done.
    unfold leader_of in Hl. by rewrite Hl.
Qed.

Lemma round_from_pos n :
  (1 <= n)%N → ∃ r, @round_from ValidationFailure n = Ok r ∧ round_get r = n.
Proof. destruct n as [|p]; [lia|]. by exists p. Qed.

Lemma div_bounds x a b :
  (0 < a)%N → (0 < b)%N →
  ((x `div` a) `div` b * (a * b) <= x < ((x `div` a) `div` b + 1) * (a * b))%N.
Proof.
  intros Ha Hb. rewrite N.Div0.div_div.
  pose proof (N.Div0.mul_div_le x (a * b)) as H1.
  pose proof (N.mul_succ_div_gt x (a * b) ltac:(lia)) as H2.
  generalize dependent (x `div` (a * b))%N. intros y H1 H2. lia.
Qed.

(** the round estimate inverts the timer.  The round [current_estimated_round] gives
    for a time since the slot start is the one whose cumulative window contains that time:
    it is at least the deadline of the previous round and before its own deadline. *)
Theorem estimated_round_in_window since :
  (as_secs since + 1096 <= u64_max)%N →
  ∃ r lo hi, current_estimated_round since = Ok r ∧
    cumulative_timeout (round_get r - 1) = Some lo ∧ cumulative_timeout (round_get r) = Some hi ∧
    (lo <= since < hi)%N.
Proof.
  intros Hb. unfold current_estimated_round, as_secs, QUICK_TIMEOUT, SLOW_TIMEOUT, FIRST_ROUND,
    QUICK_TIMEOUT_THRESHOLD in *.
  change (secs 2 `div` secs 1)%N with 2%N. change (secs 120 `div` secs 1)%N with 120%N.
  unfold secs in *. change (1 * 1000000000)%N with 1000000000%N in *.
  change (2 * 1000000000 * 8)%N with 16000000000%N.
  destruct (N.leb_spec (1 + (since `div` 1000000000) `div` 2) 8) as [Hq|Hs].
  - pose proof (div_bounds since 1000000000 2 ltac:(done) ltac:(done)) as Hd.
    generalize dependent ((since `div` 1000000000) `div` 2)%N. intros k Hk Hd.
    destruct (round_from_pos (1 + k)) as (r & -> & Hr); [lia|].
    eexists r, _, _. rewrite Hr. rewrite !cumulative_timeout_closed.
    2,3: unfold round_fits, u64_max; lia.
    split_and!; [done..| |];
      destruct (N.leb_spec (1 + k - 1) 8), (N.leb_spec (1 + k) 8); unfold secs; lia.
  - pose proof (div_bounds since 1000000000 2 ltac:(done) ltac:(done)) as Hd0.
    pose proof (div_bounds (since - 16000000000) 1000000000 120 ltac:(done) ltac:(done)) as Hd.
    pose proof (N.Div0.mul_div_le since 1000000000) as Hd1.
    pose proof (N.mul_succ_div_gt since 1000000000 ltac:(done)) as Hd2.
    generalize dependent (((since - 16000000000) `div` 1000000000) `div` 120)%N.
    generalize dependent ((since `div` 1000000000) `div` 2)%N.
    generalize dependent (since `div` 1000000000)%N. intros s Hb Hd1 Hd2 k0 Hs Hd0 k Hd.
    destruct (round_from_pos (8 + 1 + k)) as (r & -> & Hr); [lia|].
    eexists r, _, _. rewrite Hr. rewrite !cumulative_timeout_closed.
    2,3: unfold round_fits; lia.
    split_and!; [done..| |];
      destruct (N.leb_spec (8 + 1 + k - 1) 8), (N.leb_spec (8 + 1 + k) 8); unfold secs; lia.
Qed.
End consensus.

(** ** An accepted message *)

Module SampleConsensus.
Import SampleRules.
#[export] Existing Instance sample_codec.

Definition sample_prepare : QbftMessage :=
  {| qbft_message_type := Prepare; height := 40; round := 1; identifier := sample_message_id;
     root := 7; data_round := 0; round_change_justification := []; prepare_justification := [] |}.

(** Operator 2's prepare, received four seconds into its slot. *)
Definition prepare_context : ValidationContext :=
  sample_context (sample_signed (bits_encode sample_prepare) [2%N]) (secs 484).

Definition sample_duties : DutiesProvider :=
  {| is_validator_in_sync_committee := λ _ _, false; is_epoch_known_for_proposers := λ _, true;
     is_validator_proposer_at_slot := λ _ _, false; get_voluntary_exit_duty_count := λ _ _, 0%N;
     proposer_assignment_at_slot := λ _ _, Unknown;
     local_proposer_assignment_at_slot := λ _ _, false; ptc_assignment_at_slot := λ _ _, Unknown |}.

Definition prepare_state : DutyState :=
  (validate_consensus_message prepare_context sample_duties (duty_state_new 67)).2.

Lemma prepare_accepted :
  validate_consensus_message prepare_context sample_duties (duty_state_new 67) =
    (Ok sample_prepare, prepare_state).
Proof. by vm_compute. Qed.

(** A duty state that has seen it rejects it the second time. *)
Lemma prepare_duplicate :
  (validate_consensus_message prepare_context sample_duties prepare_state).1 =
    Err VF_DuplicatedMessage.
Proof. by vm_compute. Qed.

Lemma validated_message_checked_witness :
  checked sample_message_id
    (λ o ssv, ∃ sig : bytes, bool_decide (sig = to_le_bytes 1 o ++ ssv_as_ssz ssv) = true)
    {| signed_message := vc_signed prepare_context; qbft_message := sample_prepare |}.
Proof.
  refine (proj1 (validated_message_checked prepare_context sample_duties (duty_state_new 67)
                   prepare_state sample_prepare _ _ _ prepare_accepted)).
  - intros o pk ssv sig Hk Hv. assert (pk = o) as ->; [|by exists sig].
    apply elem_of_list_to_map_2 in Hk. apply list_elem_of_fmap in Hk as (i & [= -> ->] & _). done.
  - intros b sm Hb. by apply elem_of_nil in Hb.
Defined.

Lemma round_robin_proposer_is_leader_witness :
  ∃ leader, round_robin_proposer 40 1 [1; 2; 3; 4]%N 32 sample_schedule = Ok leader ∧
    ∀ op, leader_function {| slots_per_epoch := 32; include_epoch_shift := fork_le Boole Alan |}
            op 1 40 [1; 2; 3; 4]%N = Some (bool_decide (op = leader)).
Proof.
  apply round_robin_proposer_is_leader.
  - done.
  - by vm_compute.
  - by vm_compute.
Defined.

Lemma estimated_round_in_window_witness :
  ∃ r lo hi, current_estimated_round (secs 140) = Ok r ∧
    cumulative_timeout (round_get r - 1) = Some lo ∧ cumulative_timeout (round_get r) = Some hi ∧
    (lo <= secs 140 < hi)%N.
Proof. apply estimated_round_in_window. by vm_compute. Defined.
End SampleConsensus.
