(* ===== verification/PartialValidation.v ===== *)
(** * Validation of partial-signature messages

    [anchor/message_validator/src/partial_signature.rs], every function of it. *)

From S2P Require Import Prelude SsvTypes Messages ForkSchedule ValidationTypes DutyState.
From S2P Require Import ValidatorRules ConsensusValidation Sample.

(** [MAX_SYNC_COMMITTEE_POSITIONS] and [SYNC_COMMITTEE_SUBNET_COUNT]. *)
Definition MAX_SIGNATURES_IN_SYNC_COMMITTEE : N := 13.
Definition SYNC_COMMITTEE_SUBNET_COUNT : N := 4.

Definition partial_signature_type_matches_role (k : PartialSignatureKind) (role : Role) : bool :=
  let has k' := bool_decide (k = k') in
  match role with
  | Role.Committee => has PartialSignatureKind.PostConsensus
  | Role.PTCAttester => has PartialSignatureKind.PTCAttester
  | Role.ProposerPreferences =>
      has PartialSignatureKind.ProposerPreferences || has PartialSignatureKind.RequestAuth
  | Role.Aggregator =>
      has PartialSignatureKind.PostConsensus || has PartialSignatureKind.SelectionProofPartialSig
  | Role.Proposer =>
      has PartialSignatureKind.PostConsensus || has PartialSignatureKind.RandaoPartialSig
  | Role.SyncCommittee =>
      has PartialSignatureKind.PostConsensus || has PartialSignatureKind.ContributionProofs
  | Role.ValidatorRegistration => has PartialSignatureKind.ValidatorRegistration
  | Role.VoluntaryExit => has PartialSignatureKind.VoluntaryExit
  | Role.AggregatorCommittee =>
      has PartialSignatureKind.PostConsensus || has PartialSignatureKind.AggregatorCommitteePartialSig
  end.

Definition is_request_auth_batch_role_kind (role : Role) (k : PartialSignatureKind) : bool :=
  bool_decide (role = Role.ProposerPreferences) && bool_decide (k = PartialSignatureKind.RequestAuth).

Section partial.
Context {C : Crypto} {Codec : SszCodec}.
Implicit Types (vc : ValidationContext) (dp : DutiesProvider) (m : PartialSignatureMessages).
Abbreviation result A := (outcome ValidationFailure A).
Abbreviation dstate A := (action DutyState ValidationFailure A).

Definition is_gloas_proposer_post vc m : bool :=
  bool_decide (vc_role vc = Role.Proposer)
  && bool_decide (kind m = PartialSignatureKind.PostConsensus)
  && gloas_enabled_at (vc_spec vc) (slot_epoch (psm_slot m) (vc_slots_per_epoch vc)).

Definition failure_of_psm_error (e : PartialSignatureMessagesError) : ValidationFailure :=
  match e with
  | PsmEmpty => VF_NoPartialSignatureMessages
  | PsmInconsistentSigners => VF_InconsistentSigners
  | PsmZeroSigner => VF_ZeroSigner
  end.

(** [messages.iter().any(|m| m.validator_index != messages[0].validator_index)] *)
Definition inconsistent_indices m : bool :=
  match messages m with
  | [] => false
  | first :: _ =>
      existsb (λ x, negb (validator_index x =? validator_index first)%N) (messages m)
  end.

Definition validate_partial_signature_message_semantics vc m : result OperatorId :=
  let role := vc_role vc in
  let known := validator_indices (vc_committee vc) in
  match operator_ids (vc_signed vc) with
  | [signer] =>
      _ ← ensure (bool_decide (full_data (vc_signed vc) = [])) VF_FullDataNotInConsensusMessage;
      _ ← ensure (partial_signature_type_matches_role (kind m) role)
            VF_PartialSignatureTypeRoleMismatch;
      inner_signer ← map_err failure_of_psm_error (partial_signature_messages_validate m);
      _ ← ensure (inner_signer =? signer)%N VF_InconsistentSigners;
      let same_validator :=
        is_request_auth_batch_role_kind role (kind m) || is_gloas_proposer_post vc m in
      _ ← ensure (negb (same_validator && inconsistent_indices m)) VF_InconsistentValidatorIndices;
      _ ← try_for_each (λ x,
            ensure (negb (negb (Role.is_committee_role role)
                          && negb (bool_decide (known = []))
                          && bool_decide (validator_index x ∉ known))) VF_ValidatorIndexMismatch)
            (messages m);
      Ok signer
  | _ => Err VF_PartialSigOneSigner
  end.

(** The loop that bounds how often a validator index occurs. *)
Fixpoint check_index_occurrences (limit : nat) (counts : gmap ValidatorIndex nat)
    (l : list PartialSignatureMessage) : result unit :=
  match l with
  | [] => Ok tt
  | x :: l =>
      let count := S (default 0 (counts !! validator_index x)) in
      if decide (limit < count)
      then Err (VF_TooManyValidatorIndexOccurrences (validator_index x) count limit)
      else check_index_occurrences limit (<[validator_index x := count]> counts) l
  end.

(** The largest packet a role admits, and how often one validator may occur in it. *)
Definition message_limit vc m : N :=
  let validator_count := len (validator_indices (vc_committee vc)) in
  let sync_committee_size := N.of_nat (vc_sync_committee_size vc) in
  match vc_role vc with
  | Role.Committee => N.min (2 * validator_count) (validator_count + sync_committee_size)
  | Role.SyncCommittee => MAX_SIGNATURES_IN_SYNC_COMMITTEE
  | Role.AggregatorCommittee =>
      N.min (5 * validator_count)
        (validator_count + SYNC_COMMITTEE_SUBNET_COUNT * sync_committee_size)
  | Role.ProposerPreferences =>
      if is_request_auth_batch_role_kind (vc_role vc) (kind m)
      then N.of_nat MAX_REQUEST_AUTH_DISTINCT_ROOTS else 1
  | Role.Proposer => if is_gloas_proposer_post vc m then 2 else 1
  | Role.Aggregator | Role.ValidatorRegistration | Role.VoluntaryExit | Role.PTCAttester => 1
  end.

Definition validate_message_counts vc m : result unit :=
  let message_count := len (messages m) in
  let limit := message_limit vc m in
  _ ← ensure (message_count <=? limit)%N (VF_TooManyPartialSignatureMessages message_count limit);
  match vc_role vc with
  | Role.Committee => check_index_occurrences 2 ∅ (messages m)
  | Role.AggregatorCommittee => check_index_occurrences 5 ∅ (messages m)
  | _ => Ok tt
  end.

(** The checks of [validate_partial_sig_messages_by_duty_logic] on the signer's state. *)
Definition validate_partial_sig_for_operator vc dp m (os : OperatorState) : result unit :=
  let slot := psm_slot m in
  _ ← (if Role.monotonic_slot_role (vc_role vc)
       then ensure (negb (negb (os_max_slot os =? 0)%N && (slot <? os_max_slot os)%N))
              (VF_SlotAlreadyAdvanced slot (os_max_slot os))
       else Ok tt);
  _ ← validate_beacon_duty vc dp slot
        (bool_decide (kind m = PartialSignatureKind.RandaoPartialSig));
  _ ← match get_signer_state os slot with
      | Some s => validate_partial_signature_limits (message_counts s) m
      | None => Ok tt
      end;
  _ ← validate_slot_time vc slot;
  _ ← validate_duty_count vc dp slot os;
  validate_message_counts vc m.

Definition validate_partial_sig_messages_by_duty_logic vc dp m : dstate unit :=
  signer ← lift (ok_or (head (operator_ids (vc_signed vc))) VF_NoSigners);
  os ← get_or_create_operator signer;
  lift (validate_partial_sig_for_operator vc dp m os).

(** Whether registrations are retired: the current slot is past the Gloas epoch. *)
Definition registration_retired vc : bool :=
  bool_decide (vc_role vc = Role.ValidatorRegistration) &&
  match gloas_fork_epoch (vc_spec vc), clock_now (vc_slot_clock vc) with
  | Some gloas_epoch, Some current_slot =>
      (gloas_epoch <? slot_epoch current_slot (vc_slots_per_epoch vc))%N
  | _, _ => false
  end.

Definition validate_partial_signature_message vc dp : dstate PartialSignatureMessages :=
  m ← lift (ok_or (psm_from_ssz (ssv_data (ssv_message (vc_signed vc)))) VF_UndecodableMessageData);
  _ ← lift (validate_role_for_fork vc (psm_slot m));
  signer ← lift (validate_partial_signature_message_semantics vc m);
  _ ← lift (ensure (negb (registration_retired vc)) VF_ValidatorRegistrationRetired);
  _ ← validate_partial_sig_messages_by_duty_logic vc dp m;
  _ ← lift (verify_single_signer vc signer);
  signer ← lift (ok_or (head (operator_ids (vc_signed vc))) VF_NoSigners);
  _ ← update_for_partial_signature m signer;
  mret m.

(** ** What an accepted packet guarantees *)

(** How often a validator occurs in a packet. *)
Definition occurrences (v : ValidatorIndex) (l : list PartialSignatureMessage) : nat :=
  length (filter (λ x, validator_index x = v) l).

Lemma occurrences_cons v x l :
  occurrences v (x :: l) = (if decide (validator_index x = v) then 1 else 0) + occurrences v l.
Proof. unfold occurrences. rewrite filter_cons. by case_decide. Qed.

Lemma check_index_occurrences_ok limit counts l u :
  check_index_occurrences limit counts l = Ok u →
  ∀ v, v ∈ validator_index <$> l → default 0 (counts !! v) + occurrences v l ≤ limit.
Proof.
  revert counts. induction l as [|x l IH]; intros counts; cbn [check_index_occurrences fmap list_fmap].
  { intros _ v Hv. by apply elem_of_nil in Hv. }
  case_decide as Hl; [done|]. intros Hok v Hv. rewrite occurrences_cons.
  specialize (IH _ Hok v). rewrite lookup_insert in IH.
  destruct (decide (validator_index x = v)) as [<-|Hne].
  - destruct (decide (validator_index x ∈ validator_index <$> l)) as [Hin|Hout].
    + specialize (IH Hin). cbn in IH. lia.
    + assert (occurrences (validator_index x) l = 0) as ->; [|lia].
      unfold occurrences. apply length_zero_iff_nil.
      destruct (filter _ l) as [|y k] eqn:E; [done|].
      assert (y ∈ filter (λ z, validator_index z = validator_index x) l) as Hy by (rewrite E; left).
      apply list_elem_of_filter in Hy as [He Hy]. destruct Hout. rewrite <- He.
      by apply list_elem_of_fmap_2.
  - apply elem_of_cons in Hv as [->|Hv]; [done|]. by apply IH.
Qed.

(** The occurrence limit of a role. *)
Definition occurrence_limit (role : Role) : option nat :=
  match role with
  | Role.Committee => Some 2
  | Role.AggregatorCommittee => Some 5
  | _ => None
  end.

Record packet_ok vc m : Prop := {
  pk_signer : ∃ signer pk sig, operator_ids (vc_signed vc) = [signer] ∧ signer ≠ 0%N ∧
    Forall (λ x, psm_signer x = signer) (messages m) ∧ messages m ≠ [] ∧
    vc_operator_pub_keys vc !! signer = Some pk ∧ head (signatures (vc_signed vc)) = Some sig ∧
    rsa_verify pk (ssv_as_ssz (ssv_message (vc_signed vc))) sig = true;
  pk_kind : partial_signature_type_matches_role (kind m) (vc_role vc) = true;
  pk_size : (len (messages m) <= message_limit vc m)%N;
  pk_occurrences : ∀ limit v, occurrence_limit (vc_role vc) = Some limit →
    occurrences v (messages m) ≤ limit;
  pk_time : validate_slot_time vc (psm_slot m) = Ok tt;
}.

Lemma validate_message_counts_ok vc m u :
  validate_message_counts vc m = Ok u →
  (len (messages m) <= message_limit vc m)%N ∧
  ∀ limit v, occurrence_limit (vc_role vc) = Some limit → occurrences v (messages m) ≤ limit.
Proof.
  unfold validate_message_counts. intros (? & H1%ensure_ok%N.leb_le & H2)%bind_ok.
  split; [done|]. intros limit v Hlim.
  assert (check_index_occurrences limit ∅ (messages m) = Ok u) as Hc.
  { destruct (vc_role vc); simplify_eq/=; done. }
  destruct (decide (v ∈ validator_index <$> messages m)) as [Hv|Hv].
  - pose proof (check_index_occurrences_ok _ _ _ _ Hc v Hv) as Ho.
    rewrite lookup_empty in Ho. done.
  - unfold occurrences. destruct (filter _ (messages m)) as [|y k] eqn:E; [cbn; lia|].
    assert (y ∈ filter (λ z, validator_index z = v) (messages m)) as Hy by (rewrite E; left).
    apply list_elem_of_filter in Hy as [<- Hy]. destruct Hv. by apply list_elem_of_fmap_2.
Qed.

Lemma validate_semantics_ok vc m signer :
  validate_partial_signature_message_semantics vc m = Ok signer →
  operator_ids (vc_signed vc) = [signer] ∧
  partial_signature_type_matches_role (kind m) (vc_role vc) = true ∧
  messages m ≠ [] ∧ signer ≠ 0%N ∧ Forall (λ x, psm_signer x = signer) (messages m).
Proof.
  unfold validate_partial_signature_message_semantics.
  destruct (operator_ids (vc_signed vc)) as [|o [|]]; try done.
  intros (? & _ & H)%bind_ok. apply bind_ok in H as (? & H1%ensure_ok & H).
  apply bind_ok in H as (s & Hs%map_err_ok & H). apply bind_ok in H as (? & He%ensure_ok%N.eqb_eq & H).
  apply bind_ok in H as (? & _ & H). apply bind_ok in H as (? & _ & [= <-]). subst s.
  apply partial_signature_messages_validate_ok in Hs as (? & ? & ?). done.
Qed.

(** One run of [validate_partial_signature_message]. *)
Lemma validate_partial_signature_message_wp vc dp ds :
  wp (validate_partial_signature_message vc dp) (λ o ds', (duty_ok ds → duty_ok ds') ∧
    ∀ m, o = Ok m →
      psm_from_ssz (ssv_data (ssv_message (vc_signed vc))) = Some m ∧ packet_ok vc m ∧
      ∃ signer ds0, operator_ids (vc_signed vc) = [signer] ∧ same_ops ds ds0 ∧
        update_for_partial_signature m signer ds0 = (Ok tt, ds') ∧
        ∀ s, get_signer_state (operator_or_new ds signer) (psm_slot m) = Some s →
          validate_partial_signature_limits (message_counts s) m = Ok tt) ds.
Proof.
  unfold validate_partial_signature_message, validate_partial_sig_messages_by_duty_logic.
  wp_step. wp_step. wp_step; [|done..]. rename a into m.
  match goal with E : ok_or _ _ = _ |- _ => apply ok_or_ok in E end.
  wp_step. wp_step. wp_step; [|done..]. wp_step. wp_step. wp_step; [|done..]. rename a0 into signer.
  match goal with E : validate_partial_signature_message_semantics _ _ = _ |- _ =>
    apply validate_semantics_ok in E as (Hids & Hkind & Hne & Hz & Hall) end.
  wp_step. wp_step; [|done]. rewrite Hids. cbn [head ok_or].
  wp_step. wp_step. wp_step. wp_step. apply get_or_create_same. intros ds1 H1. wp_step.
  assert (duty_ok ds → duty_ok ds1) as Hok1 by (by apply same_ops_duty_ok).
  destruct (validate_partial_sig_for_operator vc dp m (operator_or_new ds signer))
    as [[]|e|] eqn:Hop; [|done..].
  unfold validate_partial_sig_for_operator in Hop. apply bind_ok in Hop as (? & _ & Hop).
  apply bind_ok in Hop as (? & _ & Hop). apply bind_ok in Hop as ([] & Hlim & Hop).
  apply bind_ok in Hop as ([] & Htime & Hop). apply bind_ok in Hop as (? & _ & Hcounts).
  wp_step. wp_step. wp_step; [|done..]. destruct a0.
  match goal with E : verify_single_signer _ _ = _ |- _ =>
    unfold verify_single_signer in E; apply bind_ok in E as (pk & Hpk%ok_or_ok & E);
    apply bind_ok in E as (sig & Hsig%ok_or_ok & Hver%ensure_ok) end.
  wp_step. wp_step. wp_step. unfold update_for_partial_signature, wp.
  pose proof (operator_update_partial_ok m (operator_or_new ds1 signer)) as Hupd.
  pose proof (touches_length _ _ _ (operator_update_partial_touches m (operator_or_new ds1 signer))) as Hlen.
  destruct (operator_update_partial m (operator_or_new ds1 signer)) as [r os'] eqn:Hrun. cbn [fst snd] in *.
  assert (duty_ok ds → duty_ok (set_operator signer os' ds1)) as Hok2.
  { intros Hds. specialize (Hok1 Hds). destruct (operator_or_new_ok ds1 signer Hok1) as [Hr Hl].
    apply set_operator_ok; [done| |congruence]. apply Hupd; [done|].
    intros s Hs. rewrite (so_ops _ _ H1) in Hs. by rewrite Hs in Hlim. }
  destruct r as [[]|e|]; [|done..]. apply wp_ret. split; [done|]. intros m' [= <-].
  split; [done|]. apply validate_message_counts_ok in Hcounts as [Hsz Hocc]. split.
  - split; [|done..]. by exists signer, pk, sig.
  - exists signer, ds1. unfold update_for_partial_signature. rewrite Hrun.
    split_and!; [done..|]. intros s Hs. by rewrite Hs in Hlim.
Qed.

(** an accepted partial-signature packet.  It has exactly one signer, whose
    signature verifies under the key registered for it; every entry names that signer;
    the kind belongs to the role; the packet respects the size limit of its role and, for
    committee roles, no validator occurs more than two (for aggregator committees five)
    times; and it arrived within its acceptance window. *)
Theorem accepted_packet_ok vc dp ds ds' m :
  validate_partial_signature_message vc dp ds = (Ok m, ds') → packet_ok vc m.
Proof.
  intros Hv. pose proof (validate_partial_signature_message_wp vc dp ds) as Hwp.
  unfold wp in Hwp. rewrite Hv in Hwp. by apply Hwp.
Qed.
End partial.

(** ** A concrete run *)
Module SamplePartial.
Import SampleRules SampleConsensus.
#[local] Existing Instance sample_codec.

Definition sample_entry (v : ValidatorIndex) : PartialSignatureMessage :=
  {| partial_signature := replicate 96 x01; signing_root := 9; psm_signer := 2;
     validator_index := v |}.

(** Operator 2's post-consensus signatures for validators 7 and 8 at slot 40. *)
Definition sample_packet : PartialSignatureMessages :=
  {| kind := PartialSignatureKind.PostConsensus; psm_slot := 40;
     messages := [sample_entry 7; sample_entry 8; sample_entry 7] |}.

Definition packet_context : ValidationContext :=
  sample_context (sample_signed (bits_encode sample_packet) [2%N]) (secs 484).

Definition packet_state : DutyState :=
  (validate_partial_signature_message packet_context sample_duties (duty_state_new 67)).2.

Lemma packet_accepted :
  validate_partial_signature_message packet_context sample_duties (duty_state_new 67) =
    (Ok sample_packet, packet_state).
Proof. by vm_compute. Qed.

(** A second post-consensus packet of the same signer and slot is refused. *)
Lemma packet_refused_twice :
  (validate_partial_signature_message packet_context sample_duties packet_state).1 =
    Err VF_InvalidPartialSignatureTypeCount.
Proof. by vm_compute. Qed.

Lemma accepted_packet_ok_witness : packet_ok packet_context sample_packet.
Proof.
  exact (accepted_packet_ok packet_context sample_duties (duty_state_new 67) packet_state
           sample_packet packet_accepted).
Defined.
End SamplePartial.
