(* ===== verification/Subnet.v ===== *)
(** * Subnets and topics

    [anchor/subnet_service/src/subnet.rs], [topic.rs], [routing.rs] and the subnet queries
    of [service.rs]: which of the 128 subnets a committee's messages belong to under each
    fork, and the gossip topic strings that name a subnet.  A topic the router builds
    parses back to the subnet and the fork it was built for, the whitelist is exactly the
    set of such topics, and the subnet of an operator set does not depend on how the set
    is listed. *)

From Stdlib Require Import Ascii.
From S2P Require Import Prelude SsvTypes ForkSchedule ValidatorRules.

(** ** Subnet identifiers *)

Definition SUBNET_COUNT : N := 128.

Inductive SubnetCalculationError :=
  | EmptyOperatorList
  | InvalidSubnetCount
  | SubnetIdOutOfRange.

Abbreviation SubnetId := N (only parsing).

(** [U256::from_be_bytes] *)
Definition from_be_bytes (bs : bytes) : N := from_le_bytes (rev bs).

(** [Ord] on byte arrays: lexicographic. *)
Fixpoint bytes_le (a b : bytes) : bool :=
  match a, b with
  | [], _ => true
  | _ :: _, [] => false
  | x :: a, y :: b =>
      match (Byte.to_N x ?= Byte.to_N y)%N with
      | Lt => true
      | Eq => bytes_le a b
      | Gt => false
      end
  end.

(** [Iterator::min]: the first of the minimal elements. *)
Fixpoint min_bytes (l : list bytes) : option bytes :=
  match l with
  | [] => None
  | x :: l =>
      match min_bytes l with
      | Some y => if bytes_le x y then Some x else Some y
      | None => Some x
      end
  end.

(** [x.try_into::<u64>()] *)
Definition try_into_u64 (n : N) : option N := if (n <=? u64_max)%N then Some n else None.

(** [SubnetId::from_committee_alan]; [None] is the [expect], or the division by a zero
    count. *)
Definition from_committee_alan (committee_id : CommitteeId) (subnet_count : N) : option SubnetId :=
  if (subnet_count =? 0)%N then None
  else try_into_u64 (from_be_bytes committee_id `mod` subnet_count).

Section subnets.
Context (sha256 : bytes → bytes).

(** [SubnetId::from_operators]; the count is a [NonZeroU64]. *)
Definition from_operators (operator_ids : list OperatorId) (subnet_count : N)
    : outcome SubnetCalculationError SubnetId :=
  min_hash ← ok_or (min_bytes ((λ o, sha256 (to_le_bytes 8 o)) <$> operator_ids)) EmptyOperatorList;
  ok_or (try_into_u64 (from_be_bytes min_hash `mod` subnet_count)) SubnetIdOutOfRange.

Definition from_operators_for_fork (operator_ids : list OperatorId) (fork : Fork)
    : outcome SubnetCalculationError SubnetId :=
  let committee_id := committee_id_of_slice sha256 operator_ids in
  match fork with
  | Alan => expect (from_committee_alan committee_id SUBNET_COUNT)
  | Boole => from_operators operator_ids SUBNET_COUNT
  end.
End subnets.

(** ** Topic strings *)

(** Decimal formatting and parsing of a [u64]. *)
Definition digit_char (d : N) : ascii := ascii_of_N (48 + d).

Definition char_digit (c : ascii) : option N :=
  let n := N_of_ascii c in
  if ((48 <=? n) && (n <=? 57))%N then Some (n - 48)%N else None.

(** Twenty digits hold every [u64]. *)
Fixpoint decimal_go (fuel : nat) (n : N) (acc : string) : string :=
  match fuel with
  | O => acc
  | S fuel =>
      let acc := String (digit_char (n `mod` 10)) acc in
      if (n `div` 10 =? 0)%N then acc else decimal_go fuel (n `div` 10) acc
  end.

Definition u64_to_string (n : N) : string := decimal_go 20 n "".

Fixpoint parse_digits (acc : N) (s : string) : option N :=
  match s with
  | EmptyString => Some acc
  | String c s =>
      d ← char_digit c;
      let acc := (acc * 10 + d)%N in
      if (acc <=? u64_max)%N then parse_digits acc s else None
  end.

(** [<u64 as FromStr>::from_str]: one leading plus sign is allowed, leading zeros too. *)
Definition u64_from_str (s : string) : option N :=
  match s with
  | EmptyString => None
  | String c EmptyString => char_digit c
  | String c rest => if decide (c = "+"%char) then parse_digits 0 rest else parse_digits 0 s
  end.

(** [str::strip_prefix] *)
Fixpoint strip_prefix (prefix s : string) : option string :=
  match prefix, s with
  | EmptyString, _ => Some s
  | String a prefix, String b s => if decide (a = b) then strip_prefix prefix s else None
  | String _ _, EmptyString => None
  end.

(** [str::split(c)] *)
Fixpoint split_on (c : ascii) (s : string) : list string :=
  match s with
  | EmptyString => [EmptyString]
  | String a s =>
      if decide (a = c) then EmptyString :: split_on c s
      else match split_on c s with
           | [] => [String a EmptyString]
           | first :: rest => String a first :: rest
           end
  end.

(** [str::to_lowercase] on the ASCII letters; no other character has an ASCII letter of
    a fork name as its lowercase. *)
Definition char_lower (c : ascii) : ascii :=
  let n := N_of_ascii c in
  if ((65 <=? n) && (n <=? 90))%N then ascii_of_N (n + 32) else c.

Fixpoint to_lowercase (s : string) : string :=
  match s with
  | EmptyString => EmptyString
  | String c s => String (char_lower c) (to_lowercase s)
  end.

(** [<Fork as FromStr>::from_str] *)
Definition fork_from_str (s : string) : option Fork :=
  let l := to_lowercase s in
  if decide (l = "alan"%string) then Some Alan
  else if decide (l = "boole"%string) then Some Boole else None.

Definition create_topic (prefix : string) (subnet : SubnetId) : string :=
  prefix +:+ u64_to_string subnet.

Record ParsedTopic := mkParsedTopic {
  pt_subnet_id : SubnetId;
  pt_fork : Fork;
  pt_network : option string;
}.

Definition parse_and_validate_subnet (subnet_num : N) : option SubnetId :=
  if (subnet_num <? SUBNET_COUNT)%N then Some subnet_num else None.

Definition parse_topic_str (s : string) : option ParsedTopic :=
  match strip_prefix "ssv.v2." s with
  | Some suffix =>
      subnet_num ← u64_from_str suffix;
      subnet_id ← parse_and_validate_subnet subnet_num;
      Some (mkParsedTopic subnet_id Alan None)
  | None =>
      match split_on "/" s with
      | [empty; ssv; network; name; subnet_str] =>
          if decide (empty = ""%string ∧ ssv = "ssv"%string) then
            fork ← fork_from_str name;
            if decide (fork = Alan) then None
            else
              subnet_num ← u64_from_str subnet_str;
              subnet_id ← parse_and_validate_subnet subnet_num;
              Some (mkParsedTopic subnet_id fork (Some network))
          else None
      | _ => None
      end
  end.

Definition extract_subnet_id (s : string) : option N := pt_subnet_id <$> parse_topic_str s.

(** [0..n] *)
Definition range (n : N) : list N := N.of_nat <$> seq 0 (N.to_nat n).

(** [whitelist_topic_hashes]; [topic_hash] is [IdentTopic::hash] of libp2p. *)
Definition whitelist_topic_hashes (topic_hash : string → string) (schedule : ForkSchedule)
    : gset string :=
  list_to_set (fork ← all_forks;
    match fs_configs schedule !! fork with
    | None => []
    | Some _ =>
        let prefix := topic_prefix fork (fs_network_name schedule) in
        (λ subnet, topic_hash (create_topic prefix subnet)) <$> range SUBNET_COUNT
    end).

(** ** The router *)

Record TopicRouter := mkTopicRouter {
  tr_fork_schedule : ForkSchedule;
  tr_slots_per_epoch : positive;
}.

Definition active_fork_at_slot (r : TopicRouter) (slot : Slot) : option Fork :=
  active_fork (tr_fork_schedule r) (slot_epoch slot (tr_slots_per_epoch r)).

Definition domain_type_for_epoch (r : TopicRouter) (epoch : Epoch) : option (option DomainType) :=
  fork_domain_type (tr_fork_schedule r) <$> active_fork (tr_fork_schedule r) epoch.

Definition topic_for_subnet_at_epoch (r : TopicRouter) (subnet : SubnetId) (epoch : Epoch)
    : option string :=
  config ← active_fork_config (tr_fork_schedule r) epoch;
  Some (create_topic (topic_prefix (fc_fork config) (fs_network_name (tr_fork_schedule r))) subnet).

Definition topic_for_subnet_at_slot (r : TopicRouter) (subnet : SubnetId) (slot : Slot)
    : option string :=
  topic_for_subnet_at_epoch r subnet (slot_epoch slot (tr_slots_per_epoch r)).

(** [SubnetService::subnet_for_committee_with_operators_at_slot] *)
Definition subnet_for_committee_with_operators_at_slot (sha256 : bytes → bytes)
    (r : TopicRouter) (committee_id : CommitteeId) (operator_ids : list OperatorId)
    (slot : Slot) : outcome SubnetCalculationError SubnetId :=
  fork ← expect (active_fork_at_slot r slot);
  match fork with
  | Alan => expect (from_committee_alan committee_id SUBNET_COUNT)
  | Boole => from_operators sha256 operator_ids SUBNET_COUNT
  end.

(** ** Decimal round trip *)

Lemma char_digit_char d : (d < 10)%N → char_digit (digit_char d) = Some d.
Proof.
  intros Hd. unfold char_digit, digit_char. rewrite N_ascii_embedding by lia.
  destruct (N.leb_spec 48 (48 + d)), (N.leb_spec (48 + d) 57); try lia. cbn. f_equal. lia.
Qed.

Lemma parse_digits_decimal fuel n acc :
  (n < 10 ^ N.of_nat fuel)%N → 0 < fuel → (n <= u64_max)%N →
  parse_digits 0 (decimal_go fuel n acc) = parse_digits n acc.
Proof.
  revert n acc. induction fuel as [|fuel IH]; intros n acc Hn Hf Hm; [lia|].
  assert (∀ a, (a = n `div` 10)%N →
            parse_digits a (String (digit_char (n `mod` 10)) acc) = parse_digits n acc) as Hstep.
  { intros a ->. pose proof (N.mod_lt n 10 ltac:(lia)). pose proof (N.div_mod n 10 ltac:(lia)).
    cbn [parse_digits]. rewrite char_digit_char by done. cbn [mbind option_bind].
    replace (n `div` 10 * 10 + n `mod` 10)%N with n by lia.
    by rewrite (proj2 (N.leb_le _ _) Hm). }
  cbn [decimal_go]. destruct (N.eqb_spec (n `div` 10) 0) as [He|He]; [by apply Hstep|].
  rewrite IH; [by apply Hstep|..].
  - apply N.Div0.div_lt_upper_bound. by rewrite Nat2N.inj_succ, N.pow_succ_r' in Hn.
  - destruct fuel; [|lia]. change (10 ^ N.of_nat 1)%N with 10%N in Hn.
    by rewrite N.div_small in He.
  - pose proof (N.Div0.div_le_upper_bound n 10 n). lia.
Qed.

(** The digits that start a formatted number are never a plus sign. *)
Lemma decimal_go_head fuel n acc :
  0 < fuel → ∃ d rest, (d < 10)%N ∧ decimal_go fuel n acc = String (digit_char d) rest.
Proof.
  revert n acc. induction fuel as [|fuel IH]; intros n acc Hf; [lia|]. cbn [decimal_go].
  pose proof (N.mod_lt n 10 ltac:(lia)).
  destruct (N.eqb_spec (n `div` 10) 0); [eauto|].
  destruct fuel; [cbn; eauto|]. apply IH. lia.
Qed.

Lemma digit_char_not d c : (d < 10)%N → char_digit c = None → digit_char d ≠ c.
Proof. intros Hd Hc <-. by rewrite char_digit_char in Hc. Qed.

Lemma u64_from_to_string n : (n <= u64_max)%N → u64_from_str (u64_to_string n) = Some n.
Proof.
  intros Hn. unfold u64_to_string.
  pose proof (parse_digits_decimal 20 n "" ltac:(unfold u64_max in Hn; lia) ltac:(lia) Hn) as Hp.
  destruct (decimal_go_head 20 n "" ltac:(lia)) as (d & rest & Hd & He). rewrite He in *.
  unfold u64_from_str. destruct rest as [|c rest];
    [|rewrite decide_False by (by apply digit_char_not); exact Hp].
  cbn in Hp |- *. rewrite char_digit_char in * by done. cbn in Hp.
  destruct (_ <=? _)%N; simplify_eq. done.
Qed.

(** ** Splitting *)

Fixpoint string_mem (c : ascii) (s : string) : bool :=
  match s with
  | EmptyString => false
  | String a s => bool_decide (a = c) || string_mem c s
  end.

Lemma string_app_nil (t : string) : ("" +:+ t)%string = t.
Proof. done. Qed.
Lemma string_app_cons a (s t : string) : (String a s +:+ t)%string = String a (s +:+ t).
Proof. done. Qed.

Lemma split_on_app c s t :
  string_mem c s = false → split_on c (s +:+ String c t) = s :: split_on c t.
Proof.
  induction s as [|a s IH]; rewrite ?string_app_nil, ?string_app_cons; cbn [split_on string_mem];
    [intros _; by rewrite decide_True|].
  intros [Ha Hs]%orb_false_iff. apply bool_decide_eq_false in Ha.
  rewrite decide_False by done. by rewrite IH.
Qed.

Lemma split_on_single c s : string_mem c s = false → split_on c s = [s].
Proof.
  induction s as [|a s IH]; cbn [split_on string_mem]; [done|]. intros [Ha Hs]%orb_false_iff.
  apply bool_decide_eq_false in Ha. by rewrite decide_False, IH.
Qed.

Lemma decimal_go_no_char c fuel n acc :
  char_digit c = None → string_mem c acc = false → string_mem c (decimal_go fuel n acc) = false.
Proof.
  intros Hc. revert n acc. induction fuel as [|fuel IH]; intros n acc Ha; cbn [decimal_go]; [done|].
  assert (string_mem c (String (digit_char (n `mod` 10)) acc) = false) as Hs.
  { cbn. rewrite Ha, orb_false_r. apply bool_decide_eq_false, digit_char_not; [|done].
    apply N.mod_lt. lia. }
  destruct (_ =? _)%N; [done|]. by apply IH.
Qed.

Lemma strip_prefix_app p s : strip_prefix p (p +:+ s) = Some s.
Proof.
  induction p as [|a p IH]; rewrite ?string_app_nil, ?string_app_cons; cbn [strip_prefix]; [done|].
  by rewrite decide_True.
Qed.

Lemma string_app_assoc (a b c : string) : ((a +:+ b) +:+ c = a +:+ (b +:+ c))%string.
Proof. induction a as [|x a IH]; [done|]. rewrite !string_app_cons. by f_equal. Qed.

(** ** Topics parse back *)

(** The parsed form of the topic of a subnet under a fork. *)
Definition topic_of (fork : Fork) (network : string) (subnet : SubnetId) : ParsedTopic :=
  mkParsedTopic subnet fork (match fork with Alan => None | _ => Some network end).

Lemma parse_create_topic fork network subnet :
  string_mem "/" network = false → (subnet < SUBNET_COUNT)%N →
  parse_topic_str (create_topic (topic_prefix fork network) subnet) =
    Some (topic_of fork network subnet).
Proof.
  intros Hnet Hsub. assert (subnet <= u64_max)%N as Hu by (unfold SUBNET_COUNT, u64_max in *; lia).
  assert (parse_and_validate_subnet subnet = Some subnet) as Hval.
  { unfold parse_and_validate_subnet. by rewrite (proj2 (N.ltb_lt _ _) Hsub). }
  unfold parse_topic_str, create_topic. destruct fork; cbn [topic_prefix fork_name].
  - unfold ALAN_TOPIC_PREFIX. rewrite strip_prefix_app.
    by rewrite (u64_from_to_string _ Hu); cbn [mbind option_bind]; rewrite Hval.
  - rewrite !string_app_assoc.
    change ("/ssv/" +:+ network +:+ "/" +:+ "boole" +:+ "/" +:+ u64_to_string subnet)%string
      with ("" +:+ String "/" ("ssv" +:+ String "/" (network +:+ String "/"
              ("boole" +:+ String "/" (u64_to_string subnet)))))%string.
    rewrite (split_on_app "/" ""), (split_on_app "/" "ssv"), (split_on_app "/" network),
      (split_on_app "/" "boole"), split_on_single by (done || by apply decimal_go_no_char).
    change (strip_prefix "ssv.v2." _) with (@None string). cbv iota.
    rewrite decide_True by done. change (fork_from_str "boole") with (Some Boole).
    cbn [mbind option_bind]. rewrite decide_False by done.
    by rewrite (u64_from_to_string _ Hu); cbn [mbind option_bind]; rewrite Hval.
Qed.

Lemma elem_of_range x n : x ∈ range n ↔ (x < n)%N.
Proof.
  unfold range. rewrite list_elem_of_fmap. split.
  - intros (k & -> & Hk%elem_of_seq). lia.
  - intros Hx. exists (N.to_nat x). split; [lia|]. apply elem_of_seq. lia.
Qed.

Lemma elem_of_whitelist topic_hash schedule t :
  t ∈ whitelist_topic_hashes topic_hash schedule ↔
  ∃ fork subnet, is_Some (fs_configs schedule !! fork) ∧ (subnet < SUBNET_COUNT)%N ∧
    t = topic_hash (create_topic (topic_prefix fork (fs_network_name schedule)) subnet).
Proof.
  unfold whitelist_topic_hashes. rewrite elem_of_list_to_set, list_elem_of_bind. split.
  - intros (fork & Ht & _). destruct (fs_configs schedule !! fork) eqn:E; [|by apply elem_of_nil in Ht].
    apply list_elem_of_fmap in Ht as (subnet & -> & Hs%elem_of_range).
    exists fork, subnet. by rewrite E.
  - intros (fork & subnet & [c Hc] & Hs & ->). exists fork. rewrite Hc. split.
    + apply list_elem_of_fmap. exists subnet. by rewrite elem_of_range.
    + destruct fork; set_solver.
Qed.

(** topic names round-trip.  For every fork and every one of the 128 subnets, on a
    network whose name has no slash, parsing the topic string the node creates recovers
    the subnet, the fork and (for forks whose topics carry it) the network. *)
Theorem topic_roundtrip fork network subnet :
  string_mem "/" network = false → (subnet < SUBNET_COUNT)%N →
  parse_topic_str (create_topic (topic_prefix fork network) subnet) =
    Some (topic_of fork network subnet).
Proof. apply parse_create_topic. Qed.

Lemma topic_roundtrip_witness :
  parse_topic_str "/ssv/mainnet/boole/42" = Some (mkParsedTopic 42 Boole (Some "mainnet"%string)).
Proof. apply (topic_roundtrip Boole "mainnet" 42); by vm_compute. Defined.

(** Parsing is not injective: [u64::from_str] also takes signs and leading zeros. *)
Lemma parse_topic_not_canonical :
  parse_topic_str "ssv.v2.+042" = parse_topic_str (create_topic (topic_prefix Alan "") 42).
Proof. by vm_compute. Qed.

(** The topic the router names is whitelisted and parses back. *)
Lemma routed_topic (topic_hash : string → string) r :
  (∀ t, topic_hash t = t) → schedule_wf (tr_fork_schedule r) →
  string_mem "/" (fs_network_name (tr_fork_schedule r)) = false →
  ∀ subnet slot, (subnet < SUBNET_COUNT)%N → ∃ t fork,
    topic_for_subnet_at_slot r subnet slot = Some t ∧ active_fork_at_slot r slot = Some fork ∧
    t ∈ whitelist_topic_hashes topic_hash (tr_fork_schedule r) ∧
    parse_topic_str t = Some (topic_of fork (fs_network_name (tr_fork_schedule r)) subnet).
Proof.
  intros Hh Hwf Hnet subnet slot Hs.
  unfold topic_for_subnet_at_slot, topic_for_subnet_at_epoch, active_fork_at_slot, active_fork.
  set (e := slot_epoch _ _).
  destruct (active_fork_config_some (tr_fork_schedule r) e Hwf) as [c Hc]. rewrite Hc. cbn.
  eexists _, (fc_fork c). split; [done|]. split; [done|]. split.
  - apply elem_of_whitelist. exists (fc_fork c), subnet. rewrite Hh. split; [|done].
    unfold e, slot_epoch in Hc. apply active_fork_config_started in Hc as [-> _]; [by eexists|done].
  - by apply parse_create_topic.
Qed.

(** publishing and the whitelist agree.  With [IdentTopic]'s hash the identity, on a
    schedule with a genesis fork, the topic the router names for any subnet and slot is
    whitelisted, parses back to that subnet and to the fork active at the slot; and every
    whitelisted topic is the topic of a subnet under a scheduled fork. *)
Theorem router_topics_whitelisted (topic_hash : string → string) r :
  (∀ t, topic_hash t = t) → schedule_wf (tr_fork_schedule r) →
  string_mem "/" (fs_network_name (tr_fork_schedule r)) = false →
  (∀ subnet slot, (subnet < SUBNET_COUNT)%N → ∃ t fork,
     topic_for_subnet_at_slot r subnet slot = Some t ∧ active_fork_at_slot r slot = Some fork ∧
     t ∈ whitelist_topic_hashes topic_hash (tr_fork_schedule r) ∧
     parse_topic_str t = Some (topic_of fork (fs_network_name (tr_fork_schedule r)) subnet)) ∧
  (∀ t, t ∈ whitelist_topic_hashes topic_hash (tr_fork_schedule r) → ∃ fork subnet,
     is_Some (fs_configs (tr_fork_schedule r) !! fork) ∧ (subnet < SUBNET_COUNT)%N ∧
     parse_topic_str t = Some (topic_of fork (fs_network_name (tr_fork_schedule r)) subnet)).
Proof.
  intros Hh Hwf Hnet. split.
  - by apply routed_topic.
  - intros t (fork & subnet & Hf & Hs & ->)%elem_of_whitelist. exists fork, subnet.
    rewrite Hh. eauto using parse_create_topic.
Qed.

(** ** The subnet of an operator set *)

Lemma bytes_le_total a b : bytes_le a b = true ∨ bytes_le b a = true.
Proof.
  revert b. induction a as [|x a IH]; intros [|y b]; cbn; auto.
  rewrite (N.compare_antisym (Byte.to_N x)). destruct (_ ?= _)%N; cbn; auto.
Qed.

Lemma byte_to_N_inj x y : Byte.to_N x = Byte.to_N y → x = y.
Proof. intros H. apply (f_equal Byte.of_N) in H. rewrite !Byte.of_to_N in H. by simplify_eq. Qed.

Lemma bytes_le_antisym a b : bytes_le a b = true → bytes_le b a = true → a = b.
Proof.
  revert b. induction a as [|x a IH]; intros [|y b]; cbn; try done.
  rewrite (N.compare_antisym (Byte.to_N x)).
  destruct (N.compare_spec (Byte.to_N x) (Byte.to_N y)) as [->%byte_to_N_inj| |]; cbn; try done.
  intros. f_equal. auto.
Qed.

Lemma bytes_le_trans a b c : bytes_le a b = true → bytes_le b c = true → bytes_le a c = true.
Proof.
  revert b c. induction a as [|x a IH]; intros [|y b] [|z c]; cbn; try done.
  destruct (N.compare_spec (Byte.to_N x) (Byte.to_N y)),
    (N.compare_spec (Byte.to_N y) (Byte.to_N z)),
    (N.compare_spec (Byte.to_N x) (Byte.to_N z)); try done; try lia. apply IH.
Qed.

(** The minimum is the member below all others. *)
Lemma min_bytes_spec l m :
  min_bytes l = Some m ↔ m ∈ l ∧ ∀ x, x ∈ l → bytes_le m x = true.
Proof.
  revert m. induction l as [|x l IH]; intros m; cbn.
  { split; [done|]. intros [[]%elem_of_nil _]. }
  assert (∀ y, bytes_le y y = true) as Hrefl by (intros y; by destruct (bytes_le_total y y)).
  assert (∀ m', (m' ∈ x :: l ∧ ∀ y, y ∈ x :: l → bytes_le m' y = true) →
            (m ∈ x :: l ∧ ∀ y, y ∈ x :: l → bytes_le m y = true) ↔ Some m' = Some m) as Huniq.
  { intros m' [Hin Hle]. split; [|by intros [= <-]]. intros [Hin' Hle']. f_equal.
    apply bytes_le_antisym; auto. }
  destruct (min_bytes l) as [y|] eqn:Hy.
  - destruct (proj1 (IH y) eq_refl) as [Hyin Hyle].
    destruct (bytes_le x y) eqn:Hxy; symmetry; apply Huniq;
      (split; [apply elem_of_cons; by auto|]).
    + intros z [->|Hz]%elem_of_cons; [done|]. eauto using bytes_le_trans.
    + intros z [->|Hz]%elem_of_cons; [|auto]. destruct (bytes_le_total x y); congruence.
  - destruct l as [|z l]; [|exfalso; cbn in Hy; by repeat case_match].
    symmetry. apply Huniq. split; [by left|]. intros y [->|[]%elem_of_nil]%elem_of_cons. done.
Qed.

Lemma min_bytes_ext l k : (∀ x, x ∈ l ↔ x ∈ k) → min_bytes l = min_bytes k.
Proof.
  intros Hlk. destruct (min_bytes l) as [m|] eqn:Hl.
  - symmetry. apply min_bytes_spec. apply min_bytes_spec in Hl as [? ?]. naive_solver.
  - destruct (min_bytes k) as [m|] eqn:Hk; [|done]. rewrite <- Hl.
    apply min_bytes_spec. apply min_bytes_spec in Hk as [? ?]. naive_solver.
Qed.

Lemma from_operators_ext sha256 l k n :
  (∀ o, o ∈ l ↔ o ∈ k) → from_operators sha256 l n = from_operators sha256 k n.
Proof.
  intros Hlk. unfold from_operators. rewrite (min_bytes_ext _ ((λ o, sha256 (to_le_bytes 8 o)) <$> k));
    [done|]. intros x. rewrite !list_elem_of_fmap. naive_solver.
Qed.

Lemma try_into_u64_mod a n :
  (0 < n <= u64_max)%N → try_into_u64 (a `mod` n) = Some (a `mod` n)%N.
Proof.
  intros Hn. unfold try_into_u64. pose proof (N.mod_lt a n ltac:(lia)).
  destruct (N.leb_spec (a `mod` n) u64_max); [done|lia].
Qed.

Lemma subnet_for_committee_ext sha256 r cid l k slot :
  (∀ o, o ∈ l ↔ o ∈ k) →
  subnet_for_committee_with_operators_at_slot sha256 r cid l slot =
    subnet_for_committee_with_operators_at_slot sha256 r cid k slot.
Proof.
  intros Hlk. unfold subnet_for_committee_with_operators_at_slot.
  by rewrite (from_operators_ext _ l k).
Qed.

Lemma subnet_for_committee_lt sha256 r cid l slot subnet :
  subnet_for_committee_with_operators_at_slot sha256 r cid l slot = Ok subnet →
  (subnet < SUBNET_COUNT)%N.
Proof.
  unfold subnet_for_committee_with_operators_at_slot. intros (fork & _ & H)%bind_ok.
  assert (∀ a, try_into_u64 (a `mod` SUBNET_COUNT) = Some subnet → (subnet < SUBNET_COUNT)%N) as Ha.
  { intros a. rewrite try_into_u64_mod by done. intros [= <-]. by apply N.mod_lt. }
  destruct fork.
  - unfold from_committee_alan in H. cbn [N.eqb SUBNET_COUNT] in H.
    destruct (try_into_u64 _) eqn:E; [|done]. cbn in H. simplify_eq. by eapply Ha.
  - unfold from_operators in H. apply bind_ok in H as (h & _ & H%ok_or_ok). by eapply Ha.
Qed.

(** the post-fork subnet.  Whenever the operator list is not empty, the MinHash
    subnet exists, is one of the 128, and is the hash of the operator whose hash is
    smallest; it is the same for every listing of the same operators, and two committees
    that share an operator with the smallest hash in both share the subnet. *)
Theorem minhash_subnet sha256 l :
  l ≠ [] → ∃ o subnet, from_operators sha256 l SUBNET_COUNT = Ok subnet ∧ o ∈ l ∧
    (subnet < SUBNET_COUNT)%N ∧
    (∀ k, o ∈ k → (∀ o', o' ∈ k → bytes_le (sha256 (to_le_bytes 8 o)) (sha256 (to_le_bytes 8 o')) = true) →
       from_operators sha256 k SUBNET_COUNT = Ok subnet) ∧
    (∀ k, (∀ x, x ∈ l ↔ x ∈ k) → from_operators sha256 k SUBNET_COUNT = Ok subnet).
Proof.
  intros Hl. set (h := λ o, sha256 (to_le_bytes 8 o)).
  assert (∀ k o, o ∈ k → (∀ o', o' ∈ k → bytes_le (h o) (h o') = true) →
            from_operators sha256 k SUBNET_COUNT = Ok (from_be_bytes (h o) `mod` SUBNET_COUNT)%N) as Hmin.
  { intros k o Ho Hle. unfold from_operators. fold h.
    rewrite (proj2 (min_bytes_spec (h <$> k) (h o))).
    - cbn [ok_or mbind outcome_bind]. by rewrite try_into_u64_mod.
    - split; [by apply list_elem_of_fmap_2|]. intros x (o' & -> & ?)%list_elem_of_fmap. auto. }
  destruct (min_bytes (h <$> l)) as [m|] eqn:Hm.
  - apply min_bytes_spec in Hm as [(o & -> & Ho)%list_elem_of_fmap Hle].
    assert (∀ o', o' ∈ l → bytes_le (h o) (h o') = true) as Hle'.
    { intros o' Ho'. by apply Hle, list_elem_of_fmap_2. }
    exists o. eexists. split; [by apply Hmin|]. split; [done|]. split; [by apply N.mod_lt|].
    split; [intros; by apply Hmin|]. intros k Hk. rewrite <- (from_operators_ext _ l) by done. auto.
  - destruct l as [|o l]; [done|]. cbn in Hm. by repeat case_match.
Qed.

Lemma minhash_subnet_witness :
  ∃ o subnet, from_operators id [4; 3; 9]%N SUBNET_COUNT = Ok subnet ∧ o ∈ [4; 3; 9]%N ∧
    from_operators id [9; 9; 3; 4]%N SUBNET_COUNT = Ok subnet.
Proof.
  destruct (minhash_subnet id [4; 3; 9]%N ltac:(done)) as (o & subnet & H1 & H2 & _ & _ & H5).
  exists o, subnet. split; [done|]. split; [done|]. apply H5. set_solver.
Defined.

(** A node listens where it is spoken to.  For a committee whose members are, if the
    fork is Alan, stored in increasing order, the subnet a node subscribes to for the committee under the fork
    active at a slot is the subnet on which that slot's messages for the committee are
    published and validated, and it is one of the 128. *)
Theorem subscribed_subnet_is_routed sha256 r ops slot fork :
  active_fork_at_slot r slot = Some fork → ops ≠ [] → (fork = Alan → StronglySorted N.le ops) →
  ∃ subnet, from_operators_for_fork sha256 ops fork = Ok subnet ∧
    subnet_for_committee_with_operators_at_slot sha256 r (committee_id_of_vec sha256 ops) ops slot
      = Ok subnet ∧ (subnet < SUBNET_COUNT)%N.
Proof.
  intros Hf Hne Hs. unfold subnet_for_committee_with_operators_at_slot, committee_id_of_vec.
  rewrite Hf. cbn [expect mbind outcome_bind].
  destruct fork; cbn [from_operators_for_fork].
  - rewrite (merge_sort_fixed ops (Hs eq_refl)). unfold from_committee_alan. cbn [N.eqb SUBNET_COUNT]. rewrite try_into_u64_mod by done.
    eexists. split; [done|]. split; [done|]. by apply N.mod_lt.
  - destruct (min_bytes ((λ o, sha256 (to_le_bytes 8 o)) <$> ops)) as [m|] eqn:Hm.
    + unfold from_operators. rewrite Hm. cbn [ok_or mbind outcome_bind].
      rewrite try_into_u64_mod by done. eexists. split; [done|]. split; [done|]. by apply N.mod_lt.
    + destruct ops as [|o l]; [done|]. cbn in Hm. by repeat case_match.
Qed.

Definition sample_router : TopicRouter := mkTopicRouter sample_schedule 32.

Lemma router_topics_whitelisted_witness :
  ∃ t fork, topic_for_subnet_at_slot sample_router 42 64 = Some t ∧
    active_fork_at_slot sample_router 64 = Some fork ∧
    t ∈ whitelist_topic_hashes id sample_schedule ∧
    parse_topic_str t = Some (topic_of fork (fs_network_name sample_schedule) 42).
Proof.
  apply (router_topics_whitelisted id sample_router).
  - done.
  - exact (proj1 (from_fork_configs_ok _ _ _ sample_schedule_ok)).
  - by vm_compute.
  - by vm_compute.
Defined.

Lemma subscribed_subnet_is_routed_witness :
  ∃ subnet, from_operators_for_fork id [1; 2; 3; 4]%N Alan = Ok subnet ∧
    subnet_for_committee_with_operators_at_slot id sample_router
      (committee_id_of_vec id [1; 2; 3; 4]%N) [1; 2; 3; 4]%N 64 = Ok subnet ∧
    (subnet < SUBNET_COUNT)%N.
Proof.
  apply (subscribed_subnet_is_routed id sample_router [1; 2; 3; 4]%N 64 Alan).
  - by vm_compute.
  - done.
  - intros _. repeat constructor; by vm_compute.
Defined.
