(* ===== verification/Validator.v ===== *)
(** * The message validator

    [Validator] of [anchor/message_validator/src/lib.rs]: from the bytes of a gossip
    message to a verdict.  It decodes and checks the structure, finds the committee, checks
    the topic and the domain, and runs the consensus or partial-signature rules on the
    duty state of the message identifier.  The theorems: an accepted message has been
    checked in full; no sequence of messages takes a duty state out of its limits; an
    accepted message is not accepted again; and what an honest node publishes arrives on
    the topic its receivers expect. *)

From Stdlib Require Import Ascii.
From S2P Require Import Prelude SsvTypes Messages ForkSchedule ValidationTypes DutyState.
From S2P Require Import ValidatorRules ConsensusValidation PartialValidation Subnet Sample.

(** ** Results *)

Inductive ValidatedSSVMessage :=
  | ValidatedQbft (m : QbftMessage)
  | ValidatedPartial (m : PartialSignatureMessages).

Record ValidatedMessage := mkValidatedMessage {
  vm_signed : SignedSSVMessage;
  vm_ssv_message : ValidatedSSVMessage;
}.

Inductive ValidationResult :=
  | Success (m : ValidatedMessage)
  | PreDecodeFailure (f : ValidationFailure)
  | PostDecodeFailure (f : ValidationFailure) (m : SignedSSVMessage).

(** [impl From<&ValidationResult> for MessageAcceptance] *)
Definition result_acceptance (r : ValidationResult) : MessageAcceptance :=
  match r with
  | Success _ => Accept
  | PreDecodeFailure f | PostDecodeFailure f _ => failure_acceptance f
  end.

Inductive TopicContext :=
  | SkipValidation
  | ValidateTopic (parsed : ParsedTopic).

Section validator.
Context {C : Crypto} {Codec : SszCodec}.
Abbreviation result A := (outcome ValidationFailure A).

(** ** Structure *)

Definition validate_structure_and_role (signed : SignedSSVMessage) : result Role :=
  _ ← map_err failure_of_signed_error (signed_message_validate signed);
  ok_or (message_id_role (msg_id (ssv_message signed))) VF_InvalidRole.

Definition validate_outbound_message (signed : SignedSSVMessage) : result Slot :=
  _ ← validate_structure_and_role signed;
  ok_or (extract_slot (ssv_message signed)) VF_UnknownMessageSlot.

Definition validate_outbound (message_data : bytes) : result Slot :=
  signed ← ok_or (signed_from_ssz message_data) VF_UndecodableMessageData;
  validate_outbound_message signed.

(** ** The validator *)

(** The reads of [NetworkState] ([anchor/database/src/state.rs]) the validator makes. *)
Record NetworkView := {
  get_committee_info_by_committee_id : CommitteeId → option CommitteeInfo;
  get_committee_info_by_validator_pk : PublicKeyBytes → option CommitteeInfo;
  operator_rsa_pubkey : OperatorId → option PubKey;
}.

(** What a call reads that changes over time: the network state, the wall clock, the slot
    clock and the known duties. *)
Record Env := {
  en_network : NetworkView;
  en_time : N;
  en_slot_clock : SlotClock;
  en_duties : DutiesProvider;
}.

(** The fixed part of [struct Validator]. *)
Record Validator := {
  va_slots_per_epoch : positive;
  va_epochs_per_sync_committee_period : N;
  va_sync_committee_size : nat;
  va_router : TopicRouter;
  va_fork_schedule : ForkSchedule;
  va_spec : ChainSpec;
}.

(** [duty_state_map] *)
Abbreviation DutyStates := (gmap (list byte) DutyState).
Abbreviation vstate A := (action DutyStates ValidationFailure A).
Implicit Types (v : Validator) (env : Env) (map : DutyStates) (signed : SignedSSVMessage).

Definition get_operator_pub_keys (nv : NetworkView) (ids : list OperatorId)
    : gmap OperatorId PubKey :=
  list_to_map (omap (λ id, pair id <$> operator_rsa_pubkey nv id) ids).

Definition validate_ssv_message (vc : ValidationContext) (dp : DutiesProvider)
    : action DutyState ValidationFailure ValidatedSSVMessage :=
  let signed := vc_signed vc in
  _ ← lift (ensure (forallb (λ signer, bool_decide (signer ∈ committee_members (vc_committee vc)))
                      (operator_ids signed)) VF_SignerNotInCommittee);
  match msg_type (ssv_message signed) with
  | SSVConsensusMsgType => m ← validate_consensus_message vc dp; mret (ValidatedQbft m)
  | SSVPartialSignatureMsgType =>
      m ← validate_partial_signature_message vc dp; mret (ValidatedPartial m)
  end.

Definition validate_topic_and_domain v (topic_context : TopicContext)
    (committee_id : option CommitteeId) (operator_ids : list OperatorId)
    (ssv : SSVMessage) (id : MessageId) : result unit :=
  match topic_context with
  | SkipValidation => Ok tt
  | ValidateTopic parsed =>
      message_slot ← ok_or (extract_slot ssv) VF_UnknownMessageSlot;
      let committee_id := default (committee_id_of_vec sha256 operator_ids) committee_id in
      expected_subnet ← map_err (λ _, VF_IncorrectTopic)
        (subnet_for_committee_with_operators_at_slot sha256 (va_router v) committee_id
           operator_ids message_slot);
      _ ← ensure (pt_subnet_id parsed =? expected_subnet)%N VF_IncorrectTopic;
      let message_epoch := slot_epoch message_slot (va_slots_per_epoch v) in
      expected_fork ← expect (active_fork (tr_fork_schedule (va_router v)) message_epoch);
      _ ← ensure (bool_decide (pt_fork parsed = expected_fork)) VF_TopicForkMismatch;
      domain ← expect (domain_type_for_epoch (va_router v) message_epoch);
      expected_domain ← ok_or domain VF_WrongDomain;
      ensure (bool_decide (message_id_domain id = expected_domain)) VF_WrongDomain
  end.

(** [get_duty_state]: run an action on the entry of the identifier, created on first use.
    The entry is locked for the duration of the action. *)
Definition with_duty_state {A} (id : MessageId) (stored : nat)
    (act : action DutyState ValidationFailure A) : vstate A := λ map,
  let '(o, ds) := act (default (duty_state_new stored) (map !! id)) in
  (o, <[id := ds]> map).

Definition committee_info_of (nv : NetworkView) (role : Role) (executor : option DutyExecutor)
    : result CommitteeInfo :=
  if Role.is_committee_role role
  then match executor with
       | Some (ExecCommittee id) =>
           ok_or (get_committee_info_by_committee_id nv id) VF_NonExistentCommitteeID
       | _ => Err VF_NonExistentCommitteeID
       end
  else match executor with
       | Some (ExecValidator pk) =>
           ok_or (get_committee_info_by_validator_pk nv pk) VF_UnknownValidator
       | _ => Err VF_UnknownValidator
       end.

Definition context_of v env signed (role : Role) (info : CommitteeInfo) : ValidationContext :=
  {| vc_signed := signed; vc_role := role; vc_committee := info; vc_received_at := en_time env;
     vc_slots_per_epoch := va_slots_per_epoch v;
     vc_epochs_per_sync_committee_period := va_epochs_per_sync_committee_period v;
     vc_sync_committee_size := va_sync_committee_size v; vc_slot_clock := en_slot_clock env;
     vc_operator_pub_keys := get_operator_pub_keys (en_network env) (committee_members info);
     vc_fork_schedule := va_fork_schedule v; vc_spec := va_spec v |}.

Definition validate_decoded_message v env signed (topic_context : TopicContext)
    : vstate ValidatedMessage :=
  role ← lift (validate_structure_and_role signed);
  let ssv := ssv_message signed in
  let executor := message_id_duty_executor pk_deserialize (msg_id ssv) in
  let committee_id := match executor with Some (ExecCommittee id) => Some id | _ => None end in
  info ← lift (committee_info_of (en_network env) role executor);
  _ ← lift (validate_topic_and_domain v topic_context committee_id (committee_members info)
              ssv (msg_id ssv));
  validated ← with_duty_state (msg_id ssv)
                (stored_slot_count role (va_slots_per_epoch v) (va_spec v))
                (validate_ssv_message (context_of v env signed role info) (en_duties env));
  mret (mkValidatedMessage signed validated).

Definition validate v env (message_data : bytes) (topic_context : TopicContext)
    : action DutyStates ValidationFailure ValidationResult := λ map,
  match signed_from_ssz message_data with
  | None => (Ok (PreDecodeFailure VF_UndecodableMessageData), map)
  | Some signed =>
      match validate_decoded_message v env signed topic_context map with
      | (Ok m, map) => (Ok (Success m), map)
      | (Err f, map) => (Ok (PostDecodeFailure f signed), map)
      | (Panic, map) => (Panic, map)
      end
  end.

(** One round of [cleaner]: [retain(|_, duty_state| !duty_state.outdated(now))]. *)
Definition cleaner (now : Slot) (map : DutyStates) : DutyStates :=
  filter (λ p, outdated p.2 now = false) map.

(** ** Sending: [anchor/message_sender/src/network.rs] and [subnet_service/src/service.rs] *)

(** [SubnetService::operator_ids_for_committee]: the members of the first cluster of the
    committee, as [get_committee_info_by_committee_id] reads them. *)
Definition operator_ids_for_committee (nv : NetworkView) (committee_id : CommitteeId)
    : option (list OperatorId) :=
  committee_members <$> get_committee_info_by_committee_id nv committee_id.

Inductive SubnetServiceError :=
  | ClusterNotFound (committee_id : CommitteeId)
  | SubnetCalculation (e : SubnetCalculationError).

Definition subnet_for_committee_at_slot (nv : NetworkView) (r : TopicRouter)
    (committee_id : CommitteeId) (slot : Slot) : outcome SubnetServiceError SubnetId :=
  operator_ids ← ok_or (operator_ids_for_committee nv committee_id) (ClusterNotFound committee_id);
  map_err SubnetCalculation
    (subnet_for_committee_with_operators_at_slot sha256 r committee_id operator_ids slot).

(** Why [do_send] drops a message. *)
Inductive SendFailure :=
  | OutboundInvalid (f : ValidationFailure)
  | NoSubnet (e : SubnetServiceError).

(** [NetworkMessageSender::do_send]: the pair put on the network queue. *)
Definition do_send (nv : NetworkView) (r : TopicRouter) (message : SignedSSVMessage)
    (committee_id : CommitteeId) : outcome SendFailure (string * bytes) :=
  message_slot ← map_err OutboundInvalid (validate_outbound_message message);
  let message_bytes := signed_as_ssz message in
  subnet ← map_err NoSubnet (subnet_for_committee_at_slot nv r committee_id message_slot);
  topic ← expect (topic_for_subnet_at_slot r subnet message_slot);
  Ok (topic, message_bytes).

(** ** The duty states stay within their limits *)

Definition states_ok (map : DutyStates) : Prop := map_Forall (λ _ ds, duty_ok ds) map.

Lemma stored_slot_count_pos role spe spec : 0 < stored_slot_count role spe spec.
Proof. unfold stored_slot_count, LATE_SLOT_ALLOWANCE. destruct role; lia. Qed.

Lemma duty_state_new_ok n : 0 < n → duty_ok (duty_state_new n).
Proof. intros Hn. split; [|done]. intros o os Ho. cbn in Ho. by rewrite lookup_empty in Ho. Qed.

Lemma with_duty_state_wp {A} id n (act : action DutyState ValidationFailure A) Q map :
  wp act (λ o ds, Q o (<[id := ds]> map)) (default (duty_state_new n) (map !! id)) →
  wp (with_duty_state id n act) Q map.
Proof. unfold wp, with_duty_state. by destruct (act _). Qed.

(** A call succeeds on the entry of its identifier, or leaves the invariant alone. *)
Lemma validate_ssv_message_wp vc dp ds :
  wp (validate_ssv_message vc dp) (λ o ds', (duty_ok ds → duty_ok ds') ∧
    ∀ r, o = Ok r → Forall (λ x, x ∈ committee_members (vc_committee vc)) (operator_ids (vc_signed vc)) ∧
      match r with
      | ValidatedQbft m => msg_type (ssv_message (vc_signed vc)) = SSVConsensusMsgType ∧
          validate_consensus_message vc dp ds = (Ok m, ds')
      | ValidatedPartial m => msg_type (ssv_message (vc_signed vc)) = SSVPartialSignatureMsgType ∧
          validate_partial_signature_message vc dp ds = (Ok m, ds')
      end) ds.
Proof.
  unfold validate_ssv_message. wp_step. wp_step; [|done].
  match goal with E : forallb _ _ = true |- _ => rename E into Hall end.
  assert (Forall (λ x, x ∈ committee_members (vc_committee vc)) (operator_ids (vc_signed vc))) as Hin.
  { apply Forall_forall. intros x Hx. rewrite forallb_forall in Hall.
    apply list_elem_of_In, Hall in Hx. by apply bool_decide_eq_true in Hx. }
  destruct (msg_type _) eqn:Ety; apply wp_bind; unfold wp.
  - pose proof (validate_consensus_message_wp vc dp ds) as [Hok _].
    destruct (validate_consensus_message vc dp ds) as [[m|e|] ds'] eqn:Ev; cbn in *;
      (split; [done|]); intros r [= <-]. done.
  - pose proof (validate_partial_signature_message_wp vc dp ds) as [Hok _].
    destruct (validate_partial_signature_message vc dp ds) as [[m|e|] ds'] eqn:Ev; cbn in *;
      (split; [done|]); intros r [= <-]. done.
Qed.

(** What a successful [validate_decoded_message] went through. *)
Record decoded_ok v env signed (ctx : TopicContext) (r : ValidatedSSVMessage) map map' : Prop := {
  dk_wf : signed_wf signed;
  dk_run : ∃ role info ds ds',
    message_id_role (msg_id (ssv_message signed)) = Some role ∧
    committee_info_of (en_network env) role
      (message_id_duty_executor pk_deserialize (msg_id (ssv_message signed))) = Ok info ∧
    validate_topic_and_domain v ctx
      match message_id_duty_executor pk_deserialize (msg_id (ssv_message signed)) with
      | Some (ExecCommittee id) => Some id | _ => None end
      (committee_members info) (ssv_message signed) (msg_id (ssv_message signed)) = Ok tt ∧
    ds = default (duty_state_new (stored_slot_count role (va_slots_per_epoch v) (va_spec v)))
           (map !! msg_id (ssv_message signed)) ∧
    validate_ssv_message (context_of v env signed role info) (en_duties env) ds = (Ok r, ds') ∧
    map' = <[msg_id (ssv_message signed) := ds']> map;
}.

Lemma states_ok_entry role v map id :
  states_ok map →
  duty_ok (default (duty_state_new (stored_slot_count role (va_slots_per_epoch v) (va_spec v)))
             (map !! id)).
Proof.
  intros Hm. destruct (map !! id) as [ds|] eqn:E; cbn; [by eapply Hm|].
  apply duty_state_new_ok, stored_slot_count_pos.
Qed.

Lemma validate_decoded_message_wp v env signed ctx map :
  wp (validate_decoded_message v env signed ctx) (λ o map', (states_ok map → states_ok map') ∧
    ∀ r, o = Ok r → vm_signed r = signed ∧
      decoded_ok v env signed ctx (vm_ssv_message r) map map') map.
Proof.
  unfold validate_decoded_message. wp_step. wp_step. wp_step; [|done..]. rename a into role.
  match goal with E : validate_structure_and_role _ = _ |- _ =>
    apply bind_ok in E as ([] & Hval%map_err_ok%signed_message_validate_ok & Hrole%ok_or_ok) end.
  wp_step. wp_step. wp_step; [|done..]. rename a into info.
  wp_step. wp_step. wp_step; [|done..]. destruct a.
  wp_step. apply with_duty_state_wp.
  set (ds := default _ _). pose proof (validate_ssv_message_wp (context_of v env signed role info)
    (en_duties env) ds) as Hwp. unfold wp in *.
  destruct (validate_ssv_message _ _ ds) as [o ds'] eqn:Ev. destruct Hwp as [Hok _]. cbn [fst snd] in *.
  assert (states_ok map → states_ok (<[msg_id (ssv_message signed) := ds']> map)) as Hst.
  { intros Hm. apply map_Forall_insert_2; [|done]. by apply Hok, states_ok_entry. }
  destruct o as [r|e|]; [|done..]. split; [done|]. intros r' [= <-]. split; [done|].
  split; [done|]. by exists role, info, ds, ds'.
Qed.

(** *** Sequences of calls *)

Inductive ValidatorEvent :=
  | EvReceive (env : Env) (message_data : bytes) (topic_context : TopicContext)
  | EvClean (now : Slot).

Definition validator_step v (map : DutyStates) (ev : ValidatorEvent) : DutyStates :=
  match ev with
  | EvReceive env data ctx => (validate v env data ctx map).2
  | EvClean now => cleaner now map
  end.

Lemma validate_states_ok v env data ctx map : states_ok map → states_ok (validate v env data ctx map).2.
Proof.
  unfold validate. destruct (signed_from_ssz data) as [signed|]; [|done]. intros Hm.
  pose proof (validate_decoded_message_wp v env signed ctx map) as [Hok _].
  specialize (Hok Hm). by destruct (validate_decoded_message v env signed ctx map) as [[] map'].
Qed.

Lemma run_states_ok v evs map : states_ok map → states_ok (foldl (validator_step v) map evs).
Proof.
  revert map. induction evs as [|ev evs IH]; intros map Hm; cbn [foldl]; [done|]. apply IH.
  destruct ev; cbn; [by apply validate_states_ok|].
  intros id ds [Hds _]%map_lookup_filter_Some. by eapply Hm.
Qed.

(** C7: whatever is received, in any order, from any state of the network, clocks and
    duties, and however the cleaner interleaves, every per-slot entry of every operator
    keeps each of its six counters at most one (so the [u8] increments never wrap) and
    its signing-root sets within their caps of four and eight. *)
Theorem duty_limits_hold v evs id ds o os i s :
  foldl (validator_step v) ∅ evs !! id = Some ds → operators ds !! o = Some os →
  os_state os !! i = Some (Some s) →
  counts_ok (message_counts s) ∧
  size (roots_of PartialSignatureKind.ProposerPreferences s) ≤ 4 ∧
  size (roots_of PartialSignatureKind.RequestAuth s) ≤ 8.
Proof.
  intros Hid Ho Hi. pose proof (run_states_ok v evs ∅ (map_Forall_empty _)) as Hok.
  destruct (do_ring _ (Hok _ _ Hid) _ _ Ho) as [Hr _]. destruct (Hr _ _ Hi) as [Hc Hb].
  split_and!; [done| |]; by apply Hb.
Qed.

(** ** What acceptance means *)

Lemma get_operator_pub_keys_lookup nv ids o pk :
  get_operator_pub_keys nv ids !! o = Some pk → o ∈ ids ∧ operator_rsa_pubkey nv o = Some pk.
Proof.
  intros Hk%elem_of_list_to_map_2. apply list_elem_of_omap in Hk as (o' & Ho & Hp).
  by destruct (operator_rsa_pubkey nv o') eqn:E; simplify_eq/=.
Qed.

(** The signer has a signature on the message that verifies under its registered key. *)
Definition signed_by (nv : NetworkView) (o : OperatorId) (ssv : SSVMessage) : Prop :=
  ∃ pk sig, operator_rsa_pubkey nv o = Some pk ∧ rsa_verify pk (ssv_as_ssz ssv) sig = true.

Lemma validated_signed_by v env signed role info dp ds r ds' :
  validate_ssv_message (context_of v env signed role info) dp ds = (Ok r, ds') →
  ∀ o, o ∈ operator_ids signed →
    o ∈ committee_members info ∧ signed_by (en_network env) o (ssv_message signed).
Proof.
  intros Hv. set (vc := context_of v env signed role info) in *.
  destruct (wp_result _ _ _ _ _ (validate_ssv_message_wp vc dp ds) Hv) as [_ Hwp].
  destruct (Hwp r eq_refl) as [Hin Hr]. clear Hwp Hv.
  rewrite Forall_forall in Hin.
  assert (∀ o pk ssv sig, vc_operator_pub_keys vc !! o = Some pk →
            rsa_verify pk (ssv_as_ssz ssv) sig = true → signed_by (en_network env) o ssv) as Hkeys.
  { intros o pk ssv sig [_ Hk]%get_operator_pub_keys_lookup Hver. by exists pk, sig. }
  intros o Ho. split; [by apply Hin|]. destruct r as [m|m]; destruct Hr as [_ Hr].
  - destruct (wp_result _ _ _ _ _ (validate_consensus_message_wp vc dp ds) Hr) as [_ Hwp].
    destruct (Hwp m eq_refl) as (_ & _ & Hsig & _).
    by eapply (verify_message_signatures_ok _ _ Hkeys).
  - destruct (wp_result _ _ _ _ _ (validate_partial_signature_message_wp vc dp ds) Hr) as [_ Hwp].
    destruct (Hwp m eq_refl) as (_ & [(o' & pk & sig & Hids & _ & _ & _ & Hpk & _ & Hver) _ _ _ _] & _).
    cbn in Hids. rewrite Hids in Ho. apply list_elem_of_singleton in Ho as ->. by eapply Hkeys.
Qed.

(** A successful call to [validate], taken apart. *)
Lemma validate_success v env data ctx map r map' :
  validate v env data ctx map = (Ok (Success r), map') →
  signed_from_ssz data = Some (vm_signed r) ∧
  decoded_ok v env (vm_signed r) ctx (vm_ssv_message r) map map'.
Proof.
  unfold validate. destruct (signed_from_ssz data) as [signed|]; [|done].
  pose proof (validate_decoded_message_wp v env signed ctx map) as Hwp.
  destruct (validate_decoded_message _ _ _ _ _) as [[r0|e|] map0] eqn:Ev; [|done..].
  intros [= -> ->]. destruct (wp_result _ _ _ _ _ Hwp Ev) as [_ Hr].
  destruct (Hr r eq_refl) as [<- Hd]. done.
Qed.

(** C5: what [validate] accepts.  The bytes decode to a structurally valid message whose
    identifier names a role; the committee it names is known to the network; every signer
    is a member of that committee and has a signature on the message that verifies under
    its registered key; the message is on the topic and domain required of it; and the
    content handed on is the decoding of its data. *)
Theorem accepted_message_checked v env data ctx map r map' :
  validate v env data ctx map = (Ok (Success r), map') →
  let signed := vm_signed r in
  let ssv := ssv_message signed in
  let executor := message_id_duty_executor pk_deserialize (msg_id ssv) in
  signed_from_ssz data = Some signed ∧ signed_wf signed ∧
  ∃ role info, message_id_role (msg_id ssv) = Some role ∧
    committee_info_of (en_network env) role executor = Ok info ∧
    validate_topic_and_domain v ctx
      match executor with Some (ExecCommittee id) => Some id | _ => None end
      (committee_members info) ssv (msg_id ssv) = Ok tt ∧
    (∀ o, o ∈ operator_ids signed →
       o ∈ committee_members info ∧ signed_by (en_network env) o ssv) ∧
    match vm_ssv_message r with
    | ValidatedQbft m => qbft_from_ssz (ssv_data ssv) = Some m ∧ identifier m = msg_id ssv
    | ValidatedPartial m => psm_from_ssz (ssv_data ssv) = Some m ∧
        Forall (λ x, [psm_signer x] = operator_ids signed) (messages m)
    end.
Proof.
  intros (Hdec & [Hwf (role & info & ds & ds' & Hrole & Hinfo & Htopic & Hds & Hv & Hm)])%validate_success.
  cbn zeta. split; [done|]. split; [done|]. exists role, info.
  split_and!; [done..|by eapply validated_signed_by|].
  destruct (wp_result _ _ _ _ _ (validate_ssv_message_wp _ _ _) Hv) as [_ Hp].
  destruct (Hp _ eq_refl) as [_ Hr]. clear Hp. destruct (vm_ssv_message r) as [m|m]; destruct Hr as [_ Hr].
  - destruct (wp_result _ _ _ _ _ (validate_consensus_message_wp _ _ _) Hr) as [_ Hq].
    destruct (Hq m eq_refl) as (Hd & Hsem & _). split; [done|]. apply Hsem.
  - destruct (wp_result _ _ _ _ _ (validate_partial_signature_message_wp _ _ _) Hr) as [_ Hq].
    destruct (Hq m eq_refl) as (Hd & [(o & pk & sig & Hids & _ & Hall & _) _ _ _ _] & _).
    split; [done|]. eapply Forall_impl; [exact Hall|]. intros x ->. symmetry. exact Hids.
Qed.

(** ** Replays *)

Lemma write_get slot s os :
  0 < length (os_state os) → ss_slot s = slot →
  get_signer_state (write_signer_state slot s os) slot = Some s.
Proof.
  intros Hl Hs. unfold get_signer_state. cbn.
  replace (ring_index (write_signer_state slot s os) slot) with (ring_index os slot)
    by (unfold ring_index, len; cbn; by rewrite length_insert).
  rewrite list_lookup_insert_eq by (by apply ring_index_lt). cbn. by rewrite decide_True.
Qed.

(** The entry a consensus message leaves behind. *)
Lemma operator_update_get h signed m os :
  0 < length (os_state os) → ∃ s,
    get_signer_state (operator_update h signed m (height m) os) (height m)
      = Some (signer_state_update h signed m s) ∧
    (round m <= ss_round s)%N ∧ (ring_ok os → signer_ok s).
Proof.
  intros Hl. unfold operator_update.
  assert (∀ s, 0 < length (os_state (set_signer_state (height m) s os))) as Hl'
    by (intros s; cbn; by rewrite length_insert).
  destruct (get_signer_state os (height m)) as [s|] eqn:E.
  - destruct (N.ltb_spec (ss_round s) (round m)) as [Hlt|Hge].
    + eexists. split; [apply write_get; [done|by rewrite signer_state_update_slot]|].
      split; [done|]. auto using signer_state_new_ok.
    + exists s. split; [apply write_get; [done|]|].
      * rewrite signer_state_update_slot. by eapply get_signer_state_slot.
      * split; [done|]. intros Hr. by eapply get_signer_state_ok.
  - eexists. split; [apply write_get; [done|by rewrite signer_state_update_slot]|].
    split; [done|]. auto using signer_state_new_ok.
Qed.

Lemma incr8_full n : (n <= 1)%N → (MAX_MESSAGES_PER_ROUND <=? incr8 n)%N = true.
Proof.
  intros Hn. assert (n = 0 ∨ n = 1)%N as [-> | ->] by lia; by vm_compute.
Qed.

Lemma signer_state_update_fields h signed m s :
  let s' := signer_state_update h signed m s in
  ss_round s' = ss_round s ∧
  message_counts s' = record_consensus_message (qbft_message_type m)
                        (length (operator_ids signed)) (message_counts s) ∧
  (1 < length (operator_ids signed) → has_seen_signers h s' (operator_ids signed) = true).
Proof.
  unfold signer_state_update, has_seen_signers.
  destruct (bool_decide (full_data signed ≠ []) && _); case_decide; cbn; (split_and!; [done..|]);
    intros Hlt; try lia; apply bool_decide_eq_true; set_solver.
Qed.

(** That entry refuses the message. *)
Lemma signer_state_update_spent vc m s :
  operator_ids (vc_signed vc) ≠ [] → (round m <= ss_round s)%N →
  (length (operator_ids (vc_signed vc)) = 1 → signer_ok s) →
  validate_signer_state vc m (signer_state_update sha256 (vc_signed vc) m s) ≠ Ok tt.
Proof.
  intros Hne Hr Hok. destruct (signer_state_update_fields sha256 (vc_signed vc) m s) as (Hrd & Hc & Hseen).
  unfold validate_signer_state. rewrite Hrd, Hc. case_decide as H1.
  - intros (? & Hle%ensure_ok%N.leb_le & H)%bind_ok.
    rewrite (proj2 (N.eqb_eq (round m) (ss_round s))) in H by lia.
    apply bind_ok in H as (? & _ & H). destruct (so_counts _ (Hok H1)) as (? & ? & ? & ? & ? & ?).
    unfold validate_consensus_message_limits in H. rewrite H1 in H.
    destruct (qbft_message_type m); cbn -[incr8 N.leb MAX_MESSAGES_PER_ROUND decide] in H;
      try rewrite (decide_True (P := 1 = 1)) in H by done;
      cbn -[incr8 N.leb MAX_MESSAGES_PER_ROUND] in H; by rewrite incr8_full in H.
  - case_decide as H2.
    + rewrite Hseen by done. done.
    + destruct (operator_ids (vc_signed vc)) as [|? []]; cbn in *; [done|done|lia].
Qed.

Definition rings_pos (ds : DutyState) : Prop :=
  ∀ o, 0 < length (os_state (operator_or_new ds o)).

Lemma duty_ok_rings_pos ds : duty_ok ds → rings_pos ds.
Proof. intros Hds o. rewrite (proj2 (operator_or_new_ok ds o Hds)). apply Hds. Qed.

Lemma operator_or_new_set ds o os o' :
  operator_or_new (set_operator o os ds) o' =
    if decide (o = o') then os else operator_or_new ds o'.
Proof. unfold operator_or_new. cbn. rewrite lookup_insert. by case_decide. Qed.

Lemma update_for_consensus_spent vc m ds :
  duty_ok ds → operator_ids (vc_signed vc) ≠ [] →
  ∃ signer s, signer ∈ operator_ids (vc_signed vc) ∧
    get_signer_state (operator_or_new (update_for_consensus_message sha256 (vc_signed vc) m ds) signer)
      (height m) = Some s ∧
    ∀ vc', vc_signed vc' = vc_signed vc → validate_signer_state vc' m s ≠ Ok tt.
Proof.
  intros Hds Hne. unfold update_for_consensus_message.
  set (f := λ ds signer, set_operator signer _ ds).
  assert (∀ l ds, rings_pos ds → rings_pos (foldl f ds l)) as Hpos.
  { induction l as [|x l IH]; intros ds0 H0; cbn [foldl]; [done|]. apply IH. intros o.
    unfold f. rewrite operator_or_new_set. case_decide; [|apply H0].
    rewrite (touches_length _ _ _ (operator_update_touches _ _ _ _ _)). apply H0. }
  destruct (exists_last Hne) as (l & o & Hids).
  rewrite Hids, foldl_app. cbn [foldl]. set (ds0 := foldl f ds l).
  destruct (operator_update_get sha256 (vc_signed vc) m (operator_or_new ds0 o)) as (s & Hs & Hr & Hok).
  { by apply Hpos, duty_ok_rings_pos. }
  exists o. eexists. split; [apply elem_of_app; right; left|]. split.
  - unfold f at 1. rewrite operator_or_new_set, decide_True by done. exact Hs.
  - intros vc' Hvc. rewrite <- Hvc. apply signer_state_update_spent; rewrite ?Hvc; [done|done|].
    intros H1. apply Hok.
    assert (l = []) as ->; [|by apply operator_or_new_ok].
    rewrite Hids, length_app in H1. cbn in H1. apply length_zero_iff_nil. lia.
Qed.

(** The entry a partial-signature packet leaves behind refuses the packet: by its
    counter, or because it brings no new root. *)
Lemma operator_update_partial_spent m os os' :
  ring_ok os → 0 < length (os_state os) → messages m ≠ [] →
  operator_update_partial m os = (Ok tt, os') →
  ∃ s, get_signer_state os' (psm_slot m) = Some s ∧
    (validate_partial_signature_limits (message_counts s) m ≠ Ok tt ∨
     ∃ e, (record_roots m s).1 = Err e).
Proof.
  intros Hr Hl Hne. unfold operator_update_partial.
  assert (∀ s os1, ss_slot s = psm_slot m → 0 < length (os_state os1) → signer_ok s →
    match record_roots m s with
    | (Ok _, s) => (Ok tt, write_signer_state (psm_slot m)
        (s <| message_counts := record_partial_signature (kind m) (message_counts s) |>) os1)
    | (e, s) => (e, write_signer_state (psm_slot m) s os1) end = (Ok tt, os') →
    ∃ s, get_signer_state os' (psm_slot m) = Some s ∧
      (validate_partial_signature_limits (message_counts s) m ≠ Ok tt ∨
       ∃ e, (record_roots m s).1 = Err e)) as Hw.
  { intros s os1 Hslot Hl1 [(? & ? & ? & ? & ? & ?) _] He. pose proof (record_roots_slot m s) as Hrs.
    destruct (record_roots m s) as [[[]|e|] s1] eqn:E; simplify_eq/=.
    eexists. split; [apply write_get; [done|]; cbn; congruence|].
    destruct (root_budget (kind m) s) as [[[X cap] store]|] eqn:Eb.
    - right. pose proof (record_roots_cases m s X cap store Eb) as Hc. rewrite E in Hc.
      destruct Hc as (-> & _ & _). unfold record_roots, root_budget in *.
      destruct (kind m); simplify_eq/=; rewrite decide_False by done;
        (rewrite decide_True by set_solver); by eexists.
    - left. assert (s1 = s) as -> by (unfold record_roots in E; rewrite Eb in E; by simplify_eq).
      unfold validate_partial_signature_limits.
      destruct (kind m); cbn -[incr8 N.leb MAX_MESSAGES_PER_ROUND]; try done;
        by rewrite incr8_full. }
  destruct (get_signer_state os (psm_slot m)) as [s|] eqn:E.
  - apply Hw; [by eapply get_signer_state_slot|done|by eapply get_signer_state_ok].
  - apply Hw; [done|cbn; by rewrite length_insert|apply signer_state_new_ok].
Qed.

Lemma consensus_spent vc dp ds m ds' vc' dp' m' ds'' :
  duty_ok ds → operator_ids (vc_signed vc) ≠ [] → vc_signed vc' = vc_signed vc →
  validate_consensus_message vc dp ds = (Ok m, ds') →
  validate_consensus_message vc' dp' ds' ≠ (Ok m', ds'').
Proof.
  intros Hds Hne Hvc H1 H2.
  destruct (wp_result _ _ _ _ _ (validate_consensus_message_wp _ _ _) H1) as [_ W1].
  destruct (wp_result _ _ _ _ _ (validate_consensus_message_wp _ _ _) H2) as [_ W2].
  destruct (W1 m eq_refl) as (Hm & _ & _ & _ & ds0 & Hsame & ->).
  destruct (W2 m' eq_refl) as (Hm' & _ & _ & Hall & _). rewrite Hvc, Hm in Hm'. simplify_eq.
  destruct (update_for_consensus_spent vc m' ds0) as (o & s & Ho & Hs & Hbad);
    [by eapply same_ops_duty_ok|done|].
  apply (Hbad vc' Hvc). apply (Hall o); [by rewrite Hvc|done].
Qed.

Lemma partial_spent vc dp ds m ds' vc' dp' m' ds'' :
  duty_ok ds → vc_signed vc' = vc_signed vc →
  validate_partial_signature_message vc dp ds = (Ok m, ds') →
  validate_partial_signature_message vc' dp' ds' ≠ (Ok m', ds'').
Proof.
  intros Hds Hvc H1 H2.
  destruct (wp_result _ _ _ _ _ (validate_partial_signature_message_wp _ _ _) H1) as [_ W1].
  destruct (wp_result _ _ _ _ _ (validate_partial_signature_message_wp _ _ _) H2) as [_ W2].
  destruct (W1 m eq_refl) as (Hm & Hpk & o & ds0 & Ho & Hsame & Hup & _).
  destruct (W2 m' eq_refl) as (Hm' & _ & o' & ds1 & Ho' & Hsame' & Hup' & Hlim').
  rewrite Hvc, Hm in Hm'. rewrite Hvc, Ho in Ho'. simplify_eq.
  assert (duty_ok ds0) as Hds0 by by eapply same_ops_duty_ok.
  unfold update_for_partial_signature in Hup, Hup'.
  destruct (operator_update_partial m' (operator_or_new ds0 o')) as [r1 os1] eqn:E1.
  destruct (operator_update_partial m' (operator_or_new ds1 o')) as [r2 os2] eqn:E2.
  simplify_eq. destruct (pk_signer _ _ Hpk) as (? & ? & ? & _ & _ & _ & Hmsgs & _).
  destruct (operator_or_new_ok ds0 o' Hds0) as [Hr Hl].
  destruct (operator_update_partial_spent m' _ _ Hr (duty_ok_rings_pos _ Hds0 o') Hmsgs E1)
    as (s & Hs & [Hbad|[e He]]).
  - apply Hbad, Hlim'. by rewrite operator_or_new_set, decide_True.
  - rewrite (so_ops _ _ Hsame'), operator_or_new_set, decide_True in E2 by done.
    unfold operator_update_partial in E2. rewrite Hs in E2.
    destruct (record_roots m' s) as [? ?]; simplify_eq/=.
Qed.

Lemma validate_ssv_message_spent vc dp ds r ds' vc' dp' r' ds'' :
  duty_ok ds → operator_ids (vc_signed vc) ≠ [] → vc_signed vc' = vc_signed vc →
  validate_ssv_message vc dp ds = (Ok r, ds') →
  validate_ssv_message vc' dp' ds' ≠ (Ok r', ds'').
Proof.
  intros Hds Hne Hvc H1 H2.
  destruct (wp_result _ _ _ _ _ (validate_ssv_message_wp _ _ _) H1) as [_ W1].
  destruct (wp_result _ _ _ _ _ (validate_ssv_message_wp _ _ _) H2) as [_ W2].
  destruct (W1 r eq_refl) as [_ R1]. destruct (W2 r' eq_refl) as [_ R2]. rewrite Hvc in R2.
  destruct r as [m|m], r' as [m'|m']; destruct R1 as [T1 R1], R2 as [T2 R2]; try congruence.
  - exact (consensus_spent _ _ _ _ _ _ _ _ _ Hds Hne Hvc R1 R2).
  - exact (partial_spent _ _ _ _ _ _ _ _ _ Hds Hvc R1 R2).
Qed.

(** C6: no replays.  If a message is accepted in any state the validator can reach, then
    in the state this leaves the same bytes are not accepted again, whatever the network
    state, the clocks, the duties and the topic are at the second time: each kind of
    message leaves an entry that refuses it. *)
Theorem accepted_once v evs env data ctx r map' env' ctx' r' map'' :
  validate v env data ctx (foldl (validator_step v) ∅ evs) = (Ok (Success r), map') →
  validate v env' data ctx' map' ≠ (Ok (Success r'), map'').
Proof.
  pose proof (run_states_ok v evs ∅ (map_Forall_empty _)) as Hok. intros H1 H2.
  apply validate_success in H1 as (D1 & [Wf (role & info & ds & ds' & _ & _ & _ & Hds & V1 & ->)]).
  apply validate_success in H2 as (D2 & [_ (role' & info' & ds2 & ds2' & _ & _ & _ & Hds2 & V2 & _)]).
  assert (vm_signed r' = vm_signed r) as Hs by congruence. rewrite Hs in *.
  rewrite lookup_insert_eq in Hds2. cbn in Hds2. subst ds2.
  refine (validate_ssv_message_spent _ _ _ _ _ _ _ _ _ _ _ _ V1 V2).
  - subst ds. by apply states_ok_entry.
  - exact (swf_signers _ Wf).
  - done.
Qed.

(** ** Topics *)

(** What topic validation requires. *)
Lemma validate_topic_and_domain_ok v parsed cid ops ssv id slot subnet fork :
  schedule_wf (tr_fork_schedule (va_router v)) →
  tr_slots_per_epoch (va_router v) = va_slots_per_epoch v →
  extract_slot ssv = Some slot → active_fork_at_slot (va_router v) slot = Some fork →
  subnet_for_committee_with_operators_at_slot sha256 (va_router v)
    (default (committee_id_of_vec sha256 ops) cid) ops slot = Ok subnet →
  validate_topic_and_domain v (ValidateTopic parsed) cid ops ssv id = Ok tt ↔
  pt_subnet_id parsed = subnet ∧ pt_fork parsed = fork ∧
  fork_domain_type (tr_fork_schedule (va_router v)) fork = Some (message_id_domain id).
Proof.
  intros Hwf Hspe Hslot Hfork Hsub. unfold validate_topic_and_domain, domain_type_for_epoch.
  unfold active_fork_at_slot in Hfork. rewrite Hspe in Hfork.
  rewrite Hslot. cbn [ok_or mbind outcome_bind]. rewrite Hsub. cbn [map_err mbind outcome_bind].
  rewrite Hfork. cbn [fmap option_fmap option_map expect mbind outcome_bind].
  rewrite !bind_ok. setoid_rewrite ensure_ok. setoid_rewrite bind_ok. setoid_rewrite ensure_ok.
  setoid_rewrite bind_ok. setoid_rewrite ok_or_ok. setoid_rewrite ensure_ok.
  setoid_rewrite bool_decide_eq_true. setoid_rewrite N.eqb_eq. split.
  - intros (_ & -> & _ & -> & d & Hd & <-). done.
  - intros (-> & -> & Hd). exists tt. split; [done|]. exists tt. split; [done|]. by eexists.
Qed.

(** C31: what is sent is expected.  Let a node send a message for a committee.  Any node
    with the same fork schedule, for which the message's committee has the same identifier
    and the same operators (in any order), receives bytes that decode to that message on a
    whitelisted topic that passes topic validation, provided the message carries the
    domain of the fork of its slot; and no other subnet or fork would pass. *)
Theorem sent_message_on_expected_topic `{!SszRoundTrip} (topic_hash : string → string)
    v nv signed cid info rcid ops topic data slot fork :
  (∀ t, topic_hash t = t) →
  schedule_wf (tr_fork_schedule (va_router v)) →
  string_mem "/" (fs_network_name (tr_fork_schedule (va_router v))) = false →
  tr_slots_per_epoch (va_router v) = va_slots_per_epoch v →
  get_committee_info_by_committee_id nv cid = Some info →
  default (committee_id_of_vec sha256 ops) rcid = cid →
  (∀ o, o ∈ ops ↔ o ∈ committee_members info) →
  extract_slot (ssv_message signed) = Some slot →
  active_fork_at_slot (va_router v) slot = Some fork →
  fork_domain_type (tr_fork_schedule (va_router v)) fork
    = Some (message_id_domain (msg_id (ssv_message signed))) →
  do_send nv (va_router v) signed cid = Ok (topic, data) →
  signed_from_ssz data = Some signed ∧
  topic ∈ whitelist_topic_hashes topic_hash (tr_fork_schedule (va_router v)) ∧
  ∃ parsed, parse_topic_str topic = Some parsed ∧
    ∀ parsed', validate_topic_and_domain v (ValidateTopic parsed') rcid ops (ssv_message signed)
                 (msg_id (ssv_message signed)) = Ok tt ↔
      pt_subnet_id parsed' = pt_subnet_id parsed ∧ pt_fork parsed' = pt_fork parsed.
Proof.
  intros Hh Hwf Hnet Hspe Hinfo Hcid Hops Hslot Hfork Hdom Hsend.
  unfold do_send in Hsend. apply bind_ok in Hsend as (slot' & Hs%map_err_ok & Hsend).
  apply bind_ok in Hs as (? & _ & Hs%ok_or_ok). assert (slot' = slot) as -> by congruence.
  apply bind_ok in Hsend as (subnet & Hsub%map_err_ok & Hsend).
  apply bind_ok in Hsend as (t & Ht & [= -> <-]).
  unfold subnet_for_committee_at_slot, operator_ids_for_committee in Hsub. rewrite Hinfo in Hsub.
  cbn [fmap option_fmap option_map ok_or mbind outcome_bind] in Hsub. apply map_err_ok in Hsub.
  assert (subnet_for_committee_with_operators_at_slot sha256 (va_router v)
            (default (committee_id_of_vec sha256 ops) rcid) ops slot = Ok subnet) as Hsub'.
  { rewrite Hcid. by rewrite (subnet_for_committee_ext _ _ _ _ (committee_members info)). }
  assert (subnet < SUBNET_COUNT)%N as Hlt by by eapply subnet_for_committee_lt.
  destruct (routed_topic topic_hash (va_router v) Hh Hwf Hnet subnet slot Hlt)
    as (t' & fork' & Ht' & Hf' & Hwl & Hparse).
  rewrite Ht' in Ht. cbn in Ht. simplify_eq.
  split; [apply signed_ssz_roundtrip|]. split; [done|]. eexists. split; [exact Hparse|].
  intros parsed'. rewrite (validate_topic_and_domain_ok _ _ _ _ _ _ _ _ _ Hwf Hspe Hslot Hfork Hsub').
  cbn. naive_solver.
Qed.
End validator.

(** ** A concrete validator *)
Module SampleValidator.
Import SampleRules SampleConsensus SamplePartial.

(** A signature is 256 bytes and starts with the key. *)
#[local] Instance sized_crypto : Crypto :=
  {| PubKey := N; rsa_verify := λ pk _ sig, bool_decide (take 1 sig = to_le_bytes 1 pk);
     ssv_as_ssz := λ m, msg_id m ++ ssv_data m; sha256 := λ bs, bs;
     pk_deserialize := λ bs, Some bs |}.

Definition sample_validator : Validator :=
  {| va_slots_per_epoch := 32; va_epochs_per_sync_committee_period := 256;
     va_sync_committee_size := 512; va_router := sample_router;
     va_fork_schedule := sample_schedule; va_spec := sample_spec |}.

Definition sample_info : CommitteeInfo :=
  {| committee_members := [1; 2; 3; 4]%N; validator_indices := [7; 8]%N |}.

Definition sample_committee_id : CommitteeId := replicate 32 x07.

Definition sample_view : NetworkView :=
  {| get_committee_info_by_committee_id :=
       λ id, if decide (id = sample_committee_id) then Some sample_info else None;
     get_committee_info_by_validator_pk := λ _, None;
     operator_rsa_pubkey := λ o, Some o |}.

(** Four seconds into slot 40. *)
Definition sample_env : Env :=
  {| en_network := sample_view; en_time := secs 484; en_slot_clock := sample_clock (Some 40%N);
     en_duties := sample_duties |}.

Definition signed_prepare : SignedSSVMessage :=
  {| signatures := [replicate 256 x02]; operator_ids := [2%N];
     ssv_message := {| msg_type := SSVConsensusMsgType; msg_id := sample_message_id;
                       ssv_data := [x02] |};
     full_data := [] |}.

(** One byte stands for the signed message and one for its content. *)
Definition prepare_bytes : bytes := [x01].
#[local] Instance one_message_codec : SszCodec :=
  {| signed_from_ssz := λ bs, if decide (bs = prepare_bytes) then Some signed_prepare else None;
     signed_as_ssz := λ _, prepare_bytes;
     qbft_from_ssz := λ bs, if decide (bs = [x02]) then Some sample_prepare else None;
     qbft_as_ssz := λ _, [x02]; psm_from_ssz := λ _, None |}.

Definition prepare_topic : TopicContext := ValidateTopic (topic_of Alan "mainnet" 7).

Definition prepare_result : ValidatedMessage :=
  mkValidatedMessage signed_prepare (ValidatedQbft sample_prepare).

Definition state_after_prepare : gmap (list byte) DutyState :=
  (validate sample_validator sample_env prepare_bytes prepare_topic ∅).2.

Lemma prepare_validates :
  validate sample_validator sample_env prepare_bytes prepare_topic ∅ =
    (Ok (Success prepare_result), state_after_prepare).
Proof. rewrite (surjective_pairing (validate _ _ _ _ _)). apply f_equal2; [by vm_compute|done]. Qed.

Definition prepare_duty : DutyState :=
  default (duty_state_new 0) (state_after_prepare !! sample_message_id).
Definition prepare_operator : OperatorState := operator_or_new prepare_duty 2.
Definition prepare_entry : SignerState :=
  default (signer_state_new 0 0) (get_signer_state prepare_operator 40).

Lemma duty_limits_hold_witness :
  ∃ ds os i s,
    foldl (validator_step sample_validator) ∅ [EvReceive sample_env prepare_bytes prepare_topic]
      !! sample_message_id = Some ds ∧
    operators ds !! 2%N = Some os ∧ os_state os !! i = Some (Some s) ∧
    prepare (message_counts s) = 1%N ∧ counts_ok (message_counts s).
Proof.
  exists prepare_duty, prepare_operator, 40, prepare_entry.
  do 4 (split; [by vm_compute|]).
  apply (duty_limits_hold sample_validator [EvReceive sample_env prepare_bytes prepare_topic]
           sample_message_id prepare_duty 2%N prepare_operator 40 prepare_entry);
    by vm_compute.
Defined.

Lemma accepted_message_checked_witness :
  signed_wf signed_prepare ∧ ∃ role, message_id_role sample_message_id = Some role.
Proof.
  destruct (accepted_message_checked _ _ _ _ _ _ _ prepare_validates)
    as (_ & Hwf & role & _ & Hrole & _).
  split; [exact Hwf|]. exists role. exact Hrole.
Defined.

Lemma accepted_once_witness :
  validate sample_validator sample_env prepare_bytes SkipValidation state_after_prepare
    ≠ (Ok (Success prepare_result), state_after_prepare).
Proof.
  exact (accepted_once sample_validator [] sample_env prepare_bytes prepare_topic prepare_result
           state_after_prepare sample_env SkipValidation prepare_result state_after_prepare
           prepare_validates).
Defined.

(** The same prepare in the sample codec, sent to its committee. *)
Definition outgoing : SignedSSVMessage :=
  {| signatures := [replicate 256 x02]; operator_ids := [2%N];
     ssv_message := {| msg_type := SSVConsensusMsgType; msg_id := sample_message_id;
                       ssv_data := bits_encode sample_prepare |};
     full_data := [] |}.

Lemma outgoing_sent :
  @do_send sized_crypto sample_codec sample_view sample_router outgoing sample_committee_id =
    Ok ("ssv.v2.7"%string, @signed_as_ssz sample_codec outgoing).
Proof.
  unfold do_send.
  assert (@validate_outbound_message sample_codec outgoing = Ok 40%N) as -> by by vm_compute.
  cbn [map_err mbind outcome_bind].
  assert (subnet_for_committee_at_slot sample_view sample_router sample_committee_id 40 = Ok 7%N)
    as -> by by vm_compute.
  cbn [map_err mbind outcome_bind].
  assert (topic_for_subnet_at_slot sample_router 7 40 = Some "ssv.v2.7"%string) as ->
    by by vm_compute.
  done.
Qed.

Lemma sent_message_on_expected_topic_witness :
  "ssv.v2.7"%string ∈ whitelist_topic_hashes id sample_schedule ∧
  ∃ parsed, parse_topic_str "ssv.v2.7" = Some parsed ∧ pt_subnet_id parsed = 7%N.
Proof.
  destruct (@sent_message_on_expected_topic sized_crypto sample_codec sample_codec_roundtrip id
    sample_validator sample_view outgoing sample_committee_id sample_info
    (Some sample_committee_id) [4; 3; 2; 1]%N "ssv.v2.7" (@signed_as_ssz sample_codec outgoing)
    40 Alan) as (_ & Hw & parsed & Hp & _).
  - done.
  - exact (proj1 (from_fork_configs_ok _ _ _ sample_schedule_ok)).
  - by vm_compute.
  - done.
  - by vm_compute.
  - done.
  - intros o. cbn. set_solver.
  - by vm_compute.
  - by vm_compute.
  - by vm_compute.
  - exact outgoing_sent.
  - split; [exact Hw|]. exists parsed. split; [exact Hp|].
    assert (parse_topic_str "ssv.v2.7" = Some (topic_of Alan "mainnet" 7)) as Ha by by vm_compute.
    rewrite Ha in Hp. by injection Hp as <-.
Defined.
End SampleValidator.
