(* ===== verification/Interpolation.v ===== *)
(** * Lagrange interpolation with coefficients in a module

    The mathematics behind threshold keys: the Lagrange basis polynomials of a
    list of distinct nodes, and polynomials whose coefficients lie in a module
    over the field (a polynomial "in the exponent": public keys and signatures
    are group elements, only the ids are scalars).  A polynomial with at most as
    many coefficients as there are nodes is determined by its values at them,
    and with one coefficient more it is off by a multiple of its leading one. *)

From mathcomp Require Import boot algebra.

Set Implicit Arguments.
Unset Strict Implicit.
Unset Printing Implicit Defensive.

Import GRing.Theory.
Local Open Scope ring_scope.

Section Basis.
Variable F : fieldType.
Implicit Types (s : seq F) (x : F) (p : {poly F}).

(** The polynomial that is one at the [i]-th node and zero at the others. *)
Definition basis s (i : nat) : {poly F} :=
  \prod_(j < size s | j != i :> nat) ((s`_j - s`_i)^-1 *: ((s`_j)%:P - 'X)).

Lemma hornerbasis s i x :
  (basis s i).[x] = \prod_(j < size s | j != i :> nat) ((s`_j - x) / (s`_j - s`_i)).
Proof.
rewrite /basis horner_prod; apply: eq_bigr => j _.
by rewrite hornerZ hornerD hornerN hornerC hornerX mulrC.
Qed.

Lemma basis_node s i k :
  uniq s -> (i < size s)%N -> (k < size s)%N ->
  (basis s i).[s`_k] = (k == i)%:R.
Proof.
move=> us ilt klt; rewrite hornerbasis; case: eqP => [->|/eqP ki] /=.
  rewrite big1 // => j ji; rewrite divff // subr_eq0 nth_uniq //.
by rewrite (bigD1 (Ordinal klt)) //= subrr mul0r mul0r.
Qed.

Lemma size_basis s i : (i < size s)%N -> (size (basis s i) <= size s)%N.
Proof.
move=> ilt; rewrite /basis; apply: leq_trans (size_prod_leq _ _) _.
have eqc : #|[pred j : 'I_(size s) | j != i :> nat]| = (size s).-1.
  by rewrite (@eq_card _ _ (predC1 (Ordinal ilt))) // cardC1 card_ord.
rewrite leq_subLR eqc.
apply: (@leq_trans (\sum_(j < size s | j != i :> nat) 2).+1).
  rewrite ltnS; apply: leq_sum => j _; apply: leq_trans (size_scale_leq _ _) _.
  by rewrite -opprB size_polyN size_XsubC.
by rewrite sum_nat_const eqc muln2 -addnn -addnS; case: (size s) ilt.
Qed.

(** A polynomial is determined by its values at enough nodes. *)
Lemma poly_interp s p : uniq s -> (size p <= size s)%N ->
  p = \sum_(i < size s) p.[s`_i] *: basis s i.
Proof.
move=> us sp; apply/eqP; rewrite -subr_eq0; apply/eqP.
apply: (@roots_geq_poly_eq0 _ _ s) => //.
- apply/(all_nthP 0) => k klt; rewrite /root hornerD hornerN horner_sum subr_eq0.
  rewrite (bigD1 (Ordinal klt)) //= hornerZ basis_node // eqxx mulr1.
  rewrite big1 ?addr0 // => i ik; rewrite hornerZ basis_node //.
  have /negPf-> : k != i by apply: contra ik => /eqP ki; apply/eqP/val_inj.
  by rewrite mulr0.
- apply: leq_trans (size_polyD _ _) _; rewrite geq_max sp size_polyN /=.
  apply: leq_trans (size_sum _ _ _) _; apply/bigmax_leqP => i _.
  exact: leq_trans (size_scale_leq _ _) (size_basis _).
Qed.

Lemma horner_interp s p x : uniq s -> (size p <= size s)%N ->
  p.[x] = \sum_(i < size s) (basis s i).[x] * p.[s`_i].
Proof.
move=> us sp; rewrite {1}(poly_interp us sp) horner_sum.
by apply: eq_bigr => i _; rewrite hornerZ mulrC.
Qed.

(** One degree more, and the interpolation misses the node polynomial. *)
Lemma exp_interp_top s x : uniq s ->
  \sum_(i < size s) (basis s i).[x] * (s`_i) ^+ size s
  = x ^+ size s - \prod_(a <- s) (x - a).
Proof.
move=> us; pose q : {poly F} := \prod_(a <- s) ('X - a%:P).
have sq : (size ('X^(size s) - q)%R <= size s)%N.
  apply/leq_sizeP => j; rewrite leq_eqVlt => /orP[/eqP<-|ltj].
    have /monicP := monic_prod_XsubC s xpredT id.
    rewrite /lead_coef size_prod_XsubC /= -/q coefB coefXn eqxx => ->.
    by rewrite subrr.
  rewrite coefB coefXn gtn_eqF // sub0r.
  by rewrite (nth_default 0) ?oppr0 // size_prod_XsubC.
have := horner_interp x us sq; rewrite hornerD hornerN hornerXn horner_prod.
under eq_bigr => a _ do rewrite hornerXsubC.
move=> ->; apply: eq_bigr => i _; rewrite hornerD hornerN hornerXn.
have /rootP -> : root q s`_i by rewrite root_prod_XsubC mem_nth.
by rewrite subr0.
Qed.
End Basis.

Section Module.
Variables (F : fieldType) (G : lmodType F).
Implicit Types (s : seq F) (c : seq G) (x : F).

(** The value at [x] of the polynomial with coefficients [c] in the module. *)
Definition geval c x : G := \sum_(k < size c) x ^+ k *: c`_k.

Lemma geval0 c : geval c 0 = c`_0.
Proof.
rewrite /geval; case: c => [|a c]; first by rewrite big_ord0.
rewrite big_ord_recl expr0 scale1r big1 ?addr0 //= => i _.
by rewrite expr0n scale0r.
Qed.

Lemma sum_basis_geval s c x :
  \sum_(i < size s) (basis s i).[x] *: geval c s`_i
  = \sum_(k < size c) (\sum_(i < size s) (basis s i).[x] * s`_i ^+ k) *: c`_k.
Proof.
under eq_bigr => i _ do rewrite scaler_sumr.
rewrite exchange_big /=; apply: eq_bigr => k _; rewrite scaler_suml.
by apply: eq_bigr => i _; rewrite scalerA.
Qed.

Lemma exp_interp s x k : uniq s -> (k < size s)%N ->
  \sum_(i < size s) (basis s i).[x] * s`_i ^+ k = x ^+ k.
Proof.
move=> us klt; have := @horner_interp _ s 'X^k x us; rewrite size_polyXn => /(_ klt).
by rewrite hornerXn => ->; apply: eq_bigr => i _; rewrite hornerXn.
Qed.

(** Enough values determine a polynomial everywhere. *)
Lemma geval_interp s c x : uniq s -> (size c <= size s)%N ->
  geval c x = \sum_(i < size s) (basis s i).[x] *: geval c s`_i.
Proof.
move=> us sc; rewrite sum_basis_geval; apply: eq_bigr => k _.
by rewrite exp_interp // (leq_trans (ltn_ord k)).
Qed.

(** One value too few: the interpolation misses by a multiple of the leading
    coefficient. *)
Lemma geval_interp_short s c x : uniq s -> size c = (size s).+1 ->
  \sum_(i < size s) (basis s i).[x] *: geval c s`_i
  = geval c x - (\prod_(a <- s) (x - a)) *: c`_(size s).
Proof.
move=> us sc; rewrite sum_basis_geval /geval sc !big_ord_recr /=.
rewrite exp_interp_top // scalerBl addrA; congr (_ + _ - _).
by apply: eq_bigr => k _; rewrite exp_interp.
Qed.

(** Any values at the nodes are taken by a polynomial. *)
Lemma geval_exists s (y : seq G) : uniq s -> size y = size s ->
  exists c, size c = size s /\ forall i, (i < size s)%N -> geval c s`_i = y`_i.
Proof.
move=> us sy.
exists (mkseq (fun k => \sum_(i < size s) (basis s i)`_k *: y`_i) (size s)).
rewrite size_mkseq; split=> // i ilt; rewrite /geval size_mkseq.
under eq_bigr => k _ do rewrite nth_mkseq // scaler_sumr.
rewrite exchange_big /= (bigD1 (Ordinal ilt)) //= [X in _ + X]big1 ?addr0.
  move=> j ji; under eq_bigr => k _ do rewrite scalerA mulrC.
  rewrite -scaler_suml -horner_coef_wide ?size_basis // basis_node //.
  have /negPf-> : i != j by apply: contra ji => /eqP ij; apply/eqP/val_inj.
  by rewrite scale0r.
under eq_bigr => k _ do rewrite scalerA mulrC.
rewrite -scaler_suml -horner_coef_wide ?size_basis // basis_node // eqxx.
by rewrite scale1r.
Qed.

(** Two polynomials that agree on enough nodes agree everywhere. *)
Lemma geval_agree s c c' x : uniq s -> (size c <= size s)%N -> (size c' <= size s)%N ->
  (forall i, (i < size s)%N -> geval c s`_i = geval c' s`_i) ->
  geval c x = geval c' x.
Proof.
move=> us sc sc' eq; rewrite (geval_interp _ us sc) (geval_interp _ us sc').
by apply: eq_bigr => i _; rewrite eq.
Qed.
End Module.
