(* ===== verification/BlsLagrange.v ===== *)
(** * Threshold keys: splitting, combining and validating BLS shares

    The crate [common/bls_lagrange] ([src/blst.rs], [src/lib.rs]).  A validator
    key is the value at zero of a random polynomial and the shares are its
    values at the operators' ids ([split_with_rng]); a quorum's partial
    signatures are combined by Lagrange interpolation at zero
    ([combine_signatures]); and the share public keys announced on chain are
    checked to lie on one polynomial of the right degree
    ([validate_share_public_keys]).

    The arithmetic itself is the foreign library [blst].  It enters as the
    record [Blst] of the functions the crate calls, over a scalar field [F] and
    the groups [G1] of public keys and [G2] of signatures, both [F]-modules;
    [BlstLaws] is what the crate relies on of them.  Everything the crate does
    with them (the order of the checks, the loops, the asserts, the errors) is
    translated.  The results are stated for every such library and instantiated
    over the rationals in the witnesses. *)

From HB Require Import structures.
From mathcomp Require Import boot algebra.
From S2P Require Import Interpolation.

Set Implicit Arguments.
Unset Strict Implicit.
Unset Printing Implicit Defensive.

Import GRing.Theory.
Local Open Scope ring_scope.

(** ** Results *)

(** A Rust computation that returns a [Result] and may panic. *)
Inductive outcome (E A : Type) : Type :=
  | Ok (a : A)
  | Err (e : E)
  | Panic.

Arguments Ok {E A} a.
Arguments Err {E A} e.
Arguments Panic {E A}.

Definition and_then {E A B} (m : outcome E A) (k : A -> outcome E B) : outcome E B :=
  match m with
  | Ok a => k a
  | Err e => Err e
  | Panic => Panic
  end.

Notation "x <-- m ; k" := (and_then m (fun x => k))
  (at level 60, m at next level, k at level 60, right associativity).

Definition ok_or {E A} (e : E) (o : option A) : outcome E A :=
  if o is Some a then Ok a else Err e.

Definition map_err {E E' A} (f : E -> E') (m : outcome E A) : outcome E' A :=
  match m with
  | Ok a => Ok a
  | Err e => Err (f e)
  | Panic => Panic
  end.

(** [.map(f).collect::<Result<Vec<_>, _>>()]: the first failure ends it. *)
Fixpoint try_map {E A B} (f : A -> outcome E B) (s : seq A) : outcome E (seq B) :=
  if s is x :: s' then y <-- f x; ys <-- try_map f s'; Ok (y :: ys)
  else Ok [::].

(** ** Data *)

Inductive Error : Type :=
  | InternalError
  | InvalidThreshold
  | LessThanTwoSignatures
  | NotOneIdPerSignature
  | ZeroId
  | ZeroKey
  | RepeatedId
  | InvalidSignature.

Inductive SharePublicKeyError : Type :=
  | ShareInvalidThreshold (threshold shares : nat)
  | InvalidValidatorPublicKey
  | InvalidSharePublicKey (id : nat)
  | Ids (error : Error)
  | DegreeBelowThreshold
  | NotReconstructed (id : nat).

(** The largest [u64] plus one. *)
Definition u64_bound : nat := 2 ^ 64.

Record KeyId (F : Type) : Type := MkKeyId {
  num : nat;
  scalar : F
}.

Definition key_id_pair {F} (id : KeyId F) : nat * F := (num id, scalar id).
Definition pair_key_id {F} (p : nat * F) : KeyId F := MkKeyId p.1 p.2.

Lemma key_id_pairK {F} : cancel (@key_id_pair F) pair_key_id.
Proof. by case. Qed.

HB.instance Definition _ (F : eqType) :=
  Equality.copy (KeyId F) (can_type (@key_id_pairK F)).

(** ** The foreign library *)

Section Blst.
Variables (F : fieldType) (G1 G2 : lmodType F).

(** The functions of [blst] and [bls] that the crate calls.  The [_n_check]
    functions return the result and whether it is different from zero. *)
Record Blst (Bytes Signature Rng : Type) : Type := MkBlst {
  scalar_from_u64 : nat -> F;
  sk_mul_n_check : F -> F -> F * bool;
  sk_add_n_check : F -> F -> F * bool;
  sk_sub_n_check : F -> F -> F * bool;
  sk_inverse : F -> F;
  sk_check : F -> bool;
  random_sk : Rng -> option F * Rng;
  key_validate : Bytes -> option G1;
  mult_public_keys : seq G1 -> seq F -> G1;
  sig_point : Signature -> option G2;
  sig_from_point : G2 -> Signature;
  mult : seq G2 -> seq F -> G2
}.

Variables (Bytes Signature Rng : Type) (lib : Blst Bytes Signature Rng).

(** What the documentation of the two libraries promises: the scalar functions
    compute in the field, a [u64] is embedded in it without wrapping, and
    [mult] is the multi-scalar multiplication. *)
Record BlstLaws : Prop := MkBlstLaws {
  scalar_from_u64E : forall n, (n < u64_bound)%N -> scalar_from_u64 lib n = n%:R;
  field_is_large : forall n, (0 < n < u64_bound)%N -> n%:R != 0 :> F;
  sk_mulE : forall a b, sk_mul_n_check lib a b = (a * b, a * b != 0);
  sk_addE : forall a b, sk_add_n_check lib a b = (a + b, a + b != 0);
  sk_subE : forall a b, sk_sub_n_check lib a b = (a - b, a - b != 0);
  sk_inverseE : forall a, sk_inverse lib a = a^-1;
  random_sk_nonzero : forall rng sk rng', random_sk lib rng = (Some sk, rng') -> sk != 0;
  sk_checkE : forall a, sk_check lib a = (a != 0);
  mult_public_keysE : forall ps ds, size ps = size ds ->
    mult_public_keys lib ps ds = \sum_(pd <- zip ps ds) pd.2 *: pd.1;
  sig_pointK : forall g, sig_point lib (sig_from_point lib g) = Some g;
  multE : forall ps ds, size ps = size ds ->
    mult lib ps ds = \sum_(pd <- zip ps ds) pd.2 *: pd.1
}.

(** ** Operations *)

(** [KeyId::try_from]. *)
Definition key_id_try_from (value : nat) : outcome Error (KeyId F) :=
  if value != 0%N then Ok (MkKeyId value (scalar_from_u64 lib value))
  else Err ZeroId.

(** [u64::from]. *)
Definition u64_from_key_id (id : KeyId F) : nat := num id.

(** [random_key]. *)
Definition random_key (rng : Rng) : outcome Error F * Rng :=
  let: (sk, rng') := random_sk lib rng in (ok_or InternalError sk, rng').

(** [repeat_with(|| random_key(rng)).take(n).collect()]. *)
Fixpoint random_keys (n : nat) (rng : Rng) : outcome Error (seq F) :=
  if n is n'.+1 then
    let: (k, rng') := random_key rng in
    sk <-- k;
    sks <-- random_keys n' rng';
    Ok (sk :: sks)
  else Ok [::].

(** The loop of [split_with_rng] over the indices [idxs], the highest first:
    one Horner step per coefficient. *)
Fixpoint horner_loop (coefficients : seq F) (x y : F) (idxs : seq nat)
    : outcome Error F :=
  if idxs is i :: idxs' then
    let: (y1, nonzero) := sk_mul_n_check lib y x in
    if ~~ nonzero then Err ZeroId
    else if onth coefficients i is Some c then
      let: (y2, nonzero2) := sk_add_n_check lib y1 c in
      if ~~ nonzero2 then Panic
      else horner_loop coefficients x y2 idxs'
    else Panic
  else Ok y.

(** The share of one participant: the polynomial evaluated at the id. *)
Definition share_of (threshold : nat) (coefficients : seq F) (id : KeyId F)
    : outcome Error (KeyId F * F) :=
  if coefficients is c :: cs then
    y <-- horner_loop coefficients (scalar id) (last c cs)
            (rev (iota 0 (threshold - 1)));
    Ok (id, y)
  else Panic.

Definition split_with_rng (key : F) (threshold : nat) (ids : seq (KeyId F))
    (rng : Rng) : outcome Error (seq (KeyId F * F)) :=
  if (threshold <= 1)%N then Err InvalidThreshold
  else
    random_coefficients <-- random_keys (threshold - 1) rng;
    if ~~ sk_check lib key then Err ZeroKey
    else try_map (share_of threshold (key :: random_coefficients)) ids.

(** The first loop of [lagrange_coefficients]: the product of all ids. *)
Fixpoint numerator_loop (numerator : F) (ids : seq (KeyId F)) : outcome Error F :=
  if ids is id :: ids' then
    let: (n, nonzero) := sk_mul_n_check lib numerator (scalar id) in
    if ~~ nonzero then Err ZeroId else numerator_loop n ids'
  else Ok numerator.

(** The inner loop: [ptr::eq] compares the position in the slice, so the ids
    come with their index. *)
Fixpoint denominator_loop (i : nat) (id_i : KeyId F) (denominator : F)
    (js : seq (nat * KeyId F)) : outcome Error F :=
  if js is (j, id_j) :: js' then
    if i == j then denominator_loop i id_i denominator js'
    else
      let: (diff, nonzero) := sk_sub_n_check lib (scalar id_j) (scalar id_i) in
      if ~~ nonzero then Err RepeatedId
      else
        let: (d, nonzero2) := sk_mul_n_check lib denominator diff in
        if ~~ nonzero2 then Panic else denominator_loop i id_i d js'
  else Ok denominator.

(** [.iter().enumerate()]. *)
Definition enumerate {A} (s : seq A) : seq (nat * A) := zip (iota 0 (size s)) s.

(** One round of the outer loop. *)
Definition coefficient_of (ids : seq (KeyId F)) (numerator : F)
    (i_id : nat * KeyId F) : outcome Error F :=
  let: (i, id_i) := i_id in
  denominator <-- denominator_loop i id_i (scalar id_i) (enumerate ids);
  let: (d, nonzero) := sk_mul_n_check lib (sk_inverse lib denominator) numerator in
  if ~~ nonzero then Panic else Ok d.

Definition lagrange_coefficients (ids : seq (KeyId F)) : outcome Error (seq F) :=
  if ids is first :: rest then
    numerator <-- numerator_loop (scalar first) rest;
    try_map (coefficient_of ids numerator) (enumerate ids)
  else Err InternalError.

Definition combine_signatures (signatures : seq Signature) (ids : seq (KeyId F))
    : outcome Error Signature :=
  if (size signatures < 2)%N then Err LessThanTwoSignatures
  else if size signatures != size ids then Err NotOneIdPerSignature
  else
    points <-- try_map (fun sig => ok_or InvalidSignature (sig_point lib sig)) signatures;
    d <-- lagrange_coefficients ids;
    Ok (sig_from_point lib (mult lib points d)).

Definition interpolate_public_key (pubkeys : seq G1) (ids : seq (KeyId F))
    : outcome Error G1 :=
  d <-- lagrange_coefficients ids;
  Ok (mult_public_keys lib pubkeys d).

(** The last loop of [validate_share_public_keys]: the base with each remaining
    share. *)
Fixpoint check_rest (expected : G1) (base_ids : seq (KeyId F)) (base_pubkeys : seq G1)
    (rest : seq (KeyId F * G1)) : outcome SharePublicKeyError unit :=
  if rest is (id, pubkey) :: rest' then
    recovered <-- map_err Ids
      (interpolate_public_key (rcons base_pubkeys pubkey) (rcons base_ids id));
    if recovered != expected then Err (NotReconstructed (num id))
    else check_rest expected base_ids base_pubkeys rest'
  else Ok tt.

Definition validate_share (share : KeyId F * Bytes)
    : outcome SharePublicKeyError (KeyId F * G1) :=
  let: (id, pubkey) := share in
  if key_validate lib pubkey is Some pk then Ok (id, pk)
  else Err (InvalidSharePublicKey (num id)).

Definition validate_share_public_keys (validator_pubkey : Bytes)
    (shares : seq (KeyId F * Bytes)) (threshold : nat)
    : outcome SharePublicKeyError unit :=
  if (threshold < 2)%N || (size shares < threshold)%N then
    Err (ShareInvalidThreshold threshold (size shares))
  else
    expected <-- ok_or InvalidValidatorPublicKey (key_validate lib validator_pubkey);
    valid <-- try_map validate_share shares;
    let: ids := unzip1 valid in
    let: pubkeys := unzip2 valid in
    let: base := (threshold - 1)%N in
    degree <-- map_err Ids (interpolate_public_key (take base pubkeys) (take base ids));
    if degree == expected then Err DegreeBelowThreshold
    else check_rest expected (take base ids) (take base pubkeys)
           (zip (drop base ids) (drop base pubkeys)).
End Blst.

(** ** Lemmas *)

Lemma and_then_ok {E A B} (m : outcome E A) (k : A -> outcome E B) b :
  and_then m k = Ok b -> exists2 a, m = Ok a & k a = Ok b.
Proof. by case: m => //= a; exists a. Qed.

(** A traversal whose failures are all the same error. *)
Lemma try_map_if {E A B} (f : A -> outcome E B) (P : pred A) g e s :
  (forall i x, onth s i = Some x -> f x = if P x then Ok (g x) else Err e) ->
  try_map f s = if all P s then Ok (map g s) else Err e.
Proof.
elim: s => //= x s IH H; rewrite (H 0%N x) //; case: (P x) => //=.
have -> := IH (fun i y => H i.+1 y); by case: (all P s).
Qed.

Lemma try_map_onth {E A B} (f : A -> outcome E B) s ys :
  try_map f s = Ok ys ->
  size ys = size s /\ forall i y, onth ys i = Some y ->
    exists2 x, onth s i = Some x & f x = Ok y.
Proof.
elim: s ys => [|x s IH] ys /=; first by case=> <-; split=> // -[].
case fx: (f x) => [y||] //=; case fs: (try_map f s) => [ys'||] //= [<-].
have [sz H] := IH _ fs; split; first by rewrite /= sz.
by case=> [z [<-]|i z /H//]; exists x.
Qed.

Lemma enumerateE {A} (x0 : A) s :
  enumerate s = mkseq (fun i => (i, nth x0 s i)) (size s).
Proof.
apply: (@eq_from_nth _ (0%N, x0)); rewrite size_zip size_iota minnn ?size_mkseq //.
by move=> i ilt; rewrite nth_zip ?size_iota // nth_iota // nth_mkseq.
Qed.

Section Theory.
Variables (F : fieldType) (G1 G2 : lmodType F).
Variables (Bytes Signature Rng : Type) (lib : Blst G1 G2 Bytes Signature Rng).
Hypothesis laws : BlstLaws lib.

(** An id made by [key_id_try_from] of a [u64]. *)
Definition key_id_ok (id : KeyId F) : bool :=
  (0 < num id < u64_bound)%N && (scalar id == scalar_from_u64 lib (num id)).

Lemma key_id_try_from_ok n id :
  (n < u64_bound)%N -> key_id_try_from lib n = Ok id -> key_id_ok id /\ num id = n.
Proof.
rewrite /key_id_try_from => nlt; case: eqP => //= /eqP n0 [<-] /=; split=> //.
by rewrite /key_id_ok /= lt0n n0 nlt eqxx.
Qed.

Lemma natr_inj_u64 a b : (a <= b)%N -> (b < u64_bound)%N -> a%:R = b%:R :> F -> a = b.
Proof.
move=> ab blt eqab; apply/eqP; rewrite eqn_leq ab /= leqNgt; apply/negP => altb.
have := field_is_large laws (n := b - a); rewrite subn_gt0 altb.
by rewrite natrB // eqab subrr eqxx (leq_ltn_trans (leq_subr _ _)) // => /(_ isT).
Qed.

Lemma key_id_ok_scalar id : key_id_ok id -> scalar id = (num id)%:R /\ scalar id != 0.
Proof.
case/andP=> /andP[n0 nlt] /eqP ->; rewrite (scalar_from_u64E laws) //; split=> //.
by apply: (field_is_large laws); rewrite n0.
Qed.

Lemma key_id_ok_inj id id' : key_id_ok id -> key_id_ok id' ->
  scalar id = scalar id' -> num id = num id'.
Proof.
move=> ok ok'; rewrite (key_id_ok_scalar ok).1 (key_id_ok_scalar ok').1.
case/andP: ok => /andP[_ lt] _; case/andP: ok' => /andP[_ lt'] _ e.
by case: (leqP (num id) (num id')) => [|/ltnW] le; [|symmetry]; apply: natr_inj_u64.
Qed.

Definition scalars (ids : seq (KeyId F)) : seq F := map (@scalar F) ids.

Lemma uniq_scalars ids : all key_id_ok ids ->
  uniq (map (@num F) ids) -> uniq (scalars ids).
Proof.
elim: ids => //= id ids IH /andP[ok oks] /andP[nin un]; rewrite IH // andbT.
apply: contra nin => /mapP[id' id'in e]; apply/mapP; exists id' => //.
exact: key_id_ok_inj ok (allP oks _ id'in) e.
Qed.

Lemma all_scalars_nonzero ids : all key_id_ok ids -> all (fun x => x != 0) (scalars ids).
Proof. by rewrite all_map; apply: sub_all => id /key_id_ok_scalar[]. Qed.

Lemma numerator_loopE n ids : n != 0 -> all (fun x => x != 0) (scalars ids) ->
  numerator_loop lib n ids = Ok (n * \prod_(x <- scalars ids) x).
Proof.
elim: ids n => [|id ids IH] n n0 /=; first by rewrite big_nil mulr1.
case/andP=> id0 ids0; rewrite (sk_mulE laws) mulf_neq0 //= IH ?mulf_neq0 //.
by rewrite big_cons mulrA.
Qed.

Lemma denominator_loopE i id_i d js : d != 0 ->
  denominator_loop lib i id_i d js =
  if all (fun j => (i == j.1) || (scalar j.2 != scalar id_i)) js
  then Ok (d * \prod_(j <- js | i != j.1) (scalar j.2 - scalar id_i))
  else Err RepeatedId.
Proof.
elim: js d => [|[j id_j] js IH] d d0 /=; first by rewrite big_nil mulr1.
rewrite big_cons /=; case: eqP => [_|_] /=; first exact: IH.
rewrite (sk_subE laws) subr_eq0; case: eqP => //= ne.
have df0 : d * (scalar id_j - scalar id_i) != 0 by rewrite mulf_neq0 // subr_eq0; apply/eqP.
by rewrite (sk_mulE laws) df0 /= IH // mulrA.
Qed.

(** The coefficient the code computes is the basis polynomial at zero. *)
Lemma basis_at_zero (xs : seq F) i : uniq xs -> all (fun x => x != 0) xs ->
  (i < size xs)%N ->
  (xs`_i * \prod_(j < size xs | j != i :> nat) (xs`_j - xs`_i))^-1 * \prod_(x <- xs) x
  = (basis xs i).[0].
Proof.
move=> us nz ilt; rewrite hornerbasis.
have -> : \prod_(x <- xs) x = xs`_i * \prod_(j < size xs | j != i :> nat) xs`_j.
  by rewrite (big_nth 0) big_mkord (bigD1 (Ordinal ilt)).
rewrite invfM mulrACA mulVf ?mul1r; first exact: (all_nthP 0 nz).
by rewrite mulrC -prodf_div; apply: eq_bigr => j _; rewrite subr0.
Qed.

(** The [i]-th id differs from the ids at the other positions. *)
Definition node_distinct (xs : seq F) (i : nat) : bool :=
  all (fun j => (i == j) || (xs`_j != xs`_i)) (iota 0 (size xs)).

Lemma uniq_node_distinct (xs : seq F) :
  uniq xs = all (node_distinct xs) (iota 0 (size xs)).
Proof.
apply/(uniqP 0)/allP => [us i|H i j ilt jlt e].
  rewrite mem_iota /= => ilt; apply/allP => j; rewrite mem_iota /= => jlt.
  by case: eqP => //= ij; apply/eqP => e; apply: ij; apply: us.
have ini : i \in iota 0 (size xs) by rewrite mem_iota.
have := allP (H _ ini) j; rewrite mem_iota /= => /(_ jlt).
by rewrite e eqxx orbF => /eqP.
Qed.

Lemma coefficient_ofE id0 (ids : seq (KeyId F)) i :
  all (fun x => x != 0) (scalars ids) -> (i < size ids)%N ->
  coefficient_of lib ids (\prod_(x <- scalars ids) x) (i, nth id0 ids i) =
  if node_distinct (scalars ids) i
  then Ok (((scalars ids)`_i *
            \prod_(j < size ids | j != i :> nat) ((scalars ids)`_j - (scalars ids)`_i))^-1
           * \prod_(x <- scalars ids) x)
  else Err RepeatedId.
Proof.
move=> nz ilt; have sxs : size (scalars ids) = size ids by rewrite size_map.
have nthx j : (j < size ids)%N -> scalar (nth id0 ids j) = (scalars ids)`_j.
  by move=> jlt; rewrite (nth_map id0).
have xi0 : (scalars ids)`_i != 0 by apply: (all_nthP 0 nz); rewrite sxs.
rewrite /coefficient_of (nthx _ ilt) denominator_loopE // (enumerateE id0) all_map.
rewrite /node_distinct sxs (nthx _ ilt).
rewrite (@eq_in_all _ _ (fun j => (i == j) || ((scalars ids)`_j != (scalars ids)`_i))).
  by move=> j; rewrite mem_iota => jlt /=; rewrite nthx.
case: ifP => //= dist; rewrite (sk_inverseE laws) (sk_mulE laws).
rewrite big_map /=; set xi := (scalars ids)`_i.
have -> : \prod_(j <- iota 0 (size ids) | i != j) (scalar (nth id0 ids j) - xi)
        = \prod_(j < size ids | j != i :> nat) ((scalars ids)`_j - xi).
  rewrite -{1}[size ids]subn0 -/(index_iota 0 (size ids)) big_mkord.
  by apply: eq_big => [j|j _]; rewrite ?nthx // eq_sym.
set den := xi * _.
suff -> : den^-1 * \prod_(x <- scalars ids) x != 0 by [].
apply: mulf_neq0; last by rewrite prodf_seq_neq0; apply: sub_all nz.
rewrite invr_eq0; apply: mulf_neq0 => //; apply/prodf_neq0 => j ji; rewrite subr_eq0.
have /allP/(_ (val j)) := dist; rewrite mem_iota /= => /(_ (ltn_ord j)).
by rewrite eq_sym (negPf ji).
Qed.

(** The coefficients are those of the Lagrange basis at zero; a repeated id is
    reported, and nothing panics. *)
Lemma lagrange_coefficientsE ids : all (fun x => x != 0) (scalars ids) -> ids != [::] ->
  lagrange_coefficients lib ids =
  if uniq (scalars ids)
  then Ok (mkseq (fun i => (basis (scalars ids) i).[0]) (size ids))
  else Err RepeatedId.
Proof.
case: ids => // id0 ids nz _; have /andP[nz0 nzs] := nz.
rewrite /lagrange_coefficients numerator_loopE // /and_then; set all_ids := id0 :: ids.
have -> : scalar id0 * \prod_(x <- scalars ids) x = \prod_(x <- scalars all_ids) x.
  by rewrite big_cons.
rewrite (@try_map_if _ _ _ _ (fun p => node_distinct (scalars all_ids) p.1)
  (fun p => ((scalars all_ids)`_p.1 * \prod_(j < size all_ids | j != p.1 :> nat)
     ((scalars all_ids)`_j - (scalars all_ids)`_p.1))^-1 * \prod_(x <- scalars all_ids) x)
  RepeatedId).
  move=> i p; rewrite (enumerateE id0) onthE -map_comp.
  case: (ltnP i (size all_ids)) => ilt; last by rewrite nth_default // size_map size_iota.
  by rewrite (nth_map 0%N) ?size_iota // nth_iota // => -[<-]; exact: (coefficient_ofE id0 nz ilt).
have -> : all (fun p => node_distinct (scalars all_ids) p.1) (enumerate all_ids)
        = uniq (scalars all_ids).
  by rewrite (enumerateE id0) all_map uniq_node_distinct size_map.
case: ifP => // dist; congr Ok; rewrite (enumerateE id0) /mkseq -map_comp.
apply/eq_in_map => i; rewrite mem_iota => ilt.
by rewrite -(basis_at_zero dist nz) size_map.
Qed.

(** Interpolation at zero, as a sum over the nodes. *)
Definition at_zero (G : lmodType F) (xs : seq F) (ps : seq G) : G :=
  \sum_(i < size xs) (basis xs i).[0] *: ps`_i.

Lemma sum_zip_mkseq (G : lmodType F) (ps : seq G) f n : size ps = n ->
  \sum_(pd <- zip ps (mkseq f n)) pd.2 *: pd.1 = \sum_(i < n) f i *: ps`_i.
Proof.
move=> sps; rewrite (big_nth (0, 0)) big_mkord size_zip size_mkseq sps minnn.
by apply: eq_bigr => i _; rewrite nth_zip ?size_mkseq //= nth_mkseq.
Qed.

Lemma interpolate_public_keyE pubkeys ids :
  all (fun x => x != 0) (scalars ids) -> ids != [::] -> size pubkeys = size ids ->
  interpolate_public_key lib pubkeys ids =
  if uniq (scalars ids) then Ok (at_zero (scalars ids) pubkeys) else Err RepeatedId.
Proof.
move=> nz ne sz; rewrite /interpolate_public_key lagrange_coefficientsE //.
case: ifP => //= _; rewrite (mult_public_keysE laws) ?size_mkseq //.
by rewrite sum_zip_mkseq // /at_zero size_map.
Qed.

(** The signatures decode to the given points. *)
Lemma combine_pointsE signatures points ids :
  map (sig_point lib) signatures = map Some points ->
  all (fun x => x != 0) (scalars ids) -> size points = size ids -> (1 < size ids)%N ->
  combine_signatures lib signatures ids =
  if uniq (scalars ids) then Ok (sig_from_point lib (at_zero (scalars ids) points))
  else Err RepeatedId.
Proof.
move=> dec nz sz gt1; have szs : size signatures = size ids.
  by rewrite -(size_map (sig_point lib)) dec size_map.
rewrite /combine_signatures szs ltnNge gt1 eqxx /=.
have -> : try_map (fun sig => ok_or InvalidSignature (sig_point lib sig)) signatures = Ok points.
  elim: signatures points dec {sz szs} => [|s ss IH] [|p ps] //= [-> /IH ->] //.
rewrite /= lagrange_coefficientsE //; first by case: (ids) gt1.
case: ifP => //= _; rewrite (multE laws) ?size_mkseq //.
by rewrite sum_zip_mkseq // /at_zero size_map.
Qed.

Lemma combine_signaturesE points ids :
  all (fun x => x != 0) (scalars ids) -> size points = size ids -> (1 < size ids)%N ->
  combine_signatures lib (map (sig_from_point lib) points) ids =
  if uniq (scalars ids) then Ok (sig_from_point lib (at_zero (scalars ids) points))
  else Err RepeatedId.
Proof.
apply: combine_pointsE; rewrite -map_comp; apply: eq_map => p; exact: sig_pointK.
Qed.

(** Splitting evaluates the polynomial with the given coefficients. *)
Lemma horner_loop_ok (cs : seq F) x y m z : (m <= size cs)%N ->
  horner_loop lib cs x y (rev (iota 0 m)) = Ok z ->
  z = y * x ^+ m + \sum_(k < m) x ^+ k * cs`_k.
Proof.
elim: m y => [|m IH] y mle; first by rewrite big_ord0 mulr1 addr0 => -[].
rewrite -addn1 iotaD rev_cat /= add0n (sk_mulE laws); case: eqP => //= _.
case E: (onth cs m) => [c|] //; rewrite (sk_addE laws); case: eqP => //= _.
have -> : c = cs`_m by move: E; rewrite onthE (nth_map 0) // => -[].
move=> /IH -> //; first exact: ltnW.
by rewrite addn1 big_ord_recr /= exprS mulrDl -!mulrA addrA [cs`_m * _]mulrC addrAC.
Qed.

Lemma share_of_ok t (cs : seq F) id s : size cs = t -> (0 < t)%N ->
  share_of lib t cs id = Ok s -> s = (id, geval (cs : seq F^o) (scalar id)).
Proof.
case: cs => [|c cs] <- // _; rewrite /share_of [size _]/= subn1 /=.
case E: horner_loop => [y||] //= [<-]; congr pair.
rewrite (horner_loop_ok _ E) //= /geval big_ord_recr /= addrC mulrC.
by congr (_ + _ * _); apply: (last_nth 0).
Qed.

Lemma random_keys_ok n rng ks : random_keys lib n rng = Ok ks ->
  size ks = n /\ all (fun k => k != 0) ks.
Proof.
elim: n rng ks => [|n IH] rng ks /=; first by case=> <-.
rewrite /random_key; case E: (random_sk lib rng) => [[k|] rng'] //=.
case Es: (random_keys lib n rng') => [ks'||] //= [<-] /=.
by have [-> ->] := IH _ _ Es; rewrite (random_sk_nonzero laws E).
Qed.

(** A successful split: the shares are the values at the ids of a polynomial
    of degree exactly [t - 1] whose value at zero is the key. *)
Lemma split_with_rng_ok key t ids rng shares :
  split_with_rng lib key t ids rng = Ok shares ->
  exists cs : seq F^o, [/\ size cs = t, (1 < t)%N, cs`_0 = key, cs`_(t - 1) != 0
    & shares = map (fun id => (id, geval cs (scalar id))) ids].
Proof.
rewrite /split_with_rng leqNgt; case: ltnP => //= gt1.
case Er: random_keys => [rs||] //=; have [szr nzr] := random_keys_ok Er.
rewrite (sk_checkE laws); case: eqP => //= /eqP key0 Em.
have szc : size (key :: rs) = t by rewrite /= szr subn1 prednK // ltnW.
exists (key :: rs : seq F^o); split=> //.
  rewrite -szr; case: (rs) szr nzr => [|r rs'] szr nzr.
    by move: gt1; rewrite -subn_gt0 -szr.
  by apply: (allP nzr); rewrite [_`_ _]/= -(last_nth 0) mem_last.
have [sz H] := try_map_onth Em; apply: (@eq_from_nth _ (MkKeyId 0 0, 0)).
  by rewrite size_map.
move=> i ilt; have ilt' : (i < size ids)%N by rewrite -sz.
have [|id Eid Es] := H i (nth (MkKeyId 0 0, 0) shares i).
  by rewrite onthE (nth_map (MkKeyId 0 0, 0)).
rewrite (nth_map (MkKeyId 0 0)) // (share_of_ok szc _ Es); first exact: ltnW.
by move: Eid; rewrite onthE (nth_map (MkKeyId 0 0)) // => -[->].
Qed.

Lemma geval_scale (cs : seq F^o) (G : lmodType F) (h : G) x :
  geval (map (fun c : F^o => (c : F) *: h) cs) x = (geval cs x : F) *: h.
Proof.
rewrite /geval size_map scaler_suml; apply: eq_bigr => k _.
by rewrite (nth_map 0) // scalerA.
Qed.

(** Interpolating the values of a polynomial at enough nodes, or at one fewer
    than it needs. *)
Lemma at_zero_geval (G : lmodType F) (xs : seq F) (c : seq G) :
  uniq xs -> (size c <= size xs)%N -> at_zero xs (map (geval c) xs) = c`_0.
Proof.
move=> us sc; rewrite -geval0 (geval_interp 0 us sc) /at_zero.
by apply: eq_bigr => i _; rewrite (nth_map 0).
Qed.

Lemma at_zero_scale (G : lmodType F) (xs : seq F) (ks : seq F^o) (h : G) :
  size ks = size xs ->
  at_zero xs (map (fun k : F => k *: h) ks) = (at_zero xs ks : F) *: h.
Proof.
move=> sz; rewrite /at_zero scaler_suml; apply: eq_bigr => i _.
by rewrite (nth_map 0) ?sz // scalerA.
Qed.

Lemma at_zero_geval_short (G : lmodType F) (xs : seq F) (c : seq G) :
  uniq xs -> all (fun x => x != 0) xs -> size c = (size xs).+1 ->
  (at_zero xs (map (geval c) xs) == c`_0) = (c`_(size xs) == 0).
Proof.
move=> us nz sc.
have -> : at_zero xs (map (geval c) xs)
        = geval c 0 - (\prod_(a <- xs) (0 - a)) *: c`_(size xs).
  rewrite -geval_interp_short //; apply: eq_bigr => i _; by rewrite (nth_map 0).
rewrite geval0 -subr_eq0 addrAC subrr sub0r oppr_eq0 scaler_eq0.
suff /negPf-> : \prod_(a <- xs) (0 - a) != 0 by [].
by rewrite prodf_seq_neq0; apply: sub_all nz => x; rewrite /= sub0r oppr_eq0.
Qed.

(** The values at the base and at zero fix one polynomial. *)
Lemma base_polynomial (G : lmodType F) (xs : seq F) (ys : seq G) (v : G) :
  uniq xs -> all (fun x => x != 0) xs -> size ys = size xs ->
  exists c : seq G, [/\ size c = (size xs).+1, c`_0 = v & map (geval c) xs = ys].
Proof.
move=> us nz sy; have u0 : uniq (0 :: xs).
  by rewrite /= us andbT; apply/negP => /(allP nz); rewrite eqxx.
have [|c [sc H]] := @geval_exists _ _ (0 :: xs) (v :: ys) u0; first by rewrite /= sy.
exists c; split=> //; first by rewrite -geval0 (H 0%N).
apply: (@eq_from_nth _ 0); rewrite size_map // => i ilt.
by rewrite (nth_map 0) //; apply: (H i.+1).
Qed.

(** One more node reconstructs the value at zero exactly if it lies on that
    polynomial. *)
Lemma at_zero_rcons (G : lmodType F) (xs : seq F) (c : seq G) x y :
  uniq (rcons xs x) -> all (fun z => z != 0) (rcons xs x) -> size c = (size xs).+1 ->
  (at_zero (rcons xs x) (rcons (map (geval c) xs) y) == c`_0) = (y == geval c x).
Proof.
move=> us nz sc; rewrite -(@at_zero_geval _ (rcons xs x) c us) ?size_rcons ?sc //.
rewrite -subr_eq0 -[RHS]subr_eq0 /at_zero -sumrB size_rcons big_ord_recr /=.
rewrite big1 => [i _|].
  rewrite -scalerBr map_rcons !nth_rcons size_map ltn_ord subrr.
  by rewrite scaler0.
rewrite add0r -scalerBr map_rcons !nth_rcons size_map ltnn eqxx scaler_eq0.
suff /negPf-> : (basis (rcons xs x) (size xs)).[0] != 0 by [].
rewrite hornerbasis; apply/prodf_neq0 => j jn.
rewrite mulf_neq0 ?invr_eq0 ?subr0 ?(all_nthP 0 nz) //.
by rewrite subr_eq0 nth_uniq // size_rcons.
Qed.

(** The shares lie on one polynomial of degree exactly [t - 1] with value [v]
    at zero. *)
Definition on_polynomial (v : G1) (t : nat) (shares : seq (KeyId F * G1)) : Prop :=
  exists c : seq G1, [/\ size c = t, c`_0 = v, c`_(t - 1) != 0
    & all (fun s => s.2 == geval c (scalar s.1)) shares].

(** The bytes of the shares decode to the keys of [valid], under the same ids. *)
Definition decodes_to (shares : seq (KeyId F * Bytes)) (valid : seq (KeyId F * G1)) : Prop :=
  unzip1 valid = unzip1 shares /\
  map (fun s => key_validate lib s.2) shares = map (fun s => Some s.2) valid.

Lemma validate_shares_spec shares :
  (exists2 valid, try_map (validate_share lib) shares = Ok valid & decodes_to shares valid)
  \/ (exists2 e, try_map (validate_share lib) shares = Err e
       & forall valid, ~ decodes_to shares valid).
Proof.
elim: shares => [|[id b] shares IH]; first by left; exists [::].
rewrite /= /validate_share; case Ek: (key_validate lib b) => [pk|] /=; last first.
  by right; eexists=> // -[|v valid] [] //= _; rewrite Ek.
case: IH => [[valid -> [e1 e2]]|[e -> H]] /=; [left|right].
  by exists ((id, pk) :: valid) => //; split; rewrite /= ?e1 // Ek e2.
exists e => // -[|v valid] [] //= [_ e1]; rewrite Ek => -[_ e2].
by apply: (H valid).
Qed.

Lemma decodes_to_inj shares v v' : decodes_to shares v -> decodes_to shares v' -> v = v'.
Proof.
move=> [a1 b1] [a2 b2]; rewrite -[v]zip_unzip -[v']zip_unzip a1 a2; congr zip.
by apply: (inj_map (f := @Some G1)) => [x y [] //|]; rewrite -!map_comp -b1 -b2.
Qed.

Lemma check_rest_spec v bids bps rest : size bps = size bids ->
  (forall r, r \in rest -> uniq (scalars (rcons bids r.1)) &&
     all (fun x => x != 0) (scalars (rcons bids r.1))) ->
  exists e, check_rest lib v bids bps rest =
    if all (fun r => at_zero (scalars (rcons bids r.1)) (rcons bps r.2) == v) rest
    then Ok tt else Err e.
Proof.
move=> sz; elim: rest => [|[id pk] rest IH] H /=; first by exists (Ids ZeroId).
have /andP[us nz] := H (id, pk) (mem_head _ _).
rewrite interpolate_public_keyE ?size_rcons ?sz //; first by case: (bids).
rewrite us /=; case: eqP => _ /=; last by eexists.
by apply: IH => r rin; apply: H; rewrite in_cons rin orbT.
Qed.

Lemma on_values (c : seq G1) (shares : seq (KeyId F * G1)) :
  all (fun s => s.2 == geval c (scalar s.1)) shares =
  (map (geval c) (scalars (unzip1 shares)) == unzip2 shares).
Proof. by elim: shares => //= -[id pk] shares IH /=; rewrite IH eqseq_cons eq_sym. Qed.

(** The two checks on the base and on the rest amount to lying on a polynomial
    of the right degree. *)
Lemma checks_on_polynomial v t base rest :
  let xs := scalars (unzip1 base) in
  uniq xs -> all (fun x => x != 0) xs -> size base = (t - 1)%N -> (0 < t)%N ->
  (forall r : KeyId F * G1, r \in rest ->
     uniq (rcons xs (scalar r.1)) && all (fun x => x != 0) (rcons xs (scalar r.1))) ->
  (at_zero xs (unzip2 base) != v) &&
    all (fun r => at_zero (rcons xs (scalar r.1)) (rcons (unzip2 base) r.2) == v) rest
  <-> on_polynomial v t (base ++ rest).
Proof.
move=> xs us nz sb t0 H; have sx : size xs = (t - 1)%N by rewrite !size_map.
have tE : t = (size xs).+1 by rewrite sx subn1 prednK.
have rest_iff c : size c = t -> c`_0 = v -> map (geval c) xs = unzip2 base ->
    all (fun r => at_zero (rcons xs (scalar r.1)) (rcons (unzip2 base) r.2) == v) rest
    = all (fun s => s.2 == geval c (scalar s.1)) rest.
  move=> sc <- <-; apply: eq_in_all => r /H /andP[ur nr].
  by rewrite at_zero_rcons // sc.
split=> [/andP[lead ok]|[c [sc c0 lead]]].
  have [|c [sc c0 cv]] := @base_polynomial _ xs (unzip2 base) v us nz.
    by rewrite !size_map.
  exists c; split; rewrite ?sc // -?sx; first by rewrite -at_zero_geval_short // cv c0.
  rewrite all_cat on_values -/xs cv eqxx -rest_iff //; by rewrite sc.
rewrite all_cat on_values -/xs => /andP[/eqP cv ok].
rewrite (rest_iff c) // ok andbT -{1}cv -c0 at_zero_geval_short // ?sc //.
by rewrite sx.
Qed.

(** Distinct ids: the base with any of the remaining shares is a list of nodes. *)
Lemma nodes_of_rest (base rest : seq (KeyId F * G1)) r :
  uniq (scalars (unzip1 (base ++ rest))) ->
  all (fun x => x != 0) (scalars (unzip1 (base ++ rest))) -> r \in rest ->
  uniq (rcons (scalars (unzip1 base)) (scalar r.1)) &&
  all (fun x => x != 0) (rcons (scalars (unzip1 base)) (scalar r.1)).
Proof.
rewrite /scalars /unzip1 !map_cat cat_uniq all_cat => /and3P[ub /hasPn nin _] /andP[nb nr] rin.
have rin' : scalar r.1 \in map (@scalar F) (map fst rest) by rewrite !map_f.
by rewrite rcons_uniq all_rcons ub (nin _ rin') nb (allP nr).
Qed.

(** The checks that follow the decoding. *)
Definition check_shares (v : G1) (valid : seq (KeyId F * G1)) (t : nat) :=
  let: base := (t - 1)%N in
  degree <-- map_err Ids
    (interpolate_public_key lib (take base (unzip2 valid)) (take base (unzip1 valid)));
  if degree == v then Err DegreeBelowThreshold
  else check_rest lib v (take base (unzip1 valid)) (take base (unzip2 valid))
         (zip (drop base (unzip1 valid)) (drop base (unzip2 valid))).

Lemma check_shares_iff v valid t : (1 < t <= size valid)%N ->
  uniq (scalars (unzip1 valid)) -> all (fun x => x != 0) (scalars (unzip1 valid)) ->
  check_shares v valid t <> Panic /\
  (check_shares v valid t = Ok tt <-> on_polynomial v t valid).
Proof.
case/andP=> gt1 le us nz; rewrite /check_shares.
have sb : size (take (t - 1) valid) = (t - 1)%N.
  by rewrite size_takel // (leq_trans (leq_subr _ _)).
have b_ne : unzip1 (take (t - 1) valid) != [::].
  by rewrite -size_eq0 size_map sb -lt0n subn_gt0.
rewrite /unzip1 /unzip2 -!map_take -!map_drop zip_unzip -/(unzip1 _) -/(unzip2 _).
have -> : on_polynomial v t valid
        = on_polynomial v t (take (t - 1) valid ++ drop (t - 1) valid).
  by rewrite cat_take_drop.
have /andP[ub nb] : uniq (scalars (unzip1 (take (t - 1) valid))) &&
    all (fun x => x != 0) (scalars (unzip1 (take (t - 1) valid))).
  rewrite /scalars /unzip1 !map_take take_uniq //=.
  by move: nz; rewrite -{1}(cat_take_drop (t - 1) (scalars _)) all_cat => /andP[].
have H r := nodes_of_rest (base := take (t - 1) valid) (rest := drop (t - 1) valid) (r := r).
rewrite cat_take_drop in H; have {}H r := H r us nz.
move: (take (t - 1) valid) (drop (t - 1) valid) sb b_ne ub nb H => base rest sb b_ne ub nb H.
rewrite interpolate_public_keyE ?size_map // ub /=.
have := @checks_on_polynomial v t base rest ub nb sb (ltnW gt1) H.
have [||e ->] := @check_rest_spec v (unzip1 base) (unzip2 base) rest.
- by rewrite !size_map.
- by move=> r /H; rewrite /scalars map_rcons.
case: eqP => _ /= iff_c; first by split=> //; apply: iff_trans iff_c.
rewrite (@eq_all _ _ (fun r => at_zero (rcons (scalars (unzip1 base)) (scalar r.1))
  (rcons (unzip2 base) r.2) == v)); first by move=> r; rewrite /scalars map_rcons.
by split; [case: ifP | apply: iff_trans iff_c; case: ifP].
Qed.

(** Either something does not decode or the threshold is out of range, or the
    checks decide. *)
Lemma validate_cases vk shares t :
  (exists2 e, validate_share_public_keys lib vk shares t = Err e
     & ~ ((1 < t <= size shares)%N /\ exists v valid,
          key_validate lib vk = Some v /\ decodes_to shares valid)) \/
  (exists v valid, [/\ (1 < t <= size shares)%N, key_validate lib vk = Some v,
     decodes_to shares valid
     & validate_share_public_keys lib vk shares t = check_shares v valid t]).
Proof.
rewrite /validate_share_public_keys [(t < 2)%N]ltnNge.
case: (ltnP 1 t) => [gt1|_] /=; last by left; eexists=> // -[].
rewrite ltnNge; case: (leqP t (size shares)) => [le|_] /=; last by left; eexists=> // -[].
case Ev: (key_validate lib vk) => [v|] /=; last by left; eexists=> // -[_ [? [? []]]].
case: (validate_shares_spec shares) => [[valid -> dec]|[e -> H]] /=.
  by right; exists v, valid.
by left; exists e => // -[_ [? [valid [_ /H]]]].
Qed.

(** For distinct ids the decoded keys are distinct nodes. *)
Lemma decoded_nodes shares valid :
  all key_id_ok (unzip1 shares) -> uniq (map (@num F) (unzip1 shares)) ->
  decodes_to shares valid ->
  [/\ size valid = size shares, uniq (scalars (unzip1 valid))
     & all (fun x => x != 0) (scalars (unzip1 valid))].
Proof.
move=> oks un [ids_eq _]; rewrite -ids_eq in oks un; split.
- by rewrite -(size_map fst valid) -(size_map fst shares) -!/(unzip1 _) ids_eq.
- exact: uniq_scalars.
- exact: all_scalars_nonzero.
Qed.

(** ** What the crate promises *)

Lemma sig_from_point_inj : injective (sig_from_point lib).
Proof. by move=> g g' e; apply: Some_inj; rewrite -!(sig_pointK laws) e. Qed.

(** C27: any [t] of the shares made by [split_with_rng] sign for the key, and
    [t - 1] of them do not.  Let [combined] be the combination of the partial signatures
    of some shares with distinct ids on a message whose hash point is [h].  With
    at least [t] shares it is the signature of the validator key; with exactly
    [t - 1] it is another signature. *)
Theorem split_combine_threshold key t ids rng shares (sel : seq (KeyId F * F)) (h : G2) :
  all key_id_ok ids ->
  split_with_rng lib key t ids rng = Ok shares ->
  {subset sel <= shares} ->
  uniq (map (fun s => num s.1) sel) ->
  (1 < size sel)%N -> h != 0 ->
  let combined := combine_signatures lib
    [seq sig_from_point lib (s.2 *: h) | s <- sel] [seq s.1 | s <- sel] in
  ((t <= size sel)%N -> combined = Ok (sig_from_point lib (key *: h))) /\
  (size sel = (t - 1)%N -> exists2 k, combined = Ok (sig_from_point lib (k *: h))
     & sig_from_point lib (k *: h) <> sig_from_point lib (key *: h)).
Proof.
move=> oks /split_with_rng_ok[cs [scs gt1 c0 lead ->]] sub un gt1s h0.
have selE s : s \in sel -> s.1 \in ids /\ s.2 = geval cs (scalar s.1).
  by move/sub/mapP=> [id idin ->].
have oks' : all key_id_ok (unzip1 sel).
  by apply/allP => id /mapP[s /selE[sin _] ->]; apply: (allP oks).
have us : uniq (scalars (unzip1 sel)) by apply: uniq_scalars; rewrite // -map_comp.
have nz := all_scalars_nonzero oks'.
have valE : map snd sel = map (geval cs) (scalars (unzip1 sel)) :> seq F.
  by rewrite -!map_comp; apply/eq_in_map => s /selE[].
have -> : [seq sig_from_point lib (s.2 *: h) | s <- sel]
        = map (sig_from_point lib) (map (fun k : F => k *: h) (map snd sel)).
  by rewrite -!map_comp.
have sx : size (scalars (unzip1 sel)) = size sel by rewrite !size_map.
rewrite combine_signaturesE ?size_map // us at_zero_scale ?size_map // valE.
split=> [le|sz]; first by rewrite at_zero_geval ?c0 ?scs ?sx.
exists (at_zero (scalars (unzip1 sel)) (map (geval cs) (scalars (unzip1 sel)))) => //.
have szc : size cs = (size (scalars (unzip1 sel))).+1.
  by rewrite sx sz scs subn1 prednK // ltnW.
have := at_zero_geval_short us nz szc; rewrite sx sz c0 (negPf lead) => /negbT ne.
move/sig_from_point_inj/eqP; rewrite -subr_eq0 -scalerBl scaler_eq0 (negPf h0) orbF.
by rewrite subr_eq0 (negPf ne).
Qed.

(** [validate_share_public_keys] accepts, for distinct ids, exactly the
    shares that decode to points of one polynomial of degree [threshold - 1]
    through the validator key at zero, with a threshold of at least two and at
    most the number of shares; and none of its asserts fails. *)
Theorem validate_share_public_keys_iff vk shares t :
  all key_id_ok (unzip1 shares) -> uniq (map (@num F) (unzip1 shares)) ->
  validate_share_public_keys lib vk shares t <> Panic /\
  (validate_share_public_keys lib vk shares t = Ok tt <->
   (1 < t <= size shares)%N /\ exists v valid, [/\ key_validate lib vk = Some v,
     decodes_to shares valid & on_polynomial v t valid]).
Proof.
move=> oks un; case: (validate_cases vk shares t) => [[e -> H]|].
  by split=> //; split=> // -[lt [v [valid [Ev dec _]]]]; case: H; split=> //; exists v, valid.
case=> v [valid [lt Ev dec ->]]; have [szv us nz] := decoded_nodes oks un dec.
have [|np iff_c] := @check_shares_iff v valid t _ us nz; first by rewrite szv.
split=> //; apply: (iff_trans iff_c); split=> [on|]; first by split=> //; exists v, valid.
by rewrite Ev => -[_ [_ [valid' [[<-] /(decodes_to_inj dec) <-]]]].
Qed.

(** The keys of accepted shares lie on a polynomial through the validator key. *)
Lemma validated_polynomial vk shares t :
  all key_id_ok (unzip1 shares) -> uniq (map (@num F) (unzip1 shares)) ->
  validate_share_public_keys lib vk shares t = Ok tt ->
  exists v valid, [/\ (1 < t)%N, key_validate lib vk = Some v, decodes_to shares valid
    & on_polynomial v t valid].
Proof.
move=> oks un; case: (validate_cases vk shares t) => [[e -> //]|].
case=> v [valid [lt Ev dec ->]]; have [szv us nz] := decoded_nodes oks un dec.
have [|_ [iff_c _]] := @check_shares_iff v valid t _ us nz; first by rewrite szv.
by move=> /iff_c on; exists v, valid; case/andP: lt.
Qed.

Lemma decodes_to_onth shares valid i id b : decodes_to shares valid ->
  onth shares i = Some (id, b) -> exists2 pk, (id, pk) \in valid & key_validate lib b = Some pk.
Proof.
elim: shares valid i => [|[id' b'] shares IH] valid i; first by case: i.
case: valid => [|[id'' pk] valid] [//= [e0 e1] [e2 e3]].
case: i => [[<- <-]|i /IH H] /=; first by exists pk; rewrite // e0 mem_head.
by have [//|pk' pin ->] := H valid; exists pk'; rewrite // in_cons pin orbT.
Qed.

(** shares accepted by [validate_share_public_keys] can sign.  If the
    announced keys are the public keys of the operators' secret shares, any
    [t] operators with distinct ids combine their partial signatures to the
    signature of the validator key. *)
Theorem validated_shares_sign vk shares t (g1 : G1) key (sel : seq (KeyId F * F)) (h : G2) :
  all key_id_ok (unzip1 shares) -> uniq (map (@num F) (unzip1 shares)) ->
  validate_share_public_keys lib vk shares t = Ok tt ->
  g1 != 0 -> key_validate lib vk = Some (key *: g1) ->
  (forall s, s \in sel -> exists i b, onth shares i = Some (s.1, b) /\
     key_validate lib b = Some (s.2 *: g1)) ->
  uniq (map (fun s => num s.1) sel) -> (t <= size sel)%N ->
  combine_signatures lib [seq sig_from_point lib (s.2 *: h) | s <- sel] [seq s.1 | s <- sel]
  = Ok (sig_from_point lib (key *: h)).
Proof.
move=> oks un /(validated_polynomial oks un)[v [valid [gt1 Ev dec [c [sc c0 _ /allP cv]]]]] g0.
rewrite Ev => -[{}Ev] H uns le.
have selE s : s \in sel -> key_id_ok s.1 /\ s.2 *: g1 = geval c (scalar s.1).
  move=> /H[i [b [Ei Eb]]]; have [pk pin] := decodes_to_onth dec Ei.
  rewrite Eb => -[Ek]; split; last by rewrite Ek; apply/eqP; apply: (cv (s.1, pk)).
  by apply: (allP oks); rewrite -dec.1 (map_f fst pin).
have oks' : all key_id_ok (unzip1 sel) by apply/allP => id /mapP[s /selE[ok _] ->].
have us : uniq (scalars (unzip1 sel)) by apply: uniq_scalars; rewrite // -map_comp.
have nz := all_scalars_nonzero oks'.
have -> : [seq sig_from_point lib (s.2 *: h) | s <- sel]
        = map (sig_from_point lib) (map (fun k : F => k *: h) (map snd sel)).
  by rewrite -!map_comp.
have sx : size (scalars (unzip1 sel)) = size sel by rewrite !size_map.
rewrite combine_signaturesE ?size_map // ?(leq_trans gt1) // us at_zero_scale ?size_map //.
congr (Ok (sig_from_point lib (_ *: h))); apply/eqP; rewrite -subr_eq0.
suff : (at_zero (scalars (unzip1 sel)) (map snd sel : seq F^o) - key : F) *: g1 == 0.
  by rewrite scaler_eq0 (negPf g0) orbF.
rewrite scalerBl -at_zero_scale ?size_map // -Ev -c0 subr_eq0; apply/eqP.
rewrite -(at_zero_geval us) ?sc ?sx //; congr at_zero.
by rewrite -!map_comp; apply/eq_in_map => s /selE[].
Qed.
End Theory.

(** ** An instance over the rationals *)

Module SampleBlst.
Import Num.Theory.

Definition msm (ps ds : seq rat) : rat :=
  foldr (fun pd acc => pd.2 * pd.1 + acc) 0 (zip ps ds).

Lemma msmE ps ds : msm ps ds = \sum_(pd <- zip ps ds) (pd.2 : rat) *: (pd.1 : rat^o).
Proof.
by rewrite /msm; elim: (zip ps ds) => [|pd s IH]; rewrite ?big_nil //= big_cons IH.
Qed.

(** Keys and signatures are rational numbers; the point at infinity is not a
    valid key; the random keys are all two. *)
Definition lib : @Blst rat rat^o rat^o rat rat unit :=
  @MkBlst rat rat^o rat^o rat rat unit (fun n => n%:R) (fun a b => (a * b, a * b != 0)) (fun a b => (a + b, a + b != 0))
    (fun a b => (a - b, a - b != 0)) (fun a => a^-1) (fun a => a != 0)
    (fun rng => (Some 2%:R, rng)) (fun b => if b != 0 then Some b else None)
    msm (fun s => Some s) id msm.

Lemma lib_laws : BlstLaws lib.
Proof.
split=> //; try by move=> ps ds _; apply: msmE.
- by move=> n /andP[n0 _]; rewrite pnatr_eq0 -lt0n.
- by move=> rng sk rng' [<- _].
Qed.

Definition id_of (n : nat) : KeyId rat := MkKeyId n n%:R.
Definition ids : seq (KeyId rat) := [:: id_of 1; id_of 2; id_of 3].

(** The key five, split in three with threshold two: f(x) = 5 + 2x. *)
Definition shares : seq (KeyId rat * rat) :=
  [:: (id_of 1, 7%:R); (id_of 2, 9%:R); (id_of 3, 11%:R)].

Lemma split_shares : split_with_rng lib 5%:R 2 ids tt = Ok shares.
Proof. by vm_compute. Qed.

Lemma id_of_ok n : (0 < n < 64)%N -> key_id_ok lib (id_of n).
Proof.
case/andP=> n0 nlt; apply/andP; split; last exact: eqxx.
by rewrite n0; apply: ltn_trans nlt _; apply: ltn_expl.
Qed.

Lemma ids_ok : all (key_id_ok lib) ids.
Proof. by apply/and4P; split=> //; apply: id_of_ok. Qed.

(** The operators with ids one and three. *)
Definition quorum : seq (KeyId rat * rat) := [:: (id_of 1, 7%:R); (id_of 3, 11%:R)].

Lemma split_combine_threshold_witness :
  combine_signatures lib [:: 7%:R; 11%:R] [:: id_of 1; id_of 3] = Ok 5%:R.
Proof.
have := (split_combine_threshold lib_laws (sel := quorum) (h := 1) ids_ok split_shares).
case.
- by move=> s; rewrite !inE => /orP[]/eqP->; rewrite eqxx ?orbT.
- by [].
- by [].
- exact: oner_neq0.
by move=> H _; move: (H isT); rewrite /= /GRing.scale /= !mulr1.
Defined.

Definition public_shares : seq (KeyId rat * rat) := shares.

Lemma public_nums : uniq (map (@num rat) (unzip1 public_shares)).
Proof. by []. Qed.

Lemma validate_public : validate_share_public_keys lib 5%:R public_shares 2 = Ok tt.
Proof. by vm_compute. Qed.

Lemma validate_share_public_keys_iff_witness :
  exists v valid, [/\ key_validate lib 5%:R = Some v,
     decodes_to lib public_shares valid & on_polynomial v 2 valid].
Proof.
have [_ [H _]] :=
  @validate_share_public_keys_iff _ _ _ _ _ _ _ lib_laws 5%:R public_shares 2 ids_ok public_nums.
by case: (H validate_public).
Defined.

Lemma validated_shares_sign_witness :
  combine_signatures lib [:: 7%:R; 11%:R] [:: id_of 1; id_of 3] = Ok 5%:R.
Proof.
have := @validated_shares_sign _ _ _ _ _ _ _ lib_laws 5%:R public_shares 2 1 5%:R quorum 1
  ids_ok public_nums validate_public (oner_neq0 _).
rewrite /= /GRing.scale /= !mulr1; apply=> //.
move=> s; rewrite !inE => /orP[]/eqP->.
- by exists 0%N, 7%:R.
- by exists 2%N, 11%:R.
Defined.
End SampleBlst.
