(* ===== verification/BlsInterface.v ===== *)
(** * What the rest of the program relies on of threshold signatures

    The signature collector and the database use [bls] and [common/bls_lagrange] through
    five operations.  [BlsLib] lists them; [ThresholdScheme] is what the
    collector needs: partial signatures that verify under validated share keys combine to
    a signature that verifies under the validator key, and combining never panics.  The arithmetic behind it is in
    [ThresholdBls.v], which proves the promise for the crate's own
    [combine_signatures] and [validate_share_public_keys]; the clients
    are proved against this interface alone. *)

From Stdlib Require Import List NArith.
Import ListNotations.

(** A call that returns a [Result] and may panic. *)
Inductive CombineResult (E S : Type) : Type :=
  | Combined (signature : S)
  | CombineError (error : E)
  | CombinePanic.
Arguments Combined {E S} signature.
Arguments CombineError {E S} error.
Arguments CombinePanic {E S}.

(** The ids are [u64]s. *)
Definition u64_limit : N := 2 ^ 64.

Class BlsLib (Signature PublicKey KeyBytes Root Error : Type) := {
  (** [PublicKeyBytes::decompress] *)
  decompress : KeyBytes -> option PublicKey;
  (** [Signature::verify] *)
  sig_verify : Signature -> PublicKey -> Root -> bool;
  (** The partial signatures with the ids of their signers, to [KeyId::try_from] and
      [bls_lagrange::combine_signatures]. *)
  combine_shares : list (N * Signature) -> CombineResult Error Signature;
  (** [bls_lagrange::validate_share_public_keys(..).is_ok()] *)
  shares_validated : KeyBytes -> list (N * KeyBytes) -> nat -> bool;
}.

Section scheme.
Context {Signature PublicKey KeyBytes Root Error : Type}.
Context {Lib : BlsLib Signature PublicKey KeyBytes Root Error}.

(** The signature verifies under the key that the shares list for the operator. *)
Definition verified_share (shares : list (N * KeyBytes)) (root : Root)
    (share : N * Signature) : Prop :=
  exists b pk, In (fst share, b) shares /\ decompress b = Some pk /\
    sig_verify (snd share) pk root = true.

Class ThresholdScheme : Prop := {
  verified_shares_combine vk pk shares threshold root (sel : list (N * Signature)) :
    Forall (fun s => 0 < fst s /\ fst s < u64_limit)%N shares -> NoDup (map fst shares) ->
    shares_validated vk shares threshold = true -> decompress vk = Some pk ->
    NoDup (map fst sel) -> threshold <= length sel ->
    Forall (verified_share shares root) sel ->
    exists s, combine_shares sel = Combined s /\ sig_verify s pk root = true;
  combine_no_panic (sel : list (N * Signature)) :
    Forall (fun s => fst s < u64_limit)%N sel -> combine_shares sel <> CombinePanic;
}.
End scheme.
Arguments ThresholdScheme {_ _ _ _ _} Lib.
