(* ===== verification/ThresholdBls.v ===== *)
(** * Threshold BLS signatures implement their interface

    [BlsInterface.v] states what the signature collector relies on.  Here the
    operations of the interface are those of the code ([combine_signatures] of
    [signature_collector/src/lib.rs], which calls [common/bls_lagrange]), over
    the foreign library of [BlsLagrange.v] extended with signature verification.
    Verification is the pairing equation; that the pairing is bilinear is all
    the promise needs. *)

From Stdlib Require NArith List.
From HB Require Import structures.
From mathcomp Require Import boot algebra.
From S2P Require Import Interpolation BlsLagrange BlsInterface.

Set Implicit Arguments.
Unset Strict Implicit.
Unset Printing Implicit Defensive.

Import GRing.Theory.
Local Open Scope ring_scope.

Section Scheme.
Variables (F : fieldType) (G1 G2 GT : lmodType F).
Variables (Bytes Signature Rng Root : Type) (lib : Blst G1 G2 Bytes Signature Rng).
(** Hashing to the curve, the generator of the public keys and the pairing of [blst]. *)
Variables (hash_to_curve : Root -> G2) (generator : G1) (pairing : G1 -> G2 -> GT).
(** [bls::Signature::verify] and [bls::PublicKeyBytes::decompress]. *)
Variables (verify : Signature -> G1 -> Root -> bool) (decompress_key : Bytes -> option G1).

(** The documented behaviour of verification: the pairing is bilinear, a
    signature that verifies is a point that satisfies the pairing equation, a
    point that satisfies it verifies, and a key is decompressed by
    [key_validate], which rejects the point at infinity. *)
Record PairingLaws : Prop := MkPairingLaws {
  pairingDl : forall p q r, pairing (p + q) r = pairing p r + pairing q r;
  pairingZl : forall a p r, pairing (a *: p) r = a *: pairing p r;
  pairingDr : forall p q r, pairing p (q + r) = pairing p q + pairing p r;
  pairingZr : forall a p q, pairing p (a *: q) = a *: pairing p q;
  verify_point : forall s pk m, verify s pk m -> exists2 p, sig_point lib s = Some p
    & pairing pk (hash_to_curve m) = pairing generator p;
  verify_from_point : forall p pk m, pk != 0 ->
    pairing pk (hash_to_curve m) = pairing generator p -> verify (sig_from_point lib p) pk m;
  decompress_validates : forall b, decompress_key b = key_validate lib b;
  key_validate_nonzero : forall b pk, key_validate lib b = Some pk -> pk != 0
}.

(** ** The operations of the interface *)

(** The [KeyId::try_from] of every id, collected. *)
Definition with_key_ids {A} (shares : seq (BinNums.N * A)) : outcome Error (seq (KeyId F * A)) :=
  try_map (fun share => key_id <-- key_id_try_from lib (BinNat.N.to_nat share.1);
                        Ok (key_id, share.2)) shares.

Definition result_of {E A} (o : outcome E A) : CombineResult E A :=
  match o with
  | Ok a => Combined a
  | Err e => CombineError e
  | Panic => CombinePanic
  end.

(** [combine_signatures] of the collector. *)
Definition collector_combine_signatures (shares : seq (BinNums.N * Signature))
    : CombineResult Error Signature :=
  result_of (pairs <-- with_key_ids shares;
             combine_signatures lib (unzip2 pairs) (unzip1 pairs)).

Definition share_keys_validated (vk : Bytes) (shares : seq (BinNums.N * Bytes)) (t : nat) : bool :=
  if with_key_ids shares is Ok pairs then
    if validate_share_public_keys lib vk pairs t is Ok _ then true else false
  else false.

Definition blst_lib : BlsLib Signature G1 Bytes Root Error := {|
  decompress := decompress_key;
  sig_verify := verify;
  combine_shares := collector_combine_signatures;
  shares_validated := share_keys_validated
|}.

(** ** Lemmas *)

Hypothesis laws : BlstLaws lib.
Hypothesis pairing_laws : PairingLaws.

Lemma pairing0l r : pairing 0 r = 0.
Proof. by rewrite -(scale0r 0) (pairingZl pairing_laws) scale0r. Qed.

Lemma pairing0r p : pairing p 0 = 0.
Proof. by rewrite -(scale0r 0) (pairingZr pairing_laws) scale0r. Qed.

Lemma pairing_at_zero_l xs (ps : seq G1) r : size ps = size xs ->
  pairing (at_zero xs ps) r = at_zero xs (map (pairing^~ r) ps).
Proof.
move=> sz; rewrite /at_zero (big_morph (pairing^~ r) (id1 := 0) (op1 := +%R)) ?pairing0l //.
  by move=> p q; apply: (pairingDl pairing_laws).
by apply: eq_bigr => i _; rewrite (pairingZl pairing_laws) (nth_map 0) ?sz.
Qed.

Lemma pairing_at_zero_r xs p (qs : seq G2) : size qs = size xs ->
  pairing p (at_zero xs qs) = at_zero xs (map (pairing p) qs).
Proof.
move=> sz; rewrite /at_zero (big_morph (pairing p) (id1 := 0) (op1 := +%R)) ?pairing0r //.
  by move=> q r; apply: (pairingDr pairing_laws).
by apply: eq_bigr => i _; rewrite (pairingZr pairing_laws) (nth_map 0) ?sz.
Qed.

Definition key_id_of (n : BinNums.N) : KeyId F :=
  MkKeyId (BinNat.N.to_nat n) (scalar_from_u64 lib (BinNat.N.to_nat n)).

Definition id_in_range (n : BinNums.N) : bool := (0 < BinNat.N.to_nat n < u64_bound)%N.

Lemma with_key_idsE {A} (shares : seq (BinNums.N * A)) :
  all (fun s => id_in_range s.1) shares ->
  with_key_ids shares = Ok [seq (key_id_of s.1, s.2) | s <- shares].
Proof.
rewrite /with_key_ids; elim: shares => //= s shares IH /andP[/andP[s0 _] /IH ->].
by rewrite /key_id_try_from -lt0n s0.
Qed.

Lemma key_id_of_ok n : id_in_range n -> key_id_ok lib (key_id_of n).
Proof. by rewrite /key_id_ok /= eqxx andbT. Qed.

Lemma u64_boundE : u64_bound = BinNat.N.to_nat u64_limit.
Proof.
have powE n : (2 ^ n)%N = PeanoNat.Nat.pow 2%N n by elim: n => //= n <-; rewrite expnS.
by rewrite /u64_limit Nnat.N2Nat.inj_pow /u64_bound powE.
Qed.

Lemma N_ltP a b : BinNat.N.lt a b -> (BinNat.N.to_nat a < BinNat.N.to_nat b)%N.
Proof.
move=> lt; apply/ltP; apply/PeanoNat.Nat.compare_lt_iff.
by rewrite -Nnat.N2Nat.inj_compare.
Qed.

Lemma id_in_rangeP n : BinNat.N.lt BinNums.N0 n /\ BinNat.N.lt n u64_limit -> id_in_range n.
Proof. by case=> /N_ltP lo /N_ltP hi; rewrite /id_in_range u64_boundE lo hi. Qed.

Lemma NoDup_uniq (ids : seq BinNums.N) : List.NoDup ids -> uniq (map BinNat.N.to_nat ids).
Proof.
elim: ids => //= n ids IH nd; case/List.NoDup_cons_iff: nd => nin /IH ->; rewrite andbT.
apply/negP => /mapP[m min /Nnat.N2Nat.inj e]; apply: nin; rewrite e.
elim: (ids) min => //= k ks IHk; rewrite in_cons => /orP[/eqP->|/IHk]; by [left|right].
Qed.

Lemma Forall_all {A} (P : A -> Prop) (p : pred A) s :
  (forall x, P x -> p x) -> List.Forall P s -> all p s.
Proof. by move=> PQ; elim=> //= x s' /PQ -> _ ->. Qed.

Lemma key_ids_ok {A} (shares : seq (BinNums.N * A)) :
  all (fun s => id_in_range s.1) shares -> List.NoDup (List.map fst shares) ->
  let: ids := unzip1 [seq (key_id_of s.1, s.2) | s <- shares] in
  all (key_id_ok lib) ids /\ uniq (map (@num F) ids).
Proof.
move=> rng nd; rewrite /unzip1 -!map_comp; split; last first.
  by have := NoDup_uniq nd; rewrite -map_comp.
by rewrite all_map; apply: sub_all rng => s; apply: key_id_of_ok.
Qed.

(** A member of the announced shares decodes to the value of the polynomial at its id. *)
Lemma announced_value (shares : seq (BinNums.N * Bytes)) valid (c : seq G1) n b pk :
  decodes_to lib [seq (key_id_of s.1, s.2) | s <- shares] valid ->
  all (fun s => s.2 == geval c (scalar s.1)) valid ->
  List.In (n, b) shares -> decompress_key b = Some pk ->
  pk = geval c (scalar (key_id_of n)).
Proof.
move=> dec cv inb; rewrite (decompress_validates pairing_laws) => Eb.
have [i Ei] : exists i, onth [seq (key_id_of s.1, s.2) | s <- shares] i = Some (key_id_of n, b).
  elim: (shares) inb => //= s ss IH [->|/IH[i Ei]]; by [exists 0%N | exists i.+1].
have [pk' pin] := decodes_to_onth dec Ei; rewrite Eb => -[Ek].
by apply/eqP; rewrite Ek; apply: (allP cv (key_id_of n, pk')).
Qed.

(** The points behind verified partial signatures: the announced keys lie on the
    polynomial, and each signature pairs like its key. *)
Lemma verified_points shares valid (c : seq G1) root sel :
  decodes_to lib [seq (key_id_of s.1, s.2) | s <- shares] valid ->
  all (fun s => s.2 == geval c (scalar s.1)) valid ->
  List.Forall (verified_share (Lib := blst_lib) shares root) sel ->
  exists points : seq G2, map (sig_point lib) (unzip2 sel) = map Some points /\
    map (pairing generator) points =
    map (pairing^~ (hash_to_curve root)) (map (geval c) (scalars (map key_id_of (unzip1 sel)))).
Proof.
move=> dec cv; elim=> [|s {}sel [b [pk [inb [Eb vf]]]] _ [points [E1 E2]]]; first by exists [::].
have [p Ep Epair] := verify_point pairing_laws vf.
exists (p :: points); split; first by rewrite /= E1 Ep.
by rewrite /= E2 -Epair (announced_value dec cv inb Eb).
Qed.

Lemma selected_in_range shares root sel :
  all (fun s => id_in_range s.1) shares ->
  List.Forall (verified_share (Lib := blst_lib) shares root) sel ->
  all (fun s => id_in_range s.1) sel.
Proof.
move=> rng; apply: Forall_all => s [b [_ [inb _]]].
elim: (shares) rng inb => //= s' ss IH /andP[r rs] [e|/(IH rs)] //.
by rewrite e in r.
Qed.

Lemma try_map_total {E A B} (f : A -> outcome E B) s :
  (forall x, f x <> Panic) -> try_map f s <> Panic.
Proof.
move=> tot; elim: s => //= x s IH; case E1: (f x) => [y||] //=; last by have := tot x.
by case: (try_map f s) IH.
Qed.

Lemma with_key_ids_ok {A} (shares : seq (BinNums.N * A)) pairs :
  all (fun s => (BinNat.N.to_nat s.1 < u64_bound)%N) shares ->
  with_key_ids shares = Ok pairs -> all (key_id_ok lib) (unzip1 pairs).
Proof.
rewrite /with_key_ids; elim: shares pairs => [|s shares IH] pairs /=; first by move=> _ [<-].
move=> /andP[lt rng]; rewrite /key_id_try_from; case: eqP => //= /eqP n0.
case E: try_map => [ps||] //= [<-] /=; rewrite (IH _ rng E) andbT.
by apply: key_id_of_ok; rewrite /id_in_range lt0n n0.
Qed.

(** No assert of the combination fails, whatever the shares are. *)
Lemma combine_total shares : all (fun s => (BinNat.N.to_nat s.1 < u64_bound)%N) shares ->
  collector_combine_signatures shares <> CombinePanic.
Proof.
move=> rng; rewrite /collector_combine_signatures.
have := @try_map_total _ _ _ (fun share : BinNums.N * Signature =>
  key_id <-- key_id_try_from lib (BinNat.N.to_nat share.1); Ok (key_id, share.2)) shares.
rewrite -/(with_key_ids shares) => tot.
case E: (with_key_ids shares) tot => [pairs||] tot //=; last first.
  by case: tot => // x; rewrite /key_id_try_from; case: ifP.
have oks := with_key_ids_ok rng E; rewrite /combine_signatures; case: ifP => // gt1.
case: eqP => //= sz; have := @try_map_total _ _ _ (fun sig =>
  ok_or InvalidSignature (sig_point lib sig)) (unzip2 pairs).
case: try_map => [points _||tot'] //=; last by case: tot' => // x; case: sig_point.
have ne : unzip1 pairs != [::] by apply/eqP => e; move: gt1; rewrite sz e.
by rewrite (lagrange_coefficientsE laws (all_scalars_nonzero laws oks) ne); case: ifP.
Qed.

(** C18: the crate keeps the promise of the interface.  For share keys that its check
    accepts, with distinct ids in the range of a [u64], any threshold-many partial
    signatures with distinct ids that verify under their share keys combine, and the
    result verifies under the validator key; and combining never panics for ids in
    range.  This is what the signature collector is proved against. *)
Theorem blst_threshold_scheme : ThresholdScheme blst_lib.
Proof.
split=> [vk pk shares t root sel in_range nd val Epk nds /leP le vs|sel in_range]; last first.
  by apply: combine_total; apply: Forall_all in_range => s /N_ltP; rewrite u64_boundE.
have rng : all (fun s => id_in_range s.1) shares.
  by apply: Forall_all in_range => s; apply: id_in_rangeP.
have [oks un] := key_ids_ok rng nd.
move: val; rewrite /= /share_keys_validated with_key_idsE //.
case E: validate_share_public_keys => [[]||] // _.
have [v [valid [gt1 Ev dec [c [sc c0 _ cv]]]]] := validated_polynomial laws oks un E.
have [points [Ep Epair]] := verified_points dec cv vs.
have rngs := selected_in_range rng vs; have [oks' un'] := key_ids_ok rngs nds.
have idsE : unzip1 [seq (key_id_of s.1, s.2) | s <- sel] = map key_id_of (unzip1 sel).
  by rewrite /unzip1 -!map_comp.
have sigsE : unzip2 [seq (key_id_of s.1, s.2) | s <- sel] = unzip2 sel.
  by rewrite /unzip2 -map_comp.
have szs : size (map key_id_of (unzip1 sel)) = size sel by rewrite !size_map.
have szp : size points = size sel by rewrite -(size_map Some) -Ep !size_map.
rewrite idsE in oks' un'; have us := uniq_scalars laws oks' un'.
exists (sig_from_point lib (at_zero (scalars (map key_id_of (unzip1 sel))) points)); split.
  rewrite /collector_combine_signatures with_key_idsE //= idsE sigsE.
  rewrite (combine_pointsE laws Ep) ?us ?szp ?szs //; last exact: leq_trans gt1 le.
  exact: all_scalars_nonzero oks'.
have ve : pk = v.
  by move: Epk; rewrite /= (decompress_validates pairing_laws) Ev => -[].
apply: (verify_from_point pairing_laws).
  by rewrite ve (key_validate_nonzero pairing_laws Ev).
rewrite pairing_at_zero_r ?size_map // Epair -pairing_at_zero_l ?size_map //.
by rewrite at_zero_geval ?c0 ?ve // sc size_map szs.
Qed.
End Scheme.

(** ** An instance over the rationals *)

Module SamplePairing.

Definition pairing (p q : rat^o) : rat^o := p * q.
Definition hash_to_curve (m : rat) : rat^o := m.
Definition generator : rat^o := 1.
Definition verify (s : rat) (pk : rat^o) (m : rat) : bool := pairing pk m == pairing 1 s.

Lemma pairing_laws :
  PairingLaws SampleBlst.lib hash_to_curve generator pairing verify (key_validate SampleBlst.lib).
Proof.
split=> //; rewrite /pairing.
- by move=> p q r; rewrite mulrDl.
- by move=> a p r; rewrite -scalerAl.
- by move=> p q r; rewrite mulrDr.
- by move=> a p q; rewrite -scalerAr.
- by move=> s pk m /eqP e; exists s.
- by move=> p pk m _ e; apply/eqP.
- by move=> b pk /=; case: ifP => // b0 [<-].
Qed.

(** Operators one and three of the key five sign the message with hash two. *)
Definition selected : seq (BinNums.N * rat) :=
  [:: (BinNat.N.of_nat 1, 14%:R); (BinNat.N.of_nat 3, 22%:R)].
Definition announced : seq (BinNums.N * rat) :=
  [:: (BinNat.N.of_nat 1, 7%:R); (BinNat.N.of_nat 2, 9%:R); (BinNat.N.of_nat 3, 11%:R)].

Lemma blst_threshold_scheme_witness :
  exists s, collector_combine_signatures SampleBlst.lib selected = Combined s
    /\ verify s 5%:R 2%:R = true.
Proof.
have scheme := blst_threshold_scheme SampleBlst.lib_laws pairing_laws.
apply: (@verified_shares_combine _ _ _ _ _ _ scheme 5%:R 5%:R announced 2%N 2%:R selected).
- by repeat constructor.
- by repeat constructor; rewrite /= ; intuition discriminate.
- by vm_compute.
- by vm_compute.
- by repeat constructor; rewrite /= ; intuition discriminate.
- by apply/leP.
- constructor; last constructor=> //.
  + by exists 7%:R, 7%:R; split; [left | split; [vm_compute | vm_compute]].
  + by exists 11%:R, 11%:R; split; [right; right; left | split; [vm_compute | vm_compute]].
Defined.
End SamplePairing.
