(* ===== verification/SampleBls.v ===== *)
(** * A toy threshold scheme

    A concrete instance of the interface of [BlsInterface.v] that evaluates, for the
    witnesses.  The share key of an operator is the validator key with the operator's id in
    front; a signature is the key followed by the root; combining drops the id.  It has
    the laws of the interface and no secrecy. *)

From S2P Require Import Prelude SsvTypes BlsInterface.

Module SampleBls.

Definition root_bytes (root : Hash256) : bytes := to_le_bytes 4 root.
Definition share_key (vk : PublicKeyBytes) (id : OperatorId) : PublicKeyBytes := byte_of_N id :: vk.
Definition sign (key : bytes) (root : Hash256) : bytes := key ++ root_bytes root.

#[export] Instance lib : BlsLib bytes bytes bytes N unit := {|
  decompress b := match b with [] => None | _ => Some b end;
  sig_verify s pk root := bool_decide (s = sign pk root);
  combine_shares sel :=
    match sel with
    | (_, s) :: _ :: _ => Combined (drop 1 s)
    | _ => CombineError tt
    end;
  shares_validated vk shares t :=
    (2 <=? t)%nat && forallb (λ s, bool_decide (s.2 = share_key vk s.1)) shares;
|}.

#[export] Instance scheme : ThresholdScheme lib.
Proof.
  split; [|by intros [|[] []]].
  intros vk pk shares t root sel _ _ Hval Hpk _ Hlen Hver. cbn [shares_validated decompress lib] in Hval, Hpk.
  apply andb_true_iff in Hval as [Ht%Nat.leb_le Hshares].
  destruct sel as [|[id s] [|? sel]]; cbn in Hlen; [lia..|].
  apply Forall_inv in Hver. destruct Hver as (b & key & Hin & Hp & Hs). cbn in Hin, Hp, Hs.
  rewrite forallb_forall in Hshares. specialize (Hshares _ Hin). cbn in Hshares. split_and_hyps.
  subst b. destruct vk as [|x vk]; [done|]. simplify_eq. cbn in Hp. simplify_eq. eexists. split; [done|].
  by apply bool_decide_eq_true.
Qed.

(** Three operators of a validator, with threshold two. *)
Definition vk : PublicKeyBytes := [x07].
Definition announced : list (OperatorId * PublicKeyBytes) :=
  [(1, share_key vk 1); (2, share_key vk 2); (3, share_key vk 3)]%N.
Definition share (op : OperatorId) (root : Hash256) : bytes := sign (share_key vk op) root.
End SampleBls.
