(* ===== verification/MultiIndex.v ===== *)
(** * The multi-index map of the database

    [database/src/multi_index.rs]: one primary map and up to three further
    indices, each of them either unique (a key names one primary key) or not (a
    key names a set of them).  Which is decided by the marker types [U1], [U2]
    and [U3], here values of [Tag].

    The last section gives the meaning of an index: it is [exact] for a function
    that assigns to each stored primary key its secondary key.  Inserting,
    removing and updating keep it exact, except that inserting a stored primary
    key under a different secondary key leaves the old entry behind. *)

From S2P Require Import Prelude.

Inductive Tag := UniqueTag | NonUniqueTag.

#[export] Instance tag_eq_dec : EqDecision Tag.
Proof. solve_decision. Defined.

(** ** One index *)

Section Index.
Context {K K1 : Type} `{Countable K, Countable K1}.

(** [.entry(k).or_default().insert(k1)]. *)
Definition multi_insert (k : K) (k1 : K1) (m : gmap K (gset K1)) : gmap K (gset K1) :=
  <[k := {[k1]} ∪ default ∅ (m !! k)]> m.

(** [.retain(|_, v| v != k1)]. *)
Definition unique_retain (k1 : K1) (m : gmap K K1) : gmap K K1 :=
  filter (λ kv, kv.2 ≠ k1) m.

(** [.retain(|_, set| { set.remove(k1); !set.is_empty() })]. *)
Definition multi_retain (k1 : K1) (m : gmap K (gset K1)) : gmap K (gset K1) :=
  omap (λ s, let s' := s ∖ {[k1]} in if decide (s' = ∅) then None else Some s') m.

(** The primary keys that a non-unique index holds under a key. *)
Definition multi_get (m : gmap K (gset K1)) (k : K) : gset K1 := default ∅ (m !! k).

(** The index holds exactly the pairs of [f]. *)
Definition multi_exact (m : gmap K (gset K1)) (f : K1 → option K) : Prop :=
  ∀ k k1, k1 ∈ multi_get m k ↔ f k1 = Some k.

Lemma multi_exact_empty : multi_exact ∅ (λ _, None).
Proof. intros k k1. unfold multi_get. rewrite lookup_empty. set_solver. Qed.

Lemma multi_exact_ext m f g : (∀ k1, f k1 = g k1) → multi_exact m f → multi_exact m g.
Proof. intros Hfg Hm k k1. rewrite <- Hfg. apply Hm. Qed.

Lemma multi_get_insert m k k1 j :
  multi_get (multi_insert k k1 m) j =
  if decide (j = k) then {[k1]} ∪ multi_get m k else multi_get m j.
Proof.
  unfold multi_get, multi_insert. case_decide as Hj.
  - subst. by rewrite lookup_insert_eq.
  - by rewrite lookup_insert_ne.
Qed.

(** Inserting a new primary key, or a stored one under the key it has. *)
Lemma multi_exact_insert m f g k k1 :
  multi_exact m f → f k1 = None ∨ f k1 = Some k →
  (∀ x, g x = if decide (x = k1) then Some k else f x) →
  multi_exact (multi_insert k k1 m) g.
Proof.
  intros Hm Hk1 Hg j x. rewrite multi_get_insert, Hg.
  pose proof (Hm j x) as Hj. pose proof (Hm k x) as Hk.
  repeat case_decide; subst; set_solver.
Qed.

Lemma multi_get_retain m k1 j : multi_get (multi_retain k1 m) j = multi_get m j ∖ {[k1]}.
Proof.
  unfold multi_get, multi_retain. rewrite lookup_omap.
  destruct (m !! j) as [s|]; simpl; [|set_solver].
  case_decide as Hs; simpl; [by rewrite Hs|done].
Qed.

Lemma multi_exact_retain m f g k1 :
  multi_exact m f → (∀ x, g x = if decide (x = k1) then None else f x) →
  multi_exact (multi_retain k1 m) g.
Proof.
  intros Hm Hg j x. rewrite multi_get_retain, Hg. pose proof (Hm j x) as Hj.
  case_decide; set_solver.
Qed.

Lemma unique_retain_lookup m k1 k j :
  unique_retain k1 m !! k = Some j ↔ m !! k = Some j ∧ j ≠ k1.
Proof. unfold unique_retain. by rewrite map_lookup_filter_Some. Qed.
End Index.

(** ** The map *)

Record MultiIndexMap (K1 K2 K3 K4 V : Type)
    `{Countable K1, Countable K2, Countable K3, Countable K4} := mkMultiIndexMap {
  primary : gmap K1 V;
  secondary_unique : gmap K2 K1;
  secondary_multi : gmap K2 (gset K1);
  tertiary_unique : gmap K3 K1;
  tertiary_multi : gmap K3 (gset K1);
  quaternary_unique : gmap K4 K1;
  quaternary_multi : gmap K4 (gset K1);
}.
Arguments mkMultiIndexMap {_ _ _ _ _ _ _ _ _ _ _ _ _}.
Arguments primary {_ _ _ _ _ _ _ _ _ _ _ _ _}.
Arguments secondary_unique {_ _ _ _ _ _ _ _ _ _ _ _ _}.
Arguments secondary_multi {_ _ _ _ _ _ _ _ _ _ _ _ _}.
Arguments tertiary_unique {_ _ _ _ _ _ _ _ _ _ _ _ _}.
Arguments tertiary_multi {_ _ _ _ _ _ _ _ _ _ _ _ _}.
Arguments quaternary_unique {_ _ _ _ _ _ _ _ _ _ _ _ _}.
Arguments quaternary_multi {_ _ _ _ _ _ _ _ _ _ _ _ _}.

Section Map.
Context {K1 K2 K3 K4 V : Type} `{Countable K1, Countable K2, Countable K3, Countable K4}.
Context (U1 U2 U3 : Tag).

Abbreviation mimap := (MultiIndexMap K1 K2 K3 K4 V).

(** [MultiIndexMap::new]. *)
Definition mi_new : mimap := mkMultiIndexMap ∅ ∅ ∅ ∅ ∅ ∅ ∅.

(** [MultiIndexMap::length]. *)
Definition mi_length (m : mimap) : nat := size (primary m).

Definition insert_or_update (k1 : K1) (k2 : K2) (k3 : K3) (k4 : K4) (v : V) (m : mimap) : mimap :=
  mkMultiIndexMap
    (<[k1 := v]> (primary m))
    (if decide (U1 = UniqueTag) then <[k2 := k1]> (secondary_unique m) else secondary_unique m)
    (if decide (U1 = UniqueTag) then secondary_multi m else multi_insert k2 k1 (secondary_multi m))
    (if decide (U2 = UniqueTag) then <[k3 := k1]> (tertiary_unique m) else tertiary_unique m)
    (if decide (U2 = UniqueTag) then tertiary_multi m else multi_insert k3 k1 (tertiary_multi m))
    (if decide (U3 = UniqueTag) then <[k4 := k1]> (quaternary_unique m) else quaternary_unique m)
    (if decide (U3 = UniqueTag) then quaternary_multi m else multi_insert k4 k1 (quaternary_multi m)).

(** [MultiIndexMap::remove]: the removed value and the map afterwards. *)
Definition mi_remove (k1 : K1) (m : mimap) : option V * mimap :=
  match primary m !! k1 with
  | None => (None, m)
  | Some removed =>
      (Some removed,
       mkMultiIndexMap
         (delete k1 (primary m))
         (if decide (U1 = UniqueTag) then unique_retain k1 (secondary_unique m)
          else secondary_unique m)
         (if decide (U1 = UniqueTag) then secondary_multi m
          else multi_retain k1 (secondary_multi m))
         (if decide (U2 = UniqueTag) then unique_retain k1 (tertiary_unique m)
          else tertiary_unique m)
         (if decide (U2 = UniqueTag) then tertiary_multi m
          else multi_retain k1 (tertiary_multi m))
         (if decide (U3 = UniqueTag) then unique_retain k1 (quaternary_unique m)
          else quaternary_unique m)
         (if decide (U3 = UniqueTag) then quaternary_multi m
          else multi_retain k1 (quaternary_multi m)))
  end.

Definition set_primary (p : gmap K1 V) (m : mimap) : mimap :=
  mkMultiIndexMap p (secondary_unique m) (secondary_multi m) (tertiary_unique m)
    (tertiary_multi m) (quaternary_unique m) (quaternary_multi m).

(** [MultiIndexMap::update]. *)
Definition mi_update (k1 : K1) (v : V) (m : mimap) : option V * mimap :=
  match primary m !! k1 with
  | None => (None, m)
  | Some old => (Some old, set_primary (<[k1 := v]> (primary m)) m)
  end.

(** [MultiIndexMap::values]. *)
Definition mi_values (m : mimap) : list V := (map_to_list (primary m)).*2.

(** [get_by] and [get_mut_by] of the primary key; the write through the mutable
    reference is [modify_by]. *)
Definition get_by (k1 : K1) (m : mimap) : option V := primary m !! k1.

Definition modify_by (k1 : K1) (f : V → V) (m : mimap) : mimap :=
  set_primary (alter f k1 (primary m)) m.

(** [get_by] of a unique index. *)
Definition get_by_secondary (k2 : K2) (m : mimap) : option V :=
  k1 ← secondary_unique m !! k2; primary m !! k1.

Definition get_by_tertiary (k3 : K3) (m : mimap) : option V :=
  k1 ← tertiary_unique m !! k3; primary m !! k1.

Definition get_by_quaternary (k4 : K4) (m : mimap) : option V :=
  k1 ← quaternary_unique m !! k4; primary m !! k1.

(** [get_all_by] of a non-unique index, in the iteration order of the hash set. *)
Definition get_all_of (keys : gset K1) (m : mimap) : list V :=
  omap (λ k1, primary m !! k1) (elements keys).

Definition get_all_by_secondary (k2 : K2) (m : mimap) : list V :=
  get_all_of (multi_get (secondary_multi m) k2) m.

Definition get_all_by_tertiary (k3 : K3) (m : mimap) : list V :=
  get_all_of (multi_get (tertiary_multi m) k3) m.

Definition get_all_by_quaternary (k4 : K4) (m : mimap) : list V :=
  get_all_of (multi_get (quaternary_multi m) k4) m.

(** [modify_all_by] of a non-unique index. *)
Definition modify_all_of (keys : gset K1) (f : V → V) (m : mimap) : mimap :=
  set_primary (foldr (alter f) (primary m) (elements keys)) m.

Definition modify_all_by_secondary (k2 : K2) (f : V → V) (m : mimap) : mimap :=
  modify_all_of (multi_get (secondary_multi m) k2) f m.

Definition modify_all_by_tertiary (k3 : K3) (f : V → V) (m : mimap) : mimap :=
  modify_all_of (multi_get (tertiary_multi m) k3) f m.

Definition modify_all_by_quaternary (k4 : K4) (f : V → V) (m : mimap) : mimap :=
  modify_all_of (multi_get (quaternary_multi m) k4) f m.

(** *** Lemmas *)

Lemma elem_of_get_all_of keys m v :
  v ∈ get_all_of keys m ↔ ∃ k1, k1 ∈ keys ∧ primary m !! k1 = Some v.
Proof.
  unfold get_all_of. rewrite list_elem_of_omap. setoid_rewrite elem_of_elements. done.
Qed.

Lemma foldr_alter_lookup (f : V → V) (l : list K1) (p : gmap K1 V) k1 :
  NoDup l →
  foldr (alter f) p l !! k1 = if decide (k1 ∈ l) then f <$> p !! k1 else p !! k1.
Proof.
  induction 1 as [|x l Hx Hl IH]; cbn [foldr]; [by rewrite decide_False by set_solver|].
  destruct (decide (k1 = x)) as [->|Hne].
  - rewrite lookup_alter_eq, IH. rewrite decide_False by done.
    by rewrite decide_True by set_solver.
  - rewrite lookup_alter_ne, IH by done.
    repeat case_decide; try done; set_solver.
Qed.

Lemma modify_all_of_lookup keys f m k1 :
  primary (modify_all_of keys f m) !! k1 =
  if decide (k1 ∈ keys) then f <$> primary m !! k1 else primary m !! k1.
Proof.
  cbn [modify_all_of set_primary primary]. rewrite foldr_alter_lookup by apply NoDup_elements.
  repeat case_decide; try done; set_solver.
Qed.

Lemma modify_by_lookup k1 f m j :
  primary (modify_by k1 f m) !! j = if decide (j = k1) then f <$> primary m !! j else primary m !! j.
Proof.
  unfold modify_by, set_primary; cbn [primary]. case_decide; subst.
  - by rewrite lookup_alter_eq.
  - by rewrite lookup_alter_ne.
Qed.
End Map.
