(* ===== verification/NetworkState.v ===== *)
(** * The in-memory network state

    [NetworkState] of [database/src/state.rs], the types of [database/src/lib.rs],
    [ssv_types/src/cluster.rs] and [ssv_types/src/share.rs], and the queued updates
    of [database/src/pending_updates.rs].  The state holds three multi-index maps
    (own shares, validators, clusters) and some plain maps.

    The abstract state [Abs] is what the three maps mean: one finite map each.
    [models] says that the maps and all their indices hold exactly an abstract
    state, and every queued update is shown to implement its abstract
    counterpart. *)

From S2P Require Import Prelude SsvTypes Messages ForkSchedule ValidationTypes DutyState.
From S2P Require Import ValidatorRules ConsensusValidation PartialValidation Subnet Validator MultiIndex.

Abbreviation Address := N (only parsing).
Abbreviation ClusterId := N (only parsing).
Abbreviation Graffiti := bytes (only parsing).

(** ** Data *)

(** [ssv_types::Cluster]; [cluster_members] is an [IndexSet]. *)
Record Cluster := mkCluster {
  cl_cluster_id : ClusterId;
  cl_owner : Address;
  cl_fee_recipient : Address;
  cl_liquidated : bool;
  cl_cluster_members : list OperatorId;
}.
#[export] Instance eta_Cluster : Eta Cluster := λ r,
  mkCluster (cl_cluster_id r) (cl_owner r) (cl_fee_recipient r) (cl_liquidated r)
    (cl_cluster_members r).

Record ValidatorMetadata := mkValidatorMetadata {
  md_public_key : PublicKeyBytes;
  md_cluster_id : ClusterId;
  md_index : option ValidatorIndex;
  md_graffiti : Graffiti;
}.
#[export] Instance eta_ValidatorMetadata : Eta ValidatorMetadata := λ r,
  mkValidatorMetadata (md_public_key r) (md_cluster_id r) (md_index r) (md_graffiti r).

Record Share := mkShare {
  sh_validator_pubkey : PublicKeyBytes;
  sh_operator_id : OperatorId;
  sh_cluster_id : ClusterId;
  sh_share_pubkey : PublicKeyBytes;
  sh_encrypted_private_key : bytes;
}.

Abbreviation ShareMultiIndexMap :=
  (MultiIndexMap (list byte) ClusterId Address (list byte) Share).
Abbreviation MetadataMultiIndexMap :=
  (MultiIndexMap (list byte) ClusterId Address (list byte) ValidatorMetadata).
Abbreviation ClusterMultiIndexMap :=
  (MultiIndexMap ClusterId (list byte) Address (list byte) Cluster).

Record MultiState := mkMultiState {
  ms_shares : ShareMultiIndexMap;
  ms_validator_metadata : MetadataMultiIndexMap;
  ms_clusters : ClusterMultiIndexMap;
}.
#[export] Instance eta_MultiState : Eta MultiState := λ r,
  mkMultiState (ms_shares r) (ms_validator_metadata r) (ms_clusters r).

(** The uniqueness markers of the three type aliases. *)
Definition share_insert := insert_or_update (K1:=list byte) (K2:=ClusterId) (K3:=Address)
  (K4:=list byte) (V:=Share) NonUniqueTag NonUniqueTag NonUniqueTag.
Definition share_remove := mi_remove (K1:=list byte) (K2:=ClusterId) (K3:=Address)
  (K4:=list byte) (V:=Share) NonUniqueTag NonUniqueTag NonUniqueTag.
Definition metadata_insert := insert_or_update (K1:=list byte) (K2:=ClusterId) (K3:=Address)
  (K4:=list byte) (V:=ValidatorMetadata) NonUniqueTag NonUniqueTag NonUniqueTag.
Definition metadata_remove := mi_remove (K1:=list byte) (K2:=ClusterId) (K3:=Address)
  (K4:=list byte) (V:=ValidatorMetadata) NonUniqueTag NonUniqueTag NonUniqueTag.
Definition cluster_insert := insert_or_update (K1:=ClusterId) (K2:=list byte) (K3:=Address)
  (K4:=list byte) (V:=Cluster) UniqueTag NonUniqueTag NonUniqueTag.
Definition cluster_remove := mi_remove (K1:=ClusterId) (K2:=list byte) (K3:=Address)
  (K4:=list byte) (V:=Cluster) UniqueTag NonUniqueTag NonUniqueTag.

(** The maps after an insertion and a removal, with the markers resolved. *)
Lemma share_insert_eq k1 k2 k3 k4 v m :
  share_insert k1 k2 k3 k4 v m =
  mkMultiIndexMap (<[k1 := v]> (primary m))
    (secondary_unique m) (multi_insert k2 k1 (secondary_multi m))
    (tertiary_unique m) (multi_insert k3 k1 (tertiary_multi m))
    (quaternary_unique m) (multi_insert k4 k1 (quaternary_multi m)).
Proof. done. Qed.

Lemma metadata_insert_eq k1 k2 k3 k4 v m :
  metadata_insert k1 k2 k3 k4 v m =
  mkMultiIndexMap (<[k1 := v]> (primary m))
    (secondary_unique m) (multi_insert k2 k1 (secondary_multi m))
    (tertiary_unique m) (multi_insert k3 k1 (tertiary_multi m))
    (quaternary_unique m) (multi_insert k4 k1 (quaternary_multi m)).
Proof. done. Qed.

Lemma cluster_insert_eq k1 k2 k3 k4 v m :
  cluster_insert k1 k2 k3 k4 v m =
  mkMultiIndexMap (<[k1 := v]> (primary m))
    (<[k2 := k1]> (secondary_unique m)) (secondary_multi m)
    (tertiary_unique m) (multi_insert k3 k1 (tertiary_multi m))
    (quaternary_unique m) (multi_insert k4 k1 (quaternary_multi m)).
Proof. done. Qed.

Lemma share_remove_eq k1 m :
  (share_remove k1 m).2 =
  match primary m !! k1 with
  | None => m
  | Some _ =>
      mkMultiIndexMap (delete k1 (primary m))
        (secondary_unique m) (multi_retain k1 (secondary_multi m))
        (tertiary_unique m) (multi_retain k1 (tertiary_multi m))
        (quaternary_unique m) (multi_retain k1 (quaternary_multi m))
  end.
Proof. unfold share_remove, mi_remove. by destruct (primary m !! k1). Qed.

Lemma metadata_remove_eq k1 m v :
  primary m !! k1 = Some v →
  metadata_remove k1 m =
  (Some v, mkMultiIndexMap (delete k1 (primary m))
     (secondary_unique m) (multi_retain k1 (secondary_multi m))
     (tertiary_unique m) (multi_retain k1 (tertiary_multi m))
     (quaternary_unique m) (multi_retain k1 (quaternary_multi m))).
Proof. intros H. unfold metadata_remove, mi_remove. by rewrite H. Qed.

Lemma cluster_remove_eq k1 m c :
  primary m !! k1 = Some c →
  (cluster_remove k1 m).2 =
  mkMultiIndexMap (delete k1 (primary m))
    (unique_retain k1 (secondary_unique m)) (secondary_multi m)
    (tertiary_unique m) (multi_retain k1 (tertiary_multi m))
    (quaternary_unique m) (multi_retain k1 (quaternary_multi m)).
Proof. intros H. unfold cluster_remove, mi_remove. by rewrite H. Qed.

Ltac mi_fields :=
  cbn [primary secondary_unique secondary_multi tertiary_unique tertiary_multi
       quaternary_unique quaternary_multi ms_shares ms_validator_metadata ms_clusters].

Section network_state.
Context {C : Crypto}.

Record Operator := mkOperator {
  op_id : OperatorId;
  op_rsa_pubkey : PubKey;
  op_owner : Address;
}.

(** [Cluster::committee_id] *)
Definition cluster_committee_id (c : Cluster) : CommitteeId :=
  committee_id_of_vec sha256 (cl_cluster_members c).

Lemma cluster_committee_id_perm c c' :
  cl_cluster_members c ≡ₚ cl_cluster_members c' → cluster_committee_id c = cluster_committee_id c'.
Proof.
  intros Hp. unfold cluster_committee_id, committee_id_of_vec. by rewrite (merge_sort_perm_eq _ _ Hp).
Qed.

Record SingleState := mkSingleState {
  ss_id : option OperatorId;
  ss_last_processed_block : N;
  ss_operators : gmap OperatorId Operator;
  ss_clusters : gset ClusterId;
  ss_nonces : gmap Address N;
  ss_max_operator_id_seen : option N;
}.
#[export] Instance eta_SingleState : Eta SingleState := λ r,
  mkSingleState (ss_id r) (ss_last_processed_block r) (ss_operators r) (ss_clusters r)
    (ss_nonces r) (ss_max_operator_id_seen r).

Record NetworkState := mkNetworkState {
  ns_multi : MultiState;
  ns_single : SingleState;
}.
#[export] Instance eta_NetworkState : Eta NetworkState := λ r,
  mkNetworkState (ns_multi r) (ns_single r).

(** ** Queries *)

Definition get_cluster_members (st : NetworkState) (committee_id : CommitteeId)
    : option (list OperatorId) :=
  cl_cluster_members <$> head (get_all_by_quaternary committee_id (ms_clusters (ns_multi st))).

Definition get_cluster_members_for_validator (st : NetworkState) (validator_pk : PublicKeyBytes)
    : option (list OperatorId) :=
  v ← get_by validator_pk (ms_validator_metadata (ns_multi st));
  cl_cluster_members <$> get_by (md_cluster_id v) (ms_clusters (ns_multi st)).

Definition get_validator_indices (st : NetworkState) (committee_id : CommitteeId)
    : list ValidatorIndex :=
  omap md_index (get_all_by_quaternary committee_id (ms_validator_metadata (ns_multi st))).

Definition get_own_id (st : NetworkState) : option OperatorId := ss_id (ns_single st).

Definition get_operator (st : NetworkState) (id : OperatorId) : option Operator :=
  ss_operators (ns_single st) !! id.

Definition operator_exists (st : NetworkState) (id : OperatorId) : bool :=
  bool_decide (is_Some (ss_operators (ns_single st) !! id)).

Definition get_all_operators (st : NetworkState) : list Operator :=
  (map_to_list (ss_operators (ns_single st))).*2.

Definition member_of_cluster (st : NetworkState) (id : ClusterId) : bool :=
  bool_decide (id ∈ ss_clusters (ns_single st)).

Definition get_own_clusters (st : NetworkState) : gset ClusterId := ss_clusters (ns_single st).

Definition get_last_processed_block (st : NetworkState) : N :=
  ss_last_processed_block (ns_single st).

Definition get_max_operator_id_seen (st : NetworkState) : option N :=
  ss_max_operator_id_seen (ns_single st).

Definition committee_info_by_committee_id (st : NetworkState) (committee_id : CommitteeId)
    : option CommitteeInfo :=
  members ← get_cluster_members st committee_id;
  Some {| committee_members := members;
          validator_indices := get_validator_indices st committee_id |}.

Definition committee_info_by_validator_pk (st : NetworkState) (validator_pk : PublicKeyBytes)
    : option CommitteeInfo :=
  validator_index ← md_index <$> get_by validator_pk (ms_validator_metadata (ns_multi st));
  members ← get_cluster_members_for_validator st validator_pk;
  Some {| committee_members := members;
          validator_indices := match validator_index with Some idx => [idx] | None => [] end |}.

(** [NetworkState::validator_indices] *)
Definition all_validator_indices (st : NetworkState) : list ValidatorIndex :=
  omap md_index (mi_values (ms_validator_metadata (ns_multi st))).

(** The view of the network that the message validator reads. *)
Definition network_view (st : NetworkState) : NetworkView :=
  {| get_committee_info_by_committee_id := committee_info_by_committee_id st;
     get_committee_info_by_validator_pk := committee_info_by_validator_pk st;
     operator_rsa_pubkey := λ id, op_rsa_pubkey <$> get_operator st id |}.

(** ** Queued updates *)

Inductive StateUpdate :=
  | SetLastProcessedBlock (block_number : N)
  | SetMaxOperatorIdSeen (operator_id : N)
  | InsertOperator (operator : Operator) (is_own_operator : bool)
  | DeleteOperator (operator_id : OperatorId)
  | InsertValidator (cluster : Cluster) (validator : ValidatorMetadata) (own_share : option Share)
  | UpdateClusterStatus (cluster_id : ClusterId) (liquidated : bool)
  | DeleteValidator (validator_pubkey : PublicKeyBytes)
  | SetOwnerNonce (owner : Address) (nonce : N)
  | UpdateFeeRecipient (owner fee_recipient : Address)
  | UpdateGraffiti (validator_pubkey : PublicKeyBytes) (graffiti : Graffiti).

(** The insertions of [StateUpdate::InsertValidator] into the three maps. *)
Definition insert_validator_multi (cluster : Cluster) (validator : ValidatorMetadata)
    (own_share : option Share) (ms : MultiState) : MultiState :=
  let pk := md_public_key validator in
  let cid := cl_cluster_id cluster in
  let owner := cl_owner cluster in
  let committee_id := cluster_committee_id cluster in
  mkMultiState
    (match own_share with
     | Some share => share_insert pk cid owner committee_id share (ms_shares ms)
     | None => ms_shares ms
     end)
    (metadata_insert pk cid owner committee_id validator (ms_validator_metadata ms))
    (cluster_insert cid pk owner committee_id cluster (ms_clusters ms)).

(** [StateUpdate::apply]; the [expect] of [DeleteValidator] is the panic. *)
Definition apply_update {E} (u : StateUpdate) (st : NetworkState) : outcome E NetworkState :=
  let ms := ns_multi st in
  let ss := ns_single st in
  match u with
  | SetLastProcessedBlock n => Ok (st <| ns_single := ss <| ss_last_processed_block := n |> |>)
  | SetMaxOperatorIdSeen n =>
      Ok (st <| ns_single := ss <| ss_max_operator_id_seen := Some n |> |>)
  | InsertOperator operator own =>
      let id := if bool_decide (ss_id ss = None) && own then Some (op_id operator) else ss_id ss in
      Ok (st <| ns_single := ss <| ss_id := id |>
                  <| ss_operators := <[op_id operator := operator]> (ss_operators ss) |> |>)
  | DeleteOperator id => Ok (st <| ns_single := ss <| ss_operators := delete id (ss_operators ss) |> |>)
  | InsertValidator cluster validator own_share =>
      let clusters := if own_share then {[cl_cluster_id cluster]} ∪ ss_clusters ss
                      else ss_clusters ss in
      Ok (mkNetworkState (insert_validator_multi cluster validator own_share ms)
            (ss <| ss_clusters := clusters |>))
  | UpdateClusterStatus cid b =>
      Ok (st <| ns_multi := ms <| ms_clusters :=
            modify_by cid (λ c, c <| cl_liquidated := b |>) (ms_clusters ms) |> |>)
  | DeleteValidator pk =>
      let shares := (share_remove pk (ms_shares ms)).2 in
      match metadata_remove pk (ms_validator_metadata ms) with
      | (None, _) => Panic
      | (Some metadata, metadata_map) =>
          let cid := md_cluster_id metadata in
          match get_all_by_secondary cid metadata_map with
          | [] =>
              Ok (mkNetworkState
                    (mkMultiState shares metadata_map (cluster_remove cid (ms_clusters ms)).2)
                    (ss <| ss_clusters := ss_clusters ss ∖ {[cid]} |>))
          | _ => Ok (st <| ns_multi := mkMultiState shares metadata_map (ms_clusters ms) |>)
          end
      end
  | SetOwnerNonce owner nonce =>
      Ok (st <| ns_single := ss <| ss_nonces := <[owner := nonce]> (ss_nonces ss) |> |>)
  | UpdateFeeRecipient owner fee_recipient =>
      Ok (st <| ns_multi := ms <| ms_clusters :=
            modify_all_by_tertiary owner (λ c, c <| cl_fee_recipient := fee_recipient |>)
              (ms_clusters ms) |> |>)
  | UpdateGraffiti pk graffiti =>
      Ok (st <| ns_multi := ms <| ms_validator_metadata :=
            modify_by pk (λ v, v <| md_graffiti := graffiti |>) (ms_validator_metadata ms) |> |>)
  end.

(** [PendingStateUpdates::apply] *)
Fixpoint apply_updates {E} (us : list StateUpdate) (st : NetworkState) : outcome E NetworkState :=
  match us with
  | [] => Ok st
  | u :: us => st' ← apply_update u st; apply_updates us st'
  end.

(** What a panicking update leaves behind: [DeleteValidator] removes the share before its
    [expect], and no other update panics. *)
Definition interrupted_update (u : StateUpdate) (st : NetworkState) : NetworkState :=
  match u with
  | DeleteValidator pk =>
      st <| ns_multi := ns_multi st <| ms_shares := (share_remove pk (ms_shares (ns_multi st))).2 |> |>
  | _ => st
  end.

(** What [PendingStateUpdates::apply] leaves behind when an update panics. *)
Fixpoint interrupted_updates (us : list StateUpdate) (st : NetworkState) : NetworkState :=
  match us with
  | [] => st
  | u :: us =>
      match apply_update (E:=Empty_set) u st with
      | Ok st' => interrupted_updates us st'
      | _ => interrupted_update u st
      end
  end.

(** The in-memory part of [set_validator_indices]. *)
Definition set_indices (l : list (PublicKeyBytes * ValidatorIndex)) (st : NetworkState) : NetworkState :=
  st <| ns_multi := ns_multi st <| ms_validator_metadata :=
    foldl (λ m kv, modify_by kv.1 (λ v, v <| md_index := Some kv.2 |>) m)
      (ms_validator_metadata (ns_multi st)) l |> |>.

(** ** The abstract state *)

Record Abs := mkAbs {
  a_validators : gmap (list byte) ValidatorMetadata;
  a_clusters : gmap ClusterId Cluster;
  a_shares : gmap (list byte) Share;
}.

Definition abs_empty : Abs := mkAbs ∅ ∅ ∅.

(** The keys under which a validator, a cluster and a share are indexed. *)
Definition validator_cluster (a : Abs) (pk : PublicKeyBytes) : option ClusterId :=
  md_cluster_id <$> a_validators a !! pk.
Definition validator_owner (a : Abs) (pk : PublicKeyBytes) : option Address :=
  cid ← validator_cluster a pk; cl_owner <$> a_clusters a !! cid.
Definition validator_committee (a : Abs) (pk : PublicKeyBytes) : option CommitteeId :=
  cid ← validator_cluster a pk; cluster_committee_id <$> a_clusters a !! cid.
Definition cluster_owner (a : Abs) (cid : ClusterId) : option Address :=
  cl_owner <$> a_clusters a !! cid.
Definition cluster_committee (a : Abs) (cid : ClusterId) : option CommitteeId :=
  cluster_committee_id <$> a_clusters a !! cid.
Definition share_key {K} (f : PublicKeyBytes → option K) (a : Abs) (pk : PublicKeyBytes)
    : option K :=
  _ ← a_shares a !! pk; f pk.

(** The maps and their indices hold exactly the abstract state.  The unique index
    from validator to cluster is only known to be right for stored validators. *)
Record models (a : Abs) (ms : MultiState) : Prop := {
  mo_metadata : primary (ms_validator_metadata ms) = a_validators a;
  mo_metadata_cluster :
    multi_exact (secondary_multi (ms_validator_metadata ms)) (validator_cluster a);
  mo_metadata_owner :
    multi_exact (tertiary_multi (ms_validator_metadata ms)) (validator_owner a);
  mo_metadata_committee :
    multi_exact (quaternary_multi (ms_validator_metadata ms)) (validator_committee a);
  mo_clusters : primary (ms_clusters ms) = a_clusters a;
  mo_clusters_validator : ∀ pk cid,
    validator_cluster a pk = Some cid → secondary_unique (ms_clusters ms) !! pk = Some cid;
  mo_clusters_owner : multi_exact (tertiary_multi (ms_clusters ms)) (cluster_owner a);
  mo_clusters_committee :
    multi_exact (quaternary_multi (ms_clusters ms)) (cluster_committee a);
  mo_shares : primary (ms_shares ms) = a_shares a;
  mo_shares_cluster :
    multi_exact (secondary_multi (ms_shares ms)) (share_key (validator_cluster a) a);
  mo_shares_owner :
    multi_exact (tertiary_multi (ms_shares ms)) (share_key (validator_owner a) a);
  mo_shares_committee :
    multi_exact (quaternary_multi (ms_shares ms)) (share_key (validator_committee a) a);
}.

(** Every validator has a cluster, every cluster a validator, every share a
    validator. *)
Record abs_ok (a : Abs) : Prop := {
  ao_validator : ∀ pk v, a_validators a !! pk = Some v →
    md_public_key v = pk ∧ is_Some (a_clusters a !! md_cluster_id v);
  ao_cluster : ∀ cid c, a_clusters a !! cid = Some c →
    cl_cluster_id c = cid ∧ ∃ pk, validator_cluster a pk = Some cid;
  ao_share : ∀ pk s, a_shares a !! pk = Some s → is_Some (a_validators a !! pk);
}.

(** Some stored validator other than [pk] belongs to the cluster. *)
Definition cluster_used (cid : ClusterId) (validators : gmap (list byte) ValidatorMetadata) : bool :=
  existsb (λ kv, bool_decide (md_cluster_id kv.2 = cid)) (map_to_list validators).

Definition abs_delete_validator (pk : PublicKeyBytes) (a : Abs) : Abs :=
  match a_validators a !! pk with
  | None => a
  | Some v =>
      let validators := delete pk (a_validators a) in
      mkAbs validators
        (if cluster_used (md_cluster_id v) validators then a_clusters a
         else delete (md_cluster_id v) (a_clusters a))
        (delete pk (a_shares a))
  end.

(** What the updates mean. *)
Definition abs_apply (u : StateUpdate) (a : Abs) : Abs :=
  match u with
  | InsertValidator cluster validator own_share =>
      mkAbs (<[md_public_key validator := validator]> (a_validators a))
        (<[cl_cluster_id cluster := cluster]> (a_clusters a))
        (match own_share with
         | Some share => <[md_public_key validator := share]> (a_shares a)
         | None => a_shares a
         end)
  | UpdateClusterStatus cid b =>
      mkAbs (a_validators a) (alter (λ c, c <| cl_liquidated := b |>) cid (a_clusters a)) (a_shares a)
  | DeleteValidator pk => abs_delete_validator pk a
  | UpdateFeeRecipient owner fee =>
      mkAbs (a_validators a)
        ((λ c, if decide (cl_owner c = owner) then c <| cl_fee_recipient := fee |> else c)
           <$> a_clusters a)
        (a_shares a)
  | UpdateGraffiti pk graffiti =>
      mkAbs (alter (λ v, v <| md_graffiti := graffiti |>) pk (a_validators a))
        (a_clusters a) (a_shares a)
  | _ => a
  end.

(** When an update may be queued: a new validator is not stored yet and agrees
    with its cluster if that is stored; a removed one is stored. *)
Definition update_ok (u : StateUpdate) (a : Abs) : Prop :=
  match u with
  | InsertValidator cluster validator _ =>
      a_validators a !! md_public_key validator = None ∧
      md_cluster_id validator = cl_cluster_id cluster ∧
      ∀ c, a_clusters a !! cl_cluster_id cluster = Some c →
        cl_owner c = cl_owner cluster ∧ cluster_committee_id c = cluster_committee_id cluster
  | DeleteValidator pk => is_Some (a_validators a !! pk)
  | _ => True
  end.

Lemma cluster_used_spec cid validators :
  cluster_used cid validators = true ↔
  ∃ pk v, validators !! pk = Some v ∧ md_cluster_id v = cid.
Proof.
  unfold cluster_used. rewrite existsb_exists. split.
  - intros ([pk v] & Hin & Hv%bool_decide_eq_true). exists pk, v. split; [|done].
    by apply elem_of_map_to_list, list_elem_of_In.
  - intros (pk & v & Hpk & Hv). exists (pk, v). split; [|by apply bool_decide_eq_true].
    by apply list_elem_of_In, elem_of_map_to_list.
Qed.

Lemma models_empty : models abs_empty (mkMultiState mi_new mi_new mi_new).
Proof. split; try done; apply multi_exact_empty || by intros pk cid ?. Qed.

Lemma abs_ok_empty : abs_ok abs_empty.
Proof.
  unfold abs_empty; split; cbn [a_validators a_clusters a_shares]; intros * H;
    by rewrite lookup_empty in H.
Qed.

(** *** Each update implements its meaning *)

Lemma insert_validator_keys cluster validator share a pk :
  abs_ok a → update_ok (InsertValidator cluster validator share) a →
  let a' := abs_apply (InsertValidator cluster validator share) a in
  let new := decide (pk = md_public_key validator) in
  validator_cluster a' pk = (if new then Some (cl_cluster_id cluster) else validator_cluster a pk) ∧
  validator_owner a' pk = (if new then Some (cl_owner cluster) else validator_owner a pk) ∧
  validator_committee a' pk =
    (if new then Some (cluster_committee_id cluster) else validator_committee a pk).
Proof.
  intros Hok (Hnew & Hcid & Hsame). cbn zeta.
  unfold validator_owner, validator_committee, validator_cluster; cbn [abs_apply a_validators a_clusters].
  case_decide as Hpk.
  - subst pk. rewrite lookup_insert_eq. cbn. by rewrite Hcid, lookup_insert_eq.
  - rewrite lookup_insert_ne by done.
    destruct (a_validators a !! pk) as [v|] eqn:Hv; [|done]. cbn.
    destruct (decide (md_cluster_id v = cl_cluster_id cluster)) as [Heq|Hne].
    + rewrite Heq, lookup_insert_eq. cbn.
      destruct (ao_validator a Hok pk v Hv) as [_ [c Hc]]. rewrite Heq in Hc. rewrite Hc. cbn.
      by destruct (Hsame c Hc) as [-> ->].
    + by rewrite lookup_insert_ne.
Qed.

(** The keys of the shares follow those of the validators. *)
Lemma insert_validator_share_key {K} (f f' : PublicKeyBytes → option K) cluster validator share a k pk :
  abs_ok a → a_validators a !! md_public_key validator = None →
  f' pk = (if decide (pk = md_public_key validator) then Some k else f pk) →
  share_key f' (abs_apply (InsertValidator cluster validator share) a) pk =
  if decide (pk = md_public_key validator) then (if share then Some k else None)
  else share_key f a pk.
Proof.
  intros Hok Hnew Hf. unfold share_key. rewrite Hf. cbn [abs_apply a_shares].
  assert (Hnone : a_shares a !! md_public_key validator = None).
  { destruct (a_shares a !! _) eqn:Hs; [|done]. destruct (ao_share a Hok _ _ Hs). congruence. }
  destruct share as [sh|]; case_decide; subst.
  - by rewrite lookup_insert_eq.
  - by rewrite lookup_insert_ne.
  - by rewrite Hnone.
  - done.
Qed.

Lemma insert_validator_share_exact `{Countable K} (f f' : PublicKeyBytes → option K)
    cluster validator (share : option Share) a k m :
  abs_ok a → a_validators a !! md_public_key validator = None →
  f (md_public_key validator) = None →
  (∀ pk, f' pk = if decide (pk = md_public_key validator) then Some k else f pk) →
  multi_exact m (share_key f a) →
  multi_exact (if share then multi_insert k (md_public_key validator) m else m)
    (share_key f' (abs_apply (InsertValidator cluster validator share) a)).
Proof.
  intros Hok Hnew Hf Hf' Hm.
  assert (Hnone : share_key f a (md_public_key validator) = None).
  { unfold share_key. rewrite Hf. by destruct (a_shares a !! _). }
  assert (Hk := λ pk, insert_validator_share_key f f' cluster validator share a k pk Hok Hnew (Hf' pk)).
  destruct share as [sh|].
  - eapply multi_exact_insert; [done|by left|apply Hk].
  - eapply multi_exact_ext; [|exact Hm]. intros pk. rewrite Hk. case_decide; congruence.
Qed.

Lemma insert_validator_models cluster validator share a ms :
  abs_ok a → models a ms → update_ok (InsertValidator cluster validator share) a →
  models (abs_apply (InsertValidator cluster validator share) a)
    (insert_validator_multi cluster validator share ms).
Proof.
  intros Hok Hm Hu. pose proof Hu as (Hnew & Hcid & Hsame).
  assert (Hvk := λ pk, insert_validator_keys cluster validator share a pk Hok Hu).
  assert (Hnk : validator_cluster a (md_public_key validator) = None).
  { unfold validator_cluster. by rewrite Hnew. }
  assert (Hno : validator_owner a (md_public_key validator) = None).
  { unfold validator_owner. by rewrite Hnk. }
  assert (Hnc : validator_committee a (md_public_key validator) = None).
  { unfold validator_committee. by rewrite Hnk. }
  destruct Hm as [Hmd Hmd2 Hmd3 Hmd4 Hcl Hcl2 Hcl3 Hcl4 Hsh Hsh2 Hsh3 Hsh4].
  unfold insert_validator_multi. rewrite metadata_insert_eq, cluster_insert_eq.
  split; mi_fields.
  - by rewrite Hmd.
  - eapply multi_exact_insert; [done|by left|apply Hvk].
  - eapply multi_exact_insert; [done|by left|apply Hvk].
  - eapply multi_exact_insert; [done|by left|apply Hvk].
  - by rewrite Hcl.
  - intros pk cid. rewrite (proj1 (Hvk pk)). case_decide as Hpk; intros H.
    + subst. injection H as <-. by rewrite lookup_insert_eq.
    + rewrite lookup_insert_ne by done. by apply Hcl2.
  - eapply multi_exact_insert; [done| |].
    + unfold cluster_owner. destruct (a_clusters a !! _) eqn:Hc; [|by left].
      right. cbn. f_equal. by apply Hsame.
    + intros cid. unfold cluster_owner. cbn [abs_apply a_clusters]. case_decide; subst.
      * by rewrite lookup_insert_eq.
      * by rewrite lookup_insert_ne.
  - eapply multi_exact_insert; [done| |].
    + unfold cluster_committee. destruct (a_clusters a !! _) eqn:Hc; [|by left].
      right. cbn. f_equal. by apply Hsame.
    + intros cid. unfold cluster_committee. cbn [abs_apply a_clusters]. case_decide; subst.
      * by rewrite lookup_insert_eq.
      * by rewrite lookup_insert_ne.
  - destruct share; [rewrite share_insert_eq; mi_fields; by rewrite Hsh|done].
  - pose proof (insert_validator_share_exact _ _ cluster validator share a _ _ Hok Hnew Hnk
      (λ pk, proj1 (Hvk pk)) Hsh2) as Hs. by destruct share.
  - pose proof (insert_validator_share_exact _ _ cluster validator share a _ _ Hok Hnew Hno
      (λ pk, proj1 (proj2 (Hvk pk))) Hsh3) as Hs. by destruct share.
  - pose proof (insert_validator_share_exact _ _ cluster validator share a _ _ Hok Hnew Hnc
      (λ pk, proj2 (proj2 (Hvk pk))) Hsh4) as Hs. by destruct share.
Qed.

(** The keys that remain when a validator goes. *)
Lemma delete_validator_keys a pk v x :
  abs_ok a → a_validators a !! pk = Some v →
  let a' := abs_delete_validator pk a in
  let gone := decide (x = pk) in
  validator_cluster a' x = (if gone then None else validator_cluster a x) ∧
  validator_owner a' x = (if gone then None else validator_owner a x) ∧
  validator_committee a' x = (if gone then None else validator_committee a x).
Proof.
  intros Hok Hv. cbn zeta. unfold validator_owner, validator_committee, validator_cluster.
  unfold abs_delete_validator. rewrite Hv. cbn [a_validators a_clusters].
  case_decide as Hx; [subst; by rewrite lookup_delete_eq|]. rewrite lookup_delete_ne by done.
  destruct (a_validators a !! x) as [w|] eqn:Hw; [|done]. cbn.
  destruct (cluster_used _ _) eqn:Hused; [done|].
  destruct (decide (md_cluster_id w = md_cluster_id v)) as [Heq|Hne].
  - apply not_true_iff_false in Hused. destruct Hused. apply cluster_used_spec.
    exists x, w. by rewrite lookup_delete_ne.
  - by rewrite lookup_delete_ne.
Qed.

Lemma delete_validator_share_exact `{Countable K} (f f' : PublicKeyBytes → option K) a pk v m :
  a_validators a !! pk = Some v →
  (∀ x, f' x = if decide (x = pk) then None else f x) →
  multi_exact m (share_key f a) →
  multi_exact (if a_shares a !! pk then multi_retain pk m else m)
    (share_key f' (abs_delete_validator pk a)).
Proof.
  intros Hv Hf Hm.
  assert (Hk : ∀ x, share_key f' (abs_delete_validator pk a) x =
    if decide (x = pk) then None else share_key f a x).
  { intros x. unfold share_key, abs_delete_validator. rewrite Hv, Hf. cbn [a_shares].
    case_decide; [subst; by rewrite lookup_delete_eq|]. by rewrite lookup_delete_ne. }
  destruct (a_shares a !! pk) eqn:Hs.
  - by eapply multi_exact_retain.
  - eapply multi_exact_ext; [|exact Hm]. intros x. rewrite Hk. case_decide; [|done].
    subst. unfold share_key. by rewrite Hs.
Qed.

(** A cluster without validators is what the code sees as an empty index entry. *)
Lemma no_validators_left (metadata : MetadataMultiIndexMap) cid f :
  multi_exact (secondary_multi metadata) f →
  (∀ pk, f pk = md_cluster_id <$> primary metadata !! pk) →
  get_all_by_secondary cid metadata = [] ↔ cluster_used cid (primary metadata) = false.
Proof.
  intros Hm Hf. rewrite <- not_true_iff_false, cluster_used_spec.
  unfold get_all_by_secondary. split.
  - intros Hnil (pk & v & Hpk & Hcid). apply (elem_of_nil v). rewrite <- Hnil.
    apply elem_of_get_all_of. exists pk. split; [|done]. apply Hm. rewrite Hf, Hpk. cbn. by f_equal.
  - intros Hno. apply elem_of_nil_inv. intros v (pk & Hin & Hpk)%elem_of_get_all_of.
    apply Hno. exists pk, v. split; [done|]. apply Hm in Hin. rewrite Hf, Hpk in Hin. by injection Hin.
Qed.

(** The single state after an update, by its meaning. *)
Definition single_apply (u : StateUpdate) (a : Abs) (ss : SingleState) : SingleState :=
  match u with
  | SetLastProcessedBlock n => ss <| ss_last_processed_block := n |>
  | SetMaxOperatorIdSeen n => ss <| ss_max_operator_id_seen := Some n |>
  | InsertOperator operator own =>
      ss <| ss_id := (if bool_decide (ss_id ss = None) && own then Some (op_id operator)
                      else ss_id ss) |>
         <| ss_operators := <[op_id operator := operator]> (ss_operators ss) |>
  | DeleteOperator id => ss <| ss_operators := delete id (ss_operators ss) |>
  | InsertValidator cluster _ own_share =>
      ss <| ss_clusters := (if own_share then {[cl_cluster_id cluster]} ∪ ss_clusters ss
                            else ss_clusters ss) |>
  | DeleteValidator pk =>
      match a_validators a !! pk with
      | Some v =>
          if cluster_used (md_cluster_id v) (delete pk (a_validators a)) then ss
          else ss <| ss_clusters := ss_clusters ss ∖ {[md_cluster_id v]} |>
      | None => ss
      end
  | SetOwnerNonce owner nonce => ss <| ss_nonces := <[owner := nonce]> (ss_nonces ss) |>
  | _ => ss
  end.

Lemma delete_validator_shares (a : Abs) (pk : PublicKeyBytes) (v : ValidatorMetadata) (shares : ShareMultiIndexMap) :
  abs_ok a → a_validators a !! pk = Some v → primary shares = a_shares a →
  multi_exact (secondary_multi shares) (share_key (validator_cluster a) a) →
  multi_exact (tertiary_multi shares) (share_key (validator_owner a) a) →
  multi_exact (quaternary_multi shares) (share_key (validator_committee a) a) →
  let a' := abs_delete_validator pk a in
  let shares' := (share_remove pk shares).2 in
  primary shares' = a_shares a' ∧
  multi_exact (secondary_multi shares') (share_key (validator_cluster a') a') ∧
  multi_exact (tertiary_multi shares') (share_key (validator_owner a') a') ∧
  multi_exact (quaternary_multi shares') (share_key (validator_committee a') a').
Proof.
  intros Hok Hv Hsh Hsh2 Hsh3 Hsh4. cbn zeta. rewrite share_remove_eq, Hsh.
  assert (Hk := λ x, delete_validator_keys a pk v x Hok Hv).
  pose proof (delete_validator_share_exact _ _ a pk v _ Hv (λ x, proj1 (Hk x)) Hsh2) as H2.
  pose proof (delete_validator_share_exact _ _ a pk v _ Hv (λ x, proj1 (proj2 (Hk x))) Hsh3) as H3.
  pose proof (delete_validator_share_exact _ _ a pk v _ Hv (λ x, proj2 (proj2 (Hk x))) Hsh4) as H4.
  assert (Hp : a_shares (abs_delete_validator pk a) = delete pk (a_shares a)).
  { unfold abs_delete_validator. by rewrite Hv. }
  destruct (a_shares a !! pk) eqn:Hs; mi_fields; rewrite Hp; split_and!; try done.
  by rewrite Hsh, delete_id.
Qed.

(** The cluster maps once its last validator is gone. *)
Lemma delete_cluster_models (a : Abs) (pk : PublicKeyBytes) (v : ValidatorMetadata) (clusters : ClusterMultiIndexMap) :
  abs_ok a → a_validators a !! pk = Some v →
  cluster_used (md_cluster_id v) (delete pk (a_validators a)) = false →
  primary clusters = a_clusters a →
  (∀ x cid, validator_cluster a x = Some cid → secondary_unique clusters !! x = Some cid) →
  multi_exact (tertiary_multi clusters) (cluster_owner a) →
  multi_exact (quaternary_multi clusters) (cluster_committee a) →
  let a' := abs_delete_validator pk a in
  let clusters' := (cluster_remove (md_cluster_id v) clusters).2 in
  primary clusters' = a_clusters a' ∧
  (∀ x cid, validator_cluster a' x = Some cid → secondary_unique clusters' !! x = Some cid) ∧
  multi_exact (tertiary_multi clusters') (cluster_owner a') ∧
  multi_exact (quaternary_multi clusters') (cluster_committee a').
Proof.
  intros Hok Hv Hused Hcl Hcl2 Hcl3 Hcl4. cbn zeta.
  destruct (ao_validator a Hok pk v Hv) as [_ [c Hc]].
  rewrite (cluster_remove_eq _ _ c) by by rewrite Hcl. mi_fields.
  assert (Hp : a_clusters (abs_delete_validator pk a) = delete (md_cluster_id v) (a_clusters a)).
  { unfold abs_delete_validator. by rewrite Hv, Hused. }
  split_and!.
  - by rewrite Hp, Hcl.
  - intros x cid. rewrite (proj1 (delete_validator_keys a pk v x Hok Hv)).
    case_decide as Hx; [done|]. intros Hxc. apply unique_retain_lookup. split; [by apply Hcl2|].
    intros ->. apply not_true_iff_false in Hused. apply Hused, cluster_used_spec.
    unfold validator_cluster in Hxc. destruct (a_validators a !! x) as [w|] eqn:Hw; [|done].
    exists x, w. rewrite lookup_delete_ne by done. split; [done|]. by injection Hxc.
  - eapply multi_exact_retain; [exact Hcl3|]. intros x. unfold cluster_owner. rewrite Hp.
    case_decide; [subst; by rewrite lookup_delete_eq|]. by rewrite lookup_delete_ne.
  - eapply multi_exact_retain; [exact Hcl4|]. intros x. unfold cluster_committee. rewrite Hp.
    case_decide; [subst; by rewrite lookup_delete_eq|]. by rewrite lookup_delete_ne.
Qed.

Lemma delete_validator_models {E} pk a st :
  abs_ok a → models a (ns_multi st) → is_Some (a_validators a !! pk) →
  ∃ st', apply_update (E:=E) (DeleteValidator pk) st = Ok st' ∧
    models (abs_delete_validator pk a) (ns_multi st') ∧
    ns_single st' = single_apply (DeleteValidator pk) a (ns_single st).
Proof.
  intros Hok [Hmd Hmd2 Hmd3 Hmd4 Hcl Hcl2 Hcl3 Hcl4 Hsh Hsh2 Hsh3 Hsh4] [v Hv].
  destruct (delete_validator_shares a pk v _ Hok Hv Hsh Hsh2 Hsh3 Hsh4) as (Hs1 & Hs2 & Hs3 & Hs4).
  assert (Hk := λ x, delete_validator_keys a pk v x Hok Hv).
  cbn [apply_update single_apply]. rewrite (metadata_remove_eq _ _ v) by by rewrite Hmd.
  set (md' := mkMultiIndexMap _ _ _ _ _ _ _).
  assert (Hmd2' : multi_exact (secondary_multi md') (validator_cluster (abs_delete_validator pk a))).
  { eapply multi_exact_retain; [exact Hmd2|apply Hk]. }
  assert (Hp : a_validators (abs_delete_validator pk a) = delete pk (a_validators a)).
  { unfold abs_delete_validator. by rewrite Hv. }
  assert (Hpm : primary md' = delete pk (a_validators a)) by (cbn; by rewrite Hmd).
  pose proof (no_validators_left md' (md_cluster_id v) _ Hmd2') as Hleft.
  rewrite Hpm in Hleft. rewrite Hv. cbv zeta. mi_fields.
  specialize (Hleft ltac:(intros x; unfold validator_cluster; by rewrite Hp)).
  assert (Hmd3' : multi_exact (tertiary_multi md') (validator_owner (abs_delete_validator pk a))).
  { eapply multi_exact_retain; [exact Hmd3|apply Hk]. }
  assert (Hmd4' : multi_exact (quaternary_multi md') (validator_committee (abs_delete_validator pk a))).
  { eapply multi_exact_retain; [exact Hmd4|apply Hk]. }
  destruct (cluster_used _ (delete pk _)) eqn:Hused.
  - destruct (get_all_by_secondary _ md') as [|w ws]; [by discriminate (proj1 Hleft eq_refl)|].
    assert (Hc' : a_clusters (abs_delete_validator pk a) = a_clusters a).
    { unfold abs_delete_validator. by rewrite Hv, Hused. }
    eexists; split; [done|]. split; [|done]. split; try done.
    + by rewrite Hp.
    + by rewrite Hc'.
    + intros x cid. rewrite (proj1 (Hk x)). case_decide; [done|]. apply Hcl2.
    + eapply multi_exact_ext; [|exact Hcl3]. intros cid. unfold cluster_owner. by rewrite Hc'.
    + eapply multi_exact_ext; [|exact Hcl4]. intros cid. unfold cluster_committee. by rewrite Hc'.
  - rewrite (proj2 Hleft eq_refl).
    destruct (delete_cluster_models a pk v _ Hok Hv Hused Hcl Hcl2 Hcl3 Hcl4) as (H1 & H2 & H3 & H4).
    eexists; split; [done|]. split; [|done]. split; try done. by rewrite Hp.
Qed.

(** Updates that change values but no key. *)
Lemma models_same_keys a a' ms ms' :
  models a ms →
  primary (ms_validator_metadata ms') = a_validators a' →
  primary (ms_clusters ms') = a_clusters a' →
  ms_shares ms' = ms_shares ms → a_shares a' = a_shares a →
  set_primary (a_validators a) (ms_validator_metadata ms') = ms_validator_metadata ms →
  set_primary (a_clusters a) (ms_clusters ms') = ms_clusters ms →
  (∀ pk, validator_cluster a' pk = validator_cluster a pk) →
  (∀ cid, cluster_owner a' cid = cluster_owner a cid) →
  (∀ cid, cluster_committee a' cid = cluster_committee a cid) →
  models a' ms'.
Proof.
  intros [Hmd Hmd2 Hmd3 Hmd4 Hcl Hcl2 Hcl3 Hcl4 Hsh Hsh2 Hsh3 Hsh4].
  intros Hmd' Hcl' Hms Ha Hm Hc Hvc Hco Hcc.
  assert (Hvo : ∀ pk, validator_owner a' pk = validator_owner a pk).
  { intros pk. unfold validator_owner. rewrite Hvc. destruct (validator_cluster a pk); [apply Hco|done]. }
  assert (Hvm : ∀ pk, validator_committee a' pk = validator_committee a pk).
  { intros pk. unfold validator_committee. rewrite Hvc. destruct (validator_cluster a pk); [apply Hcc|done]. }
  assert (Hsk : ∀ {K} (f f' : PublicKeyBytes → option K) pk,
    f' pk = f pk → share_key f' a' pk = share_key f a pk).
  { intros K f f' pk Hf. unfold share_key. by rewrite Ha, Hf. }
  rewrite <- Hm in Hmd2, Hmd3, Hmd4. rewrite <- Hc in Hcl2, Hcl3, Hcl4. rewrite <- Hms in *.
  split; try (by eapply multi_exact_ext; [|eassumption]; intros; rewrite ?Hvc, ?Hvo, ?Hvm, ?Hco, ?Hcc);
    try (by eapply multi_exact_ext; [|eassumption]; intros; symmetry; apply Hsk); try congruence.
  intros pk cid. rewrite Hvc. apply Hcl2.
Qed.

Lemma status_models cid b a ms :
  models a ms →
  models (abs_apply (UpdateClusterStatus cid b) a)
    (ms <| ms_clusters := modify_by cid (λ c, c <| cl_liquidated := b |>) (ms_clusters ms) |>).
Proof.
  intros Hm. pose proof (mo_clusters a ms Hm) as Hcl. pose proof (mo_metadata a ms Hm) as Hmd.
  assert (Hk : ∀ {K} (f : Cluster → K), (∀ c, f (c <| cl_liquidated := b |>) = f c) → ∀ x,
    f <$> alter (λ c, c <| cl_liquidated := b |>) cid (a_clusters a) !! x = f <$> a_clusters a !! x).
  { intros K f Hf x. destruct (decide (x = cid)) as [->|Hne].
    - rewrite lookup_alter_eq. destruct (a_clusters a !! cid); [|done]. cbn. by rewrite Hf.
    - by rewrite lookup_alter_ne. }
  eapply models_same_keys; [exact Hm|..]; try done.
  - cbn. by rewrite Hcl.
  - cbn. rewrite <- Hmd. by destruct (ms_validator_metadata ms).
  - cbn. rewrite <- Hcl. by destruct (ms_clusters ms).
  - intros x. by apply Hk.
  - intros x. by apply Hk.
Qed.

Lemma fee_models owner fee a ms :
  models a ms →
  models (abs_apply (UpdateFeeRecipient owner fee) a)
    (ms <| ms_clusters := modify_all_by_tertiary owner (λ c, c <| cl_fee_recipient := fee |>)
       (ms_clusters ms) |>).
Proof.
  intros Hm. pose proof (mo_clusters a ms Hm) as Hcl. pose proof (mo_metadata a ms Hm) as Hmd.
  pose proof (mo_clusters_owner a ms Hm) as Hco.
  assert (Hk : ∀ {K} (f : Cluster → K), (∀ c, f (c <| cl_fee_recipient := fee |>) = f c) → ∀ x,
    f <$> ((λ c, if decide (cl_owner c = owner) then c <| cl_fee_recipient := fee |> else c)
             <$> a_clusters a) !! x = f <$> a_clusters a !! x).
  { intros K f Hf x. rewrite lookup_fmap. destruct (a_clusters a !! x) as [c|]; [|done].
    cbn -[decide]. case_decide; [by rewrite Hf|done]. }
  eapply models_same_keys; [exact Hm|..]; try done.
  - apply map_eq. intros cid. unfold modify_all_by_tertiary.
    change (ms_clusters (ms <| ms_clusters := ?x |>)) with x.
    rewrite modify_all_of_lookup. cbn [abs_apply a_clusters]. rewrite lookup_fmap, Hcl.
    specialize (Hco owner cid). unfold cluster_owner in Hco.
    destruct (a_clusters a !! cid) as [c|]; cbn [fmap option_fmap option_map] in *.
    + case_decide as H1; case_decide as H2; try done.
      * apply Hco in H1. by injection H1.
      * destruct H1. apply Hco. by rewrite H2.
    + by case_decide.
  - cbn. rewrite <- Hmd. by destruct (ms_validator_metadata ms).
  - cbn. rewrite <- Hcl. by destruct (ms_clusters ms).
  - intros x. by apply Hk.
  - intros x. by apply Hk.
Qed.

Lemma graffiti_models pk g a ms :
  models a ms →
  models (abs_apply (UpdateGraffiti pk g) a)
    (ms <| ms_validator_metadata :=
       modify_by pk (λ v, v <| md_graffiti := g |>) (ms_validator_metadata ms) |>).
Proof.
  intros Hm. pose proof (mo_clusters a ms Hm) as Hcl. pose proof (mo_metadata a ms Hm) as Hmd.
  eapply models_same_keys; [exact Hm|..]; try done.
  - cbn. by rewrite Hmd.
  - cbn. rewrite <- Hmd. by destruct (ms_validator_metadata ms).
  - cbn. rewrite <- Hcl. by destruct (ms_clusters ms).
  - intros x. unfold validator_cluster. cbn [abs_apply a_validators].
    destruct (decide (x = pk)) as [->|Hne].
    + rewrite lookup_alter_eq. by destruct (a_validators a !! pk).
    + by rewrite lookup_alter_ne.
Qed.

Lemma apply_update_models {E} u a st :
  abs_ok a → models a (ns_multi st) → update_ok u a →
  ∃ st', apply_update (E:=E) u st = Ok st' ∧ models (abs_apply u a) (ns_multi st') ∧
    ns_single st' = single_apply u a (ns_single st).
Proof.
  intros Hok Hm Hu.
  destruct u as [| | | |cluster v share|cid b|pk| |owner fee|pk g];
    try (by apply delete_validator_models); (eexists; split; [done|]; split; [|done]); try done.
  - by apply insert_validator_models.
  - by apply status_models.
  - by apply fee_models.
  - by apply graffiti_models.
Qed.

(** *** The abstract state stays consistent *)

Lemma abs_ok_same_keys a a' :
  abs_ok a → a_shares a' = a_shares a →
  (∀ pk, validator_cluster a' pk = validator_cluster a pk) →
  (∀ pk v', a_validators a' !! pk = Some v' →
     ∃ v, a_validators a !! pk = Some v ∧ md_public_key v' = md_public_key v) →
  (∀ cid, cl_cluster_id <$> a_clusters a' !! cid = cl_cluster_id <$> a_clusters a !! cid) →
  abs_ok a'.
Proof.
  intros Hok Hs Hvc Hv Hc. split.
  - intros pk v' Hv'. destruct (Hv pk v' Hv') as (v & Hv0 & Heq).
    destruct (ao_validator a Hok pk v Hv0) as [Hpk [c Hcl]]. split; [congruence|].
    assert (md_cluster_id v' = md_cluster_id v) as ->.
    { specialize (Hvc pk). unfold validator_cluster in Hvc. rewrite Hv', Hv0 in Hvc. by injection Hvc. }
    specialize (Hc (md_cluster_id v)). rewrite Hcl in Hc.
    destruct (a_clusters a' !! _); [by eexists|done].
  - intros cid c' Hc'. specialize (Hc cid). rewrite Hc' in Hc.
    destruct (a_clusters a !! cid) as [c|] eqn:Hcl; [|done].
    destruct (ao_cluster a Hok cid c Hcl) as [Hid [pk Hpk]]. split.
    + injection Hc as ->. done.
    + exists pk. by rewrite Hvc.
  - intros pk s0. rewrite Hs. intros Hs0. destruct (ao_share a Hok pk s0 Hs0) as [v Hv0].
    specialize (Hvc pk). unfold validator_cluster in Hvc. rewrite Hv0 in Hvc.
    destruct (a_validators a' !! pk); [by eexists|done].
Qed.

Lemma insert_validator_ok cluster validator share a :
  abs_ok a → update_ok (InsertValidator cluster validator share) a →
  abs_ok (abs_apply (InsertValidator cluster validator share) a).
Proof.
  intros Hok Hu. pose proof Hu as (Hnew & Hcid & Hsame).
  assert (Hk := λ pk, proj1 (insert_validator_keys cluster validator share a pk Hok Hu)).
  split.
  - intros pk v. cbn [abs_apply a_validators a_clusters].
    destruct (decide (pk = md_public_key validator)) as [->|Hne].
    + rewrite lookup_insert_eq. intros [= <-]. split; [done|]. rewrite Hcid, lookup_insert_eq. by eexists.
    + rewrite lookup_insert_ne by done. intros Hv.
      destruct (ao_validator a Hok pk v Hv) as [Hpk Hc]. split; [done|].
      destruct (decide (md_cluster_id v = cl_cluster_id cluster)) as [->|?].
      * rewrite lookup_insert_eq. by eexists.
      * by rewrite lookup_insert_ne.
  - intros cid c. cbn [abs_apply a_clusters].
    destruct (decide (cid = cl_cluster_id cluster)) as [->|Hne].
    + rewrite lookup_insert_eq. intros [= <-]. split; [done|].
      exists (md_public_key validator). rewrite Hk. by rewrite decide_True.
    + rewrite lookup_insert_ne by done. intros Hc.
      destruct (ao_cluster a Hok cid c Hc) as [Hid [pk Hpk]]. split; [done|].
      exists pk. rewrite Hk. case_decide; [|done]. subst. unfold validator_cluster in Hpk.
      by rewrite Hnew in Hpk.
  - intros pk s0 Hs0. cbn [abs_apply a_validators a_shares] in *.
    destruct (decide (pk = md_public_key validator)) as [->|Hne].
    + rewrite lookup_insert_eq. by eexists.
    + rewrite lookup_insert_ne by done. destruct share as [sh|]; [rewrite lookup_insert_ne in Hs0 by done|];
        by eapply ao_share.
Qed.

Lemma delete_validator_ok pk a :
  abs_ok a → is_Some (a_validators a !! pk) → abs_ok (abs_delete_validator pk a).
Proof.
  intros Hok [v Hv]. assert (Hk := λ x, proj1 (delete_validator_keys a pk v x Hok Hv)).
  assert (Hval : a_validators (abs_delete_validator pk a) = delete pk (a_validators a)).
  { unfold abs_delete_validator. by rewrite Hv. }
  split.
  - intros x w. rewrite Hval. intros [Hx Hw]%lookup_delete_Some.
    destruct (ao_validator a Hok x w Hw) as [Hpk Hc]. split; [done|].
    unfold abs_delete_validator. rewrite Hv. cbn [a_clusters].
    destruct (cluster_used _ _) eqn:Hused; [done|]. apply lookup_delete_is_Some. split; [|done].
    intros Heq. apply not_true_iff_false in Hused. apply Hused, cluster_used_spec.
    exists x, w. by rewrite lookup_delete_ne.
  - intros cid c. unfold abs_delete_validator at 1. rewrite Hv. cbn [a_clusters].
    destruct (cluster_used _ _) eqn:Hused.
    + intros Hc. destruct (ao_cluster a Hok cid c Hc) as [Hid [x Hx]]. split; [done|].
      destruct (decide (x = pk)) as [->|Hne]; [|exists x; by rewrite Hk, decide_False by done].
      apply cluster_used_spec in Hused as (y & w & [Hy Hw]%lookup_delete_Some & Hcw).
      exists y. rewrite Hk, decide_False by done. unfold validator_cluster in *. rewrite Hv in Hx.
      injection Hx as <-. rewrite Hw. cbn. by f_equal.
    + intros [Hne Hc]%lookup_delete_Some. destruct (ao_cluster a Hok cid c Hc) as [Hid [x Hx]].
      split; [done|]. exists x. rewrite Hk. case_decide; [|done]. subst.
      unfold validator_cluster in Hx. rewrite Hv in Hx. cbn in Hx. congruence.
  - intros x s0. unfold abs_delete_validator at 1. rewrite Hv, Hval. cbn [a_shares].
    intros [Hx Hs]%lookup_delete_Some. apply lookup_delete_is_Some. split; [done|].
    by eapply ao_share.
Qed.

Lemma abs_apply_ok u a : abs_ok a → update_ok u a → abs_ok (abs_apply u a).
Proof.
  intros Hok Hu. destruct u as [| | | |cluster v share|cid b|pk| |owner fee|pk g]; try done.
  - by apply insert_validator_ok.
  - eapply abs_ok_same_keys; [exact Hok|done..| |].
    + intros pk v Hv. by exists v.
    + intros x. cbn [abs_apply a_clusters]. destruct (decide (x = cid)) as [->|Hne].
      * rewrite lookup_alter_eq. by destruct (a_clusters a !! cid).
      * by rewrite lookup_alter_ne.
  - by apply delete_validator_ok.
  - eapply abs_ok_same_keys; [exact Hok|done..| |].
    + intros pk v Hv. by exists v.
    + intros x. cbn [abs_apply a_clusters]. rewrite lookup_fmap.
      destruct (a_clusters a !! x) as [c|]; [|done]. cbn -[decide]. by case_decide.
  - eapply abs_ok_same_keys; [exact Hok|done| | |done].
    + intros x. unfold validator_cluster. cbn [abs_apply a_validators].
      destruct (decide (x = pk)) as [->|Hne].
      * rewrite lookup_alter_eq. by destruct (a_validators a !! pk).
      * by rewrite lookup_alter_ne.
    + intros x v'. cbn [abs_apply a_validators]. destruct (decide (x = pk)) as [->|Hne].
      * rewrite lookup_alter_eq. destruct (a_validators a !! pk) as [v|]; [|done].
        intros [= <-]. by exists v.
      * rewrite lookup_alter_ne by done. intros Hv. by exists v'.
Qed.

(** *** A batch of updates *)

Fixpoint updates_ok (us : list StateUpdate) (a : Abs) : Prop :=
  match us with
  | [] => True
  | u :: us => update_ok u a ∧ updates_ok us (abs_apply u a)
  end.

Definition abs_applies (us : list StateUpdate) (a : Abs) : Abs :=
  foldl (λ a u, abs_apply u a) a us.

Fixpoint single_applies (us : list StateUpdate) (a : Abs) (ss : SingleState) : SingleState :=
  match us with
  | [] => ss
  | u :: us => single_applies us (abs_apply u a) (single_apply u a ss)
  end.

Lemma abs_applies_snoc us u a : abs_applies (us ++ [u]) a = abs_apply u (abs_applies us a).
Proof. unfold abs_applies. by rewrite foldl_snoc. Qed.

Lemma single_applies_snoc us u a ss :
  single_applies (us ++ [u]) a ss = single_apply u (abs_applies us a) (single_applies us a ss).
Proof. revert a ss. induction us as [|u' us IH]; intros a ss; [done|]. apply IH. Qed.

Lemma updates_ok_snoc us u a :
  updates_ok (us ++ [u]) a ↔ updates_ok us a ∧ update_ok u (abs_applies us a).
Proof.
  revert a. induction us as [|u' us IH]; intros a; cbn [updates_ok app].
  - by split; [intros [??]|intros [??]].
  - rewrite IH. unfold abs_applies. cbn [foldl]. tauto.
Qed.

Lemma abs_applies_ok us a : abs_ok a → updates_ok us a → abs_ok (abs_applies us a).
Proof.
  revert a. induction us as [|u us IH]; intros a Hok; [done|]. intros [Hu Hus].
  apply IH; [by apply abs_apply_ok|done].
Qed.

(** A replay ends or panics. *)
Lemma apply_updates_no_err {E} us st (e : E) : apply_updates us st ≠ Err e.
Proof.
  revert st. induction us as [|u us IH]; intros st; [done|]. cbn [apply_updates].
  destruct (apply_update u st) as [st'|e'|] eqn:Hu; [apply IH| |done].
  exfalso. revert Hu. destruct u; cbn; try done. destruct (metadata_remove _ _) as [[m|] mm]; [|done].
  by destruct (get_all_by_secondary _ _).
Qed.

(** Replaying a batch never panics and yields the state it means. *)
Lemma apply_updates_models {E} us a st :
  abs_ok a → models a (ns_multi st) → updates_ok us a →
  ∃ st', apply_updates (E:=E) us st = Ok st' ∧ models (abs_applies us a) (ns_multi st') ∧
    ns_single st' = single_applies us a (ns_single st).
Proof.
  revert a st. induction us as [|u us IH]; intros a st Hok Hm; [by exists st|].
  intros [Hu Hus]. destruct (apply_update_models (E:=E) u a st Hok Hm Hu) as (st1 & Hst & Hm1 & Hs1).
  destruct (IH (abs_apply u a) st1) as (st' & Hst' & Hm' & Hs'); [by apply abs_apply_ok|done..|].
  exists st'. cbn [apply_updates single_applies]. rewrite Hst. split_and!; [done..|]. by rewrite Hs', Hs1.
Qed.

(** Setting validator indices. *)
Definition abs_set_indices (l : list (PublicKeyBytes * ValidatorIndex)) (a : Abs) : Abs :=
  mkAbs (foldl (λ m kv, alter (λ v, v <| md_index := Some kv.2 |>) kv.1 m) (a_validators a) l)
    (a_clusters a) (a_shares a).

Lemma set_indices_keys (l : list (PublicKeyBytes * ValidatorIndex))
    (m : gmap (list byte) ValidatorMetadata) pk :
  let m' := foldl (λ m kv, alter (λ v, v <| md_index := Some kv.2 |>) kv.1 m) m l in
  md_cluster_id <$> m' !! pk = md_cluster_id <$> m !! pk ∧
  (∀ v', m' !! pk = Some v' → ∃ v, m !! pk = Some v ∧ md_public_key v' = md_public_key v).
Proof.
  revert m. induction l as [|[k i] l IH]; intros m; cbn [foldl fst snd].
  - split; [done|]. intros v' Hv. by exists v'.
  - destruct (IH (alter (λ v, v <| md_index := Some i |>) k m)) as [H1 H2]. split.
    + rewrite H1. destruct (decide (pk = k)) as [->|Hne].
      * rewrite lookup_alter_eq. by destruct (m !! k).
      * by rewrite lookup_alter_ne.
    + intros v' Hv'. destruct (H2 v' Hv') as (v & Hv & Heq).
      destruct (decide (pk = k)) as [->|Hne].
      * rewrite lookup_alter_eq in Hv. destruct (m !! k) as [v0|]; [|done].
        injection Hv as <-. by exists v0.
      * rewrite lookup_alter_ne in Hv by done. by exists v.
Qed.

Lemma set_indices_models l a st :
  models a (ns_multi st) → models (abs_set_indices l a) (ns_multi (set_indices l st)).
Proof.
  intros Hm. pose proof (mo_clusters _ _ Hm) as Hcl. pose proof (mo_metadata _ _ Hm) as Hmd.
  assert (Hfold : ∀ m : MetadataMultiIndexMap,
    let m' := foldl (λ m kv, modify_by kv.1 (λ v, v <| md_index := Some kv.2 |>) m) m l in
    primary m' = foldl (λ m kv, alter (λ v, v <| md_index := Some kv.2 |>) kv.1 m) (primary m) l ∧
    set_primary (primary m) m' = m).
  { clear. induction l as [|[k i] l IH]; intros m; cbn [foldl fst snd]; [by destruct m|].
    destruct (IH (modify_by k (λ v, v <| md_index := Some i |>) m)) as [H1 H2]. split; [done|].
    transitivity (set_primary (primary m) (modify_by k (λ v, v <| md_index := Some i |>) m));
      [exact (f_equal (set_primary (primary m)) H2)|by destruct m]. }
  destruct (Hfold (ms_validator_metadata (ns_multi st))) as [H1 H2]. rewrite Hmd in H1, H2.
  eapply models_same_keys; [exact Hm|..]; try done.
  - cbn. rewrite <- Hcl. by destruct (ms_clusters (ns_multi st)).
  - intros pk. apply (set_indices_keys l (a_validators a) pk).
Qed.

Lemma set_indices_ok l a : abs_ok a → abs_ok (abs_set_indices l a).
Proof.
  intros Hok. eapply abs_ok_same_keys; [exact Hok|done| | |done].
  - intros pk. apply (set_indices_keys l (a_validators a) pk).
  - intros pk. apply (set_indices_keys l (a_validators a) pk).
Qed.
End network_state.
