(* ===== verification/Sql.v ===== *)
(** * The SQL database

    The tables of [database/src/migrations], the statements of
    [database/src/sql_operations.rs] that run on them, and the loading of the
    network state from the tables ([NetworkState::new_with_state] of
    [database/src/state.rs]).

    A table is a finite map from its primary key; a statement returns the tables
    after it or an error, with the constraints of the schema written out: primary
    and unique keys, foreign keys with their [RESTRICT] and [CASCADE] actions and
    the two clean-up triggers.  Texts that encode an address or a BLS key are
    kept decoded; the RSA key of an operator is stored encoded, because its
    uniqueness is that of the text. *)

From S2P Require Import Prelude SsvTypes Messages ForkSchedule ValidationTypes DutyState.
From S2P Require Import ValidatorRules ConsensusValidation PartialValidation Subnet Validator MultiIndex.
From S2P Require Import NetworkState.

Inductive DatabaseError := NotFound | SQLError.

(** What the database takes from other libraries: the base64 text of the PEM form
    of an RSA key, and the check of [bls_lagrange] that share keys interpolate to
    the validator key with a threshold. *)
Class KeyLib {C : Crypto} := {
  encode_key : PubKey → bytes;
  decode_key : bytes → option PubKey;
  decode_encode_key : ∀ k, decode_key (encode_key k) = Some k;
  shares_interpolate : PublicKeyBytes → list (OperatorId * PublicKeyBytes) → nat → bool;
}.

(** ** [ssv_types::validate_share_public_keys] *)

Inductive ShareValidationError :=
  | InvalidCommitteeSize (size : nat)
  | InvalidOperatorId (id : OperatorId)
  | PublicKeys.

Definition validate_share_public_keys `{KeyLib} (validator_pubkey : PublicKeyBytes)
    (shares : list (OperatorId * PublicKeyBytes)) : outcome ShareValidationError unit :=
  let committee_size := length shares in
  if negb (is_valid_committee_size committee_size) then Err (InvalidCommitteeSize committee_size)
  else
    key_ids ← try_map (λ share, if (share.1 =? 0)%N then Err (InvalidOperatorId share.1)
                                else Ok share) shares;
    if shares_interpolate validator_pubkey (sort_by_key fst key_ids) (quorum_size committee_size)
    then Ok tt else Err PublicKeys.

(** ** Tables *)

Record OwnerRow := mkOwnerRow {
  ow_fee_recipient : option Address;
  ow_nonce : option N;
}.

Record OperatorRow := mkOperatorRow {
  or_public_key : bytes;
  or_owner_address : Address;
  or_removed : bool;
}.

Record ClusterRow := mkClusterRow {
  cr_owner : Address;
  cr_liquidated : bool;
}.

Record ValidatorRow := mkValidatorRow {
  vr_cluster_id : ClusterId;
  vr_validator_index : option ValidatorIndex;
  vr_graffiti : Graffiti;
}.

Record ShareRow := mkShareRow {
  sr_cluster_id : ClusterId;
  sr_share_pubkey : PublicKeyBytes;
  sr_encrypted_key : bytes;
}.

Record Sql := mkSql {
  t_block_number : N;
  t_max_operator_id_seen : option N;
  t_owners : gmap Address OwnerRow;
  t_operators : gmap OperatorId OperatorRow;
  t_skipped_operator_adds : gset OperatorId;
  t_clusters : gmap ClusterId ClusterRow;
  t_cluster_members : gset (ClusterId * OperatorId);
  t_validators : gmap (list byte) ValidatorRow;
  t_shares : gmap (list byte * OperatorId) ShareRow;
}.
#[export] Instance eta_Sql : Eta Sql := λ r,
  mkSql (t_block_number r) (t_max_operator_id_seen r) (t_owners r) (t_operators r)
    (t_skipped_operator_adds r) (t_clusters r) (t_cluster_members r) (t_validators r) (t_shares r).

(** A new database: the tables of the migrations with the row of [INSERT_METADATA]. *)
Definition empty_tables : Sql := mkSql 0 (Some 0%N) ∅ ∅ ∅ ∅ ∅ ∅ ∅.

Abbreviation stmt := (Sql → outcome DatabaseError Sql).
Implicit Types (sql : Sql).

(** Integers are stored in 64 signed bits: [i64::try_from]. *)
Definition to_sql (n : N) : outcome DatabaseError unit := ensure (n <? 2 ^ 63)%N SQLError.

(** ** Statements *)

Definition UPDATE_BLOCK_NUMBER (n : N) : stmt := λ sql,
  _ ← to_sql n; Ok (sql <| t_block_number := n |>).

Definition SET_MAX_OPERATOR_ID_SEEN (n : N) : stmt := λ sql,
  _ ← to_sql n; Ok (sql <| t_max_operator_id_seen := Some n |>).

(** The operators with a public key. *)
Definition operators_with_key (key : bytes) sql : gmap OperatorId OperatorRow :=
  filter (λ kv, or_public_key kv.2 = key) (t_operators sql).

Definition INSERT_OPERATOR (id : OperatorId) (key : bytes) (owner : Address) : stmt := λ sql,
  _ ← to_sql id;
  if decide (is_Some (t_operators sql !! id)) then Err SQLError
  else if decide (operators_with_key key sql = ∅) then
    Ok (sql <| t_operators := <[id := mkOperatorRow key owner false]> (t_operators sql) |>)
  else Err SQLError.

Definition INSERT_SKIPPED_OPERATOR_ADD (id : OperatorId) : stmt := λ sql,
  _ ← to_sql id;
  Ok (sql <| t_skipped_operator_adds := {[id]} ∪ t_skipped_operator_adds sql |>).

(** The number of deleted rows tells whether the marker was there. *)
Definition DELETE_SKIPPED_OPERATOR_ADD (id : OperatorId) sql : outcome DatabaseError (bool * Sql) :=
  _ ← to_sql id;
  Ok (bool_decide (id ∈ t_skipped_operator_adds sql),
      sql <| t_skipped_operator_adds := t_skipped_operator_adds sql ∖ {[id]} |>).

(** [ON DELETE RESTRICT] of [cluster_members]. *)
Definition DELETE_OPERATOR (id : OperatorId) : stmt := λ sql,
  _ ← to_sql id;
  if decide (id ∈ set_map (D:=gset OperatorId) snd (t_cluster_members sql)) then Err SQLError
  else Ok (sql <| t_operators := delete id (t_operators sql) |>).

Definition MARK_OPERATOR_REMOVED (id : OperatorId) : stmt := λ sql,
  _ ← to_sql id;
  Ok (sql <| t_operators :=
    alter (λ r, mkOperatorRow (or_public_key r) (or_owner_address r) true) id (t_operators sql) |>).

Definition GET_OPERATOR_STATUS (id : OperatorId) sql : outcome DatabaseError (option bool) :=
  _ ← to_sql id; Ok (or_removed <$> t_operators sql !! id).

(** [SELECT operator_id FROM operators WHERE public_key = ?1 AND removed = FALSE] *)
Definition GET_OPERATOR_ID (key : bytes) sql : option OperatorId :=
  fst <$> head (map_to_list (filter (λ kv, or_removed kv.2 = false) (operators_with_key key sql))).

(** [SELECT operator_id FROM operators WHERE public_key = ?1 LIMIT 1] *)
Definition GET_ANY_OPERATOR_ID (key : bytes) sql : option OperatorId :=
  fst <$> head (map_to_list (operators_with_key key sql)).

Definition INSERT_CLUSTER (cid : ClusterId) (owner : Address) : stmt := λ sql,
  match t_clusters sql !! cid with
  | Some _ => Ok sql
  | None => Ok (sql <| t_clusters := <[cid := mkClusterRow owner false]> (t_clusters sql) |>)
  end.

(** [OR IGNORE] covers the primary key, not the foreign keys. *)
Definition INSERT_CLUSTER_MEMBER (cid : ClusterId) (id : OperatorId) : stmt := λ sql,
  _ ← to_sql id;
  if decide ((cid, id) ∈ t_cluster_members sql) then Ok sql
  else if decide (is_Some (t_clusters sql !! cid) ∧ is_Some (t_operators sql !! id)) then
    Ok (sql <| t_cluster_members := {[(cid, id)]} ∪ t_cluster_members sql |>)
  else Err SQLError.

Definition UPDATE_CLUSTER_STATUS (liquidated : bool) (cid : ClusterId) : stmt := λ sql,
  Ok (sql <| t_clusters := alter (λ r, mkClusterRow (cr_owner r) liquidated) cid (t_clusters sql) |>).

Definition INSERT_VALIDATOR (pk : PublicKeyBytes) (cid : ClusterId)
    (index : option ValidatorIndex) (graffiti : Graffiti) : stmt := λ sql,
  _ ← match index with Some i => to_sql i | None => Ok tt end;
  if decide (is_Some (t_validators sql !! pk)) then Err SQLError
  else if decide (is_Some (t_clusters sql !! cid)) then
    Ok (sql <| t_validators := <[pk := mkValidatorRow cid index graffiti]> (t_validators sql) |>)
  else Err SQLError.

(** [INSERT OR IGNORE INTO owners (owner, fee_recipient)] *)
Definition INSERT_OWNER (owner fee_recipient : Address) : stmt := λ sql,
  match t_owners sql !! owner with
  | Some _ => Ok sql
  | None =>
      Ok (sql <| t_owners := <[owner := mkOwnerRow (Some fee_recipient) None]> (t_owners sql) |>)
  end.

Definition INSERT_SHARE (pk : PublicKeyBytes) (cid : ClusterId) (id : OperatorId)
    (share_pubkey : PublicKeyBytes) (encrypted_key : bytes) : stmt := λ sql,
  _ ← to_sql id;
  if decide (is_Some (t_shares sql !! (pk, id))) then Err SQLError
  else if decide ((cid, id) ∈ t_cluster_members sql ∧ is_Some (t_validators sql !! pk)) then
    Ok (sql <| t_shares := <[(pk, id) := mkShareRow cid share_pubkey encrypted_key]> (t_shares sql) |>)
  else Err SQLError.

(** The cascades and triggers of a deleted cluster: its members go, with their
    shares, and then the removed operators that are in no cluster any more. *)
Definition delete_cluster (cid : ClusterId) sql : Sql :=
  let members := filter (λ m, m.1 ≠ cid) (t_cluster_members sql) in
  sql <| t_clusters := delete cid (t_clusters sql) |>
      <| t_cluster_members := members |>
      <| t_shares := filter (λ kv, sr_cluster_id kv.2 ≠ cid) (t_shares sql) |>
      <| t_operators := filter (λ kv, ¬ (or_removed kv.2 = true ∧
           (cid, kv.1) ∈ t_cluster_members sql ∧
           kv.1 ∉ set_map (D:=gset OperatorId) snd members)) (t_operators sql) |>.

(** The cluster of a validator row that remains. *)
Definition row_cluster_used (cid : ClusterId) (validators : gmap (list byte) ValidatorRow) : bool :=
  existsb (λ kv, bool_decide (vr_cluster_id kv.2 = cid)) (map_to_list validators).

Definition DELETE_VALIDATOR (pk : PublicKeyBytes) : stmt := λ sql,
  match t_validators sql !! pk with
  | None => Ok sql
  | Some row =>
      let validators := delete pk (t_validators sql) in
      let sql' := sql <| t_validators := validators |>
                      <| t_shares := filter (λ kv, kv.1.1 ≠ pk) (t_shares sql) |> in
      Ok (if row_cluster_used (vr_cluster_id row) validators then sql'
          else delete_cluster (vr_cluster_id row) sql')
  end.

Definition INSERT_OR_UPDATE_OWNER_FEE_RECIPIENT (owner fee_recipient : Address) : stmt := λ sql,
  Ok (sql <| t_owners :=
    <[owner := mkOwnerRow (Some fee_recipient) (t_owners sql !! owner ≫= ow_nonce)]>
      (t_owners sql) |>).

Definition GET_OWNER_FEE_RECIPIENT (owner : Address) sql : option Address :=
  t_owners sql !! owner ≫= ow_fee_recipient.

Definition SET_GRAFFITI (graffiti : Graffiti) (pk : PublicKeyBytes) : stmt := λ sql,
  Ok (sql <| t_validators :=
    alter (λ r, mkValidatorRow (vr_cluster_id r) (vr_validator_index r) graffiti) pk
      (t_validators sql) |>).

Definition SET_INDEX (index : ValidatorIndex) (pk : PublicKeyBytes) : stmt := λ sql,
  _ ← to_sql index;
  Ok (sql <| t_validators :=
    alter (λ r, mkValidatorRow (vr_cluster_id r) (Some index) (vr_graffiti r)) pk
      (t_validators sql) |>).

(** [INSERT ... (owner, 0) ON CONFLICT SET nonce = COALESCE(nonce + 1, 0)] *)
Definition BUMP_NONCE (owner : Address) : stmt := λ sql,
  let row := match t_owners sql !! owner with
             | None => mkOwnerRow None (Some 0%N)
             | Some r => mkOwnerRow (ow_fee_recipient r)
                           (Some (match ow_nonce r with Some n => n + 1 | None => 0 end)%N)
             end in
  Ok (sql <| t_owners := <[owner := row]> (t_owners sql) |>).

(** A nonce is read as a [u16]. *)
Definition nonce_of_sql (n : N) : outcome DatabaseError N :=
  if (n <? 2 ^ 16)%N then Ok n else Err SQLError.

(** [GET_NONCE] of an owner whose row and nonce exist. *)
Definition GET_NONCE (owner : Address) sql : outcome DatabaseError N :=
  n ← ok_or (t_owners sql !! owner ≫= ow_nonce) SQLError; nonce_of_sql n.

(** ** Reading rows *)

Definition metadata_of_row (pk : PublicKeyBytes) (r : ValidatorRow) : ValidatorMetadata :=
  mkValidatorMetadata pk (vr_cluster_id r) (vr_validator_index r) (vr_graffiti r).

Definition share_of_row (pk : PublicKeyBytes) (id : OperatorId) (r : ShareRow) : Share :=
  mkShare pk id (sr_cluster_id r) (sr_share_pubkey r) (sr_encrypted_key r).

(** [GET_CLUSTER_MEMBERS], in the order of the rows. *)
Definition GET_CLUSTER_MEMBERS (cid : ClusterId) sql : list OperatorId :=
  (filter (λ m, m.1 = cid) (elements (t_cluster_members sql))).*2.

(** [Cluster::try_from], with the fee recipient defaulting to the owner. *)
Definition cluster_of_row (cid : ClusterId) (r : ClusterRow) sql : Cluster :=
  mkCluster cid (cr_owner r) (default (cr_owner r) (GET_OWNER_FEE_RECIPIENT (cr_owner r) sql))
    (cr_liquidated r) (GET_CLUSTER_MEMBERS cid sql).

Definition GET_VALIDATOR (pk : PublicKeyBytes) sql : option ValidatorMetadata :=
  metadata_of_row pk <$> t_validators sql !! pk.

Definition GET_CLUSTER_BY_VALIDATOR (pk : PublicKeyBytes) sql : option Cluster :=
  v ← t_validators sql !! pk;
  r ← t_clusters sql !! vr_cluster_id v;
  Some (cluster_of_row (vr_cluster_id v) r sql).

Definition GET_OWN_SHARE (pk : PublicKeyBytes) (id : OperatorId) sql : bool :=
  bool_decide (is_Some (t_shares sql !! (pk, id))).

(** [map.entry(key).or_default().push(value)] for each element. *)
Definition group_by {A K V} `{Countable K} (key : A → K) (value : A → V) (l : list A)
    : gmap K (list V) :=
  foldl (λ m x, <[key x := default [] (m !! key x) ++ [value x]]> m) ∅ l.

(** ** Loading the network state *)

Inductive PubkeyOrId {C : Crypto} :=
  | ByPubkey (pubkey : PubKey)
  | ById (id : OperatorId).

Section loading.
Context `{KL : KeyLib}.

(** [fetch_operators] *)
Definition operator_of_row (id : OperatorId) (r : OperatorRow) : outcome DatabaseError Operator :=
  key ← ok_or (decode_key (or_public_key r)) SQLError;
  Ok (mkOperator id key (or_owner_address r)).

Definition fetch_operators sql : outcome DatabaseError (gmap OperatorId Operator) :=
  operators ← try_map (λ kv, op ← operator_of_row kv.1 kv.2; Ok (kv.1, op))
    (map_to_list (filter (λ kv, or_removed kv.2 = false) (t_operators sql)));
  Ok (list_to_map operators).

(** [fetch_clusters]: the join drops clusters without members. *)
Definition fetch_clusters sql : gmap ClusterId Cluster :=
  map_imap (λ cid r, match GET_CLUSTER_MEMBERS cid sql with
                     | [] => None
                     | _ => Some (cluster_of_row cid r sql)
                     end) (t_clusters sql).

Definition fetch_validators sql : gmap ClusterId (list ValidatorMetadata) :=
  group_by md_cluster_id id
    ((λ kv, metadata_of_row kv.1 kv.2) <$> map_to_list (t_validators sql)).

(** [fetch_shares]: the shares of operator [id]. *)
Definition fetch_shares (id : OperatorId) sql : gmap ClusterId (list Share) :=
  group_by (λ kv, sr_cluster_id kv.2) (λ kv, share_of_row kv.1.1 kv.1.2 kv.2)
    (filter (λ kv, kv.1.2 = id) (map_to_list (t_shares sql))).

(** [fetch_committee_share_pubkeys]: all shares in clusters that [id] is a member of. *)
Definition fetch_committee_share_pubkeys (id : OperatorId) sql
    : gmap (list byte) (list (OperatorId * PublicKeyBytes)) :=
  group_by (λ kv, kv.1.1) (λ kv, (kv.1.2, sr_share_pubkey kv.2))
    (filter (λ kv, (sr_cluster_id kv.2, id) ∈ t_cluster_members sql)
       (map_to_list (t_shares sql))).

Definition fetch_nonces sql : outcome DatabaseError (gmap Address N) :=
  nonces ← try_map (λ kv, n ← nonce_of_sql kv.2; Ok (kv.1, n))
    (omap (λ kv, pair kv.1 <$> ow_nonce kv.2) (map_to_list (t_owners sql)));
  Ok (list_to_map nonces).

(** [does_self_exist] *)
Definition does_self_exist (pubkey : PubKey) sql : option OperatorId :=
  GET_OPERATOR_ID (encode_key pubkey) sql.

Definition own_id_of (operator : PubkeyOrId) sql : option OperatorId :=
  match operator with
  | ByPubkey pubkey => does_self_exist pubkey sql
  | ById id => Some id
  end.

(** One own share of the inner loop: skipped if it is of another validator or if
    the shares of its validator do not interpolate. *)
Definition load_share (share_pubkeys : gmap (list byte) (list (OperatorId * PublicKeyBytes)))
    (cluster : Cluster) (validator : ValidatorMetadata) (ms : MultiState) (share : Share)
    : MultiState :=
  let pk := md_public_key validator in
  if decide (sh_validator_pubkey share ≠ pk) then ms
  else
    match validate_share_public_keys pk (default [] (share_pubkeys !! pk)) with
    | Ok _ => ms <| ms_shares := share_insert pk (cl_cluster_id cluster) (cl_owner cluster)
                      (cluster_committee_id cluster) share (ms_shares ms) |>
    | _ => ms
    end.

Definition load_validator (shares : gmap ClusterId (list Share))
    (share_pubkeys : gmap (list byte) (list (OperatorId * PublicKeyBytes)))
    (cluster : Cluster) (ms : MultiState) (validator : ValidatorMetadata) : MultiState :=
  let cid := cl_cluster_id cluster in
  let owner := cl_owner cluster in
  let committee_id := cluster_committee_id cluster in
  let pk := md_public_key validator in
  let ms1 := ms <| ms_clusters := cluster_insert cid pk owner committee_id cluster (ms_clusters ms) |>
                <| ms_validator_metadata :=
                     metadata_insert pk cid owner committee_id validator
                       (ms_validator_metadata ms) |> in
  foldl (load_share share_pubkeys cluster validator) ms1 (default [] (shares !! cid)).

Fixpoint load_clusters (validators : gmap ClusterId (list ValidatorMetadata))
    (shares : gmap ClusterId (list Share))
    (share_pubkeys : gmap (list byte) (list (OperatorId * PublicKeyBytes)))
    (clusters : list (ClusterId * Cluster)) (ms : MultiState)
    : outcome DatabaseError MultiState :=
  match clusters with
  | [] => Ok ms
  | (cid, cluster) :: clusters =>
      vs ← expect (validators !! cid);
      load_clusters validators shares share_pubkeys clusters
        (foldl (load_validator shares share_pubkeys cluster) ms vs)
  end.

(** [NetworkState::new_with_state] *)
Definition new_with_state (operator : PubkeyOrId) sql : outcome DatabaseError NetworkState :=
  let id := own_id_of operator sql in
  operators ← fetch_operators sql;
  let shares := match id with Some id => fetch_shares id sql | None => ∅ end in
  let share_pubkeys := match id with Some id => fetch_committee_share_pubkeys id sql | None => ∅ end in
  nonces ← fetch_nonces sql;
  ms ← load_clusters (fetch_validators sql) shares share_pubkeys
         (map_to_list (fetch_clusters sql)) (mkMultiState mi_new mi_new mi_new);
  Ok (mkNetworkState ms
        (mkSingleState id (t_block_number sql) operators (dom shares) nonces
           (t_max_operator_id_seen sql))).
End loading.
