(* ===== verification/Database.v ===== *)
(** * The database operations

    [NetworkDatabase] of [database/src/lib.rs] and the operations of
    [operator_operations.rs], [cluster_operations.rs], [share_operations.rs] and
    [validator_operations.rs].  An operation runs statements inside the caller's
    transaction and queues the matching update of the in-memory state; the queue is
    replayed once the transaction has committed. *)

From S2P Require Import Prelude SsvTypes Messages ForkSchedule ValidationTypes DutyState.
From S2P Require Import ValidatorRules ConsensusValidation PartialValidation Subnet Validator MultiIndex.
From S2P Require Import NetworkState Sql.

Section database.
Context `{KL : KeyLib}.

Record NetworkDatabase := mkNetworkDatabase {
  db_operator : PubkeyOrId;
  db_state : NetworkState;
  db_sql : Sql;
}.
#[export] Instance eta_NetworkDatabase : Eta NetworkDatabase := λ r,
  mkNetworkDatabase (db_operator r) (db_state r) (db_sql r).

(** An open transaction: its view of the tables and the queued updates. *)
Record Tx := mkTx {
  tx_sql : Sql;
  tx_updates : list StateUpdate;
}.
#[export] Instance eta_Tx : Eta Tx := λ r, mkTx (tx_sql r) (tx_updates r).

Abbreviation dbop A := (action Tx DatabaseError A).
Implicit Types (db : NetworkDatabase) (tx : Tx).

Definition execute (f : Sql → outcome DatabaseError Sql) : dbop unit := λ tx,
  match f (tx_sql tx) with
  | Ok sql => (Ok tt, tx <| tx_sql := sql |>)
  | Err e => (Err e, tx)
  | Panic => (Panic, tx)
  end.

Definition query {A} (f : Sql → outcome DatabaseError A) : dbop A := λ tx, (f (tx_sql tx), tx).

Definition push_update (u : StateUpdate) : dbop unit :=
  modify (λ tx, tx <| tx_updates := tx_updates tx ++ [u] |>).

(** ** Constructors *)

Definition database_new (operator : PubkeyOrId) (sql : Sql) : outcome DatabaseError NetworkDatabase :=
  st ← new_with_state operator sql; Ok (mkNetworkDatabase operator st sql).

(** ** Metadata *)

Definition get_own_operator_id_tx db : dbop (option OperatorId) :=
  match get_own_id (db_state db) with
  | Some id => mret (Some id)
  | None =>
      match db_operator db with
      | ById id => mret (Some id)
      | ByPubkey pubkey => query (λ sql, Ok (GET_OPERATOR_ID (encode_key pubkey) sql))
      end
  end.

Definition get_max_operator_id_seen_tx : dbop (option N) :=
  query (λ sql, Ok (t_max_operator_id_seen sql)).

Definition processed_block_tx (block_number : N) : dbop unit :=
  _ ← execute (UPDATE_BLOCK_NUMBER block_number);
  push_update (SetLastProcessedBlock block_number).

Definition set_max_operator_id_seen_tx (operator_id : N) : dbop unit :=
  _ ← execute (SET_MAX_OPERATOR_ID_SEEN operator_id);
  push_update (SetMaxOperatorIdSeen operator_id).

(** ** Operators *)

Inductive OperatorStatus := Active | SoftDeleted | StatusNotFound.

Definition get_operator_status (id : OperatorId) : dbop OperatorStatus :=
  removed ← query (GET_OPERATOR_STATUS id);
  mret (match removed with
        | Some true => SoftDeleted
        | Some false => Active
        | None => StatusNotFound
        end).

Definition operator_exists_tx (id : OperatorId) : dbop bool :=
  status ← get_operator_status id;
  mret (match status with Active => true | _ => false end).

Definition is_operator_soft_deleted (id : OperatorId) : dbop bool :=
  status ← get_operator_status id;
  mret (match status with SoftDeleted => true | _ => false end).

Definition does_operator_exist (id : OperatorId) : dbop bool :=
  status ← get_operator_status id;
  mret (match status with StatusNotFound => false | _ => true end).

Definition is_own_operator db (operator : Operator) : bool :=
  match db_operator db with
  | ByPubkey pubkey => bool_decide (encode_key (op_rsa_pubkey operator) = encode_key pubkey)
  | ById id => (id =? op_id operator)%N
  end.

Definition insert_operator_tx db (operator : Operator) : dbop unit :=
  present ← operator_exists_tx (op_id operator);
  if present : bool then throw NotFound
  else
    _ ← execute (INSERT_OPERATOR (op_id operator) (encode_key (op_rsa_pubkey operator))
                   (op_owner operator));
    push_update (InsertOperator operator (is_own_operator db operator)).

Definition insert_skipped_operator_add_tx (id : OperatorId) : dbop unit :=
  execute (INSERT_SKIPPED_OPERATOR_ADD id).

Definition delete_skipped_operator_add_tx (id : OperatorId) : dbop bool := λ tx,
  match DELETE_SKIPPED_OPERATOR_ADD id (tx_sql tx) with
  | Ok (b, sql) => (Ok b, tx <| tx_sql := sql |>)
  | Err e => (Err e, tx)
  | Panic => (Panic, tx)
  end.

Definition get_any_operator_id_by_public_key_tx (public_key : PubKey) : dbop (option OperatorId) :=
  query (λ sql, Ok (GET_ANY_OPERATOR_ID (encode_key public_key) sql)).

(** If the deletion fails, the operator is marked as removed instead. *)
Definition delete_operator_tx (id : OperatorId) : dbop unit :=
  present ← operator_exists_tx id;
  if negb present then throw NotFound
  else
    deleted ← attempt (execute (DELETE_OPERATOR id));
    _ ← match deleted with
        | Some _ => mret tt
        | None => execute (MARK_OPERATOR_REMOVED id)
        end;
    push_update (DeleteOperator id).

(** ** Clusters, shares and validators *)

Definition insert_share (share : Share) (validator_pubkey : PublicKeyBytes) : dbop unit :=
  execute (INSERT_SHARE validator_pubkey (sh_cluster_id share) (sh_operator_id share)
             (sh_share_pubkey share) (sh_encrypted_private_key share)).

(** The share of our operator, the last one if there were several. *)
Definition find_own_share (own_id : option OperatorId) (shares : list Share) : option Share :=
  foldl (λ our share, if decide (own_id = Some (sh_operator_id share)) then Some share else our)
    None shares.

Definition insert_validator_tx db (cluster : Cluster) (validator : ValidatorMetadata)
    (shares : list Share) : dbop unit :=
  _ ← execute (INSERT_CLUSTER (cl_cluster_id cluster) (cl_owner cluster));
  _ ← execute (INSERT_VALIDATOR (md_public_key validator) (cl_cluster_id cluster)
                 (md_index validator) (md_graffiti validator));
  _ ← execute (INSERT_OWNER (cl_owner cluster) (cl_owner cluster));
  own_id ← get_own_operator_id_tx db;
  _ ← for_each (λ share,
        _ ← execute (INSERT_CLUSTER_MEMBER (sh_cluster_id share) (sh_operator_id share));
        insert_share share (md_public_key validator)) shares;
  push_update (InsertValidator cluster validator (find_own_share own_id shares)).

Definition update_status_tx (cluster_id : ClusterId) (liquidated : bool) : dbop unit :=
  _ ← execute (UPDATE_CLUSTER_STATUS liquidated cluster_id);
  push_update (UpdateClusterStatus cluster_id liquidated).

Definition delete_validator_tx (validator_pubkey : PublicKeyBytes) : dbop unit :=
  _ ← execute (DELETE_VALIDATOR validator_pubkey);
  push_update (DeleteValidator validator_pubkey).

Definition get_cluster_by_validator_tx (validator_pubkey : PublicKeyBytes) : dbop (option Cluster) :=
  query (λ sql, Ok (GET_CLUSTER_BY_VALIDATOR validator_pubkey sql)).

Definition bump_and_get_nonce_tx (owner : Address) : dbop N :=
  _ ← execute (BUMP_NONCE owner);
  nonce ← query (GET_NONCE owner);
  _ ← push_update (SetOwnerNonce owner nonce);
  mret nonce.

Definition update_fee_recipient_tx (owner fee_recipient : Address) : dbop unit :=
  _ ← execute (INSERT_OR_UPDATE_OWNER_FEE_RECIPIENT owner fee_recipient);
  push_update (UpdateFeeRecipient owner fee_recipient).

Definition fee_recipient_for_owner (owner : Address) : dbop (option Address) :=
  query (λ sql, Ok (GET_OWNER_FEE_RECIPIENT owner sql)).

Definition get_validator_metadata_tx (validator_pubkey : PublicKeyBytes)
    : dbop (option ValidatorMetadata) :=
  query (λ sql, Ok (GET_VALIDATOR validator_pubkey sql)).

Definition has_own_share_tx db (validator_pubkey : PublicKeyBytes) : dbop bool :=
  own_id ← get_own_operator_id_tx db;
  match own_id with
  | None => mret false
  | Some operator_id => query (λ sql, Ok (GET_OWN_SHARE validator_pubkey operator_id sql))
  end.

Definition update_graffiti_tx (validator_pubkey : PublicKeyBytes) (graffiti : Graffiti) : dbop unit :=
  _ ← execute (SET_GRAFFITI graffiti validator_pubkey);
  push_update (UpdateGraffiti validator_pubkey graffiti).

(** ** Outside a caller's transaction *)

(** [publish_pending_state_updates] *)
Definition publish_pending_state_updates (us : list StateUpdate) db
    : outcome DatabaseError NetworkDatabase :=
  match us with
  | [] => Ok db
  | _ => st ← apply_updates us (db_state db); Ok (db <| db_state := st |>)
  end.

(** [set_validator_indices]: the tables in one transaction, then the memory. *)
Definition set_validator_indices (map : list (PublicKeyBytes * ValidatorIndex)) db
    : outcome DatabaseError NetworkDatabase :=
  sql ← foldl (λ o kv, sql ← o; SET_INDEX kv.2 kv.1 sql) (Ok (db_sql db)) map;
  Ok (mkNetworkDatabase (db_operator db) (set_indices map (db_state db)) sql).
End database.
