(* ===== verification/EventProcessor.v ===== *)
(** * Processing the events of the SSV contract

    [eth/src/event_processor.rs], [util.rs], [event_parser.rs] and [error.rs]: the
    logs of a range of blocks are handled block by block.  Each block is one database
    transaction; a log that fails with a skippable error is skipped, any other error
    aborts the block, and after the commit the queued updates are replayed on the
    in-memory state and the follow-up work is sent out.

    Decoding a log ([alloy]) gives the event or fails; the hash functions, BLS and RSA
    parsing and signature checks are the parameters of [EthLib]. *)

From Stdlib Require Import Ascii.
From S2P Require Import Prelude SsvTypes Messages ForkSchedule ValidationTypes DutyState.
From S2P Require Import ValidatorRules ConsensusValidation PartialValidation Subnet Validator MultiIndex.
From S2P Require Import NetworkState Sql Database.

(** ** Errors *)

Inductive ExecutionError :=
  | SyncError | InvalidEvent | MissingCommittedState | RpcError | WsError | DecodeErrorLog
  | SkippedEvent | Duplicate | DatabaseFailure.

Inductive LogErrorDisposition := SkipMalformed | SkipExpected | SkipAmbiguous | AbortBatch.

Definition log_disposition (e : ExecutionError) : LogErrorDisposition :=
  match e with
  | InvalidEvent | DecodeErrorLog | Duplicate => SkipMalformed
  | SkippedEvent => SkipExpected
  | MissingCommittedState => SkipAmbiguous
  | SyncError | RpcError | WsError | DatabaseFailure => AbortBatch
  end.

(** ** Events *)

Record OperatorAdded := { oa_operatorId : N; oa_owner : Address; oa_publicKey : bytes }.
Record ValidatorAdded := {
  va_owner : Address; va_operatorIds : list N; va_publicKey : bytes; va_shares : bytes }.
Record ValidatorRef := { vf_owner : Address; vf_operatorIds : list N; vf_publicKey : bytes }.
Record ClusterRef := { cf_owner : Address; cf_operatorIds : list N }.
Record FeeRecipientAddressUpdated := { fu_owner : Address; fu_recipientAddress : Address }.

(** The event named by [topic0], with the result of [decode_from_log]. *)
Inductive LogEvent :=
  | NoTopic
  | UnknownTopic
  | LogOperatorAdded (e : option OperatorAdded)
  | LogOperatorRemoved (operatorId : option N)
  | LogValidatorAdded (e : option ValidatorAdded)
  | LogValidatorRemoved (e : option ValidatorRef)
  | LogClusterLiquidated (e : option ClusterRef)
  | LogClusterReactivated (e : option ClusterRef)
  | LogFeeRecipientAddressUpdated (e : option FeeRecipientAddressUpdated)
  | LogValidatorExited (e : option ValidatorRef).

Record Log := {
  log_block_number : option N;
  log_block_timestamp : option N;
  log_event : LogEvent;
}.

Record ExitRequest := {
  ex_validator_pubkey : PublicKeyBytes;
  ex_validator_index : ValidatorIndex;
  ex_block_timestamp : N;
  ex_is_our_validator : bool;
}.

Inductive PostCommitAction :=
  | IndexSync (validator_pubkey : PublicKeyBytes)
  | ValidatorExit (request : ExitRequest).

(** ** Foreign code *)

Class EthLib `{KL : KeyLib} := {
  keccak256 : bytes → N;
  (** [Display] of an address: its checksummed text *)
  address_to_string : Address → bytes;
  BlsSignature : Type;
  BlsPublicKey : Type;
  sig_deserialize : bytes → option BlsSignature;
  pk_decompress : PublicKeyBytes → option BlsPublicKey;
  sig_verify : BlsSignature → BlsPublicKey → N → bool;
  hex_decode : bytes → option bytes;
  base64_encode : bytes → bytes;
  (** [operator_key::public::from_base64] *)
  key_from_base64 : bytes → option PubKey;
}.

(** ** Byte parsing *)

Definition to_be_bytes (n : nat) (v : N) : bytes := rev (to_le_bytes n v).

(** [slice.chunks(n)] for a positive [n]. *)
Fixpoint chunks_go {A} (fuel n : nat) (l : list A) : list (list A) :=
  match fuel, l with
  | _, [] | O, _ => []
  | S fuel, _ => take n l :: chunks_go fuel n (drop n l)
  end.
Definition chunks {A} (n : nat) (l : list A) : list (list A) := chunks_go (length l) n l.

(** [abi_word_to_usize] *)
Definition abi_word_to_usize (word : bytes) : option N :=
  if negb (bool_decide (length word = 32)) || existsb (λ b, negb (Byte.eqb b x00)) (take 24 word)
  then None else Some (from_be_bytes (drop 24 word)).

(** [abi_decode_single_dynamic_bytes], with the checked arithmetic on [usize]. *)
Definition abi_decode_single_dynamic_bytes (data : bytes) : option bytes :=
  if bool_decide (length data < 64) || negb (bool_decide (length data `mod` 32 = 0)) then None
  else
    offset ← abi_word_to_usize (take 32 data);
    if negb (offset =? 32)%N then None
    else
      l ← abi_word_to_usize (take 32 (drop 32 data));
      if (u64_max <? l + 31)%N then None
      else
        let padded_len := ((l + 31) `div` 32 * 32)%N in
        if (u64_max <? padded_len)%N then None
        else if (u64_max <? 64 + l)%N then None
        else if negb (len data =? 64 + padded_len)%N || (len data <? 64 + l)%N then None
        else Some (take (N.to_nat l) (drop 64 data)).

Definition unwrap_operator_public_key (data : bytes) : bytes :=
  default data (abi_decode_single_dynamic_bytes data).

Definition is_ascii_hexdigit (b : byte) : bool :=
  let n := Byte.to_N b in
  ((48 <=? n) && (n <=? 57) || (65 <=? n) && (n <=? 70) || (97 <=? n) && (n <=? 102))%N.

(** [b"-----BEGIN"] *)
Definition pem_begin : bytes := [x2d; x2d; x2d; x2d; x2d; x42; x45; x47; x49; x4e].

Definition strip_0x (data : bytes) : bytes :=
  match data with
  | x30 :: x78 :: rest => rest
  | _ => data
  end.

(** [BLS_SIGNATURE_LENGTH], [BLS_PUBLIC_KEY_LENGTH], [ENCRYPTED_KEY_LENGTH], [MAX_OPERATORS] *)
Definition BLS_SIGNATURE_LENGTH : nat := 96.
Definition BLS_PUBLIC_KEY_LENGTH : nat := 48.
Definition ENCRYPTED_KEY_LENGTH : nat := 256.
Definition MAX_OPERATORS : nat := 13.

Section parsing.
Context `{EL : EthLib}.

(** [decode_hex_encoded_operator_pem]; a text of hexadecimal digits is valid UTF-8. *)
Definition decode_hex_encoded_operator_pem (data : bytes) : outcome unit (option bytes) :=
  let text := strip_0x data in
  if bool_decide (text = []) || negb (bool_decide (length text `mod` 2 = 0)) then Ok None
  else if negb (forallb is_ascii_hexdigit text) then Ok None
  else
    pem ← ok_or (hex_decode text) tt;
    if negb (bool_decide (take 10 pem = pem_begin)) then Err tt
    else Ok (Some (base64_encode pem)).

Definition normalize_operator_public_key_bytes (data : bytes) : outcome unit bytes :=
  pem ← decode_hex_encoded_operator_pem data;
  Ok (default data pem).

(** [parse_operator_public_key]; the reason of a failure is only text. *)
Definition parse_operator_public_key (data : bytes) (operator_id : OperatorId) (owner : Address)
    : outcome unit Operator :=
  data ← normalize_operator_public_key_bytes (unwrap_operator_public_key data);
  key ← ok_or (key_from_base64 data) tt;
  Ok (mkOperator operator_id key owner).

Definition parse_validator_pubkey (pubkey : bytes) : outcome ExecutionError PublicKeyBytes :=
  ok_or (pk_deserialize pubkey) InvalidEvent.

(** [compute_cluster_id]: the owner and the sorted ids, each padded to 32 bytes. *)
Definition cluster_id_preimage (owner : Address) (operator_ids : list N) : bytes :=
  to_be_bytes 20 owner ++
  (merge_sort N.le operator_ids ≫= λ id, replicate 24 x00 ++ to_be_bytes 8 id).

Definition compute_cluster_id (owner : Address) (operator_ids : list N) : ClusterId :=
  keccak256 (cluster_id_preimage owner operator_ids).

(** [parse_shares]: the signature, and one share per operator. *)
Definition parse_shares (shares : bytes) (operator_ids : list OperatorId)
    (cluster_id : ClusterId) (validator_pubkey : PublicKeyBytes)
    : outcome unit (bytes * list Share) :=
  let operator_count := length operator_ids in
  let signature_offset := BLS_SIGNATURE_LENGTH in
  let pub_keys_offset := BLS_PUBLIC_KEY_LENGTH * operator_count + signature_offset in
  let shares_expected_length := ENCRYPTED_KEY_LENGTH * operator_count + pub_keys_offset in
  if negb (bool_decide (shares_expected_length = length shares)) then Err tt
  else
    let signature := take signature_offset shares in
    let share_public_keys := chunks BLS_PUBLIC_KEY_LENGTH
      (drop signature_offset (take pub_keys_offset shares)) in
    let encrypted_keys := chunks ENCRYPTED_KEY_LENGTH (drop pub_keys_offset shares) in
    shares ← try_map (λ x : (bytes * bytes) * OperatorId,
        let '((public, encrypted), operator_id) := x in
        share_pubkey ← ok_or (pk_deserialize public) tt;
        _ ← ensure (bool_decide (length encrypted = 256)) tt;
        Ok (mkShare validator_pubkey operator_id cluster_id share_pubkey encrypted))
      (zip (zip share_public_keys encrypted_keys) operator_ids);
    Ok (signature, shares).

(** The ten bytes of [b"Anchor-SSV"], padded to 32. *)
Definition default_graffiti : Graffiti :=
  [x41; x6e; x63; x68; x6f; x72; x2d; x53; x53; x56] ++ replicate 22 x00.

Definition construct_validator_metadata (public_key : PublicKeyBytes) (cluster_id : ClusterId)
    : ValidatorMetadata :=
  mkValidatorMetadata public_key cluster_id None default_graffiti.

(** [verify_signature] over [format!("{owner}:{nonce}")]. *)
Definition verify_signature (signature : bytes) (nonce : N) (owner : Address)
    (public_key : PublicKeyBytes) : bool :=
  let data := address_to_string owner ++ [x3a] ++ String.list_byte_of_string (u64_to_string nonce) in
  let hash := keccak256 data in
  match sig_deserialize signature with
  | None => false
  | Some sig =>
      match pk_decompress public_key with
      | None => false
      | Some pk => sig_verify sig pk hash
      end
  end.
End parsing.

(** ** The handlers *)

Section processor.
Context `{EL : EthLib}.

(** [Mode]: a node with the registration of the slashing protection database, or key
    splitting, which only follows the nonces. *)
Inductive Mode :=
  | Node (register_validator : PublicKeyBytes → bool)
  | KeySplit.

(** What a handler changes: the transaction and the list of follow-up work. *)
Record Ev := mkEv {
  ev_tx : Tx;
  ev_actions : list PostCommitAction;
}.
#[export] Instance eta_Ev : Eta Ev := λ r, mkEv (ev_tx r) (ev_actions r).

Abbreviation handler A := (action Ev ExecutionError A).
Implicit Types (db : NetworkDatabase) (mode : Mode).

(** A database operation, its errors reported as [ExecutionError::Database]. *)
Definition db_call {A} (m : action Tx DatabaseError A) : handler A := λ ev,
  let r := m (ev_tx ev) in (map_err (λ _, DatabaseFailure) r.1, ev <| ev_tx := r.2 |>).

Definition push_action (a : PostCommitAction) : handler unit :=
  modify (λ ev, ev <| ev_actions := ev_actions ev ++ [a] |>).

Definition decode_from_log {A} (e : option A) : handler A := lift (ok_or e DecodeErrorLog).

Definition process_operator_added db (log : option OperatorAdded) : handler unit :=
  e ← decode_from_log log;
  let operator_id := oa_operatorId e in
  present ← db_call (operator_exists_tx operator_id);
  if present : bool then throw Duplicate
  else
    max_seen ← db_call get_max_operator_id_seen_tx;
    (** [operatorId - 1] wraps in release builds *)
    _ ← lift (match max_seen with
              | Some max_seen => ensure (max_seen =? wsub64 operator_id 1)%N InvalidEvent
              | None => Ok tt
              end);
    _ ← db_call (set_max_operator_id_seen_tx operator_id);
    match parse_operator_public_key (oa_publicKey e) operator_id (oa_owner e) with
    | Ok operator =>
        existing ← db_call (get_any_operator_id_by_public_key_tx (op_rsa_pubkey operator));
        match existing with
        | Some _ =>
            _ ← db_call (insert_skipped_operator_add_tx operator_id);
            throw InvalidEvent
        | None => db_call (insert_operator_tx db operator)
        end
    | _ =>
        _ ← db_call (insert_skipped_operator_add_tx operator_id);
        throw InvalidEvent
    end.

Definition process_operator_removed (log : option N) : handler unit :=
  operator_id ← decode_from_log log;
  skipped ← db_call (delete_skipped_operator_add_tx operator_id);
  if skipped : bool then throw SkippedEvent
  else db_call (delete_operator_tx operator_id).

(** [validate_operators] *)
Definition validate_operators (operator_ids : list OperatorId) : handler unit :=
  let num_operators := length operator_ids in
  _ ← lift (ensure (negb (bool_decide (MAX_OPERATORS < num_operators))) InvalidEvent);
  _ ← lift (ensure (negb (bool_decide (num_operators = 0))) InvalidEvent);
  _ ← lift (ensure (is_valid_committee_size num_operators) InvalidEvent);
  _ ← lift (ensure (bool_decide (NoDup operator_ids)) InvalidEvent);
  for_each (λ operator_id,
    present ← db_call (operator_exists_tx operator_id);
    lift (ensure present MissingCommittedState)) operator_ids.

Definition validate_validator_added_conflict (owner : Address) (validator_pubkey : PublicKeyBytes)
    (computed_cluster_id : ClusterId) : handler unit :=
  metadata ← db_call (get_validator_metadata_tx validator_pubkey);
  match metadata with
  | None => mret tt
  | Some _ =>
      cluster ← db_call (get_cluster_by_validator_tx validator_pubkey);
      existing_cluster ← lift (ok_or cluster MissingCommittedState);
      _ ← lift (ensure (cl_owner existing_cluster =? owner)%N InvalidEvent);
      _ ← lift (ensure (cl_cluster_id existing_cluster =? computed_cluster_id)%N InvalidEvent);
      throw Duplicate
  end.

Definition process_validator_added mode db (log : option ValidatorAdded) : handler unit :=
  e ← decode_from_log log;
  let owner := va_owner e in
  nonce ← db_call (bump_and_get_nonce_tx owner);
  match mode with
  | KeySplit => mret tt
  | Node register_validator =>
      validator_pubkey ← lift (parse_validator_pubkey (va_publicKey e));
      let cluster_id := compute_cluster_id owner (va_operatorIds e) in
      let operator_ids := va_operatorIds e in
      _ ← validate_operators operator_ids;
      parsed ← lift (map_err (λ _, InvalidEvent)
        (parse_shares (va_shares e) operator_ids cluster_id validator_pubkey));
      let '(signature, shares) := parsed : bytes * list Share in
      _ ← lift (ensure (verify_signature signature nonce owner validator_pubkey) InvalidEvent);
      _ ← lift (map_err (λ _, InvalidEvent)
        (validate_share_public_keys validator_pubkey
           ((λ share, (sh_operator_id share, sh_share_pubkey share)) <$> shares)));
      _ ← validate_validator_added_conflict owner validator_pubkey cluster_id;
      let validator_metadata := construct_validator_metadata validator_pubkey cluster_id in
      stored ← attempt (db_call (fee_recipient_for_owner owner));
      let fee_recipient := default owner (mjoin stored) in
      let cluster := mkCluster cluster_id owner fee_recipient false operator_ids in
      _ ← lift (ensure (register_validator validator_pubkey) DatabaseFailure);
      _ ← db_call (insert_validator_tx db cluster validator_metadata shares);
      push_action (IndexSync validator_pubkey)
  end.

Definition process_validator_removed (log : option ValidatorRef) : handler unit :=
  e ← decode_from_log log;
  validator_pubkey ← lift (parse_validator_pubkey (vf_publicKey e));
  metadata ← db_call (get_validator_metadata_tx validator_pubkey);
  metadata ← lift (ok_or metadata MissingCommittedState);
  cluster ← db_call (get_cluster_by_validator_tx validator_pubkey);
  cluster ← lift (ok_or cluster MissingCommittedState);
  _ ← lift (ensure (vf_owner e =? cl_owner cluster)%N InvalidEvent);
  _ ← lift (ensure (bool_decide (validator_pubkey = md_public_key metadata)) InvalidEvent);
  db_call (delete_validator_tx validator_pubkey).

(** [process_cluster_liquidated] and [process_cluster_reactivated] *)
Definition process_cluster_status (liquidated : bool) (log : option ClusterRef) : handler unit :=
  e ← decode_from_log log;
  db_call (update_status_tx (compute_cluster_id (cf_owner e) (cf_operatorIds e)) liquidated).

Definition process_fee_recipient_updated (log : option FeeRecipientAddressUpdated) : handler unit :=
  e ← decode_from_log log;
  db_call (update_fee_recipient_tx (fu_owner e) (fu_recipientAddress e)).

Definition verify_validator_owner (owner : Address) (validator_pubkey : PublicKeyBytes)
    (computed_cluster_id : ClusterId) : handler unit :=
  cluster ← db_call (get_cluster_by_validator_tx validator_pubkey);
  cluster ← lift (ok_or cluster InvalidEvent);
  _ ← lift (ensure (cl_cluster_id cluster =? computed_cluster_id)%N InvalidEvent);
  _ ← lift (ensure (negb (cl_liquidated cluster)) SkippedEvent);
  lift (ensure (cl_owner cluster =? owner)%N InvalidEvent).

Definition get_validator_index (validator_pubkey : PublicKeyBytes) : handler (option ValidatorIndex) :=
  metadata ← db_call (get_validator_metadata_tx validator_pubkey);
  metadata ← lift (ok_or metadata InvalidEvent);
  mret (md_index metadata).

Definition is_our_validator db (validator_pubkey : PublicKeyBytes) : handler bool :=
  db_call (has_own_share_tx db validator_pubkey).

Definition process_validator_exited mode db (live : bool) (block_timestamp : option N)
    (log : option ValidatorRef) : handler unit :=
  match mode with
  | KeySplit => mret tt
  | Node _ =>
      e ← decode_from_log log;
      validator_pubkey ← lift (parse_validator_pubkey (vf_publicKey e));
      let computed_cluster_id := compute_cluster_id (vf_owner e) (vf_operatorIds e) in
      _ ← verify_validator_owner (vf_owner e) validator_pubkey computed_cluster_id;
      _ ← validate_operators (vf_operatorIds e);
      block_timestamp ← lift (ok_or block_timestamp InvalidEvent);
      index ← get_validator_index validator_pubkey;
      match index with
      | None => mret tt
      | Some validator_index =>
          ours ← is_our_validator db validator_pubkey;
          if negb live then mret tt
          else push_action (ValidatorExit {| ex_validator_pubkey := validator_pubkey;
                                             ex_validator_index := validator_index;
                                             ex_block_timestamp := block_timestamp;
                                             ex_is_our_validator := ours |})
      end
  end.

(** ** Blocks *)

Definition process_log mode db (live : bool) (log : Log) : handler unit :=
  match log_event log with
  | NoTopic | UnknownTopic => mret tt
  | LogOperatorAdded e => process_operator_added db e
  | LogOperatorRemoved e => process_operator_removed e
  | LogValidatorAdded e => process_validator_added mode db e
  | LogValidatorRemoved e => process_validator_removed e
  | LogClusterLiquidated e => process_cluster_status true e
  | LogClusterReactivated e => process_cluster_status false e
  | LogFeeRecipientAddressUpdated e => process_fee_recipient_updated e
  | LogValidatorExited e => process_validator_exited mode db live (log_block_timestamp log) e
  end.

(** A skippable error is dropped, with what the handler did until then. *)
Definition process_or_skip mode db (live : bool) (log : Log) : handler unit := λ ev,
  match process_log mode db live log ev with
  | (Err e, ev') =>
      match log_disposition e with
      | AbortBatch => (Err e, ev')
      | _ => (Ok tt, ev')
      end
  | r => r
  end.

Definition process_block_tx mode db (live : bool) (block_number : N) (logs : list Log) : handler unit :=
  _ ← for_each (process_or_skip mode db live) logs;
  db_call (processed_block_tx block_number).

(** A node: its database, and the follow-up work it has sent out. *)
Record EventProcessor := mkEventProcessor {
  ep_db : NetworkDatabase;
  ep_sent : list PostCommitAction;
}.

Abbreviation process A := (action EventProcessor ExecutionError A).

(** [execute_post_commit_actions] *)
Definition execute_post_commit_actions mode (actions : list PostCommitAction)
    (sent : list PostCommitAction) : list PostCommitAction :=
  match mode with
  | Node _ => sent ++ actions
  | KeySplit => sent
  end.

(** [process_block_logs]; [commit] tells whether the commit of a block succeeds.  An error
    drops the transaction.  The tables are committed before the memory is updated: a panic
    of that update leaves the new tables, a memory that is updated in part, and the
    follow-up work not sent. *)
Definition process_block_logs mode (commit : N → bool) (live : bool) (block_number : N)
    (logs : list Log) : process unit := λ ep,
  let db := ep_db ep in
  match process_block_tx mode db live block_number logs (mkEv (mkTx (db_sql db) []) []) with
  | (Ok _, ev) =>
      if commit block_number then
        let committed := db <| db_sql := tx_sql (ev_tx ev) |> in
        match publish_pending_state_updates (tx_updates (ev_tx ev)) committed with
        | Ok db' =>
            (Ok tt, mkEventProcessor db'
                      (execute_post_commit_actions mode (ev_actions ev) (ep_sent ep)))
        | _ =>
            (Panic, mkEventProcessor
                      (committed <| db_state := interrupted_updates (tx_updates (ev_tx ev)) (db_state db) |>)
                      (ep_sent ep))
        end
      else (Err DatabaseFailure, ep)
  | (Err e, _) => (Err e, ep)
  | (Panic, _) => (Panic, ep)
  end.

(** [flush_current_block_if_any] *)
Definition flush_current_block_if_any mode commit live (current_block : option N)
    (block_logs : list Log) : process (option N) :=
  match current_block with
  | None => mret None
  | Some block_number =>
      _ ← process_block_logs mode commit live block_number block_logs;
      mret (Some block_number)
  end.

(** The loop of [process_logs], with the buffered block. *)
Fixpoint process_logs_go mode commit live (end_block : N) (logs : list Log)
    (current_block : option N) (block_logs : list Log) : process (option N) :=
  match logs with
  | [] => flush_current_block_if_any mode commit live current_block block_logs
  | log :: logs =>
      let block_number := default end_block (log_block_number log) in
      if bool_decide (is_Some current_block ∧ current_block ≠ Some block_number) then
        _ ← flush_current_block_if_any mode commit live current_block block_logs;
        process_logs_go mode commit live end_block logs (Some block_number) [log]
      else
        process_logs_go mode commit live end_block logs (Some block_number) (block_logs ++ [log])
  end.

Definition process_logs mode commit (live : bool) (logs : list Log) (end_block : N) : process unit :=
  last_flushed_block ← process_logs_go mode commit live end_block logs None [];
  if decide (last_flushed_block = Some end_block) then mret tt
  else process_block_logs mode commit live end_block [].
End processor.
