(* ===== verification/EventSample.v ===== *)
(** * A sample chain

    A concrete instance of the libraries that the event processor uses, and the events
    of a small chain: four operators register, and an owner registers a validator with
    them.  Used to evaluate the model. *)

From S2P Require Import Prelude SsvTypes Messages ForkSchedule ValidationTypes DutyState.
From S2P Require Import ValidatorRules ConsensusValidation PartialValidation Subnet Validator MultiIndex.
From S2P Require Import NetworkState Sql BlsInterface SampleBls Database EventProcessor.

Module SampleChain.
(** Operator keys are numbers, encoded by their length; BLS keys are the toy ones, padded
    with zeros. *)
#[export] Instance chain_crypto : Crypto :=
  {| PubKey := N; rsa_verify := λ _ _ _, true; ssv_as_ssz := λ m, msg_id m; sha256 := λ bs, bs;
     pk_deserialize := λ bs, Some (filter (λ b, b ≠ x00) bs) |}.

Definition key_bytes (k : N) : bytes := replicate (N.to_nat k) x00.

#[export] Program Instance chain_keys : KeyLib :=
  {| encode_key := key_bytes; decode_key := λ bs, Some (N.of_nat (length bs));
     shares_interpolate := shares_validated (BlsLib:=SampleBls.lib) |}.
Next Obligation. intros k. unfold key_bytes. by rewrite length_replicate, N2Nat.id. Qed.

#[export] Instance chain_eth : EthLib :=
  {| keccak256 := from_be_bytes; address_to_string := to_be_bytes 20;
     BlsSignature := bytes; BlsPublicKey := bytes;
     sig_deserialize := λ bs, Some bs; pk_decompress := λ bs, Some bs;
     sig_verify := λ s pk _, bool_decide (take 1 s = pk); hex_decode := λ _, None;
     base64_encode := λ bs, bs; key_from_base64 := λ bs, Some (N.of_nat (length bs)) |}.

Definition sample_log (n : N) (e : LogEvent) : Log :=
  {| log_block_number := Some n; log_block_timestamp := Some (n * 12)%N; log_event := e |}.

Definition operator_log (n id : N) : Log :=
  sample_log n (LogOperatorAdded (Some
    {| oa_operatorId := id; oa_owner := 77; oa_publicKey := key_bytes id |})).

Definition padded_key (key : bytes) : bytes := key ++ replicate (48 - length key) x00.

(** The signature starts with the byte that stands for the validator key. *)
Definition sample_shares (b : byte) : bytes :=
  replicate 96 b ++
  mjoin ((λ k, padded_key (SampleBls.share_key [x0a] k)) <$> [1; 2; 3; 4]%N) ++ replicate 1024 x09.

Definition sample_registration (b : byte) : ValidatorAdded :=
  {| va_owner := 99; va_operatorIds := [1; 2; 3; 4]%N; va_publicKey := padded_key [x0a];
     va_shares := sample_shares b |}.

Definition registration_log (n : N) (b : byte) : Log :=
  sample_log n (LogValidatorAdded (Some (sample_registration b))).

(** Another validator of the same cluster. *)
Definition second_registration (n : N) : Log :=
  sample_log n (LogValidatorAdded (Some
    {| va_owner := 99; va_operatorIds := [1; 2; 3; 4]%N; va_publicKey := padded_key [x0b];
       va_shares := replicate 96 x0b ++
         mjoin ((λ k, padded_key (SampleBls.share_key [x0b] k)) <$> [1; 2; 3; 4]%N) ++ replicate 1024 x09 |})).

(** A registration with a wrong signature, then one with a good one. *)
Definition sample_logs : list Log :=
  [operator_log 5 1; operator_log 5 2; operator_log 5 3; operator_log 5 4;
   registration_log 7 x0b; registration_log 8 x0a].

(** We are operator 2. *)
Definition sample_operator : PubkeyOrId := ByPubkey (2%N : @PubKey chain_crypto).

Definition sample_mode : Mode := Node (λ _, true).

Definition fresh_db : NetworkDatabase :=
  mkNetworkDatabase sample_operator
    (mkNetworkState (mkMultiState mi_new mi_new mi_new) (mkSingleState None 0 ∅ ∅ ∅ (Some 0%N)))
    empty_tables.

Definition fresh_node : EventProcessor := mkEventProcessor fresh_db [].

Lemma fresh_db_new : database_new sample_operator empty_tables = Ok fresh_db.
Proof. reflexivity. Qed.

Definition sample_node : EventProcessor :=
  (process_logs sample_mode (λ _, true) true sample_logs 9 fresh_node).2.

(** The run succeeds; the validator is stored, our share is known, and the nonce is the one
    of the second registration. *)
Lemma sample_run :
  (process_logs sample_mode (λ _, true) true sample_logs 9 fresh_node).1 = Ok tt ∧
  let st := db_state (ep_db sample_node) in
  let sql := db_sql (ep_db sample_node) in
  is_Some (t_validators sql !! [x0a]) ∧ is_Some (primary (ms_shares (ns_multi st)) !! [x0a]) ∧
  t_owners sql !! 99%N ≫= ow_nonce = Some 1%N ∧ t_block_number sql = 9%N ∧
  get_own_id st = Some 2%N ∧ ep_sent sample_node = [IndexSync [x0a]].
Proof. vm_compute. split_and!; try done; by eexists. Qed.
End SampleChain.
