(* ===== verification/DatabaseSync.v ===== *)
(** * Memory and tables agree

    The in-memory network state is kept in step with the tables by replaying queued
    updates.  This file relates the two: [sql_ok] is the consistency of the tables,
    [abs_of_sql] the abstract state they hold, and [Synced] says that the in-memory
    state holds the same.  Each pair of statement and queued update preserves it, and
    loading a state from the tables establishes it. *)

From S2P Require Import Prelude SsvTypes Messages ForkSchedule ValidationTypes DutyState.
From S2P Require Import ValidatorRules ConsensusValidation PartialValidation Subnet Validator MultiIndex.
From S2P Require Import NetworkState Sql Database EventProcessor.

Section sync.
Context `{EL : EthLib}.
Implicit Types (sql : Sql) (a : Abs) (ss : SingleState).

(** The preimages of cluster ids among which the hash has no collision. *)
Variable Known : bytes → Prop.
Hypothesis keccak_inj : ∀ x y, Known x → Known y → keccak256 x = keccak256 y → x = y.

(** Our identity, and the operator id the contract gives to our key. *)
Variable operator : PubkeyOrId.
Variable own : OperatorId.

(** The clusters whose status is not followed. *)
Variable Exempt : ClusterId → bool.

(** ** Consistency of the tables *)

Definition members sql (cid : ClusterId) : gset OperatorId :=
  list_to_set (GET_CLUSTER_MEMBERS cid sql).

(** The share keys of a validator. *)
Definition share_pubkeys_of sql (pk : PublicKeyBytes) : list (OperatorId * PublicKeyBytes) :=
  (λ kv, (kv.1.2, sr_share_pubkey kv.2)) <$> filter (λ kv, kv.1.1 = pk) (map_to_list (t_shares sql)).

Record sql_ok sql : Prop := {
  so_validator_cluster : ∀ pk r, t_validators sql !! pk = Some r →
    is_Some (t_clusters sql !! vr_cluster_id r);
  so_cluster_validator : ∀ cid r, t_clusters sql !! cid = Some r →
    ∃ pk v, t_validators sql !! pk = Some v ∧ vr_cluster_id v = cid;
  so_cluster_id : ∀ cid r, t_clusters sql !! cid = Some r →
    (cr_owner r < 2 ^ 160)%N ∧ GET_CLUSTER_MEMBERS cid sql ≠ [] ∧
    Forall (λ id, id < 2 ^ 64)%N (GET_CLUSTER_MEMBERS cid sql) ∧
    Known (cluster_id_preimage (cr_owner r) (GET_CLUSTER_MEMBERS cid sql)) ∧
    cid = compute_cluster_id (cr_owner r) (GET_CLUSTER_MEMBERS cid sql);
  so_member : ∀ cid id, (cid, id) ∈ t_cluster_members sql →
    is_Some (t_clusters sql !! cid) ∧ is_Some (t_operators sql !! id);
  so_share : ∀ pk id s, t_shares sql !! (pk, id) = Some s →
    ∃ r, t_validators sql !! pk = Some r ∧ sr_cluster_id s = vr_cluster_id r ∧
      (vr_cluster_id r, id) ∈ t_cluster_members sql;
  so_share_all : ∀ pk r id, t_validators sql !! pk = Some r →
    (vr_cluster_id r, id) ∈ t_cluster_members sql → is_Some (t_shares sql !! (pk, id));
  so_share_valid : ∀ pk, is_Some (t_validators sql !! pk) →
    validate_share_public_keys pk (share_pubkeys_of sql pk) = Ok tt;
  so_nonce : ∀ o r n, t_owners sql !! o = Some r → ow_nonce r = Some n → (n < 2 ^ 16)%N;
  so_key : ∀ id r, t_operators sql !! id = Some r → ∃ k, or_public_key r = encode_key k;
  so_key_unique : ∀ id id' r r', t_operators sql !! id = Some r → t_operators sql !! id' = Some r' →
    or_public_key r = or_public_key r' → id = id';
}.

(** ** The abstract state of the tables *)

Definition abs_of_sql (id : option OperatorId) sql : Abs :=
  mkAbs (map_imap (λ pk r, Some (metadata_of_row pk r)) (t_validators sql))
    (map_imap (λ cid r, Some (cluster_of_row cid r sql)) (t_clusters sql))
    (map_imap (λ pk _, i ← id; share_of_row pk i <$> t_shares sql !! (pk, i)) (t_validators sql)).

(** The members of a cluster are a set; a cluster that is liquidated in memory is
    liquidated in the tables, and the other way round unless it is exempt. *)
Record cluster_sim (c c' : Cluster) : Prop := {
  cs_id : cl_cluster_id c = cl_cluster_id c';
  cs_owner : cl_owner c = cl_owner c';
  cs_fee : cl_fee_recipient c = cl_fee_recipient c';
  cs_liquidated : cl_liquidated c = true → cl_liquidated c' = true;
  cs_status : Exempt (cl_cluster_id c) = false → cl_liquidated c = cl_liquidated c';
  cs_members : cl_cluster_members c ≡ₚ cl_cluster_members c';
}.

Record abs_sim a a' : Prop := {
  as_validators : a_validators a = a_validators a';
  as_clusters : ∀ cid, option_Forall2 cluster_sim (a_clusters a !! cid) (a_clusters a' !! cid);
  as_shares : a_shares a = a_shares a';
}.

Record single_sim ss sql : Prop := {
  si_block : ss_last_processed_block ss = t_block_number sql;
  si_max : ss_max_operator_id_seen ss = t_max_operator_id_seen sql;
  si_operators : ∀ id op, ss_operators ss !! id = Some op ↔
    ∃ r, t_operators sql !! id = Some r ∧ or_removed r = false ∧ operator_of_row id r = Ok op;
  si_nonces : ∀ o, ss_nonces ss !! o = t_owners sql !! o ≫= ow_nonce;
  si_clusters : ∀ cid, cid ∈ ss_clusters ss ↔
    ∃ i, ss_id ss = Some i ∧ (cid, i) ∈ t_cluster_members sql;
  (** our id: the one of our key, once that is registered *)
  si_own : ∀ i, ss_id ss = Some i → i = own;
  si_id : match operator with
          | ById i => ss_id ss = Some i
          | ByPubkey k =>
              (∀ id r, t_operators sql !! id = Some r → or_public_key r = encode_key k → id = own) ∧
              (∀ r, t_operators sql !! own = Some r → or_public_key r = encode_key k →
                 or_removed r = false → ss_id ss = Some own) ∧
              (∀ r, ss_id ss = Some own → t_operators sql !! own = Some r →
                 or_public_key r = encode_key k)
          end;
}.

Record Synced a ss sql : Prop := {
  sy_sql : sql_ok sql;
  sy_abs : abs_ok a;
  sy_sim : abs_sim a (abs_of_sql (ss_id ss) sql);
  sy_single : single_sim ss sql;
}.

(** ** Reading the tables *)

Lemma elem_of_cluster_members sql cid id :
  id ∈ GET_CLUSTER_MEMBERS cid sql ↔ (cid, id) ∈ t_cluster_members sql.
Proof.
  unfold GET_CLUSTER_MEMBERS. rewrite list_elem_of_fmap. split.
  - intros ([c i] & -> & [Hc Hin%elem_of_elements]%list_elem_of_filter). simpl in *. by subst.
  - intros Hin. exists (cid, id). split; [done|]. apply list_elem_of_filter.
    by rewrite elem_of_elements.
Qed.

Lemma cluster_members_NoDup sql cid : NoDup (GET_CLUSTER_MEMBERS cid sql).
Proof.
  unfold GET_CLUSTER_MEMBERS. apply NoDup_fmap_2_strong; [|apply NoDup_filter, NoDup_elements].
  intros [c i] [c' i'] [Hc _]%list_elem_of_filter [Hc' _]%list_elem_of_filter Heq.
  simpl in *. by subst.
Qed.

Lemma cluster_members_ext sql sql' cid :
  (∀ id, (cid, id) ∈ t_cluster_members sql ↔ (cid, id) ∈ t_cluster_members sql') →
  GET_CLUSTER_MEMBERS cid sql ≡ₚ GET_CLUSTER_MEMBERS cid sql'.
Proof.
  intros Heq. apply NoDup_Permutation; [apply cluster_members_NoDup..|].
  intros id. by rewrite !elem_of_cluster_members.
Qed.

Lemma preimage_perm owner ids ids' :
  ids ≡ₚ ids' → cluster_id_preimage owner ids = cluster_id_preimage owner ids'.
Proof. intros Hp. unfold cluster_id_preimage. by rewrite (merge_sort_perm_eq ids ids'). Qed.

Lemma compute_cluster_id_perm owner ids ids' :
  ids ≡ₚ ids' → compute_cluster_id owner ids = compute_cluster_id owner ids'.
Proof. intros Hp. unfold compute_cluster_id. by rewrite (preimage_perm owner ids ids'). Qed.

(** The keys of operators identify them. *)
Lemma get_operator_id_spec sql key id :
  sql_ok sql →
  GET_OPERATOR_ID key sql = Some id ↔
  ∃ r, t_operators sql !! id = Some r ∧ or_public_key r = key ∧ or_removed r = false.
Proof.
  clear own Exempt. intros Hok. unfold GET_OPERATOR_ID.
  set (m := filter _ (operators_with_key key sql)).
  assert (Hm : ∀ i r, m !! i = Some r ↔
    t_operators sql !! i = Some r ∧ or_public_key r = key ∧ or_removed r = false).
  { intros i r. subst m. unfold operators_with_key. rewrite !map_lookup_filter_Some. simpl. tauto. }
  split.
  - intros Hh. destruct (map_to_list m) as [|[i r] l] eqn:Hl; [done|]. injection Hh as <-.
    exists r. apply Hm, elem_of_map_to_list. rewrite Hl. left.
  - intros (r & Hr). apply Hm in Hr as Hmr. apply elem_of_map_to_list in Hmr.
    destruct (map_to_list m) as [|[i r'] l] eqn:Hl; [by apply elem_of_nil in Hmr|]. simpl. f_equal.
    assert (Hi : m !! i = Some r') by (apply elem_of_map_to_list; rewrite Hl; left).
    apply Hm in Hi as (Hi & Hk & _). destruct Hr as (Hr & Hk' & _).
    eapply so_key_unique; [done|exact Hi|exact Hr|congruence].
Qed.

Lemma get_any_operator_id_none sql key :
  GET_ANY_OPERATOR_ID key sql = None →
  ∀ id r, t_operators sql !! id = Some r → or_public_key r ≠ key.
Proof.
  unfold GET_ANY_OPERATOR_ID. intros Hn id r Hr Hk.
  assert (Hin : (id, r) ∈ map_to_list (operators_with_key key sql)).
  { apply elem_of_map_to_list. unfold operators_with_key. by apply map_lookup_filter_Some. }
  destruct (map_to_list _); [by apply elem_of_nil in Hin|done].
Qed.

(** ** Statements that do not touch the clusters *)

(** Changes that keep the tables of the abstract state. *)
Lemma abs_of_sql_same id sql sql' :
  t_validators sql' = t_validators sql → t_clusters sql' = t_clusters sql →
  t_cluster_members sql' = t_cluster_members sql → t_shares sql' = t_shares sql →
  (∀ o, GET_OWNER_FEE_RECIPIENT o sql' = GET_OWNER_FEE_RECIPIENT o sql) →
  abs_of_sql id sql' = abs_of_sql id sql.
Proof.
  intros Hv Hc Hm Hs Hf. unfold abs_of_sql. rewrite Hv, Hc, Hs. f_equal.
  apply map_eq. intros cid. rewrite !map_lookup_imap.
  destruct (t_clusters sql !! cid) as [r|]; [|done]. unfold cluster_of_row, GET_CLUSTER_MEMBERS.
  cbn [mbind option_bind]. by rewrite Hf, Hm.
Qed.

Lemma synced_block a ss sql n :
  Synced a ss sql →
  Synced a (ss <| ss_last_processed_block := n |>) (sql <| t_block_number := n |>).
Proof. intros [Hok Ha Hsim Hss]. split; [by destruct Hok|done|exact Hsim|by destruct Hss]. Qed.

Lemma synced_max a ss sql n :
  Synced a ss sql →
  Synced a (ss <| ss_max_operator_id_seen := Some n |>) (sql <| t_max_operator_id_seen := Some n |>).
Proof. intros [Hok Ha Hsim Hss]. split; [by destruct Hok|done|exact Hsim|by destruct Hss]. Qed.

Lemma synced_skipped a ss sql x :
  Synced a ss sql → Synced a ss (sql <| t_skipped_operator_adds := x |>).
Proof. intros [Hok Ha Hsim Hss]. split; [by destruct Hok|done|exact Hsim|by destruct Hss]. Qed.

(** A new nonce. *)
Lemma synced_nonce a ss sql o row n :
  Synced a ss sql → (n < 2 ^ 16)%N →
  ow_nonce row = Some n → ow_fee_recipient row = t_owners sql !! o ≫= ow_fee_recipient →
  Synced a (ss <| ss_nonces := <[o := n]> (ss_nonces ss) |>)
    (sql <| t_owners := <[o := row]> (t_owners sql) |>).
Proof.
  intros [Hok Ha Hsim Hss] Hn Hrow Hfee. split.
  - destruct Hok. split; try done. intros o' r' n' Ho' Hn'. cbn in Ho'.
    destruct (decide (o' = o)) as [->|Hne].
    + rewrite lookup_insert_eq in Ho'. injection Ho' as <-. congruence.
    + rewrite lookup_insert_ne in Ho' by done. by eapply so_nonce0.
  - done.
  - rewrite (abs_of_sql_same _ sql); try done. intros o'. unfold GET_OWNER_FEE_RECIPIENT. cbn.
    destruct (decide (o' = o)) as [->|Hne].
    + by rewrite lookup_insert_eq, <- Hfee.
    + by rewrite lookup_insert_ne.
  - destruct Hss. split; try done. intros o'. cbn. destruct (decide (o' = o)) as [->|Hne].
    + by rewrite !lookup_insert_eq, <- Hrow.
    + by rewrite !lookup_insert_ne.
Qed.

Lemma abs_of_sql_cluster id sql cid :
  a_clusters (abs_of_sql id sql) !! cid = (λ r, cluster_of_row cid r sql) <$> t_clusters sql !! cid.
Proof. cbn [abs_of_sql a_clusters]. rewrite map_lookup_imap. by destruct (t_clusters sql !! cid). Qed.

Lemma abs_of_sql_validator id sql pk :
  a_validators (abs_of_sql id sql) !! pk = metadata_of_row pk <$> t_validators sql !! pk.
Proof. cbn [abs_of_sql a_validators]. rewrite map_lookup_imap. by destruct (t_validators sql !! pk). Qed.

Lemma abs_of_sql_share id sql pk :
  a_shares (abs_of_sql id sql) !! pk =
  _ ← t_validators sql !! pk; i ← id; share_of_row pk i <$> t_shares sql !! (pk, i).
Proof. cbn [abs_of_sql a_shares]. by rewrite map_lookup_imap. Qed.

(** A new fee recipient of an owner. *)
Lemma synced_fee a ss sql o fee :
  Synced a ss sql →
  Synced (abs_apply (UpdateFeeRecipient o fee) a) ss
    (sql <| t_owners := <[o := mkOwnerRow (Some fee) (t_owners sql !! o ≫= ow_nonce)]>
       (t_owners sql) |>).
Proof.
  intros [Hok Ha Hsim Hss]. set (sql' := sql <| t_owners := _ |>).
  assert (Hnonce : ∀ o', t_owners sql' !! o' ≫= ow_nonce = t_owners sql !! o' ≫= ow_nonce).
  { intros o'. subst sql'. cbn. destruct (decide (o' = o)) as [->|Hne].
    - by rewrite lookup_insert_eq.
    - by rewrite lookup_insert_ne. }
  split.
  - destruct Hok. split; try done. intros o' r' n' Ho' Hn'. specialize (Hnonce o').
    rewrite Ho' in Hnonce. cbn in Hnonce. rewrite Hn' in Hnonce.
    destruct (t_owners sql !! o') as [r|] eqn:Hr; [|done]. by eapply so_nonce0.
  - by apply abs_apply_ok.
  - destruct Hsim as [Hv Hc Hs]. split; [done| |done]. intros cid. rewrite abs_of_sql_cluster.
    specialize (Hc cid). rewrite abs_of_sql_cluster in Hc. cbn [abs_apply a_clusters].
    rewrite lookup_fmap. change (t_clusters sql') with (t_clusters sql).
    inversion Hc as [c c' Hcs Hac Hec|Hac Hec].
    + destruct (t_clusters sql !! cid) as [r|] eqn:Hr; [|done]. cbn [fmap option_fmap option_map] in *.
      injection Hec as ->. constructor. unfold cluster_of_row in *. destruct Hcs. cbn in *.
      unfold GET_OWNER_FEE_RECIPIENT in *. subst sql'. cbn.
      case_decide as Hd.
      * split; cbn; try done. by rewrite <- cs_owner0, Hd, lookup_insert_eq.
      * split; cbn; try done. rewrite lookup_insert_ne; [done|congruence].
    + destruct (t_clusters sql !! cid); [done|]. constructor.
  - destruct Hss. split; try done. intros o'. rewrite Hnonce. apply si_nonces0.
Qed.

(** The status of a cluster. *)
Lemma synced_status a ss sql cid b :
  Synced a ss sql →
  Synced (abs_apply (UpdateClusterStatus cid b) a) ss
    (sql <| t_clusters := alter (λ r, mkClusterRow (cr_owner r) b) cid (t_clusters sql) |>).
Proof.
  intros [Hok Ha Hsim Hss]. set (sql' := sql <| t_clusters := _ |>).
  assert (Hcl : ∀ x, t_clusters sql' !! x =
    (λ r, mkClusterRow (cr_owner r) (if decide (x = cid) then b else cr_liquidated r))
      <$> t_clusters sql !! x).
  { intros x. subst sql'. cbn. case_decide; subst.
    - rewrite lookup_alter_eq. by destruct (t_clusters sql !! cid).
    - rewrite lookup_alter_ne by done. by destruct (t_clusters sql !! x) as [[]|]. }
  assert (Hsome : ∀ x, is_Some (t_clusters sql' !! x) ↔ is_Some (t_clusters sql !! x)).
  { intros x. rewrite Hcl. by rewrite fmap_is_Some. }
  split.
  - destruct Hok. split; try done.
    + intros pk r Hr. apply Hsome. by eapply so_validator_cluster0.
    + intros x r' Hr'. rewrite Hcl in Hr'. destruct (t_clusters sql !! x) as [r|] eqn:Hr; [|done].
      by apply (so_cluster_validator0 x r).
    + intros x r' Hr'. rewrite Hcl in Hr'. destruct (t_clusters sql !! x) as [r|] eqn:Hr; [|done].
      injection Hr' as <-. by apply (so_cluster_id0 x r).
    + intros x id Hin. destruct (so_member0 x id Hin). split; [by apply Hsome|done].
  - by apply abs_apply_ok.
  - destruct Hsim as [Hv Hc Hs]. split; [done| |done]. intros x. rewrite abs_of_sql_cluster.
    specialize (Hc x). rewrite abs_of_sql_cluster in Hc. cbn [abs_apply a_clusters]. rewrite Hcl.
    inversion Hc as [c c' Hcs Hac Hec|Hac Hec].
    + destruct (t_clusters sql !! x) as [r|] eqn:Hr; [|done]. injection Hec as ->.
      destruct (decide (x = cid)) as [->|Hne].
      * rewrite lookup_alter_eq, <- Hac. cbn. constructor. destruct Hcs. by split.
      * rewrite lookup_alter_ne, <- Hac by done. cbn. constructor. destruct Hcs. by split.
    + destruct (t_clusters sql !! x); [done|]. cbn. destruct (decide (x = cid)) as [->|Hne].
      * rewrite lookup_alter_eq, <- Hac. constructor.
      * rewrite lookup_alter_ne, <- Hac by done. constructor.
  - by destruct Hss.
Qed.

(** ** Operators *)

(** [own] is the id under which the contract registers our key. *)
Definition key_matches_own (op : Operator) : Prop :=
  match operator with
  | ByPubkey k => encode_key (op_rsa_pubkey op) = encode_key k ↔ op_id op = own
  | ById _ => True
  end.

Definition own_flag (op : Operator) : bool :=
  match operator with
  | ByPubkey k => bool_decide (encode_key (op_rsa_pubkey op) = encode_key k)
  | ById i => (i =? op_id op)%N
  end.

Lemma no_operator_no_share sql id pk :
  sql_ok sql → t_operators sql !! id = None →
  (∀ cid, (cid, id) ∉ t_cluster_members sql) ∧ t_shares sql !! (pk, id) = None.
Proof.
  intros Hok Hid.
  assert (Hm : ∀ cid, (cid, id) ∉ t_cluster_members sql).
  { intros cid Hin. destruct (so_member sql Hok cid id Hin) as [_ [r Hr]]. congruence. }
  split; [done|]. destruct (t_shares sql !! (pk, id)) as [s|] eqn:Hs; [|done].
  destruct (so_share sql Hok pk id s Hs) as (r & _ & _ & Hin). by destruct (Hm (vr_cluster_id r)).
Qed.

Lemma sql_ok_insert_operator sql id key o :
  sql_ok sql → t_operators sql !! id = None →
  (∀ i r, t_operators sql !! i = Some r → or_public_key r ≠ encode_key key) →
  sql_ok (sql <| t_operators := <[id := mkOperatorRow (encode_key key) o false]> (t_operators sql) |>).
Proof.
  intros [] Hnone Hkey. split; try done.
  - intros cid i Hin. destruct (so_member0 cid i Hin) as [Hc Ho]. split; [done|].
    cbn. destruct (decide (i = id)) as [->|Hne]; [rewrite lookup_insert_eq; by eexists|].
    by rewrite lookup_insert_ne.
  - intros i r. cbn. intros [[<- <-]|[Hne Hr]]%lookup_insert_Some; [by eexists|].
    by eapply so_key0.
  - intros i i' r r'. cbn.
    intros [[<- <-]|[Hne Hr]]%lookup_insert_Some [[<- <-]|[Hne' Hr']]%lookup_insert_Some; cbn; try done.
    + intros Heq. by destruct (Hkey _ _ Hr').
    + intros Heq. by destruct (Hkey _ _ Hr).
    + by eapply so_key_unique0.
Qed.

Lemma synced_insert_operator a ss sql op :
  Synced a ss sql → t_operators sql !! op_id op = None →
  (∀ i r, t_operators sql !! i = Some r → or_public_key r ≠ encode_key (op_rsa_pubkey op)) →
  key_matches_own op →
  Synced a (single_apply (InsertOperator op (own_flag op)) a ss)
    (sql <| t_operators := <[op_id op := mkOperatorRow (encode_key (op_rsa_pubkey op))
                               (op_owner op) false]> (t_operators sql) |>).
Proof.
  intros [Hok Ha Hsim Hss] Hnone Hkey Hown.
  destruct (no_operator_no_share sql (op_id op) [] Hok Hnone) as [Hnm _].
  set (id' := ss_id (single_apply (InsertOperator op (own_flag op)) a ss)).
  assert (Hid : id' = ss_id ss ∨ ss_id ss = None ∧ id' = Some (op_id op) ∧ own_flag op = true).
  { subst id'. cbn. destruct (decide (ss_id ss = None)) as [->|Hs].
    - rewrite bool_decide_true by done. destruct (own_flag op); [by right|by left].
    - rewrite bool_decide_false by done. by left. }
  split.
  - by apply sql_ok_insert_operator.
  - done.
  - fold id'. rewrite (abs_of_sql_same _ sql) by done.
    destruct Hid as [->|(Hn & -> & _)]; [done|]. destruct Hsim as [Hv Hc Hs]. rewrite Hn in *.
    split; [done|done|]. rewrite Hs. apply map_eq. intros pk. rewrite !abs_of_sql_share.
    destruct (t_validators sql !! pk); [|done]. cbn.
    by rewrite (proj2 (no_operator_no_share sql (op_id op) pk Hok Hnone)).
  - destruct Hss. split; try done.
    + intros id o. cbn. split.
      * intros [[<- <-]|[Hne Ho]]%lookup_insert_Some.
        -- eexists. rewrite lookup_insert_eq. split; [done|]. split; [done|].
           unfold operator_of_row. cbn. rewrite decode_encode_key. by destruct op.
        -- apply si_operators0 in Ho as (r & Hr & ?). exists r. by rewrite lookup_insert_ne.
      * intros (r & [[<- <-]|[Hne Hr]]%lookup_insert_Some & Hrem & Hop); apply lookup_insert_Some.
        -- left. split; [done|]. unfold operator_of_row in Hop. cbn in Hop.
           rewrite decode_encode_key in Hop. injection Hop as <-. by destruct op.
        -- right. split; [done|]. apply si_operators0. by exists r.
    + intros cid. change (cid ∈ ss_clusters ss ↔ ∃ i, id' = Some i ∧ (cid, i) ∈ t_cluster_members sql).
      rewrite si_clusters0. destruct Hid as [->|(Hn & -> & _)]; [done|].
      rewrite Hn. split; [by intros (i & ? & _)|]. intros (i & [= <-] & Hin). by destruct (Hnm cid).
    + intros i. change (id' = Some i → i = own). destruct Hid as [->|(Hn & -> & Hf)]; [apply si_own0|]. intros [= <-].
      unfold own_flag in Hf. unfold key_matches_own in Hown. destruct operator as [k|j].
      * apply Hown. by apply bool_decide_eq_true in Hf.
      * congruence.
    + fold id'. unfold key_matches_own, own_flag in *. destruct operator as [k|j].
      2: { destruct Hid as [->|(Hn & _ & _)]; [done|congruence]. }
      destruct si_id0 as (Hi1 & Hi2 & Hi3). split_and!.
      * intros i r. cbn. intros [[<- <-]|[Hne Hr]]%lookup_insert_Some; cbn; [apply Hown|by eapply Hi1].
      * intros r. cbn. intros [[Ho <-]|[Hne Hr]]%lookup_insert_Some; cbn.
        -- intros Hk _. subst id'. cbn. rewrite (bool_decide_true _ Hk), andb_true_r.
           destruct (ss_id ss) as [i|]; cbn; [|congruence]. f_equal. by apply si_own0.
        -- intros Hk Hrem. change (id' = Some own).
           destruct Hid as [->|(Hn & _ & _)]; [by eapply Hi2|].
           rewrite (Hi2 r Hr Hk Hrem) in Hn. done.
      * intros r Hs'. change (id' = Some own) in Hs'. cbn.
        intros [[Ho <-]|[Hne Hr]]%lookup_insert_Some; cbn; [by apply Hown|].
        destruct Hid as [Heq|(_ & Heq & Hf)]; rewrite Heq in Hs'; [by eapply Hi3|].
        congruence.
Qed.

(** Removing an operator: its row goes, or is marked while clusters still name it. *)
Lemma synced_remove_operator a ss sql id operators' :
  Synced a ss sql →
  (∀ i, i ≠ id → operators' !! i = t_operators sql !! i) →
  match operators' !! id with
  | None => ∀ cid, (cid, id) ∉ t_cluster_members sql
  | Some r' => or_removed r' = true ∧
      ∃ r, t_operators sql !! id = Some r ∧ or_public_key r' = or_public_key r
  end →
  Synced a (single_apply (DeleteOperator id) a ss) (sql <| t_operators := operators' |>).
Proof.
  intros [Hok Ha Hsim Hss] Hother Hid.
  assert (Hsub : ∀ i r', operators' !! i = Some r' → ∃ r, t_operators sql !! i = Some r ∧
    or_public_key r' = or_public_key r ∧ (i ≠ id → r' = r)).
  { intros i r' Hr'. destruct (decide (i = id)) as [->|Hne].
    - rewrite Hr' in Hid. destruct Hid as (_ & r & Hr & Hk). by exists r.
    - rewrite Hother in Hr' by done. by exists r'. }
  split.
  - destruct Hok. split; try done.
    + intros cid i Hin. destruct (so_member0 cid i Hin) as [Hc Ho]. split; [done|]. cbn.
      destruct (decide (i = id)) as [->|Hne]; [|by rewrite Hother].
      destruct (operators' !! id); [by eexists|]. by destruct (Hid cid).
    + intros i r' Hr'. destruct (Hsub i r' Hr') as (r & Hr & -> & _). by eapply so_key0.
    + intros i i' r r' Hr Hr'. destruct (Hsub i r Hr) as (r0 & Hr0 & -> & _).
      destruct (Hsub i' r' Hr') as (r0' & Hr0' & -> & _). by eapply so_key_unique0.
  - done.
  - exact Hsim.
  - destruct Hss. split; try done.
    + intros i op. cbn. split.
      * intros [Hne Ho]%lookup_delete_Some. apply si_operators0 in Ho as (r & Hr & ?).
        exists r. by rewrite Hother.
      * intros (r & Hr & Hrem & Hop). destruct (decide (i = id)) as [->|Hne].
        -- rewrite Hr in Hid. destruct Hid as [Htrue _]. congruence.
        -- rewrite lookup_delete_ne by done. apply si_operators0. exists r.
           by rewrite <- Hother.
    + destruct operator as [k|j]; [|done]. destruct si_id0 as (Hi1 & Hi2 & Hi3). split_and!.
      * intros i r' Hr' Hk. destruct (Hsub i r' Hr') as (r & Hr & Heq & _).
        eapply Hi1; [exact Hr|congruence].
      * intros r' Hr' Hk Hrem. destruct (decide (own = id)) as [->|Hne].
        -- cbn in Hr'. rewrite Hr' in Hid. destruct Hid as [Htrue _]. congruence.
        -- destruct (Hsub own r' Hr') as (r & Hr & Heq & Hsame).
           rewrite (Hsame Hne) in *. by eapply Hi2.
      * intros r' Hs Hr'. destruct (Hsub own r' Hr') as (r & Hr & -> & _). by eapply Hi3.
Qed.

(** ** Validators *)

Lemma to_be_bytes_inj n v v' :
  (v < 256 ^ N.of_nat n)%N → (v' < 256 ^ N.of_nat n)%N →
  to_be_bytes n v = to_be_bytes n v' → v = v'.
Proof.
  intros Hv Hv' Heq. unfold to_be_bytes in Heq. apply (f_equal (@rev byte)) in Heq.
  rewrite !rev_involutive in Heq. apply (f_equal from_le_bytes) in Heq.
  by rewrite !from_to_le_bytes in Heq.
Qed.

Lemma length_to_be_bytes n v : length (to_be_bytes n v) = n.
Proof. unfold to_be_bytes. by rewrite length_rev, length_to_le_bytes. Qed.

Lemma padded_ids_inj (l k : list N) :
  Forall (λ id, id < 2 ^ 64)%N l → Forall (λ id, id < 2 ^ 64)%N k →
  (l ≫= λ id, replicate 24 x00 ++ to_be_bytes 8 id) =
  (k ≫= λ id, replicate 24 x00 ++ to_be_bytes 8 id) → l = k.
Proof.
  intros Hl. revert k. induction Hl as [|x l Hx Hl IH]; intros [|y k] Hk He; try done.
  apply Forall_cons in Hk as [Hy Hk]. rewrite !bind_cons in He.
  apply app_inj_1 in He as [He1 He2]; [|by rewrite !length_app, !length_to_be_bytes].
  apply app_inv_head in He1. apply to_be_bytes_inj in He1; [|done..].
  f_equal; [done|]. by apply IH.
Qed.

Lemma cluster_id_preimage_inj o o' ids ids' :
  (o < 2 ^ 160)%N → (o' < 2 ^ 160)%N →
  Forall (λ id, id < 2 ^ 64)%N ids → Forall (λ id, id < 2 ^ 64)%N ids' →
  cluster_id_preimage o ids = cluster_id_preimage o' ids' → o = o' ∧ ids ≡ₚ ids'.
Proof.
  intros Ho Ho' Hi Hi' He. unfold cluster_id_preimage in He.
  apply app_inj_1 in He as [He1 He2]; [|by rewrite !length_to_be_bytes].
  split; [exact (to_be_bytes_inj 20 o o' Ho Ho' He1)|]. apply padded_ids_inj in He2.
  - by rewrite <- (merge_sort_Permutation N.le ids), He2, merge_sort_Permutation.
  - by rewrite merge_sort_Permutation.
  - by rewrite merge_sort_Permutation.
Qed.

Lemma nodup_fst_inj {A B} (l : list (A * B)) x y :
  NoDup l.*1 → x ∈ l → y ∈ l → x.1 = y.1 → x = y.
Proof.
  intros Hnd [i Hi]%list_elem_of_lookup [j Hj]%list_elem_of_lookup Heq.
  assert (i = j) as ->; [|congruence].
  eapply (NoDup_lookup l.*1); [done|by rewrite list_lookup_fmap, Hi|].
  by rewrite list_lookup_fmap, Hj, Heq.
Qed.

(** The check on the share keys does not depend on their order. *)
Lemma validate_shares_perm pk l l' :
  l ≡ₚ l' → NoDup l.*1 →
  validate_share_public_keys pk l = Ok tt → validate_share_public_keys pk l' = Ok tt.
Proof.
  intros Hp Hnd. unfold validate_share_public_keys. rewrite <- (Permutation_length Hp).
  destruct (is_valid_committee_size _); [|done]. cbn [negb].
  intros (k & Hk & Hint)%bind_ok.
  assert (Hall : ∀ x, x ∈ l → (x.1 =? 0)%N = false).
  { apply try_map_ok in Hk. intros x Hx. destruct (x.1 =? 0)%N eqn:Hz; [|done].
    apply list_elem_of_lookup in Hx as [i Hi]. eapply Forall2_lookup_l in Hk as (y & _ & Hy); [|done].
    by rewrite Hz in Hy. }
  assert (Hsame : ∀ m, (∀ x, x ∈ m → (x.1 =? 0)%N = false) →
    try_map (λ share : OperatorId * PublicKeyBytes,
      if (share.1 =? 0)%N then Err (InvalidOperatorId share.1) else Ok share) m = Ok m).
  { induction m as [|x m IH]; intros Hm; [done|]. cbn [try_map]. rewrite Hm by left. cbn.
    rewrite IH; [done|]. intros y Hy. apply Hm. by right. }
  rewrite Hsame in Hk by done. injection Hk as <-.
  rewrite Hsame by (intros x Hx; apply Hall; by rewrite Hp). cbn.
  assert (sort_by_key fst l' = sort_by_key fst l) as ->; [|done].
  eapply (StronglySorted_unique_strong (λ x y, x.1 <= y.1)%N); [|apply sort_by_key_sorted..|].
  - intros x y Hx Hy Hxy Hyx. rewrite sort_by_key_perm, <- Hp in Hx. rewrite sort_by_key_perm in Hy.
    assert (x.1 = y.1) as Heq by lia. by eapply (nodup_fst_inj l).
  - by rewrite !sort_by_key_perm.
Qed.

Lemma elem_of_share_pubkeys sql pk x :
  x ∈ share_pubkeys_of sql pk ↔
  ∃ r, t_shares sql !! (pk, x.1) = Some r ∧ sr_share_pubkey r = x.2.
Proof.
  unfold share_pubkeys_of. rewrite list_elem_of_fmap. split.
  - intros ([[p i] r] & -> & [Hp Hin%elem_of_map_to_list]%list_elem_of_filter). simpl in *.
    subst. by exists r.
  - intros (r & Hr & Hx). exists ((pk, x.1), r). split; [by destruct x; simpl in *; subst|].
    apply list_elem_of_filter. split; [done|]. by apply elem_of_map_to_list.
Qed.

Lemma share_pubkeys_nodup sql pk : NoDup (share_pubkeys_of sql pk).*1.
Proof.
  unfold share_pubkeys_of. rewrite <- list_fmap_compose.
  apply NoDup_fmap_2_strong; [|apply NoDup_filter, NoDup_map_to_list].
  intros [[p i] r] [[p' i'] r'] [Hp Hin]%list_elem_of_filter [Hp' Hin']%list_elem_of_filter Heq.
  simpl in *. subst. apply elem_of_map_to_list in Hin, Hin'. congruence.
Qed.

Lemma share_pubkeys_perm sql pk l :
  NoDup l → (∀ x, x ∈ l ↔ x ∈ share_pubkeys_of sql pk) → l ≡ₚ share_pubkeys_of sql pk.
Proof.
  intros Hl Heq. apply NoDup_Permutation; [done| |done].
  eapply NoDup_fmap_1, share_pubkeys_nodup.
Qed.

Definition row_of_share (s : Share) : ShareRow :=
  mkShareRow (sh_cluster_id s) (sh_share_pubkey s) (sh_encrypted_private_key s).

(** The tables after a validator with its cluster and shares has been inserted. *)
Record inserted (pk : PublicKeyBytes) (cid : ClusterId) (owner : Address) (g : Graffiti)
    (shares : list Share) sql sql' : Prop := {
  in_block : t_block_number sql' = t_block_number sql;
  in_max : t_max_operator_id_seen sql' = t_max_operator_id_seen sql;
  in_operators : t_operators sql' = t_operators sql;
  in_nonce : ∀ o, t_owners sql' !! o ≫= ow_nonce = t_owners sql !! o ≫= ow_nonce;
  in_fee : ∀ o, default o (GET_OWNER_FEE_RECIPIENT o sql') = default o (GET_OWNER_FEE_RECIPIENT o sql);
  in_clusters : t_clusters sql' =
    match t_clusters sql !! cid with
    | Some _ => t_clusters sql
    | None => <[cid := mkClusterRow owner false]> (t_clusters sql)
    end;
  in_validators : t_validators sql' = <[pk := mkValidatorRow cid None g]> (t_validators sql);
  in_members : ∀ c i, (c, i) ∈ t_cluster_members sql' ↔
    (c, i) ∈ t_cluster_members sql ∨ c = cid ∧ ∃ s, s ∈ shares ∧ sh_operator_id s = i;
  in_shares : ∀ p i r, t_shares sql' !! (p, i) = Some r ↔
    t_shares sql !! (p, i) = Some r ∨
    p = pk ∧ ∃ s, s ∈ shares ∧ sh_operator_id s = i ∧ r = row_of_share s;
}.

(** What the event handler has checked of a new validator. *)
Record new_validator_ok (pk : PublicKeyBytes) (cid : ClusterId) (owner : Address)
    (ids : list OperatorId) (shares : list Share) sql : Prop := {
  nv_new : t_validators sql !! pk = None;
  nv_owner : (owner < 2 ^ 160)%N;
  nv_bound : Forall (λ id, id < 2 ^ 64)%N ids;
  nv_nonempty : ids ≠ [];
  nv_nodup : NoDup ids;
  nv_known : Known (cluster_id_preimage owner ids);
  nv_cid : cid = compute_cluster_id owner ids;
  nv_operators : ∀ id, id ∈ ids → is_Some (t_operators sql !! id);
  nv_ids : sh_operator_id <$> shares = ids;
  nv_shares : ∀ s, s ∈ shares → sh_cluster_id s = cid ∧ sh_validator_pubkey s = pk;
  nv_valid : validate_share_public_keys pk
    ((λ s, (sh_operator_id s, sh_share_pubkey s)) <$> shares) = Ok tt;
}.

Lemma find_own_share_none shares : find_own_share None shares = None.
Proof.
  unfold find_own_share. assert (∀ o, o = None → foldl (λ our share,
    if decide (None = Some (sh_operator_id share)) then Some share else our) o shares = None) as H;
    [|by apply H].
  induction shares as [|s shares IH]; intros o ->; [done|]. by apply IH.
Qed.

Lemma find_own_share_app own_id shares s :
  find_own_share own_id (shares ++ [s]) =
  if decide (own_id = Some (sh_operator_id s)) then Some s else find_own_share own_id shares.
Proof. unfold find_own_share. by rewrite foldl_app. Qed.

Lemma find_own_share_ext i j shares :
  (∀ s, s ∈ shares → i = Some (sh_operator_id s) ↔ j = Some (sh_operator_id s)) →
  find_own_share i shares = find_own_share j shares.
Proof.
  clear own Exempt. induction shares as [|s shares IH] using rev_ind; intros Hs; [done|].
  rewrite !find_own_share_app, IH by (intros x Hx; apply Hs, elem_of_app; by left).
  assert (Heq := Hs s ltac:(apply elem_of_app; right; by left)).
  do 2 case_decide; tauto.
Qed.

Lemma find_own_share_spec i shares s :
  NoDup (sh_operator_id <$> shares) →
  find_own_share (Some i) shares = Some s ↔ s ∈ shares ∧ sh_operator_id s = i.
Proof.
  clear own Exempt. induction shares as [|x shares IH] using rev_ind; intros Hnd.
  { split; [done|]. by intros [?%elem_of_nil _]. }
  rewrite fmap_app in Hnd. apply NoDup_app in Hnd as (Hnd & Hx & _).
  rewrite find_own_share_app, elem_of_app, list_elem_of_singleton. case_decide as Hi.
  - injection Hi as ->. split; [intros [= <-]; by auto|]. intros [[Hin|Heq] Hs]; [|by subst].
    destruct (Hx (sh_operator_id x)); [|by left]. rewrite <- Hs. by apply list_elem_of_fmap_2.
  - rewrite IH by done. naive_solver.
Qed.

Section inserted.
Context (pk : PublicKeyBytes) (cid : ClusterId) (owner : Address) (g : Graffiti).
Context (ids : list OperatorId) (shares : list Share) (sql sql' : Sql).
Hypothesis Hok : sql_ok sql.
Hypothesis Hnew : new_validator_ok pk cid owner ids shares sql.
Hypothesis Hins : inserted pk cid owner g shares sql sql'.

Lemma elem_of_new_ids i : i ∈ ids ↔ ∃ s, s ∈ shares ∧ sh_operator_id s = i.
Proof.
  clear own Exempt. rewrite <- (nv_ids _ _ _ _ _ _ Hnew), list_elem_of_fmap. naive_solver.
Qed.

(** If the cluster is stored, it has this owner and these members. *)
Lemma stored_cluster_same r :
  t_clusters sql !! cid = Some r → cr_owner r = owner ∧ GET_CLUSTER_MEMBERS cid sql ≡ₚ ids.
Proof.
  intros Hr. destruct (so_cluster_id sql Hok cid r Hr) as (Ho & _ & Hb & Hk & Hc).
  destruct Hnew. rewrite nv_cid0 in Hc at 1. unfold compute_cluster_id in Hc.
  apply keccak_inj in Hc; [|done..].
  apply cluster_id_preimage_inj in Hc as [-> Hp]; [|done..]. split; [done|]. by rewrite Hp.
Qed.

Lemma inserted_members c :
  GET_CLUSTER_MEMBERS c sql' ≡ₚ if decide (c = cid) then ids else GET_CLUSTER_MEMBERS c sql.
Proof.
  apply NoDup_Permutation; [apply cluster_members_NoDup| |].
  { case_decide; [apply (nv_nodup _ _ _ _ _ _ Hnew)|apply cluster_members_NoDup]. }
  intros i. rewrite elem_of_cluster_members, (in_members _ _ _ _ _ _ _ Hins), <- elem_of_new_ids.
  case_decide as Hc.
  - subst c. split; [|by right]. intros [Hin|[_ ?]]; [|done].
    destruct (so_member sql Hok cid i Hin) as [[r Hr] _].
    destruct (stored_cluster_same r Hr) as [_ Hp]. by rewrite <- Hp, elem_of_cluster_members.
  - rewrite elem_of_cluster_members. split; [|by left]. by intros [?|[? _]].
Qed.

Lemma inserted_cluster c r :
  t_clusters sql' !! c = Some r ↔
  t_clusters sql !! c = Some r ∨ c = cid ∧ t_clusters sql !! cid = None ∧ r = mkClusterRow owner false.
Proof.
  clear own Exempt. rewrite (in_clusters _ _ _ _ _ _ _ Hins). destruct (t_clusters sql !! cid) as [r0|] eqn:Hr0.
  - split; [by left|]. by intros [?|(_ & ? & _)].
  - rewrite lookup_insert_Some. naive_solver.
Qed.

Lemma new_share_none i : t_shares sql !! (pk, i) = None.
Proof.
  destruct (t_shares sql !! (pk, i)) as [s|] eqn:Hs; [|done].
  destruct (so_share sql Hok pk i s Hs) as (r & Hr & _).
  by rewrite (nv_new _ _ _ _ _ _ Hnew) in Hr.
Qed.

Lemma inserted_share_pubkeys p :
  share_pubkeys_of sql' p ≡ₚ
  if decide (p = pk) then (λ s, (sh_operator_id s, sh_share_pubkey s)) <$> shares
  else share_pubkeys_of sql p.
Proof.
  symmetry. apply share_pubkeys_perm.
  - case_decide; [|eapply NoDup_fmap_1, share_pubkeys_nodup].
    eapply (NoDup_fmap_1 fst). rewrite <- list_fmap_compose.
    change (NoDup (sh_operator_id <$> shares)).
    rewrite (nv_ids _ _ _ _ _ _ Hnew). apply (nv_nodup _ _ _ _ _ _ Hnew).
  - intros [i k]. rewrite elem_of_share_pubkeys. simpl.
    setoid_rewrite (in_shares _ _ _ _ _ _ _ Hins). case_decide as Hp.
    + subst p. rewrite list_elem_of_fmap. split.
      * intros (s & [= -> ->] & Hs). exists (row_of_share s). split; [|done]. right.
        split; [done|]. by exists s.
      * intros (r & [Hr|(_ & s & Hs & Hi & ->)] & Hk); [by rewrite new_share_none in Hr|].
        exists s. by subst.
    + rewrite elem_of_share_pubkeys. simpl. split.
      * intros (r & Hr & Hk). exists r. split; [by left|done].
      * intros (r & [Hr|(? & _)] & Hk); [|done]. by exists r.
Qed.

Lemma inserted_member c i :
  (c, i) ∈ t_cluster_members sql' ↔
  if decide (c = cid) then i ∈ ids else (c, i) ∈ t_cluster_members sql.
Proof.
  rewrite <- elem_of_cluster_members, inserted_members.
  case_decide; [done|apply elem_of_cluster_members].
Qed.

Lemma inserted_cluster_some : is_Some (t_clusters sql' !! cid).
Proof.
  destruct (t_clusters sql !! cid) as [r|] eqn:Hr.
  - exists r. apply inserted_cluster. by left.
  - eexists. apply inserted_cluster. by right.
Qed.

Lemma inserted_cluster_id c r :
  t_clusters sql' !! c = Some r →
  let l := GET_CLUSTER_MEMBERS c sql' in
  (cr_owner r < 2 ^ 160)%N ∧ l ≠ [] ∧ Forall (λ id, id < 2 ^ 64)%N l ∧
  Known (cluster_id_preimage (cr_owner r) l) ∧ c = compute_cluster_id (cr_owner r) l.
Proof.
  intros Hr l. subst l. pose proof (inserted_members c) as Hp. set (l := GET_CLUSTER_MEMBERS c sql') in *.
  assert (∃ k, l ≡ₚ k ∧ (cr_owner r < 2 ^ 160)%N ∧ k ≠ [] ∧ Forall (λ id, id < 2 ^ 64)%N k ∧
    Known (cluster_id_preimage (cr_owner r) k) ∧ c = compute_cluster_id (cr_owner r) k)
    as (k & Hk & ? & Hne & ? & ? & ?).
  { exists (if decide (c = cid) then ids else GET_CLUSTER_MEMBERS c sql). split; [done|].
    case_decide as Hc.
    - subst c. assert (cr_owner r = owner) as ->; [|by destruct Hnew].
      apply inserted_cluster in Hr as [Hr|(_ & _ & ->)]; [|done]. by apply stored_cluster_same.
    - apply inserted_cluster in Hr as [Hr|(? & _)]; [|done]. by apply (so_cluster_id sql Hok). }
  rewrite (preimage_perm _ l k), (compute_cluster_id_perm _ l k) by done. split_and!; try done.
  - intros Hl. rewrite Hl in Hk. apply Hne. by apply Permutation_nil_l in Hk.
  - by rewrite Hk.
Qed.

Lemma inserted_share_all p r i :
  t_validators sql' !! p = Some r → (vr_cluster_id r, i) ∈ t_cluster_members sql' →
  is_Some (t_shares sql' !! (p, i)).
Proof.
  rewrite (in_validators _ _ _ _ _ _ _ Hins), inserted_member.
  intros [[<- <-]|[Hne Hr]]%lookup_insert_Some; cbn [vr_cluster_id].
  - rewrite decide_True by done. intros (s & Hs & Hi)%elem_of_new_ids.
    exists (row_of_share s). apply (in_shares _ _ _ _ _ _ _ Hins). right. split; [done|]. by exists s.
  - intros Hi. assert ((vr_cluster_id r, i) ∈ t_cluster_members sql) as Hin.
    { case_decide as Hc; [|done].
      destruct (so_validator_cluster sql Hok p r Hr) as [rc Hrc].
      rewrite Hc in Hrc |- *. apply stored_cluster_same in Hrc as [_ Hp].
      by rewrite <- elem_of_cluster_members, Hp. }
    destruct (so_share_all sql Hok p r i Hr Hin) as [s Hs].
    exists s. apply (in_shares _ _ _ _ _ _ _ Hins). by left.
Qed.

Lemma inserted_share_ok p i s :
  t_shares sql' !! (p, i) = Some s →
  ∃ r, t_validators sql' !! p = Some r ∧ sr_cluster_id s = vr_cluster_id r ∧
    (vr_cluster_id r, i) ∈ t_cluster_members sql'.
Proof.
  rewrite (in_shares _ _ _ _ _ _ _ Hins), (in_validators _ _ _ _ _ _ _ Hins).
  intros [Hs|(-> & sh & Hsh & <- & ->)].
  - destruct (so_share sql Hok p i s Hs) as (r & Hr & Hc & Hin). exists r.
    split; [|split; [done|apply (in_members _ _ _ _ _ _ _ Hins); by left]].
    apply lookup_insert_Some. right. split; [|done]. intros <-.
    by rewrite (nv_new _ _ _ _ _ _ Hnew) in Hr.
  - eexists. rewrite lookup_insert_eq. split; [done|]. cbn.
    destruct (nv_shares _ _ _ _ _ _ Hnew sh Hsh) as [Hc _]. split; [done|].
    apply (in_members _ _ _ _ _ _ _ Hins). right. split; [done|]. by exists sh.
Qed.

Lemma sql_ok_inserted : sql_ok sql'.
Proof.
  split.
  - intros p r. rewrite (in_validators _ _ _ _ _ _ _ Hins).
    intros [[<- <-]|[Hne Hr]]%lookup_insert_Some; [apply inserted_cluster_some|].
    destruct (so_validator_cluster sql Hok p r Hr) as [rc Hrc]. exists rc.
    apply inserted_cluster. by left.
  - intros c r. rewrite inserted_cluster, (in_validators _ _ _ _ _ _ _ Hins).
    intros [Hr|(-> & _ & _)].
    + destruct (so_cluster_validator sql Hok c r Hr) as (p & v & Hv & Hc). exists p, v.
      split; [|done]. rewrite lookup_insert_ne; [done|]. intros <-.
      by rewrite (nv_new _ _ _ _ _ _ Hnew) in Hv.
    + eexists pk, _. by rewrite lookup_insert_eq.
  - apply inserted_cluster_id.
  - intros c i. rewrite (in_operators _ _ _ _ _ _ _ Hins), inserted_member.
    case_decide as Hc; intros Hi.
    + subst. split; [apply inserted_cluster_some|by apply (nv_operators _ _ _ _ _ _ Hnew)].
    + destruct (so_member sql Hok c i Hi) as [[rc Hrc] Hop]. split; [|done].
      exists rc. apply inserted_cluster. by left.
  - apply inserted_share_ok.
  - apply inserted_share_all.
  - intros p [r Hr]. eapply validate_shares_perm.
    { symmetry. apply inserted_share_pubkeys. }
    { rewrite <- (inserted_share_pubkeys p). apply share_pubkeys_nodup. }
    case_decide as Hp; [subst; apply (nv_valid _ _ _ _ _ _ Hnew)|].
    apply (so_share_valid sql Hok). rewrite (in_validators _ _ _ _ _ _ _ Hins), lookup_insert_ne in Hr by done.
    by exists r.
  - intros o r n Hr Hn. pose proof (in_nonce _ _ _ _ _ _ _ Hins o) as Heq. rewrite Hr in Heq.
    cbn in Heq. rewrite Hn in Heq. destruct (t_owners sql !! o) as [r0|] eqn:Hr0; [|done].
    by eapply (so_nonce sql Hok).
  - rewrite (in_operators _ _ _ _ _ _ _ Hins). apply (so_key sql Hok).
  - rewrite (in_operators _ _ _ _ _ _ _ Hins). apply (so_key_unique sql Hok).
Qed.

Lemma own_share_spec i s :
  find_own_share (Some i) shares = Some s ↔ s ∈ shares ∧ sh_operator_id s = i.
Proof.
  apply find_own_share_spec. rewrite (nv_ids _ _ _ _ _ _ Hnew). apply (nv_nodup _ _ _ _ _ _ Hnew).
Qed.

Lemma inserted_share i :
  t_shares sql' !! (pk, i) = row_of_share <$> find_own_share (Some i) shares.
Proof.
  clear own Exempt. apply option_eq. intros r. rewrite (in_shares _ _ _ _ _ _ _ Hins), new_share_none, fmap_Some.
  setoid_rewrite own_share_spec. naive_solver.
Qed.

Lemma inserted_share_other p i : p ≠ pk → t_shares sql' !! (p, i) = t_shares sql !! (p, i).
Proof.
  clear own Exempt. intros Hne. apply option_eq. intros r. rewrite (in_shares _ _ _ _ _ _ _ Hins). naive_solver.
Qed.

Lemma own_share_row i s : find_own_share (Some i) shares = Some s → share_of_row pk i (row_of_share s) = s.
Proof.
  intros [Hin <-]%own_share_spec. destruct (nv_shares _ _ _ _ _ _ Hnew s Hin) as [_ <-]. by destruct s.
Qed.

(** The queued update. *)
Let fee : Address := default owner (GET_OWNER_FEE_RECIPIENT owner sql).
Let cluster : Cluster := mkCluster cid owner fee false ids.
Let validator : ValidatorMetadata := mkValidatorMetadata pk cid None g.

Context (a : Abs) (ss : SingleState) (own_id : option OperatorId).
Hypothesis Hsync : Synced a ss sql.
Hypothesis Hown : ∀ i, i ∈ ids → own_id = Some i ↔ ss_id ss = Some i.

Lemma own_share_same : find_own_share own_id shares = find_own_share (ss_id ss) shares.
Proof.
  apply find_own_share_ext. intros s Hs. apply Hown, elem_of_new_ids. by exists s.
Qed.

Lemma insert_validator_update_ok share : update_ok (InsertValidator cluster validator share) a.
Proof.
  destruct Hsync as [_ _ [Hv Hc _] _]. cbn. split_and!; [|done|].
  - by rewrite Hv, abs_of_sql_validator, (nv_new _ _ _ _ _ _ Hnew).
  - intros c Hac. specialize (Hc cid). rewrite Hac, abs_of_sql_cluster in Hc.
    destruct (t_clusters sql !! cid) as [r|] eqn:Hr; inversion Hc as [? ? Hsim|]; subst.
    destruct (stored_cluster_same r Hr) as [Ho Hp]. destruct Hsim as [_ Hso _ _ _ Hsm].
    cbn in Hso, Hsm. split; [by rewrite Hso|]. apply cluster_committee_id_perm.
    by rewrite Hsm.
Qed.

(** The registration does not go to a cluster that is liquidated in the tables. *)
Hypothesis Hstatus : ∀ r, t_clusters sql !! cid = Some r → cr_liquidated r = true → Exempt cid = true.

Lemma inserted_status r : t_clusters sql' !! cid = Some r → Exempt cid = false → cr_liquidated r = false.
Proof.
  intros [Hr|(_ & _ & ->)]%inserted_cluster He; [|done].
  destruct (cr_liquidated r) eqn:Hl; [|done]. by rewrite (Hstatus r Hr Hl) in He.
Qed.

Lemma inserted_abs_sim :
  abs_sim (abs_apply (InsertValidator cluster validator (find_own_share own_id shares)) a)
    (abs_of_sql (ss_id ss) sql').
Proof.
  destruct Hsync as [_ _ [Hv Hc Hs] _]. rewrite own_share_same. split.
  - apply map_eq. intros p. rewrite abs_of_sql_validator, (in_validators _ _ _ _ _ _ _ Hins).
    cbn [abs_apply a_validators md_public_key validator]. rewrite Hv.
    destruct (decide (p = pk)) as [->|Hne]; [by rewrite !lookup_insert_eq|].
    by rewrite !lookup_insert_ne, abs_of_sql_validator.
  - intros c. rewrite abs_of_sql_cluster. cbn [abs_apply a_clusters].
    change (cl_cluster_id cluster) with cid. pose proof (inserted_members c) as Hm.
    destruct (decide (c = cid)) as [->|Hne].
    + rewrite lookup_insert_eq. destruct inserted_cluster_some as [r Hr]. rewrite Hr. constructor.
      assert (cr_owner r = owner) as Ho.
      { apply inserted_cluster in Hr as [Hr|(_ & _ & ->)]; [by apply stored_cluster_same|done]. }
      split; cbn; try done; [|by symmetry; apply inserted_status]. rewrite Ho. symmetry. apply (in_fee _ _ _ _ _ _ _ Hins).
    + rewrite lookup_insert_ne by done. specialize (Hc c). rewrite abs_of_sql_cluster in Hc.
      assert (t_clusters sql' !! c = t_clusters sql !! c) as ->.
      { apply option_eq. intros r. rewrite inserted_cluster. naive_solver. }
      inversion Hc as [c1 c2 Hsim Hac Hec|Hac Hec].
      * destruct (t_clusters sql !! c) as [r|]; [|done]. injection Hec as ->. constructor.
        destruct Hsim as [? ? Hfee ? ? Hmem]. split; cbn in *; try done.
        -- by rewrite (in_fee _ _ _ _ _ _ _ Hins).
        -- by rewrite Hm.
      * destruct (t_clusters sql !! c); [done|]. constructor.
  - apply map_eq. intros p. rewrite abs_of_sql_share, (in_validators _ _ _ _ _ _ _ Hins).
    assert (Hap : a_shares (abs_apply (InsertValidator cluster validator (find_own_share (ss_id ss) shares)) a) !! p
      = if decide (p = pk) then find_own_share (ss_id ss) shares else a_shares a !! p).
    { cbn [abs_apply a_shares md_public_key validator]. case_decide as Hp.
      - subst p. destruct (find_own_share (ss_id ss) shares); [by rewrite lookup_insert_eq|].
        by rewrite Hs, abs_of_sql_share, (nv_new _ _ _ _ _ _ Hnew).
      - destruct (find_own_share (ss_id ss) shares); [by rewrite lookup_insert_ne|done]. }
    rewrite Hap. case_decide as Hp.
    + subst p. rewrite lookup_insert_eq. cbn. destruct (ss_id ss) as [i|]; [|apply find_own_share_none].
      cbn. rewrite inserted_share. destruct (find_own_share (Some i) shares) as [s|] eqn:Hf; [|done].
      cbn. by rewrite (own_share_row i s).
    + rewrite lookup_insert_ne by done. rewrite Hs, abs_of_sql_share.
      destruct (t_validators sql !! p); [|done]. cbn. destruct (ss_id ss); [|done]. cbn.
      by rewrite inserted_share_other.
Qed.

Lemma synced_insert_validator :
  let u := InsertValidator cluster validator (find_own_share own_id shares) in
  Synced (abs_apply u a) (single_apply u a ss) sql'.
Proof.
  cbn zeta. pose proof Hsync as [_ Ha _ Hss]. split.
  - apply sql_ok_inserted.
  - apply abs_apply_ok; [done|apply insert_validator_update_ok].
  - exact inserted_abs_sim.
  - destruct Hss. split.
    + rewrite (in_block _ _ _ _ _ _ _ Hins). exact si_block0.
    + rewrite (in_max _ _ _ _ _ _ _ Hins). exact si_max0.
    + rewrite (in_operators _ _ _ _ _ _ _ Hins). exact si_operators0.
    + intros o. rewrite (in_nonce _ _ _ _ _ _ _ Hins). apply si_nonces0.
    + intros c. rewrite own_share_same. cbn. setoid_rewrite inserted_member.
      destruct (decide (c = cid)) as [->|Hne].
      * split.
        -- intros Hin. destruct (ss_id ss) as [i|] eqn:Hi.
           ++ exists i. split; [done|]. destruct (find_own_share (Some i) shares) as [s|] eqn:Hf.
              ** apply elem_of_new_ids. exists s. by apply own_share_spec.
              ** apply si_clusters0 in Hin as (j & [= <-] & Hin).
                 pose proof (inserted_member cid i) as Him. rewrite decide_True in Him by done. apply Him.
                 apply (in_members _ _ _ _ _ _ _ Hins). by left.
           ++ rewrite find_own_share_none in Hin. by apply si_clusters0 in Hin as (j & ? & _).
        -- intros (i & -> & (s & Hs & Hi)%elem_of_new_ids).
           assert (find_own_share (Some i) shares = Some s) as -> by by apply own_share_spec.
           apply elem_of_union_l, elem_of_singleton_2. done.
      * rewrite <- si_clusters0. destruct (find_own_share (ss_id ss) shares); [|done].
        rewrite elem_of_union, elem_of_singleton. naive_solver.
    + exact si_own0.
    + rewrite (in_operators _ _ _ _ _ _ _ Hins). exact si_id0.
Qed.
End inserted.

(** The tables after a validator has been deleted; [gone] tells whether its cluster went too. *)
Record deleted (pk : PublicKeyBytes) (cid : ClusterId) (gone : bool) sql sql' : Prop := {
  de_block : t_block_number sql' = t_block_number sql;
  de_max : t_max_operator_id_seen sql' = t_max_operator_id_seen sql;
  de_owners : t_owners sql' = t_owners sql;
  de_validators : t_validators sql' = delete pk (t_validators sql);
  de_clusters : t_clusters sql' = if gone then delete cid (t_clusters sql) else t_clusters sql;
  de_members : ∀ c i, (c, i) ∈ t_cluster_members sql' ↔
    (c, i) ∈ t_cluster_members sql ∧ (gone = true → c ≠ cid);
  de_shares : ∀ p i, t_shares sql' !! (p, i) = if decide (p = pk) then None else t_shares sql !! (p, i);
  de_operators : ∀ i r, t_operators sql' !! i = Some r → t_operators sql !! i = Some r;
  de_operators_kept : ∀ i r, t_operators sql !! i = Some r →
    or_removed r = false ∨ (∃ c, (c, i) ∈ t_cluster_members sql') → t_operators sql' !! i = Some r;
}.

Lemma row_cluster_used_spec cid validators :
  row_cluster_used cid validators = true ↔
  ∃ pk r, validators !! pk = Some r ∧ vr_cluster_id r = cid.
Proof.
  unfold row_cluster_used. rewrite existsb_exists. split.
  - intros ([pk v] & Hin & Hv%bool_decide_eq_true). exists pk, v. split; [|done].
    by apply elem_of_map_to_list, list_elem_of_In.
  - intros (pk & v & Hpk & Hv). exists (pk, v). split; [|by apply bool_decide_eq_true].
    by apply list_elem_of_In, elem_of_map_to_list.
Qed.

Lemma delete_validator_deleted sql pk row :
  sql_ok sql → t_validators sql !! pk = Some row →
  ∃ sql', DELETE_VALIDATOR pk sql = Ok sql' ∧
    deleted pk (vr_cluster_id row)
      (negb (row_cluster_used (vr_cluster_id row) (delete pk (t_validators sql)))) sql sql'.
Proof.
  clear own Exempt. intros Hok Hrow. unfold DELETE_VALIDATOR. rewrite Hrow. eexists. split; [done|].
  set (cid := vr_cluster_id row).
  assert (Hsh : ∀ p i, filter (λ kv, kv.1.1 ≠ pk) (t_shares sql) !! (p, i) =
    if decide (p = pk) then None else t_shares sql !! (p, i)).
  { intros p i. apply option_eq. intros s. rewrite map_lookup_filter_Some. cbn.
    case_decide; naive_solver. }
  destruct (row_cluster_used cid _) eqn:Hused; cbn [negb].
  - split; cbn; try done. naive_solver.
  - split; cbn; try done.
    + intros c i. rewrite elem_of_filter. cbn. naive_solver.
    + intros p i. apply option_eq. intros s. rewrite map_lookup_filter_Some, Hsh. cbn.
      split; [tauto|]. intros Hs. split; [done|]. case_decide as Hp; [done|].
      intros Hc. destruct (so_share sql Hok p i s Hs) as (r & Hr & Hsc & _).
      apply not_true_iff_false in Hused. apply Hused, row_cluster_used_spec.
      exists p, r. rewrite lookup_delete_ne by done. split; [done|congruence].
    + intros i r. rewrite map_lookup_filter_Some. tauto.
    + intros i r Hr Hkeep. rewrite map_lookup_filter_Some. split; [done|]. cbn.
      intros (Hrem & _ & Hni). destruct Hkeep as [?|[c Hc]]; [congruence|]. apply Hni.
      apply elem_of_map. by exists (c, i).
Qed.

Section deleted.
Context (pk : PublicKeyBytes) (row : ValidatorRow) (gone : bool) (sql sql' : Sql).
Context (a : Abs) (ss : SingleState).
Let cid := vr_cluster_id row.
Hypothesis Hsync : Synced a ss sql.
Hypothesis Hrow : t_validators sql !! pk = Some row.
Hypothesis Hgone : gone = negb (row_cluster_used cid (delete pk (t_validators sql))).
Hypothesis Hdel : deleted pk cid gone sql sql'.

(** A validator that remains keeps its cluster. *)
Lemma deleted_other_cluster p r :
  t_validators sql' !! p = Some r →
  p ≠ pk ∧ t_validators sql !! p = Some r ∧ (gone = true → vr_cluster_id r ≠ cid).
Proof.
  rewrite (de_validators _ _ _ _ _ Hdel). intros Hr. pose proof Hr as [Hne Hr']%lookup_delete_Some.
  split_and!; [done..|]. rewrite Hgone. intros Hu Hc. apply negb_true_iff, not_true_iff_false in Hu.
  apply Hu, row_cluster_used_spec. by exists p, r.
Qed.

Lemma deleted_cluster c r :
  t_clusters sql' !! c = Some r ↔ t_clusters sql !! c = Some r ∧ (gone = true → c ≠ cid).
Proof.
  rewrite (de_clusters _ _ _ _ _ Hdel). destruct gone; [|naive_solver].
  rewrite lookup_delete_Some. naive_solver.
Qed.

Lemma deleted_members c :
  (gone = true → c ≠ cid) → GET_CLUSTER_MEMBERS c sql' ≡ₚ GET_CLUSTER_MEMBERS c sql.
Proof.
  intros Hc. apply cluster_members_ext. intros i. rewrite (de_members _ _ _ _ _ Hdel). tauto.
Qed.

Lemma sql_ok_deleted : sql_ok sql'.
Proof.
  pose proof (sy_sql _ _ _ Hsync) as Hok. split.
  - intros p r (Hne & Hr & Hc)%deleted_other_cluster.
    destruct (so_validator_cluster sql Hok p r Hr) as [rc Hrc]. exists rc. by apply deleted_cluster.
  - intros c r [Hr Hc]%deleted_cluster. rewrite (de_validators _ _ _ _ _ Hdel).
    destruct (decide (c = cid)) as [->|Hne].
    + destruct gone; [by destruct Hc|]. symmetry in Hgone. apply negb_false_iff in Hgone.
      by apply row_cluster_used_spec in Hgone.
    + destruct (so_cluster_validator sql Hok c r Hr) as (p & v & Hv & Hvc). exists p, v.
      split; [|done]. rewrite lookup_delete_ne; [done|]. intros <-.
      rewrite Hrow in Hv. injection Hv as <-. by apply Hne.
  - intros c r [Hr Hc]%deleted_cluster. pose proof (deleted_members c Hc) as Hp.
    destruct (so_cluster_id sql Hok c r Hr) as (? & Hne & ? & ? & ?).
    rewrite (preimage_perm _ _ _ Hp), (compute_cluster_id_perm _ _ _ Hp). split_and!; try done.
    + intros Hl. rewrite Hl in Hp. by apply Permutation_nil_l in Hp.
    + by rewrite Hp.
  - intros c i Hin. pose proof Hin as [Hci Hc]%(de_members _ _ _ _ _ Hdel).
    destruct (so_member sql Hok c i Hci) as [[rc Hrc] [ro Hro]]. split.
    + exists rc. by apply deleted_cluster.
    + exists ro. apply (de_operators_kept _ _ _ _ _ Hdel); [done|]. right. by exists c.
  - intros p i s. rewrite (de_shares _ _ _ _ _ Hdel). case_decide as Hp; [done|]. intros Hs.
    destruct (so_share sql Hok p i s Hs) as (r & Hr & Hsc & Hin).
    assert (Hr' : t_validators sql' !! p = Some r).
    { rewrite (de_validators _ _ _ _ _ Hdel). by rewrite lookup_delete_ne. }
    exists r. split; [done|]. split; [done|]. apply (de_members _ _ _ _ _ Hdel).
    split; [done|]. by apply deleted_other_cluster in Hr' as (_ & _ & ?).
  - intros p r i (Hne & Hr & Hc)%deleted_other_cluster [Hin _]%(de_members _ _ _ _ _ Hdel).
    rewrite (de_shares _ _ _ _ _ Hdel), decide_False by done. by eapply so_share_all.
  - intros p [r (Hne & Hr & Hc)%deleted_other_cluster].
    assert (share_pubkeys_of sql p ≡ₚ share_pubkeys_of sql' p) as Hp.
    { apply share_pubkeys_perm; [eapply NoDup_fmap_1, share_pubkeys_nodup|].
      intros x. rewrite !elem_of_share_pubkeys. by rewrite (de_shares _ _ _ _ _ Hdel), decide_False. }
    eapply validate_shares_perm; [exact Hp|apply share_pubkeys_nodup|].
    apply (so_share_valid sql Hok). by exists r.
  - rewrite (de_owners _ _ _ _ _ Hdel). apply (so_nonce sql Hok).
  - intros i r Hr%(de_operators _ _ _ _ _ Hdel). by apply (so_key sql Hok i).
  - intros i i' r r' Hr%(de_operators _ _ _ _ _ Hdel) Hr'%(de_operators _ _ _ _ _ Hdel).
    by apply (so_key_unique sql Hok).
Qed.

Lemma abs_validator_row : a_validators a !! pk = Some (metadata_of_row pk row).
Proof.
  destruct Hsync as [_ _ [Hv _ _] _]. by rewrite Hv, abs_of_sql_validator, Hrow.
Qed.

Lemma abs_cluster_used : cluster_used cid (delete pk (a_validators a)) = negb gone.
Proof.
  rewrite Hgone, negb_involutive. apply eq_bool_prop_intro.
  rewrite !Is_true_true, cluster_used_spec, row_cluster_used_spec.
  destruct Hsync as [_ _ [Hv _ _] _]. rewrite Hv. split.
  - intros (p & v & [Hne Hp]%lookup_delete_Some & Hc). rewrite abs_of_sql_validator in Hp.
    destruct (t_validators sql !! p) as [r|] eqn:Hr; [|done]. injection Hp as <-.
    exists p, r. by rewrite lookup_delete_ne.
  - intros (p & r & [Hne Hp]%lookup_delete_Some & Hc). exists p, (metadata_of_row p r).
    rewrite lookup_delete_ne, abs_of_sql_validator, Hp by done. done.
Qed.

Lemma delete_validator_update_ok : update_ok (DeleteValidator pk) a.
Proof. cbn. rewrite abs_validator_row. by eexists. Qed.

Lemma deleted_single : single_sim (single_apply (DeleteValidator pk) a ss) sql'.
Proof.
  pose proof Hsync as [_ _ _ Hss].
  assert (single_apply (DeleteValidator pk) a ss =
    ss <| ss_clusters := (if gone then ss_clusters ss ∖ {[cid]} else ss_clusters ss) |>) as ->.
  { cbn [single_apply]. rewrite abs_validator_row. cbn [metadata_of_row md_cluster_id].
    fold cid. rewrite abs_cluster_used. destruct gone; [done|]. by destruct ss. }
  destruct Hss. split; cbn; try done.
  - by rewrite (de_block _ _ _ _ _ Hdel).
  - by rewrite (de_max _ _ _ _ _ Hdel).
  - intros i op. rewrite si_operators0. split; intros (r & Hr & Hrem & Hop); exists r.
    + split; [|done]. apply (de_operators_kept _ _ _ _ _ Hdel); [done|by left].
    + split; [|done]. by apply (de_operators _ _ _ _ _ Hdel).
  - intros o. by rewrite (de_owners _ _ _ _ _ Hdel).
  - intros c. setoid_rewrite (de_members _ _ _ _ _ Hdel). destruct gone.
    + rewrite elem_of_difference, elem_of_singleton, si_clusters0. naive_solver.
    + rewrite si_clusters0. naive_solver.
  - destruct operator as [k|j]; [|done]. destruct si_id0 as (Hi1 & Hi2 & Hi3). split_and!.
    + intros i r Hr%(de_operators _ _ _ _ _ Hdel). by apply Hi1.
    + intros r Hr%(de_operators _ _ _ _ _ Hdel). by apply Hi2.
    + intros r Hs Hr%(de_operators _ _ _ _ _ Hdel). by apply Hi3.
Qed.

Lemma synced_delete_validator :
  Synced (abs_apply (DeleteValidator pk) a) (single_apply (DeleteValidator pk) a ss) sql'.
Proof.
  pose proof Hsync as [Hok Ha [Hv Hc Hs] Hss].
  assert (Hss' : single_apply (DeleteValidator pk) a ss =
    if gone then ss <| ss_clusters := ss_clusters ss ∖ {[cid]} |> else ss).
  { cbn [single_apply]. rewrite abs_validator_row. cbn [metadata_of_row md_cluster_id].
    fold cid. rewrite abs_cluster_used. by destruct gone. }
  assert (Hid : ss_id (single_apply (DeleteValidator pk) a ss) = ss_id ss)
    by (rewrite Hss'; by destruct gone).
  split.
  - apply sql_ok_deleted.
  - apply abs_apply_ok; [done|apply delete_validator_update_ok].
  - rewrite Hid. cbn [abs_apply]. unfold abs_delete_validator. rewrite abs_validator_row.
    cbn [metadata_of_row md_cluster_id]. fold cid. rewrite abs_cluster_used. split; cbn [a_validators a_clusters a_shares].
    + apply map_eq. intros p. rewrite abs_of_sql_validator, (de_validators _ _ _ _ _ Hdel), Hv.
      destruct (decide (p = pk)) as [->|Hne]; [by rewrite !lookup_delete_eq|].
      by rewrite !lookup_delete_ne, abs_of_sql_validator.
    + intros c. rewrite abs_of_sql_cluster.
      destruct (decide (gone = true ∧ c = cid)) as [[Hg ->]|Hn].
      { rewrite (de_clusters _ _ _ _ _ Hdel), Hg. cbn [negb]. rewrite !lookup_delete_eq. constructor. }
      assert (Hgc : gone = true → c ≠ cid) by tauto.
      replace ((if negb gone then a_clusters a else delete cid (a_clusters a)) !! c)
        with (a_clusters a !! c)
        by (destruct gone; cbn [negb]; [rewrite lookup_delete_ne by (symmetry; auto)|]; done).
      assert (t_clusters sql' !! c = t_clusters sql !! c) as ->.
      { apply option_eq. intros r. rewrite deleted_cluster. tauto. }
      specialize (Hc c). rewrite abs_of_sql_cluster in Hc.
      inversion Hc as [c1 c2 Hsim Hac Hec|Hac Hec].
      * destruct (t_clusters sql !! c) as [r|]; [|done]. injection Hec as ->. constructor.
        destruct Hsim as [? ? Hfee ? ? Hmem]. split; cbn in *; try done.
        -- unfold GET_OWNER_FEE_RECIPIENT in *. by rewrite (de_owners _ _ _ _ _ Hdel).
        -- by rewrite deleted_members.
      * destruct (t_clusters sql !! c); [done|]. constructor.
    + apply map_eq. intros p. rewrite abs_of_sql_share, (de_validators _ _ _ _ _ Hdel), Hs.
      destruct (decide (p = pk)) as [->|Hne]; [by rewrite !lookup_delete_eq|].
      rewrite !lookup_delete_ne, abs_of_sql_share by done.
      destruct (t_validators sql !! p); [|done]. cbn. destruct (ss_id ss); [|done]. cbn.
      by rewrite (de_shares _ _ _ _ _ Hdel), decide_False.
  - apply deleted_single.
Qed.
End deleted.

(** ** Graffiti and indices *)

Lemma sql_ok_alter_validator sql pk f :
  (∀ r, vr_cluster_id (f r) = vr_cluster_id r) → sql_ok sql →
  sql_ok (sql <| t_validators := alter f pk (t_validators sql) |>).
Proof.
  intros Hf Hok.
  assert (Hb : ∀ p r', alter f pk (t_validators sql) !! p = Some r' → ∃ r,
    t_validators sql !! p = Some r ∧ vr_cluster_id r' = vr_cluster_id r).
  { intros p r' [(-> & r & Hr & ->)|[Hne Hr]]%lookup_alter_Some; [by exists r|by exists r']. }
  assert (Hfw : ∀ p r, t_validators sql !! p = Some r → ∃ r',
    alter f pk (t_validators sql) !! p = Some r' ∧ vr_cluster_id r' = vr_cluster_id r).
  { intros p r Hr. destruct (decide (pk = p)) as [->|Hne].
    - exists (f r). by rewrite lookup_alter_eq, Hr.
    - exists r. by rewrite lookup_alter_ne. }
  destruct Hok. split; try done.
  - intros p r' (r & Hr & ->)%Hb. by eapply so_validator_cluster0.
  - intros c rc Hrc. destruct (so_cluster_validator0 c rc Hrc) as (p & v & Hv & Hc).
    destruct (Hfw p v Hv) as (v' & Hv' & Heq). exists p, v'. split; [done|congruence].
  - intros p i s Hs. destruct (so_share0 p i s Hs) as (r & Hr & Hc & Hin).
    destruct (Hfw p r Hr) as (r' & Hr' & Heq). exists r'. split; [done|]. by rewrite Heq.
  - intros p r' i (r & Hr & ->)%Hb. by apply so_share_all0.
  - intros p [r' (r & Hr & _)%Hb]. apply so_share_valid0. by exists r.
Qed.

Lemma synced_alter_validator a ss sql pk f g :
  (∀ r, metadata_of_row pk (f r) = g (metadata_of_row pk r)) →
  (∀ r, vr_cluster_id (f r) = vr_cluster_id r) →
  Synced a ss sql → let a' := mkAbs (alter g pk (a_validators a)) (a_clusters a) (a_shares a) in
  abs_ok a' →
  Synced a' ss (sql <| t_validators := alter f pk (t_validators sql) |>).
Proof.
  intros Hg Hf [Hok Ha [Hv Hc Hs] Hss] a' Ha'. split; [by apply sql_ok_alter_validator|done| |by destruct Hss].
  split; [| |].
  - apply map_eq. intros p. subst a'. rewrite abs_of_sql_validator. cbn. rewrite Hv.
    destruct (decide (pk = p)) as [->|Hne].
    + rewrite !lookup_alter_eq, abs_of_sql_validator. destruct (t_validators sql !! p); [|done].
      cbn. by rewrite Hg.
    + by rewrite !lookup_alter_ne, abs_of_sql_validator.
  - intros c. specialize (Hc c). rewrite abs_of_sql_cluster in *. done.
  - subst a'. cbn [a_shares]. rewrite Hs. apply map_eq. intros p. rewrite !abs_of_sql_share. cbn.
    destruct (decide (pk = p)) as [->|Hne].
    + rewrite lookup_alter_eq. by destruct (t_validators sql !! p).
    + by rewrite lookup_alter_ne.
Qed.

Lemma synced_graffiti a ss sql pk g :
  Synced a ss sql → ∃ sql', SET_GRAFFITI g pk sql = Ok sql' ∧
    Synced (abs_apply (UpdateGraffiti pk g) a) ss sql'.
Proof.
  intros Hsync. eexists. split; [done|].
  apply synced_alter_validator; [done..|]. apply (abs_apply_ok (UpdateGraffiti pk g)); [by destruct Hsync|done].
Qed.

Lemma synced_indices a ss sql sql' l :
  Synced a ss sql →
  foldl (λ o kv, sql ← o; SET_INDEX kv.2 kv.1 sql) (Ok sql) l = Ok sql' →
  Synced (abs_set_indices l a) ss sql'.
Proof.
  set (step := λ (o : outcome DatabaseError Sql) (kv : PublicKeyBytes * ValidatorIndex),
    sql ← o; SET_INDEX kv.2 kv.1 sql). intros Hsync Hl.
  assert (Hfail : ∀ l o, (∀ s, o ≠ Ok s) → ∀ s, foldl step o l ≠ Ok s).
  { clear. induction l as [|kv l IH]; intros o Ho; [done|]. apply IH. intros s.
    destruct o as [s0|e|]; [by destruct (Ho s0)|done..]. }
  revert a sql Hsync Hl. induction l as [|[pk i] l IH]; intros a sql Hsync Hl.
  { injection Hl as <-. by destruct a. }
  cbn [foldl] in Hl. destruct (step (Ok sql) (pk, i)) as [sql1|e|] eqn:Hstep;
    [|by apply Hfail in Hl..].
  apply (IH (abs_set_indices [(pk, i)] a) sql1); [|done].
  unfold step in Hstep. apply bind_ok in Hstep as (? & [= <-] & Hstep).
  apply bind_ok in Hstep as (_ & _ & Hstep). injection Hstep as <-.
  apply synced_alter_validator; [done..|].
  apply (set_indices_ok [(pk, i)]). by destruct Hsync.
Qed.
End sync.
