(* ===== verification/DatabaseLoad.v ===== *)
(** * Loading the network state

    [NetworkState::new_with_state] of [database/src/state.rs]: on consistent tables it
    does not panic or fail, and the maps it builds hold exactly what the tables hold. *)

From S2P Require Import Prelude SsvTypes Messages ForkSchedule ValidationTypes DutyState.
From S2P Require Import ValidatorRules ConsensusValidation PartialValidation Subnet Validator MultiIndex.
From S2P Require Import NetworkState Sql Database EventProcessor DatabaseSync.

(** ** Grouping rows *)

Lemma group_by_lookup {A K V} `{Countable K} (key : A → K) (value : A → V) (l : list A) k :
  default [] (group_by key value l !! k) = value <$> filter (λ x, key x = k) l.
Proof.
  induction l as [|x l IH] using rev_ind; [done|]. unfold group_by in *. rewrite foldl_snoc.
  rewrite filter_app, fmap_app, <- IH. destruct (decide (key x = k)) as [<-|Hne].
  - rewrite lookup_insert_eq. cbn [default]. by rewrite filter_cons_True, filter_nil.
  - rewrite lookup_insert_ne, filter_cons_False, filter_nil by done. by rewrite app_nil_r.
Qed.

Lemma group_by_is_Some {A K V} `{Countable K} (key : A → K) (value : A → V) (l : list A) k :
  is_Some (group_by key value l !! k) ↔ ∃ x, x ∈ l ∧ key x = k.
Proof.
  induction l as [|x l IH] using rev_ind.
  { split; [by intros [? ?]|]. by intros (x & ?%elem_of_nil & _). }
  unfold group_by in *. rewrite foldl_snoc. setoid_rewrite elem_of_app.
  setoid_rewrite list_elem_of_singleton. destruct (decide (key x = k)) as [<-|Hne].
  - rewrite lookup_insert_eq. split; [|by eauto]. intros _. exists x. auto.
  - rewrite lookup_insert_ne, IH by done. naive_solver.
Qed.

Lemma group_by_some {A K V} `{Countable K} (key : A → K) (value : A → V) (l : list A) k x :
  x ∈ l → key x = k → group_by key value l !! k = Some (value <$> filter (λ x, key x = k) l).
Proof.
  intros Hx Hk. assert (is_Some (group_by key value l !! k)) as [g Hg].
  { apply group_by_is_Some. by exists x. }
  rewrite <- (group_by_lookup key value l k), Hg. done.
Qed.

Lemma try_map_assoc {E K A B} (f : K → A → outcome E B) (l : list (K * A)) :
  (∀ k x, (k, x) ∈ l → ∃ y, f k x = Ok y) →
  ∃ l', try_map (λ kv, y ← f kv.1 kv.2; Ok (kv.1, y)) l = Ok l' ∧ l'.*1 = l.*1 ∧
    ∀ k y, (k, y) ∈ l' ↔ ∃ x, (k, x) ∈ l ∧ f k x = Ok y.
Proof.
  induction l as [|[k x] l IH]; intros Hl.
  { exists []. split_and!; [done..|]. intros k y. split; [by intros ?%elem_of_nil|].
    by intros (x & ?%elem_of_nil & _). }
  destruct (Hl k x) as [y Hy]; [left|].
  destruct IH as (l' & Hl' & Hfst & Hin); [intros k' x' ?; apply Hl; by right|].
  exists ((k, y) :: l'). cbn [try_map fst snd]. rewrite Hy. cbn [mbind outcome_bind]. rewrite Hl'.
  split_and!; [done|by rewrite !fmap_cons, Hfst|]. intros k' y'. rewrite elem_of_cons, Hin. split.
  - intros [[= -> ->]|(x' & Hx' & Hy')]; [exists x; by split; [left|]|exists x'; by split; [right|]].
  - intros (x' & [[= -> ->]|Hx']%elem_of_cons & Hy'); [left; congruence|right; by exists x'].
Qed.

Lemma omap_fst_nodup {K A B} (f : A → option B) (l : list (K * A)) :
  NoDup l.*1 → NoDup (omap (λ kv, pair kv.1 <$> f kv.2) l).*1.
Proof.
  induction l as [|[k x] l IH]; intros Hnd; [done|]. rewrite fmap_cons in Hnd.
  apply NoDup_cons in Hnd as [Hk Hnd]. cbn [omap list_omap fst snd].
  destruct (f x) as [y|]; cbn [fmap option_fmap option_map]; [|by apply IH].
  rewrite fmap_cons. apply NoDup_cons. split; [|by apply IH].
  intros ([k' y'] & Hkk & ([k2 x2] & Hin & Heq)%list_elem_of_omap)%list_elem_of_fmap.
  cbn in *. destruct (f x2); [|done]. subst. injection Heq as <- <-. apply Hk, list_elem_of_fmap. by exists (k2, x2).
Qed.

Lemma foldl_ext_in {A B} (f g : A → B → A) l x :
  (∀ y z, z ∈ l → f y z = g y z) → foldl f x l = foldl g x l.
Proof.
  revert x. induction l as [|z l IH]; intros x Hfg; [done|]. cbn.
  rewrite Hfg by left. apply IH. intros y z' Hz. apply Hfg. by right.
Qed.

Section load.
Context `{EL : EthLib}.
Variable Known : bytes → Prop.
Variable operator : PubkeyOrId.
Implicit Types (sql : Sql) (a : Abs) (ss : SingleState).

(** ** One validator *)

Section validator.
Context (share_pubkeys : gmap (list byte) (list (OperatorId * PublicKeyBytes))).
Context (cluster : Cluster) (validator : ValidatorMetadata).
Let pk : PublicKeyBytes := md_public_key validator.

Lemma load_share_others l ms :
  (∀ s, s ∈ l → sh_validator_pubkey s ≠ pk) →
  foldl (load_share share_pubkeys cluster validator) ms l = ms.
Proof.
  induction l as [|s l IH]; intros Hl; [done|]. cbn [foldl]. unfold load_share at 2.
  rewrite decide_True by (apply Hl; left). apply IH. intros s' Hs'. apply Hl. by right.
Qed.

(** The only share of the validator is inserted, if the shares are valid. *)
Lemma load_share_one l ms s :
  NoDup (sh_validator_pubkey <$> l) → s ∈ l → sh_validator_pubkey s = pk →
  validate_share_public_keys pk (default [] (share_pubkeys !! pk)) = Ok tt →
  foldl (load_share share_pubkeys cluster validator) ms l =
  ms <| ms_shares := share_insert pk (cl_cluster_id cluster) (cl_owner cluster)
          (cluster_committee_id cluster) s (ms_shares ms) |>.
Proof.
  intros Hnd (l1 & l2 & ->)%list_elem_of_split Hs Hvalid.
  rewrite fmap_app, fmap_cons in Hnd. apply NoDup_app in Hnd as (_ & Hd1 & Hnd2).
  apply NoDup_cons in Hnd2 as [Hd2 _]. rewrite foldl_app. cbn [foldl].
  rewrite (load_share_others l1).
  2: { intros s' Hs' Heq. apply (Hd1 pk); [apply list_elem_of_fmap; by exists s'|rewrite Hs; left]. }
  rewrite (load_share_others l2).
  2: { intros s' Hs' Heq. apply Hd2, list_elem_of_fmap. exists s'. by rewrite Hs. }
  unfold load_share. fold pk. rewrite decide_False by (intros Hne; by apply Hne). by rewrite Hvalid.
Qed.
End validator.

(** What the loader knows of the own shares. *)
Definition own_share (id : option OperatorId) sql (pk : PublicKeyBytes) : option Share :=
  i ← id; share_of_row pk i <$> t_shares sql !! (pk, i).

Definition own_shares (id : option OperatorId) sql : gmap ClusterId (list Share) :=
  match id with Some id => fetch_shares id sql | None => ∅ end.

Definition committee_pubkeys (id : option OperatorId) sql :=
  match id with Some id => fetch_committee_share_pubkeys id sql | None => ∅ end.

Lemma own_shares_nodup id sql cid :
  NoDup (sh_validator_pubkey <$> default [] (own_shares id sql !! cid)).
Proof.
  destruct id as [i|]; cbn [own_shares]; [|rewrite lookup_empty; constructor].
  unfold fetch_shares. rewrite group_by_lookup, <- list_fmap_compose.
  apply NoDup_fmap_2_strong; [|do 2 apply NoDup_filter; apply NoDup_map_to_list].
  intros [[p i1] r] [[p' i2] r'] [_ [Hi1 Hin1]%list_elem_of_filter]%list_elem_of_filter
    [_ [Hi2 Hin2]%list_elem_of_filter]%list_elem_of_filter Heq.
  cbn in *. subst. apply elem_of_map_to_list in Hin1, Hin2. congruence.
Qed.

Lemma elem_of_own_shares id sql cid s :
  s ∈ default [] (own_shares id sql !! cid) ↔
  ∃ i r, id = Some i ∧ t_shares sql !! (sh_validator_pubkey s, i) = Some r ∧ sr_cluster_id r = cid ∧
    s = share_of_row (sh_validator_pubkey s) i r.
Proof.
  destruct id as [i|]; cbn [own_shares]; [|rewrite lookup_empty; cbn].
  2: { split; [by intros ?%elem_of_nil|]. by intros (i & r & ? & _). }
  unfold fetch_shares. rewrite group_by_lookup, list_elem_of_fmap. split.
  - intros ([[p j] r] & -> & [Hc [Hj Hin%elem_of_map_to_list]%list_elem_of_filter]%list_elem_of_filter).
    cbn in *. subst. by eexists _, r.
  - intros (j & r & [= <-] & Hr & Hc & Hs). exists ((sh_validator_pubkey s, i), r). split; [done|].
    apply list_elem_of_filter. split; [done|]. apply list_elem_of_filter. split; [done|].
    by apply elem_of_map_to_list.
Qed.

Lemma committee_pubkeys_perm i sql pk row :
  sql_ok Known sql → t_validators sql !! pk = Some row → (vr_cluster_id row, i) ∈ t_cluster_members sql →
  default [] (fetch_committee_share_pubkeys i sql !! pk) ≡ₚ share_pubkeys_of sql pk.
Proof.
  intros Hok Hrow Hi. apply share_pubkeys_perm; unfold fetch_committee_share_pubkeys; rewrite group_by_lookup.
  - apply NoDup_fmap_2_strong; [|do 2 apply NoDup_filter; apply NoDup_map_to_list].
    intros [[p i1] r] [[p' i2] r'] [Hp [_ Hin1]%list_elem_of_filter]%list_elem_of_filter
      [Hp' [_ Hin2]%list_elem_of_filter]%list_elem_of_filter Heq.
    cbn in *. subst. apply elem_of_map_to_list in Hin1, Hin2. injection Heq as -> _. congruence.
  - intros [j k]. rewrite elem_of_share_pubkeys, list_elem_of_fmap. cbn. split.
    + intros ([[p j'] r] & [= -> ->] & [Hp [_ Hin%elem_of_map_to_list]%list_elem_of_filter]%list_elem_of_filter).
      cbn in *. subst. by exists r.
    + intros (r & Hr & Hk). exists ((pk, j), r). cbn. split; [by subst|].
      apply list_elem_of_filter. split; [done|]. apply list_elem_of_filter.
      split; [|by apply elem_of_map_to_list]. cbn.
      destruct (so_share _ sql Hok pk j r Hr) as (row' & Hrow' & -> & _). congruence.
Qed.

(** Loading a validator is what inserting it with our share does. *)
Lemma load_validator_insert id sql cluster validator ms row :
  sql_ok Known sql → t_validators sql !! md_public_key validator = Some row →
  cl_cluster_id cluster = vr_cluster_id row →
  load_validator (own_shares id sql) (committee_pubkeys id sql) cluster ms validator =
  insert_validator_multi cluster validator (own_share id sql (md_public_key validator)) ms.
Proof.
  intros Hok Hrow Hcid. unfold load_validator, insert_validator_multi.
  set (pk := md_public_key validator) in *. unfold own_share.
  destruct (id ≫= λ i, share_of_row pk i <$> t_shares sql !! (pk, i)) as [s|] eqn:Hs.
  - destruct id as [i|]; [|done]. cbn in Hs.
    destruct (t_shares sql !! (pk, i)) as [r|] eqn:Hr; [|done]. injection Hs as <-.
    destruct (so_share _ sql Hok pk i r Hr) as (row' & Hrow' & Hc & Hin).
    assert (row' = row) as -> by congruence.
    rewrite (load_share_one _ _ _ _ _ (share_of_row pk i r)); [done|apply own_shares_nodup| |done|].
    + apply elem_of_own_shares. exists i, r. by rewrite Hcid.
    + pose proof (committee_pubkeys_perm i sql pk row Hok Hrow Hin) as Hp.
      eapply validate_shares_perm; [symmetry; exact Hp|apply share_pubkeys_nodup|].
      apply (so_share_valid _ sql Hok). by exists row.
  - rewrite load_share_others; [done|]. intros s (i & r & -> & Hr & Hc & Hsr)%elem_of_own_shares Heq.
    cbn in Hs. fold pk in Heq. rewrite <- Heq, Hr in Hs. done.
Qed.

(** ** All validators *)

(** The validators with their clusters, in the order of the loader. *)
Definition rows_of_cluster sql (cid : ClusterId) : list ValidatorMetadata :=
  filter (λ v, md_cluster_id v = cid)
    ((λ kv, metadata_of_row kv.1 kv.2) <$> map_to_list (t_validators sql)).

Definition load_pairs sql : list (Cluster * ValidatorMetadata) :=
  map_to_list (fetch_clusters sql) ≫= λ kc, pair kc.2 <$> rows_of_cluster sql kc.1.

Definition load_updates id sql : list (Cluster * ValidatorMetadata) → list StateUpdate :=
  fmap (λ cv, InsertValidator cv.1 cv.2 (own_share id sql (md_public_key cv.2))).

Lemma fetch_clusters_lookup sql cid :
  sql_ok Known sql →
  fetch_clusters sql !! cid = (λ r, cluster_of_row cid r sql) <$> t_clusters sql !! cid.
Proof.
  intros Hok. unfold fetch_clusters. rewrite map_lookup_imap.
  destruct (t_clusters sql !! cid) as [r|] eqn:Hr; [|done]. cbn.
  destruct (so_cluster_id _ sql Hok cid r Hr) as (_ & Hne & _).
  destruct (GET_CLUSTER_MEMBERS cid sql); done.
Qed.

Lemma elem_of_rows_of_cluster sql cid v :
  v ∈ rows_of_cluster sql cid ↔
  ∃ r, t_validators sql !! md_public_key v = Some r ∧ v = metadata_of_row (md_public_key v) r ∧
    vr_cluster_id r = cid.
Proof.
  unfold rows_of_cluster. rewrite list_elem_of_filter, list_elem_of_fmap. split.
  - intros [Hc ([pk r] & -> & Hr%elem_of_map_to_list)]. by exists r.
  - intros (r & Hr & Hv & Hc). split; [by rewrite Hv|]. exists (md_public_key v, r).
    split; [done|]. by apply elem_of_map_to_list.
Qed.

Lemma elem_of_load_pairs sql c v :
  sql_ok Known sql →
  (c, v) ∈ load_pairs sql ↔
  ∃ r rc, t_validators sql !! md_public_key v = Some r ∧ v = metadata_of_row (md_public_key v) r ∧
    t_clusters sql !! vr_cluster_id r = Some rc ∧ c = cluster_of_row (vr_cluster_id r) rc sql.
Proof.
  intros Hok. unfold load_pairs. rewrite list_elem_of_bind. split.
  - intros ([cid c'] & Hin & Hc'%elem_of_map_to_list). cbn in *.
    apply list_elem_of_fmap in Hin as (v' & [= <- <-] & (r & Hr & Hv & <-)%elem_of_rows_of_cluster).
    rewrite fetch_clusters_lookup in Hc' by done.
    destruct (t_clusters sql !! vr_cluster_id r) as [rc|] eqn:Hrc; [|done]. injection Hc' as <-.
    by exists r, rc.
  - intros (r & rc & Hr & Hv & Hrc & ->).
    exists (vr_cluster_id r, cluster_of_row (vr_cluster_id r) rc sql). cbn. split.
    + apply list_elem_of_fmap. exists v. split; [done|]. apply elem_of_rows_of_cluster. by exists r.
    + apply elem_of_map_to_list. by rewrite fetch_clusters_lookup, Hrc.
Qed.

Lemma load_pairs_nodup sql :
  sql_ok Known sql → NoDup ((λ cv : Cluster * ValidatorMetadata, md_public_key cv.2) <$> load_pairs sql).
Proof.
  intros Hok. apply NoDup_fmap_2_strong.
  - intros [c v] [c' v'] (r & rc & Hr & Hv & Hrc & ->)%elem_of_load_pairs
      (r' & rc' & Hr' & Hv' & Hrc' & ->)%elem_of_load_pairs Heq; [|done..].
    cbn in Heq. rewrite <- Heq in Hr', Hv'. rewrite Hr in Hr'. injection Hr' as <-.
    rewrite Hrc in Hrc'. injection Hrc' as <-. by rewrite Hv, Hv'.
  - unfold load_pairs. apply NoDup_bind; [| |apply NoDup_map_to_list].
    + intros [k1 c1] [k2 c2] y Hk1 Hk2 Hy1 Hy2. cbn in *.
      apply list_elem_of_fmap in Hy1 as (v & -> & (r & Hr & _ & <-)%elem_of_rows_of_cluster).
      apply list_elem_of_fmap in Hy2 as (v2 & [= -> <-] & (r2 & Hr2 & _ & <-)%elem_of_rows_of_cluster).
      congruence.
    + intros [k c] _. cbn. apply NoDup_fmap_2_strong; [by intros x y _ _ [= ->]|].
      unfold rows_of_cluster. apply NoDup_filter.
      apply NoDup_fmap_2_strong; [|apply NoDup_map_to_list].
      intros [p r] [p' r'] Hp%elem_of_map_to_list Hp'%elem_of_map_to_list. cbn.
      intros [= <- _ _ _]. congruence.
Qed.

Lemma load_clusters_fold id sql clusters ms :
  sql_ok Known sql →
  (∀ kc, kc ∈ clusters → is_Some (t_clusters sql !! kc.1) ∧ cl_cluster_id kc.2 = kc.1) →
  load_clusters (fetch_validators sql) (own_shares id sql) (committee_pubkeys id sql) clusters ms =
  Ok (foldl (λ ms cv, insert_validator_multi cv.1 cv.2 (own_share id sql (md_public_key cv.2)) ms) ms
        (clusters ≫= λ kc, pair kc.2 <$> rows_of_cluster sql kc.1)).
Proof.
  intros Hok. revert ms. induction clusters as [|[cid c] clusters IH]; intros ms Hcs; [done|].
  cbn [load_clusters]. destruct (Hcs (cid, c)) as [[rc Hrc] Hcid]; [left|]. cbn in Hrc, Hcid.
  assert (fetch_validators sql !! cid = Some (rows_of_cluster sql cid)) as ->.
  { destruct (so_cluster_validator _ sql Hok cid rc Hrc) as (p & v & Hv & Hc).
    unfold fetch_validators. erewrite group_by_some.
    - unfold rows_of_cluster. by rewrite list_fmap_id.
    - apply list_elem_of_fmap. exists (p, v). split; [done|]. by apply elem_of_map_to_list.
    - done. }
  cbn [expect mbind outcome_bind]. rewrite IH by (intros kc Hkc; apply Hcs; by right).
  rewrite bind_cons, foldl_app. do 2 f_equal. cbn [fst snd]. rewrite foldl_fmap. cbn [fst snd].
  apply foldl_ext_in. intros ms' v (r & Hr & _ & Hc)%elem_of_rows_of_cluster.
  eapply load_validator_insert; [done|exact Hr|congruence].
Qed.

Lemma load_pairs_det sql c v c' v' :
  sql_ok Known sql → (c, v) ∈ load_pairs sql → (c', v') ∈ load_pairs sql →
  md_cluster_id v = md_cluster_id v' → c = c'.
Proof.
  intros Hok (r & rc & Hr & Hv & Hrc & ->)%elem_of_load_pairs
    (r' & rc' & Hr' & Hv' & Hrc' & ->)%elem_of_load_pairs Heq; [|done..].
  rewrite Hv, Hv' in Heq. cbn in Heq. rewrite Heq in *. congruence.
Qed.

Lemma load_pairs_cluster_id sql c v :
  sql_ok Known sql → (c, v) ∈ load_pairs sql → md_cluster_id v = cl_cluster_id c.
Proof.
  intros Hok (r & rc & Hr & Hv & Hrc & ->)%elem_of_load_pairs; [|done]. by rewrite Hv.
Qed.

(** The abstract state of a part of the pairs. *)
Record loaded id sql (l : list (Cluster * ValidatorMetadata)) a : Prop := {
  lo_validators : ∀ pk v, a_validators a !! pk = Some v ↔ ∃ c, (c, v) ∈ l ∧ md_public_key v = pk;
  lo_clusters : ∀ cid c, a_clusters a !! cid = Some c ↔ ∃ v, (c, v) ∈ l ∧ md_cluster_id v = cid;
  lo_shares : ∀ pk s, a_shares a !! pk = Some s ↔
    (∃ c v, (c, v) ∈ l ∧ md_public_key v = pk) ∧ own_share id sql pk = Some s;
}.

Lemma loaded_insert id sql l c v a :
  sql_ok Known sql → (∀ cv, cv ∈ l ++ [(c, v)] → cv ∈ load_pairs sql) →
  (∀ c' v', (c', v') ∈ l → md_public_key v' ≠ md_public_key v) →
  loaded id sql l a →
  let u := InsertValidator c v (own_share id sql (md_public_key v)) in
  update_ok u a ∧ loaded id sql (l ++ [(c, v)]) (abs_apply u a).
Proof.
  intros Hok Hl Hnew [Hv Hc Hs]. cbn zeta.
  assert (Hcv : (c, v) ∈ load_pairs sql) by (apply Hl, elem_of_app; right; left).
  assert (Hl' : ∀ cv, cv ∈ l → cv ∈ load_pairs sql) by (intros cv ?; apply Hl, elem_of_app; by left).
  assert (Hcid := load_pairs_cluster_id sql c v Hok Hcv).
  assert (Hsame : ∀ c', a_clusters a !! cl_cluster_id c = Some c' → c' = c).
  { intros c' (v' & Hin & Heq)%Hc. eapply load_pairs_det; [done|by apply Hl'|done|congruence]. }
  assert (Hap : ∀ x, x ∈ l ++ [(c, v)] ↔ x ∈ l ∨ x = (c, v)).
  { intros x. by rewrite elem_of_app, list_elem_of_singleton. }
  split; [|split].
  - cbn. split_and!; [|done|].
    + apply eq_None_not_Some. intros [v' (c' & Hin & Heq)%Hv]. by apply (Hnew c' v').
    + by intros c' ->%Hsame.
  - intros pk v'. cbn [abs_apply a_validators]. setoid_rewrite Hap. rewrite lookup_insert_Some. rewrite Hv. split.
    + intros [[<- <-]|[Hne (c' & Hin & Heq)]]; [exists c; by auto|exists c'; by auto].
    + intros (c' & [Hin|[= -> ->]] & Heq); [|by left]. right. split; [|by exists c'].
      intros <-. by apply (Hnew c' v').
  - intros cid c'. cbn [abs_apply a_clusters]. setoid_rewrite Hap. rewrite lookup_insert_Some. rewrite Hc. split.
    + intros [[<- <-]|[Hne (v' & Hin & Heq)]]; [exists v; by auto|exists v'; by auto].
    + intros (v' & [Hin|[= -> ->]] & Heq); [|left; split; [congruence|done]].
      destruct (decide (cl_cluster_id c = cid)) as [Heq'|Hne]; [|right; split; [done|by exists v']].
      left. split; [done|]. symmetry. apply Hsame, Hc. exists v'. split; [done|congruence].
  - intros pk s. setoid_rewrite Hap. cbn [abs_apply a_shares].
    destruct (decide (pk = md_public_key v)) as [->|Hne].
    + assert (a_shares a !! md_public_key v = None) as Hnone.
      { apply eq_None_not_Some. intros [s' [(c' & v' & Hin & Heq) _]%Hs]. by apply (Hnew c' v'). }
      destruct (own_share id sql (md_public_key v)) as [s'|]; [rewrite lookup_insert_eq|rewrite Hnone].
      * split; [|by intros [_ ?]]. intros ?. split; [|done]. exists c, v. auto.
      * split; [done|by intros [_ ?]].
    + transitivity (a_shares a !! pk = Some s).
      { destruct (own_share id sql (md_public_key v)); [by rewrite lookup_insert_ne|done]. }
      rewrite Hs. split.
      * intros [(c' & v' & Hin & Heq) Hos]. split; [|done]. exists c', v'. auto.
      * intros [(c' & v' & [Hin|[= -> ->]] & Heq) Hos]; [|congruence]. split; [|done]. by exists c', v'.
Qed.

Lemma load_updates_snoc id sql l c v :
  load_updates id sql (l ++ [(c, v)]) =
  load_updates id sql l ++ [InsertValidator c v (own_share id sql (md_public_key v))].
Proof. unfold load_updates. by rewrite fmap_app. Qed.

Lemma load_updates_loaded id sql l :
  sql_ok Known sql → (∀ cv, cv ∈ l → cv ∈ load_pairs sql) →
  NoDup ((λ cv : Cluster * ValidatorMetadata, md_public_key cv.2) <$> l) →
  updates_ok (load_updates id sql l) abs_empty ∧
  loaded id sql l (abs_applies (load_updates id sql l) abs_empty).
Proof.
  intros Hok. induction l as [|[c v] l IH] using rev_ind; intros Hl Hnd.
  { split; [done|]. split; cbn; intros * ; rewrite lookup_empty; (split; [done|]).
    - by intros (? & ?%elem_of_nil & _).
    - by intros (? & ?%elem_of_nil & _).
    - by intros [(? & ? & ?%elem_of_nil & _) _]. }
  rewrite fmap_app in Hnd. apply NoDup_app in Hnd as (Hnd & Hdis & _).
  destruct IH as [Hus Hlo]; [intros cv ?; apply Hl, elem_of_app; by left|done|].
  assert (Hfresh : ∀ c' v', (c', v') ∈ l → md_public_key v' ≠ md_public_key v).
  { intros c' v' Hin Heq. apply (Hdis (md_public_key v)); [|left].
    apply list_elem_of_fmap. by exists (c', v'). }
  destruct (loaded_insert id sql l c v _ Hok Hl Hfresh Hlo) as [Hu Hlo'].
  by rewrite load_updates_snoc, updates_ok_snoc, abs_applies_snoc.
Qed.

Lemma fold_models id sql l a ms :
  abs_ok a → models a ms → updates_ok (load_updates id sql l) a →
  models (abs_applies (load_updates id sql l) a)
    (foldl (λ ms cv, insert_validator_multi cv.1 cv.2 (own_share id sql (md_public_key cv.2)) ms) ms l).
Proof.
  revert a ms. induction l as [|[c v] l IH]; intros a ms Hok Hm; [done|]. intros [Hu Hus].
  apply IH; [by apply abs_apply_ok|by apply insert_validator_models|done].
Qed.

Lemma loaded_abs id sql a : sql_ok Known sql → loaded id sql (load_pairs sql) a → a = abs_of_sql id sql.
Proof.
  intros Hok [Hv Hc Hs].
  assert (Hpair : ∀ pk r, t_validators sql !! pk = Some r → ∃ c,
    (c, metadata_of_row pk r) ∈ load_pairs sql).
  { intros pk r Hr. destruct (so_validator_cluster _ sql Hok pk r Hr) as [rc Hrc].
    eexists. apply elem_of_load_pairs; [done|]. by exists r, rc. }
  destruct a as [av ac ash]. cbn in *. unfold abs_of_sql. f_equal.
  - apply map_eq. intros pk. rewrite map_lookup_imap. apply option_eq. intros v. rewrite Hv. split.
    + intros (c & (r & rc & Hr & Hvr & _)%elem_of_load_pairs & Hpk); [|done]. subst pk.
      rewrite Hr. cbn. congruence.
    + destruct (t_validators sql !! pk) as [r|] eqn:Hr; [|done]. intros [= <-].
      destruct (Hpair pk r Hr) as [c Hin]. by exists c.
  - apply map_eq. intros cid. rewrite map_lookup_imap. apply option_eq. intros c. rewrite Hc. split.
    + intros (v & (r & rc & Hr & Hvr & Hrc & ->)%elem_of_load_pairs & Hcid); [|done].
      rewrite Hvr in Hcid. cbn in Hcid. subst cid. by rewrite Hrc.
    + destruct (t_clusters sql !! cid) as [rc|] eqn:Hrc; [|done]. intros [= <-].
      destruct (so_cluster_validator _ sql Hok cid rc Hrc) as (pk & r & Hr & <-).
      exists (metadata_of_row pk r). split; [|done]. apply elem_of_load_pairs; [done|]. by exists r, rc.
  - apply map_eq. intros pk. rewrite map_lookup_imap. apply option_eq. intros s. rewrite Hs. split.
    + intros [(c & v & (r & rc & Hr & _)%elem_of_load_pairs & <-) Hos]; [|done]. by rewrite Hr.
    + destruct (t_validators sql !! pk) as [r|] eqn:Hr; [|done]. cbn. intros Hos. split; [|done].
      destruct (Hpair pk r Hr) as [c Hin]. by exists c, (metadata_of_row pk r).
Qed.

(** ** The single state *)

Lemma fetch_operators_ok sql :
  sql_ok Known sql → ∃ m, fetch_operators sql = Ok m ∧
    ∀ id op, m !! id = Some op ↔
      ∃ r, t_operators sql !! id = Some r ∧ or_removed r = false ∧ operator_of_row id r = Ok op.
Proof.
  intros Hok. unfold fetch_operators.
  set (rows := map_to_list (filter (λ kv, or_removed kv.2 = false) (t_operators sql))).
  assert (Hrows : ∀ id r, (id, r) ∈ rows ↔ t_operators sql !! id = Some r ∧ or_removed r = false).
  { intros id r. subst rows. by rewrite elem_of_map_to_list, map_lookup_filter_Some. }
  destruct (try_map_assoc (λ id r, operator_of_row id r) rows) as (l & Hl & Hfst & Hin).
  { intros id r [Hr _]%Hrows. destruct (so_key _ sql Hok id r Hr) as [k Hk].
    unfold operator_of_row. rewrite Hk, decode_encode_key. by eexists. }
  eexists. rewrite Hl. split; [done|]. intros id op.
  rewrite <- elem_of_list_to_map by (rewrite Hfst; apply NoDup_fst_map_to_list).
  rewrite Hin. setoid_rewrite Hrows. naive_solver.
Qed.

Lemma fetch_nonces_ok sql :
  sql_ok Known sql → ∃ m, fetch_nonces sql = Ok m ∧ ∀ o, m !! o = t_owners sql !! o ≫= ow_nonce.
Proof.
  intros Hok. unfold fetch_nonces. set (rows := omap _ (map_to_list (t_owners sql))).
  assert (Hrows : ∀ o n, (o, n) ∈ rows ↔ t_owners sql !! o ≫= ow_nonce = Some n).
  { intros o n. subst rows. rewrite list_elem_of_omap. split.
    - intros ([o' r] & Hr%elem_of_map_to_list & Hn). cbn in Hn.
      destruct (ow_nonce r) as [n'|] eqn:E; [|done]. injection Hn as -> ->. by rewrite Hr.
    - destruct (t_owners sql !! o) as [r|] eqn:Hr; [|done]. cbn. intros Hn.
      exists (o, r). split; [by apply elem_of_map_to_list|]. cbn. by rewrite Hn. }
  destruct (try_map_assoc (λ _ n, nonce_of_sql n) rows) as (l & Hl & Hfst & Hin).
  { intros o n Hn%Hrows. destruct (t_owners sql !! o) as [r|] eqn:Hr; [|done].
    exists n. unfold nonce_of_sql. pose proof (so_nonce _ sql Hok o r n Hr Hn) as Hlt.
    by rewrite (proj2 (N.ltb_lt _ _) Hlt). }
  eexists. rewrite Hl. split; [done|]. intros o. apply option_eq. intros n.
  rewrite <- elem_of_list_to_map by (rewrite Hfst; apply omap_fst_nodup, NoDup_fst_map_to_list).
  rewrite Hin. setoid_rewrite Hrows. unfold nonce_of_sql. split.
  - intros (n' & Hn' & Heq). destruct (n' <? 2 ^ 16)%N; [|done]. congruence.
  - intros Hn. exists n. split; [done|]. destruct (t_owners sql !! o) as [r|] eqn:Hr; [|done].
    pose proof (so_nonce _ sql Hok o r n Hr Hn) as Hlt. by rewrite (proj2 (N.ltb_lt _ _) Hlt).
Qed.

Lemma own_clusters_ok id sql cid :
  sql_ok Known sql →
  cid ∈ dom (own_shares id sql) ↔ ∃ i, id = Some i ∧ (cid, i) ∈ t_cluster_members sql.
Proof.
  intros Hok. rewrite elem_of_dom. destruct id as [i|]; cbn [own_shares].
  2: { rewrite lookup_empty. split; [by intros [? ?]|]. by intros (? & ? & _). }
  unfold fetch_shares. rewrite group_by_is_Some. split.
  - intros ([[p j] r] & [Hj Hr%elem_of_map_to_list]%list_elem_of_filter & Hc). cbn in *. subst.
    destruct (so_share _ sql Hok p i r Hr) as (row & Hrow & -> & Hin). by exists i.
  - intros (j & [= <-] & Hin). destruct (so_member _ sql Hok cid i Hin) as [[rc Hrc] _].
    destruct (so_cluster_validator _ sql Hok cid rc Hrc) as (pk & row & Hrow & Hc).
    rewrite <- Hc in Hin. destruct (so_share_all _ sql Hok pk row i Hrow Hin) as [r Hr].
    exists ((pk, i), r). split.
    + apply list_elem_of_filter. split; [done|]. by apply elem_of_map_to_list.
    + cbn. destruct (so_share _ sql Hok pk i r Hr) as (row' & Hrow' & -> & _). congruence.
Qed.

(** [new_with_state] succeeds, and its maps hold what the tables hold. *)
Lemma new_with_state_ok sql :
  sql_ok Known sql → ∃ st, new_with_state operator sql = Ok st ∧
    let id := own_id_of operator sql in
    let ss := ns_single st in
    abs_ok (abs_of_sql id sql) ∧ models (abs_of_sql id sql) (ns_multi st) ∧
    ss_id ss = id ∧ ss_last_processed_block ss = t_block_number sql ∧
    ss_max_operator_id_seen ss = t_max_operator_id_seen sql ∧
    (∀ i op, ss_operators ss !! i = Some op ↔
      ∃ r, t_operators sql !! i = Some r ∧ or_removed r = false ∧ operator_of_row i r = Ok op) ∧
    (∀ o, ss_nonces ss !! o = t_owners sql !! o ≫= ow_nonce) ∧
    (∀ cid, cid ∈ ss_clusters ss ↔ ∃ i, id = Some i ∧ (cid, i) ∈ t_cluster_members sql).
Proof.
  intros Hok. unfold new_with_state. set (id := own_id_of operator sql).
  destruct (fetch_operators_ok sql Hok) as (ops & -> & Hops).
  destruct (fetch_nonces_ok sql Hok) as (nonces & Hn & Hnonces).
  cbn [mbind outcome_bind]. rewrite Hn. cbn [mbind outcome_bind].
  fold (own_shares id sql). fold (committee_pubkeys id sql).
  rewrite load_clusters_fold; [|done|].
  2: { intros [cid c] Hc%elem_of_map_to_list. rewrite fetch_clusters_lookup in Hc by done. cbn.
       destruct (t_clusters sql !! cid) as [rc|]; [|done]. injection Hc as <-. by split. }
  fold (load_pairs sql). cbn [mbind outcome_bind]. eexists. split; [done|].
  destruct (load_updates_loaded id sql (load_pairs sql) Hok) as [Hus Hlo]; [done|by apply load_pairs_nodup|].
  rewrite <- (loaded_abs id sql _ Hok Hlo). split_and!; cbn; try done.
  - apply abs_applies_ok; [apply abs_ok_empty|done].
  - apply fold_models; [apply abs_ok_empty|apply models_empty|done].
  - intros cid. by apply own_clusters_ok.
Qed.
End load.
