(* ===== verification/EventSync.v ===== *)
(** * Events keep memory and tables in step

    Every handler of [eth/src/event_processor.rs] runs inside the transaction of its
    block.  [tx_inv] says that the tables of the transaction and the updates queued so
    far agree; each database operation and each handler preserves it, whatever it
    returns, unless the error aborts the block.  Committing a block then replays the
    queue without a panic. *)

From S2P Require Import Prelude SsvTypes Messages ForkSchedule ValidationTypes DutyState.
From S2P Require Import ValidatorRules ConsensusValidation PartialValidation Subnet Validator MultiIndex.
From S2P Require Import NetworkState Sql Database EventProcessor DatabaseSync DatabaseLoad.

(** ** Steps of the database actions *)

Section steps.
Context `{KL : KeyLib}.

Lemma wp_execute (f : Sql → outcome DatabaseError Sql) Q tx :
  (∀ sql, f (tx_sql tx) = Ok sql → Q (Ok tt) (tx <| tx_sql := sql |>)) →
  (∀ e, f (tx_sql tx) = Err e → Q (Err e) tx) → f (tx_sql tx) ≠ Panic →
  wp (execute f) Q tx.
Proof. intros Hok Herr Hp. unfold wp, execute. destruct (f (tx_sql tx)); cbn; auto. done. Qed.

Lemma wp_query {A} (f : Sql → outcome DatabaseError A) Q tx :
  Q (f (tx_sql tx)) tx → wp (query f) Q tx.
Proof. done. Qed.

Lemma wp_push_update u (Q : outcome DatabaseError unit → Tx → Prop) tx :
  Q (Ok tt) (tx <| tx_updates := tx_updates tx ++ [u] |>) → wp (push_update u) Q tx.
Proof. done. Qed.

Lemma to_sql_no_panic n : to_sql n ≠ Panic.
Proof. unfold to_sql, ensure. by destruct (_ <? _)%N. Qed.

Lemma to_sql_bind_no_panic {A} n (o : outcome DatabaseError A) :
  o ≠ Panic → (_ ← to_sql n; o) ≠ Panic.
Proof. intros Ho. unfold to_sql, ensure. by destruct (_ <? _)%N. Qed.
End steps.

(** ** The shares of a new validator *)

Section shares.
Context `{KL : KeyLib}.
Context (pk : PublicKeyBytes) (cid : ClusterId).

(** The tables after the shares of the list have been inserted. *)
Record shares_inserted (l : list Share) (sql sql' : Sql) : Prop := {
  si_rest : sql' <| t_cluster_members := ∅ |> <| t_shares := ∅ |> =
            sql <| t_cluster_members := ∅ |> <| t_shares := ∅ |>;
  si_members : ∀ c i, (c, i) ∈ t_cluster_members sql' ↔
    (c, i) ∈ t_cluster_members sql ∨ c = cid ∧ ∃ s, s ∈ l ∧ sh_operator_id s = i;
  si_shares : ∀ p i r, t_shares sql' !! (p, i) = Some r ↔
    t_shares sql !! (p, i) = Some r ∨
    p = pk ∧ ∃ s, s ∈ l ∧ sh_operator_id s = i ∧ r = row_of_share s;
}.

Lemma shares_inserted_nil sql : shares_inserted [] sql sql.
Proof.
  split; [done|..]; intros *; (split; [by left|]).
  - by intros [?|(_ & s & ?%elem_of_nil & _)].
  - by intros [?|(_ & s & ?%elem_of_nil & _)].
Qed.

Lemma insert_member_ok c i sql sql' :
  INSERT_CLUSTER_MEMBER c i sql = Ok sql' →
  sql' = sql <| t_cluster_members := {[(c, i)]} ∪ t_cluster_members sql |>.
Proof.
  intros (_ & _ & H)%bind_ok. revert H. case_decide as Hin.
  - intros [= <-]. rewrite subseteq_union_1_L by by apply singleton_subseteq_l. by destruct sql.
  - case_decide; [|done]. by intros [= <-].
Qed.

Lemma insert_share_ok c i k e sql sql' :
  INSERT_SHARE pk c i k e sql = Ok sql' →
  t_shares sql !! (pk, i) = None ∧
  sql' = sql <| t_shares := <[(pk, i) := mkShareRow c k e]> (t_shares sql) |>.
Proof.
  intros (_ & _ & H)%bind_ok. revert H. case_decide as Hnone; [done|].
  case_decide; [|done]. intros [= <-]. split; [|done]. by apply eq_None_not_Some.
Qed.

Lemma shares_inserted_cons s l sql sql1 sql2 sql3 :
  sh_cluster_id s = cid →
  INSERT_CLUSTER_MEMBER (sh_cluster_id s) (sh_operator_id s) sql = Ok sql1 →
  INSERT_SHARE pk (sh_cluster_id s) (sh_operator_id s) (sh_share_pubkey s)
    (sh_encrypted_private_key s) sql1 = Ok sql2 →
  shares_inserted l sql2 sql3 → shares_inserted (s :: l) sql sql3.
Proof.
  intros Hcid ->%insert_member_ok [Hnone ->]%insert_share_ok [Hr Hm Hs]. cbn in *. split.
  - by rewrite Hr.
  - intros c i. rewrite Hm, elem_of_union, elem_of_singleton, Hcid. setoid_rewrite elem_of_cons.
    naive_solver.
  - intros p i r. rewrite Hs, lookup_insert_Some. setoid_rewrite elem_of_cons. split.
    + intros [[[[= <- <-] <-]|[_ ?]]|(-> & s' & ? & <- & ->)]; [|by left|].
      * right. split; [done|]. exists s. auto.
      * right. split; [done|]. exists s'. auto.
    + intros [Hold|(-> & s' & [->|Hin] & <- & ->)].
      * left. right. split; [|done]. intros [= <- <-]. congruence.
      * left. by left.
      * right. split; [done|]. by exists s'.
Qed.

Lemma wp_insert_shares l tx :
  Forall (λ s, sh_cluster_id s = cid) l →
  wp (for_each (λ share,
        _ ← execute (INSERT_CLUSTER_MEMBER (sh_cluster_id share) (sh_operator_id share));
        insert_share share pk) l)
    (λ o tx', match o with
              | Ok _ => shares_inserted l (tx_sql tx) (tx_sql tx') ∧ tx_updates tx' = tx_updates tx
              | Err _ => True
              | Panic => False
              end) tx.
Proof.
  intros Hl. revert tx. induction Hl as [|s l Hs Hl IH]; intros tx; cbn [for_each].
  { apply wp_ret. split; [apply shares_inserted_nil|done]. }
  do 2 apply wp_bind. apply wp_execute; [|done|].
  2: { apply to_sql_bind_no_panic. by repeat case_decide. }
  intros sql1 H1. apply wp_execute; [|done|].
  2: { apply to_sql_bind_no_panic. by repeat case_decide. }
  intros sql2 H2. eapply wp_mono; [apply IH|]. cbn. intros [u|e|] tx' Htx; [|done..].
  destruct Htx as [Hsi Hu]. split; [|done]. by eapply shares_inserted_cons.
Qed.
End shares.

(** ** The bytes of a registration *)

Lemma chunks_go_concat {A} fuel n (ls : list (list A)) :
  0 < n → Forall (λ c, length c = n) ls → length ls ≤ fuel → chunks_go fuel n (concat ls) = ls.
Proof.
  intros Hn. revert fuel. induction ls as [|c ls IH]; intros fuel Hls Hf; [by destruct fuel|].
  apply Forall_cons in Hls as [Hc Hls]. destruct fuel as [|fuel]; [simpl in Hf; lia|].
  simpl in Hf. cbn [concat]. destruct c as [|x c]; [simpl in Hc; lia|].
  cbn [chunks_go app]. change (x :: c ++ concat ls) with ((x :: c) ++ concat ls).
  rewrite take_app_length' by done. rewrite drop_app_length' by done. f_equal. apply IH; [done|lia].
Qed.

Lemma length_concat_le {A} n (ls : list (list A)) :
  0 < n → Forall (λ c, length c = n) ls → length (concat ls) = n * length ls.
Proof.
  intros Hn. induction 1 as [|c ls Hc Hls IH]; [cbn; lia|]. cbn [concat]. rewrite length_app, IH, Hc.
  cbn [length]. lia.
Qed.

Lemma chunks_concat {A} n (ls : list (list A)) :
  0 < n → Forall (λ c, length c = n) ls → chunks n (concat ls) = ls.
Proof.
  intros Hn Hls. apply chunks_go_concat; [done..|]. rewrite (length_concat_le n) by done. nia.
Qed.

Lemma chunks_exact {A} n k (l : list A) :
  0 < n → length l = n * k →
  ∃ ls, l = concat ls ∧ length ls = k ∧ Forall (λ c, length c = n) ls ∧ chunks n l = ls.
Proof.
  intros Hn. revert l. induction k as [|k IH]; intros l Hl.
  { exists []. destruct l; [done|]. simpl in Hl. lia. }
  destruct (IH (drop n l)) as (ls & Hd & Hk & Hf & _).
  { rewrite length_drop. lia. }
  assert (Hall : Forall (λ c, length c = n) (take n l :: ls)).
  { constructor; [|done]. rewrite length_take. lia. }
  exists (take n l :: ls). cbn [concat]. rewrite <- Hd, take_drop. split_and!; [done|cbn; lia|done|].
  rewrite <- (take_drop n l) at 1. rewrite Hd. by apply (chunks_concat n (take n l :: ls)).
Qed.

(** The bytes that [parse_shares] reads: a signature, the share keys and the
    encrypted keys. *)
Definition share_bytes (signature : bytes) (keys encrypted : list bytes) : bytes :=
  signature ++ concat keys ++ concat encrypted.

Section events.
Context `{EL : EthLib}.
Variable Known : bytes → Prop.
Hypothesis keccak_inj : ∀ x y, Known x → Known y → keccak256 x = keccak256 y → x = y.
Variable own : OperatorId.
Variable Exempt : ClusterId → bool.

(** The published database, and the abstract state of its memory. *)
Variable db : NetworkDatabase.
Variable a0 : Abs.
Abbreviation operator := (db_operator db) (only parsing).
Let ss0 : SingleState := ns_single (db_state db).

(** The state the queue of a transaction leads to. *)
Definition tx_abs (tx : Tx) : Abs := abs_applies (tx_updates tx) a0.
Definition tx_single (tx : Tx) : SingleState := single_applies (tx_updates tx) a0 ss0.

Record tx_inv (tx : Tx) : Prop := {
  ti_updates : updates_ok (tx_updates tx) a0;
  ti_synced : Synced Known operator own Exempt (tx_abs tx) (tx_single tx) (tx_sql tx);
}.

(** An operation that, if it succeeds, keeps the invariant and establishes [P]. *)
Definition keeps {A} (P : A → Tx → Prop) (o : outcome DatabaseError A) (tx' : Tx) : Prop :=
  match o with
  | Ok a => tx_inv tx' ∧ P a tx'
  | Err _ => True
  | Panic => False
  end.

(** A statement together with its queued update. *)
Lemma tx_inv_step tx sql u :
  tx_inv tx → update_ok u (tx_abs tx) →
  Synced Known operator own Exempt (abs_apply u (tx_abs tx)) (single_apply u (tx_abs tx) (tx_single tx)) sql →
  tx_inv (tx <| tx_sql := sql |> <| tx_updates := tx_updates tx ++ [u] |>).
Proof.
  intros [Hu _] Huk Hs. split.
  - by apply updates_ok_snoc.
  - change (Synced Known operator own Exempt (abs_applies (tx_updates tx ++ [u]) a0)
      (single_applies (tx_updates tx ++ [u]) a0 ss0) sql).
    by rewrite abs_applies_snoc, single_applies_snoc.
Qed.

Lemma tx_inv_sql tx sql :
  tx_inv tx → Synced Known operator own Exempt (tx_abs tx) (tx_single tx) sql → tx_inv (tx <| tx_sql := sql |>).
Proof. intros [Hu _] Hs. by split. Qed.

(** ** Metadata and operators *)

Lemma processed_block_keeps n tx :
  tx_inv tx → wp (processed_block_tx n) (keeps (λ _ tx', t_block_number (tx_sql tx') = n)) tx.
Proof.
  intros Hinv. apply wp_bind, wp_execute; [|done|by apply to_sql_bind_no_panic].
  intros sql (_ & _ & [= <-])%bind_ok. apply wp_push_update. split; [|done].
  apply (tx_inv_step tx _ (SetLastProcessedBlock n) Hinv); [done|].
  apply synced_block. by destruct Hinv.
Qed.

Lemma set_max_keeps n tx :
  tx_inv tx → wp (set_max_operator_id_seen_tx n) (keeps (λ _ _, True)) tx.
Proof.
  intros Hinv. apply wp_bind, wp_execute; [|done|by apply to_sql_bind_no_panic].
  intros sql (_ & _ & [= <-])%bind_ok. apply wp_push_update. split; [|done].
  apply (tx_inv_step tx _ (SetMaxOperatorIdSeen n) Hinv); [done|].
  apply synced_max. by destruct Hinv.
Qed.

Lemma operator_exists_keeps id tx :
  tx_inv tx →
  wp (operator_exists_tx id) (keeps (λ b tx', tx' = tx ∧
    (b = true ↔ ∃ r, t_operators (tx_sql tx) !! id = Some r ∧ or_removed r = false))) tx.
Proof.
  intros Hinv. do 2 apply wp_bind. apply wp_query. unfold GET_OPERATOR_STATUS, to_sql, ensure.
  destruct (_ <? _)%N; [|done]. cbn. destruct (t_operators (tx_sql tx) !! id) as [r|]; cbn.
  - destruct (or_removed r) eqn:Hr; cbn; (split; [done|]); (split; [done|]); split; try done.
    + intros (r' & [= <-] & ?). congruence.
    + intros _. by exists r.
  - split; [done|]. split; [done|]. split; [done|]. by intros (r' & ? & _).
Qed.

Lemma insert_skipped_keeps id tx :
  tx_inv tx → wp (insert_skipped_operator_add_tx id) (keeps (λ _ _, True)) tx.
Proof.
  intros Hinv. apply wp_execute; [|done|by apply to_sql_bind_no_panic].
  intros sql (_ & _ & [= <-])%bind_ok. split; [|done].
  apply tx_inv_sql; [done|]. apply synced_skipped. by destruct Hinv.
Qed.

Lemma delete_skipped_keeps id tx :
  tx_inv tx → wp (delete_skipped_operator_add_tx id) (keeps (λ _ _, True)) tx.
Proof.
  intros Hinv. unfold wp, delete_skipped_operator_add_tx, DELETE_SKIPPED_OPERATOR_ADD, to_sql, ensure.
  destruct (_ <? _)%N; [|done]. cbn. split; [|done].
  apply tx_inv_sql; [done|]. apply synced_skipped. by destruct Hinv.
Qed.

Lemma insert_operator_keeps op tx :
  tx_inv tx → key_matches_own operator own op →
  wp (insert_operator_tx db op) (keeps (λ _ _, True)) tx.
Proof.
  intros Hinv Hkey. apply wp_bind. eapply wp_mono; [by apply operator_exists_keeps|].
  intros [b|e|] tx'; [|done..]. intros [_ [-> _]]. destruct b; [done|].
  apply wp_bind, wp_execute; [|done|].
  2: { apply to_sql_bind_no_panic. by repeat case_decide. }
  intros sql (_ & _ & Hins)%bind_ok. revert Hins. case_decide as Hnone; [done|].
  case_decide as Hfree; [|done]. intros [= <-]. apply wp_push_update. split; [|done].
  apply (tx_inv_step tx _ (InsertOperator op (is_own_operator db op)) Hinv); [done|].
  apply synced_insert_operator; [by destruct Hinv|by apply eq_None_not_Some| |done].
  intros i r Hr Hk. assert (operators_with_key (encode_key (op_rsa_pubkey op)) (tx_sql tx) !! i = Some r) as Hl.
  { unfold operators_with_key. by apply map_lookup_filter_Some. }
  by rewrite Hfree, lookup_empty in Hl.
Qed.

Lemma delete_operator_keeps id tx :
  tx_inv tx → wp (delete_operator_tx id) (keeps (λ _ _, True)) tx.
Proof.
  intros Hinv. apply wp_bind. eapply wp_mono; [by apply operator_exists_keeps|].
  intros [b|e|] tx'; [|done..]. intros [_ [-> Hb]]. destruct b; [|done]. cbn [negb].
  destruct (proj1 Hb eq_refl) as (r & Hr & _).
  apply wp_bind, wp_attempt, wp_execute.
  - intros sql (_ & _ & Hdel)%bind_ok. revert Hdel. case_decide as Hin; [done|]. intros [= <-].
    apply wp_bind, wp_ret, wp_push_update. split; [|done].
    apply (tx_inv_step tx _ (DeleteOperator id) Hinv); [done|].
    apply synced_remove_operator; [by destruct Hinv| |].
    + intros i Hne. by rewrite lookup_delete_ne.
    + rewrite lookup_delete_eq. intros cid Hc. apply Hin, elem_of_map. by exists (cid, id).
  - intros e _. apply wp_bind, wp_execute; [|done|by apply to_sql_bind_no_panic].
    intros sql (_ & _ & [= <-])%bind_ok. apply wp_push_update. split; [|done].
    apply (tx_inv_step tx _ (DeleteOperator id) Hinv); [done|].
    apply synced_remove_operator; [by destruct Hinv| |].
    + intros i Hne. by rewrite lookup_alter_ne.
    + rewrite lookup_alter_eq, Hr. cbn. split; [done|]. by exists r.
  - apply to_sql_bind_no_panic. by case_decide.
Qed.

(** ** Owners and clusters *)

(** The nonce after one more registration of an owner. *)
Definition next_nonce (n : option N) : N := match n with Some n => n + 1 | None => 0 end.

Lemma bump_nonce_keeps o tx :
  tx_inv tx →
  wp (bump_and_get_nonce_tx o) (keeps (λ n tx',
    n = next_nonce (t_owners (tx_sql tx) !! o ≫= ow_nonce) ∧
    tx_sql tx' = tx_sql tx <| t_owners := <[o := mkOwnerRow (t_owners (tx_sql tx) !! o ≫= ow_fee_recipient)
                                                   (Some n)]> (t_owners (tx_sql tx)) |>)) tx.
Proof.
  intros Hinv. set (n := next_nonce (t_owners (tx_sql tx) !! o ≫= ow_nonce)).
  set (row := mkOwnerRow (t_owners (tx_sql tx) !! o ≫= ow_fee_recipient) (Some n)).
  assert (Hbump : BUMP_NONCE o (tx_sql tx) =
    Ok (tx_sql tx <| t_owners := <[o := row]> (t_owners (tx_sql tx)) |>)).
  { unfold BUMP_NONCE. subst row n. destruct (t_owners (tx_sql tx) !! o) as [r|]; [|done].
    cbn. by destruct (ow_nonce r). }
  apply wp_bind, wp_execute; [|done|by rewrite Hbump]. rewrite Hbump. intros sql [= <-].
  apply wp_bind, wp_query. unfold GET_NONCE. cbn. rewrite lookup_insert_eq. cbn.
  unfold nonce_of_sql. destruct (n <? 2 ^ 16)%N eqn:Hn; [|done].
  apply wp_bind, wp_push_update, wp_ret. split; [|done].
  apply (tx_inv_step tx _ (SetOwnerNonce o n) Hinv); [done|].
  apply synced_nonce; [by destruct Hinv|by apply N.ltb_lt|done|done].
Qed.

Lemma update_fee_keeps o fee tx :
  tx_inv tx → wp (update_fee_recipient_tx o fee) (keeps (λ _ _, True)) tx.
Proof.
  intros Hinv. apply wp_bind, wp_execute; [|done|done]. intros sql [= <-]. apply wp_push_update.
  split; [|done]. apply (tx_inv_step tx _ (UpdateFeeRecipient o fee) Hinv); [done|].
  apply synced_fee. by destruct Hinv.
Qed.

Lemma update_status_keeps cid b tx :
  tx_inv tx → wp (update_status_tx cid b) (keeps (λ _ _, True)) tx.
Proof.
  intros Hinv. apply wp_bind, wp_execute; [|done|done]. intros sql [= <-]. apply wp_push_update.
  split; [|done]. apply (tx_inv_step tx _ (UpdateClusterStatus cid b) Hinv); [done|].
  apply synced_status. by destruct Hinv.
Qed.

(** ** Validators *)

Lemma single_applies_id us a ss i : ss_id ss = Some i → ss_id (single_applies us a ss) = Some i.
Proof.
  revert a ss. induction us as [|u us IH]; intros a ss Hi; [done|]. cbn [single_applies].
  apply IH. destruct u; cbn; try done.
  - by rewrite bool_decide_false by by rewrite Hi.
  - destruct (a_validators a !! _); [|done]. by destruct (cluster_used _ _).
Qed.

(** The own id as the transaction sees it, for a registered operator. *)
Lemma own_id_spec tx tx' :
  tx_inv tx → t_operators (tx_sql tx') = t_operators (tx_sql tx) →
  wp (get_own_operator_id_tx db) (λ o tx'', tx'' = tx' ∧ ∃ own_id, o = Ok own_id ∧
    ∀ i r, t_operators (tx_sql tx) !! i = Some r → or_removed r = false →
      own_id = Some i ↔ ss_id (tx_single tx) = Some i) tx'.
Proof.
  intros Hinv Heq. pose proof (ti_synced _ Hinv) as [Hok _ _ Hss]. unfold get_own_operator_id_tx.
  destruct (get_own_id (db_state db)) as [j|] eqn:Hj.
  { apply wp_ret. split; [done|]. eexists. split; [done|]. intros i r _ _. unfold get_own_id in Hj.
    unfold tx_single. by rewrite (single_applies_id _ _ _ j). }
  pose proof (si_id _ _ _ _ Hss) as Hid. destruct (db_operator db) as [k|j] eqn:Hop.
  2: { apply wp_ret. split; [done|]. eexists. split; [done|]. intros i r _ _. by rewrite Hid. }
  apply wp_query. split; [done|]. eexists. split; [done|]. intros i r Hr Hrem.
  destruct Hid as (Hi1 & Hi2 & Hi3).
  assert (GET_OPERATOR_ID (encode_key k) (tx_sql tx') = GET_OPERATOR_ID (encode_key k) (tx_sql tx)) as ->.
  { unfold GET_OPERATOR_ID, operators_with_key. by rewrite Heq. }
  rewrite get_operator_id_spec by done. split.
  - intros (r' & Hr' & Hk & Hrem'). assert (i = own) as -> by by eapply Hi1. by eapply Hi2.
  - intros Hi. pose proof (si_own _ _ _ _ Hss i Hi) as ->. exists r. split; [done|].
    split; [|done]. by eapply Hi3.
Qed.

(** The statements of [insert_validator_tx] before the shares. *)
Lemma insert_validator_rows pk cid owner g sql sql1 sql2 sql3 shares sql4 :
  INSERT_CLUSTER cid owner sql = Ok sql1 →
  INSERT_VALIDATOR pk cid None g sql1 = Ok sql2 →
  INSERT_OWNER owner owner sql2 = Ok sql3 →
  shares_inserted pk cid shares sql3 sql4 →
  t_operators sql3 = t_operators sql ∧ inserted pk cid owner g shares sql sql4.
Proof.
  intros H1 H2 H3 [Hrest Hm Hs]. revert H2. unfold INSERT_VALIDATOR. cbn [mbind outcome_bind].
  case_decide; [done|]. case_decide; [|done]. intros [= <-].
  assert (sql1 = sql <| t_clusters := match t_clusters sql !! cid with
    | Some _ => t_clusters sql | None => <[cid := mkClusterRow owner false]> (t_clusters sql) end |>) as ->.
  { unfold INSERT_CLUSTER in H1. destruct (t_clusters sql !! cid); injection H1 as <-; by destruct sql. }
  unfold INSERT_OWNER in H3. cbn in H3.
  destruct sql4 as [s1 s2 s3 s4 s5 s6 s7 s8 s9]. cbn in *.
  destruct (t_owners sql !! owner) as [r|] eqn:Hr; injection H3 as <-; cbn in *;
    injection Hrest as -> -> -> -> -> -> ->; (split; [done|]); split; cbn; try done.
  - intros o. destruct (decide (o = owner)) as [->|Hne]; [by rewrite lookup_insert_eq, Hr|].
    by rewrite lookup_insert_ne.
  - intros o. unfold GET_OWNER_FEE_RECIPIENT. cbn.
    destruct (decide (o = owner)) as [->|Hne]; [by rewrite lookup_insert_eq, Hr|].
    by rewrite lookup_insert_ne.
Qed.

Lemma insert_validator_keeps pk cid owner ids shares g tx :
  tx_inv tx → new_validator_ok Known pk cid owner ids shares (tx_sql tx) →
  (∀ id, id ∈ ids → ∃ r, t_operators (tx_sql tx) !! id = Some r ∧ or_removed r = false) →
  (∀ r, t_clusters (tx_sql tx) !! cid = Some r → cr_liquidated r = true → Exempt cid = true) →
  let cluster := mkCluster cid owner (default owner (GET_OWNER_FEE_RECIPIENT owner (tx_sql tx))) false ids in
  wp (insert_validator_tx db cluster (mkValidatorMetadata pk cid None g) shares)
    (keeps (λ _ tx', inserted pk cid owner g shares (tx_sql tx) (tx_sql tx'))) tx.
Proof.
  intros Hinv Hnew Hact Hstatus cluster. unfold insert_validator_tx, cluster.
  cbn [cl_cluster_id cl_owner md_public_key md_index md_graffiti].
  apply wp_bind, wp_execute; [|done|unfold INSERT_CLUSTER; by destruct (t_clusters _ !! _)]. intros sql1 H1.
  apply wp_bind, wp_execute; [|done|unfold INSERT_VALIDATOR; cbn; by repeat case_decide].
  intros sql2 H2.
  apply wp_bind, wp_execute; [|done|unfold INSERT_OWNER; by destruct (t_owners _ !! _)]. intros sql3 H3.
  set (tx3 := tx <| tx_sql := sql3 |>).
  assert (Hop3 : t_operators sql3 = t_operators (tx_sql tx)).
  { by eapply insert_validator_rows, shares_inserted_nil. }
  apply wp_bind. eapply wp_mono; [exact (own_id_spec tx tx3 Hinv Hop3)|].
  intros o tx' (-> & own_id & -> & Hown). apply wp_bind.
  eapply wp_mono; [apply (wp_insert_shares pk cid shares)|].
  { apply Forall_forall. intros s Hs. by apply (nv_shares _ _ _ _ _ _ _ Hnew). }
  intros [[]|e|] tx4; [|done..]. intros [Hsi Hu]. apply wp_push_update.
  destruct (insert_validator_rows pk cid owner g _ _ _ _ _ _ H1 H2 H3 Hsi) as [_ Hins].
  split; [|done]. destruct tx4 as [sql4 us4]. cbn [tx_updates tx_sql] in Hu, Hsi, Hins. subst us4.
  pose proof (ti_synced _ Hinv) as Hsync.
  apply (tx_inv_step tx sql4 (InsertValidator cluster (mkValidatorMetadata pk cid None g)
    (find_own_share own_id shares)) Hinv).
  - by eapply (insert_validator_update_ok Known keccak_inj operator own Exempt); [apply Hsync|..].
  - eapply (synced_insert_validator Known keccak_inj operator own Exempt); [by apply Hsync|done..| |exact Hstatus].
    intros i Hi. destruct (Hact i Hi) as (r & Hr & Hrem). by eapply Hown.
Qed.

Lemma delete_validator_keeps pk row tx :
  tx_inv tx → t_validators (tx_sql tx) !! pk = Some row →
  wp (delete_validator_tx pk) (keeps (λ _ tx', t_validators (tx_sql tx') = delete pk (t_validators (tx_sql tx)))) tx.
Proof.
  intros Hinv Hrow. pose proof (ti_synced _ Hinv) as Hsync.
  destruct (delete_validator_deleted Known (tx_sql tx) pk row) as (sql' & Hdel & Hd); [by destruct Hsync|done|].
  apply wp_bind, wp_execute; [|done|by rewrite Hdel]. rewrite Hdel. intros sql [= <-].
  apply wp_push_update. split; [|by destruct Hd].
  apply (tx_inv_step tx _ (DeleteValidator pk) Hinv).
  - by eapply delete_validator_update_ok.
  - by eapply synced_delete_validator.
Qed.

(** One share of [parse_shares]. *)
Definition share_fields (cid : ClusterId) (pk : PublicKeyBytes) (key encrypted : bytes)
    (id : OperatorId) (s : Share) : Prop :=
  pk_deserialize key = Some (sh_share_pubkey s) ∧ length encrypted = 256 ∧
  s = mkShare pk id cid (sh_share_pubkey s) encrypted.

Lemma parse_shares_zip cid pk keys encrypted ids shares :
  length keys = length ids → length encrypted = length ids →
  Forall2 (λ x s, share_fields cid pk x.1.1 x.1.2 x.2 s) (zip (zip keys encrypted) ids) shares ↔
  sh_operator_id <$> shares = ids ∧ sh_encrypted_private_key <$> shares = encrypted ∧
  Forall (λ s, sh_cluster_id s = cid ∧ sh_validator_pubkey s = pk ∧
               length (sh_encrypted_private_key s) = 256) shares ∧
  Forall2 (λ k s, pk_deserialize k = Some (sh_share_pubkey s)) keys shares.
Proof.
  revert encrypted ids shares.
  induction keys as [|k keys IH]; intros [|e encrypted] [|i ids] shares Hk He; try done.
  { cbn. split; [inversion 1; subst; by split_and!|]. intros (_ & _ & _ & H). by inversion H. }
  cbn [length] in Hk, He. injection Hk as Hk. injection He as He. cbn [zip zip_with]. split.
  - inversion 1 as [|? s ? shares' Hs Hss]; subst. apply (IH _ _ _ Hk He) in Hss as (Hi & Henc & Hf & Hks).
    destruct Hs as (Hd & Hl & Hs). cbn in Hd, Hl, Hs. rewrite !fmap_cons, Hi, Henc. split_and!.
    + by rewrite Hs.
    + by rewrite Hs.
    + constructor; [|done]. rewrite Hs. by split_and!.
    + by constructor.
  - intros (Hi & Henc & Hf & Hks). destruct shares as [|s shares]; [by inversion Hks|].
    rewrite fmap_cons in Hi. rewrite fmap_cons in Henc. injection Hi as Hi Hi'. injection Henc as Henc Henc'.
    apply Forall_cons in Hf as [(Hc & Hp & Hl) Hf].
    inversion Hks as [|? ? ? ? Hd Hks']; subst. constructor; [|by apply IH].
    split_and!; [done..|]. cbn. by destruct s.
Qed.

(** What the bytes of a registration must be for it to parse, and what they give. *)
Lemma parse_shares_spec data ids cid pk signature shares :
  parse_shares data ids cid pk = Ok (signature, shares) ↔
  length signature = 96 ∧ sh_operator_id <$> shares = ids ∧
  Forall (λ s, sh_cluster_id s = cid ∧ sh_validator_pubkey s = pk ∧
               length (sh_encrypted_private_key s) = 256) shares ∧
  ∃ keys, Forall (λ k, length k = 48) keys ∧
    data = share_bytes signature keys (sh_encrypted_private_key <$> shares) ∧
    Forall2 (λ k s, pk_deserialize k = Some (sh_share_pubkey s)) keys shares.
Proof.
  assert (Hfields : ∀ keys encrypted out,
    try_map (λ x : (bytes * bytes) * OperatorId,
        let '((public, encrypted), operator_id) := x in
        share_pubkey ← ok_or (pk_deserialize public) tt;
        _ ← ensure (bool_decide (length encrypted = 256)) tt;
        Ok (mkShare pk operator_id cid share_pubkey encrypted))
      (zip (zip keys encrypted) ids) = Ok out ↔
    Forall2 (λ x s, share_fields cid pk x.1.1 x.1.2 x.2 s) (zip (zip keys encrypted) ids) out).
  { intros keys encrypted out. rewrite try_map_ok.
    match goal with |- Forall2 ?P _ _ ↔ Forall2 ?R _ _ => assert (Hpt : ∀ x s, P x s ↔ R x s) end.
    2: { split; intros H; (eapply Forall2_impl; [exact H|]); intros x s; apply Hpt. }
    intros [[k e] i] s. unfold share_fields. cbn. rewrite bind_ok. setoid_rewrite bind_ok. setoid_rewrite ok_or_ok.
    setoid_rewrite ensure_ok. setoid_rewrite bool_decide_eq_true. split.
    - by intros (k' & Hk & [] & Hl & [= <-]).
    - intros (Hk & Hl & Hs). exists (sh_share_pubkey s). split; [done|]. exists tt. split; [done|]. by rewrite <- Hs. }
  unfold parse_shares, BLS_SIGNATURE_LENGTH, BLS_PUBLIC_KEY_LENGTH, ENCRYPTED_KEY_LENGTH.
  set (n := length ids). cbn zeta. split.
  - case_bool_decide as Hlen; [cbn [negb]|done].
    destruct (chunks_exact 48 n (drop 96 (take (48 * n + 96) data))) as (keys & Hkeys & Hnk & Hfk & ->);
      [lia|rewrite length_drop, length_take; lia|].
    destruct (chunks_exact 256 n (drop (48 * n + 96) data)) as (encs & Hencs & Hne & Hfe & ->);
      [lia|rewrite length_drop; lia|].
    intros (l & Hl & [= <- <-])%bind_ok. apply Hfields, parse_shares_zip in Hl as (Hi & He & Hf & Hk); [|done..].
    split_and!; [rewrite length_take; lia|done..|]. exists keys. split_and!; [done| |done].
    unfold share_bytes. rewrite He, <- Hkeys, <- Hencs, app_assoc.
    assert (take 96 data = take 96 (take (48 * n + 96) data)) as ->
      by (rewrite take_take; f_equal; lia).
    by rewrite !take_drop.
  - intros (Hsig & Hi & Hf & keys & Hfk & -> & Hk). pose proof (Forall2_length _ _ _ Hk) as Hlen.
    assert (Hn : length shares = n) by (subst n; by rewrite <- Hi, length_fmap).
    assert (Hfe : Forall (λ c, length c = 256) (sh_encrypted_private_key <$> shares)).
    { apply Forall_fmap. eapply Forall_impl; [exact Hf|]. by intros s (_ & _ & ?). }
    assert (Hlk := length_concat_le 48 keys ltac:(lia) Hfk).
    assert (Hle := length_concat_le 256 _ ltac:(lia) Hfe). rewrite length_fmap in Hle.
    unfold share_bytes. rewrite bool_decide_true by (rewrite !length_app; lia). cbn [negb].
    rewrite (app_assoc signature), (take_app_length' _ _ (48 * n + 96)) by (rewrite length_app; lia).
    rewrite (drop_app_length' _ _ (48 * n + 96)) by (rewrite length_app; lia).
    rewrite drop_app_length', <- app_assoc, take_app_length' by lia.
    rewrite !chunks_concat by (done || lia). apply bind_ok. exists shares. split; [|done].
    apply Hfields, parse_shares_zip; [lia|rewrite length_fmap; lia|done].
Qed.

(** ** The handlers *)

(** What a handler leaves behind: the invariant, unless the block is aborted. *)
Definition handled {A} (o : outcome ExecutionError A) (ev : Ev) : Prop :=
  match o with
  | Ok _ => tx_inv (ev_tx ev)
  | Err e => log_disposition e = AbortBatch ∨ tx_inv (ev_tx ev)
  | Panic => False
  end.

Lemma wp_db_call {A} (m : action Tx DatabaseError A) P (Q : outcome ExecutionError A → Ev → Prop) ev :
  wp m (keeps P) (ev_tx ev) →
  (∀ a tx', tx_inv tx' → P a tx' → Q (Ok a) (ev <| ev_tx := tx' |>)) →
  (∀ tx', Q (Err DatabaseFailure) (ev <| ev_tx := tx' |>)) →
  wp (db_call m) Q ev.
Proof.
  unfold wp, db_call. intros Hm Hok Herr. destruct (m (ev_tx ev)) as [[a|e|] tx']; cbn in *; [|done..].
  destruct Hm. by apply Hok.
Qed.

(** A query that cannot fail leaves the state as it is. *)
Lemma wp_db_query {A} (f : Sql → A) (Q : outcome ExecutionError A → Ev → Prop) ev :
  Q (Ok (f (tx_sql (ev_tx ev)))) ev → wp (db_call (query (λ sql, Ok (f sql)))) Q ev.
Proof. unfold wp, db_call. cbn. by destruct ev as [[] ?]. Qed.

Lemma wp_lift_ok_or {A} (o : option A) (e : ExecutionError) (Q : outcome ExecutionError A → Ev → Prop) ev :
  (∀ a, o = Some a → Q (Ok a) ev) → (o = None → Q (Err e) ev) → wp (lift (ok_or o e)) Q ev.
Proof. unfold wp. intros H1 H2. destruct o; cbn; auto. Qed.

Lemma operator_added_handled e ev :
  tx_inv (ev_tx ev) →
  (∀ op e', e = Some e' → parse_operator_public_key (oa_publicKey e') (oa_operatorId e') (oa_owner e') = Ok op →
     key_matches_own operator own op) →
  wp (process_operator_added db e) handled ev.
Proof.
  intros Hinv Hkey. apply wp_bind, wp_lift_ok_or; [|by right]. intros e' ->.
  apply wp_bind. eapply wp_db_call; [by apply operator_exists_keeps| |by left].
  intros b tx' Hinv' _. destruct b; [by right|].
  apply wp_bind. eapply (wp_db_call _ (λ _ _, True)); [done| |by left].
  intros max tx1 Hinv1 _. apply wp_bind, wp_lift.
  destruct (match max with Some _ => _ | None => _ end) as [[]|err|] eqn:Hmax.
  2: { right. done. }
  2: { destruct max; [|done]. unfold ensure in Hmax. by destruct (_ =? _)%N. }
  apply wp_bind. eapply wp_db_call; [by apply set_max_keeps| |by left]. intros _ tx2 Hinv2 _.
  assert (Hskip : wp (_ ← db_call (insert_skipped_operator_add_tx (oa_operatorId e')); throw InvalidEvent)
    (handled (A:=unit)) (mkEv tx2 (ev_actions ev))).
  { apply wp_bind. eapply wp_db_call; [by apply insert_skipped_keeps| |by left].
    intros _ tx3 Hinv3 _. by right. }
  destruct (parse_operator_public_key _ _ _) as [op|err|] eqn:Hop; [|exact Hskip..].
  apply wp_bind, wp_db_query. destruct (GET_ANY_OPERATOR_ID _ _) as [id|]; [exact Hskip|].
  eapply wp_db_call; [eapply insert_operator_keeps; [done|by eapply Hkey]|done|by left].
Qed.

Lemma operator_removed_handled e ev :
  tx_inv (ev_tx ev) → wp (process_operator_removed e) handled ev.
Proof.
  intros Hinv. apply wp_bind, wp_lift_ok_or; [|by right]. intros id ->.
  apply wp_bind. eapply wp_db_call; [by apply delete_skipped_keeps| |by left].
  intros b tx' Hinv' _. destruct b; [by right|].
  eapply wp_db_call; [by apply delete_operator_keeps|done|by left].
Qed.

Lemma cluster_status_handled b e ev :
  tx_inv (ev_tx ev) → wp (process_cluster_status b e) handled ev.
Proof.
  intros Hinv. apply wp_bind, wp_lift_ok_or; [|by right]. intros e' ->.
  eapply wp_db_call; [by apply update_status_keeps|done|by left].
Qed.

Lemma fee_recipient_handled e ev :
  tx_inv (ev_tx ev) → wp (process_fee_recipient_updated e) handled ev.
Proof.
  intros Hinv. apply wp_bind, wp_lift_ok_or; [|by right]. intros e' ->.
  eapply wp_db_call; [by apply update_fee_keeps|done|by left].
Qed.

Lemma validator_removed_handled e ev :
  tx_inv (ev_tx ev) → wp (process_validator_removed e) handled ev.
Proof.
  intros Hinv. apply wp_bind, wp_lift_ok_or; [|by right]. intros e' ->.
  apply wp_bind, wp_lift_ok_or; [|by right]. intros pk Hpk.
  apply wp_bind, wp_db_query. apply wp_bind, wp_lift_ok_or; [|by right]. intros md Hmd.
  apply wp_bind, wp_db_query. apply wp_bind, wp_lift_ok_or; [|by right]. intros c Hc.
  apply wp_bind, wp_ensure; intros _; [|by right]. apply wp_bind, wp_ensure; intros _; [|by right].
  unfold GET_VALIDATOR in Hmd. destruct (t_validators _ !! pk) as [row|] eqn:Hrow; [|done].
  eapply wp_db_call; [by eapply delete_validator_keeps|done|by left].
Qed.

(** Checking the operators of an event reads the tables only. *)
Lemma validate_operators_spec ids ev :
  tx_inv (ev_tx ev) →
  wp (validate_operators ids) (λ o ev',
    match o with
    | Ok _ => ev' = ev ∧ ids ≠ [] ∧ is_valid_committee_size (length ids) = true ∧ NoDup ids ∧
        ∀ id, id ∈ ids → ∃ r, t_operators (tx_sql (ev_tx ev)) !! id = Some r ∧ or_removed r = false
    | Err e => log_disposition e = AbortBatch ∨ ev' = ev
    | Panic => False
    end) ev.
Proof.
  intros Hinv. unfold validate_operators.
  apply wp_bind, wp_ensure; intros _; [|by right].
  apply wp_bind, wp_ensure; intros Hne; [|by right].
  apply wp_bind, wp_ensure; intros Hsize; [|by right].
  apply wp_bind, wp_ensure; intros Hnd; [|by right]. apply bool_decide_eq_true in Hnd.
  assert (Hnil : ids ≠ []).
  { apply negb_true_iff, bool_decide_eq_false in Hne. by destruct ids. }
  assert (Hloop : wp (for_each (λ id, present ← db_call (operator_exists_tx id);
      lift (ensure present MissingCommittedState)) ids) (λ o ev',
    match o with
    | Ok _ => ev' = ev ∧ ∀ id, id ∈ ids →
        ∃ r, t_operators (tx_sql (ev_tx ev)) !! id = Some r ∧ or_removed r = false
    | Err e => log_disposition e = AbortBatch ∨ ev' = ev
    | Panic => False
    end) ev).
  { clear Hnil Hne Hsize Hnd. induction ids as [|id ids IH]; cbn [for_each].
    { apply wp_ret. split; [done|]. by intros id ?%elem_of_nil. }
    apply wp_bind, wp_bind. eapply wp_db_call; [by apply operator_exists_keeps| |by left].
    intros b tx' _ [-> Hb]. apply wp_ensure; intros ->; [|right; by destruct ev].
    destruct ev as [tx acts]. eapply wp_mono; [apply IH|]. intros [u|e|] ev'; [|done..].
    intros [-> Hids]. split; [done|]. intros i [->|Hi]%elem_of_cons; [by apply Hb|by apply Hids]. }
  eapply wp_mono; [exact Hloop|]. intros [u|e|] ev'; [|done..]. by intros [-> ?].
Qed.

Lemma validator_exited_handled mode live ts e ev :
  tx_inv (ev_tx ev) → wp (process_validator_exited mode db live ts e) handled ev.
Proof.
  intros Hinv. unfold process_validator_exited. destruct mode as [reg|]; [|done].
  apply wp_bind, wp_lift_ok_or; [|by right]. intros e' ->.
  apply wp_bind, wp_lift_ok_or; [|by right]. intros pk _.
  apply wp_bind. unfold verify_validator_owner.
  apply wp_bind, wp_db_query. apply wp_bind, wp_lift_ok_or; [|by right]. intros c _.
  apply wp_bind, wp_ensure; intros _; [|by right]. apply wp_bind, wp_ensure; intros _; [|by right].
  apply wp_ensure; intros _; [|by right].
  apply wp_bind. eapply wp_mono; [by apply validate_operators_spec|].
  intros [[]|err|] ev'; [| |done].
  2: { intros [?| ->]; [by left|by right]. }
  intros [-> _]. apply wp_bind, wp_lift_ok_or; [|by right]. intros t _.
  apply wp_bind. unfold get_validator_index. apply wp_bind, wp_db_query.
  apply wp_bind, wp_lift_ok_or; [|by right]. intros md _. apply wp_ret.
  destruct (md_index md) as [i|]; [|done]. apply wp_bind.
  eapply (wp_db_call _ (λ _ tx', tx' = ev_tx ev)).
  { apply wp_bind. eapply wp_mono; [by apply (own_id_spec (ev_tx ev) (ev_tx ev))|].
    intros o tx' (-> & own_id & -> & _). destruct own_id as [j|]; [by apply wp_query|by apply wp_ret]. }
  - intros b tx' Hinv' _. by destruct live.
  - by left.
Qed.

(** *** Registrations *)

Definition owner_nonce (sql : Sql) (o : Address) : option N := t_owners sql !! o ≫= ow_nonce.

(** The tables once the nonce of the owner is counted. *)
Definition nonce_bumped (o : Address) (sql : Sql) : Sql :=
  sql <| t_owners := <[o := mkOwnerRow (t_owners sql !! o ≫= ow_fee_recipient)
                             (Some (next_nonce (owner_nonce sql o)))]> (t_owners sql) |>.

(** Everything a registration must satisfy, and what it leaves in the tables. *)
Record registered (reg : PublicKeyBytes → bool) (e : ValidatorAdded) (pk : PublicKeyBytes)
    (sql sql' : Sql) : Prop := {
  re_pubkey : pk_deserialize (va_publicKey e) = Some pk;
  re_size : is_valid_committee_size (length (va_operatorIds e)) = true;
  re_distinct : NoDup (va_operatorIds e);
  re_operators : ∀ id, id ∈ va_operatorIds e →
    ∃ r, t_operators sql !! id = Some r ∧ or_removed r = false;
  re_new : t_validators sql !! pk = None;
  re_slashing : reg pk = true;
  re_shares : ∃ signature shares,
    let cid := compute_cluster_id (va_owner e) (va_operatorIds e) in
    parse_shares (va_shares e) (va_operatorIds e) cid pk = Ok (signature, shares) ∧
    verify_signature signature (next_nonce (owner_nonce sql (va_owner e))) (va_owner e) pk = true ∧
    validate_share_public_keys pk
      ((λ s, (sh_operator_id s, sh_share_pubkey s)) <$> shares) = Ok tt ∧
    inserted pk cid (va_owner e) default_graffiti shares (nonce_bumped (va_owner e) sql) sql';
}.

(** What the contract guarantees of a registration. *)
Definition registration_ok (e : ValidatorAdded) : Prop :=
  (va_owner e < 2 ^ 160)%N ∧ Forall (λ id, id < 2 ^ 64)%N (va_operatorIds e) ∧
  Known (cluster_id_preimage (va_owner e) (va_operatorIds e)).

(** The registration goes to a cluster that is not liquidated in the tables, or exempt. *)
Definition registration_orderly (e : ValidatorAdded) (sql : Sql) : bool :=
  let cid := compute_cluster_id (va_owner e) (va_operatorIds e) in
  match t_clusters sql !! cid with
  | Some r => negb (cr_liquidated r) || Exempt cid
  | None => true
  end.

(** A registration takes effect completely, or counts the nonce and nothing else. *)
Definition registration_done reg (e : ValidatorAdded) (ev : Ev)
    (o : outcome ExecutionError unit) (ev' : Ev) : Prop :=
  let sql := tx_sql (ev_tx ev) in
  match o with
  | Ok _ => tx_inv (ev_tx ev') ∧ ∃ pk, registered reg e pk sql (tx_sql (ev_tx ev')) ∧
      ev_actions ev' = ev_actions ev ++ [IndexSync pk]
  | Err err => log_disposition err = AbortBatch ∨
      tx_inv (ev_tx ev') ∧ tx_sql (ev_tx ev') = nonce_bumped (va_owner e) sql ∧
      ev_actions ev' = ev_actions ev
  | Panic => False
  end.

Lemma conflict_spec owner pk cid ev :
  wp (validate_validator_added_conflict owner pk cid) (λ o ev', ev' = ev ∧
    match o with
    | Ok _ => t_validators (tx_sql (ev_tx ev)) !! pk = None
    | Err _ => True
    | Panic => False
    end) ev.
Proof.
  apply wp_bind, wp_db_query. unfold GET_VALIDATOR. destruct (t_validators _ !! pk) as [r|]; cbn; [|done].
  apply wp_bind, wp_db_query. apply wp_bind, wp_lift_ok_or; [|done]. intros c _.
  apply wp_bind, wp_ensure; intros _; [|done]. by apply wp_bind, wp_ensure; intros _.
Qed.

Lemma try_map_no_panic {E A B} (f : A → outcome E B) l :
  (∀ x, f x ≠ Panic) → try_map f l ≠ Panic.
Proof.
  intros Hf. induction l as [|x l IH]; [done|]. cbn [try_map]. specialize (Hf x).
  destruct (f x); [|done..]. cbn. by destruct (try_map f l).
Qed.

Lemma validate_shares_no_panic pk l : validate_share_public_keys pk l ≠ Panic.
Proof.
  unfold validate_share_public_keys. destruct (is_valid_committee_size _); [|done]. cbn [negb].
  pose proof (try_map_no_panic (λ share : OperatorId * PublicKeyBytes,
    if (share.1 =? 0)%N then Err (InvalidOperatorId share.1) else Ok share) l) as Hp.
  destruct (try_map _ l); [|done|].
  - cbn. by destruct (shares_interpolate _ _ _).
  - exfalso. apply Hp; [|done]. intros x. by destruct (_ =? _)%N.
Qed.

Lemma parse_shares_no_panic data ids cid pk : parse_shares data ids cid pk ≠ Panic.
Proof.
  unfold parse_shares. case_bool_decide; [|done]. cbn [negb]. cbv zeta.
  match goal with |- context [try_map ?f ?l] => pose proof (try_map_no_panic f l) as Hp;
    destruct (try_map f l); [done|done|exfalso; apply Hp; [|done]] end.
  intros [[k e] i]. destruct (pk_deserialize k); [|done]. cbn. unfold ensure. by case_bool_decide.
Qed.

Lemma nonce_bumped_fee o sql o' :
  GET_OWNER_FEE_RECIPIENT o' (nonce_bumped o sql) = GET_OWNER_FEE_RECIPIENT o' sql.
Proof.
  unfold GET_OWNER_FEE_RECIPIENT, nonce_bumped. cbn. destruct (decide (o' = o)) as [->|Hne].
  - by rewrite lookup_insert_eq.
  - by rewrite lookup_insert_ne.
Qed.

Lemma validator_added_done reg e ev :
  tx_inv (ev_tx ev) → registration_ok e → registration_orderly e (tx_sql (ev_tx ev)) = true →
  wp (process_validator_added (Node reg) db (Some e)) (registration_done reg e ev) ev.
Proof.
  intros Hinv (Ho & Hids & Hknown) Hord. unfold registration_done. set (sql := tx_sql (ev_tx ev)).
  unfold process_validator_added. apply wp_bind, wp_ret, wp_bind.
  eapply wp_db_call; [by apply bump_nonce_keeps| |by left].
  intros nonce tx1 Hinv1 [Hn Htx1]. rewrite Hn in Htx1. change (tx_sql tx1 = nonce_bumped (va_owner e) sql) in Htx1.
  set (ev1 := ev <| ev_tx := tx1 |>).
  assert (Hskip : ∀ err : ExecutionError, log_disposition err = AbortBatch ∨
    tx_inv (ev_tx ev1) ∧ tx_sql (ev_tx ev1) = nonce_bumped (va_owner e) sql ∧ ev_actions ev1 = ev_actions ev)
    by (intros err; by right).
  apply wp_bind, wp_lift_ok_or; [|by intros _]. intros pk Hpk.
  apply wp_bind. eapply wp_mono; [by apply (validate_operators_spec (va_operatorIds e) ev1)|].
  intros [[]|err|] ev'; [| |done].
  2: { intros [?| ->]; [by left|done]. }
  intros (-> & Hne & Hsize & Hnd & Hops). apply wp_bind, wp_lift.
  pose proof (parse_shares_no_panic (va_shares e) (va_operatorIds e)
    (compute_cluster_id (va_owner e) (va_operatorIds e)) pk) as Hnp.
  destruct (parse_shares _ _ _ _) as [[signature shares]|err|] eqn:Hparse; [|exact (Hskip _)|done].
  cbn [map_err]. apply wp_bind, wp_ensure; intros Hsig; [|done]. apply wp_bind, wp_lift.
  pose proof (validate_shares_no_panic pk ((λ s, (sh_operator_id s, sh_share_pubkey s)) <$> shares)) as Hnp'.
  destruct (validate_share_public_keys _ _) as [[]|err|] eqn:Hvalid; [|exact (Hskip _)|done]. cbn [map_err].
  apply wp_bind. eapply wp_mono; [apply conflict_spec|]. intros [[]|err|] ev' [-> Hfree]; [|exact (Hskip _)|done].
  apply wp_bind, wp_attempt, wp_db_query.
  apply wp_bind, wp_ensure; intros Hreg; [|by left].
  apply wp_bind.
  assert (Hnew : new_validator_ok Known pk (compute_cluster_id (va_owner e) (va_operatorIds e)) (va_owner e)
    (va_operatorIds e) shares (tx_sql tx1)).
  { apply parse_shares_spec in Hparse as (_ & Hi & Hf & _). split; try done.
    - intros id Hid. destruct (Hops id Hid) as (r & Hr & _). by exists r.
    - intros s Hs. rewrite Forall_forall in Hf. by destruct (Hf s Hs) as (? & ? & _). }
  assert (Hstatus : ∀ r, t_clusters (tx_sql tx1) !! compute_cluster_id (va_owner e) (va_operatorIds e) = Some r →
    cr_liquidated r = true → Exempt (compute_cluster_id (va_owner e) (va_operatorIds e)) = true).
  { rewrite Htx1. intros r Hr Hl. unfold registration_orderly in Hord.
    change (t_clusters (tx_sql (ev_tx ev)) !! compute_cluster_id (va_owner e) (va_operatorIds e) = Some r) in Hr.
    by rewrite Hr, Hl in Hord. }
  eapply wp_db_call; [by apply insert_validator_keeps| |by left].
  intros u tx2 Hinv2 Hins. apply wp_modify. split; [done|]. exists pk. split; [|done].
  cbn in Hops, Hfree. change (inserted pk (compute_cluster_id (va_owner e) (va_operatorIds e)) (va_owner e)
    default_graffiti shares (tx_sql tx1) (tx_sql tx2)) in Hins. rewrite Htx1 in Hops, Hfree, Hins. split; try done.
  exists signature, shares. split_and!; [done| |done|done]. rewrite Hn in Hsig. exact Hsig.
Qed.

(** *** All events *)

(** What the contract guarantees of a log: ids and addresses have their width, and our
    key is registered under our id only. *)
Definition log_ok (log : Log) : Prop :=
  match log_event log with
  | LogOperatorAdded (Some e) => ∀ op,
      parse_operator_public_key (oa_publicKey e) (oa_operatorId e) (oa_owner e) = Ok op →
      key_matches_own operator own op
  | LogValidatorAdded (Some e) => registration_ok e
  | _ => True
  end.

(** No registration goes to a liquidated cluster that is not exempt. *)
Definition log_orderly (log : Log) (sql : Sql) : bool :=
  match log_event log with
  | LogValidatorAdded (Some e) => registration_orderly e sql
  | _ => true
  end.

(** The same for the logs of a block, each against the tables it finds. *)
Fixpoint logs_orderly mode live (logs : list Log) (ev : Ev) : bool :=
  match logs with
  | [] => true
  | log :: logs =>
      log_orderly log (tx_sql (ev_tx ev)) &&
      match process_or_skip mode db live log ev with
      | (Ok _, ev') => logs_orderly mode live logs ev'
      | _ => true
      end
  end.

Lemma logs_orderly_exempt mode live logs ev : (∀ cid, Exempt cid = true) → logs_orderly mode live logs ev = true.
Proof.
  intros He. revert ev. induction logs as [|log logs IH]; intros ev; [done|]. cbn [logs_orderly].
  apply andb_true_iff. split.
  - unfold log_orderly, registration_orderly. destruct (log_event log) as [| | | | | | | | |]; try done.
    destruct e as [e|]; [|done]. destruct (t_clusters _ !! _); [|done]. by rewrite He, orb_true_r.
  - by destruct (process_or_skip mode db live log ev) as [[] ?].
Qed.

Lemma validator_added_handled mode e ev :
  tx_inv (ev_tx ev) → (∀ e', e = Some e' → registration_ok e' ∧ registration_orderly e' (tx_sql (ev_tx ev)) = true) →
  wp (process_validator_added mode db e) handled ev.
Proof.
  intros Hinv He. destruct e as [e|]; [|by right]. destruct mode as [reg|].
  - eapply wp_mono; [apply validator_added_done; [done|by apply He..]|].
    intros [u|err|] ev'; [by intros [? _]| |done]. intros [?|[? _]]; [by left|by right].
  - apply wp_bind, wp_ret, wp_bind. by eapply wp_db_call; [by apply bump_nonce_keeps|..|by left].
Qed.

Lemma process_log_handled mode live log ev :
  tx_inv (ev_tx ev) → log_ok log → log_orderly log (tx_sql (ev_tx ev)) = true →
  wp (process_log mode db live log) handled ev.
Proof.
  intros Hinv Hlog Hord. unfold process_log. unfold log_ok in Hlog. unfold log_orderly in Hord. destruct (log_event log); try done.
  - apply operator_added_handled; [done|]. intros op e' ->. apply Hlog.
  - by apply operator_removed_handled.
  - apply validator_added_handled; [done|]. by intros e' ->.
  - by apply validator_removed_handled.
  - by apply cluster_status_handled.
  - by apply cluster_status_handled.
  - by apply fee_recipient_handled.
  - by apply validator_exited_handled.
Qed.

Lemma process_or_skip_handled mode live log ev :
  tx_inv (ev_tx ev) → log_ok log → log_orderly log (tx_sql (ev_tx ev)) = true →
  wp (process_or_skip mode db live log) (λ o ev',
    match o with Ok _ => tx_inv (ev_tx ev') | Err _ => True | Panic => False end) ev.
Proof.
  intros Hinv Hlog Hord. pose proof (process_log_handled mode live log ev Hinv Hlog Hord) as Hh.
  unfold wp, process_or_skip in *. destruct (process_log mode db live log ev) as [[u|e|] ev']; [done| |done].
  cbn in Hh. destruct Hh as [Ha|Hi].
  - by rewrite Ha.
  - by destruct (log_disposition e).
Qed.

Lemma process_block_handled mode live n logs ev :
  tx_inv (ev_tx ev) → Forall log_ok logs → logs_orderly mode live logs ev = true →
  wp (process_block_tx mode db live n logs) (λ o ev',
    match o with
    | Ok _ => tx_inv (ev_tx ev') ∧ t_block_number (tx_sql (ev_tx ev')) = n
    | Err _ => True
    | Panic => False
    end) ev.
Proof.
  intros Hinv Hlogs Hord. apply wp_bind. revert ev Hinv Hord.
  induction Hlogs as [|log logs Hlog Hlogs IH]; intros ev Hinv Hord.
  - apply wp_ret. by eapply wp_db_call; [by apply processed_block_keeps|..].
  - cbn [for_each]. cbn [logs_orderly] in Hord. apply andb_true_iff in Hord as [Ho Hrest]. apply wp_bind.
    pose proof (process_or_skip_handled mode live log ev Hinv Hlog Ho) as Hh. unfold wp in Hh |- * at 1.
    destruct (process_or_skip mode db live log ev) as [[[]|e|] ev']; cbn [fst snd] in *; [by apply IH|done..].
Qed.

(** The invariant within a block. *)
Lemma process_logs_tx_inv mode live logs ev ev' :
  tx_inv (ev_tx ev) → Forall log_ok logs → logs_orderly mode live logs ev = true →
  for_each (process_or_skip mode db live) logs ev = (Ok tt, ev') → tx_inv (ev_tx ev').
Proof.
  intros Hinv Hlogs. revert ev Hinv. induction Hlogs as [|log logs Hlog _ IH]; intros ev Hinv; cbn [for_each logs_orderly].
  { by intros _ [= <-]. }
  intros [Ho Hrest]%andb_true_iff. pose proof (process_or_skip_handled mode live log ev Hinv Hlog Ho) as Hh.
  unfold mbind, action_bind, wp in *. destruct (process_or_skip mode db live log ev) as [[[]|e|] ev1];
    cbn in Hh; [|done..]. by apply IH.
Qed.
End events.

(** ** Blocks *)

Section blocks.
Context `{EL : EthLib}.
Variable Known : bytes → Prop.
Hypothesis keccak_inj : ∀ x y, Known x → Known y → keccak256 x = keccak256 y → x = y.
Variable own : OperatorId.
Variable operator : PubkeyOrId.
Variable Exempt : ClusterId → bool.
Implicit Types (db : NetworkDatabase) (ep : EventProcessor).

(** Memory and tables of a database agree. *)
Definition db_synced db : Prop :=
  db_operator db = operator ∧
  ∃ a, models a (ns_multi (db_state db)) ∧
    Synced Known operator own Exempt a (ns_single (db_state db)) (db_sql db).

(** A block is processed completely or, on an error, not at all. *)
Lemma process_block_synced mode commit live n logs ep :
  db_synced (ep_db ep) → Forall (log_ok Known own (ep_db ep)) logs →
  logs_orderly Exempt (ep_db ep) mode live logs (mkEv (mkTx (db_sql (ep_db ep)) []) []) = true →
  wp (process_block_logs mode commit live n logs) (λ o ep',
    db_synced (ep_db ep') ∧
    match o with
    | Ok _ => t_block_number (db_sql (ep_db ep')) = n ∧
        get_last_processed_block (db_state (ep_db ep')) = n
    | Err _ => ep' = ep
    | Panic => False
    end) ep.
Proof.
  intros Hdb Hlogs Hord. pose proof Hdb as (Hop & a & Hm & Hs). unfold wp, process_block_logs.
  assert (Hinv : tx_inv Known own Exempt (ep_db ep) a (mkTx (db_sql (ep_db ep)) [])).
  { split; [done|]. by rewrite Hop. }
  pose proof (process_block_handled Known keccak_inj own Exempt (ep_db ep) a mode live n logs
    (mkEv (mkTx (db_sql (ep_db ep)) []) []) Hinv Hlogs Hord) as Hb. unfold wp in Hb.
  destruct (process_block_tx _ _ _ _ _ _) as [[u|e|] ev]; cbn in Hb; [|done|done].
  destruct Hb as [[Hus Hsync] Hn]. destruct (commit n); [|done].
  destruct (apply_updates_models (E:=DatabaseError) (tx_updates (ev_tx ev)) a (db_state (ep_db ep)))
    as (st & Hst & Hm' & Hss); [by destruct Hs|done..|].
  assert (publish_pending_state_updates (tx_updates (ev_tx ev))
    (ep_db ep <| db_sql := tx_sql (ev_tx ev) |>) =
    Ok (mkNetworkDatabase (db_operator (ep_db ep)) st (tx_sql (ev_tx ev)))) as ->.
  { unfold publish_pending_state_updates. cbn. rewrite Hst. destruct (tx_updates (ev_tx ev)); [|done].
    cbn in Hst. by injection Hst as <-. }
  assert (Hfin : Synced Known operator own Exempt (abs_applies (tx_updates (ev_tx ev)) a) (ns_single st)
    (tx_sql (ev_tx ev))).
  { rewrite Hss. by rewrite Hop in Hsync. }
  split; [split; [done|]; by eexists|]. split; [done|].
  unfold get_last_processed_block. cbn. rewrite (si_block _ _ _ _ (sy_single _ _ _ _ _ _ _ Hfin)). done.
Qed.
End blocks.
