(* ===== verification/EventBatch.v ===== *)
(** * Batches of blocks, restarts and the network view

    A batch of logs is processed block by block ([process_logs] of
    [eth/src/event_processor.rs]); an error keeps exactly the blocks before it.  Over
    any sequence of batches, index updates and restarts, the memory of the node holds
    what its tables hold, up to the status of clusters that got a registration while they
    were liquidated and our id once our operator is removed, and the committees it reports to the message validator are
    those of the registered clusters. *)

From S2P Require Import Prelude SsvTypes Messages ForkSchedule ValidationTypes DutyState.
From S2P Require Import ValidatorRules ConsensusValidation PartialValidation Subnet Validator MultiIndex.
From S2P Require Import NetworkState Sql Database EventProcessor EventSample DatabaseSync DatabaseLoad EventSync.

(** ** The blocks of a batch *)

Section batches.
Context `{EL : EthLib}.
Variables (mode : Mode) (commit : N → bool) (live : bool) (end_block : N).

(** Logs of a block that follow the buffered ones. *)
Definition with_buffer (n : N) (buffer : list Log) (blocks : list (N * list Log)) : list (N * list Log) :=
  match blocks with
  | (m, logs) :: rest => if (n =? m)%N then (n, buffer ++ logs) :: rest else (n, buffer) :: blocks
  | [] => [(n, buffer)]
  end.

(** The logs, grouped into runs of the same block number. *)
Fixpoint group_blocks (logs : list Log) : list (N * list Log) :=
  match logs with
  | [] => []
  | log :: logs => with_buffer (default end_block (log_block_number log)) [log] (group_blocks logs)
  end.

(** The batch ends with its last block, which may have no logs. *)
Definition batch_blocks (logs : list Log) : list (N * list Log) :=
  let blocks := group_blocks logs in
  if decide (fst <$> last blocks = Some end_block) then blocks else blocks ++ [(end_block, [])].

Definition run_block (block : N * list Log) : action EventProcessor ExecutionError unit :=
  process_block_logs mode commit live block.1 block.2.

Lemma action_bind_eq {S E A B} (m : action S E A) (k : A → action S E B) s :
  (m ≫= k) s = match m s with
               | (Ok a, s') => k a s'
               | (Err e, s') => (Err e, s')
               | (Panic, s') => (Panic, s')
               end.
Proof. done. Qed.

Lemma with_buffer_app n buffer log blocks :
  with_buffer n buffer (with_buffer n [log] blocks) = with_buffer n (buffer ++ [log]) blocks.
Proof.
  destruct blocks as [|[m logs] rest]; cbn; [by rewrite N.eqb_refl|].
  destruct (n =? m)%N eqn:Hm; cbn; rewrite N.eqb_refl; [|done]. by rewrite <- app_assoc.
Qed.

Lemma with_buffer_ne n m buffer log blocks :
  n ≠ m → with_buffer n buffer (with_buffer m [log] blocks) = (n, buffer) :: with_buffer m [log] blocks.
Proof.
  intros Hne. assert ((n =? m)%N = false) as Hnm by by apply N.eqb_neq.
  destruct blocks as [|[k logs] rest]; cbn; [by rewrite Hnm|].
  destruct (m =? k)%N; cbn; by rewrite Hnm.
Qed.

Lemma last_with_buffer n buffer blocks :
  is_Some (last (with_buffer n buffer blocks)).
Proof.
  apply last_is_Some. destruct blocks as [|[m logs] rest]; [done|]. cbn. by destruct (n =? m)%N.
Qed.

Lemma process_logs_go_blocks logs n buffer ep :
  process_logs_go mode commit live end_block logs (Some n) buffer ep =
  (_ ← for_each run_block (with_buffer n buffer (group_blocks logs));
   mret (fst <$> last (with_buffer n buffer (group_blocks logs)))) ep.
Proof.
  revert n buffer ep. induction logs as [|log logs IH]; intros n buffer ep.
  { cbn. unfold mbind, action_bind. unfold run_block. cbn.
    by destruct (process_block_logs _ _ _ _ _ ep) as [[]]. }
  cbn [process_logs_go group_blocks]. set (m := default end_block (log_block_number log)).
  destruct (decide (n = m)) as [<-|Hne].
  - rewrite bool_decide_false by (intros [_ H]; by apply H). rewrite IH. by rewrite with_buffer_app.
  - rewrite bool_decide_true by (split; [done|congruence]). rewrite with_buffer_ne by done.
    cbn [for_each flush_current_block_if_any]. rewrite !action_bind_eq.
    change (run_block (n, buffer)) with (process_block_logs mode commit live n buffer).
    destruct (process_block_logs _ _ _ n buffer ep) as [[[]|e|] ep']; [|done..].
    unfold mret, action_ret. cbv beta iota. rewrite IH, !action_bind_eq.
    destruct (last_with_buffer m [log] (group_blocks logs)) as [x Hx].
    rewrite last_cons, Hx. done.
Qed.

(** Processing a batch is processing its blocks one after the other. *)
Lemma process_logs_blocks logs ep :
  process_logs mode commit live logs end_block ep = for_each run_block (batch_blocks logs) ep.
Proof.
  unfold process_logs, batch_blocks. set (blocks := group_blocks logs).
  assert (Hgo : process_logs_go mode commit live end_block logs None [] ep =
    (_ ← for_each run_block blocks; mret (fst <$> last blocks)) ep).
  { destruct logs as [|log logs]; [done|]. cbn [process_logs_go].
    rewrite bool_decide_false by (intros [[? ?] _]; done). apply process_logs_go_blocks. }
  unfold mbind at 1, action_bind. rewrite Hgo. unfold mbind, action_bind.
  assert (Happ : ∀ l k s, for_each run_block (l ++ k) s = (_ ← for_each run_block l; for_each run_block k) s).
  { clear. induction l as [|b l IH]; intros k s; [done|]. cbn [for_each app].
    unfold mbind, action_bind in *. destruct (run_block b s) as [[]]; [apply IH|done..]. }
  case_decide as Hlast.
  - destruct (for_each run_block blocks ep) as [[[]|e|] ep']; cbn; [|done..]. by rewrite decide_True.
  - rewrite Happ, action_bind_eq.
    destruct (for_each run_block blocks ep) as [[[]|e|] ep']; [|done..].
    unfold mret, action_ret. cbv beta iota. rewrite decide_False by done. cbn [for_each].
    rewrite action_bind_eq. change (run_block (end_block, [])) with (process_block_logs mode commit live end_block []).
    by destruct (process_block_logs _ _ _ _ _ ep') as [[[]|e|] ep''].
Qed.
End batches.

(** ** Failures *)

(** A loop ends normally, or at the first element whose body does not. *)
Lemma for_each_prefix {S E A} (f : A → action S E unit) l s :
  let '(o, s') := for_each f l s in
  ∃ before rest s1, l = before ++ rest ∧ for_each f before s = (Ok tt, s1) ∧
    match o with
    | Ok _ => rest = [] ∧ s' = s1
    | _ => ∃ x rest', rest = x :: rest' ∧ f x s1 = (o, s')
    end.
Proof.
  revert s. induction l as [|x l IH]; intros s; cbn [for_each]; [by exists [], [], s|].
  rewrite action_bind_eq. destruct (f x s) as [[[]|e|] s1] eqn:Hx.
  - specialize (IH s1). destruct (for_each f l s1) as [o s'].
    destruct IH as (before & rest & s2 & -> & Hb & Ho). exists (x :: before), rest, s2. cbn [for_each].
    rewrite action_bind_eq, Hx. done.
  - exists [], (x :: l), s. split_and!; [done..|]. by exists x, l.
  - exists [], (x :: l), s. split_and!; [done..|]. by exists x, l.
Qed.

Section failures.
Context `{EL : EthLib}.

(** The effect of a block, with the updates it queues and the work it asks for. *)
Definition block_done mode live (block : N * list Log) (ep : EventProcessor) (ev : Ev) : Prop :=
  process_block_tx mode (ep_db ep) live block.1 block.2 (mkEv (mkTx (db_sql (ep_db ep)) []) []) = (Ok tt, ev).

(** What a block does to tables, memory and the work sent out. *)
Lemma run_block_cases mode commit live block ep :
  let '(o, ep') := run_block mode commit live block ep in
  match o with
  | Ok _ => ∃ ev, block_done mode live block ep ev ∧ commit block.1 = true ∧
      db_sql (ep_db ep') = tx_sql (ev_tx ev) ∧
      apply_updates (E:=DatabaseError) (tx_updates (ev_tx ev)) (db_state (ep_db ep)) = Ok (db_state (ep_db ep')) ∧
      ep_sent ep' = execute_post_commit_actions mode (ev_actions ev) (ep_sent ep)
  | Err _ => ep' = ep
  | Panic => ep' = ep ∨ ∃ ev, block_done mode live block ep ev ∧ commit block.1 = true ∧
      apply_updates (E:=DatabaseError) (tx_updates (ev_tx ev)) (db_state (ep_db ep)) = Panic ∧
      db_sql (ep_db ep') = tx_sql (ev_tx ev) ∧
      db_state (ep_db ep') = interrupted_updates (tx_updates (ev_tx ev)) (db_state (ep_db ep)) ∧
      ep_sent ep' = ep_sent ep
  end.
Proof.
  unfold run_block, process_block_logs, block_done.
  destruct (process_block_tx _ _ _ _ _ _) as [[[]|e|] ev]; [|done|by left].
  destruct (commit block.1); [|done]. unfold publish_pending_state_updates.
  destruct (tx_updates (ev_tx ev)) as [|u us] eqn:Hus.
  { exists ev. rewrite Hus. by split_and!. }
  rewrite <- Hus.
  match goal with |- context [apply_updates ?l ?st ≫= _] => change st with (db_state (ep_db ep)) end.
  destruct (apply_updates (E:=DatabaseError) _ _) as [st|e|] eqn:Hst; cbn.
  - exists ev. by split_and!.
  - by apply apply_updates_no_err in Hst.
  - right. exists ev. by split_and!.
Qed.

(** C21: a batch is processed block by block, in order.  The blocks before some point are
    complete.  If the batch succeeds, these are all its blocks; if it fails with an error
    - a log that aborts, a failing statement or commit - the next block is the one that
    failed, and it left no trace in the tables, the memory or the work sent out.  A panic
    while handling a log leaves no trace of the block either; only a panic while the
    memory replays the updates of a committed block leaves its tables, with its
    memory updated up to the panicking update and none of its work sent out. *)
Theorem batch_keeps_whole_blocks mode commit live logs end_block ep :
  let run := run_block mode commit live in
  let '(o, ep') := process_logs mode commit live logs end_block ep in
  ∃ before rest ep1, batch_blocks end_block logs = before ++ rest ∧ for_each run before ep = (Ok tt, ep1) ∧
    match o with
    | Ok _ => rest = [] ∧ ep' = ep1
    | Err _ => ∃ block rest', rest = block :: rest' ∧ run block ep1 = (o, ep1) ∧ ep' = ep1
    | Panic => ∃ block rest', rest = block :: rest' ∧ run block ep1 = (o, ep') ∧
        (ep' = ep1 ∨ ∃ ev, block_done mode live block ep1 ev ∧ commit block.1 = true ∧
           apply_updates (E:=DatabaseError) (tx_updates (ev_tx ev)) (db_state (ep_db ep1)) = Panic ∧
           db_sql (ep_db ep') = tx_sql (ev_tx ev) ∧
           db_state (ep_db ep') = interrupted_updates (tx_updates (ev_tx ev)) (db_state (ep_db ep1)) ∧
           ep_sent ep' = ep_sent ep1)
    end.
Proof.
  cbn zeta. rewrite process_logs_blocks.
  pose proof (for_each_prefix (run_block mode commit live) (batch_blocks end_block logs) ep) as Hp.
  destruct (for_each _ _ ep) as [o ep']. destruct Hp as (before & rest & ep1 & Hl & Hb & Ho).
  exists before, rest, ep1. split; [done|]. split; [done|]. destruct o as [u|e|]; [done|..].
  all: destruct Ho as (block & rest' & -> & Hx); exists block, rest'; split; [done|].
  all: pose proof (run_block_cases mode commit live block ep1) as Hc; rewrite Hx in Hc.
  - by subst ep'.
  - by split.
Qed.
End failures.

(** ** Sequences of batches, index updates and restarts *)

Section reachable.
Context `{EL : EthLib}.
Variable Known : bytes → Prop.
Hypothesis keccak_inj : ∀ x y, Known x → Known y → keccak256 x = keccak256 y → x = y.
Variable own : OperatorId.
Variable operator : PubkeyOrId.
Hypothesis own_operator : match operator with ById i => i = own | ByPubkey _ => True end.
Implicit Types (db : NetworkDatabase) (ep : EventProcessor).

Inductive reachable : EventProcessor → Prop :=
  | reach_new db :
      database_new operator empty_tables = Ok db → reachable (mkEventProcessor db [])
  | reach_logs mode commit live logs end_block ep :
      reachable ep → Forall (log_ok Known own (ep_db ep)) logs →
      reachable (process_logs mode commit live logs end_block ep).2
  | reach_indices indices ep db :
      reachable ep → set_validator_indices indices (ep_db ep) = Ok db →
      reachable (mkEventProcessor db (ep_sent ep))
  | reach_restart ep db :
      reachable ep → database_new operator (db_sql (ep_db ep)) = Ok db →
      reachable (mkEventProcessor db []).

(** No registration of the blocks goes to a cluster that is liquidated and not exempt when
    the registration is processed. *)
Fixpoint blocks_orderly (Exempt : ClusterId → bool) mode commit live (blocks : list (N * list Log)) ep : bool :=
  match blocks with
  | [] => true
  | block :: blocks =>
      logs_orderly Exempt (ep_db ep) mode live block.2 (mkEv (mkTx (db_sql (ep_db ep)) []) []) &&
      match run_block mode commit live block ep with
      | (Ok _, ep') => blocks_orderly Exempt mode commit live blocks ep'
      | _ => true
      end
  end.

(** The same states, reached without such registrations. *)
Inductive orderly (Exempt : ClusterId → bool) : EventProcessor → Prop :=
  | orderly_new db :
      database_new operator empty_tables = Ok db → orderly Exempt (mkEventProcessor db [])
  | orderly_logs mode commit live logs end_block ep :
      orderly Exempt ep → Forall (log_ok Known own (ep_db ep)) logs →
      blocks_orderly Exempt mode commit live (batch_blocks end_block logs) ep = true →
      orderly Exempt (process_logs mode commit live logs end_block ep).2
  | orderly_indices indices ep db :
      orderly Exempt ep → set_validator_indices indices (ep_db ep) = Ok db →
      orderly Exempt (mkEventProcessor db (ep_sent ep))
  | orderly_restart ep db :
      orderly Exempt ep → database_new operator (db_sql (ep_db ep)) = Ok db →
      orderly Exempt (mkEventProcessor db []).

Definition all_exempt : ClusterId → bool := λ _, true.

Lemma blocks_orderly_exempt mode commit live blocks ep :
  blocks_orderly all_exempt mode commit live blocks ep = true.
Proof.
  revert ep. induction blocks as [|block blocks IH]; intros ep; [done|]. cbn [blocks_orderly].
  rewrite logs_orderly_exempt by done. cbn [andb]. by destruct (run_block mode commit live block ep) as [[] ?].
Qed.

(** With all clusters exempt, these are all states. *)
Lemma orderly_reachable ep : orderly all_exempt ep ↔ reachable ep.
Proof.
  split; induction 1; [econstructor 1|econstructor 2|econstructor 3|econstructor 4|
    econstructor 1|econstructor 2|econstructor 3|econstructor 4]; eauto using blocks_orderly_exempt.
Qed.

Lemma log_ok_operator db db' log :
  db_operator db = db_operator db' → log_ok Known own db log → log_ok Known own db' log.
Proof. intros Hop. unfold log_ok. by rewrite Hop. Qed.

Lemma process_logs_synced Exempt mode commit live logs end_block ep :
  db_synced Known own operator Exempt (ep_db ep) → Forall (log_ok Known own (ep_db ep)) logs →
  blocks_orderly Exempt mode commit live (batch_blocks end_block logs) ep = true →
  wp (process_logs mode commit live logs end_block) (λ o ep',
    db_synced Known own operator Exempt (ep_db ep') ∧ o ≠ Panic) ep.
Proof.
  intros Hs Hlogs. unfold wp. rewrite process_logs_blocks.
  assert (Hb : Forall (λ b, Forall (log_ok Known own (ep_db ep)) b.2) (batch_blocks end_block logs)).
  { assert (Hg : Forall (λ b, Forall (log_ok Known own (ep_db ep)) b.2) (group_blocks end_block logs)).
    { induction Hlogs as [|log logs Hlog Hlogs IH]; [done|]. cbn [group_blocks].
      destruct (group_blocks end_block logs) as [|[m ls] rest]; cbn; [by repeat constructor|].
      apply Forall_cons in IH as [Hls Hrest]. destruct (_ =? m)%N; repeat constructor; done. }
    unfold batch_blocks. case_decide; [done|]. apply Forall_app. split; [done|]. by repeat constructor. }
  assert (Hop : db_operator (ep_db ep) = operator) by by destruct Hs.
  assert (Hb' : Forall (λ b, ∀ db, db_operator db = operator → Forall (log_ok Known own db) b.2)
    (batch_blocks end_block logs)).
  { eapply Forall_impl; [exact Hb|]. intros b Hf db Hdb. eapply Forall_impl; [exact Hf|].
    intros log. apply log_ok_operator. congruence. }
  clear Hb Hlogs. intros Hord. change (wp (for_each (run_block mode commit live) (batch_blocks end_block logs))
    (λ o ep', db_synced Known own operator Exempt (ep_db ep') ∧ o ≠ Panic) ep). clear Hop.
  revert ep Hs Hord. induction Hb' as [|b blocks Hb Hbs IH]; intros ep Hs; [by intros _; apply wp_ret|].
  cbn [for_each blocks_orderly]. intros [Hord Hrest]%andb_true_iff. apply wp_bind.
  pose proof (process_block_synced Known keccak_inj own operator Exempt mode commit live b.1 b.2 ep Hs) as Hstep.
  unfold wp, run_block in *. specialize (Hstep (Hb _ (proj1 Hs)) Hord).
  destruct (process_block_logs mode commit live b.1 b.2 ep) as [[[]|e|] ep']; cbn [fst snd] in *;
    destruct Hstep as [Hs' Ho]; [by apply IH|done|done].
Qed.

Lemma set_validator_indices_synced Exempt l db db' :
  db_synced Known own operator Exempt db → set_validator_indices l db = Ok db' →
  db_synced Known own operator Exempt db'.
Proof.
  intros (Hop & a & Hm & Hs) (sql & Hsql & [= <-])%bind_ok. split; [done|].
  exists (abs_set_indices l a). split.
  - by apply set_indices_models.
  - by eapply synced_indices.
Qed.

Lemma sql_ok_empty : sql_ok Known empty_tables.
Proof. split; cbn; intros *; rewrite ?lookup_empty; try done; try (by intros [? ?]); by intros ?%elem_of_empty. Qed.

(** Our key is stored under our id only. *)
Definition own_key_ok (sql : Sql) : Prop :=
  match operator with
  | ById _ => True
  | ByPubkey k => ∀ id r, t_operators sql !! id = Some r → or_public_key r = encode_key k → id = own
  end.

Lemma synced_own_key Exempt a ss sql : Synced Known operator own Exempt a ss sql → own_key_ok sql.
Proof.
  intros [_ _ _ Hss]. pose proof (si_id _ _ _ _ Hss) as Hid. unfold own_key_ok.
  destruct operator; [|done]. by destruct Hid.
Qed.

Lemma abs_sim_refl Exempt a : abs_sim Exempt a a.
Proof.
  split; [done| |done]. intros cid. destruct (a_clusters a !! cid); constructor. by split.
Qed.

(** Loading consistent tables gives a database whose memory agrees with them. *)
Lemma database_new_synced Exempt sql :
  sql_ok Known sql → own_key_ok sql →
  ∃ db, database_new operator sql = Ok db ∧ db_operator db = operator ∧ db_sql db = sql ∧
    models (abs_of_sql (own_id_of operator sql) sql) (ns_multi (db_state db)) ∧
    ss_id (ns_single (db_state db)) = own_id_of operator sql ∧
    Synced Known operator own Exempt (abs_of_sql (own_id_of operator sql) sql) (ns_single (db_state db)) sql.
Proof.
  intros Hok Hkey.
  destruct (new_with_state_ok Known operator sql Hok)
    as (st & Hst & Ha & Hm & Hid & Hblock & Hmax & Hops & Hnonces & Hcl).
  unfold database_new. rewrite Hst. eexists. split; [done|]. cbn [db_operator db_state db_sql].
  split_and!; [done..|]. split; [done|done| |].
  - rewrite Hid. apply abs_sim_refl.
  - split; try done.
    + intros cid. rewrite Hcl, Hid. done.
    + intros i. rewrite Hid. unfold own_id_of. unfold own_key_ok in Hkey. destruct operator as [k|j].
      * unfold does_self_exist. rewrite get_operator_id_spec by done.
        intros (r & Hr & Hk & _). by eapply Hkey.
      * intros [= <-]. done.
    + unfold own_key_ok, own_id_of in *. destruct operator as [k|j]; [|done]. split_and!; [done|..].
      * intros r Hr Hk Hrem. rewrite Hid. unfold does_self_exist. apply (get_operator_id_spec Known); [done|]. by exists r.
      * intros r Hs Hr. rewrite Hid in Hs. unfold does_self_exist in Hs.
        apply (get_operator_id_spec Known) in Hs as (r' & Hr' & Hk & _); [|done]. congruence.
Qed.

Lemma orderly_synced Exempt ep : orderly Exempt ep → db_synced Known own operator Exempt (ep_db ep).
Proof.
  induction 1 as [db Hdb|mode commit live logs end_block ep _ IH Hlogs Hord|l ep db _ IH Hl|ep db _ IH Hdb]; cbn.
  - destruct (database_new_synced Exempt empty_tables) as (db' & Hdb' & Hop & Hsql & Hm & _ & Hs).
    { apply sql_ok_empty. }
    { unfold own_key_ok. destruct operator; [|done]. intros id r Hr. cbn in Hr. by rewrite lookup_empty in Hr. }
    rewrite Hdb in Hdb'. injection Hdb' as <-. split; [done|]. eexists. split; [exact Hm|]. by rewrite Hsql.
  - by apply process_logs_synced.
  - by eapply set_validator_indices_synced.
  - destruct IH as (Hop0 & a & Hm0 & Hs0).
    destruct (database_new_synced Exempt (db_sql (ep_db ep))) as (db' & Hdb' & Hop & Hsql & Hm & _ & Hs);
      [by destruct Hs0|by eapply synced_own_key|].
    rewrite Hdb in Hdb'. injection Hdb' as <-. split; [done|]. eexists. split; [exact Hm|]. by rewrite Hsql.
Qed.

Lemma reachable_synced ep : reachable ep → db_synced Known own operator all_exempt (ep_db ep).
Proof. intros Hr. by apply orderly_synced, orderly_reachable. Qed.

(** Following fewer statuses is weaker. *)
Lemma synced_all_exempt Exempt db :
  db_synced Known own operator Exempt db → db_synced Known own operator all_exempt db.
Proof.
  intros (Hop & a & Hm & [Hok Ha [Hv Hc Hsh] Hss]). split; [done|]. exists a. split; [done|].
  split; [done..| |done]. split; [done| |done]. intros cid. destruct (Hc cid) as [c c' []|]; constructor. by split.
Qed.

(** Two in-memory states that answer alike, the second one loaded from the tables.  The
    status of an exempt cluster may differ in one direction.  The first state may still
    know an own id that the second does not, but only of an operator that is removed; our
    shares and clusters are compared if the own ids are the same. *)
Record agrees (Exempt : ClusterId → bool) (st st' : NetworkState) : Prop := {
  ag_validators : primary (ms_validator_metadata (ns_multi st)) =
                  primary (ms_validator_metadata (ns_multi st'));
  ag_clusters : ∀ cid, option_Forall2 (cluster_sim Exempt) (primary (ms_clusters (ns_multi st)) !! cid)
                  (primary (ms_clusters (ns_multi st')) !! cid);
  ag_block : get_last_processed_block st = get_last_processed_block st';
  ag_max : get_max_operator_id_seen st = get_max_operator_id_seen st';
  ag_nonces : ∀ o, ss_nonces (ns_single st) !! o = ss_nonces (ns_single st') !! o;
  ag_operators : ∀ id, get_operator st id = get_operator st' id;
  ag_id : get_own_id st = get_own_id st' ∨
    ∃ i, get_own_id st = Some i ∧ get_own_id st' = None ∧ get_operator st i = None;
  ag_shares : get_own_id st = get_own_id st' →
    primary (ms_shares (ns_multi st)) = primary (ms_shares (ns_multi st'));
  ag_own_clusters : get_own_id st = get_own_id st' →
    ∀ cid, cid ∈ get_own_clusters st ↔ cid ∈ get_own_clusters st';
}.

(** Our id is that of the tables, unless our operator is removed. *)
Lemma own_id_agrees ss sql :
  sql_ok Known sql → single_sim operator own ss sql →
  ss_id ss = own_id_of operator sql ∨
  ∃ i, ss_id ss = Some i ∧ own_id_of operator sql = None ∧ ss_operators ss !! i = None.
Proof.
  intros Hok Hss. pose proof (si_id _ _ _ _ Hss) as Hi. unfold own_id_of.
  destruct operator as [k|j]; [|by left]. destruct Hi as (Hi1 & Hi2 & Hi3). unfold does_self_exist.
  destruct (GET_OPERATOR_ID (encode_key k) sql) as [i|] eqn:Hg.
  - left. apply (get_operator_id_spec Known) in Hg as (r & Hr & Hk & Hrem); [|done].
    assert (i = own) as -> by by eapply Hi1. by eapply Hi2.
  - destruct (ss_id ss) as [i|] eqn:Hid; [right|by left]. exists i. split_and!; [done..|].
    pose proof (si_own _ _ _ _ Hss i Hid) as ->.
    destruct (ss_operators ss !! own) as [op|] eqn:Ho; [|done].
    apply (si_operators _ _ _ _ Hss) in Ho as (r & Hr & Hrem & _).
    assert (GET_OPERATOR_ID (encode_key k) sql = Some own); [|congruence].
    apply (get_operator_id_spec Known); [done|]. exists r. split_and!; [done| |done]. by eapply Hi3.
Qed.

Lemma synced_agrees Exempt a a' st st' sql :
  models a (ns_multi st) → models a' (ns_multi st') →
  Synced Known operator own Exempt a (ns_single st) sql → Synced Known operator own Exempt a' (ns_single st') sql →
  a' = abs_of_sql (ss_id (ns_single st')) sql → ss_id (ns_single st') = own_id_of operator sql →
  agrees Exempt st st'.
Proof.
  intros Hm Hm' [Hok _ [Hv Hc Hs] Hss] [_ _ _ Hss'] -> Hid. split.
  - rewrite (mo_metadata _ _ Hm), (mo_metadata _ _ Hm'), Hv. done.
  - intros cid. rewrite (mo_clusters _ _ Hm), (mo_clusters _ _ Hm').
    specialize (Hc cid). by rewrite !abs_of_sql_cluster in *.
  - unfold get_last_processed_block. by rewrite (si_block _ _ _ _ Hss), (si_block _ _ _ _ Hss').
  - unfold get_max_operator_id_seen. by rewrite (si_max _ _ _ _ Hss), (si_max _ _ _ _ Hss').
  - intros o. by rewrite (si_nonces _ _ _ _ Hss), (si_nonces _ _ _ _ Hss').
  - intros id. unfold get_operator. apply option_eq. intros op.
    by rewrite (si_operators _ _ _ _ Hss), (si_operators _ _ _ _ Hss').
  - unfold get_own_id, get_operator. rewrite Hid. by apply own_id_agrees.
  - unfold get_own_id. intros Heq. rewrite (mo_shares _ _ Hm), (mo_shares _ _ Hm'), Hs, Heq. done.
  - unfold get_own_id, get_own_clusters. intros Heq cid.
    by rewrite (si_clusters _ _ _ _ Hss), (si_clusters _ _ _ _ Hss'), Heq.
Qed.

(** C19: after any sequence of batches, index updates and restarts, no log can make the
    node panic, and a restart loads a state from the tables that agrees with the memory.
    Validators, operators, nonces and counters are the same.  Clusters are the same up to
    the order of their members, and so is whether they are liquidated, as long as no
    validator was registered to the cluster while it was liquidated; for a cluster
    exempted from that condition, one liquidated in memory is still liquidated after
    the restart.  Our id is the same, and with it our shares and clusters, unless our
    operator was removed, which the memory only learns by the restart. *)
Theorem memory_matches_database Exempt ep :
  orderly Exempt ep →
  (∀ mode commit live logs end_block, Forall (log_ok Known own (ep_db ep)) logs →
     (process_logs mode commit live logs end_block ep).1 ≠ Panic) ∧
  ∃ db', database_new operator (db_sql (ep_db ep)) = Ok db' ∧
    agrees Exempt (db_state (ep_db ep)) (db_state db').
Proof.
  intros Hr%orderly_synced. split.
  { intros * Hlogs. apply synced_all_exempt in Hr.
    by destruct (process_logs_synced all_exempt mode commit live logs end_block ep Hr Hlogs
      (blocks_orderly_exempt _ _ _ _ _)). }
  destruct Hr as (Hop & a & Hm & Hs).
  destruct (database_new_synced Exempt (db_sql (ep_db ep))) as (db' & Hdb' & _ & _ & Hm' & Hid & Hs');
    [by destruct Hs|by eapply synced_own_key|].
  exists db'. split; [done|]. eapply synced_agrees; [done..|by rewrite Hid|done].
Qed.

(** ** Registrations within a block *)

Definition block_start db : Ev := mkEv (mkTx (db_sql db) []) [].

(** C20: when the node comes to a registration event within a block, the event either
    takes effect completely - well-formed keys, an admissible number of distinct active
    operators, shares that parse and interpolate, a signature over the owner and the
    counted nonce, a validator not stored yet, all rows inserted and the index look-up
    queued - or it aborts the block, or it counts the nonce of the owner and changes
    nothing else. *)
Theorem registration_all_or_nothing reg live ep before log e ev :
  reachable ep → Forall (log_ok Known own (ep_db ep)) (before ++ [log]) →
  log_event log = LogValidatorAdded (Some e) →
  for_each (process_or_skip (Node reg) (ep_db ep) live) before (block_start (ep_db ep)) = (Ok tt, ev) →
  let '(o, ev') := process_log (Node reg) (ep_db ep) live log ev in
  let sql := tx_sql (ev_tx ev) in
  let sql' := tx_sql (ev_tx ev') in
  match o with
  | Ok _ => ∃ pk, registered reg e pk sql sql' ∧ ev_actions ev' = ev_actions ev ++ [IndexSync pk]
  | Err err => log_disposition err = AbortBatch ∨
      sql' = nonce_bumped (va_owner e) sql ∧ ev_actions ev' = ev_actions ev
  | Panic => False
  end.
Proof.
  intros (Hop & a & Hm & Hs)%reachable_synced [Hbefore Hlog]%Forall_app Hev Hrun.
  assert (Hinv : tx_inv Known own all_exempt (ep_db ep) a (ev_tx ev)).
  { eapply (process_logs_tx_inv Known keccak_inj); [|exact Hbefore|by apply logs_orderly_exempt|exact Hrun].
    split; [done|]. cbn. by rewrite Hop. }
  pose proof (Forall_inv Hlog) as Hlog1. clear Hlog. rename Hlog1 into Hlog. unfold log_ok in Hlog. unfold process_log. rewrite Hev in Hlog |- *.
  pose proof (validator_added_done Known keccak_inj own all_exempt (ep_db ep) a reg e ev Hinv Hlog) as Hd.
  assert (registration_orderly all_exempt e (tx_sql (ev_tx ev)) = true) as Hord
    by (unfold registration_orderly; destruct (t_clusters _ !! _); [by rewrite orb_true_r|done]).
  specialize (Hd Hord).
  unfold wp, registration_done in Hd.
  destruct (process_validator_added _ _ _ ev) as [[u|err|] ev']; cbn [fst snd] in Hd; [| |done].
  - by destruct Hd as [_ Hd].
  - destruct Hd as [?|(_ & ? & ?)]; [by left|by right].
Qed.

(** ** The view of the message validator *)

Section view.
Context (a : Abs) (st : NetworkState) (sql : Sql).
Hypothesis Hm : models a (ns_multi st).
Hypothesis Hs : Synced Known operator own all_exempt a (ns_single st) sql.

Lemma view_cluster cid c :
  a_clusters a !! cid = Some c →
  ∃ r, t_clusters sql !! cid = Some r ∧ cl_cluster_members c ≡ₚ GET_CLUSTER_MEMBERS cid sql.
Proof.
  intros Hc. pose proof (as_clusters _ _ _ (sy_sim _ _ _ _ _ _ _ Hs) cid) as Hsim.
  rewrite Hc, abs_of_sql_cluster in Hsim. inversion Hsim as [? c' Hcs E1 E2|]; subst.
  destruct (t_clusters sql !! cid) as [r|]; [|done]. injection E2 as ->. exists r. split; [done|].
  apply Hcs.
Qed.

Lemma view_cluster_row cid r :
  t_clusters sql !! cid = Some r →
  ∃ c, a_clusters a !! cid = Some c ∧ cl_cluster_members c ≡ₚ GET_CLUSTER_MEMBERS cid sql.
Proof.
  intros Hr. pose proof (as_clusters _ _ _ (sy_sim _ _ _ _ _ _ _ Hs) cid) as Hsim.
  rewrite abs_of_sql_cluster, Hr in Hsim. inversion Hsim as [c ? Hcs E1 E2|]; subst.
  exists c. split; [done|]. apply Hcs.
Qed.

Lemma view_validator pk v :
  a_validators a !! pk = Some v ↔
  ∃ r, t_validators sql !! pk = Some r ∧ v = metadata_of_row pk r.
Proof.
  rewrite (as_validators _ _ _ (sy_sim _ _ _ _ _ _ _ Hs)), abs_of_sql_validator, fmap_Some. naive_solver.
Qed.

(** The committee id of a stored cluster. *)
Definition row_committee_id (cid : ClusterId) : CommitteeId :=
  committee_id_of_vec sha256 (GET_CLUSTER_MEMBERS cid sql).

Lemma row_committee_id_eq cid c :
  a_clusters a !! cid = Some c → cluster_committee_id c = row_committee_id cid.
Proof.
  intros (r & _ & Hp)%view_cluster. unfold cluster_committee_id, row_committee_id, committee_id_of_vec.
  by rewrite (merge_sort_perm_eq _ _ Hp).
Qed.

Lemma view_committee pk r :
  t_validators sql !! pk = Some r → validator_committee a pk = Some (row_committee_id (vr_cluster_id r)).
Proof.
  intros Hr. unfold validator_committee, validator_cluster.
  rewrite (proj2 (view_validator pk (metadata_of_row pk r))) by by exists r. cbn.
  destruct (so_validator_cluster _ _ (sy_sql _ _ _ _ _ _ _ Hs) pk r Hr) as [rc Hrc].
  destruct (view_cluster_row _ rc Hrc) as (c & Hc & _). rewrite Hc. cbn. f_equal. by apply row_committee_id_eq.
Qed.

(** The indices reported for a committee. *)
Lemma view_indices committee_id idx :
  idx ∈ get_validator_indices st committee_id ↔
  ∃ pk r, t_validators sql !! pk = Some r ∧ vr_validator_index r = Some idx ∧
    row_committee_id (vr_cluster_id r) = committee_id.
Proof.
  unfold get_validator_indices, get_all_by_quaternary. rewrite list_elem_of_omap.
  setoid_rewrite elem_of_get_all_of. rewrite (mo_metadata _ _ Hm). split.
  - intros (v & (pk & Hin & Hv) & Hidx). apply (mo_metadata_committee _ _ Hm) in Hin.
    apply view_validator in Hv as (r & Hr & ->). rewrite (view_committee pk r Hr) in Hin.
    injection Hin as <-. by exists pk, r.
  - intros (pk & r & Hr & Hidx & <-). exists (metadata_of_row pk r). split; [|done]. exists pk. split.
    + apply (mo_metadata_committee _ _ Hm). by apply view_committee.
    + apply view_validator. by exists r.
Qed.

Lemma view_members committee_id members :
  get_cluster_members st committee_id = Some members →
  ∃ cid r, t_clusters sql !! cid = Some r ∧ members ≡ₚ GET_CLUSTER_MEMBERS cid sql ∧
    row_committee_id cid = committee_id.
Proof.
  unfold get_cluster_members. set (l := get_all_by_quaternary committee_id (ms_clusters (ns_multi st))).
  intros (c & Hc & ->)%fmap_Some. assert (c ∈ l) as Hin by (destruct l; [done|injection Hc as ->; left]).
  apply elem_of_get_all_of in Hin as (cid & Hcid & Hpc).
  apply (mo_clusters_committee _ _ Hm) in Hcid. rewrite (mo_clusters _ _ Hm) in Hpc.
  unfold cluster_committee in Hcid. rewrite Hpc in Hcid. injection Hcid as Hcid.
  destruct (view_cluster cid c Hpc) as (r & Hr & Hp). exists cid, r. split_and!; [done..|].
  by rewrite <- (row_committee_id_eq cid c).
Qed.

Lemma view_members_some cid r :
  t_clusters sql !! cid = Some r → is_Some (get_cluster_members st (row_committee_id cid)).
Proof.
  intros (c & Hc & _)%view_cluster_row. unfold get_cluster_members.
  set (l := get_all_by_quaternary (row_committee_id cid) (ms_clusters (ns_multi st))).
  assert (c ∈ l) as Hin.
  { apply elem_of_get_all_of. exists cid. rewrite (mo_clusters _ _ Hm). split; [|done].
    apply (mo_clusters_committee _ _ Hm). unfold cluster_committee. rewrite Hc. cbn. f_equal.
    by apply row_committee_id_eq. }
  destruct l; [by apply elem_of_nil in Hin|]. by eexists.
Qed.

(** A stored cluster is a proper committee. *)
Lemma row_members_ok cid r :
  t_clusters sql !! cid = Some r →
  let l := GET_CLUSTER_MEMBERS cid sql in
  NoDup l ∧ is_valid_committee_size (length l) = true ∧ Forall (λ id, 0 < id < 2 ^ 64)%N l ∧
  ∀ id, id ∈ l → is_Some (t_operators sql !! id).
Proof.
  intros Hr l. pose proof (sy_sql _ _ _ _ _ _ _ Hs) as Hok.
  destruct (so_cluster_validator _ _ Hok cid r Hr) as (pk & v & Hv & Hc).
  assert (Hkeys : (share_pubkeys_of sql pk).*1 ≡ₚ l).
  { apply NoDup_Permutation; [apply share_pubkeys_nodup|apply cluster_members_NoDup|].
    intros i. unfold l. rewrite elem_of_cluster_members, list_elem_of_fmap. split.
    - intros ([i' k] & -> & (s & Hsh & _)%elem_of_share_pubkeys). cbn in *.
      destruct (so_share _ _ Hok pk i' s Hsh) as (v' & Hv' & _ & Hin). congruence.
    - intros Hin. rewrite <- Hc in Hin. destruct (so_share_all _ _ Hok pk v i Hv Hin) as [s Hsh].
      exists (i, sr_share_pubkey s). split; [done|]. apply elem_of_share_pubkeys. by exists s. }
  pose proof (so_share_valid _ _ Hok pk (ex_intro _ v Hv)) as Hvalid.
  unfold validate_share_public_keys in Hvalid.
  rewrite <- (length_fmap fst (share_pubkeys_of sql pk)), (Permutation_length Hkeys) in Hvalid.
  destruct (is_valid_committee_size (length l)) eqn:Hsize; [|done]. cbn [negb] in Hvalid.
  apply bind_ok in Hvalid as (k & Hk%try_map_ok & _).
  split_and!; [apply cluster_members_NoDup|done| |].
  - destruct (so_cluster_id _ _ Hok cid r Hr) as (_ & _ & Hb & _). fold l in Hb.
    rewrite Forall_forall in Hb |- *. intros i Hi. split; [|by apply Hb].
    rewrite <- Hkeys in Hi. apply list_elem_of_fmap in Hi as ([i' k'] & -> & Hin). cbn.
    apply list_elem_of_lookup in Hin as [n Hn]. eapply Forall2_lookup_l in Hk as (y & _ & Hy); [|done].
    cbn in Hy. destruct (i' =? 0)%N eqn:Hz; [done|]. apply N.eqb_neq in Hz. lia.
  - intros id Hid. apply elem_of_cluster_members in Hid. by destruct (so_member _ _ Hok cid id Hid).
Qed.
End view.

(** A well-formed committee of registered operators. *)
Definition committee_ok (sql : Sql) (members : list OperatorId) : Prop :=
  NoDup members ∧ is_valid_committee_size (length members) = true ∧
  Forall (λ id, 0 < id < 2 ^ 64)%N members ∧
  ∀ id, id ∈ members → is_Some (t_operators sql !! id).

Lemma row_committee_ok a ss sql cid r members :
  Synced Known operator own all_exempt a ss sql → t_clusters sql !! cid = Some r →
  members ≡ₚ GET_CLUSTER_MEMBERS cid sql → committee_ok sql members.
Proof.
  intros Hs Hr Hp. destruct (row_members_ok a (mkNetworkState (mkMultiState mi_new mi_new mi_new) ss) sql Hs cid r Hr)
    as (Hnd & Hsize & Hf & Hops). unfold committee_ok. rewrite Hp. split_and!; [done..|].
  intros id. rewrite Hp. apply Hops.
Qed.

(** C29: every committee that the node reports to the message validator is well formed:
    distinct non-zero members of an admissible number, all of them stored operators; and a
    committee found by its id hashes to that id. *)
Theorem committee_info_well_formed ep :
  reachable ep →
  let sql := db_sql (ep_db ep) in
  let nv := network_view (db_state (ep_db ep)) in
  (∀ committee_id info, get_committee_info_by_committee_id nv committee_id = Some info →
     committee_ok sql (committee_members info) ∧
     committee_id_of_vec sha256 (committee_members info) = committee_id) ∧
  (∀ pk info, get_committee_info_by_validator_pk nv pk = Some info →
     committee_ok sql (committee_members info) ∧ length (validator_indices info) ≤ 1).
Proof.
  intros (Hop & a & Hm & Hs)%reachable_synced sql nv. split.
  - intros committee_id info (members & Hmem & [= <-])%bind_Some. cbn.
    destruct (view_members a _ sql Hm Hs committee_id members Hmem) as (cid & r & Hr & Hp & Hid).
    split; [by eapply row_committee_ok|]. rewrite <- Hid. unfold row_committee_id, committee_id_of_vec.
    by rewrite (merge_sort_perm_eq _ _ Hp).
  - intros pk info (idx & Hidx & (members & Hmem & [= <-])%bind_Some)%bind_Some. cbn.
    split; [|by destruct idx; cbn; lia].
    apply bind_Some in Hmem as (v & Hv & (c & Hc & ->)%fmap_Some). unfold get_by in Hc.
    rewrite (mo_clusters _ _ Hm) in Hc. destruct (view_cluster a _ sql Hs _ c Hc) as (r & Hr & Hp).
    by eapply row_committee_ok.
Qed.

(** C28: the network view of the message validator is the one of the tables: a committee
    id is known exactly if a stored cluster hashes to it, its validator indices are those
    of all validators in such clusters; a validator is known exactly if it is stored, with
    the members of its cluster and its index; an operator's key is the stored one, unless
    the operator was removed. *)
Theorem network_view_matches_tables ep :
  reachable ep →
  let sql := db_sql (ep_db ep) in
  let nv := network_view (db_state (ep_db ep)) in
  (∀ committee_id,
     is_Some (get_committee_info_by_committee_id nv committee_id) ↔
     ∃ cid r, t_clusters sql !! cid = Some r ∧ row_committee_id sql cid = committee_id) ∧
  (∀ committee_id info idx, get_committee_info_by_committee_id nv committee_id = Some info →
     idx ∈ validator_indices info ↔
     ∃ pk r, t_validators sql !! pk = Some r ∧ vr_validator_index r = Some idx ∧
       row_committee_id sql (vr_cluster_id r) = committee_id) ∧
  (∀ pk, match t_validators sql !! pk with
         | None => get_committee_info_by_validator_pk nv pk = None
         | Some r => ∃ members, members ≡ₚ GET_CLUSTER_MEMBERS (vr_cluster_id r) sql ∧
             get_committee_info_by_validator_pk nv pk =
             Some {| committee_members := members; validator_indices := option_list (vr_validator_index r) |}
         end) ∧
  (∀ id k, operator_rsa_pubkey nv id = Some k ↔
     ∃ r, t_operators sql !! id = Some r ∧ or_removed r = false ∧ decode_key (or_public_key r) = Some k).
Proof.
  intros (Hop & a & Hm & Hs)%reachable_synced sql nv. split_and!.
  - intros committee_id. cbn. unfold committee_info_by_committee_id. split.
    + intros [info (members & Hmem & _)%bind_Some].
      destruct (view_members a _ sql Hm Hs committee_id members Hmem) as (cid & r & Hr & _ & Hid).
      by exists cid, r.
    + intros (cid & r & Hr & <-). destruct (view_members_some a _ sql Hm Hs cid r Hr) as [members Hmem].
      rewrite Hmem. by eexists.
  - intros committee_id info idx (members & _ & [= <-])%bind_Some. cbn. by eapply view_indices.
  - intros pk. cbn. unfold committee_info_by_validator_pk, get_cluster_members_for_validator, get_by.
    rewrite (mo_metadata _ _ Hm), (mo_clusters _ _ Hm).
    destruct (t_validators sql !! pk) as [r|] eqn:Hr.
    + rewrite (proj2 (view_validator a _ sql Hs pk (metadata_of_row pk r))) by by exists r.
      destruct (so_validator_cluster _ _ (sy_sql _ _ _ _ _ _ _ Hs) pk r Hr) as [rc Hrc].
      destruct (view_cluster_row a _ sql Hs _ rc Hrc) as (c & Hc & Hp). exists (cl_cluster_members c).
      split; [done|]. cbn. by rewrite Hc.
    + destruct (a_validators a !! pk) as [v|] eqn:Hv; [|done].
      apply (view_validator a _ sql Hs) in Hv as (r & ? & _). congruence.
  - intros id k. cbn. unfold get_operator. rewrite fmap_Some. setoid_rewrite (si_operators _ _ _ _ (sy_single _ _ _ _ _ _ _ Hs)).
    unfold operator_of_row. split.
    + intros (op & (r & Hr & Hrem & (k' & Hk & [= <-])%bind_ok) & ->). apply ok_or_ok in Hk. by exists r.
    + intros (r & Hr & Hrem & Hk). exists (mkOperator id k (or_owner_address r)). split; [|done].
      exists r. rewrite Hk. by split_and!.
Qed.
End reachable.

(** ** On the sample chain *)

Module SampleReach.
Import SampleChain.

Definition sample_known (bs : bytes) : Prop := bs = cluster_id_preimage 99 [1; 2; 3; 4]%N.

Lemma sample_known_inj x y : sample_known x → sample_known y → keccak256 x = keccak256 y → x = y.
Proof. by intros -> ->. Qed.

Lemma operator_log_ok db n id :
  db_operator db = sample_operator → (id = 1 ∨ id = 2 ∨ id = 3 ∨ id = 4)%N →
  log_ok sample_known 2 db (operator_log n id).
Proof.
  intros Hdb Hid op Hop. unfold key_matches_own. rewrite Hdb.
  destruct Hid as [->|[->|[->| ->]]]; vm_compute in Hop; injection Hop as <-; vm_compute; by split.
Qed.

Lemma registration_log_ok db n b : log_ok sample_known 2 db (registration_log n b).
Proof. split_and!; [done| |done]. repeat constructor; done. Qed.

Lemma sample_logs_ok db : db_operator db = sample_operator → Forall (log_ok sample_known 2 db) sample_logs.
Proof.
  intros Hdb. repeat constructor; try apply registration_log_ok; apply operator_log_ok; auto.
Qed.

Lemma sample_reachable : reachable sample_known 2 sample_operator sample_node.
Proof.
  apply reach_logs; [by apply reach_new|by apply sample_logs_ok].
Qed.

(** The cluster of the sample is liquidated. *)
Definition sample_cid : ClusterId := compute_cluster_id 99 [1; 2; 3; 4]%N.
Definition liquidation_log (n : N) : Log :=
  sample_log n (LogClusterLiquidated (Some {| cf_owner := 99; cf_operatorIds := [1; 2; 3; 4]%N |})).
Definition liquidated_node : EventProcessor :=
  (process_logs sample_mode (λ _, true) true [liquidation_log 10] 10 sample_node).2.

Lemma liquidated_orderly : orderly sample_known 2 sample_operator (λ _, false) liquidated_node.
Proof.
  apply orderly_logs; [apply orderly_logs; [by apply orderly_new|by apply sample_logs_ok|]|by repeat constructor|].
  all: vm_compute; reflexivity.
Qed.

Definition liquidated_in (st : NetworkState) : option bool :=
  cl_liquidated <$> primary (ms_clusters (ns_multi st)) !! sample_cid.

Lemma memory_matches_database_witness :
  (process_logs sample_mode (λ _, true) true [registration_log 12 x0a] 12 liquidated_node).1 ≠ Panic ∧
  liquidated_in (db_state (ep_db liquidated_node)) = Some true ∧
  ∃ db', database_new sample_operator (db_sql (ep_db liquidated_node)) = Ok db' ∧
    agrees (λ _, false) (db_state (ep_db liquidated_node)) (db_state db').
Proof.
  destruct (memory_matches_database sample_known sample_known_inj 2 sample_operator I (λ _, false) liquidated_node
    liquidated_orderly) as [Hrun Hload].
  split; [|split; [vm_compute; reflexivity|exact Hload]].
  apply Hrun. constructor; [apply registration_log_ok|constructor].
Defined.

(** A second validator is registered to the liquidated cluster: the memory takes the
    cluster of the registration, the tables keep their row, and a restart loads the other
    status. *)
Definition revived_node : EventProcessor :=
  (process_logs sample_mode (λ _, true) true [second_registration 11] 11 liquidated_node).2.

Lemma registration_into_liquidated :
  liquidated_in (db_state (ep_db revived_node)) = Some false ∧
  match database_new sample_operator (db_sql (ep_db revived_node)) with
  | Ok db' => liquidated_in (db_state db') = Some true
  | _ => False
  end.
Proof. vm_compute. by split. Qed.

(** The commit of block 8 fails: blocks 5 and 7 stay, block 8 leaves no trace. *)
Lemma batch_keeps_whole_blocks_witness :
  let fails n := negb (n =? 8)%N in
  let '(o, ep') := process_logs sample_mode fails true sample_logs 9 fresh_node in
  o = Err DatabaseFailure ∧ t_block_number (db_sql (ep_db ep')) = 7%N ∧
  ∃ before block rest, batch_blocks 9 sample_logs = before ++ block :: rest ∧
    for_each (run_block sample_mode fails true) before fresh_node = (Ok tt, ep').
Proof.
  cbn zeta. set (fails := λ n, negb (n =? 8)%N).
  pose proof (batch_keeps_whole_blocks sample_mode fails true sample_logs 9 fresh_node) as Hb. cbn zeta in Hb.
  assert (Ho : (process_logs sample_mode fails true sample_logs 9 fresh_node).1 = Err DatabaseFailure)
    by (vm_compute; reflexivity).
  assert (Hn : t_block_number (db_sql (ep_db (process_logs sample_mode fails true sample_logs 9 fresh_node).2)) = 7%N)
    by (vm_compute; reflexivity).
  destruct (process_logs sample_mode fails true sample_logs 9 fresh_node) as [o ep'].
  cbn [fst snd] in Ho, Hn. subst o. split; [done|]. split; [exact Hn|].
  destruct Hb as (before & rest & ep1 & Hl & Hrun & block & rest' & -> & _ & ->). by exists before, block, rest'.
Defined.

(** A memory that lost the validator: the removal is committed, then its replay panics. *)
Definition removal_log (n : N) : Log :=
  sample_log n (LogValidatorRemoved (Some
    {| vf_owner := 99; vf_operatorIds := [1; 2; 3; 4]%N; vf_publicKey := padded_key [x0a] |})).

Lemma replay_panic_keeps_tables :
  let forgetful := mkEventProcessor (fresh_db <| db_sql := db_sql (ep_db sample_node) |>) [] in
  let '(o, ep') := process_logs sample_mode (λ _, true) true [removal_log 10] 10 forgetful in
  o = Panic ∧ t_block_number (db_sql (ep_db ep')) = 10%N ∧
  get_last_processed_block (db_state (ep_db ep')) = 0%N.
Proof. vm_compute. by split_and!. Qed.

(** The committee of the sample validator. *)
Lemma committee_info_well_formed_witness :
  ∃ info, get_committee_info_by_validator_pk (network_view (db_state (ep_db sample_node))) [x0a] = Some info ∧
    committee_ok (db_sql (ep_db sample_node)) (committee_members info).
Proof.
  destruct (committee_info_well_formed sample_known sample_known_inj 2 sample_operator I sample_node
    sample_reachable) as [_ Hpk].
  eexists. split; [vm_compute; reflexivity|]. eapply (Hpk [x0a]). vm_compute; reflexivity.
Defined.

Lemma network_view_matches_tables_witness :
  ∃ members, members ≡ₚ [2; 4; 1; 3]%N ∧
    get_committee_info_by_validator_pk (network_view (db_state (ep_db sample_node))) [x0a] =
    Some {| committee_members := members; validator_indices := [] |}.
Proof.
  destruct (network_view_matches_tables sample_known sample_known_inj 2 sample_operator I sample_node
    sample_reachable) as (_ & _ & Hpk & _).
  specialize (Hpk [x0a]). vm_compute in Hpk |- *. exact Hpk.
Defined.

(** The second registration of the sample chain, at the start of a block. *)
Definition half_node : EventProcessor :=
  (process_logs sample_mode (λ _, true) true (take 5 sample_logs) 7 fresh_node).2.

Lemma half_reachable : reachable sample_known 2 sample_operator half_node.
Proof.
  apply reach_logs; [by apply reach_new|]. apply Forall_take. by apply sample_logs_ok.
Qed.

Lemma registration_all_or_nothing_witness :
  ∃ ev' pk, process_log (Node (λ _, true)) (ep_db half_node) true (registration_log 8 x0a)
              (block_start (ep_db half_node)) = (Ok tt, ev') ∧
    registered (λ _, true) (sample_registration x0a) pk (db_sql (ep_db half_node)) (tx_sql (ev_tx ev')) ∧
    ev_actions ev' = [IndexSync pk].
Proof.
  pose proof (registration_all_or_nothing sample_known sample_known_inj 2 sample_operator I (λ _, true) true
    half_node [] (registration_log 8 x0a) (sample_registration x0a) (block_start (ep_db half_node))
    half_reachable) as Hr.
  specialize (Hr ltac:(apply Forall_singleton; apply registration_log_ok) eq_refl eq_refl).
  assert (Ho : (process_log (Node (λ _, true)) (ep_db half_node) true (registration_log 8 x0a)
    (block_start (ep_db half_node))).1 = Ok tt) by (vm_compute; reflexivity).
  destruct (process_log (Node (λ _, true)) (ep_db half_node) true (registration_log 8 x0a)
    (block_start (ep_db half_node))) as [o ev'].
  cbn [fst] in Ho. subst o. destruct Hr as (pk & Hreg & Hact). exists ev', pk. by split_and!.
Defined.
End SampleReach.
