(* ===== verification/EventNonces.v ===== *)
(** * Nonces

    The contract numbers the registrations of an owner, and the signature of a
    registration covers that number.  The node must count every decoded registration
    event, including the ones it skips. *)

From S2P Require Import Prelude SsvTypes Messages ForkSchedule ValidationTypes DutyState.
From S2P Require Import ValidatorRules ConsensusValidation PartialValidation Subnet Validator MultiIndex.
From S2P Require Import NetworkState Sql Database EventProcessor EventSample DatabaseSync DatabaseLoad EventSync EventBatch.

Section nonces.
Context `{EL : EthLib}.
Implicit Types (db : NetworkDatabase) (mode : Mode).

(** ** What does not touch the nonces *)

Definition same_nonces (sql sql' : Sql) : Prop := ∀ o, owner_nonce sql' o = owner_nonce sql o.
Definition tx_same (tx tx' : Tx) : Prop := same_nonces (tx_sql tx) (tx_sql tx').
Definition ev_same (ev ev' : Ev) : Prop := tx_same (ev_tx ev) (ev_tx ev').

#[local] Instance tx_same_preorder : PreOrder tx_same.
Proof. split; [done|]. intros x y z Hxy Hyz o. by rewrite Hyz. Qed.
#[local] Instance ev_same_preorder : PreOrder ev_same.
Proof. split; [done|]. intros x y z Hxy Hyz o. by rewrite (Hyz o). Qed.

Lemma preserves_execute f :
  (∀ sql sql', f sql = Ok sql' → same_nonces sql sql') → preserves tx_same (execute f).
Proof.
  intros Hf tx. unfold execute. destruct (f (tx_sql tx)) eqn:E; [|done..]. by apply Hf in E.
Qed.

(** Statements that leave the table of owners as it is. *)
Lemma preserves_execute_owners f :
  (∀ sql sql', f sql = Ok sql' → t_owners sql' = t_owners sql) → preserves tx_same (execute f).
Proof.
  intros Hf. apply preserves_execute. intros sql sql' H o. unfold owner_nonce. by rewrite (Hf _ _ H).
Qed.

Lemma preserves_query {A} (f : Sql → outcome DatabaseError A) : preserves tx_same (query f).
Proof. done. Qed.

Lemma preserves_push u : preserves tx_same (push_update u).
Proof. done. Qed.

Lemma preserves_db_call {A} (m : action Tx DatabaseError A) :
  preserves tx_same m → preserves ev_same (db_call m).
Proof. intros Hm ev. exact (Hm (ev_tx ev)). Qed.

Lemma preserves_push_action a : preserves ev_same (push_action a).
Proof. done. Qed.

#[local] Hint Resolve preserves_query preserves_push preserves_db_call preserves_push_action : preserves.

(** By cases on the guards of the statement. *)
Ltac keep_owners :=
  apply preserves_execute_owners; intros ? ?;
  try unfold UPDATE_CLUSTER_STATUS; try unfold DELETE_VALIDATOR; try unfold INSERT_CLUSTER;
  try unfold INSERT_VALIDATOR;
  repeat (let H := fresh in intros (? & ? & H)%bind_ok; revert H);
  repeat case_match; intros; simplify_eq/=; done.

(** Along the structure of an operation. *)
Ltac frame :=
  repeat (intros; first
    [ solve [eauto 2 with preserves typeclass_instances]
    | apply (preserves_bind _); intros
    | apply (preserves_for_each _); intros
    | apply (preserves_attempt _)
    | apply preserves_db_call
    | match goal with |- preserves _ (match ?x with _ => _ end) => destruct x end ]).

Lemma operator_exists_frame id : preserves tx_same (operator_exists_tx id).
Proof. unfold operator_exists_tx, get_operator_status. frame. Qed.

Lemma own_id_frame db : preserves tx_same (get_own_operator_id_tx db).
Proof. unfold get_own_operator_id_tx. frame. Qed.

Lemma set_max_frame n : preserves tx_same (set_max_operator_id_seen_tx n).
Proof. unfold set_max_operator_id_seen_tx. frame. keep_owners. Qed.

Lemma insert_skipped_frame id : preserves tx_same (insert_skipped_operator_add_tx id).
Proof. unfold insert_skipped_operator_add_tx. keep_owners. Qed.

Lemma delete_skipped_frame id : preserves tx_same (delete_skipped_operator_add_tx id).
Proof.
  intros tx. unfold delete_skipped_operator_add_tx, DELETE_SKIPPED_OPERATOR_ADD, to_sql, ensure.
  by destruct (_ <? _)%N.
Qed.

#[local] Hint Resolve operator_exists_frame own_id_frame set_max_frame insert_skipped_frame
  delete_skipped_frame : preserves.

Lemma insert_operator_frame db op : preserves tx_same (insert_operator_tx db op).
Proof. unfold insert_operator_tx. frame. keep_owners. Qed.

Lemma delete_operator_frame id : preserves tx_same (delete_operator_tx id).
Proof. unfold delete_operator_tx. frame; keep_owners. Qed.

Lemma update_status_frame cid b : preserves tx_same (update_status_tx cid b).
Proof. unfold update_status_tx. frame. keep_owners. Qed.

Lemma delete_validator_frame pk : preserves tx_same (delete_validator_tx pk).
Proof. unfold delete_validator_tx. frame. keep_owners. Qed.

Lemma update_fee_frame o fee : preserves tx_same (update_fee_recipient_tx o fee).
Proof.
  unfold update_fee_recipient_tx. frame. apply preserves_execute. intros sql sql' [= <-] o'.
  unfold owner_nonce. cbn. destruct (decide (o' = o)) as [->|Hne].
  - by rewrite lookup_insert_eq.
  - by rewrite lookup_insert_ne.
Qed.

Lemma insert_validator_frame db c v shares : preserves tx_same (insert_validator_tx db c v shares).
Proof.
  unfold insert_validator_tx, insert_share. frame; try keep_owners.
  apply preserves_execute. intros sql sql' H o'. unfold INSERT_OWNER in H.
  destruct (t_owners sql !! cl_owner c) as [r|] eqn:Hr; injection H as <-; [done|].
  unfold owner_nonce. cbn. destruct (decide (o' = cl_owner c)) as [->|Hne].
  - by rewrite lookup_insert_eq, Hr.
  - by rewrite lookup_insert_ne.
Qed.

Lemma has_own_share_frame db pk : preserves tx_same (has_own_share_tx db pk).
Proof. unfold has_own_share_tx. frame. Qed.

#[local] Hint Resolve insert_operator_frame delete_operator_frame update_status_frame
  delete_validator_frame update_fee_frame insert_validator_frame has_own_share_frame : preserves.

Lemma validate_operators_frame ids : preserves ev_same (validate_operators ids).
Proof. unfold validate_operators. frame. Qed.
#[local] Hint Resolve validate_operators_frame : preserves.

Lemma process_operator_added_frame db e : preserves ev_same (process_operator_added db e).
Proof. unfold process_operator_added, decode_from_log. frame. Qed.

Lemma process_operator_removed_frame e : preserves ev_same (process_operator_removed e).
Proof. unfold process_operator_removed, decode_from_log. frame. Qed.

Lemma process_validator_removed_frame e : preserves ev_same (process_validator_removed e).
Proof. unfold process_validator_removed, decode_from_log. frame. Qed.

Lemma process_cluster_status_frame b e : preserves ev_same (process_cluster_status b e).
Proof. unfold process_cluster_status, decode_from_log. frame. Qed.

Lemma process_fee_recipient_frame e : preserves ev_same (process_fee_recipient_updated e).
Proof. unfold process_fee_recipient_updated, decode_from_log. frame. Qed.

Lemma process_validator_exited_frame mode db live ts e :
  preserves ev_same (process_validator_exited mode db live ts e).
Proof.
  unfold process_validator_exited, verify_validator_owner, get_validator_index, is_our_validator, decode_from_log.
  frame.
Qed.

(** ** Counting *)

(** The owner that a log registers a validator for. *)
Definition registers (o : Address) (log : Log) : bool :=
  match log_event log with
  | LogValidatorAdded (Some e) => (va_owner e =? o)%N
  | _ => false
  end.

Definition registrations (o : Address) (logs : list Log) : nat := length (filter (λ log, registers o log) logs).

#[local] Arguments registrations o logs : simpl never.

(** The nonce after a number of registrations. *)
Definition nonce_after (n : option N) (k : nat) : option N := Nat.iter k (λ n, Some (next_nonce n)) n.

Lemma bump_nonce_sql o tx :
  wp (bump_and_get_nonce_tx o) (λ r tx',
    match r with Ok _ => tx_sql tx' = nonce_bumped o (tx_sql tx) | _ => True end) tx.
Proof.
  apply wp_bind, wp_execute; [|done|done]. intros sql [= <-]. apply wp_bind, wp_query.
  destruct (GET_NONCE _ _); [|done..]. apply wp_bind, wp_push_update, wp_ret. cbn.
  unfold nonce_bumped, owner_nonce. destruct (t_owners (tx_sql tx) !! o) as [r|]; [|done]. cbn.
  by destruct (ow_nonce r).
Qed.

Lemma nonce_bumped_nonce o sql o' :
  owner_nonce (nonce_bumped o sql) o' =
  if (o =? o')%N then Some (next_nonce (owner_nonce sql o')) else owner_nonce sql o'.
Proof.
  unfold owner_nonce at 1, nonce_bumped. cbn. destruct (N.eqb_spec o o') as [->|Hne].
  - by rewrite lookup_insert_eq.
  - by rewrite lookup_insert_ne.
Qed.

(** Whether it succeeds or is skipped, a registration counts once. *)
Lemma validator_added_nonce mode db e ev :
  wp (process_validator_added mode db (Some e)) (λ r ev',
    match r with
    | Err err => log_disposition err = AbortBatch ∨
        same_nonces (nonce_bumped (va_owner e) (tx_sql (ev_tx ev))) (tx_sql (ev_tx ev'))
    | _ => same_nonces (nonce_bumped (va_owner e) (tx_sql (ev_tx ev))) (tx_sql (ev_tx ev')) ∨ r = Panic
    end) ev.
Proof.
  apply wp_bind, wp_ret. cbv beta zeta.
  match goal with |- wp (mbind ?K _) _ _ => assert (HK : ∀ n, preserves ev_same (K n)) end.
  { intros n. unfold validate_validator_added_conflict. frame. }
  apply wp_bind. pose proof (bump_nonce_sql (va_owner e) (ev_tx ev)) as Hb. unfold wp, db_call in *.
  destruct (bump_and_get_nonce_tx (va_owner e) (ev_tx ev)) as [[n|err|] tx1]; cbn [fst snd map_err] in *;
    [|by left|by right].
  specialize (HK n (ev <| ev_tx := tx1 |>)). unfold ev_same, tx_same in HK. cbn [ev_tx] in HK.
  change (ev_tx (ev <| ev_tx := tx1 |>)) with tx1 in HK. rewrite Hb in HK.
  match goal with HK : same_nonces _ (tx_sql (ev_tx (snd ?x))) |- _ => destruct x as [[u|err|] ev'] end;
    cbn [fst snd] in *; [by left|by right|by right].
Qed.

Lemma process_log_nonce mode db live log ev :
  wp (process_or_skip mode db live log) (λ r ev',
    match r with
    | Ok _ => ∀ o, owner_nonce (tx_sql (ev_tx ev')) o =
        nonce_after (owner_nonce (tx_sql (ev_tx ev)) o) (if registers o log then 1 else 0)
    | _ => True
    end) ev.
Proof.
  assert (Hframe : ∀ m : action Ev ExecutionError unit, preserves ev_same m →
    (∀ o, registers o log = false) → process_log mode db live log = m →
    wp (process_or_skip mode db live log) (λ r ev',
      match r with
      | Ok _ => ∀ o, owner_nonce (tx_sql (ev_tx ev')) o =
          nonce_after (owner_nonce (tx_sql (ev_tx ev)) o) (if registers o log then 1 else 0)
      | _ => True
      end) ev).
  { intros m Hm Hno Heq. unfold wp, process_or_skip. rewrite Heq. specialize (Hm ev).
    destruct (m ev) as [[u|e|] ev']; cbn in *; [|destruct (log_disposition e); cbn; try done|done];
      intros o; rewrite Hno; apply Hm. }
  destruct (log_event log) as [| |e|e|e|e|e|e|e|e] eqn:Hlog;
    try (eapply Hframe; [|by unfold registers; rewrite Hlog|unfold process_log; rewrite Hlog; reflexivity]).
  - apply (preserves_ret _).
  - apply (preserves_ret _).
  - apply process_operator_added_frame.
  - apply process_operator_removed_frame.
  - destruct e as [e|].
    2: { eapply Hframe; [|by unfold registers; rewrite Hlog|unfold process_log; rewrite Hlog; reflexivity].
         unfold process_validator_added, decode_from_log. intros s. done. }
    unfold wp, process_or_skip, process_log. rewrite Hlog.
    pose proof (validator_added_nonce mode db e ev) as Hv. unfold wp in Hv.
    assert (Hdone : ∀ ev' : Ev, same_nonces (nonce_bumped (va_owner e) (tx_sql (ev_tx ev))) (tx_sql (ev_tx ev')) →
      ∀ o, owner_nonce (tx_sql (ev_tx ev')) o =
        nonce_after (owner_nonce (tx_sql (ev_tx ev)) o) (if registers o log then 1 else 0)).
    { intros ev' Hs o. rewrite (Hs o), nonce_bumped_nonce. unfold registers. rewrite Hlog. by destruct (_ =? _)%N. }
    destruct (process_validator_added mode db (Some e) ev) as [[u|err|] ev']; cbn [fst snd] in *; [| |done].
    + destruct Hv as [Hv|]; [|done]. by apply Hdone.
    + destruct Hv as [Hv|Hv]; [by rewrite Hv|]. destruct (log_disposition err); cbn; try done; by apply Hdone.
  - apply process_validator_removed_frame.
  - apply process_cluster_status_frame.
  - apply process_cluster_status_frame.
  - apply process_fee_recipient_frame.
  - apply process_validator_exited_frame.
Qed.

Lemma nonce_after_add n k j : nonce_after (nonce_after n k) j = nonce_after n (k + j).
Proof. unfold nonce_after. by rewrite Nat.add_comm, Nat.iter_add. Qed.

Lemma registrations_cons o log logs :
  registrations o (log :: logs) = (if registers o log then 1 else 0) + registrations o logs.
Proof. unfold registrations. rewrite filter_cons. by destruct (registers o log). Qed.

Lemma publish_sql us db db' : publish_pending_state_updates us db = Ok db' → db_sql db' = db_sql db.
Proof.
  unfold publish_pending_state_updates. destruct us; [by intros [= <-]|].
  by intros (st & _ & [= <-])%bind_ok.
Qed.

Lemma process_block_nonces mode commit live n logs ep :
  wp (process_block_logs mode commit live n logs) (λ r ep',
    r = Ok tt → ∀ o, owner_nonce (db_sql (ep_db ep')) o =
      nonce_after (owner_nonce (db_sql (ep_db ep)) o) (registrations o logs)) ep.
Proof.
  unfold wp, process_block_logs. set (db := ep_db ep).
  assert (Hloop : ∀ ev, wp (for_each (process_or_skip mode db live) logs) (λ r ev',
    match r with
    | Ok _ => ∀ o, owner_nonce (tx_sql (ev_tx ev')) o =
        nonce_after (owner_nonce (tx_sql (ev_tx ev)) o) (registrations o logs)
    | _ => True
    end) ev).
  { induction logs as [|log logs IH]; intros ev; cbn [for_each]; [by apply wp_ret|].
    apply wp_bind. eapply wp_mono; [apply process_log_nonce|]. intros [[]|e|] ev1 H1; [|done..].
    eapply wp_mono; [apply IH|]. intros [[]|e|] ev2 H2; [|done..].
    intros o. by rewrite H2, H1, nonce_after_add, registrations_cons. }
  specialize (Hloop (mkEv (mkTx (db_sql db) []) [])). unfold process_block_tx, wp in *.
  rewrite action_bind_eq. destruct (for_each _ logs _) as [[[]|e|] ev]; cbn [fst snd] in *; [|done..].
  assert (Hb : preserves ev_same (db_call (processed_block_tx n))).
  { unfold processed_block_tx. frame. keep_owners. }
  specialize (Hb ev). destruct (db_call (processed_block_tx n) ev) as [[[]|e|] ev']; cbn [fst snd] in *; [|done..].
  destruct (commit n); [|done]. destruct (publish_pending_state_updates _ _) as [db'|e|] eqn:Hp; [|done..].
  intros _ o. cbn [snd ep_db]. rewrite (publish_sql _ _ _ Hp). etrans; [exact (Hb o)|apply Hloop].
Qed.

(** The logs of the blocks of a batch are the logs of the batch. *)
Lemma batch_blocks_registrations end_block logs o :
  sum_list ((λ b, registrations o b.2) <$> batch_blocks end_block logs) = registrations o logs.
Proof.
  assert (Hg : sum_list ((λ b, registrations o b.2) <$> group_blocks end_block logs) = registrations o logs).
  { induction logs as [|log logs IH]; [done|]. cbn [group_blocks]. rewrite registrations_cons, <- IH.
    destruct (group_blocks end_block logs) as [|[m ls] rest]; cbn [with_buffer].
    - rewrite fmap_cons. cbn. rewrite registrations_cons. change (registrations o []) with 0. lia.
    - destruct (_ =? m)%N; rewrite !fmap_cons; cbn; rewrite !registrations_cons;
        change (registrations o []) with 0; lia. }
  unfold batch_blocks. case_decide; [done|].
  rewrite fmap_app, sum_list_with_app, Hg. cbn. change (registrations o []) with 0. lia.
Qed.

(** over a processed batch, the nonce of each owner advances by exactly the number
    of decoded registration events of that owner, whether the node accepted them or
    skipped them, starting at zero. *)
Theorem nonce_counts_registrations mode commit live logs end_block ep ep' o :
  process_logs mode commit live logs end_block ep = (Ok tt, ep') →
  owner_nonce (db_sql (ep_db ep')) o =
  nonce_after (owner_nonce (db_sql (ep_db ep)) o) (registrations o logs).
Proof.
  rewrite process_logs_blocks, <- (batch_blocks_registrations end_block).
  generalize (batch_blocks end_block logs). clear logs. intros blocks. revert ep.
  induction blocks as [|b blocks IH]; intros ep; cbn [for_each].
  { by intros [= <-]. }
  rewrite action_bind_eq. pose proof (process_block_nonces mode commit live b.1 b.2 ep) as Hb.
  unfold wp in Hb. change (process_block_logs mode commit live b.1 b.2) with (run_block mode commit live b) in Hb.
  destruct (run_block mode commit live b ep) as [[[]|e|] ep1]; cbn [fst snd] in Hb; [|done..].
  intros Hrun. rewrite (IH ep1 Hrun), (Hb eq_refl o), nonce_after_add. done.
Qed.
End nonces.

(** On the sample chain: of two registrations one is skipped, and both count. *)
Module SampleNonces.
Import SampleChain.

Lemma nonce_counts_registrations_witness :
  owner_nonce (db_sql (ep_db sample_node)) 99 = nonce_after None 2 ∧ nonce_after None 2 = Some 1%N.
Proof.
  split; [|reflexivity].
  rewrite (nonce_counts_registrations sample_mode (λ _, true) true sample_logs 9 fresh_node sample_node 99).
  - vm_compute. reflexivity.
  - unfold sample_node.
    pose proof (proj1 sample_run) as Hrun.
    destruct (process_logs sample_mode (λ _, true) true sample_logs 9 fresh_node) as [o ep].
    cbn in Hrun |- *. by rewrite Hrun.
Defined.
End SampleNonces.
