(* ===== verification/CollectorState.v ===== *)
(** * The task that reconstructs one signature

    [anchor/signature_collector/src/lib.rs], from [signature_collector] down: a collector
    gathers the partial signatures of one signing root and one validator, combines them as
    soon as there are enough, checks the result against the validator key, and answers
    everyone who waits.  When the result does not verify, the buffered shares are checked
    one by one against the share keys of the database and the bad ones are dropped.

    Signatures and keys go through the interface of [BlsInterface.v].  A [HashMap] is
    iterated in an unspecified order: [iteration] is that order.  Answers sent to waiting
    tasks are returned as a list, in order. *)

From S2P Require Import Prelude SsvTypes Messages ForkSchedule ValidationTypes DutyState.
From S2P Require Import ValidatorRules ConsensusValidation PartialValidation Subnet Validator MultiIndex.
From S2P Require Import NetworkState Sql BlsInterface.

(** The sending half of a oneshot channel, by name. *)
Abbreviation Notifier := N (only parsing).
(** [bls::Signature], by its bytes; the empty signature has none. *)
Abbreviation Signature := bytes (only parsing).

(** ** Data *)

Inductive ControlFlow := Continue | Break.

Inductive CollectorMessageKind :=
  | RegisterNotifier (notify : option Notifier) (required_companion : option Hash256)
      (threshold : N) (validator_pubkey : PublicKeyBytes)
  | PartialSignature (operator_id : OperatorId) (signature : Signature)
      (companion_root : option Hash256).

Record CollectedShare := mkCollectedShare {
  share_signature : Signature;
  companion_roots : option Hash256 * option Hash256;
}.

(** [roots.contains(&Some(root))] *)
Definition contains_root (root : Hash256) (roots : option Hash256 * option Hash256) : bool :=
  bool_decide (roots.1 = Some root) || bool_decide (roots.2 = Some root).

(** [if let Some(empty) = roots.iter_mut().find(|root| root.is_none()) { *empty = Some(root); }] *)
Definition fill_empty (root : Hash256) (roots : option Hash256 * option Hash256)
    : option Hash256 * option Hash256 :=
  match roots with
  | (None, b) => (Some root, b)
  | (Some a, None) => (Some a, Some root)
  | (Some a, Some b) => (Some a, Some b)
  end.

(** [NetworkDatabase::get_share_pubkeys_for_validator] ([database/src/share_operations.rs]),
    on the tables. *)
Definition get_share_pubkeys_for_validator (validator_pubkey : PublicKeyBytes) (sql : Sql)
    : gmap OperatorId PublicKeyBytes :=
  list_to_map ((λ kv, (kv.1.2, sr_share_pubkey kv.2)) <$>
    filter (λ kv, kv.1.1 = validator_pubkey) (map_to_list (t_shares sql))).

(** [SharePubkeyLoader::fetch]: [None] for the tables is a failed lookup. *)
Definition fetch (database : option Sql) (validator_pubkey : PublicKeyBytes)
    : option (gmap OperatorId PublicKeyBytes) :=
  match database with
  | None => None
  | Some sql =>
      let share_pubkeys := get_share_pubkeys_for_validator validator_pubkey sql in
      if decide (share_pubkeys = ∅) then None else Some share_pubkeys
  end.

Section collector.
Context {PublicKey Error : Type} {Lib : BlsLib bytes PublicKey bytes N Error}.
(** The order in which the map of shares is iterated. *)
Context (iteration : list (OperatorId * CollectedShare) → list (OperatorId * CollectedShare)).

Inductive ReconstructionFailure :=
  | Combination (error : Error)
  | MasterVerification.

Record CollectorRegistration := {
  reg_threshold : N;
  reg_validator_pubkey : PublicKeyBytes;
  decompressed_validator_pubkey : PublicKey;
  reg_required_companion : option Hash256;
}.

Record SignatureCollectorState := {
  cs_signing_root : Hash256;
  cs_notifiers : list Notifier;
  cs_signature_share : gmap OperatorId CollectedShare;
  cs_full_signature : option Signature;
  cs_registration : option CollectorRegistration;
}.

#[export] Instance SignatureCollectorState_eta : Eta SignatureCollectorState := λ s,
  {| cs_signing_root := cs_signing_root s; cs_notifiers := cs_notifiers s;
     cs_signature_share := cs_signature_share s; cs_full_signature := cs_full_signature s;
     cs_registration := cs_registration s |}.

(** Answers sent by a step. *)
Abbreviation Answers := (list (Notifier * Signature)) (only parsing).

(** ** Operations of [SignatureCollectorState] *)

Definition collector_state_new (signing_root : Hash256) : SignatureCollectorState :=
  {| cs_signing_root := signing_root; cs_notifiers := []; cs_signature_share := ∅;
     cs_full_signature := None; cs_registration := None |}.

(** The conflict test of [register_request]. *)
Definition registration_matches (new_threshold : N) (validator_pubkey : PublicKeyBytes)
    (required_companion : option Hash256) (registration : CollectorRegistration) : bool :=
  bool_decide (new_threshold = reg_threshold registration) &&
  bool_decide (validator_pubkey = reg_validator_pubkey registration) &&
  bool_decide (required_companion = reg_required_companion registration).

(** The part of [register_request] that queues the caller or answers it. *)
Definition add_notifier (notify : option Notifier) (st : SignatureCollectorState)
    : SignatureCollectorState * Answers :=
  match notify with
  | None => (st, [])
  | Some n =>
      match cs_full_signature st with
      | Some full_signature => (st, [(n, full_signature)])
      | None => (st <| cs_notifiers := cs_notifiers st ++ [n] |>, [])
      end
  end.

(** [SignatureCollectorState::register_request] *)
Definition register_request (notify : option Notifier) (new_threshold : N)
    (validator_pubkey : PublicKeyBytes) (required_companion : option Hash256)
    (st : SignatureCollectorState) : ControlFlow * (SignatureCollectorState * Answers) :=
  match cs_registration st with
  | Some registration =>
      if registration_matches new_threshold validator_pubkey required_companion registration
      then (Continue, add_notifier notify st)
      else (Break, (st, []))
  | None =>
      match decompress validator_pubkey with
      | None => (Break, (st, []))
      | Some public_key =>
          let st := st <| cs_registration := Some
            {| reg_threshold := new_threshold; reg_validator_pubkey := validator_pubkey;
               decompressed_validator_pubkey := public_key;
               reg_required_companion := required_companion |} |> in
          let st := match required_companion with
                    | Some required_root =>
                        st <| cs_signature_share :=
                          filter (λ kv, contains_root required_root (companion_roots kv.2))
                            (cs_signature_share st) |>
                    | None => st
                    end in
          (Continue, add_notifier notify st)
      end
  end.

(** The test of [add_partial_signature] against the required companion. *)
Definition companion_refused (companion_root : option Hash256) (st : SignatureCollectorState)
    : bool :=
  match cs_registration st ≫= reg_required_companion with
  | Some required_root => negb (bool_decide (companion_root = Some required_root))
  | None => false
  end.

(** [SignatureCollectorState::add_partial_signature] *)
Definition add_partial_signature (operator_id : OperatorId) (signature : Signature)
    (companion_root : option Hash256) (st : SignatureCollectorState) : SignatureCollectorState :=
  if decide (is_Some (cs_full_signature st)) then st
  else if companion_refused companion_root st then st
  else
    match cs_signature_share st !! operator_id with
    | None =>
        st <| cs_signature_share :=
          <[operator_id := mkCollectedShare signature (companion_root, None)]>
            (cs_signature_share st) |>
    | Some share =>
        if negb (bool_decide (share_signature share = signature)) then st
        else
          match companion_root with
          | Some root =>
              if contains_root root (companion_roots share) then st
              else st <| cs_signature_share :=
                     <[operator_id := mkCollectedShare (share_signature share)
                         (fill_empty root (companion_roots share))]> (cs_signature_share st) |>
          | None => st
          end
    end.

(** The pairs handed to [combine_signatures]. *)
Definition shares_to_combine (shares : gmap OperatorId CollectedShare)
    : list (OperatorId * Signature) :=
  prod_map id share_signature <$> iteration (map_to_list shares).

(** [SignatureCollectorState::try_reconstruct] *)
Definition try_reconstruct (st : SignatureCollectorState)
    : outcome ReconstructionFailure (option Signature) :=
  match cs_full_signature st, cs_registration st with
  | Some _, _ | None, None => Ok None
  | None, Some registration =>
      if (N.of_nat (size (cs_signature_share st)) <? reg_threshold registration)%N then Ok None
      else
        match combine_shares (shares_to_combine (cs_signature_share st)) with
        | CombineError e => Err (Combination e)
        | CombinePanic => Panic
        | Combined signature =>
            if sig_verify signature (decompressed_validator_pubkey registration)
                 (cs_signing_root st)
            then Ok (Some signature)
            else Err MasterVerification
        end
  end.

(** [SignatureCollectorState::complete_reconstruction] *)
Definition complete_reconstruction (signature : Signature) (st : SignatureCollectorState)
    : SignatureCollectorState * Answers :=
  (st <| cs_signature_share := ∅ |> <| cs_notifiers := [] |>
      <| cs_full_signature := Some signature |>,
   (λ n, (n, signature)) <$> cs_notifiers st).

(** The test of [remove_invalid_shares] on one share. *)
Definition share_is_valid (share_pubkeys : gmap OperatorId PublicKeyBytes)
    (signing_root : Hash256) (kv : OperatorId * CollectedShare) : bool :=
  match share_pubkeys !! kv.1 ≫= decompress with
  | Some public_key => sig_verify (share_signature kv.2) public_key signing_root
  | None => false
  end.

(** [SignatureCollectorState::remove_invalid_shares] *)
Definition remove_invalid_shares (share_pubkeys : gmap OperatorId PublicKeyBytes)
    (st : SignatureCollectorState) : list OperatorId * SignatureCollectorState :=
  let is_valid := share_is_valid share_pubkeys (cs_signing_root st) in
  (sort_by_key id (filter (λ kv, negb (is_valid kv)) (map_to_list (cs_signature_share st))).*1,
   st <| cs_signature_share := filter (λ kv, is_valid kv) (cs_signature_share st) |>).

(** ** The task *)

(** Where a collector is: in its loop, returned (its state and the callers it holds are
    dropped), or dead after a panic. *)
Inductive CollectorTask :=
  | Collecting (st : SignatureCollectorState)
  | Returned
  | Panicked.

(** [ControlFlow::Continue] goes round the loop. *)
Definition continue_with (step : SignatureCollectorState * Answers) : CollectorTask * Answers :=
  (Collecting step.1, step.2).

(** [handle_reconstruction_fallback] *)
Definition handle_reconstruction_fallback (database : option Sql) (st : SignatureCollectorState)
    : CollectorTask * Answers :=
  match cs_registration st with
  | None => (Returned, [])
  | Some registration =>
      match fetch database (reg_validator_pubkey registration) with
      | None => (Returned, [])
      | Some share_pubkeys =>
          let '(invalid_operator_ids, st) := remove_invalid_shares share_pubkeys st in
          let remaining_count := N.of_nat (size (cs_signature_share st)) in
          match invalid_operator_ids with
          | [] => (Returned, [])
          | _ :: _ =>
              if (remaining_count <? reg_threshold registration)%N then (Collecting st, [])
              else
                match try_reconstruct st with
                | Ok (Some signature) => continue_with (complete_reconstruction signature st)
                | Ok None | Err _ => (Returned, [])
                | Panic => (Panicked, [])
                end
          end
      end
  end.

(** The second half of the loop body of [signature_collector_loop]. *)
Definition reconstruct (database : option Sql) (st : SignatureCollectorState)
    : CollectorTask * Answers :=
  match try_reconstruct st with
  | Ok None => (Collecting st, [])
  | Ok (Some signature) => continue_with (complete_reconstruction signature st)
  | Err _ => handle_reconstruction_fallback database st
  | Panic => (Panicked, [])
  end.

(** The loop body of [signature_collector_loop]. *)
Definition collector_receive (database : option Sql) (message : CollectorMessageKind)
    (st : SignatureCollectorState) : CollectorTask * Answers :=
  match message with
  | RegisterNotifier notify required_companion threshold validator_pubkey =>
      match register_request notify threshold validator_pubkey required_companion st with
      | (Break, _) => (Returned, [])
      | (Continue, (st, answers)) =>
          let '(task, answers') := reconstruct database st in (task, answers ++ answers')
      end
  | PartialSignature operator_id signature companion_root =>
      reconstruct database (add_partial_signature operator_id signature companion_root st)
  end.

(** What [signature_collector] waits for: a message of its queue, with the tables as they
    are should it have to read them, or the end of the map entry that owns it.  A cancelled
    lookup drops the message with the state and has answered no one, so it is a
    cancellation before the message. *)
Inductive CollectorEvent :=
  | Received (database : option Sql) (message : CollectorMessageKind)
  | LifetimeEnd.

Definition collector_step (ev : CollectorEvent) (task : CollectorTask) : CollectorTask * Answers :=
  match task, ev with
  | Collecting st, Received database message => collector_receive database message st
  | Collecting _, LifetimeEnd => (Returned, [])
  | Returned, _ => (Returned, [])
  | Panicked, _ => (Panicked, [])
  end.

(** [signature_collector] on a sequence of events: the task and everything it answered. *)
Fixpoint collector_run (evs : list CollectorEvent) (task : CollectorTask)
    : CollectorTask * Answers :=
  match evs with
  | [] => (task, [])
  | ev :: evs =>
      let '(task, answers) := collector_step ev task in
      let '(task, answers') := collector_run evs task in
      (task, answers ++ answers')
  end.

Definition signature_collector (signing_root : Hash256) (evs : list CollectorEvent)
    : CollectorTask * Answers :=
  collector_run evs (Collecting (collector_state_new signing_root)).
End collector.
