(* ===== verification/CollectorRuns.v ===== *)
(** * Runs of a signature collector

    What the task of [CollectorState.v] guarantees over any sequence of events: every
    answer is a signature that verifies under the key the caller registered with, made of
    enough distinct operators' shares, each with the evidence the caller required; and
    every caller is answered once, waits, or is dropped with the task. *)

From S2P Require Import Prelude SsvTypes Messages ForkSchedule ValidationTypes DutyState.
From S2P Require Import ValidatorRules ConsensusValidation PartialValidation Subnet Validator MultiIndex.
From S2P Require Import NetworkState Sql BlsInterface CollectorState.

(** ** What the events of a run contain *)

(** An operator's share arrived, with this companion root. *)
Definition sent (evs : list CollectorEvent) (op : OperatorId) (sig : Signature)
    (companion : option Hash256) : Prop :=
  ∃ db, Received db (PartialSignature op sig companion) ∈ evs.

(** Someone registered. *)
Definition asked (evs : list CollectorEvent) (notify : option Notifier)
    (companion : option Hash256) (threshold : N) (vk : PublicKeyBytes) : Prop :=
  ∃ db, Received db (RegisterNotifier notify companion threshold vk) ∈ evs.

(** The callers of a sequence of events, in order. *)
Definition callers (evs : list CollectorEvent) : list Notifier :=
  omap (λ ev, match ev with
              | Received _ (RegisterNotifier notify _ _ _) => notify
              | _ => None
              end) evs.

Section runs.
Context {PublicKey Error : Type} {Lib : BlsLib bytes PublicKey bytes N Error}.
Context (iteration : list (OperatorId * CollectedShare) → list (OperatorId * CollectedShare)).
Hypothesis iteration_perm : ∀ l, iteration l ≡ₚ l.

Abbreviation State := (SignatureCollectorState (PublicKey:=PublicKey)).
Abbreviation Task := (CollectorTask (PublicKey:=PublicKey)).
Implicit Types (st : State) (task : Task) (evs : list CollectorEvent).

(** ** Runs *)

Lemma collector_run_app evs evs' task :
  collector_run iteration (evs ++ evs') task =
  let '(task', answers) := collector_run iteration evs task in
  let '(task'', answers') := collector_run iteration evs' task' in (task'', answers ++ answers').
Proof.
  revert task. induction evs as [|ev evs IH]; intros task; cbn [collector_run app].
  - by destruct (collector_run iteration evs' task).
  - destruct (collector_step iteration ev task) as [task1 ans1]. rewrite IH.
    destruct (collector_run iteration evs task1) as [task2 ans2].
    destruct (collector_run iteration evs' task2) as [task3 ans3].
    by rewrite (assoc_L (++)).
Qed.

(** The pairs handed to the library are the map's shares. *)
Lemma shares_to_combine_perm m :
  shares_to_combine iteration m ≡ₚ prod_map id share_signature <$> map_to_list m.
Proof. unfold shares_to_combine. by rewrite iteration_perm. Qed.

Lemma shares_to_combine_ids m : (shares_to_combine iteration m).*1 ≡ₚ (map_to_list m).*1.
Proof.
  rewrite shares_to_combine_perm, <- list_fmap_compose. by apply reflexive_eq, list_fmap_ext.
Qed.

Lemma shares_to_combine_nodup m : NoDup (shares_to_combine iteration m).*1.
Proof. rewrite shares_to_combine_ids. apply NoDup_fst_map_to_list. Qed.

Lemma shares_to_combine_length m : length (shares_to_combine iteration m) = size m.
Proof. by rewrite shares_to_combine_perm, length_fmap, length_map_to_list. Qed.

Lemma elem_of_shares_to_combine m op sig :
  (op, sig) ∈ shares_to_combine iteration m ↔
  ∃ share, m !! op = Some share ∧ share_signature share = sig.
Proof.
  rewrite shares_to_combine_perm, list_elem_of_fmap. split.
  - intros ([op' share] & [= -> ->] & Hin). exists share. by rewrite <- elem_of_map_to_list.
  - intros (share & Hin & <-). exists (op, share). by rewrite elem_of_map_to_list.
Qed.

(** What a successful reconstruction means. *)
Lemma try_reconstruct_some st s :
  try_reconstruct iteration st = Ok (Some s) →
  cs_full_signature st = None ∧ ∃ reg, cs_registration st = Some reg ∧
    (reg_threshold reg <= N.of_nat (size (cs_signature_share st)))%N ∧
    combine_shares (shares_to_combine iteration (cs_signature_share st)) = Combined s ∧
    sig_verify s (decompressed_validator_pubkey reg) (cs_signing_root st) = true.
Proof.
  unfold try_reconstruct. destruct (cs_full_signature st), (cs_registration st) as [reg|]; [done..| |done].
  destruct (N.ltb_spec (N.of_nat (size (cs_signature_share st))) (reg_threshold reg)); [done|].
  destruct (combine_shares _) as [s'| |] eqn:Hc; [|done..].
  destruct (sig_verify s' _ _) eqn:Hv; [|done]. intros [= <-]. eauto 10.
Qed.

(** ** Accounting for the callers *)

Definition waiting task : list Notifier :=
  match task with Collecting st => cs_notifiers st | _ => [] end.

(** Callers come in through [new]; they are answered, wait, or are dropped when the task
    ends. *)
Definition accounts (new : list Notifier) task (r : Task * list (Notifier * Signature)) : Prop :=
  ∃ dropped, waiting task ++ new ≡ₚ r.2.*1 ++ waiting r.1 ++ dropped ∧
    (∀ st, r.1 = Collecting st → dropped = []).

Lemma accounts_dropped new task task' :
  (∀ st, task' ≠ Collecting st) → accounts new task (task', []).
Proof.
  intros Ht. exists (waiting task ++ new). split; [|naive_solver].
  destruct task'; [naive_solver|done..].
Qed.

Lemma accounts_complete st s :
  accounts [] (Collecting st) (continue_with (complete_reconstruction s st)).
Proof.
  exists []. split; [|done]. cbn. rewrite !app_nil_r, <- list_fmap_compose.
  apply reflexive_eq. symmetry. apply list_fmap_id.
Qed.

Lemma accounts_same st st' : cs_notifiers st' = cs_notifiers st →
  accounts [] (Collecting st) (Collecting st', []).
Proof. intros Hn. exists []. split; [|done]. cbn. by rewrite Hn, !app_nil_r. Qed.

Lemma accounts_fallback db st :
  accounts [] (Collecting st) (handle_reconstruction_fallback iteration db st).
Proof.
  unfold handle_reconstruction_fallback.
  destruct (cs_registration st) as [reg|]; [|by apply accounts_dropped].
  destruct (fetch db _) as [keys|]; [|by apply accounts_dropped].
  destruct (remove_invalid_shares keys st) as [[|bad bads] st'] eqn:Hr; [by apply accounts_dropped|].
  assert (cs_notifiers st' = cs_notifiers st) as Hn.
  { unfold remove_invalid_shares in Hr. by simplify_eq. }
  destruct (_ <? _)%N; [by apply accounts_same|].
  destruct (try_reconstruct iteration st') as [[s|]| |]; try by apply accounts_dropped.
  destruct (accounts_complete st' s) as [dr Hd]. exists dr. cbn [waiting] in *. by rewrite Hn in Hd.
Qed.

Lemma accounts_reconstruct db st : accounts [] (Collecting st) (reconstruct iteration db st).
Proof.
  unfold reconstruct. destruct (try_reconstruct iteration st) as [[s|]| |].
  - apply accounts_complete.
  - by apply accounts_same.
  - apply accounts_fallback.
  - by apply accounts_dropped.
Qed.

Lemma add_partial_signature_notifiers op sig companion st :
  cs_notifiers (add_partial_signature op sig companion st) = cs_notifiers st.
Proof. unfold add_partial_signature. repeat case_match; done. Qed.

Lemma add_notifier_accounts notify st st' answers :
  add_notifier notify st = (st', answers) →
  cs_notifiers st ++ option_list notify ≡ₚ answers.*1 ++ cs_notifiers st'.
Proof.
  unfold add_notifier. destruct notify as [n|]; [|intros [= <- <-]; cbn; by rewrite app_nil_r].
  destruct (cs_full_signature st); intros [= <- <-]; cbn; [|done].
  by rewrite (comm (++)).
Qed.

Lemma register_request_accounts notify t vk c st st' answers :
  register_request notify t vk c st = (Continue, (st', answers)) →
  cs_notifiers st ++ option_list notify ≡ₚ answers.*1 ++ cs_notifiers st'.
Proof.
  unfold register_request. destruct (cs_registration st) as [reg|].
  - destruct (registration_matches t vk c reg); [|done]. intros [= ?]. by apply add_notifier_accounts.
  - destruct (decompress vk) as [pk|]; [|done]. intros [= <-%add_notifier_accounts].
    by destruct c.
Qed.

Lemma accounts_step ev task :
  accounts (callers [ev]) task (collector_step iteration ev task).
Proof.
  destruct task as [st| |]; [|by apply accounts_dropped..].
  destruct ev as [db [notify c t vk|op sig c]|]; [| |by apply accounts_dropped]; cbn [collector_step collector_receive].
  - destruct (register_request notify t vk c st) as [[] [st' ans]] eqn:Hreq; [|by apply accounts_dropped].
    apply register_request_accounts in Hreq.
    destruct (accounts_reconstruct db st') as (dr & Hp & Hd).
    destruct (reconstruct iteration db st') as [task' ans']. cbn [fst snd waiting] in *.
    exists dr. split; [|done]. cbn [fst snd waiting]. rewrite app_nil_r in Hp.
    replace (callers _) with (option_list notify) by (by destruct notify).
    rewrite Hreq, Hp, fmap_app. by rewrite !(assoc_L (++)).
  - destruct (accounts_reconstruct db (add_partial_signature op sig c st)) as (dr & Hp & Hd).
    exists dr. cbn [waiting] in *. by rewrite add_partial_signature_notifiers in Hp.
Qed.

Lemma accounts_run evs task : accounts (callers evs) task (collector_run iteration evs task).
Proof.
  revert task. induction evs as [|ev evs IH]; intros task; cbn [collector_run].
  - exists []. cbn. by rewrite !app_nil_r.
  - destruct (accounts_step ev task) as (d1 & Hp1 & Hd1).
    destruct (collector_step iteration ev task) as [task1 ans1] eqn:Hs.
    destruct (IH task1) as (d2 & Hp2 & Hd2).
    destruct (collector_run iteration evs task1) as [task2 ans2] eqn:Hr. cbn [fst snd] in *.
    exists (d1 ++ d2). split; cbn [fst snd].
    + replace (callers (ev :: evs)) with (callers [ev] ++ callers evs)
        by (unfold callers; cbn; by case_match).
      rewrite (assoc_L (++)), Hp1, fmap_app.
      transitivity (ans1.*1 ++ (waiting task1 ++ callers evs) ++ d1); [solve_Permutation|].
      rewrite Hp2. solve_Permutation.
    + intros st ->.
      destruct task1 as [st1| |]; [|exfalso; revert Hr..].
      * by rewrite (Hd1 st1), (Hd2 st).
      * clear. induction evs as [|ev evs IH]; cbn; [done|]. by destruct (collector_run _ evs _); cbn.
      * clear. induction evs as [|ev evs IH]; cbn; [done|]. by destruct (collector_run _ evs _); cbn.
Qed.

(** ** What is behind an answer *)

(** The signature verifies under the registered key and combines the shares of at least
    the threshold of distinct operators, each of which arrived with the required
    companion. *)
Definition justified evs (root : Hash256) (threshold : N) (companion : option Hash256)
    (pk : PublicKey) (s : Signature) : Prop :=
  sig_verify s pk root = true ∧
  ∃ sel, NoDup sel.*1 ∧ (threshold <= len sel)%N ∧ combine_shares sel = Combined s ∧
    ∀ op sig, (op, sig) ∈ sel → ∃ c, sent evs op sig c ∧ (companion = None ∨ c = companion).

(** The caller asked, and what it got is justified by its own request. *)
Definition good_answer evs (root : Hash256) (answer : Notifier * Signature) : Prop :=
  ∃ companion threshold vk pk, asked evs (Some answer.1) companion threshold vk ∧
    decompress vk = Some pk ∧ justified evs root threshold companion pk answer.2.

Definition share_ok evs (op : OperatorId) (share : CollectedShare) : Prop :=
  (∃ c, sent evs op (share_signature share) c) ∧
  ∀ r, contains_root r (companion_roots share) → sent evs op (share_signature share) (Some r).

Definition required_in (reg : CollectorRegistration (PublicKey:=PublicKey))
    (share : CollectedShare) : Prop :=
  match reg_required_companion reg with
  | Some r => contains_root r (companion_roots share)
  | None => True
  end.

Record collector_inv evs (root : Hash256) st : Prop := {
  ci_root : cs_signing_root st = root;
  ci_shares : map_Forall (share_ok evs) (cs_signature_share st);
  ci_decompressed : ∀ reg, cs_registration st = Some reg →
    decompress (reg_validator_pubkey reg) = Some (decompressed_validator_pubkey reg) ∧
    map_Forall (λ _, required_in reg) (cs_signature_share st);
  ci_waiting : ∀ n, n ∈ cs_notifiers st → ∃ reg, cs_registration st = Some reg ∧
    asked evs (Some n) (reg_required_companion reg) (reg_threshold reg) (reg_validator_pubkey reg);
  ci_done : ∀ s, cs_full_signature st = Some s →
    cs_notifiers st = [] ∧ cs_signature_share st = ∅ ∧ ∃ reg, cs_registration st = Some reg ∧
    justified evs root (reg_threshold reg) (reg_required_companion reg)
      (decompressed_validator_pubkey reg) s;
}.

Definition task_ok evs root task : Prop :=
  match task with Collecting st => collector_inv evs root st | _ => True end.

Definition step_ok evs root (r : Task * list (Notifier * Signature)) : Prop :=
  task_ok evs root r.1 ∧ Forall (good_answer evs root) r.2.

Lemma collector_inv_new evs root : collector_inv evs root (collector_state_new root).
Proof. split; cbn; [done|apply map_Forall_empty|done|by intros n ?%not_elem_of_nil|done]. Qed.

(** A subset of the shares keeps the invariant. *)
Lemma collector_inv_filter evs root st (P : OperatorId * CollectedShare → Prop)
    `{!∀ x, Decision (P x)} :
  collector_inv evs root st →
  collector_inv evs root (st <| cs_signature_share := filter P (cs_signature_share st) |>).
Proof.
  intros [Hr Hs Hd Hw Hdone]. split; cbn; [done| | |done|].
  - intros op sh [Hin _]%map_lookup_filter_Some. eauto.
  - intros reg Hreg. destruct (Hd reg Hreg) as [? Hreq]. split; [done|].
    intros op sh [Hin _]%map_lookup_filter_Some. eauto.
  - intros s Hf. destruct (Hdone s Hf) as (? & -> & ?). rewrite map_filter_empty. eauto.
Qed.

Lemma try_reconstruct_justified evs root st s :
  collector_inv evs root st → try_reconstruct iteration st = Ok (Some s) →
  ∃ reg, cs_registration st = Some reg ∧
    justified evs root (reg_threshold reg) (reg_required_companion reg)
      (decompressed_validator_pubkey reg) s.
Proof.
  intros Hinv (_ & reg & Hreg & Ht & Hc & Hv)%try_reconstruct_some. exists reg. split; [done|].
  rewrite (ci_root _ _ _ Hinv) in Hv. split; [done|].
  exists (shares_to_combine iteration (cs_signature_share st)).
  split; [apply shares_to_combine_nodup|].
  split; [unfold len; by rewrite shares_to_combine_length|]. split; [done|].
  intros op sig (share & Hin & <-)%elem_of_shares_to_combine.
  destruct (ci_shares _ _ _ Hinv op share Hin) as [[c Hc'] Hroots].
  destruct (ci_decompressed _ _ _ Hinv reg Hreg) as [_ Hreq]. specialize (Hreq op share Hin).
  unfold required_in in Hreq. destruct (reg_required_companion reg) as [r|]; eauto.
Qed.

Lemma complete_ok evs root st s :
  collector_inv evs root st → try_reconstruct iteration st = Ok (Some s) →
  step_ok evs root (continue_with (complete_reconstruction s st)).
Proof.
  intros Hinv Hrec. destruct (try_reconstruct_justified _ _ _ _ Hinv Hrec) as (reg & Hreg & Hj).
  destruct (ci_decompressed _ _ _ Hinv reg Hreg) as [Hdec _]. split; cbn.
  - split; cbn; [apply Hinv|apply map_Forall_empty| |set_solver|].
    + intros reg' Hreg'. rewrite Hreg in Hreg'. simplify_eq. split; [done|]. apply map_Forall_empty.
    + intros s' [= <-]. eauto 10.
  - apply Forall_fmap, Forall_forall. intros n Hn.
    destruct (ci_waiting _ _ _ Hinv n Hn) as (reg' & Hreg' & Ha).
    rewrite Hreg in Hreg'. simplify_eq. do 4 eexists. split; [exact Ha|]. split; [exact Hdec|done].
Qed.

Lemma fallback_ok evs root db st :
  collector_inv evs root st → step_ok evs root (handle_reconstruction_fallback iteration db st).
Proof.
  intros Hinv. unfold handle_reconstruction_fallback.
  destruct (cs_registration st) as [reg|]; [|done].
  destruct (fetch db _) as [keys|]; [|done].
  destruct (remove_invalid_shares keys st) as [[|bad bads] st'] eqn:Hr; [done|].
  assert (collector_inv evs root st') as Hinv'.
  { unfold remove_invalid_shares in Hr. simplify_eq. by apply collector_inv_filter. }
  destruct (_ <? _)%N; [by split|].
  destruct (try_reconstruct iteration st') as [[s|]| |] eqn:Hrec; try done.
  by apply complete_ok.
Qed.

Lemma reconstruct_ok evs root db st :
  collector_inv evs root st → step_ok evs root (reconstruct iteration db st).
Proof.
  intros Hinv. unfold reconstruct.
  destruct (try_reconstruct iteration st) as [[s|]| |] eqn:Hrec; try done.
  - by apply complete_ok.
  - by apply fallback_ok.
Qed.

Lemma contains_root_spec r (roots : option Hash256 * option Hash256) :
  contains_root r roots ↔ roots.1 = Some r ∨ roots.2 = Some r.
Proof. unfold contains_root. rewrite orb_True, !bool_decide_spec. done. Qed.

Lemma contains_fill_empty r r' roots :
  contains_root r' (fill_empty r roots) →
  contains_root r' roots ∨ r' = r.
Proof. rewrite !contains_root_spec. destruct roots as [[a|] [b|]]; cbn; naive_solver. Qed.

Lemma fill_empty_contains r r' roots :
  contains_root r' roots → contains_root r' (fill_empty r roots).
Proof. rewrite !contains_root_spec. destruct roots as [[a|] [b|]]; cbn; naive_solver. Qed.

(** One share may be added or replaced by one that is as good. *)
Lemma collector_inv_insert evs root st op share :
  collector_inv evs root st → cs_full_signature st = None → share_ok evs op share →
  (∀ reg, cs_registration st = Some reg → required_in reg share) →
  collector_inv evs root
    (st <| cs_signature_share := <[op := share]> (cs_signature_share st) |>).
Proof.
  intros [Hr Hs Hd Hw Hdone] Hf Hok Hreq. split; cbn; [done| | |done|by rewrite Hf].
  - by apply map_Forall_insert_2.
  - intros reg Hreg. destruct (Hd reg Hreg). split; [done|]. apply map_Forall_insert_2; auto.
Qed.

Lemma add_partial_signature_ok evs root st op sig c :
  sent evs op sig c → collector_inv evs root st →
  collector_inv evs root (add_partial_signature op sig c st).
Proof.
  intros Hsent Hinv. unfold add_partial_signature. case_decide as Hfull; [done|].
  rewrite <- eq_None_not_Some in Hfull.
  destruct (companion_refused c st) eqn:Hreq; [done|].
  assert (∀ reg, cs_registration st = Some reg →
    reg_required_companion reg = None ∨ reg_required_companion reg = c) as Hc.
  { intros reg Hreg. unfold companion_refused in Hreq. rewrite Hreg in Hreq. cbn in Hreq.
    destruct (reg_required_companion reg); [|by left]. right. by split_and_hyps. }
  destruct (cs_signature_share st !! op) as [share|] eqn:Hop.
  - destruct (ci_shares _ _ _ Hinv op share Hop) as [Hs Hroots].
    destruct (negb _) eqn:Hsame; [done|]. split_and_hyps. subst sig.
    destruct c as [r|]; [|done]. destruct (contains_root r _) eqn:Hcon; [done|].
    apply collector_inv_insert; [done..| |].
    + split; [done|]. cbn. intros r' [?| ->]%contains_fill_empty; eauto.
    + intros reg Hreg. destruct (ci_decompressed _ _ _ Hinv reg Hreg) as [_ Hall].
      specialize (Hall op share Hop). unfold required_in in *.
      destruct (reg_required_companion reg); [|done]. by apply fill_empty_contains.
  - apply collector_inv_insert; [done..| |].
    + split; [by eexists|]. cbn. intros r [H|H]%contains_root_spec; [|done]. cbn in H. by subst.
    + intros reg Hreg. unfold required_in. destruct (Hc reg Hreg) as [->| ->]; [done|].
      destruct c; [|done]. rewrite contains_root_spec. by left.
Qed.

Lemma add_notifier_ok evs root st notify reg st' answers :
  collector_inv evs root st → cs_registration st = Some reg →
  asked evs notify (reg_required_companion reg) (reg_threshold reg) (reg_validator_pubkey reg) →
  add_notifier notify st = (st', answers) →
  collector_inv evs root st' ∧ Forall (good_answer evs root) answers.
Proof.
  intros Hinv Hreg Hask. unfold add_notifier.
  destruct notify as [n|]; [|intros [= <- <-]; by split].
  destruct (ci_decompressed _ _ _ Hinv reg Hreg) as [Hdec _].
  destruct (cs_full_signature st) as [s|] eqn:Hfull; intros [= <- <-].
  - split; [done|]. constructor; [|done].
    destruct (ci_done _ _ _ Hinv s Hfull) as (_ & _ & reg' & Hreg' & Hj).
    rewrite Hreg in Hreg'. simplify_eq. do 4 eexists. split; [exact Hask|]. split; [exact Hdec|done].
  - split; [|done]. destruct Hinv as [Hr Hs Hd Hw Hdone]. split; cbn; [done..| |by rewrite Hfull].
    intros m [Hm|Hm]%elem_of_app; [auto|]. apply list_elem_of_singleton in Hm. subst. eauto.
Qed.

Lemma register_request_ok evs root st notify t vk c st' answers :
  collector_inv evs root st → asked evs notify c t vk →
  register_request notify t vk c st = (Continue, (st', answers)) →
  collector_inv evs root st' ∧ Forall (good_answer evs root) answers.
Proof.
  intros Hinv Hask. unfold register_request. destruct (cs_registration st) as [reg|] eqn:Hreg.
  - destruct (registration_matches t vk c reg) eqn:Hm; [|done]. intros [= Hadd].
    unfold registration_matches in Hm. split_and_hyps. subst.
    by eapply add_notifier_ok.
  - destruct (decompress vk) as [pk|] eqn:Hdec; [|done]. intros [= Hadd].
    revert Hadd. apply add_notifier_ok with
      (reg := {| reg_threshold := t; reg_validator_pubkey := vk;
                 decompressed_validator_pubkey := pk; reg_required_companion := c |});
      [|by destruct c|done].
    assert (cs_full_signature st = None) as Hf.
    { destruct (cs_full_signature st) as [s|] eqn:Hf; [|done].
      destruct (ci_done _ _ _ Hinv s Hf) as (_ & _ & reg & ? & _). congruence. }
    destruct Hinv as [Hr Hs Hd Hw Hdone]. destruct c as [r|]; split; cbn; try done.
    + intros op sh [Hin _]%map_lookup_filter_Some. eauto.
    + intros reg [= <-]. split; [done|]. by intros op sh [_ Hin]%map_lookup_filter_Some.
    + intros n (reg & ? & _)%Hw. congruence.
    + intros s. congruence.
    + intros reg [= <-]. by split.
    + intros n (reg & ? & _)%Hw. congruence.
    + intros s. congruence.
Qed.

Lemma collector_step_ok evs root ev task :
  ev ∈ evs → task_ok evs root task → step_ok evs root (collector_step iteration ev task).
Proof.
  intros Hev Ht. destruct task as [st| |]; [|done..].
  destruct ev as [db [notify c t vk|op sig c]|]; [| |done]; cbn [collector_step collector_receive].
  - destruct (register_request notify t vk c st) as [[] [st' ans]] eqn:Hreq; [|done].
    eapply register_request_ok in Hreq as [Hst Hans]; [|exact Ht|by eexists].
    destruct (reconstruct_ok evs root db st' Hst) as [Ht' Hans'].
    destruct (reconstruct iteration db st') as [task' ans']. split; [done|]. by apply Forall_app.
  - apply reconstruct_ok, add_partial_signature_ok; [|done]. by eexists.
Qed.

Lemma collector_run_ok evs root evs' task :
  evs' ⊆ evs → task_ok evs root task → step_ok evs root (collector_run iteration evs' task).
Proof.
  revert task. induction evs' as [|ev evs' IH]; intros task Hsub Ht; cbn [collector_run]; [done|].
  destruct (collector_step_ok evs root ev task) as [Ht1 Ha1]; [set_solver|done|].
  destruct (collector_step iteration ev task) as [task1 ans1].
  destruct (IH task1) as [Ht2 Ha2]; [set_solver|done|].
  destruct (collector_run iteration evs' task1) as [task2 ans2]. split; [done|]. by apply Forall_app.
Qed.

(** Whatever arrives and in whatever order, the callers are answered at most once, and
    every answer is justified by what its caller asked for. *)
Lemma collector_answers_valid root evs task answers :
  signature_collector iteration root evs = (task, answers) →
  answers.*1 ⊆+ callers evs ∧ Forall (good_answer evs root) answers.
Proof.
  intros Hrun. unfold signature_collector in Hrun.
  destruct (accounts_run evs (Collecting (collector_state_new root))) as (dropped & Hp & _).
  destruct (collector_run_ok evs root evs (Collecting (collector_state_new root))) as [_ Ha];
    [done|apply collector_inv_new|].
  rewrite Hrun in *. split; [|done]. cbn in Hp. rewrite Hp. by apply submseteq_inserts_r.
Qed.
End runs.
