(* ===== verification/CollectorLiveness.v ===== *)
(** * A signature collector finishes despite faulty operators

    Against the interface of [BlsInterface.v]: when the share keys in the database were
    validated and at least the threshold of operators send the share that verifies under
    their key, the collector reconstructs the signature whatever the other operators send
    and in whatever order the messages arrive, and everyone who registered gets it. *)

From S2P Require Import Prelude SsvTypes Messages ForkSchedule ValidationTypes DutyState.
From S2P Require Import ValidatorRules ConsensusValidation PartialValidation Subnet Validator MultiIndex.
From S2P Require Import NetworkState Sql BlsInterface CollectorState CollectorRuns.

Lemma sent_snoc evs ev op sig c :
  sent (evs ++ [ev]) op sig c ↔
  sent evs op sig c ∨ ∃ db, ev = Received db (PartialSignature op sig c).
Proof. unfold sent. set_solver. Qed.

Lemma asked_snoc evs ev notify c t vk :
  asked (evs ++ [ev]) notify c t vk ↔
  asked evs notify c t vk ∨ ∃ db, ev = Received db (RegisterNotifier notify c t vk).
Proof. unfold asked. set_solver. Qed.

Section liveness.
Context {PublicKey Error : Type} {Lib : BlsLib bytes PublicKey bytes N Error}.
Context {Scheme : ThresholdScheme Lib}.
Context (iteration : list (OperatorId * CollectedShare) → list (OperatorId * CollectedShare)).
Hypothesis iteration_perm : ∀ l, iteration l ≡ₚ l.

(** The signature to make: the root, the validator key with the threshold and the
    announced share keys, and the companion every registration requires. *)
Context (root : Hash256) (vk : PublicKeyBytes) (pk : PublicKey) (t : nat).
Context (announced : list (OperatorId * PublicKeyBytes)) (companion : option Hash256).
(** The correct operators and their shares. *)
Context (correct : gset OperatorId) (share_by : OperatorId → Signature).

(** The share keys are those the database accepted for the validator. *)
Record keys_validated : Prop := {
  kv_range : Forall (λ s, 0 < s.1 ∧ s.1 < u64_limit)%N announced;
  kv_nodup : NoDup announced.*1;
  kv_validated : shares_validated vk announced t = true;
  kv_key : decompress vk = Some pk;
}.

(** A correct operator sends the share that verifies under its key, and no other.  In
    packets that carry a companion root it names at most one besides the required one:
    a proposer sends in at most two rounds. *)
Record operator_correct (evs : list CollectorEvent) (op : OperatorId) : Prop := {
  oc_verified : verified_share announced root (op, share_by op);
  oc_only : ∀ sig c, sent evs op sig c → sig = share_by op;
  oc_companions : ∀ r, companion = Some r →
    ∃ other, ∀ r', sent evs op (share_by op) (Some r') → r' = r ∨ r' = other;
}.

(** The environment of the collector: operator ids are [u64]s, the callers agree, and the
    collector is not cleaned up. *)
Record fair_events (evs : list CollectorEvent) : Prop := {
  fe_ids : ∀ op sig c, sent evs op sig c → (op < u64_limit)%N;
  fe_callers : ∀ notify c t' vk', asked evs notify c t' vk' →
    c = companion ∧ t' = N.of_nat t ∧ vk' = vk;
  fe_alive : LifetimeEnd ∉ evs;
  fe_correct : ∀ op, op ∈ correct → operator_correct evs op;
}.

(** The loader finds the validated keys whenever it is asked. *)
Definition keys_loaded (evs : list CollectorEvent) : Prop :=
  ∀ db msg, Received db msg ∈ evs → fetch db vk = Some (list_to_map announced).

Abbreviation State := (SignatureCollectorState (PublicKey:=PublicKey)).
Implicit Types (st : State) (done : list CollectorEvent).

(** The share that counts: it arrived with the required companion, if there is one. *)
Definition counts (c : option Hash256) : Prop := companion = None ∨ c = companion.

Definition roots_distinct (roots : option Hash256 * option Hash256) : Prop :=
  ∀ r, roots ≠ (Some r, Some r).

(** What a collector has after the events [done]. *)
Record progress done st : Prop := {
  pg_root : cs_signing_root st = root;
  pg_ids : ∀ op, is_Some (cs_signature_share st !! op) → (op < u64_limit)%N;
  pg_registration : ∀ reg, cs_registration st = Some reg →
    reg = {| reg_threshold := N.of_nat t; reg_validator_pubkey := vk;
             decompressed_validator_pubkey := pk; reg_required_companion := companion |};
  pg_registered : ∀ notify, asked done notify companion (N.of_nat t) vk →
    is_Some (cs_registration st);
  pg_roots : map_Forall (λ _ share, roots_distinct (companion_roots share)) (cs_signature_share st);
  pg_correct : cs_full_signature st = None → ∀ op c, op ∈ correct → sent done op (share_by op) c →
    cs_registration st = None ∨ counts c →
    ∃ share, cs_signature_share st !! op = Some share ∧ share_signature share = share_by op ∧
      ∀ r, companion = Some r → c = Some r → contains_root r (companion_roots share);
}.

(** After an attempt to reconstruct there are too few shares left. *)
Definition too_few st : Prop :=
  cs_full_signature st = None → is_Some (cs_registration st) → size (cs_signature_share st) < t.

Section attempt.
Hypothesis keys : keys_validated.

Lemma valid_verified st op share :
  cs_signing_root st = root →
  share_is_valid (list_to_map announced) (cs_signing_root st) (op, share) = true ↔
  verified_share announced root (op, share_signature share).
Proof.
  intros Hroot. unfold share_is_valid, verified_share. rewrite Hroot. cbn [fst snd].
  assert (∀ b, (list_to_map announced : gmap OperatorId _) !! op = Some b ↔ In (op, b) announced)
    as Hlook.
  { intros b. rewrite <- list_elem_of_In. symmetry. apply elem_of_list_to_map, keys. }
  split.
  - destruct (list_to_map announced !! op) as [b|] eqn:Hb; cbn; [|done].
    destruct (decompress b) as [p|] eqn:Hd; [|done]. intros Hv. exists b, p.
    split; [by apply Hlook|done].
  - intros (b & p & Hin%Hlook & Hd & Hv). rewrite Hin. cbn. by rewrite Hd.
Qed.

(** With enough shares, all of them verified, the signature is reconstructed. *)
Lemma verified_reconstructs done st :
  progress done st → cs_full_signature st = None → is_Some (cs_registration st) →
  t ≤ size (cs_signature_share st) →
  (∀ op share, cs_signature_share st !! op = Some share →
    verified_share announced root (op, share_signature share)) →
  ∃ s, try_reconstruct iteration st = Ok (Some s).
Proof.
  intros Hp Hf [reg Hreg] Hsize Hver. unfold try_reconstruct.
  rewrite Hf, Hreg, (pg_registration _ _ Hp reg Hreg). cbn.
  rewrite (proj2 (N.ltb_ge _ _)) by lia.
  destruct (verified_shares_combine vk pk announced t root
    (shares_to_combine iteration (cs_signature_share st))) as (s & -> & Hv); try apply keys.
  - apply NoDup_ListNoDup, keys.
  - by apply NoDup_ListNoDup, shares_to_combine_nodup.
  - by rewrite shares_to_combine_length.
  - apply Forall_forall. intros [op sig] Hin.
    apply elem_of_shares_to_combine in Hin as (share & Hin & <-); [|done]. by apply Hver.
  - exists s. by rewrite (pg_root _ _ Hp), Hv.
Qed.

(** The library does not panic on the shares of a collector. *)
Lemma try_reconstruct_total done st : progress done st → try_reconstruct iteration st ≠ Panic.
Proof.
  intros Hp. unfold try_reconstruct.
  destruct (cs_full_signature st), (cs_registration st) as [reg|]; [done..| |done].
  destruct (_ <? _)%N; [done|].
  assert (combine_shares (shares_to_combine iteration (cs_signature_share st)) ≠ CombinePanic).
  { apply combine_no_panic, Forall_forall. intros [op sig] Hin.
    apply elem_of_shares_to_combine in Hin as (share & Hin & _); [|done]. eapply pg_ids; eauto. }
  destruct (combine_shares _); [|done..]. by destruct (sig_verify _ _ _).
Qed.

(** Dropping shares that do not verify loses no correct operator's. *)
Lemma progress_filter done st :
  progress done st → (∀ op, op ∈ correct → verified_share announced root (op, share_by op)) →
  progress done (st <| cs_signature_share :=
    filter (λ kv, share_is_valid (list_to_map announced) (cs_signing_root st) kv)
      (cs_signature_share st) |>).
Proof.
  intros [Hr Hi Hreg Hask Hroots Hc] Hver. split; cbn; [done| |done|done| |].
  - intros op [share [Hin _]%map_lookup_filter_Some]. eauto.
  - intros op share [Hin _]%map_lookup_filter_Some. eauto.
  - intros Hf op c Hop Hs Hcount. destruct (Hc Hf op c Hop Hs Hcount) as (share & Hin & Hsig & Hrt).
    exists share. split; [|done]. apply map_lookup_filter_Some. split; [done|].
    apply Is_true_true, valid_verified; [done|]. rewrite Hsig. auto.
Qed.

Lemma progress_complete done st s :
  progress done st →
  progress done (complete_reconstruction s st).1 ∧ too_few (complete_reconstruction s st).1.
Proof.
  intros [Hr Hi Hreg Hask Hroots Hc]. split; [|done]. split; cbn; try done.
  by intros op [? ?%lookup_empty_Some].
Qed.

(** No share was removed: they all verify. *)
Lemma remove_invalid_none keys_map st st' :
  remove_invalid_shares keys_map st = ([], st') →
  ∀ op share, cs_signature_share st !! op = Some share →
    share_is_valid keys_map (cs_signing_root st) (op, share) = true.
Proof.
  unfold remove_invalid_shares. intros [= Hnil _] op share Hin.
  apply not_false_is_true. intros Hinv.
  assert ((op, share) ∈ filter (λ kv, negb (share_is_valid keys_map (cs_signing_root st) kv))
    (map_to_list (cs_signature_share st))) as Hf.
  { apply list_elem_of_filter. rewrite Hinv. split; [done|]. by apply elem_of_map_to_list. }
  apply (list_elem_of_fmap_2 fst) in Hf.
  pose proof (sort_by_key_perm id (filter (λ kv, negb (share_is_valid keys_map (cs_signing_root st) kv))
    (map_to_list (cs_signature_share st))).*1) as Hperm.
  rewrite Hnil in Hperm. rewrite <- Hperm in Hf. set_solver.
Qed.

Lemma fallback_progress done db st failure :
  progress done st → (∀ op, op ∈ correct → verified_share announced root (op, share_by op)) →
  fetch db vk = Some (list_to_map announced) →
  try_reconstruct iteration st = Err failure →
  ∃ st' answers, handle_reconstruction_fallback iteration db st = (Collecting st', answers) ∧
    progress done st' ∧ too_few st'.
Proof.
  intros Hp Hver Hdb Herr.
  assert (cs_full_signature st = None ∧ is_Some (cs_registration st) ∧
          t ≤ size (cs_signature_share st)) as (Hf & [reg Hreg] & Hsize).
  { unfold try_reconstruct in Herr.
    destruct (cs_full_signature st), (cs_registration st) as [reg|] eqn:Hreg; try done.
    rewrite (pg_registration _ _ Hp reg Hreg) in Herr. cbn in Herr.
    destruct (N.ltb_spec (N.of_nat (size (cs_signature_share st))) (N.of_nat t)); [done|].
    split; [done|]. split; [done|]. lia. }
  unfold handle_reconstruction_fallback. rewrite Hreg, (pg_registration _ _ Hp reg Hreg).
  cbn [reg_validator_pubkey reg_threshold]. rewrite Hdb.
  destruct (remove_invalid_shares (list_to_map announced) st) as [bad st'] eqn:Hrem.
  assert (progress done st' ∧ cs_full_signature st' = None ∧ cs_registration st' = Some reg ∧
    ∀ op share, cs_signature_share st' !! op = Some share →
      verified_share announced root (op, share_signature share)) as (Hp' & Hf' & Hreg' & Hall).
  { unfold remove_invalid_shares in Hrem. simplify_eq. split; [by apply progress_filter|].
    split; [done|]. split; [done|]. cbn.
    intros op share [_ Hv%Is_true_true]%map_lookup_filter_Some.
    eapply valid_verified; [apply Hp|done]. }
  destruct bad as [|b bad].
  - destruct (verified_reconstructs done st Hp Hf) as [s Hs]; [done|done| |congruence].
    intros op share Hin. eapply valid_verified; [apply Hp|]. by eapply remove_invalid_none.
  - destruct (N.ltb_spec (N.of_nat (size (cs_signature_share st'))) (N.of_nat t)).
    + do 2 eexists. split; [done|]. split; [done|]. intros _ _. lia.
    + destruct (verified_reconstructs done st' Hp' Hf') as [s ->]; [done|lia|done|].
      do 2 eexists. split; [done|]. by apply progress_complete.
Qed.

Lemma reconstruct_progress done db st :
  progress done st → (∀ op, op ∈ correct → verified_share announced root (op, share_by op)) →
  fetch db vk = Some (list_to_map announced) →
  ∃ st' answers, reconstruct iteration db st = (Collecting st', answers) ∧
    progress done st' ∧ too_few st'.
Proof.
  intros Hp Hver Hdb. pose proof (try_reconstruct_total done st Hp) as Htot. unfold reconstruct.
  destruct (try_reconstruct iteration st) as [[s|]|failure|] eqn:Hrec; [| | |done].
  - do 2 eexists. split; [done|]. by apply progress_complete.
  - do 2 eexists. split; [done|]. split; [done|]. intros Hf [reg Hreg].
    unfold try_reconstruct in Hrec. rewrite Hf, Hreg, (pg_registration _ _ Hp reg Hreg) in Hrec.
    cbn in Hrec.
    destruct (N.ltb_spec (N.of_nat (size (cs_signature_share st))) (N.of_nat t)); [lia|].
    destruct (combine_shares _); [|done..]. by destruct (sig_verify _ _ _).
  - by eapply fallback_progress.
Qed.
End attempt.

(** ** Messages *)

Lemma progress_new : progress [] (collector_state_new root) ∧ too_few (collector_state_new root).
Proof.
  split; [|by intros _ [? ?]]. split; cbn; [done| |done| |apply map_Forall_empty|].
  - by intros op [? ?%lookup_empty_Some].
  - intros notify [? ?]. set_solver.
  - intros _ op c _ [? ?]. set_solver.
Qed.

(** An event that changes nothing for the correct operators. *)
Lemma progress_skip done st ev :
  progress done st →
  (∀ op c, op ∈ correct → sent [ev] op (share_by op) c → cs_full_signature st = None →
    cs_registration st = None ∨ counts c → 
    ∃ share, cs_signature_share st !! op = Some share ∧ share_signature share = share_by op ∧
      ∀ r, companion = Some r → c = Some r → contains_root r (companion_roots share)) →
  (∀ notify, asked [ev] notify companion (N.of_nat t) vk → is_Some (cs_registration st)) →
  progress (done ++ [ev]) st.
Proof.
  intros [Hr Hi Hreg Hask Hroots Hc] Hev Hev'. split; [done..| |done|].
  - intros notify [Ha|[db ->]]%asked_snoc; [eauto|]. apply (Hev' notify). exists db. set_solver.
  - intros Hf op c Hop [Hs|[db ->]]%sent_snoc Hcount; [eauto|].
    eapply Hev; [done| |done|done]. exists db. set_solver.
Qed.

Lemma fill_empty_full r roots :
  ¬ contains_root r (fill_empty r roots) → ∃ a b, roots = (Some a, Some b).
Proof. rewrite contains_root_spec. destruct roots as [[a|] [b|]]; cbn; naive_solver. Qed.

Lemma roots_distinct_fill r roots :
  ¬ contains_root r roots → roots_distinct roots → roots_distinct (fill_empty r roots).
Proof.
  unfold roots_distinct. rewrite contains_root_spec.
  destruct roots as [[a|] [b|]]; cbn; naive_solver.
Qed.

Section messages.
Context (evs : list CollectorEvent) (fair : fair_events evs).
Hypothesis keys : keys_validated.
Hypothesis loaded : keys_loaded evs.

(** What a correct operator has in the map is its share. *)
Lemma correct_share st op share :
  collector_inv evs root st → op ∈ correct → cs_signature_share st !! op = Some share →
  share_signature share = share_by op.
Proof.
  intros Hinv Hop Hin. destruct (ci_shares _ _ _ Hinv op share Hin) as [[c Hs] _].
  by eapply oc_only; [apply (fe_correct _ fair)|].
Qed.

(** There is room for the required companion. *)
Lemma companion_fits st op share r :
  collector_inv evs root st → op ∈ correct → cs_signature_share st !! op = Some share →
  roots_distinct (companion_roots share) → companion = Some r →
  ¬ contains_root r (companion_roots share) →
  contains_root r (fill_empty r (companion_roots share)).
Proof.
  intros Hinv Hop Hin Hdist Hr Hnot.
  destruct (decide (contains_root r (fill_empty r (companion_roots share)))) as [|Hno]; [done|].
  apply fill_empty_full in Hno as (a & b & Hab).
  destruct (ci_shares _ _ _ Hinv op share Hin) as [_ Hroots].
  pose proof (fe_correct _ fair op Hop) as Hoc.
  rewrite (correct_share st op share Hinv Hop Hin) in Hroots.
  destruct (oc_companions _ _ Hoc r Hr) as [other Hother].
  rewrite Hab in *. destruct (Hother a) as [->| ->]; [apply Hroots, contains_root_spec; by left| |].
  - destruct Hnot. apply contains_root_spec. by left.
  - destruct (Hother b) as [->| ->]; [apply Hroots, contains_root_spec; by right| |].
    + destruct Hnot. apply contains_root_spec. by right.
    + by destruct (Hdist other).
Qed.

(** A share is added or gains a companion. *)
Lemma progress_insert done st op share db sig c :
  progress done st → cs_full_signature st = None → (op < u64_limit)%N →
  roots_distinct (companion_roots share) →
  (op ∈ correct → share_signature share = share_by op ∧
    ∀ r, companion = Some r → c = Some r → contains_root r (companion_roots share)) →
  (∀ old, cs_signature_share st !! op = Some old →
    ∀ r, contains_root r (companion_roots old) → contains_root r (companion_roots share)) →
  progress (done ++ [Received db (PartialSignature op sig c)])
    (st <| cs_signature_share := <[op := share]> (cs_signature_share st) |>).
Proof.
  intros [Hr Hi Hreg Hask Hroots Hc] Hf Hid Hdist Hnew Hold. split; cbn; [done| |done| | |].
  - intros op'. destruct (decide (op' = op)) as [->|]; [done|]. rewrite lookup_insert_ne by done. auto.
  - intros notify [Ha|[? ?]]%asked_snoc; [eauto|done].
  - by apply map_Forall_insert_2.
  - intros _ op' c' Hop Hs Hcount. destruct (decide (op' = op)) as [->|Hne].
    + exists share. rewrite lookup_insert_eq. destruct (Hnew Hop) as [Hsig Hcon].
      split; [done|]. split; [done|]. intros r Hr1 ->.
      apply sent_snoc in Hs as [Hs|[? [= -> -> ->]]]; [|auto].
      destruct (Hc Hf op (Some r) Hop Hs Hcount) as (old & Hin & _ & Hold'). eauto.
    + rewrite lookup_insert_ne by done. apply Hc; [done..| |done].
      by apply sent_snoc in Hs as [Hs|[? [= ?]]].
Qed.

Lemma add_partial_signature_progress done st db op sig c :
  Received db (PartialSignature op sig c) ∈ evs →
  collector_inv evs root st → progress done st →
  progress (done ++ [Received db (PartialSignature op sig c)]) (add_partial_signature op sig c st).
Proof.
  intros Hev Hinv Hp. assert (sent evs op sig c) as Hsent by (by eexists).
  assert (∀ op' sig' c', sent [Received db (PartialSignature op sig c)] op' sig' c' →
    op' = op ∧ sig' = sig ∧ c' = c) as Hone by (intros ??? [? ?]; set_solver).
  assert (∀ notify, ¬ asked [Received db (PartialSignature op sig c)] notify companion (N.of_nat t) vk)
    as Hnone by (intros ? [? ?]; set_solver).
  unfold add_partial_signature. case_decide as Hfull.
  { apply progress_skip; [done|intros ?? _ _ Hf|by intros ? []%Hnone]. by rewrite Hf in Hfull; destruct Hfull. }
  rewrite <- eq_None_not_Some in Hfull.
  destruct (companion_refused c st) eqn:Href.
  { apply progress_skip; [done| |by intros ? []%Hnone]. intros op' c' _ (-> & _ & ->)%Hone _ Hcount.
    unfold companion_refused in Href. destruct (cs_registration st) as [reg|] eqn:Hreg; [|done].
    rewrite (pg_registration _ _ Hp reg Hreg) in Href. cbn in Href.
    unfold counts in Hcount. destruct companion as [r|] eqn:Hr; [|done].
    split_and_hyps. naive_solver. }
  pose proof (fe_ids _ fair _ _ _ Hsent) as Hid.
  destruct (cs_signature_share st !! op) as [share|] eqn:Hin; last first.
  { apply progress_insert; cbn; [done..| |].
    - intros Hop. split; [by eapply oc_only; [apply (fe_correct _ fair)|]|].
      intros r _ ->. apply contains_root_spec. by left.
    - congruence. }
  assert (op ∈ correct → share_signature share = share_by op ∧ sig = share_by op) as Hcor.
  { intros Hop. split; [by eapply correct_share|]. by eapply oc_only; [apply (fe_correct _ fair)|]. }
  destruct (negb _) eqn:Hsame.
  { apply progress_skip; [done| |by intros ? []%Hnone]. intros op' c' Hop (-> & _ & ->)%Hone.
    destruct (Hcor Hop). split_and_hyps. congruence. }
  destruct c as [r|]; last first.
  { apply progress_skip; [done| |by intros ? []%Hnone]. intros op' c' Hop (-> & _ & ->)%Hone _ _.
    exists share. naive_solver. }
  destruct (contains_root r (companion_roots share)) eqn:Hcon.
  { apply progress_skip; [done| |by intros ? []%Hnone]. intros op' c' Hop (-> & _ & ->)%Hone _ _.
    exists share. split; [done|]. split; [naive_solver|]. intros r' _ [= <-]. by rewrite Hcon. }
  assert (¬ contains_root r (companion_roots share)) as Hnot by (rewrite Hcon; intros []).
  pose proof (pg_roots _ _ Hp op share Hin) as Hdist. apply progress_insert; cbn; [done..| | |].
  - by apply roots_distinct_fill.
  - intros Hop. split; [naive_solver|]. intros r' Hr [= <-]. by eapply companion_fits.
  - intros old Hold. rewrite Hin in Hold. simplify_eq. intros r'. apply fill_empty_contains.
Qed.

Lemma add_notifier_progress done st notify st' answers :
  add_notifier notify st = (st', answers) → progress done st → progress done st'.
Proof.
  unfold add_notifier. intros Hadd Hp. destruct notify as [n|]; [|by simplify_eq].
  destruct (cs_full_signature st) eqn:Hf; simplify_eq; [done|].
  destruct Hp as [Hr Hi Hreg Hask Hroots Hc]. split; cbn; [done..|]. by rewrite Hf in *.
Qed.

(** The callers agree, so registering goes on, and the shares that count are kept. *)
Lemma register_request_progress done st db notify c t' vk' :
  Received db (RegisterNotifier notify c t' vk') ∈ evs → progress done st →
  ∃ st' answers, register_request notify t' vk' c st = (Continue, (st', answers)) ∧
    progress (done ++ [Received db (RegisterNotifier notify c t' vk')]) st'.
Proof.
  intros Hev Hp. destruct (fe_callers _ fair notify c t' vk') as (-> & -> & ->); [by eexists|].
  set (ev := Received db _) in *.
  assert (∀ op sig c, ¬ sent [ev] op sig c) as Hnone by (intros ??? [? ?]; set_solver).
  unfold register_request. destruct (cs_registration st) as [reg|] eqn:Hreg.
  - unfold registration_matches. rewrite (pg_registration _ _ Hp reg Hreg). cbn.
    rewrite !bool_decide_eq_true_2 by done. cbn.
    destruct (add_notifier notify st) as [st' answers] eqn:Hadd. do 2 eexists. split; [done|].
    eapply add_notifier_progress; [exact Hadd|].
    apply progress_skip; [done|by intros ??? []%Hnone|]. by rewrite Hreg.
  - rewrite (kv_key keys).
    match goal with |- context [add_notifier notify ?x] => set (st1 := x) end.
    destruct (add_notifier notify st1) as [st' answers] eqn:Hadd. do 2 eexists. split; [done|].
    eapply add_notifier_progress; [exact Hadd|]. subst st1.
    destruct Hp as [Hr Hi Hreg' Hask Hroots Hc].
    unfold counts in *. destruct companion as [r|] eqn:Hcomp; split; cbn; rewrite ?Hcomp; try done.
    + intros op [share [Hin _]%map_lookup_filter_Some]. eauto.
    + by intros reg [= <-].
    + intros op share [Hin _]%map_lookup_filter_Some. eauto.
    + intros Hf op c Hop [Hs|[? [=]]]%sent_snoc Hcount.
      destruct (Hc Hf op c Hop Hs) as (share & Hin & Hsig & Hcon); [by left|].
      exists share. split; [|done]. apply map_lookup_filter_Some. split; [done|]. cbn.
      unfold counts in Hcount. rewrite Hcomp in *.
      destruct Hcount as [[=]|[[=]| ->]]. by apply Hcon.
    + by intros reg [= <-].
    + intros Hf op c Hop [Hs|[? [=]]]%sent_snoc Hcount. apply Hc; auto.
Qed.

Lemma collector_step_progress done st ev :
  ev ∈ evs → collector_inv evs root st → progress done st →
  ∃ st' answers, collector_step iteration ev (Collecting st) = (Collecting st', answers) ∧
    progress (done ++ [ev]) st' ∧ too_few st'.
Proof.
  intros Hev Hinv Hp.
  assert (∀ op, op ∈ correct → verified_share announced root (op, share_by op)) as Hver.
  { intros op Hop. apply (fe_correct _ fair op Hop). }
  destruct ev as [db msg|]; [|by destruct (fe_alive _ fair)].
  pose proof (loaded db msg Hev) as Hdb.
  destruct msg as [notify c t' vk'|op sig c]; cbn [collector_step collector_receive].
  - destruct (register_request_progress done st db notify c t' vk' Hev Hp)
      as (st1 & ans1 & -> & Hp1).
    destruct (reconstruct_progress keys _ db st1 Hp1 Hver Hdb) as (st2 & ans2 & -> & Hp2).
    by do 2 eexists.
  - apply reconstruct_progress; [done| |done..]. by apply add_partial_signature_progress.
Qed.

Lemma collector_run_progress todo done st :
  evs = done ++ todo → collector_inv evs root st → progress done st → too_few st →
  ∃ st' answers, collector_run iteration todo (Collecting st) = (Collecting st', answers) ∧
    progress evs st' ∧ too_few st' ∧ collector_inv evs root st'.
Proof.
  revert done st. induction todo as [|ev todo IH]; intros done st Hevs Hinv Hp Hfew.
  - exists st, []. by rewrite Hevs, app_nil_r in *.
  - assert (ev ∈ evs) as Hev by (rewrite Hevs; set_solver).
    destruct (collector_step_progress done st ev Hev Hinv Hp) as (st1 & ans1 & Hs & Hp1 & Hfew1).
    destruct (collector_step_ok iteration iteration_perm evs root ev (Collecting st) Hev Hinv) as [Hinv1 _].
    rewrite Hs in Hinv1.
    destruct (IH (done ++ [ev]) st1) as (st2 & ans2 & Hrun & Hrest); [by rewrite <- (assoc_L (++))|done..|].
    exists st2, (ans1 ++ ans2). split; [|done]. cbn [collector_run]. by rewrite Hs, Hrun.
Qed.
End messages.

(** Once someone has registered and at least the threshold of correct operators have each
    sent their share in a packet that counts, the collector holds a valid signature and
    everyone who registered has received it, once. *)
Lemma quorum_reconstructs evs :
  keys_validated → keys_loaded evs → fair_events evs →
  (∃ notify, asked evs notify companion (N.of_nat t) vk) →
  (∀ op, op ∈ correct → ∃ c, counts c ∧ sent evs op (share_by op) c) → t ≤ size correct →
  ∃ st answers s, signature_collector iteration root evs = (Collecting st, answers) ∧
    cs_full_signature st = Some s ∧ sig_verify s pk root = true ∧ answers.*1 ≡ₚ callers evs ∧
    Forall (λ answer, sig_verify answer.2 pk root = true) answers.
Proof.
  intros keys loaded fair [notify Hask] Hall Hsize. destruct progress_new as [Hp0 Hf0].
  destruct (collector_run_progress evs fair keys loaded evs [] _ eq_refl (collector_inv_new evs root) Hp0 Hf0)
    as (st & answers & Hrun & Hp & Hfew & Hinv).
  assert (is_Some (cs_full_signature st)) as [s Hs].
  { destruct (cs_full_signature st) as [s|] eqn:Hf; [done|]. exfalso.
    pose proof (pg_registered _ _ Hp notify Hask) as Hreg. specialize (Hfew Hf Hreg).
    assert (correct ⊆ dom (cs_signature_share st)) as Hsub.
    { intros op Hop. destruct (Hall op Hop) as (c & Hc & Hs).
      destruct (pg_correct _ _ Hp Hf op c Hop Hs) as (share & Hin & _); [by right|].
      by eapply elem_of_dom_2. }
    apply subseteq_size in Hsub. rewrite size_dom in Hsub. lia. }
  destruct (ci_done _ _ _ Hinv s Hs) as (Hn & _ & reg & Hreg & [Hv _]).
  destruct (accounts_run iteration evs (Collecting (collector_state_new root))) as (dr & Hacc & Hdr).
  destruct (collector_run_ok iteration iteration_perm evs root evs (Collecting (collector_state_new root)))
    as [_ Hans]; [done|apply collector_inv_new|].
  unfold signature_collector. rewrite Hrun in *. cbn in Hacc, Hans. exists st, answers, s.
  split; [done|]. split; [done|]. split; [by rewrite (pg_registration _ _ Hp reg Hreg) in Hv|]. split.
  - rewrite (Hdr st), Hn in Hacc by done. rewrite Hacc. cbn. by rewrite app_nil_r.
  - eapply Forall_impl; [exact Hans|]. intros [n s'] (c & t' & vk' & pk' & Ha & Hd & [Hv' _]).
    destruct (fe_callers _ fair _ _ _ _ Ha) as (_ & _ & ->). rewrite (kv_key keys) in Hd.
    by simplify_eq.
Qed.
End liveness.
