(* ===== verification/CollectorKeys.v ===== *)
(** * Signing for a stored validator

    The database ([EventBatch.v]) and the collector ([CollectorLiveness.v]) together: for
    every validator a node has stored, whatever the chain's events were, the share keys the
    collector loads are ones that were validated with the threshold of the committee, so a
    quorum of correct operators gets its signatures made. *)

From S2P Require Import Prelude SsvTypes Messages ForkSchedule ValidationTypes DutyState.
From S2P Require Import ValidatorRules ConsensusValidation PartialValidation Subnet Validator MultiIndex.
From S2P Require Import NetworkState Sql Database EventProcessor EventSample DatabaseSync DatabaseLoad EventSync EventBatch.
From S2P Require Import BlsInterface SampleBls CollectorState CollectorRuns CollectorLiveness.

Section keys.
Context `{EL : EthLib}.
Context {PublicKey Error : Type} {Lib : BlsLib bytes PublicKey bytes N Error}.
Context {Scheme : ThresholdScheme Lib}.
(** The database and the collector use the same crate. *)
Hypothesis same_check : ∀ vk shares t, shares_interpolate vk shares t = shares_validated vk shares t.
Context (iteration : list (OperatorId * CollectedShare) → list (OperatorId * CollectedShare)).
Hypothesis iteration_perm : ∀ l, iteration l ≡ₚ l.
Variable Known : bytes → Prop.
Hypothesis keccak_inj : ∀ x y, Known x → Known y → keccak256 x = keccak256 y → x = y.
Variable own : OperatorId.
Variable operator : PubkeyOrId.
Hypothesis own_operator : match operator with ById i => i = own | ByPubkey _ => True end.

(** The share keys of a stored validator, sorted by operator. *)
Definition stored_keys (sql : Sql) (vk : PublicKeyBytes) : list (OperatorId * PublicKeyBytes) :=
  sort_by_key fst (share_pubkeys_of sql vk).

(** The threshold of the committee of a stored validator. *)
Definition stored_threshold (sql : Sql) (vk : PublicKeyBytes) : nat :=
  quorum_size (length (share_pubkeys_of sql vk)).

Lemma stored_keys_perm sql vk : stored_keys sql vk ≡ₚ share_pubkeys_of sql vk.
Proof. apply sort_by_key_perm. Qed.

Lemma stored_keys_nodup sql vk : NoDup (stored_keys sql vk).*1.
Proof. rewrite stored_keys_perm. apply share_pubkeys_nodup. Qed.

(** What the check of the database says about its keys. *)
Lemma validated_keys vk (l : list (OperatorId * PublicKeyBytes)) :
  validate_share_public_keys vk l = Ok tt →
  l ≠ [] ∧ Forall (λ s, s.1 ≠ 0%N) l ∧
  shares_validated vk (sort_by_key fst l) (quorum_size (length l)) = true.
Proof.
  unfold validate_share_public_keys. destruct (is_valid_committee_size _) eqn:Hsize; [|done].
  cbn [negb]. intros (k & Hk & Hint)%bind_ok. apply try_map_ok in Hk.
  assert (k = l ∧ Forall (λ s, s.1 ≠ 0%N) l) as [-> Hnz].
  { clear Hsize Hint. induction Hk as [|x y l k Hxy _ [-> IH]]; [done|].
    destruct (N.eqb_spec x.1 0); [done|]. simplify_eq. split; [done|]. by constructor. }
  rewrite same_check in Hint. split; [by intros ->|]. split; [done|].
  by destruct (shares_validated _ _ _).
Qed.

Lemma stored_keys_validated ep vk pk :
  reachable Known own operator ep →
  let sql := db_sql (ep_db ep) in
  is_Some (t_validators sql !! vk) → decompress vk = Some pk →
  fetch (Some sql) vk = Some (list_to_map (stored_keys sql vk)) ∧
  keys_validated vk pk (stored_threshold sql vk) (stored_keys sql vk).
Proof.
  intros (_ & a & _ & Hs)%(reachable_synced Known keccak_inj own operator own_operator) sql Hv Hpk.
  assert (sql_ok Known sql) as Hok by by destruct Hs.
  destruct (validated_keys vk (share_pubkeys_of sql vk)) as (Hne & Hnz & Hval);
    [by apply (so_share_valid _ _ Hok)|].
  assert (get_share_pubkeys_for_validator vk sql = list_to_map (stored_keys sql vk)) as Hget.
  { apply (list_to_map_proper (share_pubkeys_of sql vk)); [apply share_pubkeys_nodup|].
    symmetry. apply stored_keys_perm. }
  split.
  - unfold fetch. rewrite Hget. case_decide as Hempty; [|done].
    destruct (share_pubkeys_of sql vk) as [|x l] eqn:Hl; [done|].
    assert (list_to_map (M:=gmap OperatorId PublicKeyBytes) (stored_keys sql vk) !! x.1 = Some x.2) as Hx; [|by rewrite Hempty in Hx].
    apply elem_of_list_to_map; [apply stored_keys_nodup|]. rewrite stored_keys_perm, Hl.
    destruct x. by left.
  - split; [|apply stored_keys_nodup|done|done]. apply Forall_forall. intros [op b] Hin.
    rewrite stored_keys_perm in Hin. rewrite Forall_forall in Hnz. specialize (Hnz _ Hin). cbn in *.
    apply elem_of_share_pubkeys in Hin as (r & Hr & _).
    destruct (so_share _ _ Hok _ _ _ Hr) as (v & Hv' & _ & Hmem).
    destruct (so_validator_cluster _ _ Hok _ _ Hv') as [cl Hcl].
    destruct (so_cluster_id _ _ Hok _ _ Hcl) as (_ & _ & Hlt & _).
    rewrite Forall_forall in Hlt. split; [lia|]. apply Hlt. unfold GET_CLUSTER_MEMBERS.
    apply list_elem_of_fmap. exists (vr_cluster_id v, op). split; [done|].
    apply list_elem_of_filter. split; [done|]. by apply elem_of_elements.
Qed.

(** C12: a quorum of correct operators signs for every validator the node has stored.
    Take a node reached by any chain of contract events, index updates and restarts,
    one of its validators, and a collector that reads its tables.  The callers agree on
    the validator, on the quorum of its committee and on the required companion; beyond
    that any registrations and any shares from any operators arrive, in any order.
    Once someone has registered and a quorum of operators have each sent the share
    that verifies under their stored key, the collector has made a signature that
    verifies under the validator key, and everyone who registered has received such a
    signature, once. *)
Theorem stored_validator_signs ep vk pk root companion correct share_by evs :
  reachable Known own operator ep →
  let sql := db_sql (ep_db ep) in
  let t := stored_threshold sql vk in
  is_Some (t_validators sql !! vk) → decompress vk = Some pk →
  (∀ db msg, Received db msg ∈ evs → db = Some sql) →
  fair_events root vk t (stored_keys sql vk) companion correct share_by evs →
  (∃ notify, asked evs notify companion (N.of_nat t) vk) →
  (∀ op, op ∈ correct → ∃ c, counts companion c ∧ sent evs op (share_by op) c) →
  t ≤ size correct →
  ∃ st answers s, signature_collector iteration root evs = (Collecting st, answers) ∧
    cs_full_signature st = Some s ∧ sig_verify s pk root = true ∧ answers.*1 ≡ₚ callers evs ∧
    Forall (λ answer, sig_verify answer.2 pk root = true) answers.
Proof.
  intros Hr sql t Hv Hpk Hdb Hfair Hask Hall Hsize.
  destruct (stored_keys_validated ep vk pk Hr Hv Hpk) as [Hfetch Hkeys].
  eapply quorum_reconstructs; [done..| |done|done|done|done].
  intros db msg ->%Hdb. exact Hfetch.
Qed.
End keys.

(** ** On the sample chain *)

Module SampleSigning.
Import SampleBls SampleChain SampleReach.

Definition tables : Sql := db_sql (ep_db sample_node).
Definition validator : PublicKeyBytes := [x0a].
Definition operator_share (op : OperatorId) : Signature := sign (share_key validator op) 9.

Definition from_operator (op : OperatorId) (sig : Signature) : CollectorEvent :=
  Received (Some tables) (PartialSignature op sig None).
Definition caller (n : Notifier) : CollectorEvent :=
  Received (Some tables) (RegisterNotifier (Some n) None 3 validator).

(** Operator two sends garbage; the other three sign; two callers register. *)
Definition signing_events : list CollectorEvent :=
  [from_operator 2 [x00]; caller 41; from_operator 3 (operator_share 3);
   from_operator 1 (operator_share 1); from_operator 4 (operator_share 4); caller 42].

Ltac event_cases H :=
  unfold signing_events, from_operator, caller in H;
  repeat (apply elem_of_cons in H as [H|H]; [simplify_eq|]); [..|by apply not_elem_of_nil in H].

Lemma sample_keys : stored_keys tables validator =
  (λ op, (op, share_key validator op)) <$> [1; 2; 3; 4]%N.
Proof. vm_compute. reflexivity. Qed.

Lemma sample_threshold : stored_threshold tables validator = 3.
Proof. vm_compute. reflexivity. Qed.

Lemma sample_fair : fair_events (Lib:=lib) 9 validator 3 (stored_keys tables validator) None
  {[1; 3; 4]}%N operator_share signing_events.
Proof.
  rewrite sample_keys. split.
  - intros op sig c [db H]. event_cases H; by vm_compute.
  - intros notify c t' vk' [db H]. by event_cases H.
  - intros H. by event_cases H.
  - intros op Hop. assert (op = 1 ∨ op = 3 ∨ op = 4)%N as Hop' by set_solver. split; [| |done].
    + exists (share_key validator op), (share_key validator op).
      destruct Hop' as [->|[->| ->]]; (split; [cbn; auto 10|by split]).
    + intros sig c [db H]. event_cases H; naive_solver.
Qed.

Lemma stored_validator_signs_witness :
  (signature_collector reverse 9 signing_events).2.*1 ≡ₚ [41; 42]%N ∧
  Forall (λ answer, sig_verify (BlsLib:=lib) answer.2 validator 9%N = true)
    (signature_collector reverse 9 signing_events).2.
Proof.
  destruct (stored_validator_signs (EL:=chain_eth) (Lib:=lib) (Scheme:=scheme) (λ _ _ _, eq_refl) reverse
    reverse_Permutation sample_known sample_known_inj 2 sample_operator I sample_node validator
    validator 9 None {[1; 3; 4]}%N operator_share signing_events)
    as (st & answers & s & Hrun & _ & _ & Hperm & Hall).
  - apply sample_reachable.
  - vm_compute. by eexists.
  - reflexivity.
  - intros db msg H. by event_cases H.
  - change (db_sql (ep_db sample_node)) with tables. rewrite sample_threshold. apply sample_fair.
  - exists (Some 41%N), (Some tables). change (db_sql (ep_db sample_node)) with tables.
    rewrite sample_threshold. apply elem_of_cons. right. by left.
  - intros op Hop. exists None. split; [by left|]. exists (Some tables).
    assert (op = 1 ∨ op = 3 ∨ op = 4)%N as [->|[->| ->]] by set_solver;
      unfold signing_events, from_operator; set_solver.
  - change (db_sql (ep_db sample_node)) with tables. rewrite sample_threshold. vm_compute. lia.
  - rewrite Hrun. split; [exact Hperm|exact Hall].
Defined.
End SampleSigning.
