(* ===== verification/SignatureCollector.v ===== *)
(** * The signature collector manager

    [anchor/signature_collector/src/lib.rs], [SignatureCollectorManager]: it routes partial
    signatures and waiting callers to the collector of their signing root and validator,
    signs with the local share, and batches the local partial signatures into outgoing
    messages.

    The processor and the clock are the environment's: submitted closures are pending
    [Work] that any later step may run, a closure reads the clock when it runs, and a full
    queue refuses work.  Blocking closures run on several threads; the one with several
    critical sections, [process_single_validator_batch], is cut at them, and the records
    its map entries point to live in a store of their own, since a thread may still hold
    one that was removed from the map. *)

From S2P Require Import Prelude SsvTypes Messages QbftTypes ForkSchedule ValidationTypes DutyState.
From S2P Require Import ValidatorRules ConsensusValidation PartialValidation Subnet Validator MultiIndex.
From S2P Require Import NetworkState Sql CollectorState.

(** Number of slots to keep before the current one. *)
Definition SIGNATURE_COLLECTOR_RETAIN_SLOTS : N := 1.
(** [PartialSignatureMessagesLen]: 3000 + 512 * 4. *)
Definition PartialSignatureMessagesLen : N := 5048.

(** ** Data *)

(** [TrySendError] of the processor's queue. *)
Inductive TrySendError := Full | QueueClosed.

(** A namespace: the QBFT manager has errors of the same names. *)
Module Collection.
(** What [RecoverError] carries is only shown. *)
Inductive CollectionError :=
  | QueueClosedError
  | QueueFullError
  | CollectionTimeout
  | EmptySignature
  | InvalidProposerPacket
  | OwnOperatorIdUnknown
  | RecoverError.

(** [impl From<processor::Error> for CollectionError] *)
Definition of_processor (e : TrySendError) : CollectionError :=
  match e with
  | Full => QueueFullError
  | QueueClosed => QueueClosedError
  end.
End Collection.

Inductive CreateMessageError :=
  | TooManySignatures (count max : N)
  | CreateSSVMessage (e : SSVMessageError).

(** [SignatureCollector]: the queue holds everything sent to the task so far. *)
Record SignatureCollector := mkSignatureCollector {
  sc_for_slot : Slot;
  sc_queue : list CollectorMessageKind;
}.

Record CommitteePartialSignatureBatch := mkCommitteeBatch {
  batched_validator_partial_signatures : option (list PartialSignatureMessage);
  cb_for_slot : Slot;
}.

Inductive CommitteeBatchKey :=
  | CommitteePostConsensus (slot : Slot) (committee_id : CommitteeId)
  | DecidedValue (base_hash : Hash256) (committee_id : CommitteeId).

#[export] Instance CommitteeBatchKey_eq_dec : EqDecision CommitteeBatchKey.
Proof. solve_decision. Defined.
#[export] Program Instance CommitteeBatchKey_countable : Countable CommitteeBatchKey :=
  inj_countable (λ k, match k with
                      | CommitteePostConsensus s c => inl (s, c)
                      | DecidedValue h c => inr (h, c)
                      end)
    (λ x, match x with
          | inl (s, c) => Some (CommitteePostConsensus s c)
          | inr (h, c) => Some (DecidedValue h c)
          end) _.
Next Obligation. by intros []. Qed.

Record SyncCommitteeBatchEntry := mkBatchEntry {
  be_subnet_id : N;
  be_signing_root : Hash256;
  be_multiplicity : nat;
}.
#[export] Instance SyncCommitteeBatchEntry_eq_dec : EqDecision SyncCommitteeBatchEntry.
Proof. solve_decision. Defined.

Inductive SingleValidatorBatchPhase := PhaseContributionProofs | PhasePostConsensus.

#[export] Instance SingleValidatorBatchPhase_eq_dec : EqDecision SingleValidatorBatchPhase.
Proof. solve_decision. Defined.
#[export] Program Instance SingleValidatorBatchPhase_countable : Countable SingleValidatorBatchPhase :=
  inj_countable (λ p, match p with PhaseContributionProofs => true | PhasePostConsensus => false end)
    (λ b : bool, Some (if b then PhaseContributionProofs else PhasePostConsensus)) _.
Next Obligation. by intros []. Qed.

(** [SingleValidatorBatchPhase::from_kind] *)
Definition phase_from_kind (kind : PartialSignatureKind) : option SingleValidatorBatchPhase :=
  match kind with
  | PartialSignatureKind.ContributionProofs => Some PhaseContributionProofs
  | PartialSignatureKind.PostConsensus => Some PhasePostConsensus
  | _ => None
  end.

Inductive SingleValidatorBatchState := Pending | BatchAdmitted.

Record SingleValidatorBatchRecord := mkBatchRecord {
  br_validator_index : ValidatorIndex;
  br_committee_id : CommitteeId;
  br_descriptor : list SyncCommitteeBatchEntry;
  br_state : SingleValidatorBatchState;
}.
#[export] Instance SingleValidatorBatchRecord_eta : Eta SingleValidatorBatchRecord := λ r,
  mkBatchRecord (br_validator_index r) (br_committee_id r) (br_descriptor r) (br_state r).

Record SignatureMetadata := {
  md_kind : PartialSignatureKind;
  md_role : Role;
  md_threshold : N;
  md_slot : Slot;
  md_committee_id : CommitteeId;
}.

Inductive SignatureRequester :=
  | SingleValidator (pubkey : PublicKeyBytes)
  | SingleValidatorBatch (pubkey : PublicKeyBytes) (subnet_id : N)
      (descriptor : list SyncCommitteeBatchEntry)
  | Committee (validator_partial_signature_batch_size : nat) (base_hash : Hash256).

Definition is_single_validator_batch (requester : SignatureRequester) : bool :=
  match requester with SingleValidatorBatch _ _ _ => true | _ => false end.

Section manager.
(** [bls::SecretKey] and its [sign]. *)
Context {SecretKey : Type} (sk_sign : SecretKey → Hash256 → Signature).
(** The derived SSZ encoding. *)
Context (psm_as_ssz : PartialSignatureMessages → bytes).

Record ValidatorSigningData := {
  sd_root : Hash256;
  sd_index : ValidatorIndex;
  sd_validator_pubkey : PublicKeyBytes;
  sd_share : option SecretKey;
}.

(** [ValidatorSigningData::partial_signature_message]; [Signature::empty] has no bytes. *)
Definition partial_signature_message (data : ValidatorSigningData) (signing_root : Hash256)
    (signer : OperatorId) : PartialSignatureMessage :=
  {| partial_signature := match sd_share data with
                          | Some share => sk_sign share signing_root
                          | None => []
                          end;
     signing_root := signing_root;
     psm_signer := signer;
     validator_index := sd_index data |}.

(** A registration to queue with a collector. *)
Record Registration := {
  rg_root : Hash256;
  rg_index : ValidatorIndex;
  rg_notify : option Notifier;
  rg_required_companion : option Hash256;
}.

(** The rest of a [sign_proposer_packet] call that waits for an acknowledgement. *)
Record PacketCall := {
  pc_metadata : SignatureMetadata;
  pc_pubkey : PublicKeyBytes;
  pc_block : ValidatorSigningData;
  pc_envelope : option ValidatorSigningData;
  pc_signer : OperatorId;
  pc_registrations : list Registration;
}.

(** A closure handed to the processor. *)
Inductive Work :=
  | RegisterCaller (check_slot : bool) (slot : Slot) (threshold : N)
      (validator_pubkey : PublicKeyBytes) (registration : Registration)
  | SignAndSend (metadata : SignatureMetadata) (requester : SignatureRequester)
      (data : ValidatorSigningData) (signer : OperatorId)
  | RegisterPacket (registration : Registration) (call : PacketCall)
  | SignPacket (call : PacketCall)
  | RegisterWaiter (slot : Slot) (threshold : N) (validator_pubkey : PublicKeyBytes)
      (registration : Registration)
  | DeliverPartialSignature (message : PartialSignatureMessage) (slot : Slot)
      (companion_root : option Hash256) (check_slot : bool).

(** A thread inside [process_single_validator_batch]: before it takes the map entry, and
    before it locks the record it got. *)
Record BatchCall := {
  bc_metadata : SignatureMetadata;
  bc_pubkey : PublicKeyBytes;
  bc_phase : SingleValidatorBatchPhase;
  bc_descriptor : list SyncCommitteeBatchEntry;
  bc_data : ValidatorSigningData;
  bc_message : PartialSignatureMessage;
}.

Inductive BatchThread :=
  | BeforeEntry (call : BatchCall)
  | BeforeLock (call : BatchCall) (record : nat).

(** [SignatureCollectorManager], with the pending work, the resumed calls, the threads
    inside a batch, the store of the batch records, and what was handed to the message
    sender and admitted by it. *)
Record SignatureCollectorManager := {
  sm_operator_id : option OperatorId;
  sm_fork_schedule : ForkSchedule;
  sm_slots_per_epoch : positive;
  sm_collectors : gmap (Hash256 * ValidatorIndex) SignatureCollector;
  sm_committee_batches : gmap CommitteeBatchKey CommitteePartialSignatureBatch;
  sm_single_batches : gmap (SingleValidatorBatchPhase * Slot * list byte) nat;
  sm_records : list SingleValidatorBatchRecord;
  sm_work : list Work;
  sm_resumed : list PacketCall;
  sm_threads : list BatchThread;
  sm_sent : list (UnsignedSSVMessage * CommitteeId);
}.

#[export] Instance SignatureCollectorManager_eta : Eta SignatureCollectorManager := λ m,
  {| sm_operator_id := sm_operator_id m; sm_fork_schedule := sm_fork_schedule m;
     sm_slots_per_epoch := sm_slots_per_epoch m; sm_collectors := sm_collectors m;
     sm_committee_batches := sm_committee_batches m; sm_single_batches := sm_single_batches m;
     sm_records := sm_records m; sm_work := sm_work m; sm_resumed := sm_resumed m;
     sm_threads := sm_threads m; sm_sent := sm_sent m |}.

(** [SignatureCollectorManager::new] *)
Definition collector_manager_new (operator_id : option OperatorId) (fork_schedule : ForkSchedule)
    (slots_per_epoch : positive) : SignatureCollectorManager :=
  {| sm_operator_id := operator_id; sm_fork_schedule := fork_schedule;
     sm_slots_per_epoch := slots_per_epoch; sm_collectors := ∅; sm_committee_batches := ∅;
     sm_single_batches := ∅; sm_records := []; sm_work := []; sm_resumed := [];
     sm_threads := []; sm_sent := [] |}.

Abbreviation saction := (action SignatureCollectorManager Collection.CollectionError).

(** What the code meets when it runs: the clock, whether the processor takes a closure,
    whether the task of a collector still receives, whether the message sender admits a
    message. *)
Record Environment := {
  env_now : option Slot;
  env_processor : Work → option TrySendError;
  env_receives : Hash256 * ValidatorIndex → bool;
  env_admits : UnsignedSSVMessage → bool;
}.

(** [self.processor.<queue>.send_<kind>(..)?] *)
Definition submit (env : Environment) (work : Work) : saction unit :=
  match env_processor env work with
  | Some e => throw (Collection.of_processor e)
  | None => modify (λ m, m <| sm_work := sm_work m ++ [work] |>)
  end.

(** ** Slots *)

(** [domain_type_for_slot]; [None] is the [expect] of the schedule. *)
Definition domain_type_for_slot (m : SignatureCollectorManager) (slot : Slot) : option DomainType :=
  fc_domain_type <$> active_fork_config (sm_fork_schedule m) (slot_epoch slot (sm_slots_per_epoch m)).

(** [is_stale_slot] *)
Definition is_stale_slot (now : option Slot) (slot : Slot) : bool :=
  match now with
  | Some current_slot => (slot <? current_slot - SIGNATURE_COLLECTOR_RETAIN_SLOTS)%N
  | None => false
  end.

(** ** Collectors *)

(** [get_or_spawn] *)
Definition get_or_spawn (signing_root : Hash256) (validator_index : ValidatorIndex) (slot : Slot)
    : saction unit :=
  modify (λ m, match sm_collectors m !! (signing_root, validator_index) with
               | Some _ => m
               | None => m <| sm_collectors :=
                   <[(signing_root, validator_index) := mkSignatureCollector slot []]>
                     (sm_collectors m) |>
               end).

(** [sender.send(message)]: whether the task got it. *)
Definition send_to_collector (env : Environment) (key : Hash256 * ValidatorIndex)
    (message : CollectorMessageKind) : saction bool :=
  if env_receives env key then
    _ ← modify (λ m, m <| sm_collectors :=
          alter (λ c, mkSignatureCollector (sc_for_slot c) (sc_queue c ++ [message])) key
            (sm_collectors m) |>);
    mret true
  else mret false.

(** ** Outgoing messages *)

(** [create_message] *)
Definition create_message (m : SignatureCollectorManager) (metadata : SignatureMetadata)
    (signatures : list PartialSignatureMessage) (duty_executor : DutyExecutor)
    : outcome CreateMessageError UnsignedSSVMessage :=
  domain ← expect (domain_type_for_slot m (md_slot metadata));
  messages ← try_to_variable_list PartialSignatureMessagesLen TooManySignatures signatures;
  let partial_sig_messages :=
    {| kind := md_kind metadata; psm_slot := md_slot metadata; messages := messages |} in
  ssv ← map_err CreateSSVMessage
          (ssv_message_new SSVPartialSignatureMsgType
             (message_id_new domain (md_role metadata) duty_executor)
             (psm_as_ssz partial_sig_messages));
  Ok {| unsigned_ssv_message := ssv; unsigned_full_data := [] |}.

(** [create_message] where it is called: [None] is an error, which is logged. *)
Definition try_create_message (metadata : SignatureMetadata)
    (signatures : list PartialSignatureMessage) (duty_executor : DutyExecutor)
    : saction (option UnsignedSSVMessage) :=
  msg ← gets (λ m, create_message m metadata signatures duty_executor);
  match msg with
  | Ok msg => mret (Some msg)
  | Err _ => mret None
  | Panic => lift Panic
  end.

(** [self.message_sender.sign_and_send(msg, committee_id, None).is_ok()] *)
Definition sign_and_send (env : Environment) (msg : UnsignedSSVMessage) (committee_id : CommitteeId)
    : saction bool :=
  if env_admits env msg then
    _ ← modify (λ m, m <| sm_sent := sm_sent m ++ [(msg, committee_id)] |>); mret true
  else mret false.

(** ** Incoming partial signatures *)

(** [receive_partial_signature_with_companion] *)
Definition receive_partial_signature_with_companion (env : Environment)
    (message : PartialSignatureMessage) (slot : Slot) (companion_root : option Hash256)
    (check_slot : bool) : saction unit :=
  submit env (DeliverPartialSignature message slot companion_root check_slot).

(** [receive_partial_signature] *)
Definition receive_partial_signature (env : Environment) (message : PartialSignatureMessage)
    (slot : Slot) : saction unit :=
  receive_partial_signature_with_companion env message slot None false.

(** [receive_partial_signatures] *)
Definition receive_partial_signatures (env : Environment) (msgs : PartialSignatureMessages)
    : saction unit :=
  for_each (λ message, receive_partial_signature env message (psm_slot msgs)) (messages msgs).

(** The root of the other entry of a two-entry packet. *)
Definition companion_root_of (msgs : list PartialSignatureMessage) (message : PartialSignatureMessage)
    : option Hash256 :=
  if bool_decide (length msgs = 2) then
    signing_root <$> head (filter (λ other,
      signing_root other ≠ signing_root message ∧
      validator_index other = validator_index message ∧
      psm_signer other = psm_signer message) msgs)
  else None.

(** [receive_proposer_partial_signatures] *)
Definition receive_proposer_partial_signatures (env : Environment) (msgs : PartialSignatureMessages)
    : saction unit :=
  if bool_decide (kind msgs = PartialSignatureKind.PostConsensus) then
    for_each (λ message,
      receive_partial_signature_with_companion env message (psm_slot msgs)
        (companion_root_of (messages msgs) message) true) (messages msgs)
  else receive_partial_signatures env msgs.

(** The closure of [receive_partial_signature_with_companion]. *)
Definition deliver_partial_signature (env : Environment) (message : PartialSignatureMessage)
    (slot : Slot) (companion_root : option Hash256) (check_slot : bool) : saction unit :=
  if check_slot && is_stale_slot (env_now env) slot then mret tt
  else
    _ ← get_or_spawn (signing_root message) (validator_index message) slot;
    _ ← send_to_collector env (signing_root message, validator_index message)
          (PartialSignature (psm_signer message) (partial_signature message) companion_root);
    mret tt.

(** The local shares, if they are real ones. *)
Definition inject (env : Environment) (data : ValidatorSigningData) (slot : Slot)
    (msgs : list PartialSignatureMessage) : saction unit :=
  match sd_share data with
  | Some _ => for_each (λ message, ignore_err (receive_partial_signature env message slot)) msgs
  | None => mret tt
  end.

(** ** Committee batches *)

Definition sends_once (metadata : SignatureMetadata) : bool :=
  bool_decide (md_role metadata = Role.Committee) &&
  bool_decide (md_kind metadata = PartialSignatureKind.PostConsensus).

Definition committee_batch_key (metadata : SignatureMetadata) (base_hash : Hash256)
    : CommitteeBatchKey :=
  if sends_once metadata then CommitteePostConsensus (md_slot metadata) (md_committee_id metadata)
  else DecidedValue base_hash (md_committee_id metadata).

(** [take_ready_committee_batch] *)
Definition take_ready_committee_batch (env : Environment) (metadata : SignatureMetadata)
    (batch_size : nat) (base_hash : Hash256) (message : PartialSignatureMessage)
    : saction (option (list PartialSignatureMessage)) :=
  let key := committee_batch_key metadata base_hash in
  if sends_once metadata && is_stale_slot (env_now env) (md_slot metadata) then mret None
  else
    batches ← gets sm_committee_batches;
    let batch := default (mkCommitteeBatch (Some []) (md_slot metadata)) (batches !! key) in
    let put b := modify (λ m, m <| sm_committee_batches := <[key := b]> (sm_committee_batches m) |>) in
    match batched_validator_partial_signatures batch with
    | None => _ ← put batch; mret None
    | Some signatures =>
        let signatures := signatures ++ [message] in
        if negb (bool_decide (length signatures = batch_size)) then
          _ ← put (mkCommitteeBatch (Some signatures) (cb_for_slot batch)); mret None
        else
          _ ← (if sends_once metadata
               then put (mkCommitteeBatch None (cb_for_slot batch))
               else modify (λ m, m <| sm_committee_batches := delete key (sm_committee_batches m) |>));
          mret (Some signatures)
    end.

(** ** Batches of one validator: [process_single_validator_batch] *)

(** Up to the map entry: the messages to inject if the callback may not publish. *)
Definition batch_checks (now : option Slot) (metadata : SignatureMetadata)
    (pubkey : PublicKeyBytes) (descriptor : list SyncCommitteeBatchEntry)
    (data : ValidatorSigningData) (current_message : PartialSignatureMessage)
    : list PartialSignatureMessage + BatchCall :=
  if is_stale_slot now (md_slot metadata) then inl []
  else
    match phase_from_kind (md_kind metadata) with
    | None => inl [current_message]
    | Some phase =>
        if negb (bool_decide (md_role metadata = Role.SyncCommittee)) then inl [current_message]
        else if negb (bool_decide (pubkey = sd_validator_pubkey data)) then inl [current_message]
        else if negb (existsb (λ entry, bool_decide (be_signing_root entry = sd_root data) &&
                 bool_decide (be_signing_root entry = signing_root current_message)) descriptor)
        then inl [current_message]
        else inr {| bc_metadata := metadata; bc_pubkey := pubkey; bc_phase := phase;
                    bc_descriptor := descriptor; bc_data := data; bc_message := current_message |}
    end.

Definition batch_key (call : BatchCall) : SingleValidatorBatchPhase * Slot * list byte :=
  (bc_phase call, md_slot (bc_metadata call), bc_pubkey call).

(** A record for the first callback of a batch. *)
Definition new_batch_record (call : BatchCall) : SingleValidatorBatchRecord :=
  mkBatchRecord (validator_index (bc_message call)) (md_committee_id (bc_metadata call))
    (bc_descriptor call) Pending.

(** The map entry: the position of its record in the store. *)
Definition batch_entry (call : BatchCall) : saction nat :=
  batches ← gets sm_single_batches;
  match batches !! batch_key call with
  | Some record => mret record
  | None =>
      record ← gets (λ m, length (sm_records m));
      _ ← modify (λ m, m <| sm_records := sm_records m ++ [new_batch_record call] |>
                         <| sm_single_batches := <[batch_key call := record]> (sm_single_batches m) |>);
      mret record
  end.

(** The comparison of the record with the callback. *)
Definition record_matches (record : SingleValidatorBatchRecord) (call : BatchCall) : bool :=
  bool_decide (br_committee_id record = md_committee_id (bc_metadata call)) &&
  bool_decide (br_validator_index record = validator_index (bc_message call)) &&
  bool_decide (br_descriptor record = bc_descriptor call).

(** The loop that signs each root of the descriptor once and repeats it as often as the
    entry says: the messages to inject and the expanded ones. *)
Definition expand_entry (data : ValidatorSigningData) (signer : OperatorId)
    (acc : list PartialSignatureMessage * list PartialSignatureMessage)
    (entry : SyncCommitteeBatchEntry) : list PartialSignatureMessage * list PartialSignatureMessage :=
  let '(injection_messages, expanded_messages) := acc in
  match head (filter (λ message, signing_root message = be_signing_root entry) injection_messages) with
  | Some message =>
      (injection_messages, expanded_messages ++ replicate (be_multiplicity entry) message)
  | None =>
      let message := partial_signature_message data (be_signing_root entry) signer in
      (injection_messages ++ [message],
       expanded_messages ++ replicate (be_multiplicity entry) message)
  end.

Definition expand_batch (data : ValidatorSigningData) (current_message : PartialSignatureMessage)
    (descriptor : list SyncCommitteeBatchEntry)
    : list PartialSignatureMessage * list PartialSignatureMessage :=
  foldl (expand_entry data (psm_signer current_message)) ([current_message], []) descriptor.

(** From the comparison to the end, under the lock of the record: the messages to inject. *)
Definition batch_lock (env : Environment) (call : BatchCall) (record : nat)
    : saction (list PartialSignatureMessage) :=
  r ← gets (λ m, sm_records m !! record);
  match r with
  | None => mret []
  | Some r =>
      if negb (record_matches r call) then mret [bc_message call]
      else
        match br_state r with
        | BatchAdmitted => mret [bc_message call]
        | Pending =>
            let '(injection_messages, expanded_messages) :=
              expand_batch (bc_data call) (bc_message call) (br_descriptor r) in
            outgoing ← try_create_message (bc_metadata call) expanded_messages
                         (ExecValidator (bc_pubkey call));
            match outgoing with
            | None => mret injection_messages
            | Some outgoing =>
                admitted ← sign_and_send env outgoing (md_committee_id (bc_metadata call));
                _ ← (if admitted : bool
                     then modify (λ m, m <| sm_records :=
                            <[record := r <| br_state := BatchAdmitted |>]> (sm_records m) |>)
                     else mret tt);
                mret injection_messages
            end
        end
  end.

(** One step of a thread inside a batch; at the end it injects its messages. *)
Definition run_thread (env : Environment) (thread : BatchThread) : saction unit :=
  match thread with
  | BeforeEntry call =>
      record ← batch_entry call;
      modify (λ m, m <| sm_threads := sm_threads m ++ [BeforeLock call record] |>)
  | BeforeLock call record =>
      msgs ← batch_lock env call record;
      inject env (bc_data call) (md_slot (bc_metadata call)) msgs
  end.

(** ** Closures *)

(** The signing closure of [sign_and_collect]. *)
Definition run_sign (env : Environment) (metadata : SignatureMetadata)
    (requester : SignatureRequester) (data : ValidatorSigningData) (signer : OperatorId)
    : saction unit :=
  let message := partial_signature_message data (sd_root data) signer in
  match requester with
  | SingleValidator pubkey =>
      msg ← try_create_message metadata [message] (ExecValidator pubkey);
      match msg with
      | None => mret tt
      | Some msg =>
          _ ← sign_and_send env msg (md_committee_id metadata);
          inject env data (md_slot metadata) [message]
      end
  | SingleValidatorBatch pubkey _ descriptor =>
      match batch_checks (env_now env) metadata pubkey descriptor data message with
      | inl msgs => inject env data (md_slot metadata) msgs
      | inr call => modify (λ m, m <| sm_threads := sm_threads m ++ [BeforeEntry call] |>)
      end
  | Committee batch_size base_hash =>
      batch ← take_ready_committee_batch env metadata batch_size base_hash message;
      match batch with
      | None => inject env data (md_slot metadata) [message]
      | Some signatures =>
          msg ← try_create_message metadata signatures (ExecCommittee (md_committee_id metadata));
          match msg with
          | None => mret tt
          | Some msg =>
              _ ← sign_and_send env msg (md_committee_id metadata);
              inject env data (md_slot metadata) [message]
          end
      end
  end.

(** Queues a registration with its collector: whether the task got it. *)
Definition register_with (env : Environment) (slot : Slot) (threshold : N)
    (validator_pubkey : PublicKeyBytes) (registration : Registration) : saction bool :=
  let key := (rg_root registration, rg_index registration) in
  _ ← get_or_spawn (rg_root registration) (rg_index registration) slot;
  send_to_collector env key
    (RegisterNotifier (rg_notify registration) (rg_required_companion registration) threshold
       validator_pubkey).

(** The signing closure of [sign_proposer_packet]. *)
Definition run_sign_packet (env : Environment) (call : PacketCall) : saction unit :=
  let metadata := pc_metadata call in
  let block := pc_block call in
  if is_stale_slot (env_now env) (md_slot metadata) then mret tt
  else
    let block_message := partial_signature_message block (sd_root block) (pc_signer call) in
    let envelope_message :=
      (λ envelope, (envelope, partial_signature_message envelope (sd_root envelope) (pc_signer call)))
        <$> pc_envelope call in
    let msgs := block_message :: option_list (snd <$> envelope_message) in
    msg ← try_create_message metadata msgs (ExecValidator (pc_pubkey call));
    match msg with
    | None => mret tt
    | Some msg =>
        _ ← sign_and_send env msg (md_committee_id metadata);
        _ ← (match sd_share block with
             | Some _ =>
                 ignore_err (receive_partial_signature_with_companion env block_message
                   (md_slot metadata) (sd_root <$> pc_envelope call) true)
             | None => mret tt
             end);
        match envelope_message with
        | Some (envelope, message) =>
            match sd_share envelope with
            | Some _ =>
                ignore_err (receive_partial_signature_with_companion env message
                  (md_slot metadata) (Some (sd_root block)) true)
            | None => mret tt
            end
        | None => mret tt
        end
    end.

(** A closure, when the processor runs it. *)
Definition run_work (env : Environment) (work : Work) : saction unit :=
  match work with
  | RegisterCaller check_slot slot threshold validator_pubkey registration =>
      if check_slot && is_stale_slot (env_now env) slot then mret tt
      else _ ← register_with env slot threshold validator_pubkey registration; mret tt
  | SignAndSend metadata requester data signer => run_sign env metadata requester data signer
  | RegisterPacket registration call =>
      let metadata := pc_metadata call in
      if is_stale_slot (env_now env) (md_slot metadata) then mret tt
      else
        registered ← register_with env (md_slot metadata) (md_threshold metadata)
                       (pc_pubkey call) registration;
        if registered : bool
        then modify (λ m, m <| sm_resumed := sm_resumed m ++ [call] |>)
        else mret tt
  | SignPacket call => run_sign_packet env call
  | RegisterWaiter slot threshold validator_pubkey registration =>
      if is_stale_slot (env_now env) slot then mret tt
      else
        collector ← gets (λ m, sm_collectors m !! (rg_root registration, rg_index registration));
        match collector with
        | None => mret tt
        | Some collector =>
            if negb (bool_decide (sc_for_slot collector = slot)) then mret tt
            else
              _ ← send_to_collector env (rg_root registration, rg_index registration)
                    (RegisterNotifier (rg_notify registration)
                       (rg_required_companion registration) threshold validator_pubkey);
              mret tt
        end
  | DeliverPartialSignature message slot companion_root check_slot =>
      deliver_partial_signature env message slot companion_root check_slot
  end.

(** ** Calls *)

(** [sign_and_collect], up to the wait for the result. *)
Definition sign_and_collect (env : Environment) (metadata : SignatureMetadata)
    (requester : SignatureRequester) (data : ValidatorSigningData) (result_tx : Notifier)
    : saction unit :=
  operator_id ← gets sm_operator_id;
  signer ← lift (ok_or operator_id Collection.OwnOperatorIdUnknown);
  _ ← submit env (RegisterCaller (is_single_validator_batch requester) (md_slot metadata)
                    (md_threshold metadata) (sd_validator_pubkey data)
                    {| rg_root := sd_root data; rg_index := sd_index data;
                       rg_notify := Some result_tx; rg_required_companion := None |});
  submit env (SignAndSend metadata requester data signer).

(** The [for] loop of [sign_proposer_packet] from one acknowledgement to the next wait, and
    the signing after the last. *)
Definition continue_packet (env : Environment) (call : PacketCall) : saction unit :=
  match pc_registrations call with
  | registration :: rest =>
      submit env (RegisterPacket registration
        {| pc_metadata := pc_metadata call; pc_pubkey := pc_pubkey call; pc_block := pc_block call;
           pc_envelope := pc_envelope call; pc_signer := pc_signer call;
           pc_registrations := rest |})
  | [] => submit env (SignPacket call)
  end.

(** The checks of [sign_proposer_packet]. *)
Definition packet_is_valid (metadata : SignatureMetadata) (pubkey : PublicKeyBytes)
    (block : ValidatorSigningData) (envelope : option ValidatorSigningData) : bool :=
  bool_decide (md_role metadata = Role.Proposer) &&
  bool_decide (md_kind metadata = PartialSignatureKind.PostConsensus) &&
  bool_decide (pubkey = sd_validator_pubkey block) &&
  match envelope with
  | Some envelope =>
      bool_decide (sd_index envelope = sd_index block) &&
      bool_decide (sd_validator_pubkey envelope = sd_validator_pubkey block) &&
      negb (bool_decide (sd_root envelope = sd_root block))
  | None => true
  end.

(** [sign_proposer_packet], up to its first wait. *)
Definition sign_proposer_packet (env : Environment) (metadata : SignatureMetadata)
    (pubkey : PublicKeyBytes) (block : ValidatorSigningData)
    (envelope : option ValidatorSigningData) (result_tx : Notifier) : saction unit :=
  _ ← lift (ensure (packet_is_valid metadata pubkey block envelope) Collection.InvalidProposerPacket);
  operator_id ← gets sm_operator_id;
  signer ← lift (ok_or operator_id Collection.OwnOperatorIdUnknown);
  let registrations :=
    option_list ((λ envelope, {| rg_root := sd_root envelope; rg_index := sd_index block;
                                 rg_notify := None;
                                 rg_required_companion := Some (sd_root block) |}) <$> envelope) ++
    [{| rg_root := sd_root block; rg_index := sd_index block; rg_notify := Some result_tx;
        rg_required_companion := None |}] in
  continue_packet env
    {| pc_metadata := metadata; pc_pubkey := pubkey; pc_block := block; pc_envelope := envelope;
       pc_signer := signer; pc_registrations := registrations |}.

(** [wait_for_registered_signature], up to the wait for the result. *)
Definition wait_for_registered_signature (env : Environment) (metadata : SignatureMetadata)
    (index : ValidatorIndex) (validator_pubkey : PublicKeyBytes) (root : Hash256)
    (required_companion : option Hash256) (result_tx : Notifier) : saction unit :=
  submit env (RegisterWaiter (md_slot metadata) (md_threshold metadata) validator_pubkey
    {| rg_root := root; rg_index := index; rg_notify := Some result_tx;
       rg_required_companion := required_companion |}).

(** ** Cleaning up *)

(** [remove_stale_entries] *)
Definition remove_stale_entries (cutoff : Slot) : saction unit :=
  modify (λ m,
    m <| sm_collectors := filter (λ kv, cutoff <= sc_for_slot kv.2)%N (sm_collectors m) |>
      <| sm_committee_batches := filter (λ kv, cutoff <= cb_for_slot kv.2)%N (sm_committee_batches m) |>
      <| sm_single_batches := filter (λ kv, cutoff <= kv.1.1.2)%N (sm_single_batches m) |>).

(** One pass of [cleaner]. *)
Definition collector_cleaner_pass (now : option Slot) : saction unit :=
  match now with
  | Some slot => remove_stale_entries (slot - SIGNATURE_COLLECTOR_RETAIN_SLOTS)%N
  | None => mret tt
  end.

(** ** The manager over time *)

Inductive ManagerEvent :=
  | SignAndCollect (metadata : SignatureMetadata) (requester : SignatureRequester)
      (data : ValidatorSigningData) (result_tx : Notifier)
  | SignProposerPacket (metadata : SignatureMetadata) (pubkey : PublicKeyBytes)
      (block : ValidatorSigningData) (envelope : option ValidatorSigningData) (result_tx : Notifier)
  | WaitForRegistered (metadata : SignatureMetadata) (index : ValidatorIndex)
      (validator_pubkey : PublicKeyBytes) (root : Hash256) (required_companion : option Hash256)
      (result_tx : Notifier)
  | ReceivePartialSignatures (msgs : PartialSignatureMessages)
  | ReceiveProposerPartialSignatures (msgs : PartialSignatureMessages)
  | RunWork (i : nat)
  | ResumePacket (i : nat)
  | RunThread (i : nat)
  | RunCleaner.

Definition collector_manager_step (env : Environment) (ev : ManagerEvent) : saction unit :=
  match ev with
  | SignAndCollect metadata requester data result_tx =>
      sign_and_collect env metadata requester data result_tx
  | SignProposerPacket metadata pubkey block envelope result_tx =>
      sign_proposer_packet env metadata pubkey block envelope result_tx
  | WaitForRegistered metadata index validator_pubkey root required_companion result_tx =>
      wait_for_registered_signature env metadata index validator_pubkey root required_companion
        result_tx
  | ReceivePartialSignatures msgs => receive_partial_signatures env msgs
  | ReceiveProposerPartialSignatures msgs => receive_proposer_partial_signatures env msgs
  | RunWork i =>
      work ← gets (λ m, sm_work m !! i);
      _ ← modify (λ m, m <| sm_work := delete i (sm_work m) |>);
      from_option (run_work env) (mret tt) work
  | ResumePacket i =>
      call ← gets (λ m, sm_resumed m !! i);
      _ ← modify (λ m, m <| sm_resumed := delete i (sm_resumed m) |>);
      from_option (continue_packet env) (mret tt) call
  | RunThread i =>
      thread ← gets (λ m, sm_threads m !! i);
      _ ← modify (λ m, m <| sm_threads := delete i (sm_threads m) |>);
      from_option (run_thread env) (mret tt) thread
  | RunCleaner => collector_cleaner_pass (env_now env)
  end.

(** The state after a sequence of events; the error of a call is its caller's. *)
Definition collector_manager_run (evs : list (Environment * ManagerEvent))
    (m : SignatureCollectorManager) : SignatureCollectorManager :=
  foldl (λ m ev, (collector_manager_step ev.1 ev.2 m).2) m evs.
End manager.
