(* ===== verification/SignatureRouting.v ===== *)
(** * What the signature collector manager routes

    Over any run of the manager of [SignatureCollector.v], in which pending closures run in
    any order and may be refused: what a collector's queue holds was asked for, or arrived
    or was signed, for exactly its signing root and validator.  With the guarantee of the
    collector task ([CollectorRuns.v]) a caller only gets the signature it asked for. *)

From S2P Require Import Prelude SsvTypes Messages QbftTypes ForkSchedule ValidationTypes DutyState.
From S2P Require Import ValidatorRules ConsensusValidation PartialValidation Subnet Validator MultiIndex.
From S2P Require Import NetworkState Sql BlsInterface SampleBls CollectorState CollectorRuns SignatureCollector.

Section routing.
Context {SecretKey : Type} (sk_sign : SecretKey → Hash256 → Signature).
Context (psm_as_ssz : PartialSignatureMessages → bytes).

Abbreviation Manager := (SignatureCollectorManager (SecretKey:=SecretKey)).
Abbreviation Data := (ValidatorSigningData (SecretKey:=SecretKey)).
Abbreviation Event := (Environment (SecretKey:=SecretKey) * ManagerEvent (SecretKey:=SecretKey))%type.
Implicit Types (m : Manager) (data : Data) (evs : list Event).

(** ** What was asked for and what arrived *)

(** A call of the run waits on [n] for the signature of the validator with the key [vk]
    and index [idx] on [root], with this threshold and companion. *)
Definition requested evs (n : Notifier) (root : Hash256) (idx : ValidatorIndex)
    (vk : PublicKeyBytes) (threshold : N) (companion : option Hash256) : Prop :=
  (∃ env metadata requester data, (env, SignAndCollect metadata requester data n) ∈ evs ∧
     sd_root data = root ∧ sd_index data = idx ∧ sd_validator_pubkey data = vk ∧
     md_threshold metadata = threshold ∧ companion = None) ∨
  (∃ env metadata block envelope, (env, SignProposerPacket metadata vk block envelope n) ∈ evs ∧
     sd_root block = root ∧ sd_index block = idx ∧ md_threshold metadata = threshold ∧
     companion = None) ∨
  (∃ env metadata, (env, WaitForRegistered metadata idx vk root companion n) ∈ evs ∧
     md_threshold metadata = threshold).

(** The local operator made this partial signature for a call of the run. *)
Definition signed_here evs (message : PartialSignatureMessage) : Prop :=
  ∃ data signer, message = partial_signature_message sk_sign data (signing_root message) signer ∧
    ((∃ env metadata requester n, (env, SignAndCollect metadata requester data n) ∈ evs) ∨
     (∃ env metadata vk block envelope n, (env, SignProposerPacket metadata vk block envelope n) ∈ evs ∧
        (data = block ∨ envelope = Some data))).

(** The packets of the run. *)
Definition packets evs (msgs : PartialSignatureMessages) : Prop :=
  ∃ env, (env, ReceivePartialSignatures msgs) ∈ evs ∨ (env, ReceiveProposerPartialSignatures msgs) ∈ evs.

(** A partial signature was received or made here.  With a companion root it came in a
    two-entry packet whose other entry, of the same signer for the same validator, is for
    that root; or it was made here together with one for that root. *)
Definition arrived evs (message : PartialSignatureMessage) (companion : option Hash256) : Prop :=
  (signed_here evs message ∨ ∃ msgs, packets evs msgs ∧ message ∈ messages msgs) ∧
  ∀ r, companion = Some r →
    r ≠ signing_root message ∧
    ((∃ msgs other, packets evs msgs ∧ length (messages msgs) = 2 ∧ message ∈ messages msgs ∧
        other ∈ messages msgs ∧ signing_root other = r ∧
        validator_index other = validator_index message ∧ psm_signer other = psm_signer message) ∨
     (∃ env metadata vk block envelope n,
        (env, SignProposerPacket metadata vk block (Some envelope) n) ∈ evs ∧
        ((signing_root message = sd_root block ∧ r = sd_root envelope) ∨
         (signing_root message = sd_root envelope ∧ r = sd_root block)))).

(** ** The invariant *)

Section invariant.
Context (evs : list Event).

Definition registration_ok (vk : PublicKeyBytes) (threshold : N) (r : Registration) : Prop :=
  ∀ n, rg_notify r = Some n →
    requested evs n (rg_root r) (rg_index r) vk threshold (rg_required_companion r).

Definition packet_ok (call : PacketCall (SecretKey:=SecretKey)) : Prop :=
  Forall (registration_ok (pc_pubkey call) (md_threshold (pc_metadata call))) (pc_registrations call) ∧
  ∃ env n, (env, SignProposerPacket (pc_metadata call) (pc_pubkey call) (pc_block call)
    (pc_envelope call) n) ∈ evs ∧
    ∀ envelope, pc_envelope call = Some envelope → sd_root envelope ≠ sd_root (pc_block call).

Definition called data : Prop :=
  ∃ env metadata requester n, (env, SignAndCollect metadata requester data n) ∈ evs.

Definition work_ok (work : Work (SecretKey:=SecretKey)) : Prop :=
  match work with
  | RegisterCaller _ _ threshold vk r | RegisterWaiter _ threshold vk r => registration_ok vk threshold r
  | SignAndSend _ _ data _ => called data
  | RegisterPacket r call =>
      registration_ok (pc_pubkey call) (md_threshold (pc_metadata call)) r ∧ packet_ok call
  | SignPacket call => packet_ok call
  | DeliverPartialSignature message _ companion _ => arrived evs message companion
  end.

Definition thread_ok (thread : BatchThread (SecretKey:=SecretKey)) : Prop :=
  match thread with
  | BeforeEntry call | BeforeLock call _ =>
      called (bc_data call) ∧
      ∃ signer, bc_message call =
        partial_signature_message sk_sign (bc_data call) (sd_root (bc_data call)) signer
  end.

(** A message in the queue of the collector of [root] and [idx]. *)
Definition queued_ok (root : Hash256) (idx : ValidatorIndex) (msg : CollectorMessageKind) : Prop :=
  match msg with
  | RegisterNotifier notify companion threshold vk =>
      ∀ n, notify = Some n → requested evs n root idx vk threshold companion
  | PartialSignature op sig companion =>
      arrived evs {| partial_signature := sig; signing_root := root; psm_signer := op;
                     validator_index := idx |} companion
  end.

Record routed m : Prop := {
  ro_work : Forall work_ok (sm_work m);
  ro_resumed : Forall packet_ok (sm_resumed m);
  ro_threads : Forall thread_ok (sm_threads m);
  ro_queues : map_Forall (λ key c, Forall (queued_ok key.1 key.2) (sc_queue c)) (sm_collectors m);
}.

(** ** Every step keeps it *)

Abbreviation keeps_routed := (keeps (E:=Collection.CollectionError) routed).

Lemma submit_keeps env work : work_ok work → keeps_routed (submit env work).
Proof.
  intros Hw. unfold submit. keeps_step; [keeps_step|]. apply keeps_modify.
  intros m [Hwork Hres Hthr Hq]. split; cbn; [|done..]. apply Forall_app. by split; [|constructor].
Qed.

Lemma get_or_spawn_keeps root idx slot : keeps_routed (get_or_spawn root idx slot).
Proof.
  apply keeps_modify. intros m Hm. destruct (sm_collectors m !! (root, idx)) eqn:Hl; [done|].
  destruct Hm as [Hwork Hres Hthr Hq]. split; cbn; [done..|]. apply map_Forall_insert_2; [|done].
  constructor.
Qed.

Lemma send_to_collector_keeps env root idx msg :
  queued_ok root idx msg → keeps_routed (send_to_collector env (root, idx) msg).
Proof.
  intros Hmsg. unfold send_to_collector. keeps_step; [|keeps_step]. keeps_step; [|keeps_step].
  apply keeps_modify. intros m [Hwork Hres Hthr Hq]. split; cbn; [done..|].
  intros key c Hc. destruct (decide (key = (root, idx))) as [->|Hne].
  - rewrite lookup_alter_eq in Hc. destruct (sm_collectors m !! (root, idx)) as [c'|] eqn:Hl; [|done].
    cbn in Hc. simplify_eq. cbn. apply Forall_app. split; [|by constructor].
    by apply (Hq (root, idx)).
  - rewrite lookup_alter_ne in Hc by done. by apply Hq.
Qed.

Lemma register_with_keeps env slot t vk r :
  registration_ok vk t r → keeps_routed (register_with env slot t vk r).
Proof.
  intros Hr. unfold register_with. keeps_step; [apply get_or_spawn_keeps|].
  apply send_to_collector_keeps. intros n Hn. by apply Hr.
Qed.

Lemma receive_partial_signature_keeps env message slot :
  arrived evs message None → keeps_routed (receive_partial_signature env message slot).
Proof. intros Ha. by apply submit_keeps. Qed.

Lemma inject_keeps env data slot msgs :
  Forall (λ message, arrived evs message None) msgs → keeps_routed (inject env data slot msgs).
Proof.
  intros Hall. unfold inject. keeps_step; [|keeps_step]. apply keeps_for_each.
  intros message Hin. keeps_step. apply receive_partial_signature_keeps.
  rewrite Forall_forall in Hall. auto.
Qed.

Lemma sign_and_send_keeps env msg committee_id : keeps_routed (sign_and_send env msg committee_id).
Proof. unfold sign_and_send. keeps_step; repeat keeps_step. apply keeps_modify. by intros m []. Qed.

Lemma try_create_message_keeps metadata sigs ex :
  keeps_routed (try_create_message psm_as_ssz metadata sigs ex).
Proof. unfold try_create_message. repeat keeps_step. Qed.

Lemma take_ready_committee_batch_keeps env metadata n h message :
  keeps_routed (take_ready_committee_batch env metadata n h message).
Proof.
  unfold take_ready_committee_batch. repeat keeps_step; apply keeps_modify; by intros m [].
Qed.

(** Messages of the local share. *)
Lemma arrived_here data root signer :
  called data → arrived evs (partial_signature_message sk_sign data root signer) None.
Proof. intros Hc. split; [|done]. left. exists data, signer. split; [done|]. by left. Qed.

Lemma expand_entry_here data signer acc entry :
  called data → Forall (λ message, arrived evs message None) acc.1 →
  Forall (λ message, arrived evs message None) (expand_entry sk_sign data signer acc entry).1.
Proof.
  destruct acc as [inj exp]. intros Hc Hall. unfold expand_entry. destruct (head _); [done|].
  apply Forall_app. split; [done|]. constructor; [|done]. by apply arrived_here.
Qed.

Lemma expand_batch_here data message descriptor :
  called data → arrived evs message None →
  Forall (λ message, arrived evs message None) (expand_batch sk_sign data message descriptor).1.
Proof.
  intros Hc Hm. unfold expand_batch.
  assert (Forall (λ message, arrived evs message None)
    (([message], []) : list PartialSignatureMessage * list PartialSignatureMessage).1) as Hacc
    by by constructor.
  revert Hacc. generalize (([message], []) : list PartialSignatureMessage * list PartialSignatureMessage).
  induction descriptor as [|entry descriptor IH]; intros acc Hacc; [done|]. cbn [foldl].
  apply IH. by apply expand_entry_here.
Qed.

Lemma batch_lock_routed env call record m :
  routed m → called (bc_data call) → arrived evs (bc_message call) None →
  wp (batch_lock sk_sign psm_as_ssz env call record)
    (λ o m', routed m' ∧ ∀ msgs, o = Ok msgs → Forall (λ message, arrived evs message None) msgs) m.
Proof.
  intros Hm Hc Ha. unfold batch_lock.
  assert (Forall (λ message, arrived evs message None) [bc_message call]) as Hone by by constructor.
  wp_step. wp_step. destruct (sm_records m !! record) as [r|]; [|by split; [|intros ? [= <-]]].
  wp_step; [wp_step; by split; [|intros ? [= <-]]|]. destruct (br_state r); [|wp_step; by split; [|intros ? [= <-]]].
  pose proof (expand_batch_here (bc_data call) (bc_message call) (br_descriptor r) Hc Ha) as Hinj.
  destruct (expand_batch _ _ _ _) as [inj exp]. cbn [fst] in Hinj.
  wp_step. eapply wp_mono; [apply wp_keeps; [apply try_create_message_keeps|done]|].
  intros [[msg|]| |] m1 Hm1; [|by split; [|intros ? [= <-]]|by split..].
  wp_step. eapply wp_mono; [apply wp_keeps; [apply sign_and_send_keeps|done]|].
  intros [b| |] m2 Hm2; [|by split..]. wp_step. destruct b; wp_run.
  - split; [by destruct Hm2|by intros ? [= <-]].
  - by split; [|intros ? [= <-]].
Qed.

Lemma run_thread_keeps env thread :
  thread_ok thread → keeps_routed (run_thread sk_sign psm_as_ssz env thread).
Proof.
  destruct thread as [call|call record]; cbn [thread_ok run_thread]; intros [Hc [signer Hmsg]].
  - keeps_step.
    + unfold batch_entry. repeat keeps_step. apply keeps_modify. by intros m [].
    + apply keeps_modify. intros m [Hwork Hres Hthr Hq]. split; cbn; [done..| |done].
      apply Forall_app. split; [done|]. constructor; [|done]. split; eauto.
  - apply keeps_wp. intros m Hm. apply wp_bind.
    eapply wp_mono; [apply batch_lock_routed; [done..|rewrite Hmsg; by apply arrived_here]|].
    intros [msgs| |] m' [Hm' Hmsgs]; [|done..]. apply wp_keeps; [apply inject_keeps; auto|done].
Qed.

Lemma run_sign_keeps env metadata requester data signer :
  called data → keeps_routed (run_sign sk_sign psm_as_ssz env metadata requester data signer).
Proof.
  intros Hc. unfold run_sign. set (message := partial_signature_message _ _ _ _).
  assert (arrived evs message None) as Ha by by apply arrived_here.
  assert (∀ slot, keeps_routed (inject env data slot [message])) as Hinj.
  { intros slot. apply inject_keeps. by constructor. }
  destruct requester as [pubkey|pubkey subnet descriptor|size hash].
  - keeps_step; [apply try_create_message_keeps|]. keeps_step; [|keeps_step].
    keeps_step; [apply sign_and_send_keeps|done].
  - unfold batch_checks. repeat first [case_match | done]; simplify_eq; try done.
    + apply inject_keeps. constructor.
    + apply keeps_modify. intros m [Hwork Hres Hthr Hq]. split; cbn; [done..| |done].
      apply Forall_app. split; [done|]. constructor; [|done]. split; [done|]. by exists signer.
  - keeps_step; [apply take_ready_committee_batch_keeps|]. keeps_step; [|done].
    keeps_step; [apply try_create_message_keeps|]. keeps_step; [|keeps_step].
    keeps_step; [apply sign_and_send_keeps|done].
Qed.

(** The two shares of a proposer packet made here. *)
Lemma packet_arrived call data companion r signer :
  packet_ok call → data = pc_block call ∨ pc_envelope call = Some data →
  (companion = Some r → ∃ envelope, pc_envelope call = Some envelope ∧
    ((sd_root data = sd_root (pc_block call) ∧ r = sd_root envelope) ∨
     (sd_root data = sd_root envelope ∧ r = sd_root (pc_block call)))) →
  companion = None ∨ companion = Some r →
  arrived evs (partial_signature_message sk_sign data (sd_root data) signer) companion.
Proof.
  intros (_ & env & n & Hev & Hne) Hdata Hcomp Hc. split.
  - left. exists data, signer. split; [done|]. right. eauto 12.
  - intros r' ->. destruct Hc as [|[= ->]]; [done|].
    destruct (Hcomp eq_refl) as (envelope & He & Hroots). specialize (Hne envelope He).
    rewrite He in Hev. split; [cbn; naive_solver|]. right. eauto 12.
Qed.

Lemma run_sign_packet_keeps env call :
  packet_ok call → keeps_routed (run_sign_packet sk_sign psm_as_ssz env call).
Proof.
  intros Hp. unfold run_sign_packet. keeps_step; [keeps_step|].
  keeps_step; [apply try_create_message_keeps|]. keeps_step; [|keeps_step].
  keeps_step; [apply sign_and_send_keeps|]. keeps_step.
  - keeps_step; [|keeps_step]. keeps_step. apply submit_keeps. cbn.
    destruct (pc_envelope call) as [envelope|] eqn:He; cbn.
    + eapply (packet_arrived call _ _ (sd_root envelope)); [done|by left| |by right]. eauto.
    + eapply (packet_arrived call _ _ 0%N); [done|by left|done|by left].
  - destruct (pc_envelope call) as [envelope|] eqn:He; cbn; [|keeps_step].
    keeps_step; [|keeps_step]. keeps_step. apply submit_keeps. cbn.
    eapply (packet_arrived call _ _ (sd_root (pc_block call))); [done|by right| |by right]. eauto.
Qed.

Lemma run_work_keeps env work :
  work_ok work → keeps_routed (run_work sk_sign psm_as_ssz env work).
Proof.
  destruct work as [check slot t vk r|metadata requester data signer|r call|call|slot t vk r
                   |message slot companion check]; cbn [work_ok run_work]; intros Hw.
  - keeps_step; [keeps_step|]. keeps_step; [|keeps_step]. by apply register_with_keeps.
  - by apply run_sign_keeps.
  - destruct Hw as [Hr Hcall]. keeps_step; [keeps_step|].
    keeps_step; [by apply register_with_keeps|]. keeps_step; [|keeps_step].
    apply keeps_modify. intros m [Hwork Hres Hthr Hq]. split; cbn; [done| |done..].
    apply Forall_app. by split; [|constructor].
  - by apply run_sign_packet_keeps.
  - keeps_step; [keeps_step|]. keeps_step; [keeps_step|]. keeps_step; [|keeps_step].
    keeps_step; [keeps_step|]. keeps_step; [|keeps_step].
    apply send_to_collector_keeps. intros n Hn. by apply Hw.
  - unfold deliver_partial_signature. keeps_step; [keeps_step|].
    keeps_step; [apply get_or_spawn_keeps|]. keeps_step; [|keeps_step].
    apply send_to_collector_keeps. by destruct message.
Qed.

Lemma continue_packet_keeps env call : packet_ok call → keeps_routed (continue_packet env call).
Proof.
  intros Hp. unfold continue_packet. destruct (pc_registrations call) as [|r rest] eqn:Hr.
  - by apply submit_keeps.
  - apply submit_keeps. destruct Hp as [Hall Hrest]. rewrite Hr in Hall.
    apply Forall_cons in Hall as [Hhead Htail]. by split.
Qed.

Lemma sign_proposer_packet_keeps env metadata vk block envelope n :
  (env, SignProposerPacket metadata vk block envelope n) ∈ evs →
  keeps_routed (sign_proposer_packet env metadata vk block envelope n).
Proof.
  intros Hev. unfold sign_proposer_packet.
  destruct (packet_is_valid metadata vk block envelope) eqn:Hvalid; [|by intros m].
  keeps_step; [keeps_step|]. keeps_step; [keeps_step|]. keeps_step; [keeps_step|].
  apply continue_packet_keeps. unfold packet_is_valid in Hvalid. split_and_hyps. split; cbn.
  - apply Forall_app. split.
    + destruct envelope; cbn; [constructor; [|done]|done]. by intros n' [=].
    + constructor; [|done]. intros n' [= <-]. right. left. do 4 eexists. split; [exact Hev|done].
  - exists env, n. split; [done|]. intros e ->. split_and_hyps. done.
Qed.

Lemma companion_root_of_spec msgs message r :
  companion_root_of msgs message = Some r →
  length msgs = 2 ∧ ∃ other, other ∈ msgs ∧ signing_root other = r ∧ r ≠ signing_root message ∧
    validator_index other = validator_index message ∧ psm_signer other = psm_signer message.
Proof.
  unfold companion_root_of. case_bool_decide as Hlen; [|done]. intros (other & Hin & ->)%fmap_Some.
  split; [done|]. exists other. apply head_Some_elem_of, list_elem_of_filter in Hin as [? ?]. naive_solver.
Qed.

Lemma receive_keeps env msgs :
  packets evs msgs → keeps_routed (receive_partial_signatures env msgs).
Proof.
  intros Hp. apply keeps_for_each. intros message Hin. apply receive_partial_signature_keeps.
  split; [|done]. right. eauto.
Qed.

Lemma receive_proposer_keeps env msgs :
  packets evs msgs → keeps_routed (receive_proposer_partial_signatures env msgs).
Proof.
  intros Hp. unfold receive_proposer_partial_signatures. keeps_step; [|by apply receive_keeps].
  apply keeps_for_each. intros message Hin. apply submit_keeps. split; [right; eauto|].
  intros r (Hlen & other & Hother & Hr & Hne & Hidx & Hsig)%companion_root_of_spec.
  split; [done|]. left. by exists msgs, other.
Qed.

Lemma cleaner_keeps now : keeps_routed (collector_cleaner_pass now).
Proof.
  unfold collector_cleaner_pass. keeps_step; [|keeps_step]. apply keeps_modify.
  intros m [Hwork Hres Hthr Hq]. split; cbn; [done..|].
  intros key c [Hc _]%map_lookup_filter_Some. by apply Hq.
Qed.

Lemma collector_manager_step_keeps env ev :
  (env, ev) ∈ evs → keeps_routed (collector_manager_step sk_sign psm_as_ssz env ev).
Proof.
  intros Hev. destruct ev as [metadata requester data n|metadata vk block envelope n
    |metadata idx vk root companion n|msgs|msgs|i|i|i|]; cbn [collector_manager_step].
  - unfold sign_and_collect. keeps_step; [keeps_step|]. keeps_step; [keeps_step|]. keeps_step.
    + apply submit_keeps. intros n' [= <-]. left. do 4 eexists. split; [exact Hev|done].
    + apply submit_keeps. do 4 eexists. exact Hev.
  - by apply sign_proposer_packet_keeps.
  - apply submit_keeps. intros n' [= <-]. right. right. eauto.
  - apply receive_keeps. exists env. by left.
  - apply receive_proposer_keeps. exists env. by right.
  - apply keeps_pop with (P := work_ok); [by intros m []| |apply run_work_keeps].
    intros m []. split; cbn; [by apply Forall_delete|done..].
  - apply keeps_pop with (P := packet_ok); [by intros m []| |apply continue_packet_keeps].
    intros m []. split; cbn; [done|by apply Forall_delete|done..].
  - apply keeps_pop with (P := thread_ok); [by intros m []| |apply run_thread_keeps].
    intros m []. split; cbn; [done..|by apply Forall_delete|done].
  - apply cleaner_keeps.
Qed.

Lemma routed_run evs' m : evs' ⊆ evs → routed m → routed (collector_manager_run sk_sign psm_as_ssz evs' m).
Proof.
  unfold collector_manager_run.
  revert m. induction evs' as [|[env ev] evs' IH]; intros m Hsub Hm; [done|]. cbn [foldl].
  apply IH; [set_solver|]. apply collector_manager_step_keeps; [set_solver|done].
Qed.

Lemma routed_new id schedule spe : routed (collector_manager_new id schedule spe).
Proof. split; cbn; try constructor. apply map_Forall_empty. Qed.
End invariant.

(** ** What a caller gets *)

(** The messages a collector task has received. *)
Definition received_messages (es : list CollectorEvent) : list CollectorMessageKind :=
  omap (λ ev, match ev with Received _ msg => Some msg | LifetimeEnd => None end) es.

Lemma received_elem es db msg : Received db msg ∈ es → msg ∈ received_messages es.
Proof. intros Hin. apply list_elem_of_omap. by exists (Received db msg). Qed.

Section answers.
Context {PublicKey Error : Type} {Lib : BlsLib bytes PublicKey bytes N Error}.
Context (iteration : list (OperatorId * CollectedShare) → list (OperatorId * CollectedShare)).
Hypothesis iteration_perm : ∀ l, iteration l ≡ₚ l.

(** C13: a caller of the signature collector only ever gets the signature it asked for.
    Take any run of the manager, with closures run in any order, refused or delayed,
    threads interleaved and cleaner passes in between, and any collector of it, for some
    root and validator, whose task has received a prefix of its queue.  Whoever the task
    has answered was answered once; it had called for exactly this root and validator; and the
    answer verifies under the validator key of its call.  The signature combines
    the shares of at least as many distinct operators as the call's threshold; each of
    them was received for this root and validator or signed here; and if the call
    required a companion root, each came in a packet together with a share
    of the same signer and validator for that root, or was signed here together with one. *)
Theorem caller_gets_requested_signature evs id schedule spe root idx c es task answers :
  let m := collector_manager_run sk_sign psm_as_ssz evs (collector_manager_new id schedule spe) in
  sm_collectors m !! (root, idx) = Some c → received_messages es `prefix_of` sc_queue c →
  signature_collector iteration root es = (task, answers) →
  answers.*1 ⊆+ callers es ∧
  ∀ n s, (n, s) ∈ answers → ∃ vk pk threshold companion,
    requested evs n root idx vk threshold companion ∧
    decompress vk = Some pk ∧ sig_verify s pk root = true ∧
    ∃ sel, NoDup sel.*1 ∧ (threshold <= len sel)%N ∧ combine_shares sel = Combined s ∧
      ∀ op sig, (op, sig) ∈ sel → ∃ r, (companion = None ∨ r = companion) ∧
        arrived evs {| partial_signature := sig; signing_root := root; psm_signer := op;
                       validator_index := idx |} r.
Proof.
  intros m Hc Hpre Hrun.
  destruct (routed_run evs evs (collector_manager_new id schedule spe)) as [_ _ _ Hq];
    [done|apply routed_new|].
  specialize (Hq _ _ Hc). cbn [fst snd] in Hq. rewrite Forall_forall in Hq.
  assert (∀ db msg, Received db msg ∈ es → queued_ok evs root idx msg) as Hmsg.
  { intros db msg Hin%received_elem. apply Hq. by eapply elem_of_prefix. }
  destruct (collector_answers_valid iteration iteration_perm root es task answers Hrun) as [Hsub Hans].
  split; [done|]. intros n s Hin. rewrite Forall_forall in Hans.
  destruct (Hans _ Hin) as (companion & threshold & vk & pk & [db Hask] & Hdec & Hv & sel & Hnd & Hlen & Hcomb & Hsel).
  exists vk, pk, threshold, companion. split; [by apply (Hmsg _ _ Hask)|]. split; [done|]. split; [done|].
  exists sel. split; [done|]. split; [done|]. split; [done|].
  intros op sig (r & [db' Hs] & Hr)%Hsel. exists r. split; [done|]. apply (Hmsg _ _ Hs).
Qed.
End answers.
End routing.

(** ** A run *)

Module SampleCollecting.
Import SampleBls.

(** Nothing is refused at slot seven. *)
Definition env : Environment (SecretKey:=bytes) :=
  {| env_now := Some 7%N; env_processor := λ _, None; env_receives := λ _, true;
     env_admits := λ _, true |}.

Definition metadata : SignatureMetadata :=
  {| md_kind := PartialSignatureKind.RandaoPartialSig; md_role := Role.Proposer; md_threshold := 2;
     md_slot := 7; md_committee_id := replicate 32 x2a |}.

Definition data : ValidatorSigningData (SecretKey:=bytes) :=
  {| sd_root := 9; sd_index := 5; sd_validator_pubkey := vk; sd_share := Some (share_key vk 1) |}.

Definition peer_packet : PartialSignatureMessages :=
  {| kind := PartialSignatureKind.RandaoPartialSig; psm_slot := 7;
     messages := [{| partial_signature := share 3 9; signing_root := 9; psm_signer := 3;
                     validator_index := 5 |}] |}.

(** Operator one signs; the share of operator three arrives; all closures run in order. *)
Definition run_events : list (Environment (SecretKey:=bytes) * ManagerEvent (SecretKey:=bytes)) :=
  [(env, SignAndCollect metadata (SingleValidator vk) data 41%N); (env, RunWork 0);
   (env, RunWork 0); (env, ReceivePartialSignatures peer_packet); (env, RunWork 0); (env, RunWork 0)].

Definition manager : SignatureCollectorManager (SecretKey:=bytes) :=
  collector_manager_run sign (λ _, [x00]) run_events
    (collector_manager_new (Some 1%N) sample_schedule 32).

Definition collector : SignatureCollector :=
  default (mkSignatureCollector 0 []) (sm_collectors manager !! (9, 5)%N).

Definition task_events : list CollectorEvent := Received None <$> sc_queue collector.

Definition answers : list (Notifier * Signature) :=
  (signature_collector reverse 9 task_events).2.

Lemma caller_gets_requested_signature_witness :
  answers = [(41%N, sign vk 9)] ∧
  ∃ vk' pk threshold companion, requested run_events 41 9 5 vk' threshold companion ∧
    decompress vk' = Some pk ∧ sig_verify (sign vk 9) pk 9%N = true.
Proof.
  assert (answers = [(41%N, sign vk 9)]) as Hans by (vm_compute; reflexivity). split; [done|].
  destruct (caller_gets_requested_signature sign (λ _, [x00]) reverse reverse_Permutation run_events
    (Some 1%N) sample_schedule 32 9 5 collector task_events
    (signature_collector reverse 9 task_events).1 answers) as [_ H].
  - vm_compute. reflexivity.
  - replace (received_messages task_events) with (sc_queue collector); [done|vm_compute; reflexivity].
  - apply surjective_pairing.
  - destruct (H 41%N (sign vk 9)) as (vk' & pk & t & comp & Hreq & Hdec & Hv & _).
    { rewrite Hans. by left. }
    by exists vk', pk, t, comp.
Defined.
End SampleCollecting.
