(* ===== verification/CommitteeBatches.v ===== *)
(** * One committee message per slot

    Peers accept a single post-consensus message per committee and slot, so the signature
    collector must never send two.  Over any run of the manager with a clock that does not
    go back, it does not: neither threads that interleave, nor a batch size that callers
    disagree on, nor a callback delayed past the cleanup of its batch produce a second one. *)

From S2P Require Import Prelude SsvTypes Messages QbftTypes MsgContainer Qbft Sample ForkSchedule ValidationTypes DutyState.
From S2P Require Import ValidatorRules ConsensusValidation PartialValidation Subnet Validator MultiIndex.
From S2P Require Import NetworkState Sql BlsInterface SampleBls CollectorState SignatureCollector.

Section committee.
Context {SecretKey : Type} (sk_sign : SecretKey → Hash256 → Signature).
Context (psm_as_ssz : PartialSignatureMessages → bytes).
(** Decoding, as a peer does it. *)
Context (psm_from_ssz : bytes → option PartialSignatureMessages).
Context (pk_deserialize : bytes → option PublicKeyBytes).
Hypothesis psm_roundtrip : ∀ p, psm_from_ssz (psm_as_ssz p) = Some p.
Hypothesis pk_roundtrip : ∀ pk, length pk = 48 → pk_deserialize pk = Some pk.

Abbreviation Manager := (SignatureCollectorManager (SecretKey:=SecretKey)).
Abbreviation Event := (Environment (SecretKey:=SecretKey) * ManagerEvent (SecretKey:=SecretKey))%type.
Implicit Types (m : Manager) (now clock : option Slot).

(** ** What a message is to a peer *)

(** The packet of an outgoing message, with its role and executor. *)
Definition decoded (msg : UnsignedSSVMessage) : option (Role * DutyExecutor * PartialSignatureMessages) :=
  let ssv := unsigned_ssv_message msg in
  role ← message_id_role (msg_id ssv);
  executor ← message_id_duty_executor pk_deserialize (msg_id ssv);
  packet ← psm_from_ssz (ssv_data ssv);
  Some (role, executor, packet).

Definition domains_ok m : Prop := domains_wf (sm_fork_schedule m).

(** What [create_message] builds is what a peer decodes. *)
Lemma create_message_decoded m metadata sigs ex msg :
  domains_ok m → executor_matches (md_role metadata) ex →
  create_message psm_as_ssz m metadata sigs ex = Ok msg →
  decoded msg = Some (md_role metadata, ex,
    {| kind := md_kind metadata; psm_slot := md_slot metadata; messages := sigs |}) ∧
  (len sigs <= PartialSignatureMessagesLen)%N.
Proof.
  intros Hdom Hex (domain & Hd & (sigs' & [-> Hlen]%try_to_variable_list_ok & (ssv & Hssv%map_err_ok & [= <-])%bind_ok)%bind_ok)%bind_ok.
  destruct (domain_type_for_slot m (md_slot metadata)) as [d|] eqn:Hdd; [|done]. cbn in Hd. simplify_eq.
  unfold ssv_message_new in Hssv.
  apply bind_ok in Hssv as (data & [-> _]%try_to_variable_list_ok & ([] & _ & [= <-])%bind_ok).
  split; [|done]. unfold decoded. cbn.
  apply fmap_Some in Hdd as (config & Hconfig & ->).
  destruct (message_id_roundtrip pk_deserialize (fc_domain_type config) (md_role metadata) ex pk_roundtrip
    (Hdom _ _ Hconfig) Hex) as (_ & _ & -> & ->). cbn. by rewrite psm_roundtrip.
Qed.

(** A post-consensus message of a committee for a slot. *)
Definition post_consensus_of (slot : Slot) (committee : CommitteeId)
    (sent : UnsignedSSVMessage * CommitteeId) : Prop :=
  ∃ packet, decoded sent.1 = Some (Role.Committee, ExecCommittee committee, packet) ∧
    kind packet = PartialSignatureKind.PostConsensus ∧ psm_slot packet = slot.

(** ** The clock *)

Definition clock_le clock now : Prop :=
  match clock, now with
  | None, _ => True
  | Some a, Some b => (a <= b)%N
  | Some _, None => False
  end.

Lemma stale_later clock now slot :
  clock_le clock now → is_stale_slot clock slot = true → is_stale_slot now slot = true.
Proof. destruct clock, now; cbn; try done. rewrite !N.ltb_lt. unfold SIGNATURE_COLLECTOR_RETAIN_SLOTS. lia. Qed.

(** ** The invariant *)

(** Calls name the executor of their role. *)
Definition requester_ok (metadata : SignatureMetadata) (requester : SignatureRequester) : Prop :=
  executor_matches (md_role metadata)
    match requester with
    | SingleValidator pubkey | SingleValidatorBatch pubkey _ _ => ExecValidator pubkey
    | Committee _ _ => ExecCommittee (md_committee_id metadata)
    end.

Definition event_ok (ev : ManagerEvent (SecretKey:=SecretKey)) : Prop :=
  match ev with
  | SignAndCollect metadata requester _ _ => requester_ok metadata requester
  | SignProposerPacket _ pubkey _ _ _ => length pubkey = 48
  | _ => True
  end.

Definition proposer_call (call : PacketCall (SecretKey:=SecretKey)) : Prop :=
  executor_matches (md_role (pc_metadata call)) (ExecValidator (pc_pubkey call)).

Definition sending_ok (work : Work (SecretKey:=SecretKey)) : Prop :=
  match work with
  | SignAndSend metadata requester _ _ => requester_ok metadata requester
  | RegisterPacket _ call | SignPacket call => proposer_call call
  | _ => True
  end.

Definition batch_thread_ok (thread : BatchThread (SecretKey:=SecretKey)) : Prop :=
  match thread with
  | BeforeEntry call | BeforeLock call _ =>
      executor_matches (md_role (bc_metadata call)) (ExecValidator (bc_pubkey call))
  end.

(** A committee's slot is settled: its batch is consumed, or too old to be filled. *)
Definition settled now m (slot : Slot) (committee : CommitteeId) : Prop :=
  (∃ b, sm_committee_batches m !! CommitteePostConsensus slot committee = Some b ∧
     batched_validator_partial_signatures b = None) ∨
  is_stale_slot now slot = true.

Record sends_ok now m : Prop := {
  so_domains : domains_ok m;
  so_work : Forall sending_ok (sm_work m);
  so_resumed : Forall proposer_call (sm_resumed m);
  so_threads : Forall batch_thread_ok (sm_threads m);
  so_slots : ∀ slot committee b,
    sm_committee_batches m !! CommitteePostConsensus slot committee = Some b → cb_for_slot b = slot;
  so_settled : ∀ slot committee i e, sm_sent m !! i = Some e → post_consensus_of slot committee e →
    settled now m slot committee;
  so_once : ∀ slot committee i j e e', sm_sent m !! i = Some e → sm_sent m !! j = Some e' →
    post_consensus_of slot committee e → post_consensus_of slot committee e' → i = j;
}.

Lemma sends_ok_later clock now m : clock_le clock now → sends_ok clock m → sends_ok now m.
Proof.
  intros Hle [Hd Hw Hr Ht Hs Hset Honce]. split; try done.
  intros slot committee i e Hi He. destruct (Hset slot committee i e Hi He) as [?|?]; [by left|].
  right. by eapply stale_later.
Qed.

(** ** Steps that send nothing new *)

Abbreviation saction := (action Manager Collection.CollectionError).
Abbreviation keeps_sends now := (keeps (E:=Collection.CollectionError) (sends_ok now)).

Lemma submit_sends now env work : sending_ok work → keeps_sends now (submit env work).
Proof.
  intros Hw. unfold submit. keeps_step; [keeps_step|]. apply keeps_modify.
  intros m []. split; cbn; try done. apply Forall_app. by split; [|constructor].
Qed.

Lemma collectors_sends now f :
  keeps_sends now (modify (λ m, m <| sm_collectors := f (sm_collectors m) |>)).
Proof. apply keeps_modify. by intros m []. Qed.

Lemma get_or_spawn_sends now root idx slot : keeps_sends now (get_or_spawn root idx slot).
Proof. apply keeps_modify. intros m Hm. case_match; [done|]. by destruct Hm. Qed.

Lemma send_to_collector_sends now env key msg : keeps_sends now (send_to_collector env key msg).
Proof.
  unfold send_to_collector. keeps_step; [|keeps_step]. keeps_step; [|keeps_step].
  apply (collectors_sends now).
Qed.

Lemma register_with_sends now env slot t vk r : keeps_sends now (register_with env slot t vk r).
Proof.
  unfold register_with. keeps_step; [apply get_or_spawn_sends|apply send_to_collector_sends].
Qed.

Lemma deliver_sends now env message slot companion check :
  keeps_sends now (deliver_partial_signature env message slot companion check).
Proof.
  unfold deliver_partial_signature. keeps_step; [keeps_step|].
  keeps_step; [apply get_or_spawn_sends|]. keeps_step; [apply send_to_collector_sends|keeps_step].
Qed.

Lemma inject_sends now env (data : ValidatorSigningData (SecretKey:=SecretKey)) slot msgs :
  keeps_sends now (inject env data slot msgs).
Proof.
  unfold inject. keeps_step; [|keeps_step]. apply keeps_for_each. intros message _.
  keeps_step. by apply submit_sends.
Qed.

(** ** Sending *)

(** What is sent for a validator is no committee message. *)
Lemma send_plain now env msg cid :
  (∀ slot committee, ¬ post_consensus_of slot committee (msg, cid)) →
  keeps_sends now (sign_and_send env msg cid).
Proof.
  intros Hnot. unfold sign_and_send. keeps_step; [|keeps_step]. keeps_step; [|keeps_step].
  apply keeps_modify. intros m [Hd Hw Hr Ht Hs Hset Honce].
  assert (∀ slot committee k e, (sm_sent m ++ [(msg, cid)]) !! k = Some e →
    post_consensus_of slot committee e → sm_sent m !! k = Some e) as Hold.
  { intros slot committee k e [Hk|[Hk He]]%lookup_app_Some Hp; [done|].
    apply list_lookup_singleton_Some in He as [_ <-]. by destruct (Hnot slot committee). }
  split; cbn; try done.
  - intros slot committee k e Hk Hp. eapply Hset; [|done]. by eapply Hold.
  - intros slot committee k j e e' Hk Hj Hp Hp'.
    eapply Honce; [by eapply Hold|by eapply Hold|done..].
Qed.

Lemma wp_try_create m metadata sigs ex :
  domains_ok m → executor_matches (md_role metadata) ex →
  wp (try_create_message psm_as_ssz metadata sigs ex) (λ o m', m' = m ∧ ∀ msg, o = Ok (Some msg) →
    decoded msg = Some (md_role metadata, ex,
      {| kind := md_kind metadata; psm_slot := md_slot metadata; messages := sigs |})) m.
Proof.
  intros Hd Hex. unfold try_create_message. wp_step. wp_step.
  destruct (create_message psm_as_ssz m metadata sigs ex) as [msg| |] eqn:Hc; wp_run; split; try done.
  intros msg' [= <-]. by eapply create_message_decoded.
Qed.

(** Creating a message and going on with it. *)
Lemma create_then now metadata sigs ex (k : option UnsignedSSVMessage → saction unit) :
  executor_matches (md_role metadata) ex → keeps_sends now (k None) →
  (∀ msg, decoded msg = Some (md_role metadata, ex,
     {| kind := md_kind metadata; psm_slot := md_slot metadata; messages := sigs |}) →
     keeps_sends now (k (Some msg))) →
  keeps_sends now (try_create_message psm_as_ssz metadata sigs ex ≫= k).
Proof.
  intros Hex Hnone Hsome. apply keeps_wp. intros m Hm. wp_step.
  eapply wp_mono; [apply wp_try_create; [apply Hm|done]|].
  intros [[msg|]| |] m' [-> Hmsg]; [|by apply wp_keeps|done..].
  apply wp_keeps; [|done]. by apply Hsome, Hmsg.
Qed.

Lemma not_post_validator msg cid role pk packet :
  decoded msg = Some (role, ExecValidator pk, packet) →
  ∀ slot committee, ¬ post_consensus_of slot committee (msg, cid).
Proof. intros Hd slot committee (p & Hp & _). cbn in Hp. congruence. Qed.

Lemma batch_lock_sends now env call record :
  executor_matches (md_role (bc_metadata call)) (ExecValidator (bc_pubkey call)) →
  keeps_sends now (msgs ← batch_lock sk_sign psm_as_ssz env call record;
                   inject env (bc_data call) (md_slot (bc_metadata call)) msgs).
Proof.
  intros Hex. keeps_step; [|apply inject_sends]. unfold batch_lock.
  keeps_step; [keeps_step|]. keeps_step; [|keeps_step]. keeps_step; [keeps_step|]. keeps_step; [|keeps_step].
  destruct (expand_batch _ _ _ _) as [inj exp]. apply keeps_wp. intros m Hm. wp_step.
  eapply wp_mono; [apply wp_try_create; [apply Hm|done]|].
  intros [[msg|]| |] m' [-> Hmsg]; [|done..]. apply wp_keeps; [|done].
  keeps_step; [apply send_plain; by eapply not_post_validator, Hmsg|]. keeps_step; [|keeps_step].
  keeps_step; [|keeps_step]. apply keeps_modify. by intros m' [].
Qed.

(** ** The committee batch *)

Definition unsent m (slot : Slot) (committee : CommitteeId) : Prop :=
  ∀ i e, sm_sent m !! i = Some e → ¬ post_consensus_of slot committee e.

Definition consumed m (slot : Slot) (committee : CommitteeId) : Prop :=
  ∃ b, sm_committee_batches m !! CommitteePostConsensus slot committee = Some b ∧
    batched_validator_partial_signatures b = None.

(** Writing a batch keeps every settled slot settled. *)
Lemma put_batch_sends now m key b :
  sends_ok now m →
  (∀ slot committee, key = CommitteePostConsensus slot committee → cb_for_slot b = slot ∧
     (consumed m slot committee → batched_validator_partial_signatures b = None)) →
  sends_ok now (m <| sm_committee_batches := <[key := b]> (sm_committee_batches m) |>).
Proof.
  intros [Hd Hw Hr Ht Hs Hset Honce] Hkey. split; cbn; try done.
  - intros slot committee b' [[-> <-]|[_ Hb]]%lookup_insert_Some; [by apply (Hkey _ committee)|eauto].
  - intros slot committee i e Hi He. destruct (Hset slot committee i e Hi He) as [Hc|]; [|by right].
    left. destruct (decide (key = CommitteePostConsensus slot committee)) as [Heq|Hne]; cbn.
    + exists b. rewrite Heq, lookup_insert_eq. split; [done|]. by eapply (Hkey _ committee).
    + destruct Hc as (b' & Hb' & Hn). exists b'. by rewrite lookup_insert_ne.
Qed.

Lemma delete_batch_sends now m h c :
  sends_ok now m →
  sends_ok now (m <| sm_committee_batches := delete (DecidedValue h c) (sm_committee_batches m) |>).
Proof.
  intros [Hd Hw Hr Ht Hs Hset Honce]. split; cbn; try done.
  - intros slot committee b. rewrite lookup_delete_ne by done. eauto.
  - intros slot committee i e Hi He. destruct (Hset slot committee i e Hi He) as [(b & Hb & Hn)|]; [|by right].
    left. exists b. cbn. by rewrite lookup_delete_ne.
Qed.

(** Taking a batch of a slot that is sent once: nothing was sent for it yet, and nothing
    will be taken again. *)
Lemma take_ready_sends env metadata n h message m :
  sends_ok (env_now env) m →
  wp (take_ready_committee_batch env metadata n h message)
    (λ o m', sends_ok (env_now env) m' ∧ ∀ sigs, o = Ok (Some sigs) → sends_once metadata = true →
       unsent m' (md_slot metadata) (md_committee_id metadata) ∧
       consumed m' (md_slot metadata) (md_committee_id metadata)) m.
Proof.
  intros Hm. unfold take_ready_committee_batch, committee_batch_key.
  destruct (sends_once metadata) eqn:Honce; cbn [andb].
  - set (key := CommitteePostConsensus _ _).
    destruct (is_stale_slot (env_now env) (md_slot metadata)) eqn:Hstale; [by split|].
    wp_step. wp_step. set (batch := default _ _).
    assert (cb_for_slot batch = md_slot metadata) as Hslot.
    { subst batch. destruct (sm_committee_batches m !! key) eqn:Hb; cbn; [|done]. by eapply so_slots. }
    destruct (batched_validator_partial_signatures batch) as [sigs|] eqn:Hsigs.
    + assert (¬ consumed m (md_slot metadata) (md_committee_id metadata)) as Hnot.
      { intros (b & Hb & Hn). subst batch key. rewrite Hb in Hsigs. cbn in Hsigs. congruence. }
      assert (unsent m (md_slot metadata) (md_committee_id metadata)) as Hun.
      { intros i e Hi He. destruct (so_settled _ _ Hm _ _ _ _ Hi He) as [?|Hst]; [done|congruence]. }
      wp_run; (split; [|intros ? [=]]); try (apply put_batch_sends; [done|];
        intros slot committee [= <- <-]; split; [done|intros ?; by destruct Hnot]).
      simplify_eq. split; [done|]. subst key. eexists. cbn. by rewrite lookup_insert_eq.
    + wp_run. split; [|done]. apply put_batch_sends; [done|]. intros slot committee [= <- <-]. done.
  - wp_run; (split; [|done]); try (apply put_batch_sends; [done|by intros ? ?]).
    by apply delete_batch_sends.
Qed.

Lemma decoded_sends_once metadata sigs cid slot committee (msg : UnsignedSSVMessage) :
  decoded msg = Some (md_role metadata, ExecCommittee (md_committee_id metadata),
    {| kind := md_kind metadata; psm_slot := md_slot metadata; messages := sigs |}) →
  post_consensus_of slot committee (msg, cid) →
  sends_once metadata = true ∧ slot = md_slot metadata ∧ committee = md_committee_id metadata.
Proof.
  intros Hd (p & Hp & Hk & Hs). cbn in Hp. rewrite Hd in Hp. simplify_eq. unfold sends_once.
  cbn in Hk. rewrite Hk. by rewrite !bool_decide_eq_true_2.
Qed.

(** Sending the batch that was taken. *)
Lemma send_committee now env metadata sigs msg cid m :
  sends_ok now m →
  decoded msg = Some (md_role metadata, ExecCommittee (md_committee_id metadata),
    {| kind := md_kind metadata; psm_slot := md_slot metadata; messages := sigs |}) →
  (sends_once metadata = true → unsent m (md_slot metadata) (md_committee_id metadata) ∧
     consumed m (md_slot metadata) (md_committee_id metadata)) →
  sends_ok now (sign_and_send env msg cid m).2.
Proof.
  intros [Hd Hw Hr Ht Hs Hset Honce] Hmsg Hfree. unfold sign_and_send.
  destruct (env_admits env msg); [|done]. cbn.
  assert (∀ slot committee k e, (sm_sent m ++ [(msg, cid)]) !! k = Some e →
    post_consensus_of slot committee e →
    sm_sent m !! k = Some e ∨ k = length (sm_sent m) ∧ sends_once metadata = true ∧
      slot = md_slot metadata ∧ committee = md_committee_id metadata) as Hcases.
  { intros slot committee k e [Hk|[Hk He]]%lookup_app_Some Hp; [by left|]. right.
    apply list_lookup_singleton_Some in He as [Hk0 <-]. split; [lia|]. by eapply decoded_sends_once. }
  split; cbn; try done.
  - intros slot committee k e Hk Hp.
    destruct (Hcases slot committee k e Hk Hp) as [Hk'|(_ & H1 & -> & ->)]; [by eapply Hset|].
    left. by apply Hfree.
  - intros slot committee k j e e' Hk Hj Hp Hp'.
    destruct (Hcases _ _ _ _ Hk Hp) as [Hk'|(-> & H1 & -> & ->)], (Hcases _ _ _ _ Hj Hp') as [Hj'|(-> & H2 & H3 & H4)];
      [by eapply Honce| | |done].
    + exfalso. subst. by eapply (proj1 (Hfree H2)).
    + exfalso. by eapply (proj1 (Hfree H1)).
Qed.

(** ** Every step *)

Lemma run_sign_sends env metadata requester data signer :
  requester_ok metadata requester →
  keeps_sends (env_now env) (run_sign sk_sign psm_as_ssz env metadata requester data signer).
Proof.
  intros Hok. unfold run_sign. destruct requester as [pubkey|pubkey subnet descriptor|size hash].
  - apply create_then; [done|keeps_step|]. intros msg Hmsg.
    keeps_step; [by eapply send_plain, not_post_validator, Hmsg|apply inject_sends].
  - unfold batch_checks. repeat case_match; simplify_eq; try apply inject_sends.
    apply keeps_modify. intros m []. split; cbn; try done. apply Forall_app. by split; [|constructor].
  - apply keeps_wp. intros m Hm. wp_step.
    eapply wp_mono; [by apply take_ready_sends|]. intros [[sigs|]| |] m1 [Hm1 Htaken]; [|by apply wp_keeps; [apply inject_sends|]|done..].
    wp_step. eapply wp_mono; [apply wp_try_create; [apply Hm1|done]|].
    intros [[msg|]| |] m2 [-> Hmsg]; [|done..].
    wp_step. unfold wp at 1.
    pose proof (send_committee (env_now env) env metadata sigs msg (md_committee_id metadata) m1 Hm1
      (Hmsg _ eq_refl) (Htaken _ eq_refl)) as Hm3.
    destruct (sign_and_send env msg (md_committee_id metadata) m1) as [[] m3]; [|done..].
    by apply wp_keeps; [apply inject_sends|].
Qed.

Lemma run_sign_packet_sends env call :
  proposer_call call → keeps_sends (env_now env) (run_sign_packet sk_sign psm_as_ssz env call).
Proof.
  intros Hok. unfold run_sign_packet. keeps_step; [keeps_step|].
  apply create_then; [done|keeps_step|]. intros msg Hmsg.
  keeps_step; [by eapply send_plain, not_post_validator, Hmsg|]. keeps_step.
  - keeps_step; [|keeps_step]. keeps_step. by apply submit_sends.
  - repeat first [apply submit_sends; done | keeps_step].
Qed.

Lemma run_work_sends env work :
  sending_ok work → keeps_sends (env_now env) (run_work sk_sign psm_as_ssz env work).
Proof.
  destruct work as [check slot t vk r|metadata requester data signer|r call|call|slot t vk r
                   |message slot companion check]; cbn [sending_ok run_work]; intros Hw.
  - keeps_step; [keeps_step|]. keeps_step; [apply register_with_sends|keeps_step].
  - by apply run_sign_sends.
  - keeps_step; [keeps_step|]. keeps_step; [apply register_with_sends|]. keeps_step; [|keeps_step].
    apply keeps_modify. intros m []. split; cbn; try done. apply Forall_app. by split; [|constructor].
  - by apply run_sign_packet_sends.
  - repeat first [apply send_to_collector_sends | keeps_step].
  - apply deliver_sends.
Qed.

Lemma continue_packet_sends now env call :
  proposer_call call → keeps_sends now (continue_packet env call).
Proof. intros Hc. unfold continue_packet. keeps_step; by apply submit_sends. Qed.

Lemma run_thread_sends env thread :
  batch_thread_ok thread → keeps_sends (env_now env) (run_thread sk_sign psm_as_ssz env thread).
Proof.
  destruct thread as [call|call record]; cbn [batch_thread_ok run_thread]; intros Hok.
  - keeps_step.
    + unfold batch_entry. repeat keeps_step. apply keeps_modify. by intros m [].
    + apply keeps_modify. intros m []. split; cbn; try done. apply Forall_app. by split; [|constructor].
  - by apply batch_lock_sends.
Qed.

Lemma cleaner_sends now : keeps_sends now (collector_cleaner_pass now).
Proof.
  unfold collector_cleaner_pass. destruct now as [slot|]; [|keeps_step]. apply keeps_modify.
  intros m [Hd Hw Hr Ht Hs Hset Honce]. split; cbn; try done.
  - intros s c b [Hb _]%map_lookup_filter_Some. eauto.
  - intros s c i e Hi He. destruct (Hset s c i e Hi He) as [(b & Hb & Hn)|]; [|by right].
    destruct (decide (slot - SIGNATURE_COLLECTOR_RETAIN_SLOTS <= cb_for_slot b)%N) as [Hle|Hlt].
    + left. exists b. cbn. split; [|done]. by apply map_lookup_filter_Some.
    + right. cbn. apply N.ltb_lt. rewrite <- (Hs _ _ _ Hb). lia.
Qed.

Lemma manager_step_sends env ev :
  event_ok ev → keeps_sends (env_now env) (collector_manager_step sk_sign psm_as_ssz env ev).
Proof.
  intros Hev. destruct ev as [metadata requester data n|metadata vk block envelope n
    |metadata idx vk root companion n|msgs|msgs|i|i|i|]; cbn [collector_manager_step].
  - unfold sign_and_collect. repeat first [by apply submit_sends | keeps_step].
  - unfold sign_proposer_packet.
    destruct (packet_is_valid metadata vk block envelope) eqn:Hvalid; [|by intros m].
    unfold packet_is_valid in Hvalid. split_and_hyps. repeat keeps_step.
    apply continue_packet_sends. unfold proposer_call. cbn in *. split; [|done].
    by match goal with H : md_role _ = _ |- _ => rewrite H end.
  - by apply submit_sends.
  - apply keeps_for_each. intros. by apply submit_sends.
  - unfold receive_proposer_partial_signatures. keeps_step; apply keeps_for_each; intros; by apply submit_sends.
  - apply keeps_pop with (P := sending_ok); [by intros m []| |apply run_work_sends].
    intros m []. split; cbn; try done. by apply Forall_delete.
  - apply keeps_pop with (P := proposer_call); [by intros m []| |apply continue_packet_sends].
    intros m []. split; cbn; try done. by apply Forall_delete.
  - apply keeps_pop with (P := batch_thread_ok); [by intros m []| |apply run_thread_sends].
    intros m []. split; cbn; try done. by apply Forall_delete.
  - apply cleaner_sends.
Qed.

(** The clock readings of a run do not go back. *)
Fixpoint clock_runs clock (evs : list Event) : Prop :=
  match evs with
  | [] => True
  | ev :: evs => clock_le clock (env_now ev.1) ∧ clock_runs (env_now ev.1) evs
  end.

Lemma manager_run_sends evs clock m :
  clock_runs clock evs → Forall (λ ev, event_ok ev.2) evs → sends_ok clock m →
  ∃ now, sends_ok now (collector_manager_run sk_sign psm_as_ssz evs m).
Proof.
  unfold collector_manager_run.
  revert clock m. induction evs as [|[env ev] evs IH]; intros clock m Hclock Hok Hm; [by exists clock|].
  destruct Hclock as [Hle Hclock]. apply Forall_cons in Hok as [Hev Hok]. cbn [foldl fst snd] in *.
  apply (IH (env_now env)); [done..|]. apply manager_step_sends; [done|]. by eapply sends_ok_later.
Qed.

(** C14: at most one post-consensus message per committee and slot.  In any run of the
    manager from its creation, with pending closures and threads run in any order,
    closures refused, and any batch sizes, as long as the clock does not go back and the
    callers name the executor of their role, no two of the messages the manager has
    handed to the message sender decode at a peer to post-consensus packets of
    the same committee and slot. *)
Theorem committee_message_sent_once id schedule spe evs slot committee i j e e' :
  domains_wf schedule →
  clock_runs None evs → Forall (λ ev, event_ok ev.2) evs →
  let m := collector_manager_run sk_sign psm_as_ssz evs (collector_manager_new id schedule spe) in
  sm_sent m !! i = Some e → sm_sent m !! j = Some e' →
  post_consensus_of slot committee e → post_consensus_of slot committee e' → i = j.
Proof.
  intros Hd Hclock Hok m Hi Hj Hp Hp'.
  destruct (manager_run_sends evs None (collector_manager_new id schedule spe)) as [now Hm]; [done..| |].
  { split; cbn; try done; by intros ? ? ? ?%lookup_empty_Some. }
  by eapply (so_once _ _ Hm).
Qed.
End committee.

(** ** A run *)

Module SampleCommittee.

Definition env (slot : Slot) : Environment (SecretKey:=bytes) :=
  {| env_now := Some slot; env_processor := λ _, None; env_receives := λ _, true;
     env_admits := λ _, true |}.

Definition committee : CommitteeId := replicate 32 x2a.

Definition metadata : SignatureMetadata :=
  {| md_kind := PartialSignatureKind.PostConsensus; md_role := Role.Committee; md_threshold := 3;
     md_slot := 7; md_committee_id := committee |}.

Definition callback (size : nat) (idx : ValidatorIndex) : ManagerEvent (SecretKey:=bytes) :=
  SignAndCollect metadata (Committee size 1)
    {| sd_root := 9; sd_index := idx; sd_validator_pubkey := [x0a]; sd_share := Some [x01] |} 41%N.

(** Two callbacks fill the batch; a third comes with a batch of its own, and a fourth after
    the clean-up of the slot. *)
Definition events : list (Environment (SecretKey:=bytes) * ManagerEvent (SecretKey:=bytes)) :=
  [(env 7, callback 2 1); (env 7, callback 2 2); (env 7, RunWork 1); (env 7, RunWork 2);
   (env 8, callback 1 3); (env 8, RunWork 4); (env 9, RunCleaner);
   (env 9, callback 1 4); (env 9, RunWork 8)].

Definition manager : SignatureCollectorManager (SecretKey:=bytes) :=
  collector_manager_run (λ key _, key) bits_encode events
    (collector_manager_new (Some 1%N) sample_schedule 32).

Lemma committee_message_sent_once_witness :
  (∃ e, sm_sent manager = [e] ∧ post_consensus_of bits_decode Some 7 committee e) ∧
  ∀ i j e e', sm_sent manager !! i = Some e → sm_sent manager !! j = Some e' →
    post_consensus_of bits_decode Some 7 committee e →
    post_consensus_of bits_decode Some 7 committee e' → i = j.
Proof.
  split.
  - eexists. split; [vm_compute; reflexivity|]. eexists. split; [vm_compute; reflexivity|]. by split.
  - intros i j e e'. eapply (committee_message_sent_once (λ key _, key) bits_encode bits_decode Some
      bits_decode_encode (λ pk _, eq_refl)); [apply sample_domains|..].
    + repeat split; done.
    + repeat constructor.
Defined.
End SampleCommittee.
