(* ===== verification/InstanceTask.v ===== *)
(** * The task that runs one consensus instance

    [anchor/qbft_manager/src/instance.rs]: every QBFT instance is owned by a task that
    buffers messages until it is initialized, then feeds the instance from three sources
    (its queue, its own signed messages, the round timer), and answers everyone who waits
    for the result.  [select!] may pick any source that is ready; [Instant::now()] is an
    argument.  Results and outgoing decided messages are logs, in order. *)

From S2P Require Import Prelude SsvTypes Messages QbftTypes MsgContainer Qbft RoundTimeout.

Definition MESSAGE_BUFFER_LIMIT : nat := 100.

(** A oneshot channel, by name. *)
Abbreviation Callback := N (only parsing).

Section task.
Context {D : Type} `{!QbftData D} {Codec : SszCodec}.
(** SHA-256, from the [sha2] crate. *)
Context (sha256 : bytes → bytes).

Abbreviation Instance_ := (Qbft DefaultLeaderFunction D).

(** ** Data *)

(** [QbftInitialization] ([lib.rs]). *)
Record QbftInitialization := {
  init_initial : D;
  init_validator : D → D → bool;
  init_message_id : MessageId;
  init_timeout_mode : TimeoutMode;
  init_config : Config DefaultLeaderFunction;
  init_on_completed : Callback;
}.

(** [QbftMessageKind] ([lib.rs]). *)
Inductive QbftMessageKind :=
  | Initialize (init : QbftInitialization)
  | NetworkMessage (message : WrappedQbftMessage).

Record InitializedData := {
  in_qbft : Instance_;
  in_msgs_sent_by_us : list WrappedQbftMessage;
  in_on_completed : list Callback;
  in_timeout_mode : TimeoutMode;
}.

#[export] Instance InitializedData_eta : Eta InitializedData := λ i,
  {| in_qbft := in_qbft i; in_msgs_sent_by_us := in_msgs_sent_by_us i;
     in_on_completed := in_on_completed i; in_timeout_mode := in_timeout_mode i |}.

Inductive QbftInstance :=
  | Uninitialized (message_buffer : list WrappedQbftMessage)
  | Initialized (initialized : InitializedData)
  | Decided (value : Completed D).

Inductive RecvResult :=
  | Message (msg : QbftMessageKind)
  | RoundEnd
  | Closed.

(** What the task has done to the outside: results sent to callers, and decided messages
    handed to the message sender with their committee. *)
Record Effects := {
  ef_results : list (Callback * Completed D);
  ef_sent : list (SignedSSVMessage * CommitteeId);
}.

#[export] Instance Effects_eta : Eta Effects := λ e,
  {| ef_results := ef_results e; ef_sent := ef_sent e |}.

(** The task has no error path: [Empty_set]. *)
Definition taction (A : Type) : Type := action Effects Empty_set A.

Definition send_result (on_completed : Callback) (value : Completed D) : taction unit :=
  modify (λ e, e <| ef_results := ef_results e ++ [(on_completed, value)] |>).

(** Runs a call on the instance; its error is logged and dropped. *)
Definition on_qbft (m : action Instance_ QbftError unit) (q : Instance_)
    : outcome Empty_set Instance_ :=
  match m q with
  | (Panic, _) => Panic
  | (_, q') => Ok q'
  end.

(** [committee_members().iter().cloned().collect::<Vec<_>>().into()] *)
Definition committee_id_of_config (c : Config DefaultLeaderFunction) : CommitteeId :=
  committee_id_of_vec sha256 (cfg_committee_members c).

(** ** Initialization *)

(** The relative mode restarts its timer from [now]. *)
Definition restart_timer (now : N) (mode : TimeoutMode) : TimeoutMode :=
  match mode with
  | SlotTime _ => mode
  | Relative _ round_timeout => Relative now round_timeout
  end.

(** The instant before which the task sleeps when it is initialized. *)
Definition initialize_at (init : QbftInitialization) : N :=
  match init_timeout_mode init with
  | SlotTime _ => 0
  | Relative current_round_start_time _ => current_round_start_time
  end.

(** [Uninitialized::initialize]; [now] is read after the sleep. *)
Definition uninitialized_initialize (message_buffer : list WrappedQbftMessage)
    (init : QbftInitialization) (now : N) : outcome Empty_set InitializedData :=
  match qbft_new (init_config init) (init_initial init) (init_validator init)
          (init_message_id init) with
  | (Panic, _) => Panic
  | (_, instance) =>
      instance ← on_qbft (for_each (λ message, ignore_err (receive message)) message_buffer)
                   instance;
      Ok {| in_qbft := instance; in_msgs_sent_by_us := [];
            in_on_completed := [init_on_completed init];
            in_timeout_mode := restart_timer now (init_timeout_mode init) |}
  end.

(** [QbftInstance::initialize] *)
Definition instance_initialize (now : N) (init : QbftInitialization) (self : QbftInstance)
    : taction QbftInstance :=
  match self with
  | Uninitialized message_buffer =>
      i ← lift (uninitialized_initialize message_buffer init now);
      mret (Initialized i)
  | Initialized initialized =>
      mret (Initialized (initialized <| in_on_completed :=
              in_on_completed initialized ++ [init_on_completed init] |>))
  | Decided value =>
      _ ← send_result (init_on_completed init) value;
      mret self
  end.

(** [QbftInstance::receive] *)
Definition instance_receive (message : WrappedQbftMessage) (self : QbftInstance)
    : outcome Empty_set QbftInstance :=
  match self with
  | Initialized initialized =>
      q ← on_qbft (receive message) (in_qbft initialized);
      Ok (Initialized (initialized <| in_qbft := q |>))
  | Uninitialized message_buffer =>
      if decide (length message_buffer < MESSAGE_BUFFER_LIMIT)
      then Ok (Uninitialized (message_buffer ++ [message]))
      else Ok self
  | Decided _ => Ok self
  end.

(** ** Waiting for the next event *)

(** Which branch of the [select!] is taken. *)
Inductive Select :=
  | RxReady (message : option QbftMessageKind)
  | SentByUsReady
  | TimerReady.

(** [impl From<Option<QbftMessage>> for RecvResult] *)
Definition recv_result_of (value : option QbftMessageKind) : RecvResult :=
  match value with
  | None => Closed
  | Some msg => Message msg
  end.

(** When the current round ends; [None] when the arithmetic overflows. *)
Definition round_end (i : InitializedData) : option N :=
  calculate_round_timeout (round_get (qb_current_round (in_qbft i))) (in_timeout_mode i).

(** [Initialized::recv]; [None] when the chosen branch is not ready at [now]. *)
Definition initialized_recv (now : N) (sel : Select) (i : InitializedData)
    : option (RecvResult * InitializedData) :=
  match round_end i with
  | None => Some (Closed, i)
  | Some timeout_instant =>
      match sel with
      | RxReady message => Some (recv_result_of message, i)
      | SentByUsReady =>
          match in_msgs_sent_by_us i with
          | [] => None
          | msg :: rest => Some (Message (NetworkMessage msg), i <| in_msgs_sent_by_us := rest |>)
          end
      | TimerReady => if (timeout_instant <=? now)%N then Some (RoundEnd, i) else None
      end
  end.

(** The head of the loop of [qbft_instance]. *)
Definition loop_recv (now : N) (sel : Select) (instance : QbftInstance)
    : option (RecvResult * QbftInstance) :=
  match instance with
  | Uninitialized _ | Decided _ =>
      match sel with
      | RxReady message => Some (recv_result_of message, instance)
      | _ => None
      end
  | Initialized initialized =>
      '(r, initialized) ← initialized_recv now sel initialized;
      Some (r, Initialized initialized)
  end.

(** ** Completion *)

(** [Initialized::complete] *)
Definition complete (i : InitializedData) (value : Completed D) : taction unit :=
  for_each (λ on_completed, send_result on_completed value) (in_on_completed i).

(** [Initialized::complete_if_done] *)
Definition complete_if_done (i : InitializedData) : taction QbftInstance :=
  match completed (in_qbft i) with
  | Some value =>
      _ ← for_each (λ on_completed, send_result on_completed value) (in_on_completed i);
      _ ← match qb_aggregated_commit (in_qbft i) with
          | Some msg =>
              let committee_id := committee_id_of_config (qb_config (in_qbft i)) in
              modify (λ e, e <| ef_sent := ef_sent e ++ [(msg, committee_id)] |>)
          | None => mret tt
          end;
      mret (Decided value)
  | None => mret (Initialized i)
  end.

(** ** The loop *)

(** The timer reset after a network message, if it advanced the round. *)
Definition reset_if_advanced (now : N) (old new : QbftInstance) : QbftInstance :=
  match old, new with
  | Initialized old, Initialized new =>
      if decide (qb_current_round (in_qbft old) < qb_current_round (in_qbft new))%positive
      then Initialized (new <| in_timeout_mode := restart_timer now (in_timeout_mode new) |>)
      else Initialized new
  | _, _ => new
  end.

(** The [match recv_result] of the loop; [None] is [break]. *)
Definition handle_result (now : N) (recv_result : RecvResult) (instance : QbftInstance)
    : taction (option QbftInstance) :=
  match recv_result with
  | Message (Initialize initialization) =>
      instance ← instance_initialize now initialization instance;
      mret (Some instance)
  | Message (NetworkMessage message) =>
      received ← lift (instance_receive message instance);
      mret (Some (reset_if_advanced now instance received))
  | RoundEnd =>
      match instance with
      | Initialized initialized =>
          q ← lift (on_qbft end_round (in_qbft initialized));
          mret (Some (Initialized (initialized <| in_qbft := q |>
                  <| in_timeout_mode := restart_timer now (in_timeout_mode initialized) |>)))
      | _ => mret (Some instance)
      end
  | Closed =>
      _ ← match instance with
          | Initialized initialized => complete initialized TimedOut
          | _ => mret tt
          end;
      mret None
  end.

(** One iteration of the loop of [qbft_instance] after [recv]. *)
Definition loop_body (now : N) (recv_result : RecvResult) (instance : QbftInstance)
    : taction (option QbftInstance) :=
  next ← handle_result now recv_result instance;
  match next with
  | Some (Initialized initialized) =>
      instance ← complete_if_done initialized;
      mret (Some instance)
  | _ => mret next
  end.

Inductive TaskState :=
  | Running (instance : QbftInstance)
  | Finished
  | Panicked.

Record Task := {
  tk_state : TaskState;
  tk_effects : Effects;
}.

(** [qbft_instance] before its first iteration. *)
Definition task_new : Task :=
  {| tk_state := Running (Uninitialized []);
     tk_effects := {| ef_results := []; ef_sent := [] |} |}.

(** [MessageCallback::send]: when the message sender has signed a message of the
    instance, it comes back on the instance's own queue. *)
Definition message_callback (msg : UnsignedWrappedQbftMessage) (signed : SignedSSVMessage)
    : WrappedQbftMessage :=
  {| signed_message := signed; qbft_message := unsigned_qbft_message msg |}.

(** One thing that happens to a task: the sender signs the [n]-th message the instance
    sent, or the loop makes an iteration at [now]. *)
Inductive TaskEvent :=
  | Signed (n : nat) (signed : SignedSSVMessage)
  | Iterate (now : N) (sel : Select).

(** The sleep of an initialization is over. *)
Definition awake (now : N) (r : RecvResult) (instance : QbftInstance) : bool :=
  match r, instance with
  | Message (Initialize init), Uninitialized _ => (initialize_at init <=? now)%N
  | _, _ => true
  end.

(** [None]: the event cannot happen in this state. *)
Definition task_step (ev : TaskEvent) (t : Task) : option Task :=
  match tk_state t, ev with
  | Running (Initialized i), Signed n signed =>
      msg ← qb_outbox (in_qbft i) !! n;
      Some {| tk_state := Running (Initialized (i <| in_msgs_sent_by_us :=
                in_msgs_sent_by_us i ++ [message_callback msg signed] |>));
              tk_effects := tk_effects t |}
  | Running instance, Iterate now sel =>
      '(r, instance) ← loop_recv now sel instance;
      if awake now r instance
      then
        Some (match loop_body now r instance (tk_effects t) with
              | (Ok (Some instance), e) => {| tk_state := Running instance; tk_effects := e |}
              | (Ok None, e) => {| tk_state := Finished; tk_effects := e |}
              | (_, e) => {| tk_state := Panicked; tk_effects := e |}
              end)
      else None
  | _, _ => None
  end.
End task.
