(* ===== verification/InstanceRuns.v ===== *)
(** * Runs of an instance task

    What the task of [InstanceTask.v] guarantees to its callers over any sequence of
    events: everyone who waits is answered exactly once and all with the same value, a
    success is a value the first caller's validator accepts, and the decided message is
    sent once. *)

From S2P Require Import Prelude SsvTypes Messages QbftTypes MsgContainer Qbft Sample QbftInv QbftProgress QbftTotal.
From S2P Require Import RoundTimeout InstanceTask.

(** ** What calls do to the outbox and the decided message *)

Section steps.
Context {F D : Type} `{!LeaderFunction F} `{!QbftData D} {Codec : SszCodec}.
Implicit Types (q : Qbft F D) (w : WrappedQbftMessage).

(** A message of the instance: it has a round, and the identifier and height are the
    instance's. *)
Definition own_message q (u : UnsignedWrappedQbftMessage) : Prop :=
  round (unsigned_qbft_message u) ≠ 0%N ∧
  msg_id (unsigned_ssv_message (unsigned_message u)) = qb_identifier q ∧
  height (unsigned_qbft_message u) = qb_instance_height q.

Definition outbox_ok q : Prop := Forall (own_message q) (qb_outbox q).

Definition succeeded q : Prop := ∃ v, qb_completed q = Some (Success v).

(** The completion and the decided message change together, at most once, to a success. *)
Definition settles q q' : Prop :=
  (qb_completed q' = qb_completed q ∧ qb_aggregated_commit q' = qb_aggregated_commit q) ∨
  (¬ succeeded q ∧ succeeded q' ∧ is_Some (qb_aggregated_commit q')).

Definition steps q q' : Prop := (outbox_ok q → outbox_ok q') ∧ settles q q'.

#[export] Instance steps_preorder : PreOrder steps.
Proof.
  split; [by intros q; split; [|left]|].
  intros q1 q2 q3 [Ho1 Hs1] [Ho2 Hs2]. split; [auto|].
  unfold settles, succeeded in *.
  destruct Hs1 as [[Hc1 Ha1]|(Hn1 & Hs1 & Ha1)], Hs2 as [[Hc2 Ha2]|(Hn2 & Hs2 & Ha2)].
  - left. split; congruence.
  - right. by rewrite <- Hc1.
  - right. by rewrite Hc2, Ha2.
  - done.
Qed.

(** A change of other fields. *)
Lemma steps_frame q q' :
  qb_identifier q' = qb_identifier q → qb_instance_height q' = qb_instance_height q →
  qb_outbox q' = qb_outbox q → qb_completed q' = qb_completed q →
  qb_aggregated_commit q' = qb_aggregated_commit q → steps q q'.
Proof.
  intros Hi Hh Ho Hc Ha. unfold steps, outbox_ok, own_message, settles.
  rewrite Hi, Hh, Ho. auto.
Qed.

Lemma preserves_gets {A} (f : Qbft F D → A) : preserves steps (gets f : action _ QbftError A).
Proof. intros q. cbn. done. Qed.

Lemma preserves_modify (f : Qbft F D → Qbft F D) :
  (∀ q, qb_identifier (f q) = qb_identifier q ∧
        qb_instance_height (f q) = qb_instance_height q ∧ qb_outbox (f q) = qb_outbox q ∧
        qb_completed (f q) = qb_completed q ∧
        qb_aggregated_commit (f q) = qb_aggregated_commit q) →
  preserves steps (modify f : action _ QbftError unit).
Proof. intros Hf q. destruct (Hf q) as (? & ? & ? & ? & ?). by apply steps_frame. Qed.

Ltac keep :=
  repeat first
    [ progress intros | solve [eauto with preserves]
    | apply preserves_bind; [apply _| |intros ?] | apply preserves_gets
    | apply preserves_ret; apply _ | apply preserves_lift; apply _
    | apply preserves_attempt
    | apply preserves_modify; by intros ?
    | match goal with
      | |- preserves _ (match ?x with _ => _ end) => destruct x eqn:?
      | |- preserves _ (ignore_err _) => unfold ignore_err
      end ].

Lemma new_message_sent q ty h a b u :
  new_unsigned_message q ty h a b = Ok u →
  steps q (q <| qb_outbox := qb_outbox q ++ [u] |>).
Proof.
  intros (Hm & _ & Hh & Hr & _)%new_unsigned_message_ok. split; [|by left].
  intros Ho. apply Forall_app_2; [exact Ho|]. constructor; [|constructor].
  split_and!; [by rewrite Hr|by rewrite Hm|done].
Qed.

Ltac sent := intros q; apply (proj1 (wp_final _ (steps q) q)).

Lemma send_proposal_steps h d : preserves steps (send_proposal h d : action (Qbft F D) _ _).
Proof.
  sent. unfold send_proposal, insert_data, send. wp_run; try done.
  all: etrans; [by apply (steps_frame q (q <| qb_data := <[h := d]> (qb_data q) |>))|].
  all: try done. by eapply new_message_sent.
Qed.

Lemma send_prepare_steps h : preserves steps (send_prepare h : action (Qbft F D) _ _).
Proof. sent. unfold send_prepare, send. wp_run; try done. by eapply new_message_sent. Qed.

Lemma send_commit_steps h : preserves steps (send_commit h : action (Qbft F D) _ _).
Proof. sent. unfold send_commit, send. wp_run; try done. by eapply new_message_sent. Qed.

Lemma send_round_change_steps h : preserves steps (send_round_change h : action (Qbft F D) _ _).
Proof.
  sent. unfold send_round_change, send. wp_run; try done.
  etrans; [by eapply new_message_sent|]. by apply steps_frame.
Qed.
#[local] Hint Resolve send_proposal_steps send_prepare_steps send_commit_steps
  send_round_change_steps : preserves.

Lemma start_round_steps : preserves steps (start_round : action (Qbft F D) _ _).
Proof. unfold start_round, set_state. keep. Qed.
#[local] Hint Resolve start_round_steps : preserves.

Lemma set_round_steps r : preserves steps (set_round r : action (Qbft F D) _ _).
Proof. unfold set_round. keep. Qed.
#[local] Hint Resolve set_round_steps : preserves.

Lemma received_propose_steps vd s r w :
  preserves steps (received_propose vd s r w : action (Qbft F D) _ _).
Proof. unfold received_propose, insert_data, set_state. keep. Qed.

Lemma received_prepare_steps s r w :
  preserves steps (received_prepare s r w : action (Qbft F D) _ _).
Proof. unfold received_prepare, check_prepare_quorum, set_state. keep. Qed.

Lemma received_round_change_steps s r w :
  preserves steps (received_round_change s r w : action (Qbft F D) _ _).
Proof. unfold received_round_change, set_state. keep. Qed.

Lemma received_commit_steps s r w :
  preserves steps (received_commit s r w : action (Qbft F D) _ _).
Proof.
  sent. unfold received_commit, check_commit_quorum, is_proposal_accepted, set_state.
  wp_run; try done; try by apply steps_frame.
  all: split; [done|]; right; split_and!; [|by eexists|by eexists].
  all: intros [v Hv]; match goal with H : ¬ is_Some _ |- _ => apply H; by eexists end.
Qed.

Lemma received_decided_steps w : preserves steps (received_decided w : action (Qbft F D) _ _).
Proof.
  sent. unfold received_decided, insert_data, set_state. wp_run; try done.
  all: split; [done|]; right; split_and!; [|by eexists|by eexists].
  all: intros [v Hv]; congruence.
Qed.
#[local] Hint Resolve received_propose_steps received_prepare_steps received_commit_steps
  received_round_change_steps received_decided_steps : preserves.

Lemma receive_steps w : preserves steps (receive w : action (Qbft F D) _ _).
Proof. unfold receive. keep. Qed.

Lemma settles_same q q' :
  settles q q' → qb_completed q' = qb_completed q →
  qb_aggregated_commit q' = qb_aggregated_commit q.
Proof. intros [[]|(Hn & [v Hv] & _)] Hc; [done|]. destruct Hn. exists v. congruence. Qed.

(** The round timer leaves the decided message alone; it may give up. *)
Lemma end_round_steps q :
  (outbox_ok q → outbox_ok (end_round q).2) ∧
  qb_aggregated_commit (end_round q).2 = qb_aggregated_commit q ∧
  (qb_completed (end_round q).2 = qb_completed q ∨ qb_completed (end_round q).2 = Some TimedOut).
Proof.
  set (P q' := (outbox_ok q → outbox_ok q') ∧ qb_aggregated_commit q' = qb_aggregated_commit q ∧
    (qb_completed q' = qb_completed q ∨ qb_completed q' = Some TimedOut)).
  assert (∀ q', steps q q' → qb_completed q' = qb_completed q → P q') as HP.
  { intros q' [Ho Hs] Hc. unfold P. auto using settles_same. }
  apply (proj1 (wp_final _ P q)). unfold end_round, time_out, set_state. wp_run.
  all: try (split_and!; [done|done|by right]).
  match goal with |- wp _ _ ?q1 => set (q1' := q1) end.
  assert (steps q q1') as H1 by by apply steps_frame.
  pose proof (send_round_change_steps 0%N q1') as H2.
  pose proof (proj1 (wp_final _ _ _) (send_round_change_extends q1' 0%N)) as [_ _ _ _ _ _ _ _ _ _ Hc _].
  unfold wp. destruct (send_round_change 0 q1') as [o q2]. cbn [fst snd] in *.
  assert (steps q q2) as H3 by by etrans.
  destruct o; wp_run; [|by apply HP..].
  unfold wp. apply HP; [etrans; [exact H3|apply start_round_steps]|].
  pose proof (proj1 (wp_final _ _ _) (start_round_extends q2)) as [_ _ _ _ _ _ _ _ _ _ Hc' _].
  cbn [snd] in *. by rewrite <- Hc', <- Hc.
Qed.
End steps.

(** ** Runs *)

Section runs.
Context {D : Type} `{!QbftData D} {Codec : SszCodec} (sha256 : bytes → bytes).
Implicit Types (t : Task (D:=D)) (evs : list (TaskEvent (D:=D))) (i : InitializedData (D:=D)).

#[local] Opaque receive end_round.

(** Several events, all possible in turn. *)
Fixpoint task_run evs t : option Task :=
  match evs with
  | [] => Some t
  | ev :: evs => t ← task_step sha256 ev t; task_run evs t
  end.

(** The initialization an event makes the task take from its queue. *)
Definition taken (ev : TaskEvent) t : list (QbftInitialization (D:=D)) :=
  match tk_state t, ev with
  | Running instance, Iterate now sel =>
      match loop_recv now sel instance with
      | Some (Message (Initialize init), _) => [init]
      | _ => []
      end
  | _, _ => []
  end.

Fixpoint initializations evs t : list (QbftInitialization (D:=D)) :=
  match evs with
  | [] => []
  | ev :: evs => taken ev t ++ default [] (initializations evs <$> task_step sha256 ev t)
  end.

(** Who still waits. *)
Definition waiting (s : TaskState (D:=D)) : list Callback :=
  match s with
  | Running (Initialized i) => in_on_completed i
  | _ => []
  end.

(** What the manager guarantees of what it puts on the queue: messages have passed
    validation and so have a round, configurations come from the builder. *)
Definition kind_ok (k : QbftMessageKind (D:=D)) : Prop :=
  match k with
  | NetworkMessage w => round (qbft_message w) ≠ 0%N
  | Initialize init => config_wf (init_config init) ∧ length (init_message_id init) = MESSAGE_ID_LEN
  end.

Definition event_ok (ev : TaskEvent (D:=D)) : Prop :=
  match ev with
  | Iterate _ (RxReady (Some k)) => kind_ok k
  | _ => True
  end.

(** The instance an initialization creates. *)
Definition instance_of (init : QbftInitialization (D:=D)) : Qbft DefaultLeaderFunction D :=
  (qbft_new (init_config init) (init_initial init) (init_validator init) (init_message_id init)).2.

(** ** The instance inside a task *)

Context `{!SszSized Codec}.

(** What holds of an initialized task, first initialized with [init]. *)
Record live (init : QbftInitialization) i : Prop := {
  lv_config : config_wf (init_config init);
  lv_calls : ∃ cs, in_qbft i = run_calls cs (instance_of init);
  lv_steady : steady (in_qbft i);
  lv_outbox : outbox_ok (in_qbft i);
  lv_settled : is_Some (qb_aggregated_commit (in_qbft i)) ↔ succeeded (in_qbft i);
  lv_queue : Forall (λ w, round (qbft_message w) ≠ 0%N) (in_msgs_sent_by_us i);
}.

Lemma on_qbft_ok (m : action _ QbftError unit) (q : Qbft DefaultLeaderFunction D) :
  never_panics m q → on_qbft m q = Ok (m q).2.
Proof. unfold never_panics, wp, on_qbft, total. by destruct (m q) as [[]]. Qed.

(** A call on the instance of a task keeps the task live, apart from the decided message. *)
Lemma live_call init i c :
  live init i → (is_Some (qb_aggregated_commit (run_call c (in_qbft i))) ↔
                 succeeded (run_call c (in_qbft i))) →
  outbox_ok (run_call c (in_qbft i)) →
  ∀ mode, live init (i <| in_qbft := run_call c (in_qbft i) |> <| in_timeout_mode := mode |>).
Proof.
  intros [Hw [cs Hcs] Hst Ho Hs Hq] Hs' Ho' mode. split; cbn; [done| |  |done..].
  - exists (cs ++ [c]). unfold run_calls. rewrite foldl_snoc. fold (run_calls cs (instance_of init)).
    by rewrite <- Hcs.
  - eapply steady_extends; [apply run_call_extends|done].
Qed.

Lemma settled_receive (q : Qbft DefaultLeaderFunction D) w :
  (is_Some (qb_aggregated_commit q) ↔ succeeded q) →
  is_Some (qb_aggregated_commit (receive w q).2) ↔ succeeded (receive w q).2.
Proof.
  intros Hs. destruct (receive_steps w q) as [_ [[Hc Ha]|(_ & ? & ?)]]; [|done].
  unfold succeeded. rewrite Hc, Ha. exact Hs.
Qed.

Lemma live_receive init i w mode :
  live init i → round (qbft_message w) ≠ 0%N →
  on_qbft (receive w) (in_qbft i) = Ok (run_call (CallReceive w) (in_qbft i)) ∧
  live init (i <| in_qbft := run_call (CallReceive w) (in_qbft i) |> <| in_timeout_mode := mode |>).
Proof.
  intros Hl Hr. split; [by apply on_qbft_ok, receive_total; [apply (lv_steady init)|]|].
  apply live_call; [done| |].
  - apply settled_receive, Hl.
  - destruct (receive_steps w (in_qbft i)) as [Ho _]. apply Ho, Hl.
Qed.

Lemma live_end_round init i mode :
  live init i → qb_completed (in_qbft i) = None →
  on_qbft end_round (in_qbft i) = Ok (run_call CallEndRound (in_qbft i)) ∧
  live init (i <| in_qbft := run_call CallEndRound (in_qbft i) |> <| in_timeout_mode := mode |>).
Proof.
  intros Hl Hn. split; [by apply on_qbft_ok, end_round_total, (lv_steady init)|].
  destruct (end_round_steps (in_qbft i)) as (Ho & Ha & Hc).
  apply live_call; [done| |apply Ho, Hl]. cbn [run_call]. rewrite Ha.
  rewrite (lv_settled _ _ Hl). unfold succeeded. rewrite Hn in Hc |- *.
  destruct Hc as [-> | ->]; naive_solver.
Qed.

(** Replaying the buffer is a sequence of calls. *)
Lemma replay_buffer buf (q : Qbft DefaultLeaderFunction D) :
  steady q → Forall (λ w, round (qbft_message w) ≠ 0%N) buf →
  for_each (λ w, ignore_err (receive w)) buf q = (Ok tt, run_calls (CallReceive <$> buf) q).
Proof.
  intros Hq Hb. revert q Hq. induction Hb as [|w buf Hw _ IH]; intros q Hq; [done|].
  cbn [for_each fmap list_fmap]. pose proof (receive_total q w Hq Hw) as Ht.
  assert (ignore_err (receive w) q = (Ok tt, (receive w q).2)) as Hi.
  { unfold never_panics, wp, total in Ht. unfold ignore_err, attempt, mbind, action_bind.
    by destruct (receive w q) as [[]]. }
  unfold mbind, action_bind. rewrite Hi. rewrite IH; [done|].
  eapply steady_extends; [exact (run_call_extends (CallReceive w) q)|exact Hq].
Qed.

Lemma instance_of_live init cs :
  kind_ok (Initialize init) →
  total (qbft_new (init_config init) (init_initial init) (init_validator init)
           (init_message_id init)).1 ∧
  steady (run_calls cs (instance_of init)).
Proof.
  intros [Hw Hid]. destruct (qbft_new_steady (init_config init) (init_initial init)
    (init_validator init) _ Hw Hid) as [Ht Hs].
  split; [exact Ht|]. by apply run_calls_steady.
Qed.

(** Messages alone keep the outbox and the decided message in order. *)
Lemma instance_of_settled init ws :
  outbox_ok (run_calls (CallReceive <$> ws) (instance_of init)) ∧
  (is_Some (qb_aggregated_commit (run_calls (CallReceive <$> ws) (instance_of init))) ↔
   succeeded (run_calls (CallReceive <$> ws) (instance_of init))).
Proof.
  assert (outbox_ok (instance_of init) ∧
          (is_Some (qb_aggregated_commit (instance_of init)) ↔ succeeded (instance_of init)))
    as Hn.
  { destruct (start_round_steps (qbft_init (init_config init) (init_initial init)
      (init_validator init) (init_message_id init))) as [Ho Hs].
    split; [apply Ho; constructor|]. unfold instance_of, qbft_new.
    destruct Hs as [[Hc Ha]|(_ & ? & ?)]; [|done]. unfold succeeded. rewrite Hc, Ha.
    cbn. split; [by intros []|by intros []]. }
  revert Hn. generalize (instance_of init). induction ws as [|w ws IH]; intros q [Ho Hs]; [done|].
  cbn [fmap list_fmap run_calls foldl]. apply IH. split.
  - destruct (receive_steps w q) as [Ho' _]. by apply Ho'.
  - by apply settled_receive.
Qed.

(** Initializing a task makes it live. *)
Lemma initialize_live buf init now :
  kind_ok (Initialize init) → Forall (λ w, round (qbft_message w) ≠ 0%N) buf →
  let i := {| in_qbft := run_calls (CallReceive <$> buf) (instance_of init);
              in_msgs_sent_by_us := []; in_on_completed := [init_on_completed init];
              in_timeout_mode := restart_timer now (init_timeout_mode init) |} in
  uninitialized_initialize buf init now = Ok i ∧ live init i.
Proof.
  intros Hk Hb i. destruct (instance_of_live init [] Hk) as [Ht Hs].
  destruct (instance_of_settled init buf) as [Ho Ha]. split.
  - unfold uninitialized_initialize. unfold total in Ht. fold (instance_of init).
    pose proof (replay_buffer buf (instance_of init) Hs Hb) as Hr.
    unfold instance_of in *. destruct (qbft_new _ _ _ _) as [[]]; [| |done].
    all: unfold on_qbft; cbn [snd] in *; by rewrite Hr.
  - split; cbn; [apply Hk|by eexists| |done..]. by apply instance_of_live.
Qed.

(** ** Completion *)

Lemma send_results v cbs (e : Effects (D:=D)) :
  for_each (λ cb, send_result cb v) cbs e =
    (Ok tt, e <| ef_results := ef_results e ++ ((λ cb, (cb, v)) <$> cbs) |>).
Proof.
  revert e. induction cbs as [|cb cbs IH]; intros e; cbn [for_each fmap list_fmap].
  - rewrite app_nil_r. by destruct e.
  - unfold mbind, action_bind, send_result at 1, modify. rewrite IH. cbn.
    by rewrite <- app_assoc.
Qed.

(** The value a success carries was accepted by the validator of [init]. *)
Definition valid_for (init : QbftInitialization (D:=D)) (v : Completed D) : Prop :=
  ∀ d, v = Success d →
    init_validator init d (init_initial init) = true ∨ d = init_initial init.

(** All of [inits] were answered [v], and a success was broadcast once. *)
Definition answered (inits : list QbftInitialization) (v : Completed D)
    (e : Effects (D:=D)) : Prop :=
  ef_results e = (λ init, (init_on_completed init, v)) <$> inits ∧
  match head inits with
  | Some init =>
      valid_for init v ∧
      match v with
      | Success _ => ∃ msg, ef_sent e = [(msg, committee_id_of_config sha256 (init_config init))]
      | TimedOut => ef_sent e = []
      end
  | None => False
  end.

Definition no_effects : Effects (D:=D) := {| ef_results := []; ef_sent := [] |}.

Lemma instance_of_config init cs :
  qb_config (run_calls cs (instance_of init)) = init_config init.
Proof.
  rewrite (ex_config _ _ _ (run_calls_extends cs (instance_of init))).
  exact (ex_config _ _ _ (qbft_new_extends _ _ _ _)).
Qed.

(** A live instance that succeeded has a value to report. *)
Lemma live_completed init i :
  live init i →
  match qb_completed (in_qbft i) with
  | None => completed (in_qbft i) = None
  | Some TimedOut => completed (in_qbft i) = Some TimedOut
  | Some (Success _) => ∃ d, completed (in_qbft i) = Some (Success d) ∧ valid_for init (Success d)
  end.
Proof.
  intros [_ [cs Hcs] _ _ _ _]. rewrite Hcs. clear Hcs. unfold completed.
  destruct (qb_completed _) as [[|v]|] eqn:Hq; [done| |done].
  destruct (success_data _ _ _ _ cs v Hq) as (d & Hd & Hv).
  exists d. unfold instance_of. rewrite Hd. split; [done|]. by intros ? [= <-].
Qed.

Lemma complete_if_done_spec init rest i :
  live init i → in_on_completed i = init_on_completed <$> init :: rest →
  match complete_if_done sha256 i no_effects with
  | (Ok (Initialized i'), e) => i' = i ∧ e = no_effects ∧ qb_completed (in_qbft i) = None
  | (Ok (Decided v), e) => answered (init :: rest) v e
  | _ => False
  end.
Proof.
  intros Hl Hcb. pose proof (live_completed init i Hl) as Hc. unfold complete_if_done.
  pose proof (lv_settled _ _ Hl) as Hs. unfold succeeded in Hs.
  destruct (lv_calls _ _ Hl) as [cs Hcs].
  destruct (qb_completed (in_qbft i)) as [[|v]|]; [|destruct Hc as (d & Hc & Hv)|]; rewrite Hc.
  - destruct (qb_aggregated_commit (in_qbft i)) as [msg|].
    { by destruct (proj1 Hs (ex_intro _ msg eq_refl)). }
    rewrite Hcb. unfold mbind, action_bind. rewrite send_results. cbn.
    split; [by rewrite <- list_fmap_compose|]. done.
  - destruct (proj2 Hs (ex_intro _ v eq_refl)) as [msg Hmsg]. rewrite Hmsg, Hcb.
    unfold mbind, action_bind. rewrite send_results. cbn. split; [by rewrite <- list_fmap_compose|].
    split; [done|]. exists msg. by rewrite Hcs, instance_of_config.
  - done.
Qed.

(** ** The invariant of a task *)

(** [inits] are the initializations taken so far. *)
Definition task_inv (inits : list QbftInitialization) t : Prop :=
  match tk_state t with
  | Running (Uninitialized buf) =>
      inits = [] ∧ tk_effects t = no_effects ∧ length buf ≤ MESSAGE_BUFFER_LIMIT ∧
      Forall (λ w, round (qbft_message w) ≠ 0%N) buf
  | Running (Initialized i) =>
      tk_effects t = no_effects ∧ qb_completed (in_qbft i) = None ∧
      in_on_completed i = init_on_completed <$> inits ∧
      ∃ init rest, inits = init :: rest ∧ live init i
  | Running (Decided v) => answered inits v (tk_effects t)
  | Finished => inits = [] ∧ tk_effects t = no_effects ∨ ∃ v, answered inits v (tk_effects t)
  | Panicked => False
  end.

(** The rest of an iteration, once the instance is live. *)
Lemma finish_iteration init rest i :
  live init i → in_on_completed i = init_on_completed <$> init :: rest →
  match (instance ← complete_if_done sha256 i; mret (Some instance)) no_effects with
  | (Ok (Some instance), e) =>
      task_inv (init :: rest) {| tk_state := Running instance; tk_effects := e |}
  | _ => False
  end.
Proof.
  intros Hl Hcb. pose proof (complete_if_done_spec init rest i Hl Hcb) as H.
  unfold mbind, action_bind. destruct (complete_if_done sha256 i no_effects) as [[[]| |] e]; try done.
  destruct H as (-> & -> & Hn). cbn. split_and!; try done. by exists init, rest.
Qed.

Lemma answered_more inits init v e :
  answered inits v e →
  answered (inits ++ [init]) v (e <| ef_results := ef_results e ++ [(init_on_completed init, v)] |>).
Proof.
  intros [Hr Hh]. destruct inits as [|first inits]; [done|]. split; [|done].
  cbn [ef_results setter Effects_eta]. rewrite fmap_app. cbn. by rewrite Hr.
Qed.

(** What an iteration establishes of the next state. *)
Definition iteration_inv (inits : list QbftInitialization)
    (r : outcome Empty_set (option QbftInstance) * Effects (D:=D)) : Prop :=
  match r with
  | (Ok (Some instance), e) => task_inv inits {| tk_state := Running instance; tk_effects := e |}
  | (Ok None, e) => task_inv inits {| tk_state := Finished; tk_effects := e |}
  | _ => False
  end.

Definition inits_of (r : RecvResult (D:=D)) : list QbftInitialization :=
  match r with Message (Initialize init) => [init] | _ => [] end.

Definition result_ok (r : RecvResult (D:=D)) : Prop :=
  match r with Message k => kind_ok k | _ => True end.

(** An iteration that leaves a live instance. *)
Lemma live_iteration init rest now r instance i :
  live init i → in_on_completed i = init_on_completed <$> init :: rest →
  handle_result now r instance no_effects = (Ok (Some (Initialized i)), no_effects) →
  iteration_inv (init :: rest) (loop_body sha256 now r instance no_effects).
Proof.
  intros Hl Hcb Hh. unfold loop_body, mbind at 1, action_bind at 1. rewrite Hh.
  pose proof (finish_iteration init rest i Hl Hcb) as H. unfold iteration_inv.
  destruct (mbind _ (complete_if_done sha256 i) no_effects) as [[[]| |] ?]; done.
Qed.

Lemma uninitialized_iteration inits now r buf e :
  task_inv inits {| tk_state := Running (Uninitialized buf); tk_effects := e |} → result_ok r →
  iteration_inv (inits ++ inits_of r) (loop_body sha256 now r (Uninitialized buf) e).
Proof.
  cbn. intros (-> & -> & Hlen & Hb) Hk. destruct r as [[init|w]| |]; cbn [inits_of app].
  - destruct (initialize_live buf init now Hk Hb) as [Hi Hl].
    apply (live_iteration init [] _ _ _ _ Hl eq_refl).
    unfold handle_result, instance_initialize, mbind, action_bind, lift. by rewrite Hi.
  - unfold loop_body, handle_result, instance_receive.
    destruct (decide (length buf < MESSAGE_BUFFER_LIMIT)); cbn; [|done].
    split_and!; [done..| |].
    + rewrite length_app. cbn. lia.
    + apply Forall_app_2; [done|]. by constructor.
  - done.
  - by left.
Qed.

Lemma decided_iteration inits now r v e :
  answered inits v e → iteration_inv (inits ++ inits_of r) (loop_body sha256 now r (Decided v) e).
Proof.
  intros Ha. destruct r as [[init|w]| |]; cbn [inits_of]; rewrite ?app_nil_r.
  - by apply answered_more.
  - done.
  - done.
  - right. by exists v.
Qed.

Lemma reset_if_advanced_mode now i q :
  ∃ mode, reset_if_advanced now (Initialized i) (Initialized (i <| in_qbft := q |>)) =
    Initialized (i <| in_qbft := q |> <| in_timeout_mode := mode |>).
Proof.
  cbn. case_decide; [by eexists|]. exists (in_timeout_mode i). by destruct i.
Qed.

Lemma initialized_iteration inits now r i e :
  task_inv inits {| tk_state := Running (Initialized i); tk_effects := e |} → result_ok r →
  iteration_inv (inits ++ inits_of r) (loop_body sha256 now r (Initialized i) e).
Proof.
  cbn. intros (-> & Hn & Hcb & init & rest & -> & Hl) Hk.
  destruct r as [[init'|w]| |]; cbn [inits_of]; rewrite ?app_nil_r.
  - apply (live_iteration init (rest ++ [init']) _ _ _ (i <| in_on_completed :=
             in_on_completed i ++ [init_on_completed init'] |>)); [|cbn|done].
    + by destruct Hl.
    + rewrite Hcb, fmap_app. done.
  - destruct (live_receive init i w (in_timeout_mode i) Hl Hk) as [Hr _].
    destruct (reset_if_advanced_mode now i (run_call (CallReceive w) (in_qbft i))) as [mode Hm].
    eapply (live_iteration init rest); [by apply (live_receive init i w mode)|exact Hcb|].
    unfold handle_result, instance_receive, mbind, outcome_bind, action_bind, lift.
    rewrite Hr. unfold mret, action_ret. by rewrite Hm.
  - destruct (live_end_round init i (restart_timer now (in_timeout_mode i)) Hl Hn) as [Hr Hl'].
    eapply (live_iteration init rest); [exact Hl'|exact Hcb|].
    unfold handle_result, mbind, action_bind, lift. by rewrite Hr.
  - unfold loop_body, handle_result, mbind, action_bind, complete. rewrite send_results, Hcb.
    right. exists TimedOut. split; [|done]. cbn. by rewrite <- list_fmap_compose.
Qed.

(** What the loop receives is in order. *)
Lemma loop_recv_ok inits now sel instance r instance' e :
  task_inv inits {| tk_state := Running instance; tk_effects := e |} →
  event_ok (Iterate now sel) → loop_recv now sel instance = Some (r, instance') →
  task_inv inits {| tk_state := Running instance'; tk_effects := e |} ∧ result_ok r.
Proof.
  intros Hi Hev. assert (∀ m, sel = RxReady m → result_ok (recv_result_of m)) as Hrx.
  { intros [k|] ->; [exact Hev|done]. }
  destruct instance as [buf|i|v]; cbn [loop_recv].
  1,3: destruct sel; [|done..]; intros [= <- <-]; auto.
  unfold initialized_recv. destruct (round_end i) as [d|]; [|by intros [= <- <-]].
  destruct sel as [m| |]; [by intros [= <- <-]; auto| |].
  - destruct (in_msgs_sent_by_us i) as [|w ws] eqn:Hq; [done|]. intros [= <- <-].
    cbn in Hi |- *. destruct Hi as (He & Hn & Hcb & init & rest & -> & [? ? ? ? ? Hqs]).
    rewrite Hq in Hqs. apply Forall_cons in Hqs as [Hw Hws]. split; [|done].
    split_and!; try done. by exists init, rest.
  - destruct (d <=? now)%N; [|done]. by intros [= <- <-].
Qed.

(** The state an iteration leads to. *)
Definition iterated (now : N) (r : RecvResult) (instance : QbftInstance) (e : Effects (D:=D)) : Task :=
  match loop_body sha256 now r instance e with
  | (Ok (Some instance), e) => {| tk_state := Running instance; tk_effects := e |}
  | (Ok None, e) => {| tk_state := Finished; tk_effects := e |}
  | (_, e) => {| tk_state := Panicked; tk_effects := e |}
  end.

Lemma task_step_iterate now sel instance e :
  task_step sha256 (Iterate now sel) {| tk_state := Running instance; tk_effects := e |} =
    '(r, instance) ← loop_recv now sel instance;
    if awake now r instance then Some (iterated now r instance e) else None.
Proof. by destruct instance. Qed.

Lemma task_step_inv inits ev t t' :
  task_inv inits t → event_ok ev → task_step sha256 ev t = Some t' →
  task_inv (inits ++ taken ev t) t'.
Proof.
  destruct t as [[instance| |] e]; [|by destruct ev..]. intros Hi Hev.
  destruct ev as [n signed|now sel].
  - destruct instance as [| i|]; cbn [task_step tk_state]; [done| |done].
    intros (msg & Hmsg & [= <-])%bind_Some. cbn. rewrite app_nil_r.
    cbn in Hi. destruct Hi as (He & Hn & Hcb & init & rest & -> & [? ? ? Ho ? Hqs]).
    split_and!; try done. exists init, rest. split; [done|]. split; try done. cbn.
    apply Forall_app_2; [done|]. constructor; [|constructor].
    apply (Forall_lookup_1 _ _ _ _ Ho Hmsg).
  - unfold taken. cbn [tk_state].
    rewrite task_step_iterate.
    destruct (loop_recv now sel instance) as [[r instance']|] eqn:Hr; [|done].
    cbn [mbind option_bind]. destruct (awake now r instance'); [|done].
    destruct (loop_recv_ok _ _ _ _ _ _ _ Hi Hev Hr) as [Hi' Hk].
    intros [= <-]. fold (inits_of r).
    assert (iteration_inv (inits ++ inits_of r) (loop_body sha256 now r instance' e)) as H.
    { destruct instance'; [by apply uninitialized_iteration|by apply initialized_iteration|
        by apply decided_iteration]. }
    unfold iterated. by destruct (loop_body sha256 now r instance' e) as [[[]| |] e'].
Qed.

Lemma task_run_inv evs inits t t' :
  task_inv inits t → Forall event_ok evs → task_run evs t = Some t' →
  task_inv (inits ++ initializations evs t) t'.
Proof.
  intros Hi Hevs. revert inits t Hi.
  induction Hevs as [|ev evs Hev _ IH]; intros inits t Hi; cbn [task_run initializations].
  - intros [= <-]. by rewrite app_nil_r.
  - intros (t1 & Ht1 & Hrun)%bind_Some. rewrite Ht1. cbn [fmap option_fmap option_map default].
    rewrite app_assoc. apply IH; [by eapply task_step_inv|done].
Qed.

Lemma task_new_inv : task_inv [] task_new.
Proof. cbn. split_and!; [done..|unfold MESSAGE_BUFFER_LIMIT; lia|constructor]. Qed.

(** Nothing was reported yet; or nobody waits, and everyone was told the same value: a
    success valid for the first caller, with the decided message sent once to the
    instance's committee, or a timeout without one. *)
Definition reported (inits : list QbftInitialization) t : Prop :=
  ef_results (tk_effects t) = [] ∧ ef_sent (tk_effects t) = [] ∨
  waiting (tk_state t) = [] ∧
  ∃ init rest v, inits = init :: rest ∧ Forall (λ r, r.2 = v) (ef_results (tk_effects t)) ∧
    match v with
    | Success d =>
        (init_validator init d (init_initial init) = true ∨ d = init_initial init) ∧
        ∃ msg, ef_sent (tk_effects t) = [(msg, committee_id_of_config sha256 (init_config init))]
    | TimedOut => ef_sent (tk_effects t) = []
    end.

(** The callers are, in order, those answered and those still waiting. *)
Definition accounted (inits : list (QbftInitialization (D:=D))) t : Prop :=
  init_on_completed <$> inits = (ef_results (tk_effects t)).*1 ++ waiting (tk_state t).

Lemma answered_reported inits v t :
  answered inits v (tk_effects t) → waiting (tk_state t) = [] →
  accounted inits t ∧ reported inits t.
Proof.
  intros [Hr Hh] Hw. unfold accounted, reported. rewrite Hr, Hw, app_nil_r, <- list_fmap_compose.
  split; [done|]. right. split; [done|]. destruct inits as [|init rest]; [done|].
  destruct Hh as [Hv Hs]. exists init, rest, v.
  split_and!; [done| |destruct v; [done|]; split; [by apply Hv|done]].
  rewrite Forall_fmap. by apply Forall_true.
Qed.

Lemma task_inv_reported inits t :
  task_inv inits t → tk_state t ≠ Panicked ∧ accounted inits t ∧ reported inits t.
Proof.
  unfold task_inv. intros Hi.
  destruct (tk_state t) as [[buf|i|v]| |] eqn:Hst; [| | | |done]; (split; [done|]).
  - unfold accounted, reported. destruct Hi as (-> & -> & _). rewrite Hst. cbn. auto.
  - unfold accounted, reported. destruct Hi as (-> & _ & Hcb & _). rewrite Hst. cbn. auto.
  - apply (answered_reported inits v); [done|by rewrite Hst].
  - destruct Hi as [[-> He]|[v Hv]].
    + unfold accounted, reported. rewrite He, Hst. cbn. auto.
    + apply (answered_reported inits v); [done|by rewrite Hst].
Qed.

(** C22: callers are answered exactly once and alike.  Over any run of a task, the callers
    whose initializations it took are, in order, those it has answered and those it
    still keeps waiting, and nobody waits once an answer was given.  All answers are the
    same value; if that is a success, the value passed the validator of the first caller
    or is that caller's own data, and the decided message was sent exactly once, to the
    instance's committee; otherwise none was.  The task never panics. *)
Theorem callers_answered_once evs t :
  Forall event_ok evs → task_run evs task_new = Some t →
  tk_state t ≠ Panicked ∧
  accounted (initializations evs task_new) t ∧ reported (initializations evs task_new) t.
Proof.
  intros Hevs Hrun. apply task_inv_reported.
  exact (task_run_inv evs [] _ t task_new_inv Hevs Hrun).
Qed.
End runs.

(** ** On a concrete task *)

Module SampleTask.
#[local] Existing Instance sample_data.
#[local] Existing Instance SampleTotal.sized_codec.
#[local] Existing Instance SampleTotal.sized_codec_sized.

Definition sample_sha256 : bytes → bytes := λ b, b.

(** A caller with its own data 20; any data is valid. *)
Definition sample_init (cb : N) : QbftInitialization (D:=N) :=
  {| init_initial := 20%N; init_validator := λ _ _, true; init_message_id := replicate 56 x01;
     init_timeout_mode := SlotTime 0; init_config := sample_config 2; init_on_completed := cb |}.

Lemma sample_init_ok cb : kind_ok (Initialize (sample_init cb)).
Proof. split; [|done]. apply (config_build_ok (sample_config 2)). by vm_compute. Qed.

Definition initialize_event (now cb : N) : TaskEvent :=
  Iterate now (RxReady (Some (Initialize (sample_init cb)))).
Definition message_event (now : N) (w : WrappedQbftMessage) : TaskEvent (D:=N) :=
  Iterate now (RxReady (Some (NetworkMessage w))).

(** Two callers, a decided message for the value 10, and a third caller. *)
Definition sample_events : list TaskEvent :=
  [initialize_event 0 7; initialize_event 1 8;
   message_event 2 SampleProgress.decided_message; initialize_event 3 9].

Lemma sample_events_ok : Forall event_ok sample_events.
Proof. repeat constructor; try apply sample_init_ok. done. Qed.

Lemma callers_answered_once_witness :
  ∃ t, task_run sample_sha256 sample_events task_new = Some t ∧
    tk_state t ≠ Panicked ∧
    accounted (initializations sample_sha256 sample_events task_new) t ∧
    reported sample_sha256 (initializations sample_sha256 sample_events task_new) t.
Proof.
  destruct (task_run sample_sha256 sample_events task_new) as [t|] eqn:Ht; [|by vm_compute in Ht].
  exists t. split; [done|]. exact (callers_answered_once sample_sha256 _ t sample_events_ok Ht).
Defined.

(** All three are told that 10 was decided. *)
Lemma sample_results :
  ef_results ∘ tk_effects <$> task_run sample_sha256 sample_events task_new =
    Some [(7, Success 10); (8, Success 10); (9, Success 10)]%N.
Proof. by vm_compute. Qed.
End SampleTask.
