(* ===== verification/InstanceLiveness.v ===== *)
(** * Waiting for an instance ends

    In a run of an instance task ([InstanceTask.v]) in which time passes and the round
    timer is served, every caller is answered: each tick of the timer ends the instance or
    enters a further round, and [max_rounds] bounds these; and even messages cannot advance
    the round forever, because the deadlines of the rounds run out. *)

From S2P Require Import Prelude SsvTypes Messages QbftTypes MsgContainer Qbft Sample QbftInv QbftProgress QbftTotal.
From S2P Require Import RoundTimeout InstanceTask InstanceRuns.

Section liveness.
Context {D : Type} `{!QbftData D} {Codec : SszCodec} `{!SszSized Codec} (sha256 : bytes → bytes).
Implicit Types (t : Task (D:=D)) (i : InitializedData (D:=D)).

#[local] Opaque receive end_round.

Abbreviation round_of i := (qb_current_round (in_qbft i)).

(** The timer branch of the [select!] is ready. *)
Definition timer_ready (now : N) t : bool :=
  match tk_state t with
  | Running (Initialized i) =>
      match round_end i with
      | None => true
      | Some timeout_instant => (timeout_instant <=? now)%N
      end
  | _ => false
  end.

(** Both initialized, in the same round with the same timer. *)
Definition same_phase i i' : Prop :=
  round_of i' = round_of i ∧ in_timeout_mode i' = in_timeout_mode i.

(** The round advanced at [now], which the deadline of the old round allowed to compute. *)
Definition advanced (now : N) i i' : Prop :=
  (round_of i < round_of i')%positive ∧ is_Some (round_end i) ∧
  in_timeout_mode i' = restart_timer now (in_timeout_mode i).

Lemma complete_if_done_initialized i e i' e' :
  complete_if_done sha256 i e = (Ok (Initialized i'), e') → i' = i.
Proof.
  unfold complete_if_done. destruct (completed (in_qbft i)); [|by intros [= <- _]].
  unfold mbind, action_bind. rewrite send_results. by destruct (qb_aggregated_commit _).
Qed.

Lemma iterated_initialized now r i e i' :
  tk_state (iterated sha256 now r (Initialized i) e) = Running (Initialized i') →
  ∃ e', handle_result now r (Initialized i) e = (Ok (Some (Initialized i')), e').
Proof.
  unfold iterated, loop_body, mbind at 1, action_bind at 1.
  destruct (handle_result now r (Initialized i) e) as [[[instance|]| |] e1]; try done.
  destruct instance as [buf|i1|v]; try done. unfold mbind, action_bind.
  destruct (complete_if_done sha256 i1 e1) as [[instance| |] e2] eqn:Hc; try done.
  intros [= ->]. apply complete_if_done_initialized in Hc as ->. by eexists.
Qed.

Lemma receive_round w (q : Qbft DefaultLeaderFunction D) :
  (qb_current_round q ≤ qb_current_round (receive w q).2)%positive.
Proof. by destruct (run_call_extends (CallReceive w) q). Qed.

(** What an iteration that leaves the task waiting did to its round and timer. *)
Lemma iterated_phase now r i e i' :
  tk_state (iterated sha256 now r (Initialized i) e) = Running (Initialized i') →
  qb_completed (in_qbft i') = None →
  (same_phase i i' ∧ r ≠ RoundEnd) ∨
  ((round_of i < round_of i')%positive ∧
   in_timeout_mode i' = restart_timer now (in_timeout_mode i)).
Proof.
  intros [e' Hh]%iterated_initialized Hn. destruct r as [[init|w]| |]; cbn in Hh.
  - unfold mbind, action_bind, mret, action_ret in Hh. simplify_eq. left. by split.
  - unfold mbind, action_bind, mret, action_ret, lift, outcome_bind, on_qbft in Hh.
    pose proof (receive_round w (in_qbft i)) as Hr.
    assert (∃ q, q = (receive w (in_qbft i)).2 ∧
      reset_if_advanced now (Initialized i) (Initialized (i <| in_qbft := q |>)) = Initialized i')
      as (q & Hq & Hi').
    { destruct (receive w (in_qbft i)) as [[]]; simplify_eq; by eexists. }
    rewrite <- Hq in Hr. cbn in Hi'. case_decide; simplify_eq/=; [by right|].
    left. split; [|done]. split; [cbn; lia|done].
  - unfold mbind, action_bind, mret, action_ret, lift, on_qbft in Hh.
    pose proof (end_round_progress (in_qbft i)) as Hp. unfold round_get in Hp.
    destruct (end_round (in_qbft i)) as [[] q]; simplify_eq/=.
    all: right; split; [|done]; destruct Hp as [[? Hp]|[Hp _]]; [congruence|cbn; lia].
  - unfold mbind, action_bind, complete in Hh. by rewrite send_results in Hh.
Qed.

(** An iteration keeps the configuration, and a tick that does not end the instance stays
    within the rounds allowed. *)
Lemma iterated_limit now r i e i' :
  tk_state (iterated sha256 now r (Initialized i) e) = Running (Initialized i') →
  qb_completed (in_qbft i') = None →
  qb_config (in_qbft i') = qb_config (in_qbft i) ∧
  (r = RoundEnd → (round_get (round_of i) + 1 <= cfg_max_rounds (qb_config (in_qbft i)))%N).
Proof.
  intros [e' Hh]%iterated_initialized Hn. destruct r as [[init|w]| |]; cbn in Hh.
  - unfold mbind, action_bind, mret, action_ret in Hh. by simplify_eq.
  - unfold mbind, action_bind, mret, action_ret, lift, outcome_bind, on_qbft in Hh.
    pose proof (ex_config _ _ _ (run_call_extends (CallReceive w) (in_qbft i))) as Hc. cbn [run_call] in Hc.
    assert (∃ q, q = (receive w (in_qbft i)).2 ∧
      reset_if_advanced now (Initialized i) (Initialized (i <| in_qbft := q |>)) = Initialized i')
      as (q & -> & Hi') by (destruct (receive w (in_qbft i)) as [[]]; simplify_eq; by eexists).
    cbn in Hi'. case_decide; by simplify_eq/=.
  - unfold mbind, action_bind, mret, action_ret, lift, on_qbft in Hh.
    pose proof (ex_config _ _ _ (run_call_extends CallEndRound (in_qbft i))) as Hc. cbn [run_call] in Hc.
    pose proof (end_round_progress (in_qbft i)) as Hp.
    destruct (end_round (in_qbft i)) as [[] q]; simplify_eq/=.
    all: split; [done|intros _]; destruct Hp as [[? Hp]|[_ Hp]]; [congruence|done].
  - unfold mbind, action_bind, complete in Hh. by rewrite send_results in Hh.
Qed.

(** A step between waiting states delivers a message or iterates the loop. *)
Lemma step_iterated ev t t' i i' :
  task_step sha256 ev t = Some t' →
  tk_state t = Running (Initialized i) → tk_state t' = Running (Initialized i') →
  ((∀ now sel, ev ≠ Iterate now sel) ∧ in_qbft i' = in_qbft i ∧ in_timeout_mode i' = in_timeout_mode i) ∨
  (∃ now sel r i1 e, ev = Iterate now sel ∧ is_Some (round_end i) ∧ in_qbft i1 = in_qbft i ∧
     in_timeout_mode i1 = in_timeout_mode i ∧ (sel = TimerReady → r = RoundEnd) ∧
     tk_state (iterated sha256 now r (Initialized i1) e) = Running (Initialized i')).
Proof.
  intros Hstep Ht Ht'. destruct t as [s e]. cbn in Ht. subst s. destruct ev as [n signed|now sel].
  - cbn in Hstep. apply bind_Some in Hstep as (msg & _ & [= <-]). simplify_eq/=. by left.
  - right. rewrite task_step_iterate in Hstep. apply bind_Some in Hstep as ([r instance] & Hr & Hstep).
    cbn [loop_recv] in Hr. apply bind_Some in Hr as ([r' i1] & Hr & [= <- <-]).
    destruct (awake _ _ _); [|done]. simplify_eq. unfold initialized_recv in Hr.
    destruct (round_end i) as [d|] eqn:Hd.
    2: { simplify_eq. apply iterated_initialized in Ht' as [e' Hh]. cbn in Hh.
         unfold mbind, action_bind, complete in Hh. by rewrite send_results in Hh. }
    exists now, sel, r', i1, e.
    assert (in_qbft i1 = in_qbft i ∧ in_timeout_mode i1 = in_timeout_mode i ∧
            (sel = TimerReady → r' = RoundEnd)) as (? & ? & ?); [|by split_and!; try eexists].
    destruct sel; [by simplify_eq| |by destruct (_ <=? _)%N; simplify_eq].
    destruct (in_msgs_sent_by_us i); by simplify_eq.
Qed.

Lemma waiting_undecided inits t i :
  task_inv sha256 inits t → tk_state t = Running (Initialized i) → qb_completed (in_qbft i) = None.
Proof. intros Hi Ht. unfold task_inv in Hi. rewrite Ht in Hi. apply Hi. Qed.

Lemma step_phase inits ev t t' i i' :
  task_inv sha256 inits t' → task_step sha256 ev t = Some t' →
  tk_state t = Running (Initialized i) → tk_state t' = Running (Initialized i') →
  (same_phase i i' ∧ ∀ now, ev ≠ Iterate now TimerReady) ∨
  (∃ now sel, ev = Iterate now sel ∧ advanced now i i').
Proof.
  intros Hi Hstep Ht Ht'. pose proof (waiting_undecided _ _ _ Hi Ht') as Hn.
  destruct (step_iterated _ _ _ _ _ Hstep Ht Ht') as [(Hev & Hq & Hm)|(now & sel & r & i1 & e & -> & Hd & Hq & Hm & Hse & Hit)].
  { left. unfold same_phase. by rewrite Hq, Hm. }
  destruct (iterated_phase _ _ _ _ _ Hit Hn) as [[[Hr1 Hm1] Hne]|[Hlt Hm1]].
  - left. split; [split; congruence|]. intros now' [= _ ->]. auto.
  - right. exists now, sel. split; [done|]. unfold advanced. rewrite <- Hq, <- Hm. by split_and!.
Qed.

Lemma step_limit inits ev t t' i i' :
  task_inv sha256 inits t' → task_step sha256 ev t = Some t' →
  tk_state t = Running (Initialized i) → tk_state t' = Running (Initialized i') →
  qb_config (in_qbft i') = qb_config (in_qbft i) ∧
  (∀ now, ev = Iterate now TimerReady →
     (round_get (round_of i) + 1 <= cfg_max_rounds (qb_config (in_qbft i)))%N).
Proof.
  intros Hi Hstep Ht Ht'. pose proof (waiting_undecided _ _ _ Hi Ht') as Hn.
  destruct (step_iterated _ _ _ _ _ Hstep Ht Ht') as [(Hev & -> & _)|(now & sel & r & i1 & e & -> & _ & <- & _ & Hse & Hit)].
  { split; [done|]. intros now He. by destruct (Hev now TimerReady). }
  destruct (iterated_limit _ _ _ _ _ Hit Hn) as [Hc Hl]. split; [done|]. intros now' [= _ ->]. auto.
Qed.

Definition idle t : Prop := match tk_state t with Running (Initialized _) => False | _ => True end.

Lemma idle_or_initialized t : idle t ∨ ∃ i, tk_state t = Running (Initialized i).
Proof. unfold idle. destruct (tk_state t) as [[]| |]; eauto. Qed.

(** An endless run: the [n]-th event happens at [clock n]; a finished task stays so.  Time
    passes beyond every bound, and a timer that stays ready is eventually served. *)
Record fair_run (run : nat → Task (D:=D)) (ev : nat → TaskEvent (D:=D)) (clock : nat → N) : Prop := {
  fr_start : run 0 = task_new;
  fr_step : ∀ n, task_step sha256 (ev n) (run n) = Some (run (S n)) ∨
                 tk_state (run n) = Finished ∧ run (S n) = run n;
  fr_ok : ∀ n, event_ok (ev n);
  fr_now : ∀ n now sel, ev n = Iterate now sel → now = clock n;
  fr_clock : ∀ bound, ∃ n, ∀ m, n ≤ m → (bound <= clock m)%N;
  fr_fair : ∀ n, ∃ m, n ≤ m ∧
    (timer_ready (clock m) (run m) = true → ev m = Iterate (clock m) TimerReady);
}.

Section fair.
Context (run : nat → Task (D:=D)) (ev : nat → TaskEvent (D:=D)) (clock : nat → N).
Hypothesis Hfair : fair_run run ev clock.

Lemma fair_inv_from inits n k :
  task_inv sha256 inits (run n) → ∃ more, task_inv sha256 (inits ++ more) (run (n + k)).
Proof.
  intros Hi. induction k as [|k [more IH]].
  - exists []. by rewrite app_nil_r, Nat.add_0_r.
  - rewrite Nat.add_succ_r. destruct (fr_step _ _ _ Hfair (n + k)) as [Hs|[_ ->]]; [|by eexists].
    exists (more ++ taken (ev (n + k)) (run (n + k))). rewrite app_assoc.
    exact (task_step_inv sha256 _ _ _ _ IH (fr_ok _ _ _ Hfair _) Hs).
Qed.

Lemma fair_inv n : ∃ inits, task_inv sha256 inits (run n).
Proof.
  destruct (fair_inv_from [] 0 n) as [more H]; [|by eexists].
  rewrite (fr_start _ _ _ Hfair). exact (task_new_inv sha256).
Qed.

(** One step from a waiting task. *)
Lemma fair_step n i :
  tk_state (run n) = Running (Initialized i) →
  idle (run (S n)) ∨ ∃ i', tk_state (run (S n)) = Running (Initialized i') ∧
    ((same_phase i i' ∧ ∀ now, ev n ≠ Iterate now TimerReady) ∨ advanced (clock n) i i').
Proof.
  intros Hi. destruct (idle_or_initialized (run (S n))) as [?|[i' Hi']]; [by left|right].
  exists i'. split; [done|]. destruct (fair_inv (S n)) as [inits Hinv].
  destruct (fr_step _ _ _ Hfair n) as [Hs|[Hf _]]; [|congruence].
  destruct (step_phase _ _ _ _ _ _ Hinv Hs Hi Hi') as [?|(now & sel & He & Ha)]; [by left|right].
  by rewrite <- (fr_now _ _ _ Hfair _ _ _ He).
Qed.

Lemma advanced_same_phase now i i1 i2 : same_phase i i1 → advanced now i1 i2 → advanced now i i2.
Proof.
  unfold same_phase, advanced, round_end. intros [Hr Hm] (H1 & H2 & H3).
  rewrite Hr, Hm in *. done.
Qed.

(** Along a run, a waiting task stays in its phase until it is idle or advances. *)
Lemma fair_path n i k :
  tk_state (run n) = Running (Initialized i) →
  (∃ m, n ≤ m ∧ idle (run m)) ∨
  (∃ m i', n ≤ m ∧ tk_state (run (S m)) = Running (Initialized i') ∧ advanced (clock m) i i') ∨
  (∃ i', tk_state (run (n + k)) = Running (Initialized i') ∧ same_phase i i').
Proof.
  intros Hi. induction k as [|k [?|[?|(i1 & Hi1 & Hp)]]]; [|by auto..|].
  - right; right. exists i. rewrite Nat.add_0_r. by repeat split.
  - rewrite Nat.add_succ_r. destruct (fair_step (n + k) i1 Hi1) as [Hid|(i2 & Hi2 & [[Hs _]|Ha])].
    + left. exists (S (n + k)). split; [lia|done].
    + right; right. exists i2. split; [done|]. unfold same_phase in *. split; destruct Hs, Hp; congruence.
    + right; left. exists (n + k), i2. split_and!; [lia|done|]. by eapply advanced_same_phase.
Qed.

(** A waiting task becomes idle or advances. *)
Lemma fair_progress n i :
  tk_state (run n) = Running (Initialized i) →
  (∃ m, n ≤ m ∧ idle (run m)) ∨
  (∃ m i', n ≤ m ∧ tk_state (run (S m)) = Running (Initialized i') ∧ advanced (clock m) i i').
Proof.
  intros Hi. destruct (fr_clock _ _ _ Hfair (default 0%N (round_end i))) as [n1 Hn1].
  destruct (fr_fair _ _ _ Hfair (n `max` n1)) as (m & Hm & Hready).
  destruct (fair_path n i (m - n) Hi) as [?|[?|(i1 & Hi1 & Hp)]]; [by auto..|].
  replace (n + (m - n)) with m in Hi1 by lia.
  assert (round_end i1 = round_end i) as Hend by (destruct Hp as [Hr Hm1]; unfold round_end; by rewrite Hr, Hm1).
  specialize (Hn1 m ltac:(lia)).
  assert (ev m = Iterate (clock m) TimerReady) as Hev.
  { apply Hready. unfold timer_ready. rewrite Hi1, Hend. destruct (round_end i); [|done].
    by apply N.leb_le. }
  destruct (fair_step m i1 Hi1) as [Hid|(i2 & Hi2 & [[_ Hne]|Ha])].
  - left. exists (S m). split; [lia|done].
  - by destruct (Hne (clock m)).
  - right. exists m, i2. split_and!; [lia|done|]. by eapply advanced_same_phase.
Qed.

(** Late rounds have no representable deadline. *)
Lemma slot_time_rounds i origin :
  in_timeout_mode i = SlotTime origin → is_Some (round_end i) →
  (round_get (round_of i) <= u64_max + 8)%N.
Proof.
  unfold round_end, calculate_round_timeout. intros ->.
  unfold cumulative_timeout, checked_mul64, checked_sub64, QUICK_TIMEOUT_THRESHOLD, SLOW_TIMEOUT.
  destruct (N.leb_spec (round_get (round_of i)) 8); [unfold u64_max; lia|].
  destruct (N.leb_spec 8 (round_get (round_of i))); [cbn [mbind option_bind]|by intros []].
  destruct (N.leb_spec ((round_get (round_of i) - 8) * 120) u64_max); [lia|by intros []].
Qed.

Lemma slot_time_ends n i origin :
  tk_state (run n) = Running (Initialized i) → in_timeout_mode i = SlotTime origin →
  ∃ m, n ≤ m ∧ idle (run m).
Proof.
  remember (N.to_nat (u64_max + 9 - round_get (round_of i))) as k eqn:Hk.
  revert n i Hk. induction (lt_wf k) as [k _ IH]. intros n i Hk Hi Hm.
  destruct (fair_progress n i Hi) as [?|(m & i' & Hle & Hi' & Hlt & Hd & Hm')]; [done|].
  pose proof (slot_time_rounds i origin Hm Hd) as Hb. rewrite Hm in Hm'. unfold round_get in *.
  destruct (IH (N.to_nat (u64_max + 9 - N.pos (round_of i'))) ltac:(lia) (S m) i' eq_refl Hi' Hm')
    as (m' & ? & ?).
  exists m'. split; [lia|done].
Qed.

Lemma relative_ends n i start round_timeout :
  (∀ m, n ≤ m → (INSTANT_MAX + 1 <= clock m)%N) →
  tk_state (run n) = Running (Initialized i) →
  in_timeout_mode i = Relative start round_timeout → ∃ m, n ≤ m ∧ idle (run m).
Proof.
  intros Hc Hi Hm.
  destruct (fair_progress n i Hi) as [?|(m & i' & Hle & Hi' & _ & _ & Hm')]; [done|].
  destruct (fair_progress (S m) i' Hi') as [(m' & ? & ?)|(? & ? & _ & _ & _ & [d Hd] & _)].
  { exists m'. split; [lia|done]. }
  exfalso. rewrite Hm in Hm'. unfold round_end, calculate_round_timeout in Hd.
  rewrite Hm' in Hd. cbn [restart_timer] in Hd. unfold checked_add_to in Hd.
  specialize (Hc m Hle). by destruct (N.leb_spec
    (clock m + single_round_timeout (round_get (round_of i')) round_timeout) INSTANT_MAX); [lia|].
Qed.

Lemma becomes_idle n : ∃ m, n ≤ m ∧ idle (run m).
Proof.
  destruct (fr_clock _ _ _ Hfair (INSTANT_MAX + 1)%N) as [n0 Hn0].
  destruct (idle_or_initialized (run (n `max` n0))) as [?|[i Hi]].
  { exists (n `max` n0). split; [lia|done]. }
  assert (∃ m, n `max` n0 ≤ m ∧ idle (run m)) as (m & ? & ?).
  { destruct (in_timeout_mode i) as [origin|start rt] eqn:Hm.
    - by eapply slot_time_ends.
    - eapply relative_ends; [|done..]. intros m Hle. apply Hn0. lia. }
  exists m. split; [lia|done].
Qed.

(** The timer ticks served in [n, n + k). *)
Definition is_tick (e : TaskEvent (D:=D)) : bool :=
  match e with Iterate _ TimerReady => true | _ => false end.
Definition ticks_served (n k : nat) : nat := length (filter (λ j, is_tick (ev j)) (seq n k)).

Lemma ticks_served_S n k : ticks_served n (S k) = (ticks_served n k + Nat.b2n (is_tick (ev (n + k))))%nat.
Proof.
  unfold ticks_served. rewrite seq_S, filter_app, length_app. f_equal. cbn. unfold filter. cbn.
  by destruct (is_tick (ev (n + k))).
Qed.

(** A task that still waits after some ticks is as many rounds further, within the limit. *)
Lemma waits_within_limit n i k :
  tk_state (run n) = Running (Initialized i) →
  (∃ m, n ≤ m ≤ n + k ∧ idle (run m)) ∨
  (∃ i', tk_state (run (n + k)) = Running (Initialized i') ∧ qb_config (in_qbft i') = qb_config (in_qbft i) ∧
     (round_get (round_of i) + N.of_nat (ticks_served n k) <= round_get (round_of i'))%N ∧
     (N.of_nat (ticks_served n k) <= cfg_max_rounds (qb_config (in_qbft i)) - round_get (round_of i))%N ).
Proof.
  intros Hi. induction k as [|k [(m & ? & ?)|(i1 & Hi1 & Hc & Hr & Hl)]].
  - right. exists i. rewrite Nat.add_0_r. unfold ticks_served. cbn. split_and!; [done|done|lia|lia].
  - left. exists m. split; [lia|done].
  - rewrite Nat.add_succ_r.
    destruct (idle_or_initialized (run (S (n + k)))) as [Hid|[i2 Hi2]]; [left; exists (S (n + k)); split; [lia|done]|].
    destruct (fair_inv (S (n + k))) as [inits Hinv].
    destruct (fr_step _ _ _ Hfair (n + k)) as [Hs|[Hf _]]; [|congruence].
    destruct (step_limit _ _ _ _ _ _ Hinv Hs Hi1 Hi2) as [Hc2 Hlim].
    right. exists i2. split; [done|]. split; [congruence|]. rewrite ticks_served_S.
    destruct (step_phase _ _ _ _ _ _ Hinv Hs Hi1 Hi2) as [[[Hsr _] Hno]|(now & sel & He & Ha & _)].
    + assert (is_tick (ev (n + k)) = false) as ->.
      { destruct (is_tick _) eqn:E; [|done]. unfold is_tick in E. repeat case_match; try done. by destruct (Hno now). }
      rewrite Hsr. cbn. lia.
    + unfold round_get in *. rewrite Hc in Hlim. destruct (is_tick _) eqn:E; cbn; [|lia].
      rewrite He in E. destruct sel; try done. specialize (Hlim _ He). lia.
Qed.

(** Who waits at some point is answered once the task is idle. *)
Lemma idle_answers n m cb :
  n ≤ m → idle (run m) → cb ∈ waiting (tk_state (run n)) →
  ∃ v, (cb, v) ∈ ef_results (tk_effects (run m)).
Proof.
  intros Hle Hid Hcb. destruct (fair_inv n) as [inits Hi].
  destruct (fair_inv_from inits n (m - n) Hi) as [more Hm].
  replace (n + (m - n)) with m in Hm by lia.
  apply task_inv_reported in Hi as (_ & Hacc & _). apply task_inv_reported in Hm as (_ & Hacc' & _).
  unfold accounted in *. assert (waiting (tk_state (run m)) = []) as Hw.
  { unfold idle in Hid. by destruct (tk_state (run m)) as [[]| |]. }
  rewrite Hw, app_nil_r, fmap_app, Hacc in Hacc'.
  assert (cb ∈ (ef_results (tk_effects (run m))).*1) as Hin.
  { rewrite <- Hacc'. set_solver. }
  apply list_elem_of_fmap in Hin as ([cb' v] & -> & Hv). by exists v.
Qed.
End fair.

(** C23: callers are answered, within the rounds allowed.  In an endless run in which time
    passes and a round timer that stays ready is eventually served, whatever messages arrive
    and however often they advance the round: a caller can wait only on an initialized
    instance; once more timer ticks were served than rounds are left to [max_rounds], it has
    been answered, without any assumption on how far the clock is; and it is eventually
    answered even if messages keep advancing the round without a tick. *)
Theorem caller_eventually_answered run ev clock n cb :
  fair_run run ev clock → cb ∈ waiting (tk_state (run n)) →
  ∃ i, tk_state (run n) = Running (Initialized i) ∧
    (∀ k, (cfg_max_rounds (qb_config (in_qbft i)) - round_get (round_of i) < N.of_nat (ticks_served ev n k))%N →
       ∃ m v, n ≤ m ≤ n + k ∧ (cb, v) ∈ ef_results (tk_effects (run m))) ∧
    ∃ m v, n ≤ m ∧ (cb, v) ∈ ef_results (tk_effects (run m)).
Proof.
  intros Hf Hcb.
  assert (∃ i, tk_state (run n) = Running (Initialized i)) as [i Hi].
  { destruct (tk_state (run n)) as [[]| |]; try (by apply elem_of_nil in Hcb). by eexists. }
  exists i. split; [done|]. split.
  - intros k Hk. destruct (waits_within_limit run ev clock Hf n i k Hi) as [(m & Hm & Hid)|(_ & _ & _ & _ & Hl)]; [|lia].
    destruct (idle_answers run ev clock Hf n m cb) as [v Hv]; [lia|done..|]. by exists m, v.
  - destruct (becomes_idle run ev clock Hf n) as (m & Hle & Hid).
    destruct (idle_answers run ev clock Hf n m cb) as [v Hv]; [done..|]. by exists m, v.
Qed.
End liveness.

(** ** On a concrete task *)

Module SampleLiveness.
Import SampleTask.
#[local] Existing Instance sample_data.
#[local] Existing Instance SampleTotal.sized_codec.
#[local] Existing Instance SampleTotal.sized_codec_sized.

(** An endless run: one caller, four rounds that time out, then a message over and over. *)
Definition endless_clock (n : nat) : N := (N.of_nat n * 10000000000)%N.
Definition endless_event (n : nat) : TaskEvent :=
  match n with
  | 0 => initialize_event (endless_clock n) 7
  | 1 | 2 | 3 | 4 => Iterate (endless_clock n) TimerReady
  | _ => message_event (endless_clock n) SampleProgress.decided_message
  end.
Fixpoint endless_run (n : nat) : Task :=
  match n with
  | 0 => task_new
  | S n => default (endless_run n) (task_step sample_sha256 (endless_event n) (endless_run n))
  end.

Lemma endless_run_decided n :
  endless_run (5 + n) = {| tk_state := Running (Decided TimedOut);
    tk_effects := {| ef_results := [(7%N, TimedOut)]; ef_sent := [] |} |}.
Proof.
  induction n as [|n IH]; [by vm_compute|].
  rewrite Nat.add_succ_r. cbn [endless_run]. by rewrite IH.
Qed.

Lemma endless_run_fair : fair_run sample_sha256 endless_run endless_event endless_clock.
Proof.
  assert (∀ n, n < 5 ∨ ∃ k, n = 5 + k) as Hn.
  { intros n. destruct (decide (n < 5)); [by left|]. right. exists (n - 5). lia. }
  split.
  - done.
  - intros n. left. destruct (Hn n) as [Hlt|[k ->]].
    + cbn [endless_run].
      assert (is_Some (task_step sample_sha256 (endless_event n) (endless_run n))) as [t ->]; [|done].
      do 5 (destruct n as [|n]; [by vm_compute; eexists|]). lia.
    + rewrite <- Nat.add_succ_r. by rewrite !endless_run_decided.
  - intros n. destruct (Hn n) as [Hlt|[k ->]]; [|done].
    destruct n as [|n]; [apply sample_init_ok|]. by do 4 (destruct n as [|n]; [done|]).
  - intros n now sel. destruct (Hn n) as [Hlt|[k ->]]; [|by intros [= <-]].
    do 5 (destruct n as [|n]; [by intros [= <-]|]). lia.
  - intros bound. exists (N.to_nat bound). intros m Hm. unfold endless_clock. lia.
  - intros n. exists (5 + n). split; [lia|]. by rewrite endless_run_decided.
Qed.

(** The caller that waits at step 1, in the first of four rounds, is answered by the
    fourth tick at the latest. *)
Lemma caller_eventually_answered_witness :
  ∃ m v, 1 ≤ m ≤ 5 ∧ (7%N, v) ∈ ef_results (tk_effects (endless_run m)).
Proof.
  destruct (caller_eventually_answered sample_sha256 _ _ _ 1 7%N endless_run_fair) as (i & Hi & Hticks & _).
  - assert (waiting (tk_state (endless_run 1)) = [7%N]) as -> by by vm_compute. by left.
  - apply (Hticks 4). clear Hticks.
    assert (∀ t : Task, tk_state t = Running (Initialized i) → (match tk_state t with Running (Initialized j) =>
      (cfg_max_rounds (qb_config (in_qbft j)) - round_get (qb_current_round (in_qbft j)) <? 4)%N | _ => true end) = true →
      (cfg_max_rounds (qb_config (in_qbft i)) - round_get (qb_current_round (in_qbft i)) < 4)%N) as Hlt.
    { intros t -> ?%N.ltb_lt. done. }
    apply (Hlt (endless_run 1) Hi). by vm_compute.
Defined.
End SampleLiveness.
