(* ===== verification/InstanceBuffer.v ===== *)
(** * Messages that arrive early

    Messages for an instance that is not initialized yet are buffered and replayed when
    it is ([anchor/qbft_manager/src/instance.rs]).  The replay leaves the task in exactly
    the state it would have reached had the messages arrived after the initialization. *)

From S2P Require Import Prelude SsvTypes Messages QbftTypes MsgContainer Qbft Sample QbftInv QbftProgress QbftTotal.
From S2P Require Import RoundTimeout InstanceTask InstanceRuns.

(** ** Stored data is stored under its hash *)

Section data.
Context {F D : Type} `{!LeaderFunction F} `{!QbftData D} {Codec : SszCodec}.
Implicit Types (q : Qbft F D) (w : WrappedQbftMessage).

Record data_ok q : Prop := {
  dk_data : ∀ h d, qb_data q !! h = Some d → data_hash d = h;
  dk_start : data_hash (vd_data (qb_valid_start_data q)) = vd_hash (qb_valid_start_data q);
}.

(** What message validation establishes: the root is the hash of the full data. *)
Definition hash_checked w : Prop :=
  ∀ d, data_from_ssz (full_data (signed_message w)) = Some d →
    data_hash d = root (qbft_message w).

Definition keeps_data q q' : Prop := data_ok q → data_ok q'.

#[local] Instance keeps_data_preorder : PreOrder keeps_data.
Proof. unfold keeps_data. split; [intros q; auto|intros q1 q2 q3; auto]. Qed.

Lemma keeps_data_frame q q' :
  qb_data q' = qb_data q → qb_valid_start_data q' = qb_valid_start_data q → keeps_data q q'.
Proof. intros Hd Hs [? ?]. by split; rewrite ?Hd, ?Hs. Qed.

Lemma keeps_data_insert q h d :
  data_hash d = h → keeps_data q (q <| qb_data := <[h := d]> (qb_data q) |>).
Proof.
  intros Hh [Hd Hs]. split; [|done]. cbn. intros h' d'. rewrite lookup_insert. case_decide; [|auto].
  intros [= <-]. congruence.
Qed.

Ltac frame_data := apply keeps_data_frame; done.

Lemma send_proposal_data q h d :
  data_hash d = h → wp (send_proposal h d) (λ _, keeps_data q) q.
Proof.
  intros Hh. pose proof (keeps_data_insert q h d Hh). unfold send_proposal, insert_data, send.
  wp_run; try done. etrans; [done|frame_data].
Qed.

Lemma start_round_data q : data_ok q → wp start_round (λ _, data_ok) q.
Proof.
  intros Hq. unfold start_round, set_state.
  assert (data_ok (q <| qb_state := AwaitingProposal |>)) as Hs by (by destruct Hq).
  wp_run; try done.
  all: eapply wp_mono; [apply send_proposal_data|intros [] ? Ho; wp_run; by apply Ho].
  - match goal with E : _ = HighestPrepared _ |- _ =>
      by apply justify_round_change_quorum_valid in E as [] end.
  - apply (dk_start _ Hs).
Qed.

Lemma received_propose_data q vd s r w :
  data_hash (vd_data vd) = vd_hash vd → data_ok q →
  wp (received_propose vd s r w) (λ _, data_ok) q.
Proof.
  intros Hh Hq. pose proof (keeps_data_insert q _ _ Hh Hq) as Hi.
  unfold received_propose, insert_data, set_state, send_prepare, send.
  wp_run; try done; by destruct Hi.
Qed.

Lemma received_prepare_data q s r w : data_ok q → wp (received_prepare s r w) (λ _, data_ok) q.
Proof.
  intros [Hd Hs]. unfold received_prepare, check_prepare_quorum, is_proposal_accepted, set_state,
    send_commit, send.
  wp_run; by split.
Qed.

Lemma received_commit_data q s r w : data_ok q → wp (received_commit s r w) (λ _, data_ok) q.
Proof.
  intros [Hd Hs]. unfold received_commit, check_commit_quorum, is_proposal_accepted, set_state.
  wp_run; by split.
Qed.

Lemma received_round_change_data q s r w :
  data_ok q → wp (received_round_change s r w) (λ _, data_ok) q.
Proof.
  intros [Hd Hs]. unfold received_round_change, set_state, set_round, send_round_change, send.
  wp_run; try by split. apply start_round_data. by split.
Qed.

Lemma received_decided_data q w :
  hash_checked w → data_ok q → wp (received_decided w) (λ _, data_ok) q.
Proof.
  intros Hw Hq. unfold received_decided, set_state, insert_data. wp_run; try by destruct Hq.
  all: match goal with E : ok_or _ _ = Ok _ |- _ => apply ok_or_ok, Hw in E;
         destruct (keeps_data_insert q _ _ E Hq) as [Hd Hs]; by split end.
Qed.

Lemma validate_message_hash q w v s :
  hash_checked w → validate_message q w = Ok (Complete v, s) → data_hash (vd_data v) = vd_hash v.
Proof.
  intros Hw. unfold validate_message. intros (? & _ & H)%bind_ok.
  apply bind_ok in H as (? & _ & H). apply bind_ok in H as (? & _ & H).
  case_decide; [done|]. apply bind_ok in H as (? & _ & H). destruct (_ || _); [done|].
  apply bind_ok in H as (d & Hd%ok_or_ok & H). apply bind_ok in H as (? & _ & H). simplify_eq.
  by apply Hw.
Qed.

Lemma receive_data_ok q w : hash_checked w → data_ok q → data_ok (receive w q).2.
Proof.
  intros Hw Hq. apply (proj1 (wp_final (receive w) data_ok q)). unfold receive.
  wp_step. wp_step. wp_step. wp_step. wp_step; [|done..]. destruct a as [content s].
  wp_step. wp_step. wp_step; [|done..]. repeat wp_step; try done.
  - apply received_propose_data; [|done]. subst. by eapply validate_message_hash.
  - by apply received_prepare_data.
  - by apply received_commit_data.
  - by apply received_decided_data.
  - by apply received_round_change_data.
Qed.
End data.

(** ** Early and late messages *)

Section buffer.
Context {D : Type} `{!QbftData D} {Codec : SszCodec} `{!SszSized Codec} (sha256 : bytes → bytes).
(** The hash of consensus data does not collide. *)
Context `{!Inj (=) (=) (data_hash : D → Hash256)}.
Implicit Types (q : Qbft DefaultLeaderFunction D) (w : WrappedQbftMessage).

#[local] Opaque receive end_round.

(** Once decided, a message changes nothing the task reports. *)
Lemma receive_decided q w v :
  hash_checked w → data_ok q → qb_completed q = Some (Success v) → is_Some (qb_data q !! v) →
  completed (receive w q).2 = completed q ∧
  qb_aggregated_commit (receive w q).2 = qb_aggregated_commit q.
Proof.
  intros Hw Hq Hc [d Hd]. destruct (receive_steps w q) as [_ [[Hc' Ha]|(Hn & _)]].
  2: { destruct Hn. by exists v. }
  split; [|done]. unfold completed. rewrite Hc', Hc, Hd. cbn.
  destruct (run_call_extends (CallReceive w) q) as [_ _ _ _ _ _ _ _ Hkept _ _ _].
  destruct (Hkept v) as [d' Hd']; [by eexists|]. cbn in Hd'. rewrite Hd'. cbn.
  do 2 f_equal. apply (inj data_hash).
  rewrite (dk_data _ (receive_data_ok q w Hw Hq) _ _ Hd'). symmetry. by apply (dk_data _ Hq).
Qed.

Context (init : QbftInitialization (D:=D)) (now : N).

(** The first iteration after which an instance is in state [q]. *)
Definition settled_task q : Task :=
  let cb := init_on_completed init in
  match completed q with
  | Some v =>
      {| tk_state := Running (Decided v);
         tk_effects := {| ef_results := [(cb, v)];
           ef_sent := match qb_aggregated_commit q with
                      | Some msg => [(msg, committee_id_of_config sha256 (qb_config q))]
                      | None => [] end |} |}
  | None =>
      {| tk_state := Running (Initialized {| in_qbft := q; in_msgs_sent_by_us := [];
           in_on_completed := [cb]; in_timeout_mode := restart_timer now (init_timeout_mode init) |});
         tk_effects := no_effects |}
  end.

Lemma iterated_settled r instance q :
  handle_result now r instance no_effects =
    (Ok (Some (Initialized {| in_qbft := q; in_msgs_sent_by_us := [];
       in_on_completed := [init_on_completed init];
       in_timeout_mode := restart_timer now (init_timeout_mode init) |})), no_effects) →
  iterated sha256 now r instance no_effects = settled_task q.
Proof.
  intros Hh. unfold iterated, loop_body, mbind, action_bind. rewrite Hh.
  unfold complete_if_done, settled_task. cbn [in_qbft in_on_completed].
  destruct (completed q) as [v|]; [|done].
  unfold mbind, action_bind. rewrite send_results. by destruct (qb_aggregated_commit q).
Qed.

Definition deliver w : TaskEvent (D:=D) := Iterate now (RxReady (Some (NetworkMessage w))).
Definition start_event : TaskEvent (D:=D) := Iterate now (RxReady (Some (Initialize init))).

(** A task whose first caller is [init], after messages only. *)
Abbreviation instance_after ws := (run_calls (CallReceive <$> ws) (instance_of init)).

Lemma task_run_app evs evs' (t : Task (D:=D)) :
  task_run sha256 (evs ++ evs') t = task_run sha256 evs t ≫= task_run sha256 evs'.
Proof.
  revert t. induction evs as [|ev evs IH]; intros t; cbn [app task_run mbind option_bind]; [done|].
  destruct (task_step sha256 ev t); [apply IH|done].
Qed.

Hypothesis Hinit : kind_ok (Initialize init).
Hypothesis Hawake : (initialize_at init <= now)%N.

(** Early: the messages fill the buffer, and are replayed. *)
Lemma fill_buffer ws buf e :
  length buf + length ws ≤ MESSAGE_BUFFER_LIMIT →
  task_run sha256 (deliver <$> ws) {| tk_state := Running (Uninitialized buf); tk_effects := e |} =
    Some {| tk_state := Running (Uninitialized (buf ++ ws)); tk_effects := e |}.
Proof.
  revert buf. induction ws as [|w ws IH]; intros buf Hlen; cbn [fmap list_fmap task_run].
  { by rewrite app_nil_r. }
  cbn [length] in Hlen.
  change (deliver w) with (Iterate now (RxReady (Some (NetworkMessage w))) : TaskEvent (D:=D)).
  rewrite task_step_iterate.
  cbn [loop_recv recv_result_of mbind option_bind awake].
  assert (iterated sha256 now (Message (NetworkMessage w)) (Uninitialized buf) e =
          {| tk_state := Running (Uninitialized (buf ++ [w])); tk_effects := e |}) as ->.
  { unfold iterated, loop_body, handle_result, instance_receive. by rewrite decide_True by lia. }
  rewrite IH by (rewrite length_app; cbn; lia). by rewrite <- app_assoc.
Qed.

Lemma start_replays buf :
  Forall (λ w, round (qbft_message w) ≠ 0%N) buf →
  task_run sha256 [start_event]
    {| tk_state := Running (Uninitialized buf); tk_effects := no_effects |} =
    Some (settled_task (instance_after buf)).
Proof.
  intros Hb. cbn [task_run]. unfold start_event. rewrite task_step_iterate.
  cbn [loop_recv recv_result_of mbind option_bind awake].
  rewrite (proj2 (N.leb_le _ _) Hawake). cbn [mbind option_bind]. f_equal.
  apply iterated_settled. destruct (initialize_live buf init now Hinit Hb) as [Hi _].
  unfold handle_result, instance_initialize, mbind, action_bind, lift. by rewrite Hi.
Qed.

(** What messages alone keep of the instance. *)
Lemma instance_after_snoc ws w : instance_after (ws ++ [w]) = (receive w (instance_after ws)).2.
Proof. unfold run_calls. rewrite fmap_app, foldl_app. done. Qed.

Lemma instance_after_data ws : Forall hash_checked ws → data_ok (instance_after ws).
Proof.
  induction ws as [|w ws IH] using rev_ind.
  - intros _. apply (proj1 (wp_final start_round data_ok _)), start_round_data.
    split; cbn; [|done]. intros h d [<- <-]%lookup_singleton_Some. done.
  - intros [Hws Hw%Forall_inv]%Forall_app. rewrite instance_after_snoc. by apply receive_data_ok; [|apply IH].
Qed.

Lemma instance_after_outcome ws :
  match qb_completed (instance_after ws) with
  | Some TimedOut => False
  | Some (Success v) => is_Some (qb_data (instance_after ws) !! v)
  | None => True
  end.
Proof.
  destruct (qb_completed (instance_after ws)) as [[|v]|] eqn:Hc; [|by destruct (success_data _ _ _ _ _ v Hc) as (d & ? & _); exists d|done].
  revert Hc. induction ws as [|w ws IH] using rev_ind.
  - destruct (qbft_new_extends (init_config init) (init_initial init) (init_validator init)
      (init_message_id init)) as [_ _ _ _ _ _ _ _ _ _ Hn _]. cbn in Hn |- *.
    unfold instance_of. by rewrite <- Hn.
  - rewrite instance_after_snoc.
    destruct (receive_steps w (instance_after ws)) as [_ [[Hc _]|(_ & [v Hv] & _)]]; [by rewrite Hc|].
    by rewrite Hv.
Qed.

Lemma settled_task_decided ws w :
  Forall hash_checked (ws ++ [w]) → is_Some (completed (instance_after ws)) →
  settled_task (instance_after (ws ++ [w])) = settled_task (instance_after ws).
Proof.
  intros [Hws Hw%Forall_inv]%Forall_app [v Hv]. rewrite instance_after_snoc.
  pose proof (instance_after_outcome ws) as Ho.
  destruct (qb_completed (instance_after ws)) as [[|v']|] eqn:Hc; [done| |].
  - destruct (receive_decided _ w v' Hw (instance_after_data ws Hws) Hc Ho) as [Hc' Ha].
    unfold settled_task. rewrite Hc', Ha.
    destruct (run_call_extends (CallReceive w) (instance_after ws)) as [Hcfg _ _ _ _ _ _ _ _ _ _ _].
    cbn [run_call] in Hcfg. by rewrite Hcfg, Hv.
  - unfold completed in Hv. by rewrite Hc in Hv.
Qed.

Lemma restart_timer_twice mode : restart_timer now (restart_timer now mode) = restart_timer now mode.
Proof. by destruct mode. Qed.

(** A message to a waiting task. *)
Lemma deliver_waiting ws w t :
  Forall (λ w, round (qbft_message w) ≠ 0%N) (ws ++ [w]) →
  completed (instance_after ws) = None →
  task_step sha256 (deliver w) (settled_task (instance_after ws)) = Some t →
  tk_state t ≠ Finished → t = settled_task (instance_after (ws ++ [w])).
Proof.
  intros [Hws Hw%Forall_inv]%Forall_app Hn Hstep Hf. unfold settled_task in Hstep. rewrite Hn in Hstep.
  unfold deliver in Hstep. rewrite task_step_iterate in Hstep.
  cbn [loop_recv] in Hstep.
  destruct (initialize_live ws init now Hinit Hws) as [_ Hl].
  set (i := {| in_qbft := instance_after ws |}) in *.
  unfold initialized_recv in Hstep.
  destruct (round_end i) as [d|]; cbn in Hstep; injection Hstep as <-.
  2: { destruct Hf. unfold iterated, loop_body, handle_result, mbind, action_bind, complete.
       by rewrite send_results. }
  apply iterated_settled. rewrite instance_after_snoc.
  destruct (live_receive init i w (in_timeout_mode i) Hl Hw) as [Hr _].
  unfold handle_result, instance_receive, mbind, outcome_bind, action_bind, lift. rewrite Hr.
  unfold mret, action_ret. do 2 f_equal. cbn. case_decide; cbn; by rewrite ?restart_timer_twice.
Qed.

Lemma late_messages ws t :
  Forall (λ w, round (qbft_message w) ≠ 0%N) ws → Forall hash_checked ws →
  task_run sha256 (start_event :: (deliver <$> ws)) task_new = Some t → tk_state t ≠ Finished →
  t = settled_task (instance_after ws).
Proof.
  revert t. induction ws as [|w ws IH] using rev_ind; intros t Hr Hh Hrun Hf.
  - change (task_run sha256 [start_event] task_new = Some t) in Hrun.
    pose proof (start_replays [] ltac:(constructor)) as Hs.
    change {| tk_state := Running (Uninitialized []); tk_effects := no_effects |}
      with (task_new (D:=D)) in Hs. congruence.
  - rewrite fmap_app, app_comm_cons, task_run_app in Hrun.
    apply bind_Some in Hrun as (t' & Hrun & Hstep). cbn [fmap list_fmap task_run] in Hstep.
    apply bind_Some in Hstep as (t'' & Hstep & [= ->]).
    pose proof Hr as [Hr1 _]%Forall_app. pose proof Hh as [Hh1 _]%Forall_app.
    assert (tk_state t' ≠ Finished) as Hf' by (intros He; unfold task_step in Hstep; by rewrite He in Hstep).
    rewrite (IH t' Hr1 Hh1 Hrun Hf') in Hstep.
    destruct (completed (instance_after ws)) as [v|] eqn:Hc; [|by eapply deliver_waiting].
    rewrite settled_task_decided by (done || by rewrite Hc).
    unfold settled_task in Hstep |- *. rewrite Hc in Hstep |- *. cbn in Hstep. by injection Hstep as <-.
Qed.

(** C25: buffering is transparent.  If messages that pass validation arrive before the
    instance is initialized, and are no more than the buffer holds, the task ends up in
    exactly the state, with exactly the results and the decided message, that it would
    have if they had arrived right after the initialization (which the timer arithmetic
    did not stop). *)
Theorem buffering_transparent ws t :
  length ws ≤ MESSAGE_BUFFER_LIMIT →
  Forall (λ w, round (qbft_message w) ≠ 0%N) ws → Forall hash_checked ws →
  task_run sha256 (start_event :: (deliver <$> ws)) task_new = Some t → tk_state t ≠ Finished →
  task_run sha256 ((deliver <$> ws) ++ [start_event]) task_new = Some t.
Proof.
  intros Hlen Hr Hh Hrun Hf. rewrite (late_messages ws t Hr Hh Hrun Hf).
  rewrite task_run_app. unfold task_new. rewrite fill_buffer by (cbn [length]; lia).
  cbn [app mbind option_bind]. by apply start_replays.
Qed.
End buffer.

(** ** On a concrete task *)

Module SampleBuffer.
Import SampleTask.
#[local] Existing Instance sample_data.
#[local] Existing Instance SampleTotal.sized_codec.
#[local] Existing Instance SampleTotal.sized_codec_sized.

(** A proposal and a decided message arrive first. *)
Definition early_messages : list WrappedQbftMessage :=
  [sample_message 1 Proposal 1 10; SampleProgress.decided_message].

Lemma early_messages_ok :
  Forall (λ w, round (qbft_message w) ≠ 0%N) early_messages ∧ Forall hash_checked early_messages.
Proof.
  split; [by repeat constructor|].
  repeat constructor; intros d Hd; vm_compute in Hd; by injection Hd as <-.
Qed.

Lemma buffering_transparent_witness :
  ∃ t, task_run sample_sha256 (start_event (sample_init 7) 5 :: (deliver 5 <$> early_messages)) task_new
         = Some t ∧
       task_run sample_sha256 ((deliver 5 <$> early_messages) ++ [start_event (sample_init 7) 5]) task_new
         = Some t.
Proof.
  assert (Inj (=) (=) (data_hash : N → Hash256)) as Hinj by (intros x y; exact id).
  destruct (task_run sample_sha256 (start_event (sample_init 7) 5 :: (deliver 5 <$> early_messages))
    task_new) as [t|] eqn:Ht; [|by vm_compute in Ht].
  exists t. split; [done|].
  apply (buffering_transparent sample_sha256 (sample_init 7) 5).
  - apply sample_init_ok.
  - by vm_compute.
  - by vm_compute; lia.
  - apply early_messages_ok.
  - apply early_messages_ok.
  - exact Ht.
  - intros Hf. assert (tk_state <$> task_run sample_sha256
      (start_event (sample_init 7) 5 :: (deliver 5 <$> early_messages)) task_new = Some Finished) as Hs
      by (rewrite Ht; cbn; by rewrite Hf).
    by vm_compute in Hs.
Defined.
End SampleBuffer.
