(* ===== verification/QbftManager.v ===== *)
(** * The QBFT manager

    [anchor/qbft_manager/src/lib.rs]: one map of running instances per kind of consensus
    data, the configuration of a new instance, the routing of network messages by their
    identifier, and the cleaner.  A map entry holds the sender of an instance's queue; here
    it is everything sent on that queue so far, which the instance's task
    ([InstanceTask.v]) receives in order.  The processor accepts work or refuses it. *)

From S2P Require Import Prelude SsvTypes Messages QbftTypes MsgContainer Qbft ForkSchedule RoundTimeout.
From S2P Require Import ValidatorRules InstanceTask.

(** Number of slots to keep before the current one. *)
Definition QBFT_RETAIN_SLOTS : N := 1.

(** ** Identifiers *)

Record CommitteeInstanceId := { ci_committee : CommitteeId; ci_instance_height : N }.

Record AggregatorCommitteeInstanceId := { ai_committee : CommitteeId; ai_instance_height : N }.

Inductive ValidatorDutyKind := DutyProposal | DutyAggregator | DutySyncCommitteeAggregator.

Record ProposerInstanceId := {
  pi_validator : PublicKeyBytes;
  pi_duty : ValidatorDutyKind;
  pi_instance_height : N;
}.

#[export] Instance ValidatorDutyKind_eq_dec : EqDecision ValidatorDutyKind.
Proof. solve_decision. Defined.
#[export] Program Instance ValidatorDutyKind_countable : Countable ValidatorDutyKind :=
  inj_countable (λ k, match k with DutyProposal => 0 | DutyAggregator => 1
                      | DutySyncCommitteeAggregator => 2 end)
    (λ n, [DutyProposal; DutyAggregator; DutySyncCommitteeAggregator] !! n) _.
Next Obligation. by intros []. Qed.
#[export] Instance CommitteeInstanceId_eq_dec : EqDecision CommitteeInstanceId.
Proof. solve_decision. Defined.
#[export] Program Instance CommitteeInstanceId_countable : Countable CommitteeInstanceId :=
  inj_countable (λ i, (ci_committee i, ci_instance_height i))
    (λ '(c, h), Some {| ci_committee := c; ci_instance_height := h |}) _.
Next Obligation. by intros []. Qed.
#[export] Instance AggregatorCommitteeInstanceId_eq_dec : EqDecision AggregatorCommitteeInstanceId.
Proof. solve_decision. Defined.
#[export] Program Instance AggregatorCommitteeInstanceId_countable :
    Countable AggregatorCommitteeInstanceId :=
  inj_countable (λ i, (ai_committee i, ai_instance_height i))
    (λ '(c, h), Some {| ai_committee := c; ai_instance_height := h |}) _.
Next Obligation. by intros []. Qed.
#[export] Instance ProposerInstanceId_eq_dec : EqDecision ProposerInstanceId.
Proof. solve_decision. Defined.
#[export] Program Instance ProposerInstanceId_countable : Countable ProposerInstanceId :=
  inj_countable (λ i, (pi_validator i, pi_duty i, pi_instance_height i))
    (λ '(v, d, h), Some {| pi_validator := v; pi_duty := d; pi_instance_height := h |}) _.
Next Obligation. by intros []. Qed.

(** ** Errors *)

(** [TrySendError] of the processor's queue. *)
Inductive TrySendError := Full | QueueClosed.

(** [QbftError] of the manager. *)
Inductive ManagerError :=
  | QueueClosedError
  | QueueFullError
  | ManagerConfigBuilderError (e : ConfigBuilderError)
  | InconsistentMessageId
  | OwnOperatorIdUnknown
  | RoleNotActive.

(** [impl From<processor::Error> for QbftError] *)
Definition manager_error_of_processor (e : TrySendError) : ManagerError :=
  match e with
  | Full => QueueFullError
  | QueueClosed => QueueClosedError
  end.

Section manager.
(** The four kinds of consensus data. *)
Context {ProposerConsensusData BeaconVote GloasBeaconVote AggregatorCommitteeConsensusData : Type}.
(** [E::slots_per_epoch()], the Ethereum preset. *)
Context (eth_slots_per_epoch : positive).
(** [self.spec.fork_name_at_slot(slot).gloas_enabled()], from the [types] crate. *)
Context (gloas_enabled_at_slot : Slot → bool).
(** [bls::PublicKeyBytes::deserialize] *)
Context (pk_deserialize : bytes → option PublicKeyBytes).

Record QbftManager := {
  mg_operator_id : option OperatorId;
  mg_slots_per_epoch : positive;
  mg_fork_schedule : ForkSchedule;
  proposer_consensus_data_instances :
    gmap ProposerInstanceId (list (QbftMessageKind (D:=ProposerConsensusData)));
  beacon_vote_instances : gmap CommitteeInstanceId (list (QbftMessageKind (D:=BeaconVote)));
  gloas_beacon_vote_instances :
    gmap CommitteeInstanceId (list (QbftMessageKind (D:=GloasBeaconVote)));
  aggregator_committee_instances :
    gmap AggregatorCommitteeInstanceId
      (list (QbftMessageKind (D:=AggregatorCommitteeConsensusData)));
}.

#[export] Instance QbftManager_eta : Eta QbftManager := λ m,
  {| mg_operator_id := mg_operator_id m; mg_slots_per_epoch := mg_slots_per_epoch m;
     mg_fork_schedule := mg_fork_schedule m;
     proposer_consensus_data_instances := proposer_consensus_data_instances m;
     beacon_vote_instances := beacon_vote_instances m;
     gloas_beacon_vote_instances := gloas_beacon_vote_instances m;
     aggregator_committee_instances := aggregator_committee_instances m |}.

(** [QbftManager::new] *)
Definition manager_new (operator_id : option OperatorId) (slots_per_epoch : positive)
    (fork_schedule : ForkSchedule) : QbftManager :=
  {| mg_operator_id := operator_id; mg_slots_per_epoch := slots_per_epoch;
     mg_fork_schedule := fork_schedule; proposer_consensus_data_instances := ∅;
     beacon_vote_instances := ∅; gloas_beacon_vote_instances := ∅;
     aggregator_committee_instances := ∅ |}.

(** [trait QbftDecidable] *)
Class QbftDecidable (D : Type) := {
  decidable_id : Type;
  decidable_id_eq :: EqDecision decidable_id;
  decidable_id_countable :: Countable decidable_id;
  get_map : QbftManager → gmap decidable_id (list (QbftMessageKind (D:=D)));
  set_map : gmap decidable_id (list (QbftMessageKind (D:=D))) → QbftManager → QbftManager;
  instance_height : decidable_id → N;
  decidable_message_id : DomainType → decidable_id → MessageId;
}.
Arguments decidable_id D {_}.

Definition duty_role (duty : ValidatorDutyKind) : Role :=
  match duty with
  | DutyProposal => Role.Proposer
  | DutyAggregator => Role.Aggregator
  | DutySyncCommitteeAggregator => Role.SyncCommittee
  end.

#[export] Instance proposer_decidable : QbftDecidable ProposerConsensusData := {|
  decidable_id := ProposerInstanceId;
  get_map := proposer_consensus_data_instances;
  set_map v m := m <| proposer_consensus_data_instances := v |>;
  instance_height := pi_instance_height;
  decidable_message_id domain id :=
    message_id_new domain (duty_role (pi_duty id)) (ExecValidator (pi_validator id));
|}.

#[export] Instance beacon_vote_decidable : QbftDecidable BeaconVote := {|
  decidable_id := CommitteeInstanceId;
  get_map := beacon_vote_instances;
  set_map v m := m <| beacon_vote_instances := v |>;
  instance_height := ci_instance_height;
  decidable_message_id domain id :=
    message_id_new domain Role.Committee (ExecCommittee (ci_committee id));
|}.

#[export] Instance gloas_beacon_vote_decidable : QbftDecidable GloasBeaconVote := {|
  decidable_id := CommitteeInstanceId;
  get_map := gloas_beacon_vote_instances;
  set_map v m := m <| gloas_beacon_vote_instances := v |>;
  instance_height := ci_instance_height;
  decidable_message_id domain id :=
    message_id_new domain Role.Committee (ExecCommittee (ci_committee id));
|}.

#[export] Instance aggregator_committee_decidable : QbftDecidable AggregatorCommitteeConsensusData := {|
  decidable_id := AggregatorCommitteeInstanceId;
  get_map := aggregator_committee_instances;
  set_map v m := m <| aggregator_committee_instances := v |>;
  instance_height := ai_instance_height;
  decidable_message_id domain id :=
    message_id_new domain Role.AggregatorCommittee (ExecCommittee (ai_committee id));
|}.

Definition maction (A : Type) : Type := action QbftManager ManagerError A.

(** ** Instances *)

(** [QbftDecidable::get_or_spawn_instance] *)
Definition get_or_spawn_instance {D} `{!QbftDecidable D} (id : decidable_id D) : maction unit :=
  modify (λ m, match get_map m !! id with
               | Some _ => m
               | None => set_map (<[id := []]> (get_map m)) m
               end).

(** [sender.send(message)] on the sender of an instance. *)
Definition send_to_instance {D} `{!QbftDecidable D} (id : decidable_id D)
    (message : QbftMessageKind (D:=D)) : maction unit :=
  modify (λ m, set_map (alter (λ queue, queue ++ [message]) id (get_map m)) m).

(** [self.processor.urgent_consensus.send_immediate(..)?]: refused with an error, or the
    closure runs. *)
Definition send_immediate (processor : option TrySendError) : outcome ManagerError unit :=
  match processor with
  | Some e => Err (manager_error_of_processor e)
  | None => Ok tt
  end.

(** [QbftManager::pass_to_instance] *)
Definition pass_to_instance {D} `{!QbftDecidable D} (processor : option TrySendError)
    (id : decidable_id D) (data : WrappedQbftMessage) : maction unit :=
  _ ← get_or_spawn_instance id;
  _ ← lift (send_immediate processor);
  send_to_instance id (NetworkMessage data).

(** [domain_type_for_instance]; [None] is the [expect] of the schedule. *)
Definition domain_type_for_instance (m : QbftManager) (height : N) : option DomainType :=
  fc_domain_type <$> active_fork_config (mg_fork_schedule m) (slot_epoch height eth_slots_per_epoch).

(** ** Starting an instance *)

(** The configuration part of [decide_instance]. *)
Definition instance_config (m : QbftManager) (operator_id : OperatorId) (height : N)
    (message_id : MessageId) (committee_members : list OperatorId)
    : outcome ManagerError (Config DefaultLeaderFunction) :=
  fork ← expect (active_fork (mg_fork_schedule m) (height `div` N.pos (mg_slots_per_epoch m))%N);
  let leader_fn := {| slots_per_epoch := mg_slots_per_epoch m;
                      include_epoch_shift := fork_le Boole fork |} in
  let config := config_builder_new operator_id height committee_members leader_fn in
  max_rounds ← ok_or (message_id_role message_id ≫= Role.max_round) InconsistentMessageId;
  map_err ManagerConfigBuilderError (config_build (with_max_rounds max_rounds config)).

(** [QbftManager::decide_instance], up to the wait for the result on [result_sender]. *)
Definition decide_instance {D} `{!QbftDecidable D} (processor : option TrySendError)
    (id : decidable_id D) (initial : D) (validator : D → D → bool) (timeout_mode : TimeoutMode)
    (committee_members : list OperatorId) (result_sender : Callback) : maction unit :=
  operator_id ← gets mg_operator_id;
  operator_id ← lift (ok_or operator_id OwnOperatorIdUnknown);
  let height := instance_height id in
  domain ← gets (λ m, domain_type_for_instance m height);
  domain ← lift (expect domain);
  let message_id := decidable_message_id domain id in
  config ← gets (λ m, instance_config m operator_id height message_id committee_members);
  config ← lift config;
  _ ← get_or_spawn_instance id;
  _ ← lift (send_immediate processor);
  send_to_instance id (Initialize
    {| init_initial := initial; init_validator := validator; init_message_id := message_id;
       init_timeout_mode := timeout_mode; init_config := config;
       init_on_completed := result_sender |}).

(** [Ok(result_receiver.await?)]: [None] when the sender was dropped. *)
Definition await_result {D} (result : option (Completed D)) : outcome ManagerError (Completed D) :=
  ok_or result QueueClosedError.

(** ** Routing *)

(** [QbftManager::receive_data] *)
Definition receive_data (processor : option TrySendError) (full_message : SignedSSVMessage)
    (msg : Messages.QbftMessage) : maction unit :=
  let msg_id := msg_id (ssv_message full_message) in
  let wrapped := {| signed_message := full_message; qbft_message := msg |} in
  match message_id_duty_executor pk_deserialize msg_id with
  | Some (ExecValidator validator) =>
      duty ← lift (match message_id_role msg_id with
                   | Some Role.Proposer => Ok DutyProposal
                   | Some Role.Aggregator => Ok DutyAggregator
                   | Some Role.SyncCommittee => Ok DutySyncCommitteeAggregator
                   | Some _ | None => Err InconsistentMessageId
                   end);
      pass_to_instance (D:=ProposerConsensusData) processor
        {| pi_validator := validator; pi_duty := duty; pi_instance_height := height msg |} wrapped
  | Some (ExecCommittee committee) =>
      match message_id_role msg_id with
      | Some Role.Committee =>
          let id := {| ci_committee := committee; ci_instance_height := height msg |} in
          if gloas_enabled_at_slot (height msg)
          then pass_to_instance (D:=GloasBeaconVote) processor id wrapped
          else pass_to_instance (D:=BeaconVote) processor id wrapped
      | Some Role.AggregatorCommittee =>
          fork ← gets (λ m, active_fork (mg_fork_schedule m)
                              (slot_epoch (height msg) eth_slots_per_epoch));
          fork ← lift (expect fork);
          if negb (fork_le Boole fork) then throw RoleNotActive
          else pass_to_instance (D:=AggregatorCommitteeConsensusData) processor
                 {| ai_committee := committee; ai_instance_height := height msg |} wrapped
      | Some _ | None => throw InconsistentMessageId
      end
  | None => throw InconsistentMessageId
  end.

(** ** Cleaning up *)

(** One pass of [QbftManager::cleaner]: [now] is [slot_clock.now()]. *)
Definition cleaner_pass (now : option Slot) (m : QbftManager) : QbftManager :=
  match now with
  | None => m
  | Some slot =>
      let cutoff := (slot - QBFT_RETAIN_SLOTS)%N in
      m <| beacon_vote_instances :=
             filter (λ kv, cutoff <= ci_instance_height kv.1)%N (beacon_vote_instances m) |>
        <| gloas_beacon_vote_instances :=
             filter (λ kv, cutoff <= ci_instance_height kv.1)%N (gloas_beacon_vote_instances m) |>
        <| proposer_consensus_data_instances :=
             filter (λ kv, cutoff <= pi_instance_height kv.1)%N (proposer_consensus_data_instances m) |>
        <| aggregator_committee_instances :=
             filter (λ kv, cutoff <= ai_instance_height kv.1)%N (aggregator_committee_instances m) |>
  end.
End manager.
