(* ===== verification/QbftRouting.v ===== *)
(** * Routing and the queues of the QBFT manager

    What [QbftManager.v] does with a network message, in full: the instance it reaches, or
    why it is refused.  From it: what an instance sends is received by the same instance
    at every operator, and everything on a queue meets the conditions under which the
    instance tasks were shown to work. *)

From S2P Require Import Prelude SsvTypes Messages QbftTypes MsgContainer Qbft Sample QbftInv QbftProgress QbftTotal.
From S2P Require Import ForkSchedule ValidatorRules RoundTimeout InstanceTask InstanceRuns QbftManager.

(** ** Instances of all kinds *)

(** The instance, with the kind of data it decides. *)
Inductive InstanceKey :=
  | KeyProposer (id : ProposerInstanceId)
  | KeyBeaconVote (id : CommitteeInstanceId)
  | KeyGloasBeaconVote (id : CommitteeInstanceId)
  | KeyAggregatorCommittee (id : AggregatorCommitteeInstanceId).

#[export] Instance InstanceKey_eq_dec : EqDecision InstanceKey.
Proof. solve_decision. Defined.

Definition key_role (key : InstanceKey) : Role :=
  match key with
  | KeyProposer id => duty_role (pi_duty id)
  | KeyBeaconVote _ | KeyGloasBeaconVote _ => Role.Committee
  | KeyAggregatorCommittee _ => Role.AggregatorCommittee
  end.

Definition key_executor (key : InstanceKey) : DutyExecutor :=
  match key with
  | KeyProposer id => ExecValidator (pi_validator id)
  | KeyBeaconVote id | KeyGloasBeaconVote id => ExecCommittee (ci_committee id)
  | KeyAggregatorCommittee id => ExecCommittee (ai_committee id)
  end.

Definition key_height (key : InstanceKey) : N :=
  match key with
  | KeyProposer id => pi_instance_height id
  | KeyBeaconVote id | KeyGloasBeaconVote id => ci_instance_height id
  | KeyAggregatorCommittee id => ai_instance_height id
  end.

(** The byte arrays have their lengths. *)
Definition key_wf (key : InstanceKey) : Prop :=
  match key_executor key with
  | ExecValidator pk => length pk = 48
  | ExecCommittee id => length id = 32
  end.

Lemma key_executor_matches key : key_wf key → executor_matches (key_role key) (key_executor key).
Proof. unfold key_wf. destruct key as [[? [] ?]|?|?|?]; by split. Qed.

Section routing.
Context {PCD BV GBV ACD : Type}.
Context (eth_slots_per_epoch : positive) (gloas_enabled_at_slot : Slot → bool).
Context (pk_deserialize : bytes → option PublicKeyBytes).
Abbreviation Manager := (QbftManager (ProposerConsensusData:=PCD) (BeaconVote:=BV)
  (GloasBeaconVote:=GBV) (AggregatorCommitteeConsensusData:=ACD)).
Implicit Types m : Manager.

Definition network_messages {D} (queue : list (QbftMessageKind (D:=D))) : list WrappedQbftMessage :=
  omap (λ k, match k with NetworkMessage w => Some w | Initialize _ => None end) queue.

(** The network messages sent to an instance so far. *)
Definition inbox m (key : InstanceKey) : list WrappedQbftMessage :=
  match key with
  | KeyProposer id => network_messages (default [] (proposer_consensus_data_instances m !! id))
  | KeyBeaconVote id => network_messages (default [] (beacon_vote_instances m !! id))
  | KeyGloasBeaconVote id => network_messages (default [] (gloas_beacon_vote_instances m !! id))
  | KeyAggregatorCommittee id =>
      network_messages (default [] (aggregator_committee_instances m !! id))
  end.

Abbreviation Decidable_ D := (QbftDecidable (ProposerConsensusData:=PCD) (BeaconVote:=BV)
  (GloasBeaconVote:=GBV) (AggregatorCommitteeConsensusData:=ACD) D).

(** Everything on the queues is in order. *)
Definition queue_ok {D} (queue : list (QbftMessageKind (D:=D))) : Prop := Forall kind_ok queue.

Record queues_ok m : Prop := {
  qo_proposer : map_Forall (λ _, queue_ok) (proposer_consensus_data_instances m);
  qo_beacon_vote : map_Forall (λ _, queue_ok) (beacon_vote_instances m);
  qo_gloas : map_Forall (λ _, queue_ok) (gloas_beacon_vote_instances m);
  qo_aggregator : map_Forall (λ _, queue_ok) (aggregator_committee_instances m);
}.

(** A kind of data together with the keys of its instances: what the four maps of the
    manager promise. *)
Class Routable (D : Type) (H : Decidable_ D) := {
  key_of : @decidable_id _ _ _ _ D H → InstanceKey;
  key_of_inj :: Inj (=) (=) key_of;
  key_of_height : ∀ id, key_height (key_of id) = instance_height id;
  key_of_message_id : ∀ domain id,
    message_id_new domain (key_role (key_of id)) (key_executor (key_of id)) =
    decidable_message_id domain id;
  get_set_map : ∀ map m, get_map (set_map map m) = map;
  inbox_own : ∀ m id, inbox m (key_of id) = network_messages (default [] (get_map m !! id));
  inbox_other : ∀ map m key, (∀ id, key ≠ key_of id) → inbox (set_map map m) key = inbox m key;
  key_of_range : ∀ key, (∃ id, key = key_of id) ∨ ∀ id, key ≠ key_of id;
  queues_get_map : ∀ m, queues_ok m → map_Forall (λ _, queue_ok) (get_map m);
  queues_set_map : ∀ map m, queues_ok m → map_Forall (λ _, queue_ok) map →
    queues_ok (set_map map m);
  set_map_schedule : ∀ map m, mg_fork_schedule (set_map map m) = mg_fork_schedule m;
}.

Ltac solve_routable :=
  first [ done
        | intros ? ? [k|k|k|k] Hk; first [done | by destruct (Hk k)]
        | by intros m []
        | by intros map m [] ?; split
        | intros [k|k|k|k]; first [left; by eexists | right; by intros ?]
        | by intros ? ? [=] ].

#[export] Program Instance proposer_routable : Routable PCD proposer_decidable :=
  {| key_of := KeyProposer |}.
Solve All Obligations with solve_routable.
#[export] Program Instance beacon_vote_routable : Routable BV beacon_vote_decidable :=
  {| key_of := KeyBeaconVote |}.
Solve All Obligations with solve_routable.
#[export] Program Instance gloas_beacon_vote_routable : Routable GBV gloas_beacon_vote_decidable :=
  {| key_of := KeyGloasBeaconVote |}.
Solve All Obligations with solve_routable.
#[export] Program Instance aggregator_committee_routable :
    Routable ACD aggregator_committee_decidable :=
  {| key_of := KeyAggregatorCommittee |}.
Solve All Obligations with solve_routable.

(** The kind of instance is in use at its height. *)
Definition key_active m (key : InstanceKey) : Prop :=
  match key with
  | KeyProposer _ => True
  | KeyBeaconVote id => gloas_enabled_at_slot (ci_instance_height id) = false
  | KeyGloasBeaconVote id => gloas_enabled_at_slot (ci_instance_height id) = true
  | KeyAggregatorCommittee id =>
      ∃ fork, active_fork (mg_fork_schedule m)
                (slot_epoch (ai_instance_height id) eth_slots_per_epoch) = Some fork ∧
              fork_le Boole fork = true
  end.

(** The message names the instance. *)
Definition addressed (key : InstanceKey) (full : SignedSSVMessage) (msg : Messages.QbftMessage) : Prop :=
  message_id_role (msg_id (ssv_message full)) = Some (key_role key) ∧
  message_id_duty_executor pk_deserialize (msg_id (ssv_message full)) = Some (key_executor key) ∧
  height msg = key_height key.

(** [w] was added to the inbox of [key] and nothing else changed. *)
Definition delivered (key : InstanceKey) (w : WrappedQbftMessage) m m' : Prop :=
  ∀ k, inbox m' k = inbox m k ++ if decide (k = key) then [w] else [].

(** Handing a message to an instance, per kind of data. *)
Lemma alter_spawned `{Countable K} {D} (map : gmap K (list (QbftMessageKind (D:=D)))) (id k : K) w :
  let map' := match map !! id with Some _ => map | None => <[id := []]> map end in
  network_messages (default [] (alter (λ queue, queue ++ [NetworkMessage w]) id map' !! k)) =
  network_messages (default [] (map !! k)) ++ if decide (k = id) then [w] else [].
Proof.
  intros map'. assert (is_Some (map' !! id) ∧ ∀ k, default [] (map' !! k) = default [] (map !! k)) as [[q Hq] Hd].
  { unfold map'. destruct (map !! id) as [q|] eqn:Hq; [by rewrite Hq|]. split; [by simplify_map_eq|].
    intros k'. destruct (decide (k' = id)) as [->|]; simplify_map_eq; by rewrite ?Hq. }
  destruct (decide (k = id)) as [->|Hne].
  - rewrite lookup_alter, decide_True by done. rewrite Hq. cbn. unfold network_messages.
    rewrite omap_app. cbn. f_equal. specialize (Hd id). rewrite Hq in Hd. cbn in Hd. by rewrite Hd.
  - rewrite lookup_alter_ne by done. by rewrite Hd, app_nil_r.
Qed.

(** The manager once the instance exists. *)
Definition spawned `{!Decidable_ D} (id : @decidable_id _ _ _ _ D _) m : Manager :=
  match get_map m !! id with
  | Some _ => m
  | None => set_map (<[id := []]> (get_map m)) m
  end.

Lemma pass_to_instance_eq `{!Decidable_ D} (id : @decidable_id _ _ _ _ D _) w m :
  pass_to_instance None id w m =
    (Ok tt, set_map (alter (λ queue, queue ++ [NetworkMessage w]) id (get_map (spawned id m)))
              (spawned id m)).
Proof. done. Qed.

Lemma get_map_spawned `{!Decidable_ D} `{!Routable D _} (id : @decidable_id _ _ _ _ D _) m :
  get_map (spawned id m) =
    match get_map m !! id with Some _ => get_map m | None => <[id := []]> (get_map m) end.
Proof. unfold spawned. destruct (get_map m !! id); [done|apply get_set_map]. Qed.

(** A message accepted by the processor is delivered to its instance. *)
Lemma pass_delivered `{!Decidable_ D} `{!Routable D _} (id : @decidable_id _ _ _ _ D _) w m :
  (pass_to_instance None id w m).1 = Ok tt ∧
  delivered (key_of id) w m (pass_to_instance None id w m).2.
Proof.
  rewrite pass_to_instance_eq. split; [done|]. intros key. cbn [snd].
  destruct (key_of_range key) as [[k ->]|Hk].
  - rewrite !inbox_own, get_set_map, get_map_spawned, alter_spawned.
    destruct (decide (k = id)) as [->|Hne]; [by rewrite decide_True|].
    rewrite decide_False; [done|]. by intros ?%(inj key_of).
  - rewrite inbox_other, decide_False by done. rewrite app_nil_r.
    unfold spawned. destruct (get_map m !! id); [done|]. by apply inbox_other.
Qed.

Abbreviation route := (receive_data (ProposerConsensusData:=PCD) (BeaconVote:=BV)
  (GloasBeaconVote:=GBV) (AggregatorCommitteeConsensusData:=ACD)
  eth_slots_per_epoch gloas_enabled_at_slot pk_deserialize).

(** What [receive_data] does with a message when the processor accepts work. *)
Definition routing_result (full : SignedSSVMessage) (msg : Messages.QbftMessage) m
    (r : outcome ManagerError unit * Manager) : Prop :=
  match r with
  | (Ok _, m') => ∃ key, addressed key full msg ∧ key_active m key ∧
      delivered key {| signed_message := full; qbft_message := msg |} m m'
  | (Err _, m') => m' = m ∧ ∀ key, addressed key full msg → ¬ key_active m key
  | (Panic, m') =>
      m' = m ∧ message_id_role (msg_id (ssv_message full)) = Some Role.AggregatorCommittee ∧
      active_fork (mg_fork_schedule m) (slot_epoch (height msg) eth_slots_per_epoch) = None
  end.

Lemma pass_routed `{!Decidable_ D} `{!Routable D _} (id : @decidable_id _ _ _ _ D _) full msg m :
  addressed (key_of id) full msg → key_active m (key_of id) →
  routing_result full msg m
    (pass_to_instance None id {| signed_message := full; qbft_message := msg |} m).
Proof.
  intros Ha Hk. destruct (pass_delivered id {| signed_message := full; qbft_message := msg |} m) as [_ Hd].
  rewrite pass_to_instance_eq in Hd |- *. by exists (key_of id).
Qed.

Lemma no_key full msg m e :
  (∀ key, addressed key full msg → False) → routing_result full msg m (throw e m).
Proof. intros Hn. split; [done|]. intros key Ha _. by eapply Hn. Qed.

(** No instance has this role and executor. *)
Ltac no_addressee :=
  intros [[? [] ?]|?|?|?] (Hr & He & _); unfold key_role, key_executor, duty_role in Hr, He;
  cbn in Hr, He; congruence.

Lemma receive_data_spec full msg m : routing_result full msg m (route None full msg m).
Proof.
  unfold receive_data.
  destruct (message_id_duty_executor pk_deserialize (msg_id (ssv_message full))) as [[committee|validator]|] eqn:Hex.
  - destruct (message_id_role (msg_id (ssv_message full))) as [role|] eqn:Hrole.
    2: { apply no_key. intros key (Hr & _). by rewrite Hrole in Hr. }
    destruct role; try (apply no_key; no_addressee).
    + destruct (gloas_enabled_at_slot (height msg)) eqn:Hg;
        (apply pass_routed; [by unfold addressed; rewrite Hrole, Hex|done]).
    + unfold mbind, action_bind, gets, lift. cbv beta iota.
      destruct (active_fork _ _) as [fork|] eqn:Hf; cbn [expect]; [|by split].
      destruct (fork_le Boole fork) eqn:Hle; cbn [negb].
      * apply pass_routed; [by unfold addressed; rewrite Hrole, Hex|]. by exists fork.
      * split; [done|]. intros [[? [] ?]|?|?|id] (Hr & He & Hh) Hk; try by rewrite Hrole in Hr.
        destruct Hk as (fork' & Hf' & Hle'). cbn in Hh. rewrite <- Hh in Hf'. congruence.
  - destruct (message_id_role (msg_id (ssv_message full))) as [role|] eqn:Hrole.
    2: { apply no_key. intros key (Hr & _). by rewrite Hrole in Hr. }
    destruct role; try (apply no_key; no_addressee).
    all: apply (pass_routed (D:=PCD)); [by unfold addressed; rewrite Hrole, Hex|done].
  - apply no_key. intros key (_ & He & _). by rewrite Hex in He.
Qed.

(** ** From one operator to another *)

(** [PublicKeyBytes::deserialize] keeps the bytes. *)
Hypothesis Hpk : ∀ pk, length pk = 48 → pk_deserialize pk = Some pk.

Lemma own_message_addressed key domain full msg :
  key_wf key → length domain = 4 →
  msg_id (ssv_message full) = message_id_new domain (key_role key) (key_executor key) →
  height msg = key_height key → addressed key full msg.
Proof.
  intros Hwf Hd Hid Hh.
  destruct (message_id_roundtrip pk_deserialize domain (key_role key) (key_executor key) Hpk Hd
    (key_executor_matches key Hwf)) as (_ & _ & Hr & He).
  unfold addressed. by rewrite Hid, Hr, He.
Qed.

(** The 16 bytes before a committee id are not read: identifiers that differ there name
    the same instance, although the validator counts messages per identifier. *)
Lemma padding_ignored id domain pad full msg :
  length domain = 4 → length pad = 16 → length (ci_committee id) = 32 →
  msg_id (ssv_message full) = domain ++ Role.role_to_bytes Role.Committee ++ pad ++ ci_committee id →
  height msg = ci_instance_height id → addressed (KeyBeaconVote id) full msg.
Proof.
  intros Hd Hp Hc Hid Hh. unfold addressed. rewrite Hid.
  do 4 (destruct domain as [|? domain]; [done|]). destruct domain; [|done].
  do 16 (destruct pad as [|? pad]; [done|]). destruct pad; [|done].
  unfold message_id_duty_executor, message_id_role, slice. cbn. rewrite drop_0.
  by rewrite decide_True.
Qed.

(** At most one instance is named and in use. *)
Lemma addressed_unique k k' full msg m :
  addressed k full msg → key_active m k → addressed k' full msg → key_active m k' → k = k'.
Proof.
  intros (Hr & He & Hh) Ha (Hr' & He' & Hh') Ha'. rewrite Hr in Hr'. rewrite He in He'.
  destruct k as [[v d h]|[c h]|[c h]|[c h]], k' as [[v' d' h']|[c' h']|[c' h']|[c' h']];
    cbn in *; simplify_eq; try congruence.
  all: try (destruct d, d'; cbn in *; simplify_eq; congruence).
  all: by destruct d.
Qed.

Lemma addressed_delivered key full msg m :
  addressed key full msg → key_active m key →
  (route None full msg m).1 = Ok tt ∧
  delivered key {| signed_message := full; qbft_message := msg |} m (route None full msg m).2.
Proof.
  intros Ha Hk. pose proof (receive_data_spec full msg m) as Hs.
  destruct (route None full msg m) as [[[]|e|] m']; cbn in Hs |- *.
  - split; [done|]. destruct Hs as (key' & Ha' & Hk' & Hd).
    by rewrite (addressed_unique key key' full msg m).
  - destruct Hs as [_ Hs]. by destruct (Hs key).
  - destruct Hs as (_ & Hr & Hf). destruct Ha as (Hr' & _ & Hh).
    rewrite Hr in Hr'. destruct key as [[? [] ?]|?|?|id]; cbn in *; try done.
    destruct Hk as (fork & Hf' & _). rewrite Hh in Hf. congruence.
Qed.

(** ** Starting instances *)

Abbreviation domain_at m height := (domain_type_for_instance eth_slots_per_epoch m height).

(** What a successful [decide_instance] puts on the queue. *)
Definition initialization_of `{!Decidable_ D} (id : @decidable_id _ _ _ _ D _) (initial : D)
    (validator : D → D → bool) (mode : TimeoutMode) (members : list OperatorId) (cb : Callback)
    (m : Manager) (init : QbftInitialization (D:=D)) : Prop :=
  ∃ domain operator_id config,
    domain_at m (instance_height id) = Some domain ∧ mg_operator_id m = Some operator_id ∧
    instance_config m operator_id (instance_height id) (decidable_message_id domain id) members
      = Ok config ∧
    init = {| init_initial := initial; init_validator := validator;
              init_message_id := decidable_message_id domain id; init_timeout_mode := mode;
              init_config := config; init_on_completed := cb |}.

(** The manager after some work was queued for an instance. *)
Definition queued `{!Decidable_ D} (id : @decidable_id _ _ _ _ D _)
    (k : QbftMessageKind (D:=D)) m : Manager :=
  set_map (alter (λ queue, queue ++ [k]) id (get_map (spawned id m))) (spawned id m).

(** [decide_instance] changes nothing, or spawns the instance, and on success hands it
    the initialization. *)
Lemma decide_instance_spec `{!Decidable_ D} (id : @decidable_id _ _ _ _ D _)
    processor initial validator mode members cb m :
  match decide_instance eth_slots_per_epoch processor id initial validator mode members cb m with
  | (Ok _, m') => ∃ init, initialization_of id initial validator mode members cb m init ∧
                          m' = queued id (Initialize init) m
  | (_, m') => m' = m ∨ m' = spawned id m
  end.
Proof.
  unfold decide_instance, mbind, action_bind, gets, lift.
  destruct (mg_operator_id m) as [op|] eqn:Hop; cbn [ok_or]; [|by left].
  destruct (domain_at m (instance_height id)) as [domain|] eqn:Hd; cbn [expect]; [|by left].
  destruct (instance_config m op _ _ members) as [config|e|] eqn:Hc; [|by left..].
  destruct processor as [e|]; [by right|]. cbn. eexists. split; [|done].
  by exists domain, op, config.
Qed.

(** A configuration from the manager. *)
Lemma instance_config_ok m op ht mid members config :
  instance_config m op ht mid members = Ok config →
  config_wf config ∧ cfg_instance_height config = ht ∧ cfg_committee_members config = members ∧
  ∃ role, message_id_role mid = Some role ∧ Role.max_round role = Some (cfg_max_rounds config).
Proof.
  unfold instance_config. intros (fork & _ & H)%bind_ok.
  apply bind_ok in H as (max & Hmax%ok_or_ok & H). apply map_err_ok, config_build_ok in H as [<- Hwf].
  apply bind_Some in Hmax as (role & Hr & Hm). split_and!; [done..|]. by exists role.
Qed.

Lemma initialization_kind_ok `{!Decidable_ D} `{!Routable D _} (id : @decidable_id _ _ _ _ D _)
    initial validator mode members cb m init :
  key_wf (key_of id) → domains_wf (mg_fork_schedule m) →
  initialization_of id initial validator mode members cb m init → kind_ok (Initialize init).
Proof.
  intros Hwf Hds (domain & op & config & Hd & _ & (Hc & _)%instance_config_ok & ->). split; [done|].
  cbn. rewrite <- key_of_message_id. unfold domain_type_for_instance in Hd.
  apply fmap_Some in Hd as (fc & Hfc & ->).
  by apply (message_id_roundtrip Some); [|eapply Hds|apply key_executor_matches].
Qed.

(** ** The queues stay in order *)

Lemma spawned_queues_ok `{!Decidable_ D} `{!Routable D _} (id : @decidable_id _ _ _ _ D _) m :
  queues_ok m → queues_ok (spawned id m).
Proof.
  intros Hq. unfold spawned. destruct (get_map m !! id); [done|].
  apply queues_set_map; [done|]. apply map_Forall_insert_2; [constructor|by apply queues_get_map].
Qed.

Lemma queued_queues_ok `{!Decidable_ D} `{!Routable D _} (id : @decidable_id _ _ _ _ D _) k m :
  queues_ok m → kind_ok k → queues_ok (queued id k m).
Proof.
  intros Hq%(spawned_queues_ok id) Hk. apply queues_set_map; [done|].
  intros id' queue. rewrite lookup_alter. case_decide as He; [|by apply (queues_get_map _ Hq)].
  intros (queue' & Hl & ->)%fmap_Some. apply Forall_app_2; [by apply (queues_get_map _ Hq _ _ Hl)|].
  by constructor.
Qed.

Lemma pass_queues_ok `{!Decidable_ D} `{!Routable D _} processor (id : @decidable_id _ _ _ _ D _) w m :
  queues_ok m → round (qbft_message w) ≠ 0%N → queues_ok (pass_to_instance processor id w m).2.
Proof.
  intros Hq Hr. destruct processor as [e|].
  - by apply spawned_queues_ok.
  - rewrite pass_to_instance_eq. by apply (queued_queues_ok id (NetworkMessage w)).
Qed.

Lemma spawned_schedule `{!Decidable_ D} `{!Routable D _} (id : @decidable_id _ _ _ _ D _) m :
  mg_fork_schedule (spawned id m) = mg_fork_schedule m.
Proof. unfold spawned. destruct (get_map m !! id); [done|]. apply set_map_schedule. Qed.

Lemma pass_schedule `{!Decidable_ D} `{!Routable D _} processor (id : @decidable_id _ _ _ _ D _) w m :
  mg_fork_schedule (pass_to_instance processor id w m).2 = mg_fork_schedule m.
Proof.
  destruct processor as [e|]; [apply (spawned_schedule id)|].
  rewrite pass_to_instance_eq. cbn [snd]. by rewrite set_map_schedule, spawned_schedule.
Qed.

(** A message changes one map only, through [pass_to_instance]. *)
Lemma route_case (P : Manager → Prop) processor full msg m :
  P m →
  (∀ D (H : Decidable_ D) (R : Routable D H) id w, qbft_message w = msg →
     P (pass_to_instance processor id w m).2) →
  P (route processor full msg m).2.
Proof.
  intros Hm Hp. unfold receive_data, mbind, action_bind, gets, lift.
  destruct (message_id_duty_executor _ _) as [[committee|validator]|]; [| |done].
  - destruct (message_id_role _) as [[]|]; try done.
    + destruct (gloas_enabled_at_slot _); by apply Hp; [apply _|].
    + destruct (active_fork _ _) as [fork|]; cbn [expect]; [|done].
      destruct (fork_le Boole fork); cbn [negb]; [by apply Hp; [apply _|]|done].
  - destruct (message_id_role _) as [[]|]; try done; by apply (Hp PCD); [apply _|].
Qed.

Lemma route_queues_ok processor full msg m :
  queues_ok m → round msg ≠ 0%N → queues_ok (route processor full msg m).2.
Proof.
  intros Hq Hr. apply route_case; [done|]. intros D H R id w Hw. apply pass_queues_ok; [done|].
  by rewrite Hw.
Qed.

Lemma cleaner_queues_ok now m : queues_ok m → queues_ok (cleaner_pass now m).
Proof.
  intros [H1 H2 H3 H4]. destruct now as [slot|]; [|done].
  split; cbn; intros id queue [Hl _]%map_lookup_filter_Some; eauto.
Qed.

(** *** What the inboxes hold *)

Lemma spawned_inbox `{!Decidable_ D} `{!Routable D _} (id : @decidable_id _ _ _ _ D _) m key :
  inbox (spawned id m) key = inbox m key.
Proof.
  unfold spawned. destruct (get_map m !! id) as [q|] eqn:Hq; [done|].
  destruct (key_of_range key) as [[k ->]|Hk]; [|by apply inbox_other].
  rewrite !inbox_own, get_set_map. destruct (decide (k = id)) as [->|]; simplify_map_eq; by rewrite ?Hq.
Qed.

Lemma route_inbox processor full msg m key w :
  w ∈ inbox (route processor full msg m).2 key →
  w ∈ inbox m key ∨
  w = {| signed_message := full; qbft_message := msg |} ∧ addressed key full msg.
Proof.
  destruct processor as [e|].
  - intros Hw. left. revert Hw. apply (route_case (λ m', w ∈ inbox m' key → w ∈ inbox m key)); [done|].
    intros D H R id w' _. change (pass_to_instance (Some e) id w' m).2 with (spawned id m).
    by rewrite spawned_inbox.
  - pose proof (receive_data_spec full msg m) as Hs.
    destruct (route None full msg m) as [[[]|e|] m']; cbn in Hs |- *.
    + destruct Hs as (key' & Ha & _ & Hd). rewrite Hd. intros [Hw|Hw]%elem_of_app; [by left|].
      case_decide; subst; [|by apply elem_of_nil in Hw].
      apply list_elem_of_singleton in Hw. by right.
    + destruct Hs as [-> _]. by left.
    + destruct Hs as [-> _]. by left.
Qed.

Lemma queued_inbox `{!Decidable_ D} `{!Routable D _} (id : @decidable_id _ _ _ _ D _) init m key :
  inbox (queued id (Initialize init) m) key = inbox m key.
Proof.
  rewrite <- (spawned_inbox id m). unfold queued.
  destruct (key_of_range key) as [[k ->]|Hk]; [|by apply inbox_other].
  rewrite !inbox_own, get_set_map. destruct (decide (k = id)) as [->|Hne].
  - rewrite lookup_alter, decide_True by done.
    destruct (get_map (spawned id m) !! id) as [q|]; cbn; [|done].
    unfold network_messages. by rewrite omap_app, app_nil_r.
  - by rewrite lookup_alter_ne.
Qed.

Lemma decide_instance_inbox `{!Decidable_ D} `{!Routable D _} (id : @decidable_id _ _ _ _ D _)
    processor initial validator mode members cb m key :
  inbox (decide_instance eth_slots_per_epoch processor id initial validator mode members cb m).2 key =
  inbox m key.
Proof.
  pose proof (decide_instance_spec id processor initial validator mode members cb m) as Hs.
  destruct (decide_instance _ _ _ _ _ _ _ _ m) as [[[]|e|] m'']; cbn.
  - destruct Hs as (init & Hi & ->). apply queued_inbox.
  - destruct Hs as [->| ->]; [done|]. apply spawned_inbox.
  - destruct Hs as [->| ->]; [done|]. apply spawned_inbox.
Qed.

Lemma cleaner_inbox now m key w : w ∈ inbox (cleaner_pass now m) key → w ∈ inbox m key.
Proof.
  destruct now as [slot|]; [|done].
  assert (∀ `{Countable K} {D} (P : K * list (QbftMessageKind (D:=D)) → Prop) `{∀ x, Decision (P x)}
    (map : gmap K (list (QbftMessageKind (D:=D)))) id,
    w ∈ network_messages (default [] (filter P map !! id)) →
    w ∈ network_messages (default [] (map !! id))) as Hf.
  { intros K ?? D P ? map id. destruct (filter P map !! id) as [q|] eqn:Hq; cbn; [|by intros ?%elem_of_nil].
    apply map_lookup_filter_Some in Hq as [-> _]. done. }
  destruct key as [k|k|k|k]; cbn; apply Hf.
Qed.

(** What can happen to the manager: a caller starts an instance, a validated message
    arrives, the cleaner runs. *)
Inductive manager_step : Manager → Manager → Prop :=
  | step_decide D (H : Decidable_ D) (R : Routable D H) processor id initial validator mode members cb m :
      key_wf (key_of id) →
      manager_step m (decide_instance eth_slots_per_epoch processor id initial validator mode
                        members cb m).2
  | step_receive processor full msg m :
      round msg ≠ 0%N → manager_step m (route processor full msg m).2
  | step_clean now m : manager_step m (cleaner_pass now m).

Lemma manager_step_ok m m' :
  manager_step m m' → domains_wf (mg_fork_schedule m) → queues_ok m →
  domains_wf (mg_fork_schedule m') ∧ queues_ok m'.
Proof.
  intros Hs Hd Hq. destruct Hs as [D Hdec Hrt processor id initial validator mode members cb m Hwf
    |processor full msg m Hr|now m].
  - pose proof (decide_instance_spec id processor initial validator mode members cb m) as Hs.
    destruct (decide_instance _ _ _ _ _ _ _ _ m) as [[[]|e|] m'']; cbn.
    + destruct Hs as (init & Hi & ->). unfold queued. rewrite set_map_schedule, spawned_schedule. split; [done|].
      apply queued_queues_ok; [done|]. by eapply initialization_kind_ok.
    + destruct Hs as [->| ->]; [done|]. rewrite spawned_schedule. split; [done|]. by apply spawned_queues_ok.
    + destruct Hs as [->| ->]; [done|]. rewrite spawned_schedule. split; [done|]. by apply spawned_queues_ok.
  - split; [|by apply route_queues_ok]. apply route_case; [done|].
    intros D H R id w _. by rewrite pass_schedule.
  - split; [by destruct now|by apply cleaner_queues_ok].
Qed.

(** the manager only queues work the instances can handle.  Whatever callers start
    instances, validated messages arrive and passes of the cleaner run, every
    initialization on a queue has a configuration the builder accepted and an identifier
    of 56 bytes, and every message has a non-zero round: the conditions under which an
    instance task answers all its callers and never panics. *)
Theorem manager_queues_ok operator_id slots_per_epoch schedule m :
  domains_wf schedule →
  rtc manager_step (manager_new operator_id slots_per_epoch schedule) m → queues_ok m.
Proof.
  intros Hd Hsteps.
  enough (domains_wf (mg_fork_schedule m) ∧ queues_ok m) by naive_solver.
  revert m Hsteps. apply (rtc_ind_r (λ m, domains_wf (mg_fork_schedule m) ∧ queues_ok m)).
  - split; [done|]. split; cbn; apply map_Forall_empty.
  - intros m m' _ Hs [Hm Hq]. by eapply manager_step_ok.
Qed.

(** A pass of the cleaner keeps exactly the instances from the previous slot on. *)
Lemma cleaner_pass_lookup slot m id :
  beacon_vote_instances (cleaner_pass (Some slot) m) !! id =
    if decide (slot - QBFT_RETAIN_SLOTS <= ci_instance_height id)%N
    then beacon_vote_instances m !! id else None.
Proof.
  cbn. case_decide as Hd.
  - apply option_eq. intros queue. rewrite map_lookup_filter_Some. cbn. naive_solver.
  - apply map_lookup_filter_None_2. right. intros queue _. done.
Qed.
End routing.

(** ** What an instance sends *)

Section peers.
Context {PCD BV GBV ACD : Type}.
Context (eth_slots_per_epoch : positive) (gloas_enabled_at_slot : Slot → bool).
Context (pk_deserialize : bytes → option PublicKeyBytes).
Context {D : Type} `{!QbftData D} {Codec : SszCodec}.
Abbreviation Manager := (QbftManager (ProposerConsensusData:=PCD) (BeaconVote:=BV)
  (GloasBeaconVote:=GBV) (AggregatorCommitteeConsensusData:=ACD)).
Context {H : QbftDecidable (ProposerConsensusData:=PCD) (BeaconVote:=BV)
  (GloasBeaconVote:=GBV) (AggregatorCommitteeConsensusData:=ACD) D} {R : Routable D H}.

#[local] Opaque receive end_round.

(** Everything an instance sends carries its identifier and height. *)
Lemma instance_outbox init cs u :
  u ∈ qb_outbox (run_calls cs (instance_of init : Qbft DefaultLeaderFunction D)) →
  msg_id (unsigned_ssv_message (unsigned_message u)) = init_message_id init ∧
  height (unsigned_qbft_message u) = cfg_instance_height (init_config init).
Proof.
  intros Hu.
  assert (outbox_ok (run_calls cs (instance_of init))) as Ho.
  { clear Hu. destruct (instance_of_settled init []) as [Ho _]. revert Ho. cbn [fmap list_fmap run_calls foldl].
    generalize (instance_of init). induction cs as [|c cs IH]; intros q Hq; [done|].
    cbn [run_calls foldl]. apply IH. destruct c as [w|].
    - destruct (receive_steps w q) as [Ho _]. by apply Ho.
    - destruct (end_round_steps q) as [Ho _]. by apply Ho. }
  apply (proj1 (Forall_forall _ _) Ho) in Hu as (_ & Hid & Hh).
  destruct (run_calls_extends cs (instance_of init : Qbft DefaultLeaderFunction D)) as [_ Hi1 Hh1 _ _ _ _ _ _ _ _ _].
  destruct (qbft_new_extends (init_config init) (init_initial init) (init_validator init)
    (init_message_id init)) as [_ Hi2 Hh2 _ _ _ _ _ _ _ _ _].
  unfold instance_of in *. rewrite Hid, Hh, Hi1, Hh1, Hi2, Hh2. done.
Qed.

(** C24: instances talk to their peers.  What an instance started by one operator's manager
    sends, at any point of its run, is handed by every other operator's manager, once
    signed and if the instance's kind is in use there, to the instance with the same
    identity, and to no other. *)
Theorem instance_messages_reach_peers id initial validator mode members cb
    (sender receiver : Manager) init cs u signed :
  (∀ pk, length pk = 48 → pk_deserialize pk = Some pk) →
  key_wf (key_of id) → domains_wf (mg_fork_schedule sender) →
  initialization_of eth_slots_per_epoch id initial validator mode members cb sender init →
  u ∈ qb_outbox (run_calls cs (instance_of init : Qbft DefaultLeaderFunction D)) →
  ssv_message signed = unsigned_ssv_message (unsigned_message u) →
  key_active eth_slots_per_epoch gloas_enabled_at_slot receiver (key_of id) →
  let r := receive_data eth_slots_per_epoch gloas_enabled_at_slot pk_deserialize None
             signed (unsigned_qbft_message u) receiver in
  r.1 = Ok tt ∧ delivered (key_of id) (message_callback u signed) receiver r.2.
Proof.
  intros Hpk Hwf Hds (domain & op & config & Hd & _ & (_ & Hch & _)%instance_config_ok & ->)
    [Hid Hh]%instance_outbox Hsig Hact.
  cbn in Hid, Hh. apply fmap_Some in Hd as (fc & Hfc & ->).
  apply addressed_delivered; [|done].
  eapply own_message_addressed; [done..|by eapply Hds| |].
  - by rewrite Hsig, Hid, <- key_of_message_id.
  - by rewrite Hh, Hch, key_of_height.
Qed.
End peers.

(** ** On concrete managers *)

Module SampleManager.
#[local] Existing Instance sample_data.
#[local] Existing Instance SampleTotal.sized_codec.

(** Consensus values are numbers; Gloas is far away. *)
Abbreviation Manager := (QbftManager (ProposerConsensusData:=N) (BeaconVote:=N)
  (GloasBeaconVote:=N) (AggregatorCommitteeConsensusData:=N)).
Definition sample_gloas (slot : Slot) : bool := (1000000 <=? slot)%N.

Definition sample_manager (i : OperatorId) : Manager := manager_new (Some i) 32 sample_schedule.
Definition sample_instance : CommitteeInstanceId :=
  {| ci_committee := replicate 32 x2a; ci_instance_height := 8 |}.

(** Operator 1 leads round 1 of this instance and starts it with the value 20. *)
Abbreviation sample_decide := (decide_instance (QbftDecidable0:=beacon_vote_decidable) 32 None sample_instance
  20%N (λ _ _, true) (SlotTime 0) sample_committee 7%N).

Lemma manager_queues_ok_witness :
  queues_ok (cleaner_pass (Some 9%N) (sample_decide (sample_manager 1)).2).
Proof.
  apply (manager_queues_ok 32 sample_gloas Some (Some 1%N) 32 sample_schedule).
  - exact sample_domains.
  - apply (rtc_l _ _ (sample_decide (sample_manager 1)).2).
    { apply (step_decide 32 sample_gloas Some N beacon_vote_decidable beacon_vote_routable). done. }
    eapply rtc_l; [apply step_clean|]. apply rtc_refl.
Defined.

(** What operator 1 starts the instance with. *)
Definition sample_initialization : QbftInitialization (D:=N) :=
  {| init_initial := 20%N; init_validator := λ _ _, true;
     init_message_id := message_id_new [x00; x00; x00; x01] Role.Committee
                          (ExecCommittee (replicate 32 x2a));
     init_timeout_mode := SlotTime 0;
     init_config := with_max_rounds 12 (config_builder_new 1 8 sample_committee
                      {| slots_per_epoch := 32; include_epoch_shift := false |});
     init_on_completed := 7 |}.

Lemma sample_initialization_ok :
  initialization_of (PCD:=N) (BV:=N) (GBV:=N) (ACD:=N) (Decidable_0:=beacon_vote_decidable) 32
    sample_instance 20%N (λ _ _, true) (SlotTime 0) sample_committee 7%N (sample_manager 1)
    sample_initialization.
Proof.
  exists [x00; x00; x00; x01], 1%N,
    (with_max_rounds 12 (config_builder_new 1 8 sample_committee
       {| slots_per_epoch := 32; include_epoch_shift := false |})).
  split_and!; by vm_compute.
Qed.

(** Its proposal reaches operator 3. *)
Lemma instance_messages_reach_peers_witness :
  ∃ u, u ∈ qb_outbox (instance_of sample_initialization) ∧
    let signed := signed_message (sign 1 u) in
    let r := receive_data 32 sample_gloas Some None signed (unsigned_qbft_message u) (sample_manager 3) in
    r.1 = Ok tt ∧
    delivered (KeyBeaconVote sample_instance) (message_callback u signed) (sample_manager 3) r.2.
Proof.
  destruct (qb_outbox (instance_of sample_initialization)) as [|u us] eqn:Hu; [by vm_compute in Hu|].
  exists u. split; [by left|]. cbv zeta.
  apply (instance_messages_reach_peers (R:=beacon_vote_routable) 32 sample_gloas Some sample_instance
    20%N (λ _ _, true) (SlotTime 0) sample_committee 7%N (sample_manager 1) (sample_manager 3)
    sample_initialization []).
  - done.
  - done.
  - exact sample_domains.
  - exact sample_initialization_ok.
  - cbn [run_calls foldl]. rewrite Hu. by left.
  - done.
  - done.
Defined.
End SampleManager.
