(* ===== verification/Processor.v ===== *)
(** * The processor

    [anchor/processor/src]: closures are sent to one of two bounded queues; a loop takes
    them off, the urgent queue first but only with one of a fixed number of permits, skips
    those that have expired, and starts the others.  The theorems: the permits are
    accounted for at every moment, each accepted item is taken exactly once, in the order
    of its queue, and started unless it has expired; and whenever something can be served
    it is, an urgent item before any other. *)

From S2P Require Import Prelude.

(** [enum QueueKind] *)
Inductive QueueKind := Permitless | UrgentConsensus.

#[export] Instance QueueKind_eq_dec : EqDecision QueueKind.
Proof. solve_decision. Defined.

Definition default_size (kind : QueueKind) : N :=
  match kind with Permitless => 1000 | UrgentConsensus => 4096 end.

(** [impl FromStr for QueueKind] *)
Definition queue_kind_from_str (s : string) : option QueueKind :=
  if bool_decide (s = "permitless"%string) then Some Permitless
  else if bool_decide (s = "urgent_consensus"%string) then Some UrgentConsensus
  else None.

(** [struct Config] *)
Record Config := {
  max_workers : N;
  queue_size : QueueKind → option N;
}.

(** [Semaphore::MAX_PERMITS] *)
Definition MAX_PERMITS : N := (2 ^ 61 - 1)%N.

Section processor.
(** The closures. *)
Context {Func : Type}.

Inductive WorkKind := Async (f : Func) | Blocking (f : Func) | Immediate (f : Func).

(** [struct WorkItem]; an expiry is an [Instant]. *)
Record WorkItem := {
  wi_func : WorkKind;
  wi_expiry : option N;
}.

Definition new_async (f : Func) : WorkItem := {| wi_func := Async f; wi_expiry := None |}.
Definition new_blocking (f : Func) : WorkItem := {| wi_func := Blocking f; wi_expiry := None |}.
Definition new_immediate (f : Func) : WorkItem := {| wi_func := Immediate f; wi_expiry := None |}.
Definition with_expiry (expiry : N) (item : WorkItem) : WorkItem :=
  {| wi_func := wi_func item; wi_expiry := Some expiry |}.

(** A bounded channel, with everything it accepted. *)
Record Queue := mkQueue {
  qu_capacity : N;
  qu_closed : bool;
  qu_items : list WorkItem;
  qu_accepted : list WorkItem;
}.
#[export] Instance Queue_eta : Eta Queue := λ q,
  mkQueue (qu_capacity q) (qu_closed q) (qu_items q) (qu_accepted q).

(** [struct ReceivedWork] *)
Record ReceivedWork := {
  rw_permit : bool;
  rw_work_item : WorkItem;
  rw_queue : QueueKind;
}.

(** The processor: the free permits, whether the loop holds one while it waits for work,
    the queues, the work that runs (whose [DropOnFinish] is not dropped), and what was
    received so far, with whether it had expired. *)
Record Processor := {
  pr_available : N;
  pr_holding : bool;
  pr_stopped : bool;
  pr_permitless : Queue;
  pr_urgent : Queue;
  pr_running : list ReceivedWork;
  pr_received : list (ReceivedWork * bool);
}.
#[export] Instance Processor_eta : Eta Processor := λ p,
  {| pr_available := pr_available p; pr_holding := pr_holding p; pr_stopped := pr_stopped p;
     pr_permitless := pr_permitless p; pr_urgent := pr_urgent p; pr_running := pr_running p;
     pr_received := pr_received p |}.

Implicit Types (p : Processor) (q : Queue).

Definition pr_queue (kind : QueueKind) p : Queue :=
  match kind with Permitless => pr_permitless p | UrgentConsensus => pr_urgent p end.

Definition pr_set_queue (kind : QueueKind) q p : Processor :=
  match kind with
  | Permitless => p <| pr_permitless := q |>
  | UrgentConsensus => p <| pr_urgent := q |>
  end.

(** [QueueKind::create]; a channel of capacity zero or with too many permits panics. *)
Definition queue_create (kind : QueueKind) (config : Config) : outcome unit Queue :=
  let size := default (default_size kind) (queue_size config kind) in
  if (size =? 0)%N || (MAX_PERMITS <? size)%N then Panic else Ok (mkQueue size false [] []).

(** [spawn] and the start of [processor]; a semaphore with too many permits panics. *)
Definition spawn (config : Config) : outcome unit Processor :=
  permitless ← queue_create Permitless config;
  urgent_consensus ← queue_create UrgentConsensus config;
  if (MAX_PERMITS <? max_workers config)%N then Panic
  else Ok {| pr_available := max_workers config; pr_holding := false; pr_stopped := false;
             pr_permitless := permitless; pr_urgent := urgent_consensus; pr_running := [];
             pr_received := [] |}.

(** [TrySendError] *)
Inductive SendError := QueueFull | QueueClosed.

(** [Sender::send_work_item] *)
Definition send_work_item (kind : QueueKind) (item : WorkItem) : action Processor SendError unit :=
  q ← gets (pr_queue kind);
  if qu_closed q then throw QueueClosed
  else if (qu_capacity q <=? len (qu_items q))%N then throw QueueFull
  else modify (pr_set_queue kind (q <| qu_items := qu_items q ++ [item] |>
                                   <| qu_accepted := qu_accepted q ++ [item] |>)).

(** [Receiver::recv], polled: an item, the end of a closed queue, or nothing yet. *)
Inductive Poll {A} := Ready (a : A) | Pending.
Arguments Poll : clear implicits.

Definition recv (kind : QueueKind) : action Processor unit (Poll (option ReceivedWork)) :=
  q ← gets (pr_queue kind);
  match qu_items q with
  | item :: items =>
      _ ← modify (pr_set_queue kind (q <| qu_items := items |>));
      mret (Ready (Some {| rw_permit := false; rw_work_item := item; rw_queue := kind |}))
  | [] => mret (if qu_closed q then Ready None else Pending)
  end.

(** [next_work_item_with_permit], polled while the loop holds a permit: the branches in
    order; a closed queue disables its branch.  The permit goes with urgent work and is
    dropped otherwise. *)
Definition next_work_item_with_permit : action Processor unit (Poll (option ReceivedWork)) :=
  urgent ← recv UrgentConsensus;
  match urgent with
  | Ready (Some work) =>
      _ ← modify (λ p, p <| pr_holding := false |>);
      mret (Ready (Some {| rw_permit := true; rw_work_item := rw_work_item work;
                           rw_queue := rw_queue work |}))
  | _ =>
      permitless ← recv Permitless;
      match permitless, urgent with
      | Ready (Some work), _ =>
          _ ← modify (λ p, p <| pr_holding := false |> <| pr_available := (pr_available p + 1)%N |>);
          mret (Ready (Some work))
      | Ready None, Ready None =>
          _ ← modify (λ p, p <| pr_holding := false |> <| pr_available := (pr_available p + 1)%N |>);
          mret (Ready None)
      | _, _ => mret Pending
      end
  end.

(** [next_work_item], polled: the permit first.  Without a permit a closed permitless queue
    disables the other branch, and the loop waits for a permit. *)
Definition next_work_item : action Processor unit (Poll (option ReceivedWork)) :=
  holding ← gets pr_holding;
  available ← gets pr_available;
  if holding : bool then next_work_item_with_permit
  else if (0 <? available)%N then
    _ ← modify (λ p, p <| pr_holding := true |> <| pr_available := (available - 1)%N |>);
    next_work_item_with_permit
  else
    permitless ← recv Permitless;
    match permitless with
    | Ready (Some work) => mret (Ready (Some work))
    | _ => mret Pending
    end.

(** A dropped [DropOnFinish] gives the permit back. *)
Definition release (work : ReceivedWork) p : Processor :=
  if rw_permit work then p <| pr_available := (pr_available p + 1)%N |> else p.

Definition is_expired (now : N) (item : WorkItem) : bool :=
  match wi_expiry item with Some expiry => (expiry <? now)%N | None => false end.

(** One iteration of [processor], polled at an instant. *)
Definition processor_iteration (now : N) : action Processor unit unit :=
  stopped ← gets pr_stopped;
  if stopped : bool then mret tt
  else
    received ← next_work_item;
    match received with
    | Pending => mret tt
    | Ready None => modify (λ p, p <| pr_stopped := true |>)
    | Ready (Some work) =>
        let expired := is_expired now (rw_work_item work) in
        _ ← modify (λ p, p <| pr_received := pr_received p ++ [(work, expired)] |>);
        if expired then modify (release work)
        else modify (λ p, p <| pr_running := pr_running p ++ [work] |>)
    end.

(** The work at a position finishes. *)
Definition finish (i : nat) p : Processor :=
  match pr_running p !! i with
  | Some work => release work (p <| pr_running := delete i (pr_running p) |>)
  | None => p
  end.

(** ** The processor over time *)

Inductive ProcessorEvent :=
  | SendWork (kind : QueueKind) (item : WorkItem)
  | CloseQueue (kind : QueueKind)
  | PollLoop (now : N)
  | Finish (i : nat).

Definition processor_event p (ev : ProcessorEvent) : Processor :=
  match ev with
  | SendWork kind item => (send_work_item kind item p).2
  | CloseQueue kind => pr_set_queue kind (pr_queue kind p <| qu_closed := true |>) p
  | PollLoop now => (processor_iteration now p).2
  | Finish i => finish i p
  end.

(** ** Accounting *)

Definition taken (kind : QueueKind) p : list WorkItem :=
  rw_work_item <$> filter (λ w, rw_queue w = kind) (pr_received p).*1.

Definition started p : list ReceivedWork := (filter (λ r, r.2 = false) (pr_received p)).*1.

Definition permits_held (running : list ReceivedWork) : N := len (filter (λ w, rw_permit w = true) running).

Record queue_accounts p (kind : QueueKind) : Prop := {
  qa_fifo : qu_accepted (pr_queue kind p) = taken kind p ++ qu_items (pr_queue kind p);
  qa_bound : (len (qu_items (pr_queue kind p)) <= qu_capacity (pr_queue kind p))%N;
}.

Record accounts (workers : N) p : Prop := {
  ac_permits : (pr_available p + (if pr_holding p then 1 else 0) + permits_held (pr_running p) = workers)%N;
  ac_queues : ∀ kind, queue_accounts p kind;
  ac_urgent : Forall (λ r, rw_permit r.1 = bool_decide (rw_queue r.1 = UrgentConsensus)) (pr_received p);
  ac_running : pr_running p ⊆+ started p;
}.

(** What the loop serves next: an urgent item if there is a permit for it, otherwise an
    item of the other queue. *)
Definition served p : option ReceivedWork :=
  let permit := pr_holding p || (0 <? pr_available p)%N in
  match qu_items (pr_urgent p), qu_items (pr_permitless p) with
  | item :: _, permitless =>
      if permit then Some {| rw_permit := true; rw_work_item := item; rw_queue := UrgentConsensus |}
      else (λ item, {| rw_permit := false; rw_work_item := item; rw_queue := Permitless |}) <$> head permitless
  | [], permitless =>
      (λ item, {| rw_permit := false; rw_work_item := item; rw_queue := Permitless |}) <$> head permitless
  end.

(** The processor after taking the item it serves. *)
Definition took (work : ReceivedWork) p : Processor :=
  let q := pr_queue (rw_queue work) p in
  let p := pr_set_queue (rw_queue work) (q <| qu_items := tail (qu_items q) |>) p in
  let held := if pr_holding p then 1%N else 0%N in
  let given := if rw_permit work then 1%N else 0%N in
  p <| pr_holding := false |> <| pr_available := (pr_available p + held - given)%N |>.

(** The loop ends when both queues are closed and drained, and it has a permit. *)
Definition drained p : bool :=
  (pr_holding p || (0 <? pr_available p)%N) && qu_closed (pr_urgent p) && qu_closed (pr_permitless p).

Ltac compute_update := repeat progress (cbn; try unfold setter).

Lemma next_work_item_spec p :
  match served p with
  | Some work => next_work_item p = (Ok (Ready (Some work)), took work p)
  | None => ∃ p', next_work_item p = (Ok (if drained p then Ready None else Pending), p') ∧
      pr_queue Permitless p' = pr_queue Permitless p ∧ pr_queue UrgentConsensus p' = pr_queue UrgentConsensus p ∧
      pr_running p' = pr_running p ∧ pr_received p' = pr_received p ∧ pr_stopped p' = pr_stopped p ∧
      (pr_available p' + (if pr_holding p' then 1 else 0) = pr_available p + if pr_holding p then 1 else 0)%N
  end.
Proof.
  destruct p as [available holding stopped [pc pcl pit pacc] [uc ucl uit uacc] running received].
  unfold served, drained, next_work_item, next_work_item_with_permit, recv, mbind, action_bind, gets, modify, took, pr_set_queue, pr_queue.
  destruct (N.ltb_spec 0 available) as [Hav|Hav];
    destruct holding, uit as [|u uit], pit as [|i pit], ucl, pcl; compute_update;
    (rewrite ?(proj2 (N.ltb_lt _ _) Hav), ?(proj2 (N.ltb_ge _ _) Hav)); compute_update;
    first [done | do 2 f_equal; lia | eexists; split; [done|]; cbn; split_and!; (done || lia)].
Qed.

(** An iteration of the loop. *)
Lemma processor_iteration_spec now p :
  pr_stopped p = false →
  match served p with
  | Some work =>
      let p' := took work p <| pr_received := pr_received p ++ [(work, is_expired now (rw_work_item work))] |> in
      (processor_iteration now p).2 =
        if is_expired now (rw_work_item work) then release work p'
        else p' <| pr_running := pr_running p ++ [work] |>
  | None => ∃ p', (processor_iteration now p).2 = p' <| pr_stopped := drained p |> ∧
      pr_queue Permitless p' = pr_queue Permitless p ∧ pr_queue UrgentConsensus p' = pr_queue UrgentConsensus p ∧
      pr_running p' = pr_running p ∧ pr_received p' = pr_received p ∧
      (pr_available p' + (if pr_holding p' then 1 else 0) = pr_available p + if pr_holding p then 1 else 0)%N
  end.
Proof.
  intros Hs. pose proof (next_work_item_spec p) as Hn. unfold processor_iteration, mbind, action_bind, gets, modify.
  rewrite Hs.
  destruct (served p) as [work|] eqn:Hw.
  - rewrite Hn. destruct work as [permit item []]; cbv zeta beta iota; by destruct (is_expired now _).
  - destruct Hn as (p' & -> & ? & ? & ? & ? & Hst & ?). exists p'.
    destruct (drained p); cbn; [done|]. split; [|done]. rewrite Hs in Hst. rewrite <- Hst. by destruct p'.
Qed.

Lemma served_head p work :
  served p = Some work →
  head (qu_items (pr_queue (rw_queue work) p)) = Some (rw_work_item work) ∧
  rw_permit work = bool_decide (rw_queue work = UrgentConsensus) ∧
  (rw_permit work = true → pr_holding p = true ∨ (0 < pr_available p)%N).
Proof.
  unfold served. destruct (qu_items (pr_urgent p)) as [|u us] eqn:Hu.
  - intros (item & Hi & ->)%fmap_Some. by split_and!.
  - destruct (pr_holding p || (0 <? pr_available p)%N) eqn:Hp.
    + intros [= <-]. cbn. rewrite Hu. split_and!; [done|done|]. intros _.
      apply orb_true_iff in Hp as [->|Hp%N.ltb_lt]; auto.
    + intros (item & Hi & ->)%fmap_Some. by split_and!.
Qed.

Lemma permits_held_app l l' : permits_held (l ++ l') = (permits_held l + permits_held l')%N.
Proof. unfold permits_held, len. rewrite filter_app, length_app. lia. Qed.

Lemma permits_held_one work : permits_held [work] = (if rw_permit work then 1 else 0)%N.
Proof. unfold permits_held. rewrite filter_cons. destruct (rw_permit work); cbn; by rewrite ?filter_nil. Qed.

Lemma permits_held_delete (l : list ReceivedWork) i w :
  l !! i = Some w → permits_held l = (permits_held (delete i l) + permits_held [w])%N.
Proof.
  intros Hi. rewrite delete_take_drop, <- (take_drop_middle l i w Hi) at 1.
  rewrite permits_held_app, (permits_held_app (take i l) (drop _ l)).
  change (w :: drop (S i) l) with ([w] ++ drop (S i) l). rewrite permits_held_app. lia.
Qed.

(** The queues of a changed processor, when what was received has not changed. *)
Lemma queue_accounts_same p p' kind :
  pr_received p' = pr_received p → qu_items (pr_queue kind p') = qu_items (pr_queue kind p) →
  qu_accepted (pr_queue kind p') = qu_accepted (pr_queue kind p) →
  qu_capacity (pr_queue kind p') = qu_capacity (pr_queue kind p) →
  queue_accounts p kind → queue_accounts p' kind.
Proof.
  intros Hr Hi Ha Hc [Hf Hb]. split; rewrite ?Hi, ?Ha, ?Hc; [|done]. unfold taken. by rewrite Hr.
Qed.

Lemma send_accounts workers kind item p : accounts workers p → accounts workers (send_work_item kind item p).2.
Proof.
  intros [Hp Hq Hu Hr]. unfold send_work_item, mbind, action_bind, gets, modify.
  destruct (qu_closed (pr_queue kind p)); [done|].
  destruct (N.leb_spec (qu_capacity (pr_queue kind p)) (len (qu_items (pr_queue kind p)))) as [|Hlt]; [done|].
  cbn [snd]. split; [by destruct kind| |by destruct kind|by destruct kind].
  intros k. destruct (Hq kind) as [Hf Hb]. destruct (decide (k = kind)) as [->|Hne].
  - assert (taken kind (pr_set_queue kind (pr_queue kind p <| qu_items := qu_items (pr_queue kind p) ++ [item] |>
      <| qu_accepted := qu_accepted (pr_queue kind p) ++ [item] |>) p) = taken kind p) as Ht by by destruct kind.
    split; rewrite ?Ht; destruct kind; cbn in *;
      first [by rewrite Hf, app_assoc | unfold len in *; rewrite length_app; cbn; lia].
  - by apply (queue_accounts_same p); [..|apply Hq]; destruct kind, k.
Qed.

Lemma release_accounts workers work p :
  accounts (workers - permits_held [work]) p → (permits_held [work] <= workers)%N →
  accounts workers (release work p).
Proof.
  rewrite permits_held_one. intros [Hp Hq Hu Hr] Hle. unfold release. destruct (rw_permit work).
  - split; cbn; [lia|intros kind; by apply (queue_accounts_same p); [destruct kind..|apply Hq]|done|done].
  - split; [lia|done..].
Qed.

Lemma taken_snoc kind p p' work expired :
  pr_received p' = pr_received p ++ [(work, expired)] →
  taken kind p' = taken kind p ++ if decide (rw_queue work = kind) then [rw_work_item work] else [].
Proof.
  intros Hr. unfold taken. rewrite Hr, fmap_app, filter_app, fmap_app. f_equal.
  change ([(work, expired)].*1) with [work]. rewrite filter_cons. by case_decide.
Qed.

Lemma took_accounts workers work expired p p' :
  served p = Some work → accounts workers p →
  p' = took work p <| pr_received := pr_received p ++ [(work, expired)] |> →
  accounts (workers - permits_held [work]) p' ∧ (permits_held [work] <= workers)%N ∧
  pr_running p' = pr_running p ∧ started p' = started p ++ if expired then [] else [work].
Proof.
  intros Hs [Hp Hq Hu Hr] ->. destruct (served_head _ _ Hs) as (Hhead & Hperm & Hfree).
  set (p' := took work p <| pr_received := _ |>).
  assert (pr_received p' = pr_received p ++ [(work, expired)] ∧ pr_running p' = pr_running p) as [Hrec Hrun]
    by by destruct work as [? ? []].
  assert (started p' = started p ++ if expired then [] else [work]) as Hst.
  { unfold started. rewrite Hrec, filter_app, fmap_app. f_equal. rewrite filter_cons. by destruct expired. }
  pose proof (permits_held_one work) as Hw.
  assert (rw_permit work = true → 0 < pr_available p + (if pr_holding p then 1 else 0))%N as Hav.
  { intros Ht. destruct (Hfree Ht) as [->|]; lia. }
  split_and!; [split|destruct (rw_permit work); [specialize (Hav eq_refl)|]; lia|done|done].
  - rewrite Hrun, Hw. destruct work as [permit item []]; cbn in *;
      (destruct permit; [specialize (Hav eq_refl)|]; destruct (pr_holding p); cbn in *; lia).
  - intros kind. destruct (Hq kind) as [Hf Hb]. split; rewrite ?(taken_snoc kind p p' work expired Hrec).
    + destruct work as [permit item []], kind; cbn in *; try (by rewrite app_nil_r);
        (destruct (qu_items _) as [|i l]; [done|]; injection Hhead as ->; by rewrite Hf, <- app_assoc).
    + destruct work as [permit item []], kind; cbn in *; try done;
        (destruct (qu_items _) as [|i l]; [done|]; unfold len in *; cbn in *; lia).
  - rewrite Hrec. apply Forall_app_2; [done|]. by constructor.
  - rewrite Hrun, Hst. destruct expired; [by rewrite app_nil_r|]. by apply submseteq_inserts_r.
Qed.

Lemma poll_accounts workers now p : accounts workers p → accounts workers (processor_iteration now p).2.
Proof.
  intros Hacc. destruct (pr_stopped p) eqn:Hstop.
  { unfold processor_iteration, mbind, action_bind, gets. by rewrite Hstop. }
  pose proof (processor_iteration_spec now p Hstop) as Hs. destruct (served p) as [work|] eqn:Hw.
  - destruct (took_accounts workers work (is_expired now (rw_work_item work)) p _ Hw Hacc eq_refl)
      as (Ha & Hle & Hrun & Hst). cbn zeta in Hs. rewrite Hs. clear Hs.
    set (p' := took work p <| pr_received := _ |>) in *.
    destruct (is_expired now (rw_work_item work)); [by apply release_accounts|].
    destruct Ha as [Hp Hq Hu _]. split.
    + cbn. rewrite permits_held_app. rewrite Hrun in Hp. unfold p' in Hp. cbn in Hp. lia.
    + intros kind. apply (queue_accounts_same p'); [by destruct kind..|apply Hq].
    + done.
    + change (pr_running p ++ [work] ⊆+ started p'). rewrite Hst.
      apply submseteq_app; [apply Hacc|done].
  - destruct Hs as (p' & -> & Hqp & Hqu & Hrun & Hrec & Hav). destruct Hacc as [Hp Hq Hu Hr].
    split; cbn; [rewrite Hrun; lia| |by rewrite Hrec|].
    + intros kind. apply (queue_accounts_same p); [done| | | |apply Hq]; destruct kind; cbn in *; congruence.
    + unfold started. cbn. by rewrite Hrun, Hrec.
Qed.

Lemma accounts_event workers p ev : accounts workers p → accounts workers (processor_event p ev).
Proof.
  intros Hacc. destruct ev as [kind item|kind|now|i]; cbn [processor_event].
  - by apply send_accounts.
  - destruct Hacc as [Hp Hq Hu Hr]. split; [by destruct kind| |by destruct kind|by destruct kind].
    intros k. by apply (queue_accounts_same p); [..|apply Hq]; destruct kind, k.
  - by apply poll_accounts.
  - unfold finish. destruct (pr_running p !! i) as [work|] eqn:Hi; [|done].
    destruct Hacc as [Hp Hq Hu Hr]. rewrite (permits_held_delete _ _ _ Hi) in Hp.
    apply release_accounts; [|lia]. split; cbn; [lia| |done|].
    + intros kind. apply (queue_accounts_same p); [by destruct kind..|apply Hq].
    + etrans; [apply submseteq_delete|done].
Qed.

Lemma spawn_accounts config p : spawn config = Ok p → accounts (max_workers config) p.
Proof.
  unfold spawn, queue_create. intros (q1 & H1 & (q2 & H2 & H)%bind_ok)%bind_ok.
  destruct (_ || _); [done|]. destruct (_ || _); [done|]. simplify_eq/=.
  destruct (MAX_PERMITS <? max_workers config)%N; [done|]. injection H as <-.
  split; cbn; [unfold permits_held, len; rewrite filter_nil; cbn; lia| |done|done].
  intros []; split; cbn; done || (unfold len; cbn; lia).
Qed.

(** the processor loses nothing and stays within its limits.  From a configuration that
    starts, whatever is sent, closed, polled and finished in whatever order: the permits
    that are free, held by the loop and held by running work add up to the number of
    workers, only urgent work holds one, no queue grows beyond its capacity, every item a
    queue accepted was received by the loop exactly once and in order or still waits, and
    all running work was received and had not expired. *)
Theorem processor_accounts config p0 evs :
  spawn config = Ok p0 →
  let p := foldl processor_event p0 evs in
  (pr_available p + (if pr_holding p then 1 else 0) + permits_held (pr_running p) = max_workers config)%N ∧
  (∀ kind, qu_accepted (pr_queue kind p) = taken kind p ++ qu_items (pr_queue kind p) ∧
     (len (qu_items (pr_queue kind p)) <= qu_capacity (pr_queue kind p))%N) ∧
  Forall (λ r, rw_permit r.1 = bool_decide (rw_queue r.1 = UrgentConsensus)) (pr_received p) ∧
  pr_running p ⊆+ started p.
Proof.
  intros Hs%spawn_accounts p.
  assert (accounts (max_workers config) p) as [Hp Hq Hu Hr].
  { unfold p. clear p. revert p0 Hs. induction evs as [|ev evs IH]; intros p0 Hs; [done|].
    by apply IH, accounts_event. }
  split; [done|]. split; [|done]. intros kind. by destruct (Hq kind).
Qed.

(** the loop serves what it can.  While it runs, a poll takes the first urgent item if
    there is one and a permit for it; otherwise the first item of the other queue, which
    therefore waits neither for permits nor behind urgent work that has none; otherwise it
    takes nothing, and it ends exactly when both queues are closed and drained and it has
    a permit. *)
Theorem processor_serves now p :
  pr_stopped p = false →
  let p' := (processor_iteration now p).2 in
  let permit := pr_holding p = true ∨ (0 < pr_available p)%N in
  let receives work := pr_received p' = pr_received p ++ [(work, is_expired now (rw_work_item work))] in
  (∀ item rest, qu_items (pr_urgent p) = item :: rest → permit →
     receives {| rw_permit := true; rw_work_item := item; rw_queue := UrgentConsensus |}) ∧
  (∀ item rest, qu_items (pr_permitless p) = item :: rest → qu_items (pr_urgent p) = [] ∨ ¬ permit →
     receives {| rw_permit := false; rw_work_item := item; rw_queue := Permitless |}) ∧
  (qu_items (pr_permitless p) = [] → qu_items (pr_urgent p) = [] ∨ ¬ permit →
     pr_received p' = pr_received p ∧
     (pr_stopped p' = true ↔ permit ∧ qu_closed (pr_urgent p) = true ∧ qu_closed (pr_permitless p) = true)).
Proof.
  intros Hst p' permit receives. pose proof (processor_iteration_spec now p Hst) as Hs. fold p' in Hs.
  assert (pr_holding p || (0 <? pr_available p)%N = true ↔ permit) as Hperm.
  { unfold permit. by rewrite orb_true_iff, N.ltb_lt. }
  assert (∀ work, served p = Some work → receives work) as Hrec.
  { intros work Hw. rewrite Hw in Hs. unfold receives. rewrite Hs.
    by destruct (is_expired now (rw_work_item work)), work as [[] ? []]. }
  unfold served, drained in *.
  destruct (pr_holding p || (0 <? pr_available p)%N) eqn:Hp.
  - assert permit as Hy by by apply Hperm.
    split_and!.
    + intros item rest Hu _. apply Hrec. by rewrite Hu.
    + intros item rest Hi [Hu|Hn]; [|done]. apply Hrec. by rewrite Hu, Hi.
    + intros Hi [Hu|Hn]; [|done]. rewrite Hi, Hu in Hs. destruct Hs as (q & -> & _ & _ & _ & ? & _).
      split; [done|]. cbn. rewrite andb_true_iff. naive_solver.
  - assert (¬ permit) as Hn by (intros ?%Hperm; congruence).
    split_and!.
    + by intros.
    + intros item rest Hi _. apply Hrec. rewrite Hi. by destruct (qu_items (pr_urgent p)).
    + intros Hi _. rewrite Hi in Hs.
      destruct (qu_items (pr_urgent p)); destruct Hs as (q & -> & _ & _ & _ & ? & _); (split; [done|cbn; naive_solver]).
Qed.
End processor.

(** ** A concrete processor *)

Module SampleProcessor.
(** One worker, queues of two. *)
Definition config : Config := {| max_workers := 1; queue_size := λ _, Some 2%N |}.

Definition fresh : Processor (Func:=N) :=
  {| pr_available := 1; pr_holding := false; pr_stopped := false; pr_permitless := mkQueue 2 false [] [];
     pr_urgent := mkQueue 2 false [] []; pr_running := []; pr_received := [] |}.

(** Two urgent items and one other; the second urgent item waits for the worker. *)
Definition events : list (ProcessorEvent (Func:=N)) :=
  [SendWork UrgentConsensus (new_blocking 1%N); SendWork UrgentConsensus (new_blocking 2%N);
   SendWork Permitless (new_immediate 3%N); PollLoop 0; PollLoop 0].

Lemma processor_accounts_witness :
  permits_held (pr_running (foldl processor_event fresh events)) = 1%N ∧
  taken Permitless (foldl processor_event fresh events) = [new_immediate 3%N] ∧
  (pr_available (foldl processor_event fresh events) +
     (if pr_holding (foldl processor_event fresh events) then 1 else 0) +
     permits_held (pr_running (foldl processor_event fresh events)) = 1)%N.
Proof.
  split; [by vm_compute|]. split; [by vm_compute|].
  exact (proj1 (processor_accounts config fresh events eq_refl)).
Defined.

Lemma processor_serves_witness :
  pr_received (processor_iteration 0 (foldl processor_event fresh (take 4 events))).2 =
    pr_received (foldl processor_event fresh (take 4 events)) ++
      [({| rw_permit := false; rw_work_item := new_immediate 3%N; rw_queue := Permitless |}, false)].
Proof.
  refine (proj1 (proj2 (processor_serves 0 (foldl processor_event fresh (take 4 events)) _)) _ [] _ _).
  - by vm_compute.
  - by vm_compute.
  - right. vm_compute. intros [?|?]; done.
Defined.
End SampleProcessor.
