(* ===== verification/Doppelganger.v ===== *)
(** * The operator doppelgänger service

    [OperatorDoppelgangerService] of [anchor/operator_doppelganger/src/service.rs]: after a
    start the node watches the network for a time before it takes part; a message that
    carries its own operator id for a later slot shows that a second instance is running.
    The theorems: the service flags exactly such messages, and it stays on the watch until
    its time is up. *)

From S2P Require Import Prelude SsvTypes Messages Validator.

(** [extract_message_slot] *)
Definition extract_message_slot (validated_message : ValidatedSSVMessage) : Slot :=
  match validated_message with
  | ValidatedQbft msg => height msg
  | ValidatedPartial msg => psm_slot msg
  end.

(** The watch on the own operator id is an argument of the reads.  [dg_twin_detected] is
    the value of the watch channel, [slot_duration] is in seconds. *)
Record OperatorDoppelgangerService := mkDoppelganger {
  dg_is_monitoring : bool;
  dg_twin_detected : bool;
  dg_startup_slot : Slot;
  dg_slots_per_epoch : N;
  dg_slot_duration_secs : N;
}.
#[export] Instance OperatorDoppelgangerService_eta : Eta OperatorDoppelgangerService := λ s,
  mkDoppelganger (dg_is_monitoring s) (dg_twin_detected s) (dg_startup_slot s)
    (dg_slots_per_epoch s) (dg_slot_duration_secs s).

Implicit Types s : OperatorDoppelgangerService.

(** [OperatorDoppelgangerService::new] *)
Definition doppelganger_new (startup_slot : Slot) (slots_per_epoch slot_duration : N)
    : OperatorDoppelgangerService :=
  {| dg_is_monitoring := true; dg_twin_detected := false; dg_startup_slot := startup_slot;
     dg_slots_per_epoch := slots_per_epoch; dg_slot_duration_secs := slot_duration |}.

(** The seconds [monitor_blocking] sleeps; the products are of [u64]s. *)
Definition monitoring_duration s (wait_epochs : N) : N :=
  wrap64 (wrap64 (wait_epochs * dg_slots_per_epoch s) * dg_slot_duration_secs s).

(** The branch of the [select!] that completes first: the sleep, or a change of the watch
    channel. *)
Inductive MonitorBranch := SleepElapsed | TwinChanged.

(** [monitor_blocking], from the branch that completes on; an error is a detected twin. *)
Definition monitor_blocking (branch : MonitorBranch)
    : action OperatorDoppelgangerService unit unit :=
  match branch with
  | SleepElapsed => modify (λ s, s <| dg_is_monitoring := false |>)
  | TwinChanged => twin ← gets dg_twin_detected; if twin : bool then throw tt else mret tt
  end.

(** [is_doppelganger] *)
Definition is_doppelganger (own_operator_id : option OperatorId) s
    (signed_message : SignedSSVMessage) (validated_message : ValidatedSSVMessage) : bool :=
  if negb (dg_is_monitoring s) then false
  else if bool_decide (message_id_role (msg_id (ssv_message signed_message)) =
                         Some Role.ProposerPreferences) then false
  else if (extract_message_slot validated_message <=? dg_startup_slot s)%N then false
  else match own_operator_id with
  | None => false
  | Some own_operator_id =>
      match operator_ids signed_message with
      | [signer] => bool_decide (signer = own_operator_id)
      | _ => false
      end
  end.

(** [check_message] *)
Definition check_message (own_operator_id : option OperatorId)
    (signed_message : SignedSSVMessage) (validated_message : ValidatedSSVMessage) s
    : OperatorDoppelgangerService :=
  if is_doppelganger own_operator_id s signed_message validated_message
  then s <| dg_twin_detected := true |> else s.

(** [is_monitoring] *)
Definition is_monitoring s : bool := dg_is_monitoring s.

(** What counts as a sign of a twin: a message of one signer, with the own id, for a slot
    after the start, of a role whose slot is not in the future of its emission. *)
Definition twin_sign (own_operator_id : option OperatorId) (startup_slot : Slot)
    (signed_message : SignedSSVMessage) (validated_message : ValidatedSSVMessage) : Prop :=
  (∃ own, own_operator_id = Some own ∧ operator_ids signed_message = [own]) ∧
  (startup_slot < extract_message_slot validated_message)%N ∧
  message_id_role (msg_id (ssv_message signed_message)) ≠ Some Role.ProposerPreferences.

Lemma is_doppelganger_spec own s signed validated :
  is_doppelganger own s signed validated = true ↔
  dg_is_monitoring s = true ∧ twin_sign own (dg_startup_slot s) signed validated.
Proof.
  unfold is_doppelganger, twin_sign. destruct (dg_is_monitoring s); cbn [negb]; [|naive_solver].
  case_bool_decide as Hr; [naive_solver|].
  destruct (N.leb_spec (extract_message_slot validated) (dg_startup_slot s)) as [Hle|Hlt].
  { split; [done|]. intros (_ & _ & ? & _). lia. }
  destruct own as [own|]; [|naive_solver].
  destruct (operator_ids signed) as [|signer [|]]; [naive_solver| |naive_solver].
  rewrite bool_decide_eq_true. naive_solver.
Qed.

Lemma check_message_monitoring own signed validated s :
  dg_is_monitoring (check_message own signed validated s) = dg_is_monitoring s ∧
  dg_startup_slot (check_message own signed validated s) = dg_startup_slot s.
Proof. unfold check_message. by destruct (is_doppelganger own s signed validated). Qed.
