(* ===== verification/DutiesTracker.v ===== *)
(** * The duties tracker

    [anchor/duties_tracker/src] ([lib.rs], [duties_tracker.rs],
    [voluntary_exit_tracker.rs]): what the node knows of the duties of the chain, polled
    from a beacon node, and the voluntary exits the contract asks for.  The tracker
    implements the interface [DutiesProvider] that the message validator is proved
    against.  The theorems: a retained proposer schedule names exactly one proposer per
    slot of its epoch and only a complete schedule replaces it, so that an accepted
    proposer message is the proposer's; the payload-timeliness view is exactly the last
    answer; and the exit tracker is a list of exits. *)

From S2P Require Import Prelude SsvTypes Messages ForkSchedule ValidationTypes DutyState.
From S2P Require Import ValidatorRules ConsensusValidation PartialValidation Subnet Validator Sample.

(** ** Proposer schedules ([lib.rs]) *)

(** [eth2::types::ProposerData] *)
Record ProposerData := {
  pd_pubkey : PublicKeyBytes;
  pd_validator_index : ValidatorIndex;
  pd_slot : Slot;
}.

(** [eth2::types::DutiesResponse] *)
Record DutiesResponse (A : Type) := {
  dr_dependent_root : Hash256;
  dr_execution_optimistic : option bool;
  dr_data : A;
}.
Arguments dr_dependent_root {_} _.
Arguments dr_execution_optimistic {_} _.
Arguments dr_data {_} _.

Record ProposerSchedule := {
  ps_dependent_root : Hash256;
  ps_execution_optimistic : option bool;
  ps_duties : list ProposerData;
}.

Inductive ProposerScheduleError :=
  | WrongLength (expected actual : N)
  | ProposerSlotOutOfEpoch (slot : Slot) (epoch : Epoch)
  | DuplicateSlot (slot : Slot).

(** The loop over the duties; the vector of flags is the set of the offsets it marks. *)
Fixpoint check_duties (epoch : Epoch) (slots_per_epoch : positive) (seen : gset N)
    (duties : list ProposerData) : outcome ProposerScheduleError unit :=
  match duties with
  | [] => Ok tt
  | duty :: duties =>
      let first := start_slot epoch slots_per_epoch in
      let offset := (pd_slot duty - first)%N in
      if (first <=? pd_slot duty)%N && (offset <? N.pos slots_per_epoch)%N then
        if bool_decide (offset ∈ seen) then Err (DuplicateSlot (pd_slot duty))
        else check_duties epoch slots_per_epoch ({[offset]} ∪ seen) duties
      else Err (ProposerSlotOutOfEpoch (pd_slot duty) epoch)
  end.

(** [ProposerSchedule::from_response] *)
Definition proposer_schedule_from_response (epoch : Epoch) (slots_per_epoch : positive)
    (response : DutiesResponse (list ProposerData)) : outcome ProposerScheduleError ProposerSchedule :=
  let expected := N.pos slots_per_epoch in
  _ ← ensure (len (dr_data response) =? expected)%N (WrongLength expected (len (dr_data response)));
  _ ← check_duties epoch slots_per_epoch ∅ (dr_data response);
  Ok {| ps_dependent_root := dr_dependent_root response;
        ps_execution_optimistic := dr_execution_optimistic response;
        ps_duties := dr_data response |}.

(** ** Payload timeliness committee *)

(** [eth2::types::PtcDuty] *)
Record PtcDuty := {
  pt_validator_index : ValidatorIndex;
  pt_slot : Slot;
}.

Abbreviation PtcSchedule := (gmap N (option Slot)).

Inductive PtcScheduleError :=
  | PtcSlotOutOfEpoch (slot : Slot) (epoch : Epoch)
  | UnrequestedValidator (index : ValidatorIndex)
  | DuplicateValidator (index : ValidatorIndex).

Fixpoint ptc_assign (epoch : Epoch) (slots_per_epoch : positive) (assignments : PtcSchedule)
    (duties : list PtcDuty) : outcome PtcScheduleError PtcSchedule :=
  match duties with
  | [] => Ok assignments
  | duty :: duties =>
      if negb (slot_epoch (pt_slot duty) slots_per_epoch =? epoch)%N
      then Err (PtcSlotOutOfEpoch (pt_slot duty) epoch)
      else match assignments !! pt_validator_index duty with
      | None => Err (UnrequestedValidator (pt_validator_index duty))
      | Some (Some _) => Err (DuplicateValidator (pt_validator_index duty))
      | Some None =>
          ptc_assign epoch slots_per_epoch (<[pt_validator_index duty := Some (pt_slot duty)]> assignments)
            duties
      end
  end.

(** [PtcSchedule::from_response] *)
Definition ptc_schedule_from_response (epoch : Epoch) (slots_per_epoch : positive)
    (requested_indices : list ValidatorIndex) (response : DutiesResponse (list PtcDuty))
    : outcome PtcScheduleError PtcSchedule :=
  ptc_assign epoch slots_per_epoch (list_to_map ((λ index, (index, None)) <$> requested_indices))
    (dr_data response).

(** [PtcSchedule::assignment_at_slot] *)
Definition assignment_at_slot (schedule : PtcSchedule) (slot : Slot) (validator_index : ValidatorIndex)
    : DutyAssignment :=
  match schedule !! validator_index with
  | Some (Some assigned_slot) => if (assigned_slot =? slot)%N then Assigned else NotAssigned
  | Some None => NotAssigned
  | None => Unknown
  end.

(** ** Voluntary exits ([voluntary_exit_tracker.rs]) *)

Record ExitDuty := {
  ed_validator_pubkey : PublicKeyBytes;
  ed_validator_index : ValidatorIndex;
  ed_target_slot : Slot;
}.

Record VoluntaryExitTracker := mkExitTracker {
  scheduled_exits : gmap Slot (list ExitDuty);
  all_duties_by_slot : gmap Slot (gmap (list byte) N);
}.
#[export] Instance VoluntaryExitTracker_eta : Eta VoluntaryExitTracker := λ t,
  mkExitTracker (scheduled_exits t) (all_duties_by_slot t).

Definition exit_tracker_new : VoluntaryExitTracker := mkExitTracker ∅ ∅.

(** [add_duty_for_slot] *)
Definition add_duty_for_slot (slot : Slot) (pubkey : PublicKeyBytes) (validator_index : ValidatorIndex)
    (is_own_validator : bool) (t : VoluntaryExitTracker) : bool * VoluntaryExitTracker :=
  let slot_map := default ∅ (all_duties_by_slot t !! slot) in
  let count := wrap64 (default 0%N (slot_map !! pubkey) + 1) in
  let t := t <| all_duties_by_slot := <[slot := <[pubkey := count]> slot_map]> (all_duties_by_slot t) |> in
  if is_own_validator then
    let exit_duty := {| ed_validator_pubkey := pubkey; ed_validator_index := validator_index;
                        ed_target_slot := slot |} in
    (true, t <| scheduled_exits :=
              <[slot := default [] (scheduled_exits t !! slot) ++ [exit_duty]]> (scheduled_exits t) |>)
  else (false, t).

(** [get_ready_exits]; the map is iterated in some order. *)
Definition get_ready_exits (current_slot : Slot) (t : VoluntaryExitTracker) : list ExitDuty :=
  map_to_list (scheduled_exits t) ≫= λ '(slot, exits), if (slot <=? current_slot)%N then exits else [].

(** [remove_processed_exit] *)
Definition remove_processed_exit (exit_duty : ExitDuty) (t : VoluntaryExitTracker) : VoluntaryExitTracker :=
  match scheduled_exits t !! ed_target_slot exit_duty with
  | None => t
  | Some exits =>
      let exits := filter (λ exit, ed_validator_index exit ≠ ed_validator_index exit_duty) exits in
      if bool_decide (exits = [])
      then t <| scheduled_exits := delete (ed_target_slot exit_duty) (scheduled_exits t) |>
      else t <| scheduled_exits := <[ed_target_slot exit_duty := exits]> (scheduled_exits t) |>
  end.

(** [get_duty_count] *)
Definition exit_duty_count (slot : Slot) (pubkey : PublicKeyBytes) (t : VoluntaryExitTracker) : N :=
  default 0%N (all_duties_by_slot t !! slot ≫= λ validator_map, validator_map !! pubkey).

(** [prune] *)
Definition exit_prune (current_slot : Slot) (lookback : N) (t : VoluntaryExitTracker)
    : VoluntaryExitTracker :=
  let threshold := (current_slot - lookback)%N in
  t <| scheduled_exits := filter (λ kv, threshold <= kv.1)%N (scheduled_exits t) |>
    <| all_duties_by_slot := filter (λ kv, threshold <= kv.1)%N (all_duties_by_slot t) |>.

(** ** The tracker ([duties_tracker.rs]) *)

Definition HISTORICAL_DUTIES_EPOCHS : N := 2.

(** What the tracker reads of [ChainSpec]. *)
Record TrackerSpec := {
  ts_altair_fork_epoch : option Epoch;
  ts_gloas_fork_epoch : option Epoch;
  ts_epochs_per_sync_committee_period : N;
}.

Inductive TrackerError :=
  | UnableToReadSlotClock
  | Arith
  | FailedToPollProposers
  | FailedToPollPtc
  | InvalidPtcDuties (e : PtcScheduleError)
  | LocalProposerLookupAlreadySet.

(** [DutiesTracker] with [Duties]; a membership key is a pair. *)
Record DutiesTracker := mkDutiesTracker {
  dt_proposers : gmap Epoch ProposerSchedule;
  dt_sync_duties : gmap (N * N) bool;
  dt_ptc : gmap Epoch PtcSchedule;
  dt_exits : VoluntaryExitTracker;
  dt_local_proposer_lookup : option (Slot → PublicKeyBytes → bool);
}.
#[export] Instance DutiesTracker_eta : Eta DutiesTracker := λ t,
  mkDutiesTracker (dt_proposers t) (dt_sync_duties t) (dt_ptc t) (dt_exits t)
    (dt_local_proposer_lookup t).

Section tracker.
Context (spec : TrackerSpec) (slots_per_epoch : positive).
Implicit Types t : DutiesTracker.
Abbreviation polls := (action DutiesTracker TrackerError unit).

(** [DutiesTracker::new] *)
Definition tracker_new : DutiesTracker := mkDutiesTracker ∅ ∅ ∅ exit_tracker_new None.

(** [set_local_proposer_lookup] *)
Definition set_local_proposer_lookup (lookup : Slot → PublicKeyBytes → bool) : polls :=
  set_before ← gets dt_local_proposer_lookup;
  match set_before with
  | Some _ => throw LocalProposerLookupAlreadySet
  | None => modify (λ t, t <| dt_local_proposer_lookup := Some lookup |>)
  end.

(** [get_missing_indices_for_period] *)
Definition get_missing_indices_for_period (committee_period : N) (validator_indices : list N) t : list N :=
  filter (λ validator_index, dt_sync_duties t !! (committee_period, validator_index) = None)
    validator_indices.

(** [poll_sync_committee_duties_for_period]; [fetch] is the answer of the beacon node: the
    validators with a duty among those asked for. *)
Definition poll_sync_committee_duties_for_period (fetch : N → list N → option (list N))
    (validator_indices : list N) (sync_committee_period : N) : polls :=
  if bool_decide (validator_indices = []) then mret tt
  else match fetch sync_committee_period validator_indices with
  | None => mret tt
  | Some duties =>
      for_each (λ validator_index,
        modify (λ t, t <| dt_sync_duties :=
          <[(sync_committee_period, validator_index) :=
              existsb (λ duty, duty =? validator_index)%N duties]> (dt_sync_duties t) |>))
        validator_indices
  end.

(** [poll_missing_sync_committee_duties_for_period] *)
Definition poll_missing_sync_committee_duties_for_period (fetch : N → list N → option (list N))
    (validator_indices : list N) (sync_committee_period : N) : polls :=
  missing_duties ← gets (get_missing_indices_for_period sync_committee_period validator_indices);
  if bool_decide (missing_duties = []) then mret tt
  else poll_sync_committee_duties_for_period fetch missing_duties sync_committee_period.

(** [SyncCommitteePerPeriod::prune] *)
Definition sync_prune (current_sync_committee_period : N) t : DutiesTracker :=
  t <| dt_sync_duties := filter (λ kv, current_sync_committee_period <= kv.1.1)%N (dt_sync_duties t) |>.

(** [epoch_offset] *)
Definition epoch_offset : N := (ts_epochs_per_sync_committee_period spec `div` 2)%N.

(** [poll_sync_committee_duties] *)
Definition poll_sync_committee_duties (now : option Slot) (validator_indices : list N)
    (fetch : N → list N → option (list N)) : polls :=
  current_slot ← lift (ok_or now UnableToReadSlotClock);
  let current_epoch := slot_epoch current_slot slots_per_epoch in
  match ts_altair_fork_epoch spec with
  | None => mret tt
  | Some altair_epoch =>
      if (current_epoch <? altair_epoch)%N then mret tt
      else
        let epochs := ts_epochs_per_sync_committee_period spec in
        _ ← lift (ensure (negb (epochs =? 0)%N) Arith);
        let current_period := (current_epoch `div` epochs)%N in
        let next_period := wrap64 (current_period + 1) in
        _ ← poll_missing_sync_committee_duties_for_period fetch validator_indices current_period;
        _ ← (if (epoch_offset <=? current_epoch `mod` epochs)%N
             then poll_missing_sync_committee_duties_for_period fetch validator_indices next_period
             else mret tt);
        modify (sync_prune current_period)
  end.

(** [install_proposer_schedule]; its error is logged by the caller. *)
Definition install_proposer_schedule (epoch : Epoch) (response : DutiesResponse (list ProposerData)) t
    : DutiesTracker :=
  match proposer_schedule_from_response epoch slots_per_epoch response with
  | Ok schedule => t <| dt_proposers := <[epoch := schedule]> (dt_proposers t) |>
  | _ => t
  end.

(** Epoch arithmetic saturates. *)
Definition epoch_add (epoch : Epoch) (n : N) : Epoch := N.min u64_max (epoch + n).

(** The body of the loop over the epochs; [fetch] is the answer of the beacon node. *)
Definition poll_proposers_of_epoch (fetch : Epoch → option (DutiesResponse (list ProposerData)))
    (epoch : Epoch) : polls :=
  match fetch epoch with
  | Some response => modify (install_proposer_schedule epoch response)
  | None => mret tt
  end.

(** [poll_beacon_proposers]; a missing answer is an error at the end. *)
Definition poll_beacon_proposers (now : option Slot)
    (fetch : Epoch → option (DutiesResponse (list ProposerData))) : polls :=
  current_slot ← lift (ok_or now UnableToReadSlotClock);
  let current_epoch := slot_epoch current_slot slots_per_epoch in
  let epochs := [current_epoch; epoch_add current_epoch 1] in
  _ ← for_each (poll_proposers_of_epoch fetch) epochs;
  _ ← modify (λ t, t <| dt_proposers :=
        filter (λ kv, current_epoch <= epoch_add kv.1 HISTORICAL_DUTIES_EPOCHS)%N (dt_proposers t) |>);
  if bool_decide (Exists (λ epoch, fetch epoch = None) epochs) then throw FailedToPollProposers
  else mret tt.

(** [poll_ptc_duties]; [fetch] is the answer of the beacon node. *)
Definition poll_ptc_duties (now : option Slot) (validator_indices : list N)
    (fetch : Epoch → list N → option (DutiesResponse (list PtcDuty))) : polls :=
  current_slot ← lift (ok_or now UnableToReadSlotClock);
  let current_epoch := slot_epoch current_slot slots_per_epoch in
  _ ← modify (λ t, t <| dt_ptc := filter (λ kv, current_epoch - 1 <= kv.1)%N (dt_ptc t) |>);
  match ts_gloas_fork_epoch spec with
  | None => mret tt
  | Some gloas_epoch =>
      if (current_epoch <? gloas_epoch)%N then mret tt
      else if bool_decide (validator_indices = []) then
        modify (λ t, t <| dt_ptc := delete current_epoch (dt_ptc t) |>)
      else
        response ← lift (ok_or (fetch current_epoch validator_indices) FailedToPollPtc);
        schedule ← lift (map_err InvalidPtcDuties
          (ptc_schedule_from_response current_epoch slots_per_epoch validator_indices response));
        modify (λ t, t <| dt_ptc := <[current_epoch := schedule]> (dt_ptc t) |>)
  end.

(** ** The interface of the validator *)

(** [impl DutiesProvider for DutiesTracker] *)
Definition tracker_provider t : DutiesProvider :=
  {| is_validator_in_sync_committee committee_period validator_index :=
       default false (dt_sync_duties t !! (committee_period, validator_index));
     is_epoch_known_for_proposers epoch := bool_decide (is_Some (dt_proposers t !! epoch));
     is_validator_proposer_at_slot slot validator_index :=
       match dt_proposers t !! slot_epoch slot slots_per_epoch with
       | Some schedule =>
           existsb (λ d, (pd_slot d =? slot)%N && (pd_validator_index d =? validator_index)%N)
             (ps_duties schedule)
       | None => false
       end;
     get_voluntary_exit_duty_count slot pubkey := exit_duty_count slot pubkey (dt_exits t);
     proposer_assignment_at_slot slot validator_pubkey :=
       match dt_proposers t !! slot_epoch slot slots_per_epoch with
       | Some schedule =>
           if existsb (λ d, (pd_slot d =? slot)%N && bool_decide (pd_pubkey d = validator_pubkey))
                (ps_duties schedule)
           then Assigned else NotAssigned
       | None => Unknown
       end;
     local_proposer_assignment_at_slot slot validator_pubkey :=
       match dt_local_proposer_lookup t with
       | Some lookup => lookup slot validator_pubkey
       | None => false
       end;
     ptc_assignment_at_slot slot validator_index :=
       match dt_ptc t !! slot_epoch slot slots_per_epoch with
       | Some schedule => assignment_at_slot schedule slot validator_index
       | None => Unknown
       end |}.

(** ** The tracker over time *)

(** Each poll is one step: the three polling tasks write disjoint parts of the duties. *)
Inductive TrackerEvent :=
  | PollSync (now : option Slot) (indices : list N) (fetch : N → list N → option (list N))
  | PollProposers (now : option Slot) (fetch : Epoch → option (DutiesResponse (list ProposerData)))
  | PollPtc (now : option Slot) (indices : list N)
      (fetch : Epoch → list N → option (DutiesResponse (list PtcDuty)))
  | SetLookup (lookup : Slot → PublicKeyBytes → bool)
  | AddExit (slot : Slot) (pubkey : PublicKeyBytes) (index : ValidatorIndex) (own : bool)
  | RemoveExit (exit : ExitDuty)
  | PruneExits (current_slot : Slot) (lookback : N).

Definition tracker_event t (ev : TrackerEvent) : DutiesTracker :=
  match ev with
  | PollSync now indices fetch => (poll_sync_committee_duties now indices fetch t).2
  | PollProposers now fetch => (poll_beacon_proposers now fetch t).2
  | PollPtc now indices fetch => (poll_ptc_duties now indices fetch t).2
  | SetLookup lookup => (set_local_proposer_lookup lookup t).2
  | AddExit slot pubkey index own =>
      t <| dt_exits := (add_duty_for_slot slot pubkey index own (dt_exits t)).2 |>
  | RemoveExit exit => t <| dt_exits := remove_processed_exit exit (dt_exits t) |>
  | PruneExits current_slot lookback => t <| dt_exits := exit_prune current_slot lookback (dt_exits t) |>
  end.

Definition tracker_run (evs : list TrackerEvent) : DutiesTracker := foldl tracker_event tracker_new evs.

(** ** Proposer views *)

Definition duty_offset (epoch : Epoch) (d : ProposerData) : N := (pd_slot d - start_slot epoch slots_per_epoch)%N.

Lemma check_duties_ok epoch seen duties u :
  check_duties epoch slots_per_epoch seen duties = Ok u →
  Forall (λ d, start_slot epoch slots_per_epoch <= pd_slot d ∧ duty_offset epoch d < N.pos slots_per_epoch)%N duties ∧
  NoDup (duty_offset epoch <$> duties) ∧ Forall (λ d, duty_offset epoch d ∉ seen) duties.
Proof.
  revert seen. induction duties as [|d duties IH]; intros seen; cbn [check_duties]; [by repeat constructor|].
  destruct (N.leb_spec (start_slot epoch slots_per_epoch) (pd_slot d)) as [Hle|]; [|done].
  destruct (N.ltb_spec (pd_slot d - start_slot epoch slots_per_epoch) (N.pos slots_per_epoch)) as [Hlt|]; [|done].
  cbn [andb]. case_bool_decide as Hs; [done|]. intros (Hr & Hn & Hu)%IH.
  rewrite Forall_forall in Hu. split_and!.
  - by constructor.
  - constructor; [|done]. intros (d' & Heq & Hd')%list_elem_of_fmap. apply (Hu _ Hd'). unfold duty_offset in *. set_solver.
  - constructor; [done|]. apply Forall_forall. intros d' Hd'. specialize (Hu _ Hd'). set_solver.
Qed.

(** The schedule has exactly one duty for every slot of its epoch. *)
Definition schedule_complete (epoch : Epoch) (duties : list ProposerData) : Prop :=
  ∀ slot, (slot <= u64_max)%N → slot_epoch slot slots_per_epoch = epoch →
    ∃ d, d ∈ duties ∧ pd_slot d = slot ∧ ∀ d', d' ∈ duties → pd_slot d' = slot → d' = d.

Lemma NoDup_fmap_eq {A B} (f : A → B) (l : list A) x y :
  NoDup (f <$> l) → x ∈ l → y ∈ l → f x = f y → x = y.
Proof.
  intros Hn [i Hi]%list_elem_of_lookup [j Hj]%list_elem_of_lookup Heq.
  assert (i = j) as ->; [|congruence].
  eapply NoDup_lookup; [exact Hn|by rewrite list_lookup_fmap, Hi|by rewrite list_lookup_fmap, Hj, Heq].
Qed.

(** Distinct offsets in range, as many as there are, are all of them. *)
Lemma offsets_covered (l : list N) n :
  NoDup l → length l = n → Forall (λ x, x < N.of_nat n)%N l → ∀ x, (x < N.of_nat n)%N → x ∈ l.
Proof.
  intros Hn Hl Hb x Hx. rewrite Forall_forall in Hb.
  assert (l ⊆+ (N.of_nat <$> seq 0 n)) as Hsub.
  { apply NoDup_submseteq; [done|]. intros y Hy%Hb. apply list_elem_of_fmap. exists (N.to_nat y).
    rewrite elem_of_seq. lia. }
  assert (l ≡ₚ (N.of_nat <$> seq 0 n)) as ->.
  { apply submseteq_length_Permutation; [done|]. rewrite length_fmap, length_seq. lia. }
  apply list_elem_of_fmap. exists (N.to_nat x). rewrite elem_of_seq. lia.
Qed.

Lemma proposer_schedule_complete epoch response schedule :
  proposer_schedule_from_response epoch slots_per_epoch response = Ok schedule →
  ps_duties schedule = dr_data response ∧ schedule_complete epoch (dr_data response).
Proof.
  intros ([] & Hlen%ensure_ok%N.eqb_eq & ([] & (Hr & Hn & _)%check_duties_ok & [= <-])%bind_ok)%bind_ok.
  split; [done|]. intros slot Hslot Hep. rewrite Forall_forall in Hr.
  assert (start_slot epoch slots_per_epoch <= slot < start_slot epoch slots_per_epoch + N.pos slots_per_epoch)%N as Hs.
  { rewrite <- Hep. unfold start_slot, slot_epoch. pose proof (N.Div0.div_mod slot (N.pos slots_per_epoch)).
    pose proof (N.mod_lt slot (N.pos slots_per_epoch) ltac:(done)).
    rewrite (N.mul_comm (slot `div` _)). generalize dependent (N.pos slots_per_epoch * (slot `div` N.pos slots_per_epoch))%N.
    generalize dependent (slot `mod` N.pos slots_per_epoch)%N. intros. lia. }
  assert ((slot - start_slot epoch slots_per_epoch)%N ∈ duty_offset epoch <$> dr_data response) as Hin.
  { apply (offsets_covered _ (Pos.to_nat slots_per_epoch)); [done| | |].
    - rewrite length_fmap. unfold len in Hlen. lia.
    - apply Forall_forall. intros x (d & -> & Hd%Hr)%list_elem_of_fmap. lia.
    - lia. }
  apply list_elem_of_fmap in Hin as (d & Hoff & Hd). destruct (Hr _ Hd) as [Hle _]. unfold duty_offset in Hoff.
  exists d. split_and!; [done|lia|]. intros d' Hd' Hsl. destruct (Hr _ Hd') as [Hle' _].
  apply (NoDup_fmap_eq (duty_offset epoch) (dr_data response)); [done..|]. unfold duty_offset. lia.
Qed.

Section runs.
Context (evs : list TrackerEvent).

(** The schedule of an epoch is a complete answer of the beacon node to a poll of the run. *)
Definition schedule_polled (epoch : Epoch) (schedule : ProposerSchedule) : Prop :=
  ∃ now fetch response, PollProposers now fetch ∈ evs ∧ fetch epoch = Some response ∧
    ps_duties schedule = dr_data response ∧ schedule_complete epoch (dr_data response).

Definition views_ok t : Prop := map_Forall schedule_polled (dt_proposers t).

Lemma install_views_ok now fetch epoch response t :
  PollProposers now fetch ∈ evs → fetch epoch = Some response → views_ok t →
  views_ok (install_proposer_schedule epoch response t).
Proof.
  intros Hev Hf Ht. unfold install_proposer_schedule.
  destruct (proposer_schedule_from_response _ _ _) as [schedule| |] eqn:Hs; [|done..].
  apply proposer_schedule_complete in Hs as [? ?]. apply map_Forall_insert_2; [|done].
  by exists now, fetch, response.
Qed.

Lemma tracker_event_views_ok ev t : ev ∈ evs → views_ok t → views_ok (tracker_event t ev).
Proof.
  intros Hev. destruct ev as [now indices fetch|now fetch|now indices fetch|lookup| | |]; cbn [tracker_event];
    [| | | |done..].
  - revert t. change (keeps views_ok (poll_sync_committee_duties now indices fetch)).
    unfold poll_sync_committee_duties, poll_missing_sync_committee_duties_for_period,
      poll_sync_committee_duties_for_period.
    repeat (keeps_step || case_match || case_bool_decide || (apply keeps_modify; done) || (apply keeps_for_each; intros)).
  - revert t. change (keeps views_ok (poll_beacon_proposers now fetch)). unfold poll_beacon_proposers.
    apply keeps_bind; [apply keeps_lift|]. intros slot. apply keeps_bind; [|intros _; apply keeps_bind; [|intros _]].
    + apply keeps_for_each. intros epoch _. unfold poll_proposers_of_epoch.
      destruct (fetch epoch) as [response|] eqn:Hf; [|apply keeps_ret].
      apply keeps_modify. intros t. by eapply install_views_ok.
    + apply keeps_modify. intros t Ht epoch schedule [Hs _]%map_lookup_filter_Some. by apply Ht.
    + case_bool_decide; [apply keeps_throw|apply keeps_ret].
  - revert t. change (keeps views_ok (poll_ptc_duties now indices fetch)). unfold poll_ptc_duties.
    repeat (keeps_step || case_match || case_bool_decide || (apply keeps_modify; done)).
  - revert t. change (keeps views_ok (set_local_proposer_lookup lookup)). unfold set_local_proposer_lookup.
    repeat (keeps_step || case_match || (apply keeps_modify; done)).
Qed.

Lemma tracker_run_views_ok evs' t : evs' ⊆ evs → views_ok t → views_ok (foldl tracker_event t evs').
Proof.
  revert t. induction evs' as [|ev evs' IH]; intros t Hsub Ht; [done|]. cbn [foldl].
  apply IH; [set_solver|]. apply tracker_event_views_ok; [set_solver|done].
Qed.
End runs.

(** The polls leave the exits alone. *)
Lemma other_event_exits ev t :
  match ev with AddExit _ _ _ _ | RemoveExit _ | PruneExits _ _ => False | _ => True end →
  dt_exits (tracker_event t ev) = dt_exits t.
Proof.
  intros Hev. generalize (eq_refl (dt_exits t)). generalize (dt_exits t) at 2 3 as ex. intros ex.
  set (I := λ t', dt_exits t' = ex). change (I t → I (tracker_event t ev)). revert t.
  destruct ev as [now indices fetch|now fetch|now indices fetch|lookup| | |]; cbn [tracker_event]; [| | | |done..].
  - change (keeps I (poll_sync_committee_duties now indices fetch)).
    unfold poll_sync_committee_duties, poll_missing_sync_committee_duties_for_period,
      poll_sync_committee_duties_for_period.
    repeat (keeps_step || case_match || case_bool_decide || (apply keeps_modify; done) || (apply keeps_for_each; intros)).
  - change (keeps I (poll_beacon_proposers now fetch)).
    unfold poll_beacon_proposers, poll_proposers_of_epoch.
    repeat (keeps_step || case_match || case_bool_decide || (apply keeps_for_each; intros) ||
      (apply keeps_modify; intros t Ht; unfold install_proposer_schedule; by repeat case_match)).
  - change (keeps I (poll_ptc_duties now indices fetch)). unfold poll_ptc_duties.
    repeat (keeps_step || case_match || case_bool_decide || (apply keeps_modify; done)).
  - change (keeps I (set_local_proposer_lookup lookup)). unfold set_local_proposer_lookup.
    repeat (keeps_step || case_match || (apply keeps_modify; done)).
Qed.

Lemma tracker_views_ok evs : views_ok evs (tracker_run evs).
Proof. apply tracker_run_views_ok; [done|]. apply map_Forall_empty. Qed.

Lemma existsb_elem {A} (f : A → bool) (l : list A) : existsb f l = true ↔ ∃ x, x ∈ l ∧ f x = true.
Proof. rewrite existsb_exists. by setoid_rewrite list_elem_of_In. Qed.

(** The answers of the provider for a slot of a known epoch: those of the one duty of the
    slot. *)
Lemma provider_proposer evs slot schedule :
  (slot <= u64_max)%N → dt_proposers (tracker_run evs) !! slot_epoch slot slots_per_epoch = Some schedule →
  let dp := tracker_provider (tracker_run evs) in
  ∃ d, d ∈ ps_duties schedule ∧ pd_slot d = slot ∧
    (∀ d', d' ∈ ps_duties schedule → pd_slot d' = slot → d' = d) ∧
    (∀ index, is_validator_proposer_at_slot dp slot index = true ↔ index = pd_validator_index d) ∧
    ∀ pk, proposer_assignment_at_slot dp slot pk =
          if decide (pk = pd_pubkey d) then Assigned else NotAssigned.
Proof.
  intros Hslot Hs dp. destruct (tracker_views_ok evs _ _ Hs) as (now & fetch & response & _ & _ & Hdata & Hc).
  destruct (Hc slot Hslot eq_refl) as (d & Hd & Hsl & Hu). rewrite <- Hdata in Hd, Hu.
  exists d. split_and!; [done..| |].
  - intros index. cbn. rewrite Hs, existsb_elem. split.
    + intros (d' & Hd' & [Hs'%N.eqb_eq <-%N.eqb_eq]%andb_true_iff). by rewrite (Hu d' Hd' Hs').
    + intros ->. exists d. by rewrite Hsl, !N.eqb_refl.
  - intros pk. cbn. rewrite Hs. case_decide as Hpk.
    + replace (existsb _ _) with true; [done|]. symmetry. apply existsb_elem. exists d.
      by rewrite Hsl, N.eqb_refl, bool_decide_true.
    + destruct (existsb _ _) eqn:He; [|done].
      apply existsb_elem in He as (d' & Hd' & [Hs'%N.eqb_eq Hp%bool_decide_eq_true]%andb_true_iff).
      by rewrite (Hu d' Hd' Hs') in Hp.
Qed.

(** A poll without a complete schedule for an epoch leaves the view of the epoch as it was,
    while the epoch is retained. *)
Lemma proposer_view_retained now fetch epoch t current :
  now = Some current → (slot_epoch current slots_per_epoch <= epoch_add epoch HISTORICAL_DUTIES_EPOCHS)%N →
  (∀ response, fetch epoch = Some response →
     ∃ e, proposer_schedule_from_response epoch slots_per_epoch response = Err e) →
  dt_proposers (poll_beacon_proposers now fetch t).2 !! epoch = dt_proposers t !! epoch.
Proof.
  intros -> Hret Hf. unfold poll_beacon_proposers.
  assert (∀ epochs t, let r := for_each (poll_proposers_of_epoch fetch) epochs t in
    r.1 = Ok tt ∧ dt_proposers r.2 !! epoch = dt_proposers t !! epoch) as Hloop.
  { induction epochs as [|e epochs IH]; intros t0; [done|]. cbn [for_each].
    assert (∃ t1, poll_proposers_of_epoch fetch e t0 = (Ok tt, t1) ∧
      dt_proposers t1 !! epoch = dt_proposers t0 !! epoch) as (t1 & Ht1 & <-).
    { unfold poll_proposers_of_epoch. destruct (fetch e) as [response|] eqn:He; [|by eexists].
      eexists. split; [done|]. unfold install_proposer_schedule.
      destruct (proposer_schedule_from_response e _ _) eqn:Hs; [|done..].
      cbn. destruct (decide (e = epoch)) as [->|]; [|by rewrite lookup_insert_ne].
      destruct (Hf _ He). congruence. }
    unfold mbind, action_bind. rewrite Ht1. apply IH. }
  unfold mbind, action_bind. cbn [ok_or lift].
  specialize (Hloop [slot_epoch current slots_per_epoch; epoch_add (slot_epoch current slots_per_epoch) 1] t).
  unfold lift. destruct (for_each _ _ t) as [o t']. cbn [fst snd] in Hloop. destruct Hloop as [-> Hl].
  unfold modify. cbn beta iota zeta.
  assert (dt_proposers (t' <| dt_proposers := filter (λ kv, (slot_epoch current slots_per_epoch <=
    epoch_add kv.1 HISTORICAL_DUTIES_EPOCHS)%N) (dt_proposers t') |>) !! epoch = dt_proposers t !! epoch) as Hfin.
  { rewrite <- Hl. cbn. apply option_eq. intros schedule. rewrite map_lookup_filter_Some. cbn. tauto. }
  by case_bool_decide.
Qed.
End tracker.

(** ** Payload timeliness views *)

Lemma ptc_assign_ok epoch spe assignments duties schedule :
  ptc_assign epoch spe assignments duties = Ok schedule →
  ∀ index, schedule !! index =
    match assignments !! index with
    | None => None
    | Some (Some slot) => Some (Some slot)
    | Some None => Some (pt_slot <$> head (filter (λ d, pt_validator_index d = index) duties))
    end ∧
    ∀ d, d ∈ duties → pt_validator_index d = index → slot_epoch (pt_slot d) spe = epoch ∧
      schedule !! index = Some (Some (pt_slot d)).
Proof.
  revert assignments. induction duties as [|d duties IH]; intros assignments; cbn [ptc_assign].
  { intros [= <-] index. split; [|by intros ? ?%elem_of_nil].
    by destruct (assignments !! index) as [[]|]. }
  destruct (N.eqb_spec (slot_epoch (pt_slot d) spe) epoch) as [Hep|]; cbn [negb]; [|done].
  destruct (assignments !! pt_validator_index d) as [[]|] eqn:Ha; [done| |done].
  intros Hs index. destruct (IH _ Hs index) as [Hl Hd]. destruct (decide (index = pt_validator_index d)) as [->|Hne].
  - rewrite lookup_insert_eq in Hl. rewrite Ha, filter_cons_True by done. split; [done|].
    intros d' [->|Hin]%elem_of_cons Hi; [done|by apply Hd].
  - rewrite lookup_insert_ne in Hl by done. rewrite filter_cons_False by done. split; [done|].
    intros d' [->|Hin]%elem_of_cons Hi; [done|by apply Hd].
Qed.

(** The view of an accepted answer: the requested validators with the slots the answer
    gives them, and nobody else. *)
Lemma ptc_schedule_spec epoch spe requested response schedule :
  ptc_schedule_from_response epoch spe requested response = Ok schedule →
  ∀ slot index, slot_epoch slot spe = epoch →
    (assignment_at_slot schedule slot index = Assigned ↔
       ∃ d, d ∈ dr_data response ∧ pt_validator_index d = index ∧ pt_slot d = slot) ∧
    (assignment_at_slot schedule slot index = Unknown ↔ index ∉ requested).
Proof.
  intros Hs slot index Hep. destruct (ptc_assign_ok _ _ _ _ _ Hs index) as [Hl Hd].
  assert ((list_to_map ((λ i, (i, None)) <$> requested) : gmap N (option Slot)) !! index =
    if decide (index ∈ requested) then Some None else None) as Hreq.
  { clear. induction requested as [|i l IH]; [done|]. cbn. destruct (decide (i = index)) as [->|Hne].
    - by rewrite lookup_insert_eq, decide_True by set_solver.
    - rewrite lookup_insert_ne, IH by done. do 2 case_decide; set_solver. }
  rewrite Hreq in Hl. unfold assignment_at_slot. rewrite Hl. case_decide as Hin.
  - destruct (head (filter _ _)) as [d|] eqn:Hh; cbn.
    + apply head_Some_elem_of, list_elem_of_filter in Hh as [Hi Hdin].
      destruct (N.eqb_spec (pt_slot d) slot) as [Hsl|Hsl]; (split; [|done]).
      * split; [|done]. intros _. by exists d.
      * split; [done|]. intros (d' & Hd' & Hi' & <-). destruct (Hd _ Hd' Hi') as [_ H1]. destruct (Hd _ Hdin Hi) as [_ H2]. congruence.
    + split; [|done]. split; [done|]. intros (d & Hdin & Hi & _). destruct (Hd _ Hdin Hi) as [_ H].
      rewrite Hl in H. by injection H.
  - split; [|done]. split; [done|]. intros (d & Hdin & Hi & _). destruct (Hd _ Hdin Hi) as [_ H]. congruence.
Qed.

(** ** The exit tracker as lists *)

(** The abstract tracker: all exits asked for and not forgotten, and those of them that are
    to be processed, in the order of their requests. *)
Record ExitList := mkExitList {
  el_all : list (Slot * list byte);
  el_own : list ExitDuty;
}.

Definition exit_list_event (l : ExitList) (ev : TrackerEvent) : ExitList :=
  match ev with
  | AddExit slot pubkey index own =>
      mkExitList (el_all l ++ [(slot, pubkey)])
        (if own then el_own l ++ [{| ed_validator_pubkey := pubkey; ed_validator_index := index;
                                     ed_target_slot := slot |}] else el_own l)
  | RemoveExit exit =>
      mkExitList (el_all l)
        (filter (λ e, ¬ (ed_target_slot e = ed_target_slot exit ∧
                         ed_validator_index e = ed_validator_index exit)) (el_own l))
  | PruneExits current_slot lookback =>
      mkExitList (filter (λ e, current_slot - lookback <= e.1)%N (el_all l))
        (filter (λ e, current_slot - lookback <= ed_target_slot e)%N (el_own l))
  | _ => l
  end.

Definition exit_list_run (evs : list TrackerEvent) : ExitList := foldl exit_list_event (mkExitList [] []) evs.

Record exits_refine (t : VoluntaryExitTracker) (l : ExitList) : Prop := {
  er_own : ∀ slot, default [] (scheduled_exits t !! slot) = filter (λ e, ed_target_slot e = slot) (el_own l);
  er_all : ∀ slot pk, exit_duty_count slot pk t = wrap64 (len (filter (λ e, e = (slot, pk)) (el_all l)));
}.

Lemma filter_comm {A} (P Q : A → Prop) `{!∀ x, Decision (P x), !∀ x, Decision (Q x)} (l : list A) :
  filter P (filter Q l) = filter Q (filter P l).
Proof. rewrite !list_filter_filter. apply list_filter_iff. tauto. Qed.

Lemma list_filter_all {A} (P : A → Prop) `{!∀ x, Decision (P x)} (l : list A) : Forall P l → filter P l = l.
Proof. induction 1 as [|x l Hx _ IH]; [done|]. rewrite filter_cons_True by done. by rewrite IH. Qed.

Lemma list_filter_none {A} (P : A → Prop) `{!∀ x, Decision (P x)} (l : list A) :
  Forall (λ x, ¬ P x) l → filter P l = [].
Proof. induction 1 as [|x l Hx _ IH]; [done|]. by rewrite filter_cons_False. Qed.

Lemma len_snoc {A} (l : list A) x : len (l ++ [x]) = (len l + 1)%N.
Proof. unfold len. rewrite length_app. cbn. lia. Qed.

Lemma wrap64_succ n : wrap64 (wrap64 n + 1) = wrap64 (n + 1).
Proof. unfold wrap64. by rewrite N.Div0.add_mod_idemp_l. Qed.

Lemma add_exit_refines slot pk index own t l :
  exits_refine t l →
  exits_refine (add_duty_for_slot slot pk index own t).2 (exit_list_event l (AddExit slot pk index own)).
Proof.
  intros [Ho Ha]. split.
  - intros s. transitivity (default [] (scheduled_exits t !! s) ++ if own && bool_decide (s = slot) then
      [{| ed_validator_pubkey := pk; ed_validator_index := index; ed_target_slot := slot |}] else []).
    + unfold add_duty_for_slot. destruct own; cbn; [|by rewrite app_nil_r].
      case_bool_decide as Hs; [subst; by rewrite lookup_insert_eq|].
      by rewrite lookup_insert_ne, app_nil_r.
    + rewrite Ho. destruct own; cbn; [|by rewrite app_nil_r]. rewrite filter_app. f_equal.
      case_bool_decide as Hs; [subst; by rewrite filter_cons_True|]. by rewrite filter_cons_False.
  - intros s k. assert (exit_duty_count s k (add_duty_for_slot slot pk index own t).2 =
      if decide ((slot, pk) = (s, k)) then wrap64 (exit_duty_count s k t + 1) else exit_duty_count s k t) as ->.
    { unfold add_duty_for_slot, exit_duty_count. destruct own; cbn; (
        destruct (decide (slot = s)) as [->|Hne];
          [rewrite lookup_insert_eq; cbn; destruct (decide (pk = k)) as [->|Hk];
             [by rewrite lookup_insert_eq, decide_True by done; destruct (all_duties_by_slot t !! s)|
              rewrite lookup_insert_ne, decide_False by naive_solver;
              by destruct (all_duties_by_slot t !! s)]|
           by rewrite lookup_insert_ne, decide_False by naive_solver]). }
    cbn. rewrite filter_app, Ha. case_decide as Hs.
    + rewrite filter_cons_True, filter_nil by done. by rewrite len_snoc, wrap64_succ.
    + by rewrite filter_cons_False, filter_nil, app_nil_r by done.
Qed.

Lemma remove_exit_refines exit t l :
  exits_refine t l → exits_refine (remove_processed_exit exit t) (exit_list_event l (RemoveExit exit)).
Proof.
  intros [Ho Ha]. split; [|intros s k; unfold remove_processed_exit; repeat case_match; apply Ha].
  intros s. cbn [exit_list_event el_own]. rewrite filter_comm, <- Ho.
  assert (default [] (scheduled_exits (remove_processed_exit exit t) !! s) =
    if decide (s = ed_target_slot exit)
    then filter (λ e, ed_validator_index e ≠ ed_validator_index exit) (default [] (scheduled_exits t !! s))
    else default [] (scheduled_exits t !! s)) as ->.
  { unfold remove_processed_exit. case_decide as Hs; [subst s|].
    - destruct (scheduled_exits t !! ed_target_slot exit) as [exits|] eqn:He; [|by rewrite He].
      case_bool_decide as Hn; cbn; [by rewrite lookup_delete_eq, Hn|by rewrite lookup_insert_eq].
    - destruct (scheduled_exits t !! ed_target_slot exit) as [exits|] eqn:He; [|done].
      case_bool_decide as Hn; cbn; [by rewrite lookup_delete_ne|by rewrite lookup_insert_ne]. }
  assert (Forall (λ e, ed_target_slot e = s) (default [] (scheduled_exits t !! s))) as Hall.
  { rewrite Ho. apply Forall_forall. by intros e [He _]%list_elem_of_filter. }
  induction Hall as [|e exits He _ IH]; [by case_decide|].
  case_decide as Hs; rewrite ?filter_cons; [|rewrite decide_True by naive_solver; by f_equal].
  do 2 case_decide; [by f_equal|naive_solver..|done].
Qed.

Lemma prune_exits_refines current lookback t l :
  exits_refine t l → exits_refine (exit_prune current lookback t) (exit_list_event l (PruneExits current lookback)).
Proof.
  intros [Ho Ha]. set (th := (current - lookback)%N).
  assert (∀ {A} (m : gmap Slot A) s, filter (λ kv, th <= kv.1)%N m !! s =
    if decide (th <= s)%N then m !! s else None) as Hf.
  { intros A m s. apply option_eq. intros x. rewrite map_lookup_filter_Some. case_decide; naive_solver. }
  split.
  - intros s. cbn. fold th. rewrite Hf, filter_comm, <- Ho.
    assert (Forall (λ e, ed_target_slot e = s) (default [] (scheduled_exits t !! s))) as Hall.
    { rewrite Ho. apply Forall_forall. by intros e [He _]%list_elem_of_filter. }
    case_decide as Hs; cbn.
    + symmetry. apply list_filter_all. eapply Forall_impl; [exact Hall|]. intros e ->. done.
    + symmetry. apply list_filter_none. eapply Forall_impl; [exact Hall|]. intros e ->. done.
  - intros s k. unfold exit_duty_count. cbn. fold th. rewrite Hf, filter_comm.
    specialize (Ha s k). unfold exit_duty_count in Ha.
    assert (Forall (λ e, e = (s, k)) (filter (λ e, e = (s, k)) (el_all l))) as Hall.
    { apply Forall_forall. by intros e [He _]%list_elem_of_filter. }
    case_decide as Hs.
    + rewrite Ha. do 2 f_equal. symmetry. apply list_filter_all. eapply Forall_impl; [exact Hall|]. by intros e ->.
    + cbn. rewrite list_filter_none; [done|]. eapply Forall_impl; [exact Hall|]. by intros e ->.
Qed.

(** The lists of a map, gathered in any order, are the elements filed under the keys. *)
Lemma gather_filed {A} (f : A → Slot) (P : Slot → bool) (m : gmap Slot (list A)) (l : list A) :
  (∀ slot, default [] (m !! slot) = filter (λ x, f x = slot) l) →
  (map_to_list m ≫= λ '(slot, xs), if P slot then xs else []) ≡ₚ filter (λ x, P (f x) = true) l.
Proof.
  revert l. induction m as [|slot xs m Hm IH] using map_ind; intros l Hl.
  - rewrite map_to_list_empty. cbn. rewrite list_filter_none; [done|]. apply Forall_forall. intros x Hx.
    specialize (Hl (f x)). rewrite lookup_empty in Hl. cbn in Hl.
    assert (x ∈ filter (λ y, f y = f x) l) as Hin by by apply list_elem_of_filter.
    rewrite <- Hl in Hin. by apply elem_of_nil in Hin.
  - rewrite map_to_list_insert by done. cbn. pose proof (Hl slot) as Hs. rewrite lookup_insert_eq in Hs. cbn in Hs.
    rewrite (IH (filter (λ x, f x ≠ slot) l)).
    + rewrite Hs. clear. induction l as [|x l IH]; [by destruct (P slot)|]. rewrite !(filter_cons _ x l).
      destruct (decide (f x = slot)) as [Hx|Hx]; [rewrite (decide_False (P:=f x ≠ slot)) by auto|rewrite (decide_True (P:=f x ≠ slot)) by auto].
      * rewrite Hx in *. destruct (P slot); cbn; [by rewrite decide_True, IH|by rewrite decide_False, IH].
      * rewrite filter_cons. destruct (decide (P (f x) = true)); [|done].
        rewrite <- Permutation_middle. by rewrite IH.
    + intros s. destruct (decide (s = slot)) as [->|Hne].
      * rewrite Hm. cbn. rewrite list_filter_none; [done|]. apply Forall_forall.
        by intros x [Hx _]%list_elem_of_filter.
      * specialize (Hl s). rewrite lookup_insert_ne in Hl by done. rewrite Hl, list_filter_filter.
        apply list_filter_iff. naive_solver.
Qed.

(** the exit tracker is a list of exits.  Over any sequence of requested, processed and
    pruned exits and polls, the exits that are ready at a slot are, in some order, the own
    exits requested for that slot or an earlier one that were neither processed nor pruned,
    each as often as it was requested; and the duty count the validator reads for a
    validator and a slot is the number of requests not yet pruned, modulo the width of the
    counter. *)
Theorem exit_tracker_refines spec slots_per_epoch evs current :
  let t := tracker_run spec slots_per_epoch evs in
  let l := exit_list_run evs in
  get_ready_exits current (dt_exits t) ≡ₚ filter (λ e, ed_target_slot e <=? current = true)%N (el_own l) ∧
  ∀ slot pk, get_voluntary_exit_duty_count (tracker_provider slots_per_epoch t) slot pk =
    wrap64 (len (filter (λ e, e = (slot, pk)) (el_all l))).
Proof.
  intros t l. assert (exits_refine (dt_exits t) l) as [Ho Ha].
  { unfold t, l, tracker_run, exit_list_run. clear t l.
    assert (exits_refine (dt_exits tracker_new) (mkExitList [] [])) as H0.
    { split; [done|]. intros slot pk. by vm_compute. }
    revert H0. generalize tracker_new, (mkExitList [] []).
    induction evs as [|ev evs IH]; intros t l H0; [done|]. cbn [foldl]. apply IH. clear IH.
    destruct ev as [now indices fetch|now fetch|now indices fetch|lookup|slot pk index own|exit|cur lookback];
      [| | | |by apply add_exit_refines|by apply remove_exit_refines|by apply prune_exits_refines].
    all: cbn [exit_list_event]; by rewrite other_event_exits. }
  split; [|done]. by apply (gather_filed ed_target_slot (λ slot, slot <=? current)%N).
Qed.

(** ** Proposer messages *)

Section accepted.
Context {C : Crypto} {Codec : SszCodec}.

Lemma lift_ok {S E A} (o : outcome E A) (s : S) a s' : lift o s = (Ok a, s') → o = Ok a.
Proof. by intros [= -> _]. Qed.

Lemma accepted_beacon_duty vc dp ds m ds' :
  validate_consensus_message vc dp ds = (Ok m, ds') → validate_beacon_duty vc dp (height m) false = Ok tt.
Proof.
  unfold validate_consensus_message. intros (m' & s0 & _ & H)%action_bind_ok.
  do 3 apply action_bind_ok in H as (? & ? & _ & H).
  apply action_bind_ok in H as (? & ? & Hd & H). do 2 apply action_bind_ok in H as (? & ? & _ & H).
  assert (m' = m) as -> by by injection H. clear H.
  unfold validate_qbft_message_by_duty_logic in Hd. apply action_bind_ok in Hd as (? & ? & _ & Hd).
  apply action_bind_ok in Hd as ([] & ? & Hb%lift_ok & _). done.
Qed.

End accepted.

(** ** A concrete tracker *)

Module SampleTracker.
Import SampleRules SampleConsensus SampleValidator.
#[local] Existing Instance SampleValidator.sized_crypto.

Definition proposer_key : PublicKeyBytes := replicate 48 x0a.

(** Validator 7 proposes at every slot of epoch one; the answer for the other epoch is
    missing. *)
Definition response : DutiesResponse (list ProposerData) :=
  {| dr_dependent_root := 0; dr_execution_optimistic := None;
     dr_data := (λ i, {| pd_pubkey := proposer_key; pd_validator_index := 7;
                         pd_slot := N.of_nat (32 + i) |}) <$> seq 0 32 |}.

Definition tracker_spec : TrackerSpec :=
  {| ts_altair_fork_epoch := Some 0%N; ts_gloas_fork_epoch := None;
     ts_epochs_per_sync_committee_period := 256 |}.

Definition tracker_events : list TrackerEvent :=
  [PollProposers (Some 40%N) (λ epoch, if (epoch =? 1)%N then Some response else None);
   AddExit 50 proposer_key 7 true; AddExit 50 proposer_key 7 true].

Definition proposer_message_id : MessageId :=
  message_id_new [x00; x00; x00; x01] Role.Proposer (ExecValidator proposer_key).

Definition proposer_prepare : QbftMessage :=
  {| qbft_message_type := Prepare; height := 40; round := 1; identifier := proposer_message_id;
     root := 7; data_round := 0; round_change_justification := []; prepare_justification := [] |}.

Definition signed_proposer_prepare : SignedSSVMessage :=
  {| signatures := [replicate 256 x02]; operator_ids := [2%N];
     ssv_message := {| msg_type := SSVConsensusMsgType; msg_id := proposer_message_id;
                       ssv_data := [x02] |};
     full_data := [] |}.

#[local] Instance proposer_codec : SszCodec :=
  {| signed_from_ssz := λ bs, if decide (bs = [x01]) then Some signed_proposer_prepare else None;
     signed_as_ssz := λ _, [x01];
     qbft_from_ssz := λ bs, if decide (bs = [x02]) then Some proposer_prepare else None;
     qbft_as_ssz := λ _, [x02]; psm_from_ssz := λ _, None |}.

Definition env : Env :=
  {| en_network := {| get_committee_info_by_committee_id := λ _, None;
                      get_committee_info_by_validator_pk := λ pk,
                        if decide (pk = proposer_key)
                        then Some {| committee_members := [1; 2; 3; 4]%N; validator_indices := [7%N] |}
                        else None;
                      operator_rsa_pubkey := λ o, Some o |};
     en_time := secs 481; en_slot_clock := sample_clock (Some 40%N);
     en_duties := tracker_provider 32 (tracker_run tracker_spec 32 tracker_events) |}.

Definition result : ValidatedMessage :=
  mkValidatedMessage signed_proposer_prepare (ValidatedQbft proposer_prepare).

Lemma accepted :
  validate sample_validator env [x01] SkipValidation ∅ =
    (Ok (Success result), (validate sample_validator env [x01] SkipValidation ∅).2).
Proof. rewrite (surjective_pairing (validate _ _ _ _ _)). apply f_equal2; [by vm_compute|done]. Qed.


(** Two requests of the same exit count twice. *)
Lemma exits_counted :
  get_voluntary_exit_duty_count (en_duties env) 50 proposer_key = 2%N ∧
  length (get_ready_exits 50 (dt_exits (tracker_run tracker_spec 32 tracker_events))) = 2.
Proof. by vm_compute. Qed.
End SampleTracker.
