(* ===== verification/MessageSender.v ===== *)
(** * The message sender

    [NetworkMessageSender] of [anchor/message_sender/src/network.rs] and the sender that
    only pretends to send ([impostor.rs]): a message is signed with the operator's RSA key
    in a closure of the processor and put on the network queue under the topic of its
    slot.  The theorem: everything on the network queue was handed to the sender while the
    node was synced, and what the sender signed itself verifies under the operator's key
    at every receiver. *)

From S2P Require Import Prelude SsvTypes Messages ForkSchedule ValidationTypes DutyState.
From S2P Require Import ValidatorRules ConsensusValidation PartialValidation Subnet Validator.
From S2P Require Import InstanceTask QbftManager Sample.

(** [message_sender::Error] *)
Module SenderError.
Inductive t :=
  | Processor (e : TrySendError)
  | NetworkQueueClosed
  | OwnOperatorIdUnknown
  | NotSynced
  | SubnetCalculation.
End SenderError.

Inductive SigningError :=
  | SignerError
  | IncorrectCiphertextLength (n : N).

Section sender.
Context {C : Crypto} {Codec : SszCodec}.
(** [openssl::sign::Signer] with SHA-256 under an RSA key; [None] is an [ErrorStack]. *)
Context {PrivateKey : Type} (signer_sign : PrivateKey → bytes → option bytes).
(** The key, and the router of the subnet service. *)
Context (private_key : PrivateKey) (router : TopicRouter).

(** A closure handed to the processor; the callback is a number. *)
Inductive SendWork :=
  | SignAndSend (message : UnsignedSSVMessage) (committee_id : CommitteeId)
      (operator_id : OperatorId) (additional_message_callback : option N)
  | SendSigned (message : SignedSSVMessage) (committee_id : CommitteeId).

(** The pending closures, the callbacks made, and the network queue. *)
Record NetworkMessageSender := {
  nms_work : list SendWork;
  nms_called_back : list (N * SignedSSVMessage);
  nms_network : list (string * bytes);
}.
#[export] Instance NetworkMessageSender_eta : Eta NetworkMessageSender := λ s,
  {| nms_work := nms_work s; nms_called_back := nms_called_back s; nms_network := nms_network s |}.

(** What a call reads: whether the network queue is closed, the own operator id, whether
    the node is synced, and what the processor answers. *)
Record SendEnv := {
  se_network_closed : bool;
  se_operator_id : option OperatorId;
  se_is_synced : bool;
  se_processor : option TrySendError;
}.

Abbreviation sends := (action NetworkMessageSender SenderError.t unit).

Definition send_blocking (env : SendEnv) (work : SendWork) : sends :=
  match se_processor env with
  | Some e => throw (SenderError.Processor e)
  | None => modify (λ s, s <| nms_work := nms_work s ++ [work] |>)
  end.

(** [sign_and_send] *)
Definition network_sign_and_send (env : SendEnv) (message : UnsignedSSVMessage)
    (committee_id : CommitteeId) (additional_message_callback : option N) : sends :=
  if se_network_closed env then throw SenderError.NetworkQueueClosed
  else match se_operator_id env with
  | None => throw SenderError.OwnOperatorIdUnknown
  | Some operator_id =>
      if negb (se_is_synced env) then throw SenderError.NotSynced
      else send_blocking env (SignAndSend message committee_id operator_id additional_message_callback)
  end.

(** [send] *)
Definition network_send (env : SendEnv) (message : SignedSSVMessage) (committee_id : CommitteeId)
    : sends :=
  if se_network_closed env then throw SenderError.NetworkQueueClosed
  else if negb (se_is_synced env) then throw SenderError.NotSynced
  else send_blocking env (SendSigned message committee_id).

(** [sign] *)
Definition sign (message : UnsignedSSVMessage) : outcome SigningError bytes :=
  let serialized := ssv_as_ssz (unsigned_ssv_message message) in
  signature ← ok_or (signer_sign private_key serialized) SignerError;
  _ ← ensure (len signature =? RSA_SIGNATURE_SIZE)%N (IncorrectCiphertextLength (len signature));
  Ok signature.

(** What a closure meets: the network state, and whether the network queue takes the
    message. *)
Record ClosureEnv := {
  ce_view : NetworkView;
  ce_admitted : bool;
}.

(** [do_send] with the end of it: [network_tx.try_send]. *)
Definition send_to_network (env : ClosureEnv) (message : SignedSSVMessage)
    (committee_id : CommitteeId) : sends := λ s,
  match do_send (ce_view env) router message committee_id with
  | Ok item => (Ok tt, if ce_admitted env then s <| nms_network := nms_network s ++ [item] |> else s)
  | Err _ => (Ok tt, s)
  | Panic => (Panic, s)
  end.

(** The closures. *)
Definition run_send_work (env : ClosureEnv) (work : SendWork) : sends :=
  match work with
  | SignAndSend message committee_id operator_id callback =>
      match sign message with
      | Ok signature =>
          match signed_message_new [signature] [operator_id] (unsigned_ssv_message message)
                  (unsigned_full_data message) with
          | Ok message =>
              _ ← match callback with
                  | Some callback =>
                      modify (λ s, s <| nms_called_back := nms_called_back s ++ [(callback, message)] |>)
                  | None => mret tt
                  end;
              send_to_network env message committee_id
          | Err _ => mret tt
          | Panic => lift Panic
          end
      | Err _ => mret tt
      | Panic => lift Panic
      end
  | SendSigned message committee_id => send_to_network env message committee_id
  end.

(** [ImpostorMessageSender]: the subnet is computed, nothing is sent. *)
Definition require_message_slot {A} (slot : option A) : outcome SenderError.t A :=
  ok_or slot SenderError.SubnetCalculation.

Definition impostor_send (nv : NetworkView) (ssv : SSVMessage) (committee_id : CommitteeId)
    : outcome SenderError.t unit :=
  message_slot ← require_message_slot (extract_slot ssv);
  _ ← map_err (λ _, SenderError.SubnetCalculation)
        (subnet_for_committee_at_slot nv router committee_id message_slot);
  Ok tt.

(** ** The sender over time *)

Inductive SenderEvent :=
  | CallSignAndSend (env : SendEnv) (message : UnsignedSSVMessage) (committee_id : CommitteeId)
      (callback : option N)
  | CallSend (env : SendEnv) (message : SignedSSVMessage) (committee_id : CommitteeId)
  | RunSendWork (env : ClosureEnv) (i : nat).

Definition sender_step (ev : SenderEvent) : sends :=
  match ev with
  | CallSignAndSend env message committee_id callback =>
      network_sign_and_send env message committee_id callback
  | CallSend env message committee_id => network_send env message committee_id
  | RunSendWork env i =>
      work ← gets (λ s, nms_work s !! i);
      _ ← modify (λ s, s <| nms_work := delete i (nms_work s) |>);
      from_option (run_send_work env) (mret tt) work
  end.

Definition sender_new : NetworkMessageSender :=
  {| nms_work := []; nms_called_back := []; nms_network := [] |}.

Definition sender_run (evs : list SenderEvent) : NetworkMessageSender :=
  foldl (λ s ev, (sender_step ev s).2) sender_new evs.

(** ** What is on the queue *)

(** The private key's public key, and what signing promises. *)
Context (public_key : PubKey).
Hypothesis sign_verifies : ∀ message signature,
  signer_sign private_key message = Some signature → rsa_verify public_key message signature = true.

(** A message this node signed for a caller. *)
Definition signed_for (unsigned : UnsignedSSVMessage) (operator_id : OperatorId)
    (message : SignedSSVMessage) : Prop :=
  ssv_message message = unsigned_ssv_message unsigned ∧
  full_data message = unsigned_full_data unsigned ∧
  operator_ids message = [operator_id] ∧ signed_wf message ∧
  ∀ keys, keys !! operator_id = Some public_key → verify_message_signatures message keys = Ok tt.

Section runs.
Context (evs : list SenderEvent).

(** A call of the run, made while the node was synced, asked for this. *)
Definition work_called (work : SendWork) : Prop :=
  match work with
  | SignAndSend message committee_id operator_id callback =>
      ∃ env, CallSignAndSend env message committee_id callback ∈ evs ∧
        se_operator_id env = Some operator_id ∧ se_is_synced env = true ∧ se_network_closed env = false
  | SendSigned message committee_id =>
      ∃ env, CallSend env message committee_id ∈ evs ∧ se_is_synced env = true ∧
        se_network_closed env = false
  end.

(** The message of the closure. *)
Definition message_of (work : SendWork) (message : SignedSSVMessage) : Prop :=
  match work with
  | SignAndSend unsigned _ operator_id _ => signed_for unsigned operator_id message
  | SendSigned message' _ => message = message'
  end.

Definition work_committee (work : SendWork) : CommitteeId :=
  match work with SignAndSend _ committee_id _ _ | SendSigned _ committee_id => committee_id end.

Definition item_ok (item : string * bytes) : Prop :=
  ∃ work message nv, work_called work ∧ message_of work message ∧
    do_send nv router message (work_committee work) = Ok item.

Record sender_ok (s : NetworkMessageSender) : Prop := {
  so_work : Forall work_called (nms_work s);
  so_network : Forall item_ok (nms_network s);
}.

Lemma signed_new_for message signature operator_id signed :
  signer_sign private_key (ssv_as_ssz (unsigned_ssv_message message)) = Some signature →
  signed_message_new [signature] [operator_id] (unsigned_ssv_message message)
    (unsigned_full_data message) = Ok signed →
  signed_for message operator_id signed.
Proof.
  intros Hs%sign_verifies (<- & Hwf)%signed_message_new_ok. split_and!; [done..|].
  intros keys Hk. unfold verify_message_signatures. cbn. rewrite Hk. cbn.
  unfold verify_message_signature. cbn. by rewrite Hs.
Qed.

Lemma send_to_network_keeps work env message :
  work_called work → message_of work message →
  keeps sender_ok (send_to_network env message (work_committee work)).
Proof.
  intros Hw Hm s [Hs Hn]. unfold send_to_network.
  destruct (do_send _ _ _ _) as [item|e|] eqn:Hd; [|done..]. cbn.
  destruct (ce_admitted env); [|done]. split; cbn; [done|]. apply Forall_app_2; [done|].
  constructor; [|done]. by exists work, message, (ce_view env).
Qed.

Lemma run_send_work_keeps env work : work_called work → keeps sender_ok (run_send_work env work).
Proof.
  intros Hw. destruct work as [message committee_id operator_id callback|message committee_id]; cbn [run_send_work].
  2: { by apply (send_to_network_keeps (SendSigned message committee_id)). }
  destruct (sign message) as [signature| |] eqn:Hsig; [|apply keeps_ret|apply keeps_lift].
  destruct (signed_message_new _ _ _ _) as [signed| |] eqn:Hnew; [|apply keeps_ret|apply keeps_lift].
  apply bind_ok in Hsig as (signature' & Hsig%ok_or_ok & H). apply bind_ok in H as (_ & _ & [= <-]).
  apply keeps_bind.
  - destruct callback as [cb|]; [|apply keeps_ret]. apply keeps_modify. by intros s [].
  - intros _. apply (send_to_network_keeps (SignAndSend message committee_id operator_id callback)); [done|].
    by eapply signed_new_for.
Qed.

Lemma send_blocking_keeps env work : work_called work → keeps sender_ok (send_blocking env work).
Proof.
  intros Hw. unfold send_blocking. destruct (se_processor env); [apply keeps_throw|].
  apply keeps_modify. intros s [Hs Hn]. split; cbn; [|done]. by apply Forall_app_2; [|constructor].
Qed.

Lemma sender_step_keeps ev : ev ∈ evs → keeps sender_ok (sender_step ev).
Proof.
  intros Hev. destruct ev as [env message committee_id callback|env message committee_id|env i]; cbn.
  - unfold network_sign_and_send. destruct (se_network_closed env) eqn:Hc; [apply keeps_throw|].
    destruct (se_operator_id env) eqn:Ho; [|apply keeps_throw].
    destruct (se_is_synced env) eqn:Hs; [|apply keeps_throw].
    apply send_blocking_keeps. by exists env.
  - unfold network_send. destruct (se_network_closed env) eqn:Hc; [apply keeps_throw|].
    destruct (se_is_synced env) eqn:Hs; [|apply keeps_throw].
    apply send_blocking_keeps. by exists env.
  - apply (keeps_pop sender_ok nms_work work_called).
    + by intros s [].
    + intros s [Hs Hn]. split; [|done]. cbn. by apply Forall_delete.
    + intros work. apply run_send_work_keeps.
Qed.
End runs.

(** C17: what leaves the node.  Whatever is asked of the sender, and however its closures
    interleave, an item on the network queue is the encoding of a message under the topic
    of its slot, asked for by a call made while the node was synced and knew its operator
    id: a message that was handed over signed, or the structurally valid message with the
    caller's content that the sender signed itself, with the own operator as its only
    signer, which every receiver that knows the operator's key verifies. *)
Theorem sent_items_signed evs item :
  item ∈ nms_network (sender_run evs) →
  ∃ message committee_id nv, do_send nv router message committee_id = Ok item ∧
    ((∃ env, CallSend env message committee_id ∈ evs ∧ se_is_synced env = true) ∨
     ∃ env unsigned callback operator_id, CallSignAndSend env unsigned committee_id callback ∈ evs ∧
       se_is_synced env = true ∧ se_operator_id env = Some operator_id ∧
       ssv_message message = unsigned_ssv_message unsigned ∧
       full_data message = unsigned_full_data unsigned ∧
       operator_ids message = [operator_id] ∧ signed_wf message ∧
       ∀ keys, keys !! operator_id = Some public_key → verify_message_signatures message keys = Ok tt).
Proof.
  intros Hitem. assert (sender_ok evs (sender_run evs)) as Hok.
  { unfold sender_run. assert (evs ⊆ evs) as Hsub by done. revert Hsub. generalize evs at 1 4 as l.
    intros l. assert (sender_ok evs sender_new) as H by by split. revert H. generalize sender_new.
    induction l as [|ev l IH]; intros s Hs Hsub; [done|]. cbn [foldl]. apply IH; [|set_solver].
    apply sender_step_keeps; [set_solver|done]. }
  apply so_network in Hok. rewrite Forall_forall in Hok.
  destruct (Hok _ Hitem) as (work & message & nv & Hw & Hm & Hd).
  exists message, (work_committee work), nv. split; [done|].
  destruct work as [unsigned committee_id operator_id callback|message' committee_id]; cbn in *.
  - right. destruct Hw as (env & ? & ? & ? & _). exists env, unsigned, callback, operator_id.
    by destruct Hm as (? & ? & ? & ? & ?).
  - subst message'. left. destruct Hw as (env & ? & ? & _). by exists env.
Qed.
End sender.

(** ** A concrete sender *)

Module SampleSender.
Import SampleRules SampleConsensus SampleValidator.
#[local] Existing Instance SampleValidator.sized_crypto.
#[local] Existing Instance SampleValidator.one_message_codec.

(** A key signs with 256 copies of itself. *)
Definition toy_sign (key : N) (_ : bytes) : option bytes :=
  Some (concat (replicate 256 (to_le_bytes 1 key))).

Definition unsigned : UnsignedSSVMessage :=
  {| unsigned_ssv_message := ssv_message signed_prepare; unsigned_full_data := [] |}.

Definition call_env : SendEnv :=
  {| se_network_closed := false; se_operator_id := Some 2%N; se_is_synced := true;
     se_processor := None |}.

Definition events : list SenderEvent :=
  [CallSignAndSend call_env unsigned sample_committee_id None;
   RunSendWork {| ce_view := sample_view; ce_admitted := true |} 0].

Lemma sent_items_signed_witness :
  ∃ topic data message, nms_network (sender_run toy_sign 2%N sample_router events) = [(topic, data)] ∧
    operator_ids message = [2%N] ∧ verify_message_signatures message {[2%N := 2%N]} = Ok tt.
Proof.
  assert (nms_network (sender_run toy_sign 2%N sample_router events) = [("ssv.v2.7"%string, prepare_bytes)])
    as Hn by (vm_compute; reflexivity).
  destruct (sent_items_signed (C:=sized_crypto) toy_sign 2%N sample_router 2%N ltac:(by intros ? ? [= <-]) events
    ("ssv.v2.7"%string, prepare_bytes))
    as (message & cid & nv & Hd & [(env & Hin & _)|(env & u & cb & op & Hin & _ & Hop & _ & _ & Hids & _ & Hver)]).
  - rewrite Hn. by left.
  - unfold events in Hin. rewrite !elem_of_cons, elem_of_nil in Hin. by destruct Hin as [[=]|[[=]|[]]].
  - unfold events in Hin. rewrite !elem_of_cons, elem_of_nil in Hin.
    destruct Hin as [[= -> -> -> ->]|[[=]|[]]]. injection Hop as <-.
    exists "ssv.v2.7"%string, prepare_bytes, message. split; [done|]. split; [done|]. by apply Hver.
Defined.
End SampleSender.
