(* ===== verification/MessageReceiver.v ===== *)
(** * The message receiver

    [NetworkMessageReceiver] of [anchor/message_receiver/src/manager.rs], the place where
    the parts of the node meet: a gossip message is queued with the processor, validated,
    reported to the network layer, matched with the duties of the local operator, checked
    for a doppelgänger, and handed to the QBFT manager or the signature collector.  The
    theorems: whatever waits in an inbox of the QBFT manager or of a collector came from a
    message that passed the validator and concerns the local operator, so that what the
    instances and collectors require of their input holds for the node as a whole; and
    while the node watches for a doppelgänger nothing from the network reaches them. *)

From S2P Require Import Prelude SsvTypes Messages QbftTypes ForkSchedule ValidationTypes DutyState.
From S2P Require Import QbftInv Sample ValidatorRules ConsensusValidation PartialValidation Subnet Validator.
From S2P Require Import NetworkState InstanceTask InstanceRuns QbftManager QbftRouting Doppelganger.
From S2P Require Import SampleBls MultiIndex CollectorState SignatureCollector SignatureRouting.

Section receiver.
(** [libp2p::PeerId] and [gossipsub::MessageId]. *)
Context {PeerId GossipId : Type}.
Context {C : Crypto} {Codec : SszCodec}.
Context {PCD BV GBV ACD : Type}.
Context (eth_slots_per_epoch : positive) (gloas_enabled_at_slot : Slot → bool).
Context {SecretKey : Type} (sk_sign : SecretKey → Hash256 → Signature).
Context (psm_as_ssz : PartialSignatureMessages → bytes).
(** [self.validator] *)
Context (v : Validator).

Abbreviation Manager := (QbftManager (ProposerConsensusData:=PCD) (BeaconVote:=BV)
  (GloasBeaconVote:=GBV) (AggregatorCommitteeConsensusData:=ACD)).
Abbreviation Collectors := (SignatureCollectorManager (SecretKey:=SecretKey)).
Abbreviation CollectorEnv := (SignatureCollector.Environment (SecretKey:=SecretKey)).
Abbreviation CollectorCall := (ManagerEvent (SecretKey:=SecretKey)).

(** [struct Outcome] *)
Record Outcome := {
  oc_message_id : GossipId;
  oc_propagation_source : PeerId;
  oc_action : MessageAcceptance;
}.

(** The arguments of [receive], captured by the closure. *)
Record GossipMessage := {
  gm_propagation_source : PeerId;
  gm_message_id : GossipId;
  gm_data : bytes;
  gm_topic_context : TopicContext;
}.

(** [NetworkMessageReceiver] with the parts it hands messages to: the duty states of the
    validator, the QBFT manager, the signature collector with the calls it has had, the
    doppelgänger service, the outcomes reported and the closures the processor holds. *)
Record Node := {
  nd_duty_states : gmap (list byte) DutyState;
  nd_qbft : Manager;
  nd_collector : Collectors;
  nd_collector_calls : list (CollectorEnv * CollectorCall);
  nd_doppelganger : option OperatorDoppelgangerService;
  nd_outcomes : list Outcome;
  nd_pending : list GossipMessage;
}.

#[export] Instance Node_eta : Eta Node := λ n,
  {| nd_duty_states := nd_duty_states n; nd_qbft := nd_qbft n; nd_collector := nd_collector n;
     nd_collector_calls := nd_collector_calls n; nd_doppelganger := nd_doppelganger n;
     nd_outcomes := nd_outcomes n; nd_pending := nd_pending n |}.

(** What a closure reads while it runs.  The network state is read once by the validator
    and again for the check of interest, the own id again by the doppelgänger service. *)
Record ReceiveEnv := {
  re_validated_state : NetworkState;
  re_time : N;
  re_slot_clock : SlotClock;
  re_duties : DutiesProvider;
  re_is_synced : bool;
  re_outcome_admitted : bool;
  re_state : NetworkState;
  re_own_operator_id : option OperatorId;
  re_processor : option QbftManager.TrySendError;
  re_collector : CollectorEnv;
}.

Definition validation_env (env : ReceiveEnv) : Env :=
  {| en_network := network_view (re_validated_state env); en_time := re_time env;
     en_slot_clock := re_slot_clock env; en_duties := re_duties env |}.

Implicit Types (env : ReceiveEnv) (n : Node) (gm : GossipMessage).

(** A call into a part of the node; its error is a value. *)
Definition within {T E A} (get : Node → T) (set : T → Node → Node) (m : action T E A)
    : action Node Empty_set (outcome E A) := λ n,
  match m (get n) with
  | (Panic, t) => (Panic, set t n)
  | (o, t) => (Ok o, set t n)
  end.

(** A call of the signature collector. *)
Definition collector_call (cenv : CollectorEnv) (call : CollectorCall) : action Node Empty_set unit :=
  _ ← modify (λ n, n <| nd_collector_calls := nd_collector_calls n ++ [(cenv, call)] |>);
  _ ← within nd_collector (λ c n, n <| nd_collector := c |>)
        (collector_manager_step sk_sign psm_as_ssz cenv call);
  mret tt.

(** [receive]: the closure is queued with the processor, or refused. *)
Definition node_receive (processor : option QbftManager.TrySendError) gm
    : action Node QbftManager.TrySendError unit :=
  match processor with
  | Some e => throw e
  | None => modify (λ n, n <| nd_pending := nd_pending n ++ [gm] |>)
  end.

(** The action reported to gossipsub. *)
Definition reported_action (is_synced : bool) (result : ValidationResult) : MessageAcceptance :=
  match result_acceptance result with
  | Reject => if is_synced then Reject else Ignore
  | action => action
  end.

(** Whether the message is for a validator or a committee of the local operator. *)
Definition interested (state : NetworkState) (executor : option DutyExecutor) : bool :=
  match executor with
  | Some (ExecValidator validator) =>
      bool_decide (is_Some (get_by validator (ms_shares (ns_multi state))))
  | Some (ExecCommittee committee_id) =>
      match get_own_id state with
      | None => false
      | Some own_id =>
          default false
            ((λ c, bool_decide (own_id ∈ cl_cluster_members c)) <$>
               head (get_all_by_quaternary committee_id (ms_clusters (ns_multi state))))
      end
  | None => false
  end.

(** The end of the closure: to the QBFT manager or to the signature collector. *)
Definition dispatch env (signed : SignedSSVMessage) (ssv_message_ : ValidatedSSVMessage)
    : action Node Empty_set unit :=
  match ssv_message_ with
  | ValidatedQbft qbft_message =>
      _ ← within nd_qbft (λ q n, n <| nd_qbft := q |>)
            (receive_data eth_slots_per_epoch gloas_enabled_at_slot pk_deserialize
               (re_processor env) signed qbft_message);
      mret tt
  | ValidatedPartial messages =>
      collector_call (re_collector env)
        (if bool_decide (message_id_role (msg_id (ssv_message signed)) = Some Role.Proposer)
         then ReceiveProposerPartialSignatures messages
         else ReceivePartialSignatures messages)
  end.

(** The part of the closure after the validation succeeded. *)
Definition process_validated env (vm : ValidatedMessage) : action Node Empty_set unit :=
  let signed := vm_signed vm in
  if negb (interested (re_state env)
             (message_id_duty_executor pk_deserialize (msg_id (ssv_message signed))))
  then mret tt
  else
    service ← gets nd_doppelganger;
    match service with
    | Some service =>
        if is_monitoring service then
          modify (λ n, n <| nd_doppelganger :=
            Some (check_message (re_own_operator_id env) signed (vm_ssv_message vm) service) |>)
        else dispatch env signed (vm_ssv_message vm)
    | None => dispatch env signed (vm_ssv_message vm)
    end.

(** The closure of [receive]. *)
Definition process env gm : action Node Empty_set unit :=
  result ← within nd_duty_states (λ map n, n <| nd_duty_states := map |>)
             (validate v (validation_env env) (gm_data gm) (gm_topic_context gm));
  match result with
  | Ok result =>
      _ ← modify (λ n, if re_outcome_admitted env then
            n <| nd_outcomes := nd_outcomes n ++
                 [{| oc_message_id := gm_message_id gm;
                     oc_propagation_source := gm_propagation_source gm;
                     oc_action := reported_action (re_is_synced env) result |}] |>
          else n);
      match result with
      | Success vm => process_validated env vm
      | PreDecodeFailure _ | PostDecodeFailure _ _ => mret tt
      end
  | _ => mret tt
  end.

(** ** The node over time *)

(** A closure that runs, a message that arrives, a round of the validator's cleaner, the
    end of the doppelgänger watch, or a call of the signature collector that is made by
    the node itself. *)
Inductive NodeEvent :=
  | GossipArrives (processor : option QbftManager.TrySendError) (gm : GossipMessage)
  | ClosureRuns (env : ReceiveEnv) (i : nat)
  | ValidatorCleans (now : Slot)
  | MonitorReturns (branch : MonitorBranch)
  | CollectorCalled (cenv : CollectorEnv) (call : CollectorCall).

Definition is_network_call (call : CollectorCall) : bool :=
  match call with
  | ReceivePartialSignatures _ | ReceiveProposerPartialSignatures _ => true
  | _ => false
  end.

Definition run_pending env (i : nat) : action Node Empty_set unit :=
  gm ← gets (λ n, nd_pending n !! i);
  _ ← modify (λ n, n <| nd_pending := delete i (nd_pending n) |>);
  from_option (process env) (mret tt) gm.

Definition node_event (ev : NodeEvent) n : Node :=
  match ev with
  | GossipArrives processor gm => (node_receive processor gm n).2
  | ClosureRuns env i => (run_pending env i n).2
  | ValidatorCleans now => n <| nd_duty_states := cleaner now (nd_duty_states n) |>
  | MonitorReturns branch =>
      n <| nd_doppelganger := (λ s, (monitor_blocking branch s).2) <$> nd_doppelganger n |>
  | CollectorCalled cenv call =>
      if is_network_call call then n else (collector_call cenv call n).2
  end.

Definition node_run (evs : list NodeEvent) n : Node := foldl (λ n ev, node_event ev n) n evs.

(** Callers of the QBFT manager start instances, its cleaner runs. *)
Inductive node_step : Node → Node → Prop :=
  | step_event ev n : node_step n (node_event ev n)
  | step_instance D (H : QbftDecidable (ProposerConsensusData:=PCD) (BeaconVote:=BV)
        (GloasBeaconVote:=GBV) (AggregatorCommitteeConsensusData:=ACD) D) (R : Routable D H)
        processor id initial validator mode members cb n :
      key_wf (key_of id) →
      node_step n (n <| nd_qbft := (decide_instance eth_slots_per_epoch processor id initial
                         validator mode members cb (nd_qbft n)).2 |>)
  | step_cleaner now n : node_step n (n <| nd_qbft := cleaner_pass now (nd_qbft n) |>).

(** The node at its start. *)
Definition node_new (operator_id : option OperatorId) (schedule : ForkSchedule)
    (service : option OperatorDoppelgangerService) : Node :=
  {| nd_duty_states := ∅; nd_qbft := manager_new operator_id (va_slots_per_epoch v) schedule;
     nd_collector := collector_manager_new operator_id schedule (va_slots_per_epoch v);
     nd_collector_calls := []; nd_doppelganger := service; nd_outcomes := []; nd_pending := [] |}.

(** ** What was accepted *)

(** A message that the validator accepted for a state of the network, and that concerns
    the local operator. *)
Record admitted (st : NetworkState) (vm : ValidatedMessage) : Prop := {
  ad_validated : ∃ (venv : Env) data ctx map map', en_network venv = network_view st ∧
    validate v venv data ctx map = (Ok (Success vm), map');
  ad_interested : ∃ state, interested state
    (message_id_duty_executor pk_deserialize (msg_id (ssv_message (vm_signed vm)))) = true;
}.

(** The inboxes hold admitted messages, under the key they name. *)
Definition inboxes_admitted (m : Manager) : Prop := ∀ key w, w ∈ inbox m key →
  addressed pk_deserialize key (signed_message w) (qbft_message w) ∧
  ∃ st, admitted st (mkValidatedMessage (signed_message w) (ValidatedQbft (qbft_message w))).

(** The packets handed to the collector were admitted. *)
Definition packets_admitted (calls : list (CollectorEnv * CollectorCall)) : Prop :=
  ∀ msgs, packets calls msgs → ∃ st signed, admitted st (mkValidatedMessage signed (ValidatedPartial msgs)).

Record node_ok operator_id schedule n : Prop := {
  no_domains : domains_wf (mg_fork_schedule (nd_qbft n));
  no_queues : queues_ok (nd_qbft n);
  no_inboxes : inboxes_admitted (nd_qbft n);
  no_collector : nd_collector n = collector_manager_run sk_sign psm_as_ssz (nd_collector_calls n)
    (collector_manager_new operator_id schedule (va_slots_per_epoch v));
  no_packets : packets_admitted (nd_collector_calls n);
}.

Lemma admitted_round st signed m :
  admitted st (mkValidatedMessage signed (ValidatedQbft m)) → round m ≠ 0%N.
Proof.
  intros [(venv & data & ctx & map & map' & _ & Hv) _].
  apply validate_success in Hv as (_ & [_ (role & info & ds & ds' & _ & _ & _ & _ & Hv & _)]).
  destruct (wp_result _ _ _ _ _ (validate_ssv_message_wp _ _ _) Hv) as [_ Hp].
  destruct (Hp _ eq_refl) as [_ [_ Hr]].
  destruct (wp_result _ _ _ _ _ (validate_consensus_message_wp _ _ _) Hr) as [_ Hq].
  destruct (Hq m eq_refl) as (_ & [_ _ (? & ? & _ & _ & ?) _ _] & _). cbn in *. lia.
Qed.

(** *** Every step keeps the invariant *)

Section invariant.
Context (operator_id : option OperatorId) (schedule : ForkSchedule).
Abbreviation ok := (node_ok operator_id schedule).

Lemma node_ok_frame n n' :
  nd_qbft n' = nd_qbft n → nd_collector n' = nd_collector n →
  nd_collector_calls n' = nd_collector_calls n → ok n → ok n'.
Proof. intros Hq Hc Hcalls []. split; by rewrite ?Hq, ?Hc, ?Hcalls. Qed.

Lemma collector_call_eq cenv call n :
  nd_qbft (collector_call cenv call n).2 = nd_qbft n ∧
  nd_collector (collector_call cenv call n).2 =
    (collector_manager_step sk_sign psm_as_ssz cenv call (nd_collector n)).2 ∧
  nd_collector_calls (collector_call cenv call n).2 = nd_collector_calls n ++ [(cenv, call)].
Proof.
  unfold collector_call, within, modify, mbind, action_bind. cbn -[collector_manager_step].
  by destruct (collector_manager_step _ _ _ _ _) as [[]].
Qed.

Lemma packets_snoc calls cenv call :
  packets_admitted calls →
  (∀ msgs, call = ReceivePartialSignatures msgs ∨ call = ReceiveProposerPartialSignatures msgs →
     ∃ st signed, admitted st (mkValidatedMessage signed (ValidatedPartial msgs))) →
  packets_admitted (calls ++ [(cenv, call)]).
Proof.
  intros Hp Hc msgs (cenv' & [Hin|Hin]); apply elem_of_app in Hin as [Hin|Hin].
  - apply Hp. exists cenv'. by left.
  - apply list_elem_of_singleton in Hin as [= _ <-]. apply Hc. by left.
  - apply Hp. exists cenv'. by right.
  - apply list_elem_of_singleton in Hin as [= _ <-]. apply Hc. by right.
Qed.

Lemma collector_call_ok cenv call n :
  (∀ msgs, call = ReceivePartialSignatures msgs ∨ call = ReceiveProposerPartialSignatures msgs →
     ∃ st signed, admitted st (mkValidatedMessage signed (ValidatedPartial msgs))) →
  ok n → ok (collector_call cenv call n).2.
Proof.
  intros Hcall [Hd Hq Hi Hc Hp]. destruct (collector_call_eq cenv call n) as (Eq & Ec & Ecalls).
  split; rewrite ?Eq, ?Ec, ?Ecalls; [done..| |by apply packets_snoc].
  unfold collector_manager_run. rewrite foldl_app. cbn [foldl fst snd]. by rewrite Hc.
Qed.

Lemma dispatch_ok env st vm n :
  admitted st vm → ok n → ok (dispatch env (vm_signed vm) (vm_ssv_message vm) n).2.
Proof.
  intros Had Hn. destruct vm as [signed [m|msgs]]; cbn [vm_signed vm_ssv_message dispatch].
  - set (r := receive_data eth_slots_per_epoch gloas_enabled_at_slot pk_deserialize
                (re_processor env) signed m (nd_qbft n)).
    destruct Hn as [Hd Hq Hi Hc Hp].
    assert (ok (n <| nd_qbft := r.2 |>)) as Hr.
    { split; cbn; [| | |done|done].
      - unfold r. apply (route_case _ _ _ (λ m', domains_wf (mg_fork_schedule m'))); [done|].
        intros D H R id w _. by rewrite pass_schedule.
      - apply route_queues_ok; [done|]. by eapply admitted_round.
      - intros key w [Hw|[-> Ha]]%route_inbox; [by apply Hi|]. split; [done|]. by exists st. }
    unfold within, mbind, action_bind. fold r. by destruct r as [[]].
  - apply collector_call_ok; [|done]. intros msgs' Hm. exists st, signed.
    by case_bool_decide; destruct Hm as [[=]|[=]]; subst.
Qed.

Lemma process_validated_ok env vm n :
  (∃ data ctx map map', validate v (validation_env env) data ctx map = (Ok (Success vm), map')) →
  ok n → ok (process_validated env vm n).2.
Proof.
  intros (data & ctx & map & map' & Hv) Hn. unfold process_validated.
  destruct (interested _ _) eqn:Hint; cbn [negb]; [|done].
  assert (admitted (re_validated_state env) vm) as Had.
  { split; [|by exists (re_state env)]. by exists (validation_env env), data, ctx, map, map'. }
  unfold gets, mbind, action_bind. destruct (nd_doppelganger n) as [service|]; [|by eapply dispatch_ok].
  destruct (is_monitoring service); [by apply (node_ok_frame n)|by eapply dispatch_ok].
Qed.

(** A closure up to the check of interest. *)
Definition reported env gm (result : ValidationResult) (map : gmap (list byte) DutyState) n : Node :=
  let n := n <| nd_duty_states := map |> in
  if re_outcome_admitted env then
    n <| nd_outcomes := nd_outcomes n ++
         [{| oc_message_id := gm_message_id gm; oc_propagation_source := gm_propagation_source gm;
             oc_action := reported_action (re_is_synced env) result |}] |>
  else n.

Lemma process_eq env gm n :
  process env gm n =
  match validate v (validation_env env) (gm_data gm) (gm_topic_context gm) (nd_duty_states n) with
  | (Ok (Success vm), map) => process_validated env vm (reported env gm (Success vm) map n)
  | (Ok result, map) => (Ok tt, reported env gm result map n)
  | (Err _, map) => (Ok tt, n <| nd_duty_states := map |>)
  | (Panic, map) => (Panic, n <| nd_duty_states := map |>)
  end.
Proof.
  unfold process, within, mbind, action_bind, modify, reported.
  by destruct (validate _ _ _ _ _) as [[[]| |] map].
Qed.

Lemma reported_eq env gm result map n :
  nd_qbft (reported env gm result map n) = nd_qbft n ∧
  nd_collector (reported env gm result map n) = nd_collector n ∧
  nd_collector_calls (reported env gm result map n) = nd_collector_calls n ∧
  nd_doppelganger (reported env gm result map n) = nd_doppelganger n ∧
  nd_pending (reported env gm result map n) = nd_pending n.
Proof. unfold reported. by destruct (re_outcome_admitted env). Qed.

Lemma process_ok env gm n : ok n → ok (process env gm n).2.
Proof.
  intros Hn. rewrite process_eq.
  destruct (validate _ _ _ _ _) as [[result| |] map] eqn:Hv; [|by apply (node_ok_frame n)..].
  destruct (reported_eq env gm result map n) as (? & ? & ? & _).
  assert (ok (reported env gm result map n)) by by apply (node_ok_frame n).
  destruct result as [vm| |]; [|done..]. apply process_validated_ok; [|done]. by do 4 eexists.
Qed.

Lemma node_event_ok ev n : ok n → ok (node_event ev n).
Proof.
  intros Hn. destruct ev as [processor gm|env i|now|branch|cenv call]; cbn.
  - destruct processor; [done|by apply (node_ok_frame n)].
  - unfold run_pending, gets, modify, mbind, action_bind.
    destruct (nd_pending n !! i) as [gm|]; cbn [from_option]; [apply process_ok|]; by apply (node_ok_frame n).
  - by apply (node_ok_frame n).
  - by apply (node_ok_frame n).
  - destruct (is_network_call call) eqn:Hc; [done|]. apply collector_call_ok; [|done].
    by intros msgs [-> | ->].
Qed.

Lemma node_step_ok n n' : node_step n n' → ok n → ok n'.
Proof.
  intros [ev n0|D H R processor id initial validator mode members cb n0 Hwf|now n0].
  - apply node_event_ok.
  - intros [Hd Hq Hi Hc Hp].
    pose proof (step_decide eth_slots_per_epoch gloas_enabled_at_slot pk_deserialize D H R processor
      id initial validator mode members cb (nd_qbft n0) Hwf) as Hs.
    destruct (manager_step_ok _ _ _ _ _ Hs Hd Hq).
    split; [done..| |done|done]. intros key w. cbn. rewrite decide_instance_inbox by done. apply Hi.
  - intros [Hd Hq Hi Hc Hp].
    split; cbn; [by destruct now|by apply cleaner_queues_ok| |done|done].
    intros key w Hw%cleaner_inbox. by apply Hi.
Qed.

Lemma node_new_ok service : domains_wf schedule → ok (node_new operator_id schedule service).
Proof.
  intros Hd. split; cbn; [done| | |done|].
  - split; cbn; apply map_Forall_empty.
  - intros [k|k|k|k] w; cbn; rewrite lookup_empty; by intros ?%elem_of_nil.
  - intros msgs (? & [Hin|Hin]); by apply elem_of_nil in Hin.
Qed.

Lemma reachable_ok service n :
  domains_wf schedule → rtc node_step (node_new operator_id schedule service) n → ok n.
Proof.
  intros Hd. revert n. apply (rtc_ind_r ok); [by apply node_new_ok|].
  intros n n' _ Hs. by apply node_step_ok.
Qed.
End invariant.

(** ** What reaches the instances *)

(** An admitted message, taken apart. *)
Lemma admitted_checked st vm :
  admitted st vm →
  let signed := vm_signed vm in
  let id := msg_id (ssv_message signed) in
  signed_wf signed ∧
  ∃ role info vc dp ds ds', message_id_role id = Some role ∧
    committee_info_of (network_view st) role (message_id_duty_executor pk_deserialize id) = Ok info ∧
    vc_signed vc = signed ∧ vc_committee vc = info ∧
    vc_operator_pub_keys vc = get_operator_pub_keys (network_view st) (committee_members info) ∧
    (∀ o, o ∈ operator_ids signed →
       o ∈ committee_members info ∧ signed_by (network_view st) o (ssv_message signed)) ∧
    match vm_ssv_message vm with
    | ValidatedQbft m => validate_consensus_message vc dp ds = (Ok m, ds')
    | ValidatedPartial m => validate_partial_signature_message vc dp ds = (Ok m, ds')
    end.
Proof.
  intros [(venv & data & ctx & map & map' & Henv & Hv) _].
  apply validate_success in Hv as (_ & [Hwf (role & info & ds & ds' & Hrole & Hinfo & _ & _ & Hv & _)]).
  cbn zeta. split; [done|]. exists role, info, (context_of v venv (vm_signed vm) role info), (en_duties venv), ds, ds'.
  pose proof (validated_signed_by _ _ _ _ _ _ _ _ _ Hv) as Hs. rewrite Henv in Hs, Hinfo.
  split_and!; [done..|by cbn; rewrite Henv|done|].
  destruct (wp_result _ _ _ _ _ (validate_ssv_message_wp _ _ _) Hv) as [_ Hp].
  destruct (Hp _ eq_refl) as [_ Hr]. by destruct (vm_ssv_message vm), Hr.
Qed.



(** ** The doppelgänger watch *)

(** The closure validates its message, finds that it concerns the local operator, and sees
    in it the sign of a twin. *)
Definition twin_heard (startup_slot : Slot) env gm n : Prop :=
  ∃ vm map, validate v (validation_env env) (gm_data gm) (gm_topic_context gm) (nd_duty_states n)
              = (Ok (Success vm), map) ∧
    interested (re_state env)
      (message_id_duty_executor pk_deserialize (msg_id (ssv_message (vm_signed vm)))) = true ∧
    twin_sign (re_own_operator_id env) startup_slot (vm_signed vm) (vm_ssv_message vm).

(** The managers are as before, the watch goes on, and the twin is known iff it was or [P]. *)
Definition quiet n n' (P : Prop) : Prop :=
  nd_qbft n' = nd_qbft n ∧ nd_collector n' = nd_collector n ∧
  ∀ s, nd_doppelganger n = Some s → dg_is_monitoring s = true →
    ∃ s', nd_doppelganger n' = Some s' ∧ dg_is_monitoring s' = true ∧
      dg_startup_slot s' = dg_startup_slot s ∧
      (dg_twin_detected s' = true ↔ dg_twin_detected s = true ∨ P).

Lemma quiet_same n n' (P : Prop) :
  nd_qbft n' = nd_qbft n → nd_collector n' = nd_collector n →
  nd_doppelganger n' = nd_doppelganger n → ¬ P → quiet n n' P.
Proof.
  intros Hq Hc Hd HP. split; [done|]. split; [done|]. intros s Hs Hm. exists s.
  split_and!; [congruence|done|done|naive_solver].
Qed.

Lemma process_validated_quiet env vm n s :
  nd_doppelganger n = Some s → dg_is_monitoring s = true →
  quiet n (process_validated env vm n).2
    (interested (re_state env)
      (message_id_duty_executor pk_deserialize (msg_id (ssv_message (vm_signed vm)))) = true ∧
     twin_sign (re_own_operator_id env) (dg_startup_slot s) (vm_signed vm) (vm_ssv_message vm)).
Proof.
  intros Hs Hm. unfold process_validated. destruct (interested _ _) eqn:Hint; cbn [negb].
  2: { apply quiet_same; naive_solver. }
  unfold gets, modify, mbind, action_bind. rewrite Hs. unfold is_monitoring. rewrite Hm.
  split; [done|]. split; [done|]. intros s0 Hs0 _. rewrite Hs in Hs0. injection Hs0 as <-.
  eexists. split; [done|]. cbn [snd].
  destruct (check_message_monitoring (re_own_operator_id env) (vm_signed vm) (vm_ssv_message vm) s) as [-> ->].
  split; [done|]. split; [done|].
  pose proof (is_doppelganger_spec (re_own_operator_id env) s (vm_signed vm) (vm_ssv_message vm)) as Hd.
  unfold check_message. generalize dependent (twin_sign (re_own_operator_id env) (dg_startup_slot s)
    (vm_signed vm) (vm_ssv_message vm)). intros T HT. rewrite Hm in HT.
  destruct (is_doppelganger _ _ _ _); cbn; [tauto|]. split; [by left|].
  intros [?|[_ HP]]; [done|]. destruct HT as [_ HT]. by discriminate HT.
Qed.

Lemma process_quiet env gm n s :
  nd_doppelganger n = Some s → dg_is_monitoring s = true →
  quiet n (process env gm n).2 (twin_heard (dg_startup_slot s) env gm n).
Proof.
  intros Hs Hm. rewrite process_eq. unfold twin_heard.
  destruct (validate _ _ _ _ _) as [[result| |] map] eqn:Hv; [|by apply quiet_same; naive_solver..].
  destruct (reported_eq env gm result map n) as (Hq & Hc & _ & Hd & _).
  destruct result as [vm| |]; [|by apply quiet_same; naive_solver..].
  destruct (process_validated_quiet env vm (reported env gm (Success vm) map n) s) as (Hq' & Hc' & H');
    [congruence|done|].
  split; [congruence|]. split; [congruence|]. intros s0 Hs0 Hm0.
  destruct (H' s0) as (s' & ? & ? & ? & Ht); [congruence|done|]. exists s'. split_and!; [done..|].
  rewrite Ht. apply or_iff_compat_l. split; [intros [? ?]; by exists vm, map|].
  by intros (vm' & map' & [= <- <-] & ? & ?).
Qed.

(** The events of a node on the watch: no caller uses it, and the sleep has not ended. *)
Definition watching (ev : NodeEvent) : bool :=
  match ev with
  | MonitorReturns SleepElapsed | CollectorCalled _ _ => false
  | _ => true
  end.

(** In the event, a message with the sign of a twin was processed. *)
Definition twin_event (startup_slot : Slot) (ev : NodeEvent) n : Prop :=
  ∃ env i gm, ev = ClosureRuns env i ∧ nd_pending n !! i = Some gm ∧ twin_heard startup_slot env gm n.

Lemma node_event_quiet ev n s :
  watching ev = true → nd_doppelganger n = Some s → dg_is_monitoring s = true →
  quiet n (node_event ev n) (twin_event (dg_startup_slot s) ev n).
Proof.
  intros Hw Hs Hm. destruct ev as [processor gm|env i|now|branch|cenv call]; cbn.
  - by destruct processor; apply quiet_same; try done; intros (? & ? & ? & [=] & _).
  - unfold run_pending, gets, modify, mbind, action_bind, twin_event.
    destruct (nd_pending n !! i) as [gm|] eqn:Hgm; cbn [from_option].
    2: { apply quiet_same; try done. intros (? & ? & ? & [= <- <-] & ? & _). congruence. }
    set (n1 := n <| nd_pending := delete i (nd_pending n) |>).
    destruct (process_quiet env gm n1 s Hs Hm) as (Hq & Hc & H').
    split; [done|]. split; [done|]. intros s0 Hs0 Hm0. destruct (H' s0 Hs0 Hm0) as (s' & ? & ? & ? & Ht).
    exists s'. split_and!; [done..|]. rewrite Ht. apply or_iff_compat_l.
    split; [intros Hh; by exists env, i, gm|]. intros (? & ? & ? & [= <- <-] & ? & Hh). by simplify_eq.
  - apply quiet_same; try done. by intros (? & ? & ? & [=] & _).
  - destruct branch; [done|]. apply quiet_same; try done; [|by intros (? & ? & ? & [=] & _)].
    cbn. rewrite Hs. cbn. unfold gets, mbind, action_bind. by destruct (dg_twin_detected s).
  - done.
Qed.

(** C16: nothing is processed while the node watches for a doppelgänger.  From its start
    until the sleep of the watch ends, whatever arrives, no message reaches the QBFT
    manager or the signature collector, the watch goes on, and a wake-up of
    [monitor_blocking] by its channel reports a twin exactly when a message was processed
    that passed the validator, concerns the local operator, has the own operator as its
    only signer, is for a slot after the start and not of the role whose slot lies in the
    future. *)
Theorem doppelganger_watch operator_id schedule startup_slot slots_per_epoch slot_secs evs :
  let n0 := node_new operator_id schedule
              (Some (doppelganger_new startup_slot slots_per_epoch slot_secs)) in
  let n := node_run evs n0 in
  Forall (λ ev, watching ev = true) evs →
  nd_qbft n = nd_qbft n0 ∧ nd_collector n = nd_collector n0 ∧
  ∃ s, nd_doppelganger n = Some s ∧ is_monitoring s = true ∧
    ((monitor_blocking TwinChanged s).1 = Err tt ↔
     ∃ before ev after, evs = before ++ ev :: after ∧
       twin_event startup_slot ev (node_run before n0)).
Proof.
  intros n0 n Hev.
  enough (nd_qbft n = nd_qbft n0 ∧ nd_collector n = nd_collector n0 ∧ ∃ s, nd_doppelganger n = Some s ∧
    dg_is_monitoring s = true ∧ dg_startup_slot s = startup_slot ∧
    (dg_twin_detected s = true ↔ ∃ before ev after, evs = before ++ ev :: after ∧
       twin_event startup_slot ev (node_run before n0))) as (Hq & Hc & s & Hs & Hm & _ & Ht).
  { split; [done|]. split; [done|]. exists s. split; [done|]. split; [done|]. rewrite <- Ht.
    unfold monitor_blocking, gets, mbind, action_bind. by destruct (dg_twin_detected s). }
  unfold n. clear n. induction evs as [|ev evs IH] using rev_ind.
  - split; [done|]. split; [done|]. eexists. split_and!; [done..|]. cbn. split; [done|].
    intros ([] & ? & ? & [=] & _).
  - apply Forall_app in Hev as [Hev Hlast]. apply Forall_cons_1 in Hlast as [Hlast _].
    destruct (IH Hev) as (Hq & Hc & s & Hs & Hm & Hst & Ht). clear IH.
    unfold node_run. rewrite foldl_app. cbn [foldl]. fold (node_run evs n0).
    destruct (node_event_quiet ev _ s Hlast Hs Hm) as (Hq' & Hc' & H'). rewrite Hq', Hc'.
    split; [done|]. split; [done|]. destruct (H' s Hs Hm) as (s' & ? & ? & ? & Ht').
    exists s'. split_and!; [done..|congruence|]. rewrite Ht', Ht, Hst. split.
    + intros [(before & ev' & after & -> & Htw)|Htw].
      * exists before, ev', (after ++ [ev]). by rewrite <- app_assoc.
      * by exists evs, ev, [].
    + intros (before & ev' & after & Heq & Htw).
      destruct after as [|x after] using rev_ind; [|clear IHafter].
      * apply app_inj_2 in Heq as [-> [= ->]]; [by right|done].
      * rewrite app_comm_cons, app_assoc in Heq. apply app_inj_2 in Heq as [-> _]; [|done].
        left. by exists before, ev', after.
Qed.

End receiver.

(** ** A concrete node *)

Module SampleNode.
Import SampleRules SampleConsensus SamplePartial SampleValidator SampleManager.
#[local] Existing Instance SampleValidator.sized_crypto.

Definition cluster : Cluster := mkCluster 5 77 77 false [1; 2; 3; 4]%N.

Definition metadata_of (index : ValidatorIndex) (pk : PublicKeyBytes) : ValidatorMetadata :=
  mkValidatorMetadata pk 5 (Some index) [].

(** Four operators run two validators; we are operator [own]. *)
Definition state (own : OperatorId) : NetworkState :=
  mkNetworkState
    (mkMultiState mi_new
      (metadata_insert [x0a] 5 77 sample_committee_id (metadata_of 7 [x0a])
        (metadata_insert [x0b] 5 77 sample_committee_id (metadata_of 8 [x0b]) mi_new))
      (cluster_insert 5 [x0a] 77 sample_committee_id cluster mi_new))
    (mkSingleState (Some own) 0
      (list_to_map ((λ o, (o, mkOperator o o 77)) <$> [1; 2; 3; 4]%N)) ∅ ∅ (Some 4%N)).

Definition signed_packet : SignedSSVMessage :=
  {| signatures := [replicate 256 x02]; operator_ids := [2%N];
     ssv_message := {| msg_type := SSVPartialSignatureMsgType; msg_id := sample_message_id;
                       ssv_data := [x04] |};
     full_data := [] |}.

(** The prepare and the packet of operator two are one byte each. *)
Definition packet_bytes : bytes := [x03].
#[local] Instance two_message_codec : SszCodec :=
  {| signed_from_ssz := λ bs, if decide (bs = prepare_bytes) then Some signed_prepare
                              else if decide (bs = packet_bytes) then Some signed_packet else None;
     signed_as_ssz := λ _, prepare_bytes;
     qbft_from_ssz := λ bs, if decide (bs = [x02]) then Some sample_prepare else None;
     qbft_as_ssz := λ _, [x02];
     psm_from_ssz := λ bs, if decide (bs = [x04]) then Some sample_packet else None |}.

Definition env (own : OperatorId) : ReceiveEnv (SecretKey:=bytes) :=
  {| re_validated_state := state own; re_time := secs 484; re_slot_clock := sample_clock (Some 40%N);
     re_duties := sample_duties; re_is_synced := true; re_outcome_admitted := true;
     re_state := state own; re_own_operator_id := Some own; re_processor := None;
     re_collector := {| env_now := Some 40%N; env_processor := λ _, None; env_receives := λ _, true;
                        env_admits := λ _, true |} |}.

Definition gossip (data : bytes) : GossipMessage (PeerId:=N) (GossipId:=N) :=
  {| gm_propagation_source := 12%N; gm_message_id := 99%N; gm_data := data;
     gm_topic_context := prepare_topic |}.

Abbreviation Step := (node_step (PeerId:=N) (GossipId:=N) (PCD:=N) (BV:=N) (GBV:=N) (ACD:=N)
  32 sample_gloas SampleBls.sign (λ _, []) sample_validator).
Abbreviation start := (node_new (PeerId:=N) (GossipId:=N) (PCD:=N) (BV:=N) (GBV:=N) (ACD:=N)
  (SecretKey:=bytes) sample_validator (Some 1%N) sample_schedule).
Abbreviation run := (node_run (PeerId:=N) (GossipId:=N) (PCD:=N) (BV:=N) (GBV:=N) (ACD:=N)
  32 sample_gloas SampleBls.sign (λ _, []) sample_validator).

(** The two messages arrive, are processed, and the first share reaches its collector. *)
Definition events : list (NodeEvent (PeerId:=N) (GossipId:=N) (SecretKey:=bytes)) :=
  [GossipArrives None (gossip prepare_bytes); GossipArrives None (gossip packet_bytes);
   ClosureRuns (env 1) 0; ClosureRuns (env 1) 0; CollectorCalled (re_collector (env 1)) (RunWork 0)].

Lemma run_steps evs n : rtc Step n (run evs n).
Proof.
  revert n. induction evs as [|ev evs IH]; intros n; [done|]. eapply rtc_l; [apply step_event|apply IH].
Qed.

Definition key : InstanceKey :=
  KeyBeaconVote {| ci_committee := sample_committee_id; ci_instance_height := 40 |}.


Definition collector : SignatureCollector :=
  default (mkSignatureCollector 0 []) (sm_collectors (nd_collector (run events (start None))) !! (9, 7)%N).


(** The node, as operator two, started at slot 39: the prepare shows a twin. *)
Definition watch_events : list (NodeEvent (PeerId:=N) (GossipId:=N) (SecretKey:=bytes)) :=
  [GossipArrives None (gossip prepare_bytes); ClosureRuns (env 2) 0].

Lemma doppelganger_watch_witness :
  ∃ s, nd_doppelganger (run watch_events (start (Some (doppelganger_new 39 32 12)))) = Some s ∧
    (monitor_blocking TwinChanged s).1 = Err tt ∧
    ∃ before ev after, watch_events = before ++ ev :: after ∧
      twin_event sample_validator 39 ev (run before (start (Some (doppelganger_new 39 32 12)))).
Proof.
  destruct (doppelganger_watch (PCD:=N) (BV:=N) (GBV:=N) (ACD:=N) 32 sample_gloas SampleBls.sign (λ _, []) sample_validator (Some 1%N)
    sample_schedule 39 32 12 watch_events) as (_ & _ & s & Hs & _ & Ht); [by repeat constructor|].
  exists s. split; [done|].
  assert (dg_twin_detected <$> nd_doppelganger (run watch_events (start (Some (doppelganger_new 39 32 12))))
    = Some true) as Htw by (vm_compute; reflexivity).
  rewrite Hs in Htw. injection Htw as Htw.
  assert ((monitor_blocking TwinChanged s).1 = Err tt) as Herr.
  { unfold monitor_blocking, gets, mbind, action_bind. by rewrite Htw. }
  split; [done|]. by apply Ht.
Defined.
End SampleNode.
