(* ===== verification/MessageRate.v ===== *)
(** * Expected message rates of a topic

    [anchor/subnet_service/src/message_rate.rs]: how many messages per second the committees
    of a subnet are expected to send, which peer scoring compares with what arrives.  An
    [f64] is a binary64 number of [SpecFloat], so that every rounding of the code is in the
    model; [powf] is the platform's and a parameter.  Committees without operators or
    without active validators do not count, and message totals are the documented ones. *)

From Stdlib Require Import SpecFloat.
From S2P Require Import Prelude SsvTypes ValidatorRules.

(** ** Binary64 *)

Abbreviation f64 := spec_float (only parsing).

Definition f64_add : f64 → f64 → f64 := SFadd 53 1024.
Definition f64_sub : f64 → f64 → f64 := SFsub 53 1024.
Definition f64_mul : f64 → f64 → f64 := SFmul 53 1024.
Definition f64_div : f64 → f64 → f64 := SFdiv 53 1024.

(** [n as f64]: round to nearest, ties to even. *)
Definition as_f64 (n : N) : f64 := binary_normalize 53 1024 (Z.of_N n) 0 false.

Declare Scope f64_scope.
Delimit Scope f64_scope with f64.
Infix "+" := f64_add : f64_scope.
Infix "-" := f64_sub : f64_scope.
Infix "*" := f64_mul : f64_scope.
Infix "/" := f64_div : f64_scope.

(** [Duration::as_secs_f64] *)
Definition as_secs_f64 (nanos : N) : f64 :=
  (as_f64 (nanos `div` 1000000000) + as_f64 (nanos `mod` 1000000000) / as_f64 1000000000)%f64.

(** ** Constants *)

Definition ETHEREUM_VALIDATORS : f64 := as_f64 1000000.
Definition PROPOSAL_PROBABILITY : f64 := (as_f64 1 / ETHEREUM_VALIDATORS)%f64.
Definition MAX_VALIDATORS_PER_COMMITTEE_LIST_CUT : N := 560.
Definition SINGLE_SC_DUTIES_LIMIT : f64 := as_f64 0.

(** What the code reads of [EthSpec], of the constants of Altair and of [ChainSpec]. *)
Record RateSpec := mkRateSpec {
  rs_max_validators_per_committee : N;
  rs_slots_per_epoch : N;
  rs_sync_committee_size : N;
  rs_sync_committee_subnet_count : N;
  rs_target_aggregators_per_sync_subcommittee : N;
  rs_slot_duration : N;
}.

(** ** Message counts *)

Record MessageCounts := mkMessageCounts {
  pre_consensus : N;
  consensus : N;
  post_consensus : N;
}.

Definition consensus_messages (committee_size : N) : N := 1 + committee_size + committee_size + 2.

Definition partial_signature_messages (committee_size : N) : N := committee_size.

Definition duty_with_pre_consensus (committee_size : N) : MessageCounts :=
  {| pre_consensus := partial_signature_messages committee_size;
     consensus := consensus_messages committee_size;
     post_consensus := partial_signature_messages committee_size |}.

Definition duty_without_pre_consensus (committee_size : N) : MessageCounts :=
  {| pre_consensus := 0;
     consensus := consensus_messages committee_size;
     post_consensus := partial_signature_messages committee_size |}.

(** [MessageCounts::total] *)
Definition counts_total (c : MessageCounts) : N := pre_consensus c + consensus c + post_consensus c.

(** ** Rates *)

Section rates.
Context (powf : f64 → f64 → f64) (spec : RateSpec).

Definition estimated_attestation_committee_size : f64 :=
  (ETHEREUM_VALIDATORS / as_f64 (rs_max_validators_per_committee spec))%f64.

Definition aggregator_probability : f64 :=
  (as_f64 16 / estimated_attestation_committee_size)%f64.

Definition sync_committee_probability (sync_committee_size : f64) : f64 :=
  (sync_committee_size / ETHEREUM_VALIDATORS)%f64.

Definition sync_committee_agg_prob (sync_committee_size sync_committee_probability : f64) : f64 :=
  (sync_committee_probability * as_f64 (rs_target_aggregators_per_sync_subcommittee spec)
   / (sync_committee_size / as_f64 (rs_sync_committee_subnet_count spec)))%f64.

Definition expected_committee_duties_per_epoch_due_to_attestation (num_validators : N) : f64 :=
  if (num_validators =? 0)%N then as_f64 0
  else if (MAX_VALIDATORS_PER_COMMITTEE_LIST_CUT <=? num_validators)%N
  then as_f64 (rs_slots_per_epoch spec)
  else
    let k := as_f64 num_validators in
    let n := as_f64 (rs_slots_per_epoch spec) in
    let probability_all_not_on_slot_i := powf ((n - as_f64 1) / n)%f64 k in
    let probability_at_least_one_on_slot_i := (as_f64 1 - probability_all_not_on_slot_i)%f64 in
    (n * probability_at_least_one_on_slot_i)%f64.

Definition expected_single_sc_committee_duties_per_epoch (num_validators : N) : f64 :=
  if (num_validators =? 0)%N then as_f64 0
  else if (MAX_VALIDATORS_PER_COMMITTEE_LIST_CUT <=? num_validators)%N then SINGLE_SC_DUTIES_LIMIT
  else
    let sync_committee_size := as_f64 (rs_sync_committee_size spec) in
    let sync_committee_probability := sync_committee_probability sync_committee_size in
    let chance_of_not_being_in_sync_committee := (as_f64 1 - sync_committee_probability)%f64 in
    let chance_that_all_validators_are_not_in_sync_committee :=
      powf chance_of_not_being_in_sync_committee (as_f64 num_validators) in
    let chance_of_at_least_one_validator_being_in_sync_committee :=
      (as_f64 1 - chance_that_all_validators_are_not_in_sync_committee)%f64 in
    let expected_slots_with_no_duty :=
      (as_f64 (rs_slots_per_epoch spec)
       - expected_committee_duties_per_epoch_due_to_attestation num_validators)%f64 in
    (chance_of_at_least_one_validator_being_in_sync_committee * expected_slots_with_no_duty)%f64.

(** What a committee adds to the messages per epoch: the body of the loop of
    [calculate_message_rate_for_topic] after its [continue]. *)
Definition committee_messages (committee_size num_validators : N) : f64 :=
  let slots_per_epoch_f64 := as_f64 (rs_slots_per_epoch spec) in
  let sync_committee_size := as_f64 (rs_sync_committee_size spec) in
  let duties_without_pre_consensus :=
    as_f64 (counts_total (duty_without_pre_consensus committee_size)) in
  let duties_with_pre_consensus := as_f64 (counts_total (duty_with_pre_consensus committee_size)) in
  let attestation_duties :=
    (expected_committee_duties_per_epoch_due_to_attestation num_validators
     * duties_without_pre_consensus)%f64 in
  let sync_committee_duties :=
    (expected_single_sc_committee_duties_per_epoch num_validators
     * duties_without_pre_consensus)%f64 in
  let sync_committee_probability := sync_committee_probability sync_committee_size in
  let sync_committee_agg_prob :=
    sync_committee_agg_prob sync_committee_size sync_committee_probability in
  let aggregator_duties :=
    (as_f64 num_validators * aggregator_probability * duties_with_pre_consensus)%f64 in
  let proposal_duties :=
    (as_f64 num_validators * slots_per_epoch_f64 * PROPOSAL_PROBABILITY
     * duties_with_pre_consensus)%f64 in
  let sync_agg_duties :=
    (as_f64 num_validators * slots_per_epoch_f64 * sync_committee_agg_prob
     * duties_with_pre_consensus)%f64 in
  (attestation_duties + sync_committee_duties + aggregator_duties + proposal_duties
   + sync_agg_duties)%f64.

Definition committee_sizes (c : CommitteeInfo) : N * N :=
  (len (committee_members c), len (validator_indices c)).

Definition calculate_message_rate_for_topic (committees : list CommitteeInfo) : f64 :=
  match committees with
  | [] => as_f64 0
  | _ =>
      let slots_per_epoch_f64 := as_f64 (rs_slots_per_epoch spec) in
      let slot_duration_seconds := as_secs_f64 (rs_slot_duration spec) in
      let total_msg_rate := foldl (λ total_msg_rate committee,
        let '(committee_size, num_validators) := committee_sizes committee in
        if ((committee_size =? 0) || (num_validators =? 0))%N then total_msg_rate
        else (total_msg_rate + committee_messages committee_size num_validators)%f64)
        (as_f64 0) committees in
      let total_epoch_seconds := (slots_per_epoch_f64 * slot_duration_seconds)%f64 in
      (total_msg_rate / total_epoch_seconds)%f64
  end.

(** A committee that can send something. *)
Definition counted (c : CommitteeInfo) : Prop := committee_members c ≠ [] ∧ validator_indices c ≠ [].

#[export] Instance counted_dec c : Decision (counted c).
Proof. unfold counted. apply _. Defined.

(** Committees without operators or active validators do not change the rate, whatever
    the rounding of the others, as long as an epoch takes time. *)
Lemma rate_of_counted committees :
  (as_f64 0 / (as_f64 (rs_slots_per_epoch spec) * as_secs_f64 (rs_slot_duration spec)))%f64 = as_f64 0 →
  calculate_message_rate_for_topic committees =
    calculate_message_rate_for_topic (filter counted committees).
Proof.
  intros H0.
  set (step := λ total_msg_rate committee,
        let '(committee_size, num_validators) := committee_sizes committee in
        if ((committee_size =? 0) || (num_validators =? 0))%N then total_msg_rate
        else (total_msg_rate + committee_messages committee_size num_validators)%f64).
  assert (∀ l t, foldl step t (filter counted l) = foldl step t l) as Hf.
  { induction l as [|c l IH]; intros t; [done|]. rewrite filter_cons. case_decide as Hc; cbn [foldl]; [apply IH|].
    rewrite IH. f_equal. unfold step, committee_sizes, len.
    destruct c as [[|] [|]]; cbn in *; try done. by destruct Hc. }
  destruct committees as [|c l]; [done|]. unfold calculate_message_rate_for_topic. fold step.
  rewrite <- (Hf (c :: l)). by destruct (filter counted (c :: l)).
Qed.

End rates.

(** ** Mainnet *)

Module SampleRate.

Definition mainnet : RateSpec := mkRateSpec 2048 32 512 4 16 12000000000.

(** The first values of the table of attestation duties per epoch: one duty for one
    validator, and the limit of one per slot beyond the cut. *)
Lemma one_validator_one_duty :
  expected_committee_duties_per_epoch_due_to_attestation (λ b _, b) mainnet 1 = as_f64 1 ∧
  expected_committee_duties_per_epoch_due_to_attestation (λ b _, b) mainnet 560 = as_f64 32.
Proof. by vm_compute. Qed.

Lemma epoch_takes_time :
  (as_f64 0 / (as_f64 (rs_slots_per_epoch mainnet) * as_secs_f64 (rs_slot_duration mainnet)))%f64 = as_f64 0.
Proof. by vm_compute. Qed.

End SampleRate.
