(* ===== verification/Subscriptions.v ===== *)
(** * Subnet subscriptions

    [anchor/subnet_service/src/subscriptions.rs], [scoring.rs], and the rest of
    [service.rs]: the task that follows the own clusters and the fork lifecycle and tells
    the network which topics to subscribe to.  The database, the fork monitor and the
    network run beside the task: whenever it waits for room in its channel, they may write,
    publish or go away.  Whatever they do, the events sent describe exactly the topics the
    task tracks, without a redundant one, and when no notification is pending these are the
    topics of the own active committees under the forks of the lifecycle. *)

From S2P Require Import Prelude SsvTypes ForkSchedule ValidatorRules Subnet MultiIndex NetworkState MessageRate.

(** [SubnetServiceError] *)
Inductive SubnetServiceError :=
  | SlotClockUnavailable
  | ClusterNotFound (committee_id : CommitteeId)
  | SubnetCalculation (error : SubnetCalculationError)
  | SendFailed.

Inductive TopicEvent :=
  | Subscribe (topic : string) (subnet : SubnetId) (message_rate : option f64)
  | Unsubscribe (topic : string) (subnet : SubnetId)
  | RateUpdate (topic : string) (message_rate : f64).

(** ** State *)

Record ForkSubscriptions := mkForkSubscriptions {
  fb_config : ForkConfig;
  fb_currently_subscribed : gset SubnetId;
}.

Record ServiceState := mkServiceState {
  st_forks : gmap Fork ForkSubscriptions;
  st_fork_to_score : Fork;
}.
#[export] Instance eta_ServiceState : Eta ServiceState := λ r,
  mkServiceState (st_forks r) (st_fork_to_score r).

(** The order in which hash sets and maps are iterated. *)
Class HashOrder := {
  subnet_order : gset SubnetId → list SubnetId;
  subnet_order_perm s : subnet_order s ≡ₚ elements s;
  fork_order : gset Fork → list Fork;
  fork_order_perm s : fork_order s ≡ₚ elements s;
}.

Section service.
Context {C : Crypto} {HO : HashOrder}.
Context (powf : f64 → f64 → f64).

(** The fields of [SubnetService] that do not change. *)
Record SubnetService := mkSubnetService {
  sv_subscribe_all_subnets : bool;
  sv_disable_gossipsub_topic_scoring : bool;
  sv_spec : RateSpec;
  sv_router : TopicRouter;
}.

(** What the tasks beside the service do: write the database, publish a lifecycle, drop
    their end of a channel. *)
Inductive EnvAction :=
  | DbWrite (state : NetworkState)
  | PublishLifecycle (lifecycle : ForkLifecycle)
  | DatabaseGone
  | MonitorGone
  | NetworkGone.

(** The task in its surroundings: its state; the database and the lifecycle with their
    watch channels (the value, whether the task has yet to see a change, whether there is
    still a sender); the channel of events; what the others will do while the task waits,
    one entry per wait; and whether the task has returned. *)
Record World := mkWorld {
  w_state : ServiceState;
  w_db : NetworkState;
  w_db_changed : bool;
  w_db_open : bool;
  w_lifecycle : ForkLifecycle;
  w_lifecycle_changed : bool;
  w_lifecycle_open : bool;
  w_listening : bool;
  w_events : list TopicEvent;
  w_env : list (list EnvAction);
  w_stopped : bool;
}.
#[export] Instance eta_World : Eta World := λ r,
  mkWorld (w_state r) (w_db r) (w_db_changed r) (w_db_open r) (w_lifecycle r)
    (w_lifecycle_changed r) (w_lifecycle_open r) (w_listening r) (w_events r) (w_env r)
    (w_stopped r).

Definition env_action (w : World) (a : EnvAction) : World :=
  match a with
  | DbWrite state => if w_db_open w then w <| w_db := state |> <| w_db_changed := true |> else w
  | PublishLifecycle lifecycle =>
      if w_lifecycle_open w then w <| w_lifecycle := lifecycle |> <| w_lifecycle_changed := true |>
      else w
  | DatabaseGone => w <| w_db_open := false |>
  | MonitorGone => w <| w_lifecycle_open := false |>
  | NetworkGone => w <| w_listening := false |>
  end.

(** A point at which the task waits. *)
Definition wait : action World SubnetServiceError unit := λ w,
  match w_env w with
  | [] => (Ok tt, w)
  | actions :: env => (Ok tt, foldl env_action (w <| w_env := env |>) actions)
  end.

(** [self.tx.send(event).await], with its failure mapped as the callers do. *)
Definition send_event (event : TopicEvent) : action World SubnetServiceError unit :=
  _ ← wait;
  listening ← gets w_listening;
  if listening : bool then modify (λ w, w <| w_events := w_events w ++ [event] |>)
  else throw SendFailed.

(** [forks.iter().any(|f| f.fork == *fork)] *)
Definition wanted (forks : list ForkConfig) (fork : Fork) : bool :=
  existsb (λ f, bool_decide (fc_fork f = fork)) forks.

(** [self.forks.entry(fork.fork).or_insert(..)] *)
Definition track_fork (m : gmap Fork ForkSubscriptions) (fork : ForkConfig)
    : gmap Fork ForkSubscriptions :=
  match m !! fc_fork fork with
  | Some _ => m
  | None => <[fc_fork fork := mkForkSubscriptions fork ∅]> m
  end.

(** [ServiceState::set_subscribed_forks] *)
Definition set_subscribed_forks (forks : list ForkConfig) (s : ServiceState)
    : list ForkSubscriptions * ServiceState :=
  let removed := omap (λ fork, if wanted forks fork then None else st_forks s !! fork)
                   (fork_order (dom (st_forks s))) in
  let kept := filter (λ p, wanted forks p.1 = true) (st_forks s) in
  (removed, s <| st_forks := foldl track_fork kept forks |>).

(** ** Which subnets *)

Inductive SubnetGenerator :=
  | AllSubnets
  | Committees (committees : gset (list OperatorId)).

Definition committees_from_network_state (state : NetworkState) : SubnetGenerator :=
  Committees (list_to_set (cl_cluster_members <$>
    filter (λ c, cl_liquidated c = false)
      (omap (λ cluster, get_by cluster (ms_clusters (ns_multi state)))
         (elements (get_own_clusters state))))).

Definition generate_subnets (g : SubnetGenerator) (fork : Fork)
    : outcome SubnetServiceError (gset SubnetId) :=
  match g with
  | AllSubnets => Ok (list_to_set (range SUBNET_COUNT))
  | Committees committees =>
      subnets ← try_map (λ committee,
        map_err SubnetCalculation (from_operators_for_fork sha256 committee fork))
        (elements committees);
      mret (list_to_set subnets)
  end.

Context (sv : SubnetService).

(** [SubnetService::operator_ids_for_committee] *)
Definition operator_ids_for_committee (state : NetworkState) (committee_id : CommitteeId)
    : outcome SubnetServiceError (list OperatorId) :=
  ok_or (cl_cluster_members <$> head (get_all_by_quaternary committee_id (ms_clusters (ns_multi state))))
    (ClusterNotFound committee_id).

(** [SubnetService::subnet_for_committee_at_slot] *)
Definition subnet_for_committee_at_slot (state : NetworkState) (committee_id : CommitteeId)
    (slot : Slot) : outcome SubnetServiceError SubnetId :=
  operator_ids ← operator_ids_for_committee state committee_id;
  map_err SubnetCalculation
    (subnet_for_committee_with_operators_at_slot sha256 (sv_router sv) committee_id operator_ids slot).

(** ** Scoring *)

(** [get_committee_info_for_subnet] *)
Definition get_committee_info_for_subnet (subnet : SubnetId) (fork_config : ForkConfig)
    (network_state : NetworkState) : list CommitteeInfo :=
  (λ cluster,
     {| committee_members := cl_cluster_members cluster;
        validator_indices := omap md_index
          (get_all_by_secondary (cl_cluster_id cluster) (ms_validator_metadata (ns_multi network_state))) |})
  <$> filter (λ cluster, ok (from_operators_for_fork sha256 (cl_cluster_members cluster)
                               (fc_fork fork_config)) = Some subnet)
        (filter (λ cluster, cl_liquidated cluster = false) (mi_values (ms_clusters (ns_multi network_state)))).

Definition subnet_message_rate (subnet : SubnetId) (fork_config : ForkConfig)
    (network_state : NetworkState) : option f64 :=
  if sv_disable_gossipsub_topic_scoring sv then None
  else Some (calculate_message_rate_for_topic powf (sv_spec sv)
               (get_committee_info_for_subnet subnet fork_config network_state)).

Definition fork_topic (fork : Fork) (subnet : SubnetId) : string :=
  create_topic (topic_prefix fork (fs_network_name (tr_fork_schedule (sv_router sv)))) subnet.

(** [send_scoring_rate_updates]: it reads the database anew for every subnet. *)
Definition send_scoring_rate_updates : action World SubnetServiceError unit :=
  s ← gets w_state;
  match st_forks s !! st_fork_to_score s with
  | None => mret tt
  | Some fork =>
      ignore_err (for_each (λ subnet,
        db ← gets w_db;
        send_event (RateUpdate (fork_topic (st_fork_to_score s) subnet)
          (calculate_message_rate_for_topic powf (sv_spec sv)
             (get_committee_info_for_subnet subnet (fb_config fork) db))))
        (subnet_order (fb_currently_subscribed fork)))
  end.

(** ** Subscribing *)

Definition send_unsubscribes (fork_config : ForkConfig) (subnets : list SubnetId)
    : action World SubnetServiceError unit :=
  for_each (λ subnet, send_event (Unsubscribe (fork_topic (fc_fork fork_config) subnet) subnet)) subnets.

Definition send_subscribes (fork_config : ForkConfig) (subnets : list SubnetId)
    (send_message_rate : bool) : action World SubnetServiceError unit :=
  for_each (λ subnet,
    db ← gets w_db;
    let message_rate :=
      if send_message_rate then subnet_message_rate subnet fork_config db else None in
    send_event (Subscribe (fork_topic (fc_fork fork_config) subnet) subnet message_rate)) subnets.

Definition handle_subnet_changes_for_fork (subnet_generator : SubnetGenerator)
    (key : Fork) (fork : ForkSubscriptions) (score : bool) : action World SubnetServiceError unit :=
  target_subnets ← lift (generate_subnets subnet_generator (fc_fork (fb_config fork)));
  let to_leave := subnet_order (fb_currently_subscribed fork ∖ target_subnets) in
  let to_join := subnet_order (target_subnets ∖ fb_currently_subscribed fork) in
  _ ← send_unsubscribes (fb_config fork) to_leave;
  _ ← send_subscribes (fb_config fork) to_join score;
  modify (λ w, w <| w_state := w_state w <| st_forks :=
    <[key := mkForkSubscriptions (fb_config fork) target_subnets]> (st_forks (w_state w)) |> |>).

(** The source of the subnets, read off the database of the moment. *)
Definition subnet_source (db : NetworkState) : SubnetGenerator :=
  if sv_subscribe_all_subnets sv then AllSubnets else committees_from_network_state db.

Definition handle_subnet_changes : action World SubnetServiceError unit :=
  db ← gets w_db;
  let source := subnet_source db in
  forks ← gets (λ w, dom (st_forks (w_state w)));
  for_each (λ key,
    s ← gets w_state;
    match st_forks s !! key with
    | None => mret tt
    | Some fork =>
        let score := bool_decide (fc_fork (fb_config fork) = st_fork_to_score s) in
        ignore_err (handle_subnet_changes_for_fork source key fork score)
    end) (fork_order forks).

(** The forks whose topics matter in a lifecycle, as [on_lifecycle_transition] lists them. *)
Definition lifecycle_forks (l : ForkLifecycle) : list ForkConfig :=
  match l with
  | Normal current => [current]
  | WarmUp current upcoming => [current; upcoming]
  | GracePeriod current previous => [current; previous]
  end.

Definition on_lifecycle_transition (new : ForkLifecycle) : action World SubnetServiceError unit :=
  s ← gets w_state;
  let current := fc_fork (current_fork_config new) in
  let fork_to_score_changed := negb (bool_decide (st_fork_to_score s = current)) in
  let s := s <| st_fork_to_score := current |> in
  let '(removed, s) := set_subscribed_forks (lifecycle_forks new) s in
  _ ← modify (λ w, w <| w_state := s |>);
  _ ← for_each (λ removed,
        ignore_err (send_unsubscribes (fb_config removed)
          (subnet_order (fb_currently_subscribed removed)))) removed;
  if fork_to_score_changed && negb (sv_disable_gossipsub_topic_scoring sv)
  then send_scoring_rate_updates else mret tt.

(** [lifecycle_rx.borrow_and_update()] *)
Definition borrow_and_update : action World SubnetServiceError ForkLifecycle :=
  _ ← modify (λ w, w <| w_lifecycle_changed := false |>);
  gets w_lifecycle.

(** [initial_service_state], from the empty state. *)
Definition initial_service_state : action World SubnetServiceError unit :=
  _ ← modify (λ w, w <| w_state := mkServiceState ∅ Alan |>);
  initial_lifecycle ← borrow_and_update;
  _ ← on_lifecycle_transition initial_lifecycle;
  handle_subnet_changes.

(** The branches of the [select!] in [run], which one is taken when more are ready being
    up to the runtime; a branch that is not ready, or disabled, does nothing. *)
Inductive SelectBranch := DbChanged | EpochTimer | LifecycleChanged.

Definition stop : action World SubnetServiceError unit := modify (λ w, w <| w_stopped := true |>).

(** One iteration of the loop of [run]; [changed()] reports a closed channel only after
    the last change was seen. *)
Definition run_iteration (branch : SelectBranch) : action World SubnetServiceError unit :=
  w ← gets id;
  if w_stopped w then mret tt
  else
    match branch with
    | DbChanged =>
        if sv_subscribe_all_subnets sv then mret tt
        else if w_db_changed w then
          _ ← modify (λ w, w <| w_db_changed := false |>);
          handle_subnet_changes
        else if w_db_open w then mret tt else stop
    | EpochTimer =>
        if sv_disable_gossipsub_topic_scoring sv then mret tt else send_scoring_rate_updates
    | LifecycleChanged =>
        if w_lifecycle_changed w then
          new_lifecycle ← borrow_and_update;
          _ ← on_lifecycle_transition new_lifecycle;
          handle_subnet_changes
        else if w_lifecycle_open w then mret tt else stop
    end.

(** A run: the branches taken and what the others do between them. *)
Inductive ServiceEvent :=
  | Iterate (branch : SelectBranch)
  | Others (a : EnvAction).

Definition service_event (w : World) (e : ServiceEvent) : World :=
  match e with
  | Iterate branch => (run_iteration branch w).2
  | Others a => env_action w a
  end.

(** [run] up to its loop, and the events since. *)
Definition service_run (w : World) (es : list ServiceEvent) : World :=
  foldl service_event (initial_service_state w).2 es.

(** [calculate_duration_to_next_epoch], with the slot clock's answer and slot duration. *)
Definition calculate_duration_to_next_epoch (duration_to_next_epoch : option N) (slot_duration : N) : N :=
  match duration_to_next_epoch with
  | Some duration => duration
  | None => (slot_duration * 3)%N
  end.

(** ** What the network is told *)

(** An event without its rate: whether a topic is joined or left, and which; rate updates
    do not change the topics. *)
Definition event_entry (e : TopicEvent) : option (bool * (string * SubnetId)) :=
  match e with
  | Subscribe topic subnet _ => Some (true, (topic, subnet))
  | Unsubscribe topic subnet => Some (false, (topic, subnet))
  | RateUpdate _ _ => None
  end.

(** The topics after a sequence of events, provided none is redundant. *)
Definition entry_step (topics : option (gset (string * SubnetId))) (e : bool * (string * SubnetId))
    : option (gset (string * SubnetId)) :=
  S ← topics;
  if e.1 then if decide (e.2 ∈ S) then None else Some ({[e.2]} ∪ S)
  else if decide (e.2 ∈ S) then Some (S ∖ {[e.2]}) else None.

Definition told (events : list TopicEvent) : option (gset (string * SubnetId)) :=
  foldl entry_step (Some ∅) (omap event_entry events).

(** The topics of a set of tracked forks. *)
Definition tracked (forks : gmap Fork ForkSubscriptions) : gset (string * SubnetId) :=
  list_to_set ('(f, fb) ← map_to_list forks;
               (λ s, (fork_topic f s, s)) <$> elements (fb_currently_subscribed fb)).

Lemma elem_of_tracked forks t s :
  (t, s) ∈ tracked forks ↔
  ∃ f fb, forks !! f = Some fb ∧ s ∈ fb_currently_subscribed fb ∧ t = fork_topic f s.
Proof.
  unfold tracked. rewrite elem_of_list_to_set, list_elem_of_bind. split.
  - intros ([f fb] & (s' & [= -> ->] & Hs%elem_of_elements)%list_elem_of_fmap & Hf%elem_of_map_to_list).
    by exists f, fb.
  - intros (f & fb & Hf & Hs & ->). exists (f, fb). split; [|by apply elem_of_map_to_list].
    apply list_elem_of_fmap. exists s. split; [done|]. by apply elem_of_elements.
Qed.

(** Topics of different forks differ. *)
Lemma fork_topic_inj f f' s s' : fork_topic f s = fork_topic f' s' → f = f'.
Proof. unfold fork_topic, create_topic. by destruct f, f'. Qed.

Lemma step_joins S (t : SubnetId → string) l :
  NoDup l → (∀ s, s ∈ l → (t s, s) ∉ S) →
  foldl entry_step (Some S) ((λ s, (true, (t s, s))) <$> l) =
    Some (list_to_set ((λ s, (t s, s)) <$> l) ∪ S).
Proof.
  revert S. induction l as [|s l IH]; intros S Hnd Hl; cbn [foldl fmap list_fmap list_to_set].
  { f_equal. set_solver. }
  apply NoDup_cons in Hnd as [Hs Hnd]. cbn [entry_step mbind option_bind fst snd].
  rewrite decide_False by (apply Hl; by left). rewrite IH; [f_equal; set_solver|done|].
  intros s' Hs'. rewrite not_elem_of_union, not_elem_of_singleton.
  split; [intros [= _ ->]; done|]. apply Hl. by right.
Qed.

Lemma step_leaves S (t : SubnetId → string) l :
  NoDup l → (∀ s, s ∈ l → (t s, s) ∈ S) →
  foldl entry_step (Some S) ((λ s, (false, (t s, s))) <$> l) =
    Some (S ∖ list_to_set ((λ s, (t s, s)) <$> l)).
Proof.
  revert S. induction l as [|s l IH]; intros S Hnd Hl; cbn [foldl fmap list_fmap list_to_set].
  { f_equal. set_solver. }
  apply NoDup_cons in Hnd as [Hs Hnd]. cbn [entry_step mbind option_bind fst snd].
  rewrite decide_True by (apply Hl; by left). rewrite IH; [f_equal; set_solver|done|].
  intros s' Hs'. apply elem_of_difference. split; [apply Hl; by right|].
  rewrite elem_of_singleton. by intros [= _ ->].
Qed.

(** ** Actions that only send *)

(** What the others may do: a listener is not regained, and without a pending
    notification nothing was written. *)
Record env_le (w w' : World) : Prop := {
  el_listening : w_listening w' = true → w_listening w = true;
  el_db : w_db_changed w' = false → w_db_changed w = false ∧ w_db w' = w_db w;
  el_lifecycle : w_lifecycle_changed w' = false →
    w_lifecycle_changed w = false ∧ w_lifecycle w' = w_lifecycle w;
  el_stopped : w_stopped w' = w_stopped w;
}.

#[export] Instance env_le_preorder : PreOrder env_le.
Proof.
  split; [by split|]. intros w1 w2 w3 [Hl Hd Hc Hs] [Hl' Hd' Hc' Hs']. split; [auto| | |congruence].
  - intros [H1 H2]%Hd'. apply Hd in H1 as [H1 H3]. by rewrite H2, H3.
  - intros [H1 H2]%Hc'. apply Hc in H1 as [H1 H3]. by rewrite H2, H3.
Qed.

Lemma env_action_le w a : env_le w (env_action w a) ∧ w_state (env_action w a) = w_state w ∧
  w_events (env_action w a) = w_events w.
Proof.
  destruct a; cbn; try destruct (w_db_open w); try destruct (w_lifecycle_open w); by repeat split.
Qed.

Lemma env_actions_le w l : env_le w (foldl env_action w l) ∧ w_state (foldl env_action w l) = w_state w ∧
  w_events (foldl env_action w l) = w_events w.
Proof.
  revert w. induction l as [|a l IH]; intros w; [done|]. cbn [foldl].
  destruct (IH (env_action w a)) as (H1 & -> & ->), (env_action_le w a) as (H2 & -> & ->).
  split; [by etrans|done].
Qed.

(** The action leaves the state of the task alone, and appends the given entries if the
    network still listens at the end. *)
Definition sends (m : action World SubnetServiceError unit) (l : list (bool * (string * SubnetId))) : Prop :=
  ∀ w, wp m (λ o w', env_le w w' ∧ w_state w' = w_state w ∧ o ≠ Panic ∧
    (w_listening w' = true → o = Ok tt ∧
       omap event_entry (w_events w') = omap event_entry (w_events w) ++ l)) w.

Lemma sends_ret : sends (mret tt) [].
Proof. intros w. split_and!; [done|done|done|]. by rewrite app_nil_r. Qed.

Lemma sends_event e : sends (send_event e) (option_list (event_entry e)).
Proof.
  intros w. unfold send_event, wait.
  assert (∃ w', (wait w : outcome SubnetServiceError unit * World) = (Ok tt, w') ∧ env_le w w' ∧ w_state w' = w_state w ∧
    w_events w' = w_events w) as (w' & Hw & Hle & Hst & Hev).
  { unfold wait. destruct (w_env w) as [|l env]; [by exists w|]. eexists. split; [done|].
    destruct (env_actions_le (w <| w_env := env |>) l) as (H1 & H2 & H3).
    split; [|done]. by etrans; [|exact H1]. }
  apply wp_bind. unfold wp at 1. unfold wait in Hw. rewrite Hw. cbn [fst snd].
  apply wp_bind, wp_gets. cbn [fst snd]. destruct (w_listening w') eqn:Hl.
  - apply wp_modify. split_and!; [by destruct Hle; split|done|done|]. intros _. split; [done|].
    rewrite <- Hev. change (omap event_entry (w_events w' ++ [e]) = omap event_entry (w_events w') ++ option_list (event_entry e)).
    rewrite omap_app. done.
  - apply wp_throw. split_and!; [done|done|done|]. by rewrite Hl.
Qed.

Lemma sends_seq m k l1 l2 : sends m l1 → sends k l2 → sends (_ ← m; k) (l1 ++ l2).
Proof.
  intros Hm Hk w. apply wp_bind. eapply wp_mono; [apply Hm|].
  intros o w' (H1 & H2 & H3 & H4). destruct o as [[]|e|]; [| |done].
  - eapply wp_mono; [apply Hk|]. intros o w'' (K1 & K2 & K3 & K4).
    split_and!; [by etrans|congruence|done|]. intros Hl. destruct (K4 Hl) as [-> ->].
    destruct (H4 (el_listening _ _ K1 Hl)) as [_ ->]. split; [done|]. by rewrite app_assoc.
  - split_and!; [done..|]. intros Hl. by destruct (H4 Hl).
Qed.

Lemma sends_gets {A} (f : World → A) k l : (∀ a, sends (k a) l) → sends (a ← gets f; k a) l.
Proof. intros Hk w. apply wp_bind, wp_gets. apply Hk. Qed.

Lemma sends_ignore_err m l : sends m l → sends (ignore_err m) l.
Proof.
  intros Hm w. unfold ignore_err. apply wp_bind, wp_attempt. eapply wp_mono; [apply Hm|].
  intros o w' (H1 & H2 & H3 & H4). destruct o as [[]|e|]; (split_and!; [done..|]); [|intros Hl; by destruct (H4 Hl)|done].
  intros Hl. by destruct (H4 Hl).
Qed.

Lemma sends_for_each {A} (f : A → action World SubnetServiceError unit) g l :
  (∀ x, sends (f x) (g x)) → sends (for_each f l) (l ≫= g).
Proof.
  intros Hf. induction l as [|x l IH]; cbn [for_each]; [apply sends_ret|].
  by apply sends_seq.
Qed.

Lemma sends_map {A} (f : A → action World SubnetServiceError unit) g l :
  (∀ x, sends (f x) [g x]) → sends (for_each f l) (g <$> l).
Proof.
  intros Hf. induction l as [|x l IH]; cbn [for_each]; [apply sends_ret|].
  by apply (sends_seq _ _ [g x]).
Qed.

Lemma sends_nothing {A} (f : A → action World SubnetServiceError unit) l :
  (∀ x, sends (f x) []) → sends (for_each f l) [].
Proof.
  intros Hf. induction l as [|x l IH]; cbn [for_each]; [apply sends_ret|].
  by apply (sends_seq _ _ []).
Qed.

Lemma sends_unsubscribes config l :
  sends (send_unsubscribes config l) ((λ s, (false, (fork_topic (fc_fork config) s, s))) <$> l).
Proof. apply sends_map. intros s. apply sends_event. Qed.

Lemma sends_subscribes config l rate :
  sends (send_subscribes config l rate) ((λ s, (true, (fork_topic (fc_fork config) s, s))) <$> l).
Proof. apply sends_map. intros s. apply sends_gets. intros db. apply sends_event. Qed.

Lemma sends_scoring : sends send_scoring_rate_updates [].
Proof.
  apply sends_gets. intros s. destruct (st_forks s !! _) as [fork|]; [|apply sends_ret].
  apply sends_ignore_err, sends_nothing. intros x. apply sends_gets. intros db. apply sends_event.
Qed.

(** ** One fork *)

Lemma from_operators_for_fork_total l fork : total (from_operators_for_fork sha256 l fork).
Proof.
  destruct fork; unfold from_operators_for_fork.
  - unfold from_committee_alan. cbn [N.eqb SUBNET_COUNT]. by rewrite try_into_u64_mod.
  - unfold from_operators. solve_total.
Qed.

Lemma generate_subnets_total g fork : total (generate_subnets g fork).
Proof.
  destruct g; cbn; [done|]. apply total_bind; [|done]. apply total_try_map. intros x.
  apply total_map_err, from_operators_for_fork_total.
Qed.

Lemma subnet_order_NoDup s : NoDup (subnet_order s).
Proof. rewrite subnet_order_perm. apply NoDup_elements. Qed.

Lemma elem_of_subnet_order x s : x ∈ subnet_order s ↔ x ∈ s.
Proof. rewrite subnet_order_perm. apply elem_of_elements. Qed.

Lemma tracked_topic forks key s :
  (fork_topic key s, s) ∈ tracked forks ↔ ∃ fb, forks !! key = Some fb ∧ s ∈ fb_currently_subscribed fb.
Proof.
  rewrite elem_of_tracked. split; [|naive_solver]. intros (f & fb & Hf & Hs & Ht%fork_topic_inj). subst. eauto.
Qed.

(** Leaving and joining the differences moves from one set to the other. *)
Lemma told_moves forks key fork T config :
  forks !! key = Some fork → fc_fork config = key →
  foldl entry_step (Some (tracked forks))
    (((λ s, (false, (fork_topic key s, s))) <$> subnet_order (fb_currently_subscribed fork ∖ T)) ++
     ((λ s, (true, (fork_topic key s, s))) <$> subnet_order (T ∖ fb_currently_subscribed fork))) =
  Some (tracked (<[key := mkForkSubscriptions config T]> forks)).
Proof.
  intros Hf Hc. rewrite foldl_app, step_leaves, step_joins; try apply subnet_order_NoDup.
  - f_equal. apply set_eq. intros [t s]. rewrite elem_of_union, elem_of_difference, !elem_of_list_to_set,
      !list_elem_of_fmap. setoid_rewrite elem_of_subnet_order. setoid_rewrite elem_of_difference.
    rewrite !elem_of_tracked. split.
    + intros [(s' & [= -> ->] & Hs & _)|[(f & fb & Hfb & Hs & ->) Hn]].
      * exists key. eexists. rewrite lookup_insert_eq. split; [done|]. by cbn.
      * destruct (decide (f = key)) as [->|Hne].
        -- exists key. eexists. rewrite lookup_insert_eq. split; [done|]. cbn. split; [|done].
           rewrite Hf in Hfb. injection Hfb as <-. destruct (decide (s ∈ T)); [done|]. exfalso. apply Hn. by exists s.
        -- exists f, fb. by rewrite lookup_insert_ne.
    + intros (f & fb & Hfb & Hs & ->). apply lookup_insert_Some in Hfb as [[<- <-]|[Hne Hfb]].
      * cbn in Hs. destruct (decide (s ∈ fb_currently_subscribed fork)) as [Hi|Hi].
        -- right. split; [by exists key, fork|]. intros (s' & [= _ <-] & _ & Hn). done.
        -- left. by exists s.
      * right. split; [by exists f, fb|]. intros (s' & [= Ht _] & _). by apply fork_topic_inj in Ht.
  - intros s Hs%elem_of_subnet_order. apply elem_of_difference in Hs as [_ Hs]. apply not_elem_of_difference.
    left. rewrite tracked_topic. rewrite Hf. naive_solver.
  - intros s Hs%elem_of_subnet_order. apply elem_of_difference in Hs as [Hs _]. apply tracked_topic. eauto.
Qed.

(** The forks tracked, their configurations and the fork scored stay. *)
Definition same_forks (w w' : World) : Prop :=
  st_fork_to_score (w_state w') = st_fork_to_score (w_state w) ∧
  fb_config <$> st_forks (w_state w') = fb_config <$> st_forks (w_state w).

Lemma told_app w w' l :
  omap event_entry (w_events w') = omap event_entry (w_events w) ++ l →
  told (w_events w') = foldl entry_step (told (w_events w)) l.
Proof. unfold told. intros ->. apply foldl_app. Qed.

Lemma wp_assoc (m k : action World SubnetServiceError unit) {A} (r : action World SubnetServiceError A) Q w :
  wp (_ ← (_ ← m; k); r) Q w → wp (_ ← m; _ ← k; r) Q w.
Proof. unfold wp, mbind, action_bind. by destruct (m w) as [[]]. Qed.

Lemma handle_fork_spec source key fork score w :
  st_forks (w_state w) !! key = Some fork → fc_fork (fb_config fork) = key →
  wp (handle_subnet_changes_for_fork source key fork score) (λ o w',
    env_le w w' ∧ o ≠ Panic ∧ same_forks w w' ∧
    (w_listening w' = true → told (w_events w) = Some (tracked (st_forks (w_state w))) →
     told (w_events w') = Some (tracked (st_forks (w_state w'))) ∧
     st_forks (w_state w') = match generate_subnets source key with
                             | Ok T => <[key := mkForkSubscriptions (fb_config fork) T]> (st_forks (w_state w))
                             | _ => st_forks (w_state w)
                             end)) w.
Proof.
  intros Hf Hc. unfold handle_subnet_changes_for_fork. rewrite Hc. apply wp_bind, wp_lift.
  pose proof (generate_subnets_total source key) as Ht.
  destruct (generate_subnets source key) as [T|e|]; [|by split_and!|done].
  pose proof (sends_seq _ _ _ _ (sends_unsubscribes (fb_config fork)
     (subnet_order (fb_currently_subscribed fork ∖ T)))
    (sends_subscribes (fb_config fork) (subnet_order (T ∖ fb_currently_subscribed fork)) score)) as Hs.
  rewrite Hc in Hs. apply wp_assoc, wp_bind. eapply wp_mono; [apply Hs|]. clear Hs.
  intros o w2 (H1 & H2 & H3 & H4).
  destruct o as [[]|e|]; [apply wp_modify|split_and!; [done|done|by unfold same_forks; rewrite H2|]|done].
  - split_and!; [by destruct H1; split|done| |].
    + split; [by rewrite <- H2|]. change (fb_config <$> <[key := mkForkSubscriptions (fb_config fork) T]> (st_forks (w_state w2))
        = fb_config <$> st_forks (w_state w)). rewrite H2, fmap_insert. cbn. apply insert_id.
      by rewrite lookup_fmap, Hf.
    + intros Hl Ht0. destruct (H4 Hl) as [_ Hlog].
      change (told (w_events w2) = Some (tracked (<[key := mkForkSubscriptions (fb_config fork) T]> (st_forks (w_state w2)))) ∧
        <[key := mkForkSubscriptions (fb_config fork) T]> (st_forks (w_state w2)) =
        <[key := mkForkSubscriptions (fb_config fork) T]> (st_forks (w_state w))).
      rewrite H2. split; [|done]. rewrite (told_app _ _ _ Hlog), Ht0. by apply told_moves.
  - intros Hl. by destruct (H4 Hl).
Qed.

(** ** All forks *)

Definition keys_ok (forks : gmap Fork ForkSubscriptions) : Prop :=
  ∀ f fb, forks !! f = Some fb → fc_fork (fb_config fb) = f.

#[export] Instance same_forks_preorder : PreOrder same_forks.
Proof. split; [by split|]. unfold same_forks. intros w1 w2 w3 [-> ->] [-> ->]. done. Qed.

Lemma same_forks_keys w w' :
  same_forks w w' → keys_ok (st_forks (w_state w)) → keys_ok (st_forks (w_state w')).
Proof.
  intros [_ H] Hk f fb Hf. pose proof (f_equal (lookup f) H) as He. rewrite !lookup_fmap, Hf in He.
  destruct (st_forks (w_state w) !! f) as [fb'|] eqn:E; [|done]. injection He as He.
  rewrite He. by apply Hk.
Qed.

(** What was handled: the fork has the subnets the source gives. *)
Definition fork_done (source : SubnetGenerator) (w : World) (f : Fork) : Prop :=
  ∀ fb T, st_forks (w_state w) !! f = Some fb → generate_subnets source f = Ok T →
    fb_currently_subscribed fb = T.

Lemma handle_forks_spec source l w :
  NoDup l → keys_ok (st_forks (w_state w)) →
  wp (for_each (λ key,
    s ← gets w_state;
    match st_forks s !! key with
    | None => mret tt
    | Some fork =>
        let score := bool_decide (fc_fork (fb_config fork) = st_fork_to_score s) in
        ignore_err (handle_subnet_changes_for_fork source key fork score)
    end) l) (λ o w', env_le w w' ∧ o = Ok tt ∧ same_forks w w' ∧
    (w_listening w' = true → told (w_events w) = Some (tracked (st_forks (w_state w))) →
     told (w_events w') = Some (tracked (st_forks (w_state w'))) ∧
     (∀ f, f ∈ l → fork_done source w' f) ∧
     (∀ f, f ∉ l → st_forks (w_state w') !! f = st_forks (w_state w) !! f))) w.
Proof.
  revert w. induction l as [|key l IH]; intros w Hnd Hk; cbn [for_each].
  { apply wp_ret. split_and!; [done..|]. intros _ Ht. split_and!; [done|set_solver|done]. }
  apply NoDup_cons in Hnd as [Hkey Hnd]. apply wp_bind, wp_bind, wp_gets.
  destruct (st_forks (w_state w) !! key) as [fork|] eqn:Hf.
  - apply wp_bind, wp_attempt. eapply wp_mono; [apply handle_fork_spec; [done|by apply Hk]|].
    intros o w1 (H1 & H2 & H3 & H4). destruct o as [[]|e|]; [| |done]; apply wp_ret;
    (eapply wp_mono; [apply IH; [done|by eapply same_forks_keys]|]);
    intros o w2 (K1 & K2 & K3 & K4); (split_and!; [by etrans|done|by etrans|]);
    intros Hl Ht; destruct (H4 (el_listening _ _ K1 Hl) Ht) as [Ht1 Hfk];
    destruct (K4 Hl Ht1) as (Ht2 & Hd & Ho); (split_and!; [done| |]).
    all: try (intros f [->|Hi]%elem_of_cons; [|by apply Hd]; intros fb T Hfb HT; rewrite Ho, Hfk, HT in Hfb by done;
      rewrite lookup_insert_eq in Hfb; by injection Hfb as <-).
    all: intros f [Hne Hn]%not_elem_of_cons; rewrite Ho, Hfk by done;
      destruct (generate_subnets source key); [by rewrite lookup_insert_ne|done..].
  - apply wp_ret. eapply wp_mono; [by apply IH|]. intros o w2 (K1 & K2 & K3 & K4). split_and!; [done..|].
    intros Hl Ht. destruct (K4 Hl Ht) as (Ht2 & Hd & Ho). split_and!; [done| |].
    + intros f [->|Hi]%elem_of_cons; [|by apply Hd]. intros fb T Hfb. by rewrite Ho, Hf in Hfb.
    + intros f [Hne Hn]%not_elem_of_cons. by apply Ho.
Qed.

Lemma handle_changes_spec w :
  keys_ok (st_forks (w_state w)) →
  wp handle_subnet_changes (λ o w', env_le w w' ∧ o = Ok tt ∧ same_forks w w' ∧
    (w_listening w' = true → told (w_events w) = Some (tracked (st_forks (w_state w))) →
     told (w_events w') = Some (tracked (st_forks (w_state w'))) ∧
     ∀ f, fork_done (subnet_source (w_db w)) w' f)) w.
Proof.
  intros Hk. unfold handle_subnet_changes. apply wp_bind, wp_gets. apply wp_bind, wp_gets.
  eapply wp_mono; [apply handle_forks_spec; [rewrite fork_order_perm; apply NoDup_elements|done]|].
  intros o w' (H1 & H2 & H3 & H4). split_and!; [done..|]. intros Hl Ht.
  destruct (H4 Hl Ht) as (Ht2 & Hd & Ho). split; [done|]. intros f.
  destruct (decide (f ∈ fork_order (dom (st_forks (w_state w))))) as [Hi|Hi]; [by apply Hd|].
  intros fb T Hfb. rewrite Ho in Hfb by done. exfalso. apply Hi. rewrite fork_order_perm, elem_of_elements.
  by eapply elem_of_dom_2.
Qed.

(** ** A new lifecycle *)

Lemma told_leaves forks key fork :
  forks !! key = Some fork →
  foldl entry_step (Some (tracked forks))
    ((λ s, (false, (fork_topic key s, s))) <$> subnet_order (fb_currently_subscribed fork)) =
  Some (tracked (delete key forks)).
Proof.
  intros Hf. pose proof (told_moves forks key fork ∅ (mkForkConfig key 0 []) Hf eq_refl) as H.
  rewrite difference_empty_L in H.
  replace (∅ ∖ fb_currently_subscribed fork) with (∅ : gset SubnetId) in H by set_solver.
  assert (subnet_order ∅ = []) as He by (apply Permutation_nil_r; by rewrite subnet_order_perm, elements_empty).
  rewrite He, app_nil_r in H. rewrite H. f_equal. apply set_eq. intros [t s]. rewrite !elem_of_tracked.
  split; intros (f & fb & Hfb & Hs & ->).
  - apply lookup_insert_Some in Hfb as [[<- <-]|[Hne Hfb]]; [cbn in Hs; set_solver|].
    exists f, fb. by rewrite lookup_delete_ne.
  - apply lookup_delete_Some in Hfb as [Hne Hfb]. exists f, fb. by rewrite lookup_insert_ne.
Qed.

(** Unsubscribing from what is removed leaves what is kept. *)
Lemma told_removes (keep : Fork → bool) (forks m : gmap Fork ForkSubscriptions) ks :
  NoDup ks → keys_ok forks → (∀ k, k ∈ ks → m !! k = forks !! k) →
  foldl entry_step (Some (tracked m))
    (omap (λ fork, if keep fork then None else forks !! fork) ks ≫= λ removed,
       (λ s, (false, (fork_topic (fc_fork (fb_config removed)) s, s)))
         <$> subnet_order (fb_currently_subscribed removed)) =
  Some (tracked (foldl (λ m k, if keep k then m else delete k m) m ks)).
Proof.
  intros Hnd Hk. revert m. induction ks as [|k ks IH]; intros m Hm; cbn [omap list_omap foldl]; [done|].
  apply NoDup_cons in Hnd as [Hnk Hnd]. specialize (IH Hnd).
  destruct (keep k); [apply IH; intros k' Hk'; apply Hm; by right|].
  pose proof (Hm k ltac:(by left)) as Hmk.
  destruct (forks !! k) as [fb|] eqn:Hf.
  - cbn [mbind list_bind]. rewrite foldl_app, (Hk k fb Hf), (told_leaves m k fb Hmk).
    apply IH. intros k' Hk'. rewrite lookup_delete_ne by set_solver. apply Hm. by right.
  - rewrite delete_id by done. apply IH. intros k' Hk'. apply Hm. by right.
Qed.

Lemma lookup_removes (keep : Fork → bool) (m : gmap Fork ForkSubscriptions) ks f :
  foldl (λ m k, if keep k then m else delete k m) m ks !! f =
    if decide (f ∈ ks ∧ keep f = false) then None else m !! f.
Proof.
  revert m. induction ks as [|k ks IH]; intros m; cbn [foldl].
  { rewrite decide_False; [done|]. by intros [?%elem_of_nil ?]. }
  rewrite IH. destruct (decide (f = k)) as [->|Hne].
  - destruct (keep k) eqn:Hk; rewrite ?lookup_delete_eq; repeat case_decide; try done; exfalso; set_solver.
  - assert ((if keep k then m else delete k m) !! f = m !! f) as ->.
    { destruct (keep k); [done|]. by rewrite lookup_delete_ne. }
    repeat case_decide; try done; exfalso; set_solver.
Qed.

Lemma lookup_track_fork (configs : list ForkConfig) (m : gmap Fork ForkSubscriptions) f :
  foldl track_fork m configs !! f =
  match m !! f with
  | Some fb => Some fb
  | None => (λ p, mkForkSubscriptions p.2 ∅) <$> list_find (λ c, fc_fork c = f) configs
  end.
Proof.
  revert m. induction configs as [|c configs IH]; intros m; cbn [foldl]; [by destruct (m !! f)|].
  rewrite IH. cbn [list_find]. unfold track_fork. destruct (m !! fc_fork c) as [fb|] eqn:Hc.
  - destruct (m !! f) as [fb'|] eqn:Hf; [done|]. rewrite decide_False by (intros <-; congruence).
    by destruct (list_find _ configs) as [[]|].
  - destruct (decide (fc_fork c = f)) as [<-|Hne].
    + by rewrite lookup_insert_eq, Hc.
    + rewrite lookup_insert_ne by done. destruct (m !! f); [done|]. by destruct (list_find _ configs) as [[]|].
Qed.

Lemma wanted_true configs f : wanted configs f = true ↔ ∃ c, c ∈ configs ∧ fc_fork c = f.
Proof.
  unfold wanted. rewrite existsb_exists. setoid_rewrite bool_decide_eq_true.
  by setoid_rewrite <- list_elem_of_In.
Qed.

(** The forks tracked after [set_subscribed_forks]: the wanted ones, as before or empty. *)
Lemma lookup_set_forks configs s f :
  st_forks (set_subscribed_forks configs s).2 !! f =
    if wanted configs f then
      match st_forks s !! f with
      | Some fb => Some fb
      | None => (λ p, mkForkSubscriptions p.2 ∅) <$> list_find (λ c, fc_fork c = f) configs
      end
    else None.
Proof.
  unfold set_subscribed_forks. cbn [snd]. unfold setter. cbn [st_forks].
  rewrite lookup_track_fork, map_lookup_filter.
  destruct (wanted configs f) eqn:Hw.
  - destruct (st_forks s !! f) as [fb|]; cbn; [by case_guard|done].
  - assert (list_find (λ c, fc_fork c = f) configs = None) as ->.
    { apply list_find_None, Forall_forall. intros c Hc Hf. apply not_true_iff_false in Hw. apply Hw.
      apply wanted_true. by exists c. }
    destruct (st_forks s !! f) as [fb|]; cbn; [|done]. case_guard as Hg; [|done]. cbn in Hg. congruence.
Qed.

(** Actions whose errors are all logged. *)
Definition never_fails (m : action World SubnetServiceError unit) : Prop := ∀ w, (m w).1 = Ok tt.

Lemma never_fails_ignore_err m l : sends m l → never_fails (ignore_err m).
Proof.
  intros Hm w. destruct (Hm w) as (_ & _ & Ho & _). unfold ignore_err, attempt, mbind, action_bind.
  by destruct (m w) as [[]].
Qed.

Lemma never_fails_for_each {A} (f : A → action World SubnetServiceError unit) l :
  (∀ x, never_fails (f x)) → never_fails (for_each f l).
Proof.
  intros Hf. induction l as [|x l IH]; intros w; cbn [for_each]; [done|].
  unfold mbind, action_bind. specialize (Hf x w). destruct (f x w) as [[[]| |] w']; [apply IH|done..].
Qed.

Lemma never_fails_scoring : never_fails send_scoring_rate_updates.
Proof.
  intros w. unfold send_scoring_rate_updates. unfold mbind at 1, action_bind at 1, gets at 1.
  destruct (st_forks (w_state w) !! _); [|done]. eapply never_fails_ignore_err, sends_nothing.
  intros x. apply sends_gets. intros db. apply sends_event.
Qed.

Lemma sends_wp m l w :
  sends m l → never_fails m → wp m (λ o w', o = Ok tt ∧ env_le w w' ∧ w_state w' = w_state w ∧
    (w_listening w' = true → told (w_events w') = foldl entry_step (told (w_events w)) l)) w.
Proof.
  intros Hm Hf. destruct (Hm w) as (H1 & H2 & _ & H4). split_and!; [apply Hf|done|done|].
  intros Hl. apply told_app. by destruct (H4 Hl).
Qed.

Definition forks_of (l : ForkLifecycle) : gset Fork := list_to_set (fc_fork <$> lifecycle_forks l).

Lemma set_forks_keys configs s :
  keys_ok (st_forks s) → keys_ok (st_forks (set_subscribed_forks configs s).2).
Proof.
  intros Hk f fb. rewrite lookup_set_forks. destruct (wanted configs f); [|done].
  destruct (st_forks s !! f) as [fb'|] eqn:Hf; [intros [= <-]; by apply Hk|].
  destruct (list_find _ configs) as [[i c]|] eqn:Hfi; [|done]. intros [= <-].
  by apply list_find_Some in Hfi as (_ & ? & _).
Qed.

Lemma set_forks_dom configs s :
  dom (st_forks (set_subscribed_forks configs s).2) = list_to_set (fc_fork <$> configs).
Proof.
  apply set_eq. intros f. rewrite elem_of_dom, lookup_set_forks, elem_of_list_to_set, list_elem_of_fmap.
  destruct (wanted configs f) eqn:Hw.
  - apply wanted_true in Hw as (c & Hc & Hf). split; [intros _; by exists c|]. intros _.
    destruct (st_forks s !! f); [done|].
    destruct (list_find_elem_of (λ c, fc_fork c = f) configs c Hc Hf) as [[i c'] ->]. done.
  - split; [by intros []|]. intros (c & -> & Hc). apply not_true_iff_false in Hw. destruct Hw.
    apply wanted_true. by exists c.
Qed.

(** The removed forks account for the difference. *)
Lemma told_set_forks configs s :
  keys_ok (st_forks s) →
  foldl entry_step (Some (tracked (st_forks s)))
    ((set_subscribed_forks configs s).1 ≫= λ removed,
       (λ s, (false, (fork_topic (fc_fork (fb_config removed)) s, s)))
         <$> subnet_order (fb_currently_subscribed removed)) =
  Some (tracked (st_forks (set_subscribed_forks configs s).2)).
Proof.
  intros Hk. cbn [fst set_subscribed_forks].
  rewrite (told_removes (wanted configs) (st_forks s));
    [|rewrite fork_order_perm; apply NoDup_elements|done|done].
  f_equal. apply set_eq. intros [t x]. rewrite !elem_of_tracked.
  split; intros (f & fb & Hfb & Hx & ->); exists f, fb.
  - rewrite lookup_removes in Hfb. case_decide as Hd; [done|]. rewrite lookup_set_forks, Hfb.
    destruct (wanted configs f) eqn:E; [done|]. exfalso. apply Hd. split; [|done].
    rewrite fork_order_perm, elem_of_elements. by eapply elem_of_dom_2.
  - rewrite lookup_removes. rewrite lookup_set_forks in Hfb.
    destruct (wanted configs f) eqn:E; [|done]. rewrite decide_False by naive_solver.
    destruct (st_forks s !! f); [done|]. destruct (list_find _ configs); [|done].
    cbn in Hfb. injection Hfb as <-. cbn in Hx. set_solver.
Qed.

Lemma transition_spec new w :
  keys_ok (st_forks (w_state w)) →
  wp (on_lifecycle_transition new) (λ o w', o = Ok tt ∧ env_le w w' ∧
    st_fork_to_score (w_state w') = fc_fork (current_fork_config new) ∧
    keys_ok (st_forks (w_state w')) ∧ dom (st_forks (w_state w')) = forks_of new ∧
    (w_listening w' = true → told (w_events w) = Some (tracked (st_forks (w_state w))) →
     told (w_events w') = Some (tracked (st_forks (w_state w'))))) w.
Proof.
  intros Hk. unfold on_lifecycle_transition. apply wp_bind, wp_gets.
  set (s1 := w_state w <| st_fork_to_score := fc_fork (current_fork_config new) |>).
  pose proof (set_forks_keys (lifecycle_forks new) s1 Hk) as Hk'.
  pose proof (set_forks_dom (lifecycle_forks new) s1) as Hd.
  pose proof (told_set_forks (lifecycle_forks new) s1 Hk) as Ht.
  assert (st_fork_to_score (set_subscribed_forks (lifecycle_forks new) s1).2 = fc_fork (current_fork_config new)) as Hs by done.
  destruct (set_subscribed_forks (lifecycle_forks new) s1) as [removed s2]. cbn [fst snd] in *.
  apply wp_bind, wp_modify. apply wp_bind.
  eapply wp_mono; [eapply sends_wp|].
  - apply (sends_for_each _ (λ removed, (λ s, (false, (fork_topic (fc_fork (fb_config removed)) s, s)))
         <$> subnet_order (fb_currently_subscribed removed))).
    intros r. apply sends_ignore_err, sends_unsubscribes.
  - apply never_fails_for_each. intros r. eapply never_fails_ignore_err, sends_unsubscribes.
  - intros o w1 (-> & H1 & H2 & H3).
    assert (env_le w w1) as Hle by (etrans; [|exact H1]; by split).
    assert (w_listening w1 = true → told (w_events w) = Some (tracked (st_forks (w_state w))) →
      told (w_events w1) = Some (tracked s2.(st_forks))) as Htold.
    { intros Hl Ht0. rewrite (H3 Hl), <- Ht. f_equal. exact Ht0. }
    change (w_state w1 = s2) in H2. destruct (_ && _).
    + eapply wp_mono; [apply (sends_wp _ [] _ sends_scoring never_fails_scoring)|].
      intros o w2 (-> & K1 & K2 & K3). rewrite K2, H2. split_and!; [done|by etrans|done..|].
      intros Hl Ht0. rewrite (K3 Hl). apply Htold; [by eapply el_listening|done].
    + apply wp_ret. rewrite H2. by split_and!.
Qed.

(** ** Runs *)

(** The task tracks what it told the network; the forks are those of a lifecycle and the
    subnets those of a database, each the current one unless a notification is pending. *)
Record service_ok (w : World) : Prop := {
  so_keys : keys_ok (st_forks (w_state w));
  so_lifecycle : ∃ l, (w_lifecycle_changed w = false → w_lifecycle w = l) ∧
    dom (st_forks (w_state w)) = forks_of l ∧
    st_fork_to_score (w_state w) = fc_fork (current_fork_config l);
  so_told : w_listening w = true → told (w_events w) = Some (tracked (st_forks (w_state w)));
  so_db : w_listening w = true → ∃ db, (w_db_changed w = false → w_db w = db) ∧
    ∀ f, fork_done (subnet_source db) w f;
}.

Lemma service_ok_step w w' :
  service_ok w → env_le w w' → w_state w' = w_state w →
  (w_listening w' = true → told (w_events w') = told (w_events w)) → service_ok w'.
Proof.
  intros [Hk (l & Hl & Hd & Hs) Ht Hdb] Hle Hst Hev. split.
  - by rewrite Hst.
  - exists l. rewrite Hst. split; [|done]. intros [Hc ->]%(el_lifecycle _ _ Hle). auto.
  - intros Hli. rewrite Hst, (Hev Hli). by apply Ht, Hle.
  - intros Hli. destruct (Hdb (el_listening _ _ Hle Hli)) as (db & Hdb' & Hf). exists db. split.
    + intros [Hc ->]%(el_db _ _ Hle). auto.
    + unfold fork_done. rewrite Hst. apply Hf.
Qed.

Lemma handle_changes_ok w l :
  keys_ok (st_forks (w_state w)) → (w_lifecycle_changed w = false → w_lifecycle w = l) →
  dom (st_forks (w_state w)) = forks_of l → st_fork_to_score (w_state w) = fc_fork (current_fork_config l) →
  (w_listening w = true → told (w_events w) = Some (tracked (st_forks (w_state w)))) →
  wp handle_subnet_changes (λ _ w', service_ok w') w.
Proof.
  intros Hk Hl Hd Hs Ht. eapply wp_mono; [by apply handle_changes_spec|].
  intros o w' (H1 & _ & H3 & H4). destruct H3 as [H3 H3'].
  assert (dom (st_forks (w_state w')) = dom (st_forks (w_state w))) as Hdom.
  { rewrite <- (dom_fmap_L fb_config (st_forks (w_state w'))), H3'. apply dom_fmap_L. }
  split.
  - apply (same_forks_keys w); [by split|done].
  - exists l. rewrite Hdom, H3. split; [|done]. intros [Hc ->]%(el_lifecycle _ _ H1). auto.
  - intros Hli. apply H4; [done|]. by apply Ht, H1.
  - intros Hli. exists (w_db w). split; [intros Hc; by apply (el_db _ _ H1)|].
    apply H4; [done|]. by apply Ht, H1.
Qed.

(** A new lifecycle, then the subnets of its forks. *)
Lemma transition_ok w :
  keys_ok (st_forks (w_state w)) →
  (w_listening w = true → told (w_events w) = Some (tracked (st_forks (w_state w)))) →
  wp (new ← borrow_and_update; _ ← on_lifecycle_transition new; handle_subnet_changes)
    (λ _ w', service_ok w') w.
Proof.
  intros Hk Ht. apply wp_bind. unfold borrow_and_update. apply wp_bind, wp_modify, wp_gets.
  set (w1 := w <| w_lifecycle_changed := false |>). apply wp_bind.
  eapply wp_mono; [by apply transition_spec|]. intros o w2 (-> & H1 & H2 & H3 & H4 & H5).
  apply (handle_changes_ok _ (w_lifecycle w1)); [done| |done|done|].
  - intros Hc. by apply (el_lifecycle _ _ H1).
  - intros Hl. apply H5; [done|]. by apply Ht, (el_listening _ _ H1).
Qed.

Lemma service_event_ok w e : service_ok w → service_ok (service_event w e).
Proof.
  intros Hok. destruct e as [branch|a]; cbn [service_event].
  2:{ destruct (env_action_le w a) as (H1 & H2 & H3). eapply service_ok_step; [done..|]. by rewrite H3. }
  unfold run_iteration. refine (proj1 (wp_final _ service_ok _) _). apply wp_bind, wp_gets. cbn [id].
  destruct (w_stopped w); [done|].
  assert (∀ w', w_state w' = w_state w → w_events w' = w_events w → w_listening w' = w_listening w →
    w_db w' = w_db w → w_db_changed w' = w_db_changed w → w_lifecycle w' = w_lifecycle w →
    w_lifecycle_changed w' = w_lifecycle_changed w → service_ok w') as Hframe.
  { intros w' E1 E2 E3 E4 E5 E6 E7. destruct Hok as [Hk Hl Ht Hd].
    split; unfold fork_done; rewrite ?E1, ?E2, ?E3, ?E4, ?E5, ?E6, ?E7; done. }
  pose proof (so_keys _ Hok) as Hk. pose proof (so_lifecycle _ Hok) as Hl. pose proof (so_told _ Hok) as Ht.
  destruct branch.
  - destruct (sv_subscribe_all_subnets sv); [done|]. destruct (w_db_changed w) eqn:Hc.
    + destruct Hl as (l & Hl & Hd & Hs). apply wp_bind, wp_modify. by apply (handle_changes_ok _ l).
    + destruct (w_db_open w); [done|]. by apply wp_modify, Hframe.
  - destruct (sv_disable_gossipsub_topic_scoring sv); [done|].
    eapply wp_mono; [apply (sends_wp _ [] _ sends_scoring never_fails_scoring)|].
    intros o w' (_ & H1 & H2 & H3). by eapply service_ok_step.
  - destruct (w_lifecycle_changed w) eqn:Hc; [by apply transition_ok|].
    destruct (w_lifecycle_open w); [done|]. by apply wp_modify, Hframe.
Qed.

Lemma tracked_empty : tracked ∅ = ∅.
Proof. unfold tracked. by rewrite map_to_list_empty. Qed.

Lemma service_run_ok w es : w_events w = [] → service_ok (service_run w es).
Proof.
  intros He. unfold service_run.
  assert (service_ok (initial_service_state w).2) as H0.
  { refine (proj1 (wp_final _ service_ok _) _). unfold initial_service_state. apply wp_bind, wp_modify.
    apply transition_ok; [by intros ? ?|]. intros _. cbn [w_events w_state]. unfold setter; cbn [w_events w_state st_forks].
    rewrite He, tracked_empty. done. }
  revert H0. generalize (initial_service_state w).2. clear. induction es as [|e es IH]; intros w Hw; [done|].
  cbn [foldl]. by apply IH, service_event_ok.
Qed.

(** ** The topics of a quiet service *)

Lemma from_operators_for_fork_lt l f s :
  from_operators_for_fork sha256 l f = Ok s → (s < SUBNET_COUNT)%N.
Proof.
  assert (∀ a, try_into_u64 (a `mod` SUBNET_COUNT) = Some s → (s < SUBNET_COUNT)%N) as Ha.
  { intros a. rewrite try_into_u64_mod by done. intros [= <-]. by apply N.mod_lt. }
  destruct f; unfold from_operators_for_fork.
  - unfold from_committee_alan. cbn [N.eqb SUBNET_COUNT]. destruct (try_into_u64 _) eqn:E; [|done].
    intros [= <-]. by eapply Ha.
  - unfold from_operators. intros (h & _ & H%ok_or_ok)%bind_ok. by eapply Ha.
Qed.

(** The own clusters that are not liquidated. *)
Definition active_cluster (db : NetworkState) (c : Cluster) : Prop :=
  ∃ cid, cid ∈ get_own_clusters db ∧ get_by cid (ms_clusters (ns_multi db)) = Some c ∧
    cl_liquidated c = false.

Lemma elem_of_committees db l :
  l ∈ match committees_from_network_state db with Committees s => elements s | AllSubnets => [] end ↔
  ∃ c, active_cluster db c ∧ l = cl_cluster_members c.
Proof.
  cbn [committees_from_network_state]. rewrite elem_of_elements, elem_of_list_to_set, list_elem_of_fmap.
  setoid_rewrite list_elem_of_filter. setoid_rewrite list_elem_of_omap. setoid_rewrite elem_of_elements.
  unfold active_cluster. naive_solver.
Qed.

(** Operators with members always have a subnet. *)
Lemma from_operators_for_fork_some l f :
  l ≠ [] → ∃ s, from_operators_for_fork sha256 l f = Ok s.
Proof.
  intros Hl. destruct f; unfold from_operators_for_fork.
  - unfold from_committee_alan. cbn [N.eqb SUBNET_COUNT]. rewrite try_into_u64_mod by done. by eexists.
  - unfold from_operators. destruct l as [|o l]; [done|]. cbn [fmap list_fmap min_bytes].
    destruct (match min_bytes _ with Some _ => _ | None => _ end) as [h|] eqn:E.
    + cbn. rewrite try_into_u64_mod by done. by eexists.
    + by repeat case_match.
Qed.

Lemma generate_own db f :
  (∀ c, active_cluster db c → cl_cluster_members c ≠ []) →
  ∃ T, generate_subnets (committees_from_network_state db) f = Ok T ∧
    ∀ s, s ∈ T ↔ ∃ c, active_cluster db c ∧ from_operators_for_fork sha256 (cl_cluster_members c) f = Ok s.
Proof.
  intros Hne. pose proof (elem_of_committees db) as Hel.
  unfold generate_subnets. destruct (committees_from_network_state db) as [|cs] eqn:Hcs; [done|].
  assert (∃ ss, try_map (λ committee, map_err SubnetCalculation (from_operators_for_fork sha256 committee f))
    (elements cs) = Ok ss) as [ss Hss].
  { assert (∀ l, l ∈ elements cs → l ≠ []) as Hl by (intros l (c & Hc & ->)%Hel; auto).
    clear Hel Hcs. induction (elements cs) as [|l ls IH]; [by exists []|]. cbn [try_map].
    destruct (from_operators_for_fork_some l f) as [s ->]; [apply Hl; by left|].
    destruct IH as [ss Hss]; [intros; apply Hl; by right|]. cbn [map_err mbind outcome_bind]. rewrite Hss. by eexists. }
  exists (list_to_set ss). rewrite Hss. split; [done|]. apply try_map_ok in Hss.
  intros s. rewrite elem_of_list_to_set. split.
  - intros [i Hi]%list_elem_of_lookup. destruct (Forall2_lookup_r _ _ _ _ _ Hss Hi) as (l & Hli & Hf%map_err_ok).
    apply list_elem_of_lookup_2, Hel in Hli as (c & Hc & ->). eauto.
  - intros (c & Hc & Hf). assert (cl_cluster_members c ∈ elements cs) as [i Hi]%list_elem_of_lookup.
    { apply Hel. eauto. }
    destruct (Forall2_lookup_l _ _ _ _ _ Hss Hi) as (s' & Hs' & Hf'%map_err_ok).
    apply list_elem_of_lookup_2 in Hs'. congruence.
Qed.

(** The subnets a node should be on under a fork. *)
Definition target_subnet (db : NetworkState) (f : Fork) (s : SubnetId) : Prop :=
  if sv_subscribe_all_subnets sv then (s < SUBNET_COUNT)%N
  else ∃ c, active_cluster db c ∧ from_operators_for_fork sha256 (cl_cluster_members c) f = Ok s.

Lemma generate_target db f :
  (∀ c, active_cluster db c → cl_cluster_members c ≠ []) →
  ∃ T, generate_subnets (subnet_source db) f = Ok T ∧ ∀ s, s ∈ T ↔ target_subnet db f s.
Proof.
  intros Hne. unfold subnet_source, target_subnet. destruct (sv_subscribe_all_subnets sv); [|by apply generate_own].
  eexists. split; [done|]. intros s. rewrite elem_of_list_to_set. apply elem_of_range.
Qed.

Lemma target_subnet_lt db f s : target_subnet db f s → (s < SUBNET_COUNT)%N.
Proof.
  unfold target_subnet. destruct (sv_subscribe_all_subnets sv); [done|].
  intros (c & _ & H). by eapply from_operators_for_fork_lt.
Qed.

(** No notification the task reacts to is pending. *)
Definition quiet (w : World) : Prop :=
  w_lifecycle_changed w = false ∧ (sv_subscribe_all_subnets sv = false → w_db_changed w = false).

Lemma quiet_topics w :
  service_ok w → w_listening w = true → quiet w →
  (∀ c, active_cluster (w_db w) c → cl_cluster_members c ≠ []) →
  ∀ t s, (t, s) ∈ tracked (st_forks (w_state w)) ↔
    ∃ f, f ∈ forks_of (w_lifecycle w) ∧ target_subnet (w_db w) f s ∧ t = fork_topic f s.
Proof.
  intros [Hk (l & Hl & Hd & _) _ Hdb] Hli [Hql Hqd] Hne t s.
  destruct (Hdb Hli) as (db & Hdb' & Hdone). rewrite (Hl Hql), <- Hd.
  assert (subnet_source db = subnet_source (w_db w)) as Hsrc.
  { unfold subnet_source. destruct (sv_subscribe_all_subnets sv); [done|]. by rewrite Hdb' by auto. }
  rewrite elem_of_tracked. setoid_rewrite elem_of_dom. rewrite Hsrc in Hdone. split.
  - intros (f & fb & Hf & Hs & ->). exists f. split; [done|]. split; [|done].
    destruct (generate_target (w_db w) f Hne) as (T & HT & Hm). apply Hm. by rewrite <- (Hdone f fb T Hf HT).
  - intros (f & [fb Hf] & Hs & ->). exists f, fb. split; [done|]. split; [|done].
    destruct (generate_target (w_db w) f Hne) as (T & HT & Hm). rewrite (Hdone f fb T Hf HT). by apply Hm.
Qed.

(** ** Every event names a routable topic *)

Definition scheduled (f : Fork) : Prop := is_Some (fs_configs (tr_fork_schedule (sv_router sv)) !! f).

(** A lifecycle of the schedule. *)
Definition lifecycle_scheduled (l : ForkLifecycle) : Prop := ∀ f, f ∈ forks_of l → scheduled f.

Definition action_scheduled (a : EnvAction) : Prop :=
  match a with PublishLifecycle l => lifecycle_scheduled l | _ => True end.

Definition event_wf (e : TopicEvent) : Prop :=
  match e with
  | Subscribe topic subnet _ | Unsubscribe topic subnet =>
      ∃ f, scheduled f ∧ (subnet < SUBNET_COUNT)%N ∧ topic = fork_topic f subnet
  | RateUpdate topic _ =>
      ∃ f subnet, scheduled f ∧ (subnet < SUBNET_COUNT)%N ∧ topic = fork_topic f subnet
  end.

Definition fork_wf (fb : ForkSubscriptions) : Prop :=
  scheduled (fc_fork (fb_config fb)) ∧ ∀ s, s ∈ fb_currently_subscribed fb → (s < SUBNET_COUNT)%N.

(** The lifecycles are those of the schedule, and so are the forks and events. *)
Record world_wf (w : World) : Prop := {
  ww_lifecycle : lifecycle_scheduled (w_lifecycle w);
  ww_env : Forall (Forall action_scheduled) (w_env w);
  ww_keys : keys_ok (st_forks (w_state w));
  ww_forks : ∀ f fb, st_forks (w_state w) !! f = Some fb → fork_wf fb;
  ww_events : Forall event_wf (w_events w);
}.

Lemma env_action_wf w a : action_scheduled a → world_wf w → world_wf (env_action w a).
Proof.
  intros Ha [H1 H2 H3 H4 H5]. destruct a; cbn; try destruct (w_db_open w); try destruct (w_lifecycle_open w); by split.
Qed.

Lemma keeps_wait : keeps world_wf wait.
Proof.
  intros w Hw. unfold wait. destruct (w_env w) as [|l env] eqn:He; [done|]. cbn [snd].
  pose proof (ww_env _ Hw) as Hl. rewrite He in Hl. apply Forall_cons in Hl as [Hl Henv].
  assert (world_wf (w <| w_env := env |>)) as Hw' by by destruct Hw; split.
  revert Hw'. generalize (w <| w_env := env |>). clear -Hl.
  induction l as [|a l IH]; intros w Hw; [done|]. apply Forall_cons in Hl as [Ha Hl].
  cbn [foldl]. by apply IH, env_action_wf.
Qed.

Lemma keeps_send_event e : event_wf e → keeps world_wf (send_event e).
Proof.
  intros He. unfold send_event. keeps_step; [apply keeps_wait|]. keeps_step; [keeps_step|].
  keeps_step; [|keeps_step]. apply keeps_modify. intros w [H1 H2 H3 H4 H5]. split; try done.
  unfold setter. cbn [w_events]. apply Forall_app. split; [done|]. by apply Forall_singleton.
Qed.

Lemma keeps_sends_topics (mk : SubnetId → NetworkState → TopicEvent) l :
  (∀ s db, s ∈ l → event_wf (mk s db)) →
  keeps world_wf (for_each (λ s, db ← gets w_db; send_event (mk s db)) l).
Proof.
  intros Hl. apply keeps_for_each. intros s Hs. keeps_step; [keeps_step|]. by apply keeps_send_event, Hl.
Qed.

Lemma keeps_unsubscribes config l :
  scheduled (fc_fork config) → (∀ s, s ∈ l → (s < SUBNET_COUNT)%N) → keeps world_wf (send_unsubscribes config l).
Proof.
  intros Hf Hl. apply keeps_for_each. intros s Hs. apply keeps_send_event. exists (fc_fork config). auto.
Qed.

Lemma keeps_subscribes config l rate :
  scheduled (fc_fork config) → (∀ s, s ∈ l → (s < SUBNET_COUNT)%N) → keeps world_wf (send_subscribes config l rate).
Proof.
  intros Hf Hl. apply (keeps_sends_topics (λ s db, Subscribe (fork_topic (fc_fork config) s) s
    (if rate then subnet_message_rate s config db else None))). intros s db Hs. exists (fc_fork config). auto.
Qed.

Lemma keeps_scoring : keeps world_wf send_scoring_rate_updates.
Proof.
  apply keeps_gets. intros w Hw. destruct (st_forks (w_state w) !! st_fork_to_score (w_state w)) as [fork|] eqn:Hf; [|done].
  destruct (ww_forks _ Hw _ _ Hf) as [Hs Hl]. rewrite (ww_keys _ Hw _ _ Hf) in Hs.
  refine (keeps_ignore_err _ _ _ w Hw).
  apply (keeps_sends_topics (λ s db, RateUpdate (fork_topic (st_fork_to_score (w_state w)) s) _)).
  intros s db Hx%elem_of_subnet_order. exists (st_fork_to_score (w_state w)), s. auto.
Qed.

Lemma generate_lt g f T s : generate_subnets g f = Ok T → s ∈ T → (s < SUBNET_COUNT)%N.
Proof.
  destruct g as [|cs]; cbn [generate_subnets].
  - intros HT. assert (T = list_to_set (range SUBNET_COUNT)) as -> by congruence.
    by rewrite elem_of_list_to_set, elem_of_range.
  - intros (ss & Hss%try_map_ok & [= <-])%bind_ok. rewrite elem_of_list_to_set. intros [i Hi]%list_elem_of_lookup.
    destruct (Forall2_lookup_r _ _ _ _ _ Hss Hi) as (l & _ & Hf%map_err_ok). by eapply from_operators_for_fork_lt.
Qed.

Lemma keeps_handle_fork source key fork score :
  fc_fork (fb_config fork) = key → fork_wf fork →
  keeps world_wf (handle_subnet_changes_for_fork source key fork score).
Proof.
  intros Hk [Hs Hl] w. unfold handle_subnet_changes_for_fork. unfold mbind at 1, action_bind at 1, lift.
  destruct (generate_subnets source (fc_fork (fb_config fork))) as [T|e|] eqn:HT; [|done..]. revert w.
  apply keeps_bind.
  { apply keeps_unsubscribes; [done|]. intros s [? _]%elem_of_subnet_order%elem_of_difference. auto. }
  intros _. apply keeps_bind.
  { apply keeps_subscribes; [done|]. intros s [? _]%elem_of_subnet_order%elem_of_difference. by eapply generate_lt. }
  intros _. apply keeps_modify. intros w [H1 H2 H3 H4 H5].
  assert (fork_wf (mkForkSubscriptions (fb_config fork) T)) as Hwf by (split; [done|]; cbn; intros; by eapply generate_lt).
  split; try done.
  - intros f fb. unfold setter. cbn. intros [[<- <-]|[_ ?]]%lookup_insert_Some; [done|by apply H3].
  - intros f fb. unfold setter. cbn. intros [[<- <-]|[_ ?]]%lookup_insert_Some; [done|by eapply H4].
Qed.

Lemma keeps_handle_changes : keeps world_wf handle_subnet_changes.
Proof.
  unfold handle_subnet_changes. keeps_step; [keeps_step|]. keeps_step; [keeps_step|].
  apply keeps_for_each. intros key _. apply keeps_gets. intros w Hw.
  destruct (st_forks (w_state w) !! key) as [fork|] eqn:Hf; [|done].
  refine (keeps_ignore_err _ _ _ w Hw). apply keeps_handle_fork; [by apply (ww_keys _ Hw)|by eapply ww_forks].
Qed.

Lemma keeps_transition new : lifecycle_scheduled new → keeps world_wf (on_lifecycle_transition new).
Proof.
  intros Hn. unfold on_lifecycle_transition. apply keeps_gets. intros w Hw.
  set (s1 := w_state w <| st_fork_to_score := fc_fork (current_fork_config new) |>).
  pose proof (set_forks_keys (lifecycle_forks new) s1 (ww_keys _ Hw)) as Hk.
  pose proof (lookup_set_forks (lifecycle_forks new) s1) as Hl.
  assert (∀ fb, fb ∈ (set_subscribed_forks (lifecycle_forks new) s1).1 → fork_wf fb) as Hr.
  { intros fb. cbn [fst set_subscribed_forks]. intros (f & _ & Hf)%list_elem_of_omap. revert Hf.
    destruct (wanted (lifecycle_forks new) f); [done|]. intros Hf. by eapply (ww_forks _ Hw). }
  assert (∀ f fb, st_forks (set_subscribed_forks (lifecycle_forks new) s1).2 !! f = Some fb → fork_wf fb) as Hf.
  { intros f fb Hfb. pose proof (Hk f fb Hfb) as Hkf. rewrite Hl in Hfb.
    destruct (wanted (lifecycle_forks new) f) eqn:Hwa; [|done].
    destruct (st_forks s1 !! f) eqn:E; [injection Hfb as <-; by eapply (ww_forks _ Hw)|].
    destruct (list_find _ _) as [[i c]|]; [|done]. injection Hfb as <-. split; [|cbn; set_solver].
    rewrite Hkf. apply Hn. unfold forks_of. rewrite elem_of_list_to_set, list_elem_of_fmap.
    apply wanted_true in Hwa as (c' & ? & ?). by exists c'. }
  destruct (set_subscribed_forks (lifecycle_forks new) s1) as [removed s2]. cbn [fst snd] in *.
  refine (proj1 (wp_final _ world_wf w) _). apply wp_bind, wp_modify.
  assert (world_wf (w <| w_state := s2 |>)) as Hw2 by by destruct Hw; split.
  revert Hw2. generalize (w <| w_state := s2 |>). intros w2 Hw2. apply wp_keeps; [|done].
  keeps_step.
  - apply keeps_for_each. intros fb Hfb. destruct (Hr fb Hfb) as [Hs1 Hs2]. apply keeps_ignore_err, keeps_unsubscribes; [done|].
    intros s Hs%elem_of_subnet_order. auto.
  - keeps_step; [apply keeps_scoring|keeps_step].
Qed.

Lemma keeps_update_and_handle :
  keeps world_wf (new ← borrow_and_update; _ ← on_lifecycle_transition new; handle_subnet_changes).
Proof.
  apply keeps_wp. intros w Hw. unfold borrow_and_update. apply wp_bind, wp_bind, wp_modify, wp_gets.
  assert (world_wf (w <| w_lifecycle_changed := false |>)) as Hw1 by by destruct Hw; split.
  apply wp_keeps; [|done]. keeps_step; [apply keeps_transition, (ww_lifecycle _ Hw)|apply keeps_handle_changes].
Qed.

Lemma service_event_wf w e :
  match e with Others a => action_scheduled a | Iterate _ => True end → world_wf w → world_wf (service_event w e).
Proof.
  intros He Hw. destruct e as [branch|a]; [|by apply env_action_wf]. cbn [service_event].
  refine (wp_keeps _ (run_iteration branch) w _ Hw). unfold run_iteration. apply keeps_gets. clear w He Hw. intros w Hw.
  cbn [id]. assert (∀ m : action World SubnetServiceError unit, keeps world_wf m → world_wf (m w).2) as Hm by (intros m H; by apply H).
  destruct (w_stopped w); [done|].
  assert (keeps world_wf stop) as Hstop by (apply keeps_modify; intros ? []; by split).
  destruct branch.
  - destruct (sv_subscribe_all_subnets sv); [done|]. destruct (w_db_changed w); [|destruct (w_db_open w); [done|by apply Hm]].
    apply Hm, keeps_bind; [apply keeps_modify; intros ? []; by split|]. intros _. apply keeps_handle_changes.
  - destruct (sv_disable_gossipsub_topic_scoring sv); [done|]. apply Hm, keeps_scoring.
  - destruct (w_lifecycle_changed w); [apply Hm, keeps_update_and_handle|]. destruct (w_lifecycle_open w); [done|by apply Hm].
Qed.

(** The start: nothing sent yet, and only lifecycles of the schedule are published. *)
Record starts (w : World) (es : list ServiceEvent) : Prop := {
  sa_events : w_events w = [];
  sa_lifecycle : lifecycle_scheduled (w_lifecycle w);
  sa_env : Forall (Forall action_scheduled) (w_env w);
  sa_others : Forall (λ e, match e with Others a => action_scheduled a | Iterate _ => True end) es;
}.

Lemma service_run_wf w es : starts w es → world_wf (service_run w es).
Proof.
  intros [He Hl Henv Hes]. unfold service_run.
  assert (world_wf (initial_service_state w).2) as H0.
  { refine (proj1 (wp_final _ world_wf _) _). unfold initial_service_state. apply wp_bind, wp_modify.
    apply wp_keeps; [apply keeps_update_and_handle|]. split; [done|done| | |].
    - intros f fb. unfold setter. cbn. by rewrite lookup_empty.
    - intros f fb. unfold setter. cbn. by rewrite lookup_empty.
    - unfold setter. cbn. rewrite He. constructor. }
  revert H0. generalize (initial_service_state w).2. clear He Hl Henv w.
  induction Hes as [|e es He Hes IH]; intros w Hw; [done|]. cbn [foldl]. by apply IH, service_event_wf.
Qed.

(** Subnets and forks of topics are determined by the topic. *)
Lemma fork_topic_subnet f f' s s' :
  (s < SUBNET_COUNT)%N → (s' < SUBNET_COUNT)%N → fork_topic f s = fork_topic f' s' → s = s'.
Proof.
  intros Hs Hs' H. pose proof (fork_topic_inj _ _ _ _ H) as ->. unfold fork_topic, create_topic in H.
  apply (inj (String.app _)) in H. apply (f_equal u64_from_str) in H.
  rewrite !u64_from_to_string in H by (unfold u64_max, SUBNET_COUNT in *; lia). congruence.
Qed.

End service.
