(* ===== verification/PeerManager.v ===== *)
(** * Peers

    [anchor/network/src/peer_manager]: which peers the node looks for, dials, admits, drops
    and blocks, from the subnets it needs and the subscriptions it observes.  The records of
    the peer store, node records and the limits behaviour of libp2p are parameters; a bit
    field of 128 subnets is a set of indices below 128.  A search for subnet peers dials or
    discovers enough of them and never a blocked or connected peer; what is observed of a
    peer is exactly what it subscribed to on the forks that matter; and blocks, targets and
    limits stay consistent under any sequence of events. *)

From Stdlib Require Import SpecFloat.
From S2P Require Import Prelude SsvTypes ForkSchedule Subnet.

Abbreviation PeerId := N (only parsing).

(** ** Types *)

Inductive ClientType := AnchorClient | GoSSV.

(** [ClientType::from] *)
Definition client_type_from (value : string) : ClientType :=
  match strip_prefix "Anchor/" value with Some _ => AnchorClient | None => GoSSV end.

Record PeerInfo (Enr : Type) := mkPeerInfo {
  pi_enr : option Enr;
  pi_client_type : option ClientType;
}.
Arguments mkPeerInfo {Enr} _ _.
Arguments pi_enr {Enr} _.
Arguments pi_client_type {Enr} _.

(** Node records, addresses and the store of libp2p.  Looking up a peer's data after
    storing it gives that data; shuffling only reorders. *)
Class PeerLib := {
  Enr : Type;
  Multiaddr : Type;
  enr_peer_id : Enr → PeerId;
  committee_bitfield : Enr → option (gset SubnetId);
  dialable_multiaddrs : Enr → list Multiaddr;
  Store : Type;
  get_custom_data : Store → PeerId → option (PeerInfo Enr);
  insert_custom_data : PeerId → PeerInfo Enr → Store → Store;
  new_external_addr : PeerId → Multiaddr → Store → Store;
  addresses_of_peer : Store → PeerId → list Multiaddr;
  record_iter : Store → list PeerId;
  shuffle : list PeerId → list PeerId;
  shuffle_perm l : shuffle l ≡ₚ l;
}.

Definition DialOpts `{PeerLib} : Type := PeerId * list Multiaddr.

Record ConnectActions `{PeerLib} := {
  ca_dial : list DialOpts;
  ca_discover : list SubnetId;
}.

(** [ConnectActions::is_empty] *)
Definition actions_is_empty `{PeerLib} (a : ConnectActions) : bool :=
  match ca_dial a, ca_discover a with [], [] => true | _, _ => false end.

(** ** Connection limits *)

(** [f32] arithmetic: binary32 of [SpecFloat]. *)
Definition f32_of (n : N) : spec_float := binary_normalize 24 128 (Z.of_N n) 0 false.

(** The literals [0.1] and [0.2]: the nearest binary32 numbers. *)
Definition PEER_EXCESS_FACTOR : spec_float := SFdiv 24 128 (f32_of 1) (f32_of 10).
Definition MIN_OUTBOUND_ONLY_FACTOR : spec_float := SFdiv 24 128 (f32_of 2) (f32_of 10).
Definition PRIORITY_PEER_EXCESS : spec_float := SFdiv 24 128 (f32_of 2) (f32_of 10).

(** [x.ceil() as uN], which saturates and takes NaN to zero. *)
Definition ceil_as (max : N) (x : spec_float) : N :=
  match x with
  | S754_finite false m (Zneg k) => N.min max (N.shiftr (N.pos m + (2 ^ N.pos k - 1)) (N.pos k))
  | S754_finite false m e => N.min max (N.shiftl (N.pos m) (Z.to_N e))
  | S754_infinity false => max
  | _ => 0
  end.

Definition u32_max : N := 2 ^ 32 - 1.

Record ConnectionLimits := mkConnectionLimits {
  cl_max_pending_incoming_per_source : N;
  cl_max_pending_outgoing : N;
  cl_max_established_incoming : N;
  cl_max_established_outgoing : N;
  cl_max_established : N;
  cl_max_established_per_peer : N;
}.

Definition create_connection_limits (target_peers : N) : ConnectionLimits :=
  let scaled factor := ceil_as u32_max (SFmul 24 128 (f32_of target_peers) factor) in
  {| cl_max_pending_incoming_per_source := 2;
     cl_max_pending_outgoing := 16;
     cl_max_established_incoming :=
       scaled (SFsub 24 128 (SFadd 24 128 (f32_of 1) PEER_EXCESS_FACTOR) MIN_OUTBOUND_ONLY_FACTOR);
     cl_max_established_outgoing := scaled (SFadd 24 128 (f32_of 1) PEER_EXCESS_FACTOR);
     cl_max_established := scaled (SFadd 24 128 (f32_of 1) PEER_EXCESS_FACTOR);
     cl_max_established_per_peer := 1 |}.

Definition max_priority_peers (target_peers : N) : N :=
  ceil_as u64_max (SFmul 24 128 (f32_of target_peers)
    (SFadd 24 128 (SFadd 24 128 (f32_of 1) PEER_EXCESS_FACTOR) PRIORITY_PEER_EXCESS)).

(** ** Observed subscriptions *)

Inductive ObservedPeerSubnets :=
  | Unknown
  | KnownEmpty
  | Known (fork_map : gmap Fork (gset SubnetId)).

Record ConnectionManager := mkConnectionManager {
  cm_connection_limits : ConnectionLimits;
  cm_connected : gset PeerId;
  cm_target_peers : N;
  cm_max_with_priority_peers : N;
  cm_observed_peer_subnets : gmap PeerId ObservedPeerSubnets;
  cm_inbound_count : N;
  cm_outbound_count : N;
}.
#[export] Instance eta_ConnectionManager : Eta ConnectionManager := λ r,
  mkConnectionManager (cm_connection_limits r) (cm_connected r) (cm_target_peers r)
    (cm_max_with_priority_peers r) (cm_observed_peer_subnets r) (cm_inbound_count r)
    (cm_outbound_count r).

Definition MIN_PEERS_PER_SUBNET : N := 6.

(** [ConnectionManager::new] *)
Definition connection_manager_new (target_peers : N) : ConnectionManager :=
  {| cm_connection_limits := create_connection_limits target_peers;
     cm_connected := ∅;
     cm_target_peers := target_peers;
     cm_max_with_priority_peers := max_priority_peers target_peers;
     cm_observed_peer_subnets := ∅;
     cm_inbound_count := 0;
     cm_outbound_count := 0 |}.

Definition set_target_peers (new_target : N) (cm : ConnectionManager) : ConnectionManager :=
  if (cm_target_peers cm =? new_target)%N then cm
  else cm <| cm_target_peers := new_target |>
          <| cm_max_with_priority_peers := max_priority_peers new_target |>
          <| cm_connection_limits := create_connection_limits new_target |>.

(** The length of the bit field. *)
Definition bitfield_len : N := 128.

Definition set_peer_subscribed (peer : PeerId) (fork : Fork) (subnet : SubnetId) (subscribed : bool)
    (cm : ConnectionManager) : ConnectionManager :=
  if (bitfield_len <=? subnet)%N then cm
  else
    let state := default Unknown (cm_observed_peer_subnets cm !! peer) in
    let state :=
      if subscribed then
        let fork_map := match state with Known fork_map => fork_map | _ => ∅ end in
        Known (<[fork := {[subnet]} ∪ default ∅ (fork_map !! fork)]> fork_map)
      else
        match state with
        | Unknown => KnownEmpty
        | KnownEmpty => KnownEmpty
        | Known fork_map =>
            let fork_map :=
              match fork_map !! fork with
              | Some bitfield =>
                  let bitfield := bitfield ∖ {[subnet]} in
                  if decide (bitfield = ∅) then delete fork fork_map
                  else <[fork := bitfield]> fork_map
              | None => fork_map
              end in
            if decide (fork_map = ∅) then KnownEmpty else Known fork_map
        end in
    cm <| cm_observed_peer_subnets := <[peer := state]> (cm_observed_peer_subnets cm) |>.

(** [aggregate_fork_bitmaps] *)
Definition aggregate_fork_bitmaps (fork_map : gmap Fork (gset SubnetId)) : gset SubnetId :=
  ⋃ (map_to_list fork_map).*2.

Definition get_peer_subnets_for_lifecycle (peer : PeerId) (lifecycle : ForkLifecycle)
    (cm : ConnectionManager) : option (gset SubnetId) :=
  state ← cm_observed_peer_subnets cm !! peer;
  match state with
  | Unknown => None
  | KnownEmpty => Some ∅
  | Known fork_map =>
      match lifecycle with
      | Normal current => Some (default ∅ (fork_map !! fc_fork current))
      | WarmUp _ _ | GracePeriod _ _ => Some (aggregate_fork_bitmaps fork_map)
      end
  end.

(** [get_peer_subnets_observed_only] with the lifecycle it reads. *)
Definition get_peer_subnets_observed_only (peer : PeerId) (lifecycle : ForkLifecycle)
    (cm : ConnectionManager) : option (gset SubnetId) :=
  get_peer_subnets_for_lifecycle peer lifecycle cm.

Definition count_observed_peers_for_subnets (subnet_ids : list SubnetId) (lifecycle : ForkLifecycle)
    (cm : ConnectionManager) : list N :=
  foldl (λ counts peer,
    match get_peer_subnets_for_lifecycle peer lifecycle cm with
    | None => counts
    | Some subnets =>
        zip_with (λ subnet_id count, if bool_decide (subnet_id ∈ subnets) then count + 1 else count)%N
          subnet_ids counts
    end) (replicate (length subnet_ids) 0%N) (elements (cm_connected cm)).

Definition bitfield_offers_any_subnet (bitfield needed : gset SubnetId) : bool :=
  existsb (λ subnet, bool_decide (subnet ∈ bitfield)) (elements needed).

Definition peer_offers_needed_subnets_observed_only (peer : PeerId) (needed : gset SubnetId)
    (lifecycle : ForkLifecycle) (cm : ConnectionManager) : bool :=
  if decide (needed = ∅) then true
  else match get_peer_subnets_observed_only peer lifecycle cm with
       | None => false
       | Some observed => bitfield_offers_any_subnet observed needed
       end.

Definition on_connection_established (peer_id : PeerId) (is_outbound : bool) (cm : ConnectionManager)
    : bool * ConnectionManager :=
  let cm := match cm_observed_peer_subnets cm !! peer_id with
            | Some _ => cm
            | None => cm <| cm_observed_peer_subnets := <[peer_id := Unknown]> (cm_observed_peer_subnets cm) |>
            end in
  let is_new := negb (bool_decide (peer_id ∈ cm_connected cm)) in
  let cm := cm <| cm_connected := {[peer_id]} ∪ cm_connected cm |> in
  (is_new,
   if is_new then
     if is_outbound then cm <| cm_outbound_count := (cm_outbound_count cm + 1)%N |>
     else cm <| cm_inbound_count := (cm_inbound_count cm + 1)%N |>
   else cm).

Definition on_connection_closed (peer_id : PeerId) (was_outbound : bool) (cm : ConnectionManager)
    : bool * ConnectionManager :=
  let cm := cm <| cm_observed_peer_subnets := delete peer_id (cm_observed_peer_subnets cm) |> in
  let was_connected := bool_decide (peer_id ∈ cm_connected cm) in
  let cm := cm <| cm_connected := cm_connected cm ∖ {[peer_id]} |> in
  (was_connected,
   if was_connected then
     if was_outbound then cm <| cm_outbound_count := (cm_outbound_count cm - 1)%N |>
     else cm <| cm_inbound_count := (cm_inbound_count cm - 1)%N |>
   else cm).

Section lib.
Context {PL : PeerLib}.

Definition get_peer_subnets_with_enr_fallback (peer : PeerId) (peer_store : Store)
    (lifecycle : ForkLifecycle) (cm : ConnectionManager) : option (gset SubnetId) :=
  match get_peer_subnets_observed_only peer lifecycle cm with
  | Some subnets => Some subnets
  | None =>
      data ← get_custom_data peer_store peer;
      enr ← pi_enr data;
      committee_bitfield enr
  end.

Definition qualifies_for_priority_connection (peer_id : PeerId) (peer_store : Store)
    (needed_subnets : gset SubnetId) (lifecycle : ForkLifecycle) (cm : ConnectionManager) : bool :=
  match get_peer_subnets_with_enr_fallback peer_id peer_store lifecycle cm with
  | None => false
  | Some offered_subnets =>
      let needed_and_offered := elements (needed_subnets ∩ offered_subnets) in
      existsb (λ count, count <? MIN_PEERS_PER_SUBNET)%N
        (count_observed_peers_for_subnets needed_and_offered lifecycle cm)
  end.

Definition should_dial_peer (peer_id : PeerId) (peer_store : Store) (needed_subnets : gset SubnetId)
    (blocked_peers : gset PeerId) (lifecycle : ForkLifecycle) (cm : ConnectionManager) : bool :=
  if decide (peer_id ∈ blocked_peers) then false
  else if decide (peer_id ∈ cm_connected cm) then false
  else (N.of_nat (size (cm_connected cm)) <? cm_target_peers cm)%N
       || qualifies_for_priority_connection peer_id peer_store needed_subnets lifecycle cm.

Definition peer_offers_needed_subnets_with_enr_fallback (peer : PeerId) (peer_store : Store)
    (needed : gset SubnetId) (lifecycle : ForkLifecycle) (cm : ConnectionManager) : bool :=
  if decide (needed = ∅) then true
  else match get_peer_subnets_with_enr_fallback peer peer_store lifecycle cm with
       | None => true
       | Some bitfield => bitfield_offers_any_subnet bitfield needed
       end.

(** Why a connection is denied. *)
Inductive ConnectionDenied := BlockedPeer | LimitExceeded | MissingNeededSubnets.

(** [finish_established_connection]: [limit_result] is the answer of the limits. *)
Definition finish_established_connection (limit_result : outcome ConnectionDenied unit) (peer : PeerId)
    (peer_store : Store) (needed_subnets : gset SubnetId) (lifecycle : ForkLifecycle)
    (cm : ConnectionManager) : outcome ConnectionDenied unit :=
  match limit_result with
  | Ok _ =>
      if negb (peer_offers_needed_subnets_with_enr_fallback peer peer_store needed_subnets lifecycle cm)
      then Err MissingNeededSubnets else Ok tt
  | Err denied =>
      if (N.of_nat (size (cm_connected cm)) <? cm_max_with_priority_peers cm)%N
         && qualifies_for_priority_connection peer peer_store needed_subnets lifecycle cm
      then Ok tt else Err denied
  | Panic => Panic
  end.

(** ** Searching *)

Definition PEER_OVERDIAL_FACTOR : N := 2.

Definition peer_to_dial_opts (peer : PeerId) (peer_store : Store) : DialOpts :=
  (peer, addresses_of_peer peer_store peer).

Definition candidate_peers (peer_store : Store) (connected : gset PeerId) : list PeerId :=
  shuffle (filter (λ peer, peer ∉ connected ∧ addresses_of_peer peer_store peer ≠ [])
             (record_iter peer_store)).

(** [subnet_needs]: how many more peers each subnet should get. *)
Definition initial_needs (subnets : list SubnetId) (peer_counts : list N) : gmap SubnetId N :=
  foldl (λ needs '(subnet, count),
    let need := ((MIN_PEERS_PER_SUBNET - count) * PEER_OVERDIAL_FACTOR)%N in
    if (need =? 0)%N then needs else <[subnet := need]> needs) ∅ (zip subnets peer_counts).

(** The loop over the subnets a candidate offers, in increasing order; a need is never
    zero, as it is removed when it becomes zero. *)
Definition serve_need (acc : bool * gmap SubnetId N) (subnet : SubnetId) : bool * gmap SubnetId N :=
  match acc.2 !! subnet with
  | None => acc
  | Some need =>
      (true, if (need - 1 =? 0)%N then delete subnet acc.2 else <[subnet := (need - 1)%N]> acc.2)
  end.

(** The bits of a field in increasing order. *)
Definition bits_of (subnets : gset SubnetId) : list SubnetId :=
  filter (λ s, s ∈ subnets) (range bitfield_len).

Definition consider_candidate (peer_store : Store) (blocked_peers : gset PeerId)
    (acc : list DialOpts * gmap SubnetId N) (peer : PeerId) : list DialOpts * gmap SubnetId N :=
  if decide (peer ∈ blocked_peers) then acc
  else
    match (data ← get_custom_data peer_store peer; pi_enr data) with
    | None => acc
    | Some enr =>
        let subnets := default ∅ (committee_bitfield enr) in
        let '(relevant, needs) := foldl serve_need (false, acc.2) (bits_of subnets) in
        if relevant then (acc.1 ++ [peer_to_dial_opts peer peer_store], needs) else (acc.1, needs)
    end.

Definition determine_actions_for_subnets (subnets : list SubnetId) (peer_store : Store)
    (blocked_peers : gset PeerId) (lifecycle : ForkLifecycle) (cm : ConnectionManager) : ConnectActions :=
  let peer_counts := count_observed_peers_for_subnets subnets lifecycle cm in
  let '(dial, needs) := foldl (consider_candidate peer_store blocked_peers)
        ([], initial_needs subnets peer_counts) (candidate_peers peer_store (cm_connected cm)) in
  {| ca_dial := dial; ca_discover := (map_to_list needs).*1 |}.

Definition check_subnet_peers (needed_subnets : gset SubnetId) (peer_store : Store)
    (blocked_peers : gset PeerId) (lifecycle : ForkLifecycle) (cm : ConnectionManager)
    : option ConnectActions :=
  let actions := determine_actions_for_subnets (elements needed_subnets) peer_store blocked_peers lifecycle cm in
  if actions_is_empty actions then None else Some actions.

(** [process_discovered_peer]: the store remembers the addresses and the record; the
    record that is there is overwritten in place. *)
Definition process_discovered_peer (enr : Enr) (peer_store : Store) (needed_subnets : gset SubnetId)
    (blocked_peers : gset PeerId) (lifecycle : ForkLifecycle) (cm : ConnectionManager)
    : option DialOpts * Store :=
  let id := enr_peer_id enr in
  let peer_store := foldl (λ st addr, new_external_addr id addr st) peer_store (dialable_multiaddrs enr) in
  let client_type := match get_custom_data peer_store id with
                     | Some peer_info => pi_client_type peer_info
                     | None => None
                     end in
  let peer_store := insert_custom_data id (mkPeerInfo (Some enr) client_type) peer_store in
  (if should_dial_peer id peer_store needed_subnets blocked_peers lifecycle cm
   then Some (peer_to_dial_opts id peer_store) else None, peer_store).

(** ** Blocking *)

(** The block list of libp2p is a set: blocking and unblocking say whether it changed. *)
Record BlockingManager := mkBlockingManager {
  bm_block_list : gset PeerId;
  bm_blocked_peers_timestamps : gmap PeerId N;
  bm_one_epoch_duration : N;
}.
#[export] Instance eta_BlockingManager : Eta BlockingManager := λ r,
  mkBlockingManager (bm_block_list r) (bm_blocked_peers_timestamps r) (bm_one_epoch_duration r).

Definition bm_block_peer (now : N) (peer_id : PeerId) (bm : BlockingManager) : bool * BlockingManager :=
  if decide (peer_id ∈ bm_block_list bm) then (false, bm)
  else (true, bm <| bm_block_list := {[peer_id]} ∪ bm_block_list bm |>
                 <| bm_blocked_peers_timestamps := <[peer_id := now]> (bm_blocked_peers_timestamps bm) |>).

Definition bm_unblock_peer (peer_id : PeerId) (bm : BlockingManager) : bool * BlockingManager :=
  if decide (peer_id ∈ bm_block_list bm) then
    (true, bm <| bm_block_list := bm_block_list bm ∖ {[peer_id]} |>
              <| bm_blocked_peers_timestamps := delete peer_id (bm_blocked_peers_timestamps bm) |>)
  else (false, bm).

Definition RETAIN_SCORE_EPOCH_MULTIPLIER : N := 100.

(** [now.duration_since(blocked_at)] saturates. *)
Definition check_and_unblock_expired_peers (now : N) (bm : BlockingManager) : BlockingManager :=
  let retain_score_duration := (bm_one_epoch_duration bm * RETAIN_SCORE_EPOCH_MULTIPLIER)%N in
  let peers_to_unblock :=
    (filter (λ p, (retain_score_duration <= now - p.2)%N) (map_to_list (bm_blocked_peers_timestamps bm))).*1 in
  foldl (λ bm peer_id, (bm_unblock_peer peer_id bm).2) bm peers_to_unblock.

(** ** The peer manager *)

Record PeerManager := mkPeerManager {
  pm_peer_store : Store;
  pm_connection_manager : ConnectionManager;
  pm_blocking_manager : BlockingManager;
  pm_needed_subnets : gset SubnetId;
}.
#[export] Instance eta_PeerManager : Eta PeerManager := λ r,
  mkPeerManager (pm_peer_store r) (pm_connection_manager r) (pm_blocking_manager r) (pm_needed_subnets r).

Definition BASE_PEER_COUNT : N := 60.
Definition PEERS_PER_SUBNET : N := 3.
Definition MAX_PEER_COUNT : N := 150.

Definition calculate_target_peers (active_subnet_count : N) : N :=
  N.min (BASE_PEER_COUNT + active_subnet_count * PEERS_PER_SUBNET) MAX_PEER_COUNT.

(** [PeerManager::new]; [target_peers] is the one of the configuration. *)
Definition peer_manager_new (store : Store) (target_peers : option N) (one_epoch_duration : N) : PeerManager :=
  {| pm_peer_store := store;
     pm_connection_manager := connection_manager_new (default BASE_PEER_COUNT target_peers);
     pm_blocking_manager := mkBlockingManager ∅ ∅ one_epoch_duration;
     pm_needed_subnets := ∅ |}.

Definition report_discovered_peer (enr : Enr) (lifecycle : ForkLifecycle) (pm : PeerManager)
    : option DialOpts * PeerManager :=
  let '(dial, store) := process_discovered_peer enr (pm_peer_store pm) (pm_needed_subnets pm)
        (bm_block_list (pm_blocking_manager pm)) lifecycle (pm_connection_manager pm) in
  (dial, pm <| pm_peer_store := store |>).

(** The update of the target when it is dynamic. *)
Definition retarget (is_dynamic_target_peers : bool) (pm : PeerManager) : PeerManager :=
  if is_dynamic_target_peers then
    pm <| pm_connection_manager :=
      set_target_peers (calculate_target_peers (N.of_nat (size (pm_needed_subnets pm)))) (pm_connection_manager pm) |>
  else pm.

(** [join_subnet], with [track_subnet_peers]. *)
Definition join_subnet (subnet_id : SubnetId) (is_dynamic_target_peers : bool) (lifecycle : ForkLifecycle)
    (pm : PeerManager) : ConnectActions * PeerManager :=
  let pm := pm <| pm_needed_subnets := {[subnet_id]} ∪ pm_needed_subnets pm |> in
  let actions := determine_actions_for_subnets [subnet_id] (pm_peer_store pm)
        (bm_block_list (pm_blocking_manager pm)) lifecycle (pm_connection_manager pm) in
  (actions, retarget is_dynamic_target_peers pm).

Definition leave_subnet (subnet_id : SubnetId) (is_dynamic_target_peers : bool) (pm : PeerManager) : PeerManager :=
  retarget is_dynamic_target_peers (pm <| pm_needed_subnets := pm_needed_subnets pm ∖ {[subnet_id]} |>).

Definition heartbeat (now : N) (lifecycle : ForkLifecycle) (pm : PeerManager)
    : option ConnectActions * PeerManager :=
  let pm := pm <| pm_blocking_manager := check_and_unblock_expired_peers now (pm_blocking_manager pm) |> in
  (check_subnet_peers (pm_needed_subnets pm) (pm_peer_store pm)
     (bm_block_list (pm_blocking_manager pm)) lifecycle (pm_connection_manager pm), pm).

Definition block_peer (now : N) (peer_id : PeerId) (pm : PeerManager) : PeerManager :=
  pm <| pm_blocking_manager := (bm_block_peer now peer_id (pm_blocking_manager pm)).2 |>.

Definition unblock_peer (peer_id : PeerId) (pm : PeerManager) : PeerManager :=
  pm <| pm_blocking_manager := (bm_unblock_peer peer_id (pm_blocking_manager pm)).2 |>.

Definition set_peer_subscription (peer : PeerId) (fork : Fork) (subnet : SubnetId) (subscribed : bool)
    (pm : PeerManager) : PeerManager :=
  pm <| pm_connection_manager := set_peer_subscribed peer fork subnet subscribed (pm_connection_manager pm) |>.

Definition handle_handshake_completed (peer_id : PeerId) (node_version : string) (pm : PeerManager) : PeerManager :=
  let enr := data ← get_custom_data (pm_peer_store pm) peer_id; pi_enr data in
  pm <| pm_peer_store := insert_custom_data peer_id
          (mkPeerInfo enr (Some (client_type_from node_version))) (pm_peer_store pm) |>.

Definition should_disconnect_due_to_subnets (peer : PeerId) (lifecycle : ForkLifecycle) (pm : PeerManager) : bool :=
  negb (peer_offers_needed_subnets_observed_only peer (pm_needed_subnets pm) lifecycle (pm_connection_manager pm)).

Definition peers_to_disconnect_due_to_subnets (lifecycle : ForkLifecycle) (pm : PeerManager) : list PeerId :=
  filter (λ p, should_disconnect_due_to_subnets p lifecycle pm = true)
    (elements (cm_connected (pm_connection_manager pm))).

(** [handle_established_inbound_connection] and its outbound counterpart: the block list,
    then the limits with the exception for priority peers. *)
Definition handle_established_connection (limit_result : outcome ConnectionDenied unit) (peer : PeerId)
    (lifecycle : ForkLifecycle) (pm : PeerManager) : outcome ConnectionDenied unit :=
  _ ← ensure (negb (bool_decide (peer ∈ bm_block_list (pm_blocking_manager pm)))) BlockedPeer;
  finish_established_connection limit_result peer (pm_peer_store pm) (pm_needed_subnets pm) lifecycle
    (pm_connection_manager pm).

(** The connection events of [on_swarm_event]. *)
Inductive SwarmEvent :=
  | ConnectionEstablished (peer_id : PeerId) (is_dialer : bool)
  | ConnectionClosed (peer_id : PeerId) (is_dialer : bool).

Definition on_swarm_event (e : SwarmEvent) (pm : PeerManager) : PeerManager :=
  pm <| pm_connection_manager :=
    match e with
    | ConnectionEstablished peer_id is_outbound =>
        (on_connection_established peer_id is_outbound (pm_connection_manager pm)).2
    | ConnectionClosed peer_id was_outbound =>
        (on_connection_closed peer_id was_outbound (pm_connection_manager pm)).2
    end |>.

(** ** Counting *)

(** The connected peers observed on a subnet. *)
Definition observed_peers (subnet : SubnetId) (lifecycle : ForkLifecycle) (cm : ConnectionManager) : N :=
  len (filter (λ peer, subnet ∈ default ∅ (get_peer_subnets_for_lifecycle peer lifecycle cm))
         (elements (cm_connected cm))).

Lemma count_observed_spec subnet_ids lifecycle cm :
  count_observed_peers_for_subnets subnet_ids lifecycle cm =
    (λ s, observed_peers s lifecycle cm) <$> subnet_ids.
Proof.
  unfold count_observed_peers_for_subnets, observed_peers.
  assert (∀ (f : SubnetId → N) l,
    foldl (λ counts peer, match get_peer_subnets_for_lifecycle peer lifecycle cm with
      | None => counts
      | Some subnets => zip_with (λ s c, if bool_decide (s ∈ subnets) then c + 1 else c)%N subnet_ids counts
      end) (f <$> subnet_ids) l =
    (λ s, f s + len (filter (λ peer, s ∈ default ∅ (get_peer_subnets_for_lifecycle peer lifecycle cm)) l))%N
      <$> subnet_ids) as H.
  { intros f l. revert f. induction l as [|peer l IH]; intros f; cbn [foldl].
    { apply list_fmap_ext. intros. unfold len. cbn. lia. }
    destruct (get_peer_subnets_for_lifecycle peer lifecycle cm) as [subnets|] eqn:Hp.
    - rewrite zip_with_fmap_r, zip_with_diag. rewrite IH. apply list_fmap_ext. intros i s Hs.
      rewrite filter_cons, Hp. cbn [default]. case_bool_decide; [rewrite decide_True by done|rewrite decide_False by done];
        unfold len; cbn [length]; lia.
    - rewrite IH. apply list_fmap_ext. intros i s Hs. rewrite filter_cons, Hp. cbn [default]. by rewrite decide_False by apply not_elem_of_empty. }
  specialize (H (λ _, 0%N) (elements (cm_connected cm))).
  assert ((λ _ : SubnetId, 0%N) <$> subnet_ids = replicate (length subnet_ids) 0%N) as He.
  { clear. induction subnet_ids; cbn; by f_equal. }
  rewrite He in H. rewrite H. by apply list_fmap_ext.
Qed.

(** ** The search *)

(** The subnets a peer's record names. *)
Definition offered (peer_store : Store) (peer : PeerId) : gset SubnetId :=
  default ∅ (data ← get_custom_data peer_store peer; enr ← pi_enr data; committee_bitfield enr).

Definition offers (peer_store : Store) (peer : PeerId) (s : SubnetId) : Prop :=
  s ∈ bits_of (offered peer_store peer).

Definition need_of (needs : gmap SubnetId N) (s : SubnetId) : N := default 0%N (needs !! s).

(** No need is zero. *)
Definition needs_ok (needs : gmap SubnetId N) : Prop := ∀ s n, needs !! s = Some n → n ≠ 0%N.

Lemma serve_need_spec acc s :
  needs_ok acc.2 →
  needs_ok (serve_need acc s).2 ∧
  (∀ x, need_of (serve_need acc s).2 x = (need_of acc.2 x - if decide (x = s) then 1 else 0)%N) ∧
  ((serve_need acc s).1 = true ↔ acc.1 = true ∨ need_of acc.2 s ≠ 0%N).
Proof.
  destruct acc as [b needs]. intros Hok. unfold serve_need, need_of. cbn [fst snd] in *.
  destruct (needs !! s) as [n|] eqn:Hs; cbn [fst snd].
  - pose proof (Hok s n Hs). split_and!.
    + destruct (N.eqb_spec (n - 1) 0); intros x m; [intros [_ ?]%lookup_delete_Some; by eapply Hok|].
      intros [[<- <-]|[_ ?]]%lookup_insert_Some; [done|by eapply Hok].
    + intros x. destruct (N.eqb_spec (n - 1) 0) as [He|He]; case_decide as Hx; subst.
      * by rewrite lookup_delete_eq, Hs.
      * rewrite lookup_delete_ne by done. lia.
      * by rewrite lookup_insert_eq, Hs.
      * rewrite lookup_insert_ne by done. lia.
    + cbn. naive_solver.
  - split_and!; [done| |cbn; naive_solver].
    intros x. case_decide; subst; [by rewrite Hs|lia].
Qed.

Lemma serve_needs_spec l acc :
  NoDup l → needs_ok acc.2 →
  needs_ok (foldl serve_need acc l).2 ∧
  (∀ x, need_of (foldl serve_need acc l).2 x = (need_of acc.2 x - if decide (x ∈ l) then 1 else 0)%N) ∧
  ((foldl serve_need acc l).1 = true ↔ acc.1 = true ∨ ∃ s, s ∈ l ∧ need_of acc.2 s ≠ 0%N).
Proof.
  revert acc. induction l as [|s l IH]; intros acc Hnd Hok; cbn [foldl].
  { split_and!; [done| |]. { intros x. rewrite decide_False by apply not_elem_of_nil. lia. }
    split; [by left|]. by intros [?|(s & ?%elem_of_nil & _)]. }
  apply NoDup_cons in Hnd as [Hs Hnd]. destruct (serve_need_spec acc s Hok) as (H1 & H2 & H3).
  destruct (IH _ Hnd H1) as (K1 & K2 & K3). split_and!; [done| |].
  - intros x. rewrite K2, H2. destruct (decide (x = s)) as [->|Hne].
    + rewrite (decide_False (P:=s ∈ l)) by done. rewrite decide_True by by left. lia.
    + destruct (decide (x ∈ l)); [rewrite decide_True by by right|rewrite decide_False by set_solver]; lia.
  - rewrite K3, H3. setoid_rewrite H2. setoid_rewrite elem_of_cons. split.
    + intros [[?|?]|(x & Hx & Hn)]; [by left|right; by exists s; auto|].
      right. exists x. split; [by right|]. lia.
    + intros [?|(x & [->|Hx] & Hn)]; [by left; left|by left; right|].
      right. exists x. split; [done|]. rewrite decide_False by set_solver. lia.
Qed.

Lemma bits_of_NoDup b : NoDup (bits_of b).
Proof.
  apply NoDup_filter. unfold range. apply NoDup_fmap_2; [apply _|]. apply NoDup_seq.
Qed.

Lemma elem_of_bits_of s b : s ∈ bits_of b ↔ s ∈ b ∧ (s < bitfield_len)%N.
Proof. unfold bits_of. by rewrite list_elem_of_filter, elem_of_range. Qed.

(** How many of the dialled peers offer a subnet. *)
Definition dialled_for (peer_store : Store) (dial : list DialOpts) (s : SubnetId) : N :=
  len (filter (λ d, s ∈ bits_of (offered peer_store d.1)) dial).

Lemma dialled_for_snoc peer_store dial peer s :
  dialled_for peer_store (dial ++ [peer_to_dial_opts peer peer_store]) s =
    (dialled_for peer_store dial s + if decide (s ∈ bits_of (offered peer_store peer)) then 1 else 0)%N.
Proof.
  unfold dialled_for, len. rewrite filter_app, filter_cons, filter_nil, length_app, Nat2N.inj_add.
  cbn [fst peer_to_dial_opts]. by case_decide.
Qed.

(** Candidates are dialled while they serve a need, and each serves all it can. *)
Record search_ok (peer_store : Store) (blocked : gset PeerId) (candidates : list PeerId)
    (needs0 : SubnetId → N) (acc : list DialOpts * gmap SubnetId N) : Prop := {
  sr_needs : needs_ok acc.2;
  sr_left s : need_of acc.2 s = (needs0 s - dialled_for peer_store acc.1 s)%N;
  sr_dial d : d ∈ acc.1 → d = peer_to_dial_opts d.1 peer_store ∧ d.1 ∈ candidates ∧ d.1 ∉ blocked ∧
    ∃ s, offers peer_store d.1 s ∧ needs0 s ≠ 0%N;
}.

Lemma consider_candidate_ok peer_store blocked candidates needs0 acc peer :
  peer ∈ candidates → search_ok peer_store blocked candidates needs0 acc →
  search_ok peer_store blocked candidates needs0 (consider_candidate peer_store blocked acc peer).
Proof.
  intros Hc Hok. unfold consider_candidate. case_decide as Hb; [done|].
  destruct (data ← get_custom_data peer_store peer; pi_enr data) as [enr|] eqn:Henr; [|done].
  assert (default ∅ (committee_bitfield enr) = offered peer_store peer) as ->.
  { unfold offered. destruct (get_custom_data peer_store peer) as [data|]; [|done]. cbn in *. by rewrite Henr. }
  destruct (serve_needs_spec (bits_of (offered peer_store peer)) (false, acc.2)
    (bits_of_NoDup _) (sr_needs _ _ _ _ _ Hok)) as (H1 & H2 & H3).
  destruct (foldl serve_need _ _) as [relevant needs]. cbn [fst snd] in *.
  assert (∀ s, offers peer_store peer s → need_of acc.2 s ≠ 0%N → relevant = true) as Hrel.
  { intros s Hs Hn. apply H3. right. by exists s. }
  destruct Hok as [Ho1 Ho2 Ho3]. destruct relevant; split; cbn [fst snd]; try done.
  - intros s. rewrite H2, Ho2, dialled_for_snoc. lia.
  - intros d [Hd| ->%list_elem_of_singleton]%elem_of_app; [by apply Ho3|]. cbn. split_and!; [done..|].
    destruct H3 as [H3 _]. destruct (H3 eq_refl) as [?|(s & Hs & Hn)]; [done|]. exists s. split; [done|].
    intros H0. rewrite Ho2, H0 in Hn. lia.
  - intros s. rewrite H2, Ho2. case_decide as Hd; [|lia].
    destruct (N.eq_dec (need_of acc.2 s) 0%N) as [He|He]; [rewrite <- Ho2, He; done|].
    by specialize (Hrel s Hd He).
Qed.

Lemma initial_needs_spec subnets counts needs :
  needs_ok needs → needs_ok (foldl (λ needs '(subnet, count),
    let need := ((MIN_PEERS_PER_SUBNET - count) * PEER_OVERDIAL_FACTOR)%N in
    if (need =? 0)%N then needs else <[subnet := need]> needs) needs (zip subnets (counts <$> subnets))) ∧
  ∀ s, need_of (foldl (λ needs '(subnet, count),
    let need := ((MIN_PEERS_PER_SUBNET - count) * PEER_OVERDIAL_FACTOR)%N in
    if (need =? 0)%N then needs else <[subnet := need]> needs) needs (zip subnets (counts <$> subnets))) s =
    if decide (s ∈ subnets ∧ (counts s < MIN_PEERS_PER_SUBNET)%N)
    then ((MIN_PEERS_PER_SUBNET - counts s) * PEER_OVERDIAL_FACTOR)%N else need_of needs s.
Proof.
  revert needs. induction subnets as [|x subnets IH]; intros needs Hok; cbn [fmap list_fmap zip zip_with foldl].
  { split; [done|]. intros s. rewrite decide_False; [done|]. by intros [?%elem_of_nil _]. }
  unfold MIN_PEERS_PER_SUBNET, PEER_OVERDIAL_FACTOR in *.
  match goal with |- needs_ok (foldl _ ?m _) ∧ _ => assert (needs_ok m ∧ ∀ s, need_of m s =
    if decide (s = x ∧ (counts s < 6)%N) then ((6 - counts s) * 2)%N else need_of needs s) as [Hm1 Hm2] end.
  { destruct (N.eqb_spec ((6 - counts x) * 2) 0) as [He|He].
    - split; [done|]. intros s. rewrite decide_False; [done|]. intros [-> ?]. lia.
    - split; [intros s n [[<- <-]|[_ ?]]%lookup_insert_Some; [done|by eapply Hok]|].
      intros s. unfold need_of. destruct (decide (s = x)) as [->|Hne].
      + rewrite decide_True by (split; [done|lia]). by rewrite lookup_insert_eq.
      + rewrite decide_False by naive_solver. by rewrite lookup_insert_ne. }
  destruct (IH _ Hm1) as [K1 K2]. split; [done|]. intros s. rewrite K2, Hm2.
  repeat case_decide; try done; exfalso; set_solver.
Qed.

(** the search for subnet peers.  For the subnets it is asked about, the search dials
    only peers that are neither blocked nor connected, have an address and offer a subnet
    with fewer than six observed peers; and it starts a discovery for exactly those
    subnets for which it dials fewer than twice the missing number of peers. *)
Theorem subnet_search_covers subnets peer_store blocked lifecycle cm :
  let actions := determine_actions_for_subnets subnets peer_store blocked lifecycle cm in
  (∀ peer addresses, (peer, addresses) ∈ ca_dial actions →
     peer ∉ blocked ∧ peer ∉ cm_connected cm ∧ addresses = addresses_of_peer peer_store peer ∧ addresses ≠ [] ∧
     ∃ s, s ∈ subnets ∧ offers peer_store peer s ∧ (observed_peers s lifecycle cm < 6)%N) ∧
  (∀ s, s ∈ ca_discover actions ↔ s ∈ subnets ∧
     (dialled_for peer_store (ca_dial actions) s < (6 - observed_peers s lifecycle cm) * 2)%N).
Proof.
  unfold determine_actions_for_subnets. rewrite count_observed_spec.
  destruct (initial_needs_spec subnets (λ s, observed_peers s lifecycle cm) ∅) as [Hi1 Hi2]; [by intros ? ?|].
  fold (initial_needs subnets ((λ s, observed_peers s lifecycle cm) <$> subnets)) in Hi1, Hi2.
  set (needs0 := initial_needs subnets _) in *. set (candidates := candidate_peers peer_store _).
  assert (search_ok peer_store blocked candidates (need_of needs0)
    (foldl (consider_candidate peer_store blocked) ([], needs0) candidates)) as [Hn Hl Hd].
  { assert (search_ok peer_store blocked candidates (need_of needs0) ([], needs0)) as H0.
    { split; cbn; [done| |]. { intros s. unfold dialled_for, len. cbn. lia. } by intros d ?%elem_of_nil. }
    assert (∀ l acc, l ⊆ candidates → search_ok peer_store blocked candidates (need_of needs0) acc →
      search_ok peer_store blocked candidates (need_of needs0) (foldl (consider_candidate peer_store blocked) acc l)) as H.
    { induction l as [|x l IH]; intros acc Hs Ha; [done|]. cbn [foldl]. apply IH; [set_solver|].
      apply consider_candidate_ok; [apply Hs; by left|done]. }
    by apply H. }
  destruct (foldl (consider_candidate _ _) _ _) as [dial needs]. cbn [fst snd ca_dial ca_discover] in *. split.
  - intros peer addresses (H1 & H2 & H3 & s & H4 & H5)%Hd. cbn [fst] in *. injection H1 as H1.
    unfold candidates, candidate_peers in H2. rewrite shuffle_perm in H2.
    apply list_elem_of_filter in H2 as [[H2 H6] _]. split_and!; [done|done|done|by rewrite H1|].
    rewrite Hi2 in H5. case_decide as Hx; [|done]. exists s. by destruct Hx.
  - intros s. specialize (Hl s). rewrite list_elem_of_fmap. setoid_rewrite elem_of_map_to_list'.
    assert ((∃ p : N * N, s = p.1 ∧ needs !! p.1 = Some p.2) ↔ need_of needs s ≠ 0%N) as ->.
    { unfold need_of. split.
      - intros ([? n] & -> & Hp). cbn in *. rewrite Hp. by eapply Hn.
      - destruct (needs !! s) as [n|] eqn:Hs; [|done]. intros _. by exists (s, n). }
    rewrite Hl, Hi2. unfold MIN_PEERS_PER_SUBNET, PEER_OVERDIAL_FACTOR. case_decide as Hx.
    + destruct Hx as [Hx Hlt]. split; [intros; split; [done|lia]|]. intros [_ ?]. lia.
    + unfold need_of. rewrite lookup_empty. cbn. split; [lia|]. intros [Hs ?]. exfalso. apply Hx. split; [done|]. lia.
Qed.

(** ** What is observed of a peer *)

(** The subscriptions of each peer with an entry: not yet any, or a set of forks and
    subnets. *)
Abbreviation Observation := (gmap PeerId (option (gset (Fork * SubnetId)))) (only parsing).

Definition observe (peer : PeerId) (f : gset (Fork * SubnetId) → gset (Fork * SubnetId)) (o : Observation)
    : Observation := <[peer := Some (f (default ∅ (default None (o !! peer))))]> o.

(** The forks whose subscriptions count: the current one, or all during a transition. *)
Definition counts_fork (lifecycle : ForkLifecycle) (f : Fork) : Prop :=
  match lifecycle with Normal current => f = fc_fork current | _ => True end.

Definition fork_subnets (o : ObservedPeerSubnets) : gmap Fork (gset SubnetId) :=
  match o with Known m => m | _ => ∅ end.

(** A peer's entry represents the set. *)
Definition entry_refines (e : ObservedPeerSubnets) (a : option (gset (Fork * SubnetId))) : Prop :=
  match a with
  | None => e = Unknown
  | Some X => e ≠ Unknown ∧ ∀ f s, (f, s) ∈ X ↔ s ∈ default ∅ (fork_subnets e !! f)
  end.

Definition observed_refines (cm : ConnectionManager) (o : Observation) : Prop :=
  ∀ peer, match cm_observed_peer_subnets cm !! peer, o !! peer with
          | Some e, Some a => entry_refines e a
          | None, None => True
          | _, _ => False
          end.

Lemma entry_subscribe e a f s :
  entry_refines e a →
  entry_refines
    (Known (<[f := {[s]} ∪ default ∅ (fork_subnets e !! f)]> (fork_subnets e)))
    (Some ({[(f, s)]} ∪ default ∅ a)).
Proof.
  intros He. split; [done|]. intros f' s'. cbn [fork_subnets].
  assert ((f', s') ∈ default ∅ a ↔ s' ∈ default ∅ (fork_subnets e !! f')) as Ha.
  { destruct a as [X|]; cbn in He |- *; [by destruct He|]. subst. cbn. rewrite lookup_empty. cbn. set_solver. }
  rewrite elem_of_union, elem_of_singleton, Ha. destruct (decide (f' = f)) as [->|Hne].
  - rewrite lookup_insert_eq. cbn. set_solver.
  - rewrite lookup_insert_ne by done. naive_solver.
Qed.

Lemma entry_unsubscribe e a f s :
  entry_refines e a →
  entry_refines
    match e with
    | Unknown => KnownEmpty
    | KnownEmpty => KnownEmpty
    | Known fork_map =>
        let fork_map :=
          match fork_map !! f with
          | Some bitfield =>
              let bitfield := bitfield ∖ {[s]} in
              if decide (bitfield = ∅) then delete f fork_map else <[f := bitfield]> fork_map
          | None => fork_map
          end in
        if decide (fork_map = ∅) then KnownEmpty else Known fork_map
    end
    (Some (default ∅ a ∖ {[(f, s)]})).
Proof.
  intros He. destruct e as [| |m].
  - destruct a as [X|]; [by destruct He|]. split; [done|]. intros. cbn. rewrite lookup_empty. cbn. set_solver.
  - destruct a as [X|]; [|done]. destruct He as [_ He]. split; [done|]. intros f' s'. cbn in *.
    rewrite lookup_empty. specialize (He f' s'). rewrite lookup_empty in He. set_solver.
  - destruct a as [X|]; [|done]. destruct He as [_ He]. cbn [fork_subnets default] in *. cbv zeta.
    set (m' := match m !! f with Some _ => _ | None => _ end).
    assert (∀ f' s', (f', s') ∈ X ∖ {[(f, s)]} ↔ s' ∈ default ∅ (m' !! f')) as Hm.
    { intros f' s'. rewrite elem_of_difference, elem_of_singleton, He. unfold m'.
      destruct (m !! f) as [b|] eqn:Hf.
      - destruct (decide (f' = f)) as [->|Hne].
        + rewrite Hf. case_decide as Hb; [rewrite lookup_delete_eq|rewrite lookup_insert_eq]; cbn; set_solver.
        + case_decide; [rewrite lookup_delete_ne by done|rewrite lookup_insert_ne by done]; naive_solver.
      - destruct (decide (f' = f)) as [->|Hne]; [rewrite Hf; cbn; set_solver|naive_solver]. }
    case_decide as Hemp; (split; [done|]); [|done]. intros f' s'. rewrite Hm, Hemp. done.
Qed.

(** Subscriptions and their ends are added to and taken from the set. *)
Definition observe_subscription (peer : PeerId) (fork : Fork) (subnet : SubnetId) (subscribed : bool)
    (o : Observation) : Observation :=
  if (bitfield_len <=? subnet)%N then o
  else observe peer (λ X, if subscribed then {[(fork, subnet)]} ∪ X else X ∖ {[(fork, subnet)]}) o.

Lemma set_peer_subscribed_refines peer fork subnet subscribed cm o :
  observed_refines cm o →
  observed_refines (set_peer_subscribed peer fork subnet subscribed cm)
    (observe_subscription peer fork subnet subscribed o).
Proof.
  intros Hr. unfold set_peer_subscribed, observe_subscription. destruct (bitfield_len <=? subnet)%N; [done|].
  assert (entry_refines (default Unknown (cm_observed_peer_subnets cm !! peer)) (default None (o !! peer))) as He.
  { specialize (Hr peer). by destruct (cm_observed_peer_subnets cm !! peer), (o !! peer). }
  intros p. cbn [cm_observed_peer_subnets setter]. unfold setter, observe. cbn [cm_observed_peer_subnets].
  destruct (decide (p = peer)) as [->|Hne]; [rewrite !lookup_insert_eq|rewrite !lookup_insert_ne by done; apply Hr].
  destruct subscribed; [|by apply entry_unsubscribe].
  pose proof (entry_subscribe _ _ fork subnet He) as Hs.
  by destruct (default Unknown (cm_observed_peer_subnets cm !! peer)).
Qed.

(** The lookup returns the subscriptions on the forks that count. *)
Lemma peer_subnets_refine cm o peer lifecycle :
  observed_refines cm o →
  match get_peer_subnets_for_lifecycle peer lifecycle cm with
  | None => default None (o !! peer) = None
  | Some subnets => ∃ X, o !! peer = Some (Some X) ∧
      ∀ s, s ∈ subnets ↔ ∃ f, counts_fork lifecycle f ∧ (f, s) ∈ X
  end.
Proof.
  intros Hr. specialize (Hr peer). unfold get_peer_subnets_for_lifecycle.
  destruct (cm_observed_peer_subnets cm !! peer) as [e|], (o !! peer) as [a|]; try done. cbn [mbind option_bind].
  destruct a as [X|]; cbn in Hr |- *; [|by subst]. destruct Hr as [Hu HS]. destruct e as [| |m]; [done| |].
  - exists X. split; [done|]. intros s. split; [set_solver|]. intros (f & _ & Hf%HS).
    cbn in Hf. rewrite lookup_empty in Hf. done.
  - cbn [fork_subnets] in HS. assert (∀ s, s ∈ aggregate_fork_bitmaps m ↔ ∃ f, True ∧ (f, s) ∈ X) as Hagg.
    { intros s. unfold aggregate_fork_bitmaps. rewrite elem_of_union_list. setoid_rewrite list_elem_of_fmap.
      setoid_rewrite HS. split.
      - intros (Y & ([f Y'] & -> & Hf%elem_of_map_to_list) & Hs). exists f. by rewrite Hf.
      - intros (f & _ & Hs). destruct (m !! f) as [Y|] eqn:Hf; [|by apply not_elem_of_empty in Hs].
        exists Y. split; [|done]. exists (f, Y). split; [done|]. by apply elem_of_map_to_list. }
    destruct lifecycle as [current| |]; eexists; (split; [done|]); intros s; cbn [counts_fork]; [|apply Hagg..].
    rewrite <- HS. naive_solver.
Qed.

(** ** Runs *)

Inductive PeerEvent :=
  | Discovered (enr : Enr) (lifecycle : ForkLifecycle)
  | Joined (subnet : SubnetId) (lifecycle : ForkLifecycle)
  | Left (subnet : SubnetId)
  | Beat (now : N) (lifecycle : ForkLifecycle)
  | Block (now : N) (peer : PeerId)
  | Unblock (peer : PeerId)
  | Subscription (peer : PeerId) (fork : Fork) (subnet : SubnetId) (subscribed : bool)
  | Handshaken (peer : PeerId) (node_version : string)
  | Swarm (e : SwarmEvent).

Definition peer_event (dynamic : bool) (pm : PeerManager) (e : PeerEvent) : PeerManager :=
  match e with
  | Discovered enr lifecycle => (report_discovered_peer enr lifecycle pm).2
  | Joined subnet lifecycle => (join_subnet subnet dynamic lifecycle pm).2
  | Left subnet => leave_subnet subnet dynamic pm
  | Beat now lifecycle => (heartbeat now lifecycle pm).2
  | Block now peer => block_peer now peer pm
  | Unblock peer => unblock_peer peer pm
  | Subscription peer fork subnet subscribed => set_peer_subscription peer fork subnet subscribed pm
  | Handshaken peer node_version => handle_handshake_completed peer node_version pm
  | Swarm e => on_swarm_event e pm
  end.

(** What the manager should know: who subscribed to what, who is blocked since when, and
    which subnets are needed. *)
Record Ledger := mkLedger {
  ld_observed : Observation;
  ld_blocked : gmap PeerId N;
  ld_needed : gset SubnetId;
}.
#[export] Instance eta_Ledger : Eta Ledger := λ r, mkLedger (ld_observed r) (ld_blocked r) (ld_needed r).

Definition ledger_event (one_epoch : N) (l : Ledger) (e : PeerEvent) : Ledger :=
  match e with
  | Joined subnet _ => l <| ld_needed := {[subnet]} ∪ ld_needed l |>
  | Left subnet => l <| ld_needed := ld_needed l ∖ {[subnet]} |>
  | Beat now _ =>
      l <| ld_blocked := filter (λ p, (now - p.2 < one_epoch * 100)%N) (ld_blocked l) |>
  | Block now peer =>
      match ld_blocked l !! peer with
      | Some _ => l
      | None => l <| ld_blocked := <[peer := now]> (ld_blocked l) |>
      end
  | Unblock peer => l <| ld_blocked := delete peer (ld_blocked l) |>
  | Subscription peer fork subnet subscribed =>
      l <| ld_observed := observe_subscription peer fork subnet subscribed (ld_observed l) |>
  | Swarm (ConnectionEstablished peer _) =>
      match ld_observed l !! peer with
      | Some _ => l
      | None => l <| ld_observed := <[peer := None]> (ld_observed l) |>
      end
  | Swarm (ConnectionClosed peer _) => l <| ld_observed := delete peer (ld_observed l) |>
  | Discovered _ _ | Handshaken _ _ => l
  end.

Record manager_refines (dynamic : bool) (target one_epoch : N) (pm : PeerManager) (l : Ledger) : Prop := {
  mr_observed : observed_refines (pm_connection_manager pm) (ld_observed l);
  mr_timestamps : bm_blocked_peers_timestamps (pm_blocking_manager pm) = ld_blocked l;
  mr_blocked : bm_block_list (pm_blocking_manager pm) = dom (ld_blocked l);
  mr_epoch : bm_one_epoch_duration (pm_blocking_manager pm) = one_epoch;
  mr_needed : pm_needed_subnets pm = ld_needed l;
  mr_target : cm_target_peers (pm_connection_manager pm) =
    if dynamic then calculate_target_peers (N.of_nat (size (ld_needed l))) else target;
  mr_limits : cm_connection_limits (pm_connection_manager pm) =
    create_connection_limits (cm_target_peers (pm_connection_manager pm));
  mr_priority : cm_max_with_priority_peers (pm_connection_manager pm) =
    max_priority_peers (cm_target_peers (pm_connection_manager pm));
}.

(** Expired blocks end, the others stay. *)
Lemma unblock_all l bm :
  bm_block_list bm = dom (bm_blocked_peers_timestamps bm) →
  let bm' := foldl (λ bm peer, (bm_unblock_peer peer bm).2) bm l in
  bm_block_list bm' = dom (bm_blocked_peers_timestamps bm') ∧
  bm_one_epoch_duration bm' = bm_one_epoch_duration bm ∧
  bm_blocked_peers_timestamps bm' = filter (λ p, p.1 ∉ l) (bm_blocked_peers_timestamps bm).
Proof.
  revert bm. induction l as [|peer l IH]; intros bm Hd; cbn [foldl].
  { split_and!; [done|done|]. symmetry. apply map_filter_id. intros. apply not_elem_of_nil. }
  assert (bm_block_list (bm_unblock_peer peer bm).2 = dom (bm_blocked_peers_timestamps (bm_unblock_peer peer bm).2) ∧
    bm_one_epoch_duration (bm_unblock_peer peer bm).2 = bm_one_epoch_duration bm ∧
    bm_blocked_peers_timestamps (bm_unblock_peer peer bm).2 = delete peer (bm_blocked_peers_timestamps bm)) as (H1 & H2 & H3).
  { unfold bm_unblock_peer. case_decide as Hp; cbn [snd]; unfold setter; cbn.
    - rewrite dom_delete_L, Hd. done.
    - split_and!; [done|done|]. rewrite delete_id; [done|]. rewrite Hd in Hp. by apply not_elem_of_dom in Hp. }
  destruct (IH _ H1) as (K1 & K2 & K3). split_and!; [done|congruence|]. rewrite K3, H3.
  apply map_eq. intros p. rewrite !map_lookup_filter. destruct (decide (p = peer)) as [->|Hne].
  - rewrite lookup_delete_eq. cbn. destruct (bm_blocked_peers_timestamps bm !! peer); [|done]. cbn.
    case_guard as Hg; [|done]. exfalso. apply Hg. by left.
  - rewrite lookup_delete_ne by done. destruct (bm_blocked_peers_timestamps bm !! p); [|done]. cbn.
    repeat case_guard; try done; exfalso; set_solver.
Qed.

Lemma unblock_expired_spec now bm :
  bm_block_list bm = dom (bm_blocked_peers_timestamps bm) →
  let bm' := check_and_unblock_expired_peers now bm in
  bm_block_list bm' = dom (bm_blocked_peers_timestamps bm') ∧
  bm_one_epoch_duration bm' = bm_one_epoch_duration bm ∧
  bm_blocked_peers_timestamps bm' =
    filter (λ p, (now - p.2 < bm_one_epoch_duration bm * 100)%N) (bm_blocked_peers_timestamps bm).
Proof.
  intros Hd. unfold check_and_unblock_expired_peers. cbv zeta.
  match goal with |- context [foldl _ _ ?l] => destruct (unblock_all l bm Hd) as (H1 & H2 & H3) end.
  split_and!; [done|done|]. rewrite H3. apply map_filter_ext. intros p t Hp. cbn.
  rewrite list_elem_of_fmap. setoid_rewrite list_elem_of_filter. setoid_rewrite elem_of_map_to_list'.
  change RETAIN_SCORE_EPOCH_MULTIPLIER with 100%N. split.
  - intros Hn. destruct (N.lt_ge_cases (now - t) (bm_one_epoch_duration bm * 100)) as [|Hge]; [done|].
    exfalso. apply Hn. by exists (p, t).
  - intros Hlt ([p' t'] & -> & Hge & Hp'). cbn in *. rewrite Hp in Hp'. injection Hp' as <-. lia.
Qed.

(** Connections only touch the entry of their peer. *)
Lemma swarm_refines e cm o :
  observed_refines cm o →
  observed_refines
    (match e with
     | ConnectionEstablished peer d => (on_connection_established peer d cm).2
     | ConnectionClosed peer d => (on_connection_closed peer d cm).2
     end)
    (match e with
     | ConnectionEstablished peer _ =>
         match o !! peer with Some _ => o | None => <[peer := None]> o end
     | ConnectionClosed peer _ => delete peer o
     end).
Proof.
  intros Hr. destruct e as [peer d|peer d].
  - assert (cm_observed_peer_subnets (on_connection_established peer d cm).2 =
      match cm_observed_peer_subnets cm !! peer with
      | Some _ => cm_observed_peer_subnets cm
      | None => <[peer := Unknown]> (cm_observed_peer_subnets cm)
      end) as He.
    { unfold on_connection_established. cbn [snd].
      destruct (cm_observed_peer_subnets cm !! peer); repeat case_match; done. }
    intros p. rewrite He. pose proof (Hr peer) as Hp.
    destruct (cm_observed_peer_subnets cm !! peer) as [e|], (o !! peer) as [a|]; try done; [apply Hr|].
    destruct (decide (p = peer)) as [->|Hne]; [by rewrite !lookup_insert_eq|].
    rewrite !lookup_insert_ne by done. apply Hr.
  - assert (cm_observed_peer_subnets (on_connection_closed peer d cm).2 =
      delete peer (cm_observed_peer_subnets cm)) as He.
    { unfold on_connection_closed. cbn [snd]. repeat case_match; done. }
    intros p. rewrite He. destruct (decide (p = peer)) as [->|Hne]; [by rewrite !lookup_delete_eq|].
    rewrite !lookup_delete_ne by done. apply Hr.
Qed.

(** Connections leave target and limits alone. *)
Lemma swarm_targets e pm :
  cm_target_peers (pm_connection_manager (on_swarm_event e pm)) = cm_target_peers (pm_connection_manager pm) ∧
  cm_connection_limits (pm_connection_manager (on_swarm_event e pm)) = cm_connection_limits (pm_connection_manager pm) ∧
  cm_max_with_priority_peers (pm_connection_manager (on_swarm_event e pm)) =
    cm_max_with_priority_peers (pm_connection_manager pm).
Proof.
  unfold on_swarm_event, on_connection_established, on_connection_closed. unfold setter.
  destruct e; cbn; repeat case_match; done.
Qed.

Lemma set_target_refines t cm o :
  cm_connection_limits cm = create_connection_limits (cm_target_peers cm) →
  cm_max_with_priority_peers cm = max_priority_peers (cm_target_peers cm) →
  observed_refines cm o →
  let cm' := set_target_peers t cm in
  observed_refines cm' o ∧ cm_target_peers cm' = t ∧
  cm_connection_limits cm' = create_connection_limits (cm_target_peers cm') ∧
  cm_max_with_priority_peers cm' = max_priority_peers (cm_target_peers cm').
Proof. intros Hl Hm Ho. unfold set_target_peers. by destruct (N.eqb_spec (cm_target_peers cm) t). Qed.

Lemma retarget_refines dynamic target one_epoch pm l needed :
  manager_refines dynamic target one_epoch pm l →
  manager_refines dynamic target one_epoch
    (retarget dynamic (pm <| pm_needed_subnets := needed |>)) (l <| ld_needed := needed |>).
Proof.
  intros [H1 H2 H3 H4 H5 H6 H7 H8]. unfold retarget. destruct dynamic; [|by split].
  destruct (set_target_refines (calculate_target_peers (N.of_nat (size needed))) _ _ H7 H8 H1) as (K1 & K2 & K3 & K4).
  by split.
Qed.

Lemma peer_event_refines dynamic target one_epoch pm l e :
  manager_refines dynamic target one_epoch pm l →
  manager_refines dynamic target one_epoch (peer_event dynamic pm e) (ledger_event one_epoch l e).
Proof.
  intros Hr. pose proof Hr as [H1 H2 H3 H4 H5 H6 H7 H8]. destruct e; cbn [peer_event ledger_event].
  - unfold report_discovered_peer. destruct (process_discovered_peer _ _ _ _ _ _). by split.
  - unfold join_subnet. cbn [snd]. rewrite <- H5. by apply retarget_refines.
  - unfold leave_subnet. rewrite <- H5. by apply retarget_refines.
  - unfold heartbeat. cbn [snd]. destruct (unblock_expired_spec now (pm_blocking_manager pm)) as (K1 & K2 & K3); [congruence|].
    rewrite H2, H4 in K3. split; unfold setter; cbn; try done; congruence.
  - unfold block_peer, bm_block_peer. rewrite H3. destruct (ld_blocked l !! peer) as [t|] eqn:Hp.
    + rewrite decide_True by by eapply elem_of_dom_2. by split.
    + rewrite decide_False by by apply not_elem_of_dom. split; unfold setter; cbn; try done.
      * by rewrite H2.
      * by rewrite dom_insert_L.
  - unfold unblock_peer, bm_unblock_peer. rewrite H3. case_decide as Hp; split; unfold setter; cbn; try done.
    + by rewrite H2.
    + by rewrite dom_delete_L.
    + rewrite H2, delete_id; [done|]. by apply not_elem_of_dom.
    + rewrite H3, delete_id; [done|]. by apply not_elem_of_dom.
  - unfold set_peer_subscription.
    pose proof (set_peer_subscribed_refines peer fork subnet subscribed _ _ H1) as Hs.
    assert (∀ cm, cm_target_peers (set_peer_subscribed peer fork subnet subscribed cm) = cm_target_peers cm ∧
      cm_connection_limits (set_peer_subscribed peer fork subnet subscribed cm) = cm_connection_limits cm ∧
      cm_max_with_priority_peers (set_peer_subscribed peer fork subnet subscribed cm) = cm_max_with_priority_peers cm) as Hc.
    { intros cm. unfold set_peer_subscribed. by destruct (_ <=? _)%N. }
    destruct (Hc (pm_connection_manager pm)) as (K1 & K2 & K3). split; unfold setter; cbn; try done; congruence.
  - by split.
  - destruct (swarm_targets e pm) as (K1 & K2 & K3). pose proof (swarm_refines e _ _ H1) as Hs.
    destruct e as [p d|p d]; [destruct (ld_observed l !! p) eqn:Hp|]; split;
      first [done|exact Hs|by rewrite K1|by rewrite K2, K1|by rewrite K3, K1].
Qed.

(** The limits of a dynamic target, rounding included: the target stays between 60 and
    150, there is room above it, outbound connections are left some, and priority peers
    some more. *)
Lemma dynamic_limits n :
  let t := calculate_target_peers n in
  (60 <= t <= 150)%N ∧ (cl_max_established_incoming (create_connection_limits t) < t)%N ∧
  (t < cl_max_established (create_connection_limits t))%N ∧
  (cl_max_established (create_connection_limits t) < max_priority_peers t)%N.
Proof.
  assert (forallb (λ n, let t := calculate_target_peers n in
    (60 <=? t) && (t <=? 150) && (cl_max_established_incoming (create_connection_limits t) <? t) &&
    (t <? cl_max_established (create_connection_limits t)) &&
    (cl_max_established (create_connection_limits t) <? max_priority_peers t))%N (range 31) = true) as H
    by (vm_compute; reflexivity).
  assert (∃ m, (m < 31)%N ∧ calculate_target_peers n = calculate_target_peers m) as (m & Hm & ->).
  { exists (N.min n 30). unfold calculate_target_peers, BASE_PEER_COUNT, PEERS_PER_SUBNET, MAX_PEER_COUNT. lia. }
  rewrite forallb_forall in H. specialize (H m (proj1 (list_elem_of_In _ _) (proj2 (elem_of_range m 31) Hm))). cbv zeta in *.
  rewrite !andb_true_iff, !N.leb_le, !N.ltb_lt in H. naive_solver.
Qed.

(** C35: the peer manager keeps its books.  After any sequence of discoveries, joined and
    left subnets, heartbeats, blocks, observed subscriptions, handshakes and connections:
    the subnets looked up for a peer are those it is subscribed to on the forks that count
    in the lifecycle, and unknown until a first subscription event; a peer is blocked, and
    then refused, exactly while it was blocked by hand or less than a hundred epochs
    before the last heartbeat; and with a dynamic target, target and limits follow the
    number of needed subnets within their bounds. *)
Theorem peer_manager_refines store target_peers one_epoch evs :
  let dynamic := match target_peers with Some _ => false | None => true end in
  let pm := foldl (peer_event dynamic) (peer_manager_new store target_peers one_epoch) evs in
  let l := foldl (ledger_event one_epoch) (mkLedger ∅ ∅ ∅) evs in
  (∀ peer lifecycle, match get_peer_subnets_for_lifecycle peer lifecycle (pm_connection_manager pm) with
     | None => default None (ld_observed l !! peer) = None
     | Some subnets => ∃ X, ld_observed l !! peer = Some (Some X) ∧
         ∀ s, s ∈ subnets ↔ ∃ f, counts_fork lifecycle f ∧ (f, s) ∈ X
     end) ∧
  (∀ peer, peer ∈ bm_block_list (pm_blocking_manager pm) ↔ is_Some (ld_blocked l !! peer)) ∧
  (∀ peer limit lifecycle, is_Some (ld_blocked l !! peer) →
     handle_established_connection limit peer lifecycle pm = Err BlockedPeer) ∧
  pm_needed_subnets pm = ld_needed l ∧
  (dynamic = true → let t := cm_target_peers (pm_connection_manager pm) in
     let limits := cm_connection_limits (pm_connection_manager pm) in
     t = N.min (60 + 3 * N.of_nat (size (ld_needed l))) 150 ∧
     (cl_max_established_incoming limits < t < cl_max_established limits)%N ∧
     (cl_max_established limits < cm_max_with_priority_peers (pm_connection_manager pm))%N).
Proof.
  intros dynamic pm l.
  assert (manager_refines dynamic (default 60%N target_peers) one_epoch pm l) as [H1 H2 H3 H4 H5 H6 H7 H8].
  { assert (manager_refines dynamic (default 60%N target_peers) one_epoch
      (peer_manager_new store target_peers one_epoch) (mkLedger ∅ ∅ ∅)) as H0.
    { split; [intros p; cbn; by rewrite !lookup_empty|done|done|done|done|by destruct target_peers|done|done]. }
    unfold pm, l. clear pm l. revert H0. generalize (peer_manager_new store target_peers one_epoch), (mkLedger ∅ ∅ ∅).
    induction evs as [|e evs IH]; intros pm l H0; [done|]. cbn [foldl]. by apply IH, peer_event_refines. }
  assert (∀ peer, peer ∈ bm_block_list (pm_blocking_manager pm) ↔ is_Some (ld_blocked l !! peer)) as Hb.
  { intros peer. by rewrite H3, elem_of_dom. }
  split_and!; [intros; by apply peer_subnets_refine|done| |done|].
  - intros peer limit lifecycle Hp%Hb. unfold handle_established_connection. by rewrite bool_decide_true.
  - intros Hdyn. cbv zeta. rewrite H7, H8, H6, Hdyn.
    destruct (dynamic_limits (N.of_nat (size (ld_needed l)))) as (K1 & K2 & K3 & K4). split_and!; [|done..].
    unfold calculate_target_peers, BASE_PEER_COUNT, PEERS_PER_SUBNET, MAX_PEER_COUNT. lia.
Qed.

End lib.
