(* ===== verification/Handshake.v ===== *)
(** * The handshake

    [anchor/network/src/handshake]: the signed record two nodes exchange when they connect
    ([node_info.rs], [envelope/mod.rs], [codec.rs]), the comparison of domains and the
    events it ends in ([mod.rs]), and the bit field of subnets in the record.  JSON, hex,
    protobuf and libp2p's keys are parameters with their round trips.  A record arrives as
    it was sealed, two nodes complete a handshake exactly if their current domains are the
    same, and the bit field always names the subscribed subnets. *)

From S2P Require Import Prelude SsvTypes ForkSchedule Subnet PeerManager.

(** ** Records *)

Record NodeMetadata := mkNodeMetadata {
  nm_node_version : string;
  nm_execution_node : string;
  nm_consensus_node : string;
  nm_subnets : string;
}.
#[export] Instance eta_NodeMetadata : Eta NodeMetadata := λ r,
  mkNodeMetadata (nm_node_version r) (nm_execution_node r) (nm_consensus_node r) (nm_subnets r).

#[export] Instance NodeMetadata_eq_dec : EqDecision NodeMetadata.
Proof. solve_decision. Defined.

Record NodeInfo := mkNodeInfo {
  ni_domain_type : string;
  ni_metadata : option NodeMetadata;
}.

Inductive NodeInfoError := Serialization | Seal | Validation.

Record Envelope := mkEnvelope {
  ev_public_key : bytes;
  ev_payload_type : bytes;
  ev_payload : bytes;
  ev_signature : bytes;
}.

Inductive EnvelopeError := Decoding | Encoding | PublicKeyDecoding | SignatureVerification | InvalidPayloadType.

(** The libraries behind the records: hex, JSON, protobuf and the keys of libp2p. *)
Class HandshakeLib := {
  hex_encode : bytes → string;
  hex_decode : string → option bytes;
  hex_roundtrip b : hex_decode (hex_encode b) = Some b;
  hex_zeros : hex_decode "00000000000000000000000000000000" = Some (replicate 16 x00);
  metadata_to_json : NodeMetadata → option string;
  metadata_from_json : string → option NodeMetadata;
  metadata_roundtrip m j : metadata_to_json m = Some j → metadata_from_json j = Some m;
  entries_to_json : list string → option bytes;
  entries_from_json : bytes → option (list string);
  entries_roundtrip l j : entries_to_json l = Some j → entries_from_json j = Some l;
  encode_length_delimiter : N → option bytes;
  Keypair : Type;
  NodeKey : Type;
  public_protobuf : Keypair → bytes;
  decode_protobuf : bytes → option NodeKey;
  key_sign : Keypair → bytes → option bytes;
  key_verify : NodeKey → bytes → bytes → bool;
  key_verifies k m s : key_sign k m = Some s →
    ∃ pk, decode_protobuf (public_protobuf k) = Some pk ∧ key_verify pk m s = true;
  encode_envelope : Envelope → bytes;
  decode_envelope : bytes → option Envelope;
  envelope_roundtrip e : decode_envelope (encode_envelope e) = Some e;
}.

Section handshake.
Context {HL : HandshakeLib}.

(** The bytes of an ASCII literal. *)
Definition string_bytes (s : string) : bytes := String.list_byte_of_string s.

Definition DOMAIN : string := "ssv".
Definition CODEC : bytes := string_bytes "ssv/nodeinfo".

(** [NodeInfo::marshal] *)
Definition marshal (info : NodeInfo) : outcome NodeInfoError bytes :=
  let entries := [EmptyString; ("0x" +:+ ni_domain_type info)%string] in
  entries ← match ni_metadata info with
            | Some meta => json ← ok_or (metadata_to_json meta) Serialization; mret (entries ++ [json])
            | None => mret entries
            end;
  ok_or (entries_to_json entries) Serialization.

(** [NodeInfo::unmarshal] *)
Definition unmarshal (data : bytes) : outcome NodeInfoError NodeInfo :=
  entries ← ok_or (entries_from_json data) Serialization;
  match entries with
  | _ :: domain :: rest =>
      domain_type ← ok_or (strip_prefix "0x" domain) Validation;
      metadata ← match rest with
                 | json :: _ => meta ← ok_or (metadata_from_json json) Serialization; mret (Some meta)
                 | [] => mret None
                 end;
      mret (mkNodeInfo domain_type metadata)
  | _ => Err Validation
  end.

Definition make_unsigned (domain payload_type payload : bytes) : option bytes :=
  d ← encode_length_delimiter (len domain);
  t ← encode_length_delimiter (len payload_type);
  p ← encode_length_delimiter (len payload);
  Some (d ++ domain ++ t ++ payload_type ++ p ++ payload).

(** [NodeInfo::seal]; the [unwrap] of [make_unsigned] is a panic. *)
Definition seal (keypair : Keypair) (info : NodeInfo) : outcome NodeInfoError Envelope :=
  raw_payload ← marshal info;
  unsigned ← expect (make_unsigned (string_bytes DOMAIN) CODEC raw_payload);
  sig ← ok_or (key_sign keypair unsigned) Seal;
  mret (mkEnvelope (public_protobuf keypair) CODEC raw_payload sig).

(** [Envelope::parse_and_verify] *)
Definition parse_and_verify (bs : bytes) : outcome EnvelopeError Envelope :=
  env ← ok_or (decode_envelope bs) Decoding;
  _ ← ensure (bool_decide (ev_payload_type env = CODEC)) InvalidPayloadType;
  pk ← ok_or (decode_protobuf (ev_public_key env)) PublicKeyDecoding;
  unsigned ← ok_or (make_unsigned (string_bytes DOMAIN) CODEC (ev_payload env)) Encoding;
  _ ← ensure (key_verify pk unsigned (ev_signature env)) SignatureVerification;
  mret env.

(** ** On the wire *)

Definition MAXIMUM_SIZE : N := 1024.

Inductive CodecError := EnvelopeInvalid (e : EnvelopeError) | NodeInfoInvalid (e : NodeInfoError).

(** [Codec::read], from the bytes the stream carries. *)
Definition codec_read (stream : bytes) : outcome CodecError NodeInfo :=
  env ← map_err EnvelopeInvalid (parse_and_verify (take (N.to_nat MAXIMUM_SIZE) stream));
  map_err NodeInfoInvalid (unmarshal (ev_payload env)).

(** [Codec::write] *)
Definition codec_write (keypair : Keypair) (info : NodeInfo) : outcome CodecError bytes :=
  envelope ← map_err NodeInfoInvalid (seal keypair info);
  mret (encode_envelope envelope).

(** ** The behaviour *)

Inductive HandshakeError := NetworkMismatch (ours theirs : string) | TransportFailure.

Inductive HandshakeEvent :=
  | Completed (peer_id : PeerId) (their_info : NodeInfo)
  | Failed (peer_id : PeerId) (error : HandshakeError).

Record Behaviour := mkBehaviour {
  hs_metadata : NodeMetadata;
  hs_events : list HandshakeEvent;
}.
#[export] Instance eta_Behaviour : Eta Behaviour := λ r, mkBehaviour (hs_metadata r) (hs_events r).

(** [our_node_info], with the lifecycle it reads. *)
Definition our_node_info (lifecycle : ForkLifecycle) (b : Behaviour) : NodeInfo :=
  mkNodeInfo (hex_encode (fc_domain_type (current_fork_config lifecycle))) (Some (hs_metadata b)).

Definition verify_node_info (ours theirs : NodeInfo) : outcome HandshakeError unit :=
  ensure (bool_decide (ni_domain_type ours = ni_domain_type theirs))
    (NetworkMismatch (ni_domain_type ours) (ni_domain_type theirs)).

Definition verify_and_emit_event (lifecycle : ForkLifecycle) (peer_id : PeerId) (their_info : NodeInfo)
    (b : Behaviour) : Behaviour :=
  let event := match verify_node_info (our_node_info lifecycle b) their_info with
               | Ok _ => Completed peer_id their_info
               | Err error => Failed peer_id error
               | Panic => Failed peer_id TransportFailure
               end in
  b <| hs_events := hs_events b ++ [event] |>.

(** [handle_request]: the response and the event. *)
Definition handle_request (lifecycle : ForkLifecycle) (peer_id : PeerId) (request : NodeInfo)
    (b : Behaviour) : NodeInfo * Behaviour :=
  (our_node_info lifecycle b, verify_and_emit_event lifecycle peer_id request b).

Definition handle_response (lifecycle : ForkLifecycle) (peer_id : PeerId) (response : NodeInfo)
    (b : Behaviour) : Behaviour := verify_and_emit_event lifecycle peer_id response b.

(** The failures that [poll] reports. *)
Definition handle_failure (peer_id : PeerId) (b : Behaviour) : Behaviour :=
  b <| hs_events := hs_events b ++ [Failed peer_id TransportFailure] |>.

(** [should_initiate_handshake]: on the first connection to a peer, if we dialled it. *)
Definition should_initiate_handshake (is_dialer : bool) (other_established : N) : bool :=
  is_dialer && (other_established =? 0)%N.

(** ** The subnets in the record *)

Definition SUBNET_BYTES : N := SUBNET_COUNT `div` 8.

(** [1 << (subnet % 8)] as a byte, set or cleared. *)
Definition set_bit (b : byte) (i : N) (on : bool) : byte :=
  let n := Byte.to_N b in
  let n := if on then N.setbit n i else N.clearbit n i in
  default x00 (Byte.of_N n).

(** [NodeMetadata::set_subscribed] *)
Definition metadata_set_subscribed (subnet : SubnetId) (subscribed : bool) (m : NodeMetadata)
    : outcome NodeInfoError NodeMetadata :=
  subnet_bits ← ok_or (hex_decode (nm_subnets m)) Validation;
  _ ← ensure (len subnet_bits =? SUBNET_BYTES)%N Validation;
  let i := N.to_nat (subnet `div` 8) in
  b ← ok_or (subnet_bits !! i) Validation;
  let subnet_bits := <[i := set_bit b (subnet `mod` 8) subscribed]> subnet_bits in
  mret (m <| nm_subnets := hex_encode subnet_bits |>).

(** The number of subnets both bit fields name. *)
Definition popcount (n : N) : N := len (filter (λ i, N.testbit n i = true) (range 8)).

Definition count_matching_subnets (our_subnets their_subnets : string) : N :=
  match hex_decode our_subnets, hex_decode their_subnets with
  | Some ours, Some theirs =>
      foldr N.add 0%N (zip_with (λ a b, popcount (N.land (Byte.to_N a) (Byte.to_N b))) ours theirs)
  | _, _ => 0
  end.

(** ** Bits *)

Lemma byte_of_bits n : (∀ j, (8 <= j)%N → N.testbit n j = false) → ∃ b, Byte.of_N n = Some b ∧ Byte.to_N b = n.
Proof.
  intros H. assert (n < 256)%N as Hn.
  { replace n with (n `mod` 2 ^ 8)%N; [by apply N.mod_lt|]. apply N.bits_inj. intros j.
    destruct (N.lt_ge_cases j 8); [by apply N.mod_pow2_bits_low|].
    rewrite N.mod_pow2_bits_high by done. by rewrite H. }
  destruct (Byte.of_N n) as [b|] eqn:Hb; [exists b; split; [done|]; by apply Byte.to_of_N|].
  apply Byte.of_N_None_iff in Hb. lia.
Qed.

Lemma byte_high b j : (8 <= j)%N → N.testbit (Byte.to_N b) j = false.
Proof.
  intros Hj. pose proof (Byte.to_N_bounded b) as Hb.
  replace (Byte.to_N b) with (Byte.to_N b `mod` 2 ^ 8)%N by (apply N.mod_small; lia).
  by apply N.mod_pow2_bits_high.
Qed.

Lemma set_bit_spec b i on j :
  (i < 8)%N → N.testbit (Byte.to_N (set_bit b i on)) j = if decide (j = i) then on else N.testbit (Byte.to_N b) j.
Proof.
  intros Hi. unfold set_bit. cbv zeta.
  assert (∀ j, N.testbit (if on then N.setbit (Byte.to_N b) i else N.clearbit (Byte.to_N b) i) j =
    if decide (j = i) then on else N.testbit (Byte.to_N b) j) as H.
  { intros k. destruct on; case_decide; subst; rewrite ?N.setbit_eq, ?N.clearbit_eq; try done;
      by rewrite ?N.setbit_neq, ?N.clearbit_neq by done. }
  destruct (byte_of_bits (if on then N.setbit (Byte.to_N b) i else N.clearbit (Byte.to_N b) i)) as (b' & Hb & Hb').
  { intros k Hk. rewrite H, decide_False by lia. by apply byte_high. }
  rewrite Hb. cbn [default id from_option]. by rewrite Hb', H.
Qed.

Definition bits_have (bits : bytes) (s : SubnetId) : bool :=
  match bits !! N.to_nat (s `div` 8) with
  | Some b => N.testbit (Byte.to_N b) (s `mod` 8)
  | None => false
  end.

(** The record names exactly the subnets of the set. *)
Definition metadata_names (m : NodeMetadata) (subnets : gset SubnetId) : Prop :=
  ∃ bits, hex_decode (nm_subnets m) = Some bits ∧ len bits = SUBNET_BYTES ∧
    ∀ s, (s < SUBNET_COUNT)%N → bits_have bits s = bool_decide (s ∈ subnets).

Lemma metadata_names_zeros m :
  nm_subnets m = "00000000000000000000000000000000"%string → metadata_names m ∅.
Proof.
  intros Hm. exists (replicate 16 x00). rewrite Hm. split; [apply hex_zeros|]. split; [done|].
  intros s Hs. unfold bits_have. rewrite bool_decide_false by apply not_elem_of_empty.
  destruct (replicate 16 x00 !! N.to_nat (s `div` 8)) as [b|] eqn:Hb; [|done].
  apply lookup_replicate in Hb as [-> _]. apply N.bits_0.
Qed.

(** Setting or clearing a subnet changes just its bit. *)
Lemma metadata_set_subscribed_spec m subnets s on :
  metadata_names m subnets → (s < SUBNET_COUNT)%N → ∃ m',
    metadata_set_subscribed s on m = Ok m' ∧ nm_node_version m' = nm_node_version m ∧
    metadata_names m' (if on then {[s]} ∪ subnets else subnets ∖ {[s]}).
Proof.
  intros (bits & Hd & Hlen & Hbits) Hs. unfold metadata_set_subscribed. rewrite Hd. cbn [ok_or mbind outcome_bind].
  rewrite Hlen, N.eqb_refl. cbn [ensure mbind outcome_bind].
  assert (s `div` 8 < 16)%N as Hi by (apply N.Div0.div_lt_upper_bound; unfold SUBNET_COUNT in Hs; lia).
  change (len bits = 16%N) in Hlen. unfold len in Hlen.
  destruct (lookup_lt_is_Some_2 bits (N.to_nat (s `div` 8))) as [b Hb]; [lia|]. rewrite Hb. cbn [ok_or mbind outcome_bind].
  eexists. split; [done|]. split; [done|]. eexists. split; [apply hex_roundtrip|].
  split; [unfold len; rewrite length_insert; done|]. intros x Hx. unfold bits_have.
  assert (x `mod` 8 < 8)%N as Hx8 by by apply N.mod_lt.
  assert (s `mod` 8 < 8)%N as Hs8 by by apply N.mod_lt.
  assert (x = s ↔ x `div` 8 = s `div` 8 ∧ x `mod` 8 = s `mod` 8)%N as Hxs.
  { split; [by intros ->|]. intros [H1 H2]. pose proof (N.div_mod x 8). pose proof (N.div_mod s 8). lia. }
  specialize (Hbits x Hx). unfold bits_have in Hbits.
  destruct (decide (x `div` 8 = s `div` 8)%N) as [He|He].
  - rewrite He in *. rewrite list_lookup_insert_eq by lia. rewrite Hb in Hbits.
    rewrite set_bit_spec by done. destruct (decide (x `mod` 8 = s `mod` 8)%N) as [Hm|Hm].
    + assert (x = s) as -> by (apply Hxs; by split). symmetry. destruct on; [by apply bool_decide_eq_true; set_solver|].
      apply bool_decide_eq_false. set_solver.
    + rewrite Hbits. apply bool_decide_ext. assert (x ≠ s) by (intros ->; done). destruct on; set_solver.
  - rewrite list_lookup_insert_ne by lia. rewrite Hbits. apply bool_decide_ext.
    assert (x ≠ s) by (intros ->; done). destruct on; set_solver.
Qed.

(** ** Round trips *)

Lemma unmarshal_marshal info data : marshal info = Ok data → unmarshal data = Ok info.
Proof.
  unfold marshal, unmarshal. intros (entries & He & Hj%ok_or_ok)%bind_ok.
  rewrite (entries_roundtrip _ _ Hj). cbn [ok_or mbind outcome_bind].
  destruct info as [domain [meta|]]; cbn [ni_metadata ni_domain_type] in *.
  - apply bind_ok in He as (json & Hm%ok_or_ok & [= <-]). cbn [app].
    rewrite strip_prefix_app. cbn [ok_or mbind outcome_bind]. by rewrite (metadata_roundtrip _ _ Hm).
  - injection He as <-. by rewrite strip_prefix_app.
Qed.

Lemma parse_sealed k info env : seal k info = Ok env →
  parse_and_verify (encode_envelope env) = Ok env ∧ unmarshal (ev_payload env) = Ok info.
Proof.
  unfold seal. intros (raw & Hm & H)%bind_ok. apply bind_ok in H as (unsigned & Hu & H).
  apply bind_ok in H as (sig & Hs%ok_or_ok & [= <-]). cbn [ev_payload]. split; [|by apply unmarshal_marshal].
  assert (make_unsigned (string_bytes DOMAIN) CODEC raw = Some unsigned) as Hu'.
  { unfold expect in Hu. destruct (make_unsigned _ _ _); [by injection Hu as ->|done]. }
  unfold parse_and_verify. rewrite envelope_roundtrip. cbn [ok_or mbind outcome_bind ev_payload_type].
  rewrite bool_decide_true by done. cbn [ensure mbind outcome_bind ev_public_key ev_payload ev_signature].
  destruct (key_verifies _ _ _ Hs) as (pk & -> & Hv). cbn [ok_or mbind outcome_bind]. rewrite Hu'.
  cbn [ok_or mbind outcome_bind]. by rewrite Hv.
Qed.

Lemma codec_roundtrip k info stream :
  codec_write k info = Ok stream → (len stream <= MAXIMUM_SIZE)%N → codec_read stream = Ok info.
Proof.
  unfold codec_write, codec_read. intros (env & Hs%map_err_ok & [= <-])%bind_ok Hlen.
  rewrite take_ge by (unfold len in Hlen; lia). destruct (parse_sealed _ _ _ Hs) as [-> Hu].
  cbn [map_err mbind outcome_bind]. by rewrite Hu.
Qed.

Lemma hex_encode_inj : Inj (=) (=) hex_encode.
Proof. intros a b H. apply (f_equal hex_decode) in H. rewrite !hex_roundtrip in H. by injection H. Qed.

Lemma verify_event lifecycle peer their b :
  hs_events (verify_and_emit_event lifecycle peer their b) = hs_events b ++
    [if decide (ni_domain_type their = hex_encode (fc_domain_type (current_fork_config lifecycle)))
     then Completed peer their
     else Failed peer (NetworkMismatch (hex_encode (fc_domain_type (current_fork_config lifecycle)))
                         (ni_domain_type their))].
Proof.
  unfold verify_and_emit_event, verify_node_info. cbn [ni_domain_type our_node_info].
  unfold setter. cbn [hs_events]. do 2 f_equal. case_decide as Hd.
  - by rewrite bool_decide_true.
  - by rewrite bool_decide_false.
Qed.

(** C36: two nodes shake hands.  A dialler and a listener exchange their records over the
    wire; if both fit the size limit, each side reads the record the other sealed, and
    both complete the handshake with the other's metadata exactly if the domains of their
    current forks are the same; otherwise both report the mismatch. *)
Theorem handshake_completes (ka kb : Keypair) la lb (a b : Behaviour) pa pb request response :
  codec_write ka (our_node_info la a) = Ok request → (len request <= MAXIMUM_SIZE)%N →
  codec_write kb (our_node_info lb b) = Ok response → (len response <= MAXIMUM_SIZE)%N →
  ∃ ia ib, codec_read request = Ok ia ∧ codec_read response = Ok ib ∧
    ni_metadata ia = Some (hs_metadata a) ∧ ni_metadata ib = Some (hs_metadata b) ∧
    (handle_request lb pa ia b).1 = ib ∧
    let eb := hs_events (handle_request lb pa ia b).2 in
    let ea := hs_events (handle_response la pb ib a) in
    if decide (fc_domain_type (current_fork_config la) = fc_domain_type (current_fork_config lb))
    then eb = hs_events b ++ [Completed pa ia] ∧ ea = hs_events a ++ [Completed pb ib]
    else eb = hs_events b ++ [Failed pa (NetworkMismatch (ni_domain_type ib) (ni_domain_type ia))] ∧
         ea = hs_events a ++ [Failed pb (NetworkMismatch (ni_domain_type ia) (ni_domain_type ib))].
Proof.
  intros Hreq Hlreq Hres Hlres. exists (our_node_info la a), (our_node_info lb b).
  split; [by eapply codec_roundtrip|]. split; [by eapply codec_roundtrip|]. do 3 (split; [done|]).
  cbv zeta. cbn [handle_request snd]. unfold handle_response. rewrite !verify_event. cbn [ni_domain_type our_node_info].
  destruct (decide (fc_domain_type (current_fork_config la) = fc_domain_type (current_fork_config lb))) as [Hd|Hd].
  - by rewrite !decide_True by (by rewrite Hd).
  - rewrite !decide_False; [done|..]; intros H%hex_encode_inj; congruence.
Qed.

End handshake.

(** ** A concrete instance *)

Module SampleHandshake.

Definition hex_digit (n : N) : Ascii.ascii :=
  Ascii.ascii_of_N (if (n <? 10)%N then 48 + n else 87 + n)%N.

Definition digit_value (c : Ascii.ascii) : option N :=
  let n := Ascii.N_of_ascii c in
  if ((48 <=? n) && (n <=? 57))%N then Some (n - 48)%N
  else if ((97 <=? n) && (n <=? 102))%N then Some (n - 87)%N else None.

Fixpoint encode_hex (bs : bytes) : string :=
  match bs with
  | [] => EmptyString
  | b :: bs => String (hex_digit (Byte.to_N b `div` 16)) (String (hex_digit (Byte.to_N b `mod` 16)) (encode_hex bs))
  end.

Fixpoint decode_hex (s : string) : option bytes :=
  match s with
  | EmptyString => Some []
  | String c (String d s) =>
      x ← digit_value c; y ← digit_value d; b ← Byte.of_N (16 * x + y); bs ← decode_hex s; Some (b :: bs)
  | _ => None
  end.

Lemma decode_encode_hex bs : decode_hex (encode_hex bs) = Some bs.
Proof.
  induction bs as [|b bs IH]; [done|]. cbn [encode_hex decode_hex]. rewrite IH. by destruct b.
Qed.

Fixpoint encode_field (bs : bytes) (rest : bytes) : bytes :=
  match bs with [] => x00 :: rest | b :: bs => x01 :: b :: encode_field bs rest end.

Fixpoint decode_field (fuel : nat) (bs : bytes) : option (bytes * bytes) :=
  match fuel with
  | O => None
  | S fuel =>
      match bs with
      | x00 :: rest => Some ([], rest)
      | _ :: b :: bs => '(field, rest) ← decode_field fuel bs; Some (b :: field, rest)
      | _ => None
      end
  end.

Lemma decode_encode_field bs rest fuel :
  length bs < fuel → decode_field fuel (encode_field bs rest) = Some (bs, rest).
Proof.
  revert fuel. induction bs as [|b bs IH]; intros [|fuel] Hf; cbn in *; try lia; [done|].
  rewrite IH by lia. done.
Qed.

Definition encode_env (e : Envelope) : bytes :=
  encode_field (ev_public_key e) (encode_field (ev_payload_type e)
    (encode_field (ev_payload e) (encode_field (ev_signature e) []))).

Definition decode_env (bs : bytes) : option Envelope :=
  let fuel := S (length bs) in
  '(k, bs) ← decode_field fuel bs; '(t, bs) ← decode_field fuel bs;
  '(p, bs) ← decode_field fuel bs; '(s, _) ← decode_field fuel bs; Some (mkEnvelope k t p s).

Lemma encode_field_length bs rest : length (encode_field bs rest) = S (2 * length bs + length rest).
Proof. induction bs as [|b bs IH]; cbn; [lia|]. rewrite IH. lia. Qed.

Lemma decode_encode_env e : decode_env (encode_env e) = Some e.
Proof.
  unfold decode_env, encode_env. set (fuel := S _).
  assert (length (ev_public_key e) < fuel ∧ length (ev_payload_type e) < fuel ∧ length (ev_payload e) < fuel ∧
    length (ev_signature e) < fuel) as (H1 & H2 & H3 & H4).
  { unfold fuel. rewrite !encode_field_length. cbn. lia. }
  rewrite decode_encode_field by done. cbn [mbind option_bind]. rewrite decode_encode_field by done.
  cbn [mbind option_bind]. rewrite decode_encode_field by done. cbn [mbind option_bind].
  rewrite decode_encode_field by done. by destruct e.
Qed.

(** The one record that the sample JSON knows. *)
Definition sample_metadata : NodeMetadata :=
  mkNodeMetadata "Anchor/v1" "geth" "lighthouse" "00000000000000000000000000000000".

Definition sample_entries : list string := [EmptyString; "0x00000001"%string; "m"%string].

#[export] Program Instance sample_handshake : HandshakeLib := {|
  hex_encode := encode_hex;
  hex_decode := decode_hex;
  metadata_to_json m := if decide (m = sample_metadata) then Some "m"%string else None;
  metadata_from_json j := if decide (j = "m"%string) then Some sample_metadata else None;
  entries_to_json l := if decide (l = sample_entries) then Some [x07] else None;
  entries_from_json j := if decide (j = [x07]) then Some sample_entries else None;
  encode_length_delimiter n := Some [];
  Keypair := unit;
  NodeKey := unit;
  public_protobuf _ := [];
  decode_protobuf _ := Some tt;
  key_sign _ _ := Some [];
  key_verify _ _ _ := true;
  encode_envelope := encode_env;
  decode_envelope := decode_env;
|}.
Next Obligation. apply decode_encode_hex. Qed.
Next Obligation. by vm_compute. Qed.
Next Obligation. intros m j. cbn. case_decide as H; [|done]. intros [= <-]. rewrite decide_True by done. by rewrite H. Qed.
Next Obligation. intros l j. cbn. case_decide as H; [|done]. intros [= <-]. rewrite decide_True by done. by rewrite H. Qed.
Next Obligation. intros k m s _. by exists tt. Qed.
Next Obligation. apply decode_encode_env. Qed.

Definition sample_lifecycle : ForkLifecycle := Normal (mkForkConfig Alan 0 [x00; x00; x00; x01]).
Definition sample_behaviour : Behaviour := mkBehaviour sample_metadata [].

Lemma handshake_completes_witness :
  ∃ request ia ib, codec_write (HL:=sample_handshake) tt (our_node_info sample_lifecycle sample_behaviour) = Ok request ∧
    codec_read request = Ok ia ∧
    hs_events (handle_request sample_lifecycle 1 ia sample_behaviour).2 = [Completed 1 ia] ∧
    hs_events (handle_response sample_lifecycle 2 ib sample_behaviour) = [Completed 2 ib].
Proof.
  destruct (codec_write (HL:=sample_handshake) tt (our_node_info sample_lifecycle sample_behaviour)) as [request| |] eqn:Hw;
    [|exfalso; revert Hw; by vm_compute..].
  assert (len request <= MAXIMUM_SIZE)%N as Hlen.
  { apply N.leb_le. revert Hw. vm_compute. by intros [= <-]. }
  destruct (handshake_completes (HL:=sample_handshake) tt tt sample_lifecycle sample_lifecycle sample_behaviour sample_behaviour
    1 2 request request Hw Hlen Hw Hlen) as (ia & ib & H1 & H2 & _ & _ & _ & H3).
  cbv zeta in H3. rewrite decide_True in H3 by done. destruct H3 as [H3 H4].
  exists request, ia, ib. by split_and!.
Defined.

End SampleHandshake.
