(* ===== verification/Network.v ===== *)
(** * The network

    [anchor/network/src/network.rs] with the parts of [discovery.rs] and [behaviour.rs] it
    drives: the handlers of the event loop on gossip topics, the node record (ENR), the
    handshake metadata and the peer manager.  What the handlers ask of libp2p (dialling,
    disconnecting, queries, publishing, reports, score parameters) is a list of actions.
    Together with the subnet service: once the network has taken the events, gossip
    subscriptions are exactly the topics of the own active committees under the forks of
    the lifecycle, and the node record, the handshake metadata and the peer search all
    name exactly the subnets of those topics. *)

From Stdlib Require Import SpecFloat.
From S2P Require Import Prelude SsvTypes ForkSchedule ValidatorRules Subnet MultiIndex NetworkState MessageRate Subscriptions PeerManager Handshake.

(** ** State *)

(** What is asked of libp2p and of the message receiver. *)
Inductive NetworkAction `{PeerLib} :=
  | Dial (opts : DialOpts)
  | Disconnect (peer_id : PeerId)
  | SubnetQuery (subnets : list SubnetId)
  | Publish (topic : string) (message : bytes)
  | ReportOutcome (message_id : bytes) (source : PeerId) (accepted : option bool)
  | SetTopicParams (subnet : SubnetId) (topic : string) (message_rate : f64)
  | Deliver (source : PeerId) (message_id : bytes) (data : bytes) (parsed : ParsedTopic)
  | RequestShutdown.

Section network.
Context {PL : PeerLib} {HL : HandshakeLib}.

Record Network := mkNetwork {
  nw_gossip : gset string;
  nw_subnet_subscription_counts : gmap SubnetId N;
  nw_enr_subnets : gset SubnetId;
  nw_enr_domain : option DomainType;
  nw_handshake : Behaviour;
  nw_peer_manager : PeerManager;
  nw_actions : list NetworkAction;
  nw_stopped : bool;
}.
#[export] Instance eta_Network : Eta Network := λ r,
  mkNetwork (nw_gossip r) (nw_subnet_subscription_counts r) (nw_enr_subnets r) (nw_enr_domain r)
    (nw_handshake r) (nw_peer_manager r) (nw_actions r) (nw_stopped r).

(** The fork schedule behind the subscription filter, libp2p's hash of a topic, whether a
    node record with the given subnets and domain fits its size limit, and whether the
    target number of peers follows the subnets. *)
Context (schedule : ForkSchedule) (topic_hash : string → string).
Context (enr_fits : gset SubnetId → option DomainType → bool).
Context (is_dynamic_target_peers : bool).

Definition act (a : NetworkAction) (n : Network) : Network := n <| nw_actions := nw_actions n ++ [a] |>.

(** [Gossipsub::subscribe] under the filter of [subscription_filter]. *)
Definition gossip_subscribe (topic : string) (n : Network) : outcome unit Network :=
  if bool_decide (topic_hash topic ∈ whitelist_topic_hashes topic_hash schedule)
  then Ok (n <| nw_gossip := {[topic]} ∪ nw_gossip n |>) else Err tt.

Definition gossip_unsubscribe (topic : string) (n : Network) : Network :=
  n <| nw_gossip := nw_gossip n ∖ {[topic]} |>.

(** [Discovery::set_subscribed]; a subnet outside the field leaves it as it is. *)
Definition discovery_set_subscribed (subnet : SubnetId) (subscribed : bool) (n : Network) : Network :=
  let subnets :=
    if (bitfield_len <=? subnet)%N then nw_enr_subnets n
    else if subscribed then {[subnet]} ∪ nw_enr_subnets n else nw_enr_subnets n ∖ {[subnet]} in
  if enr_fits subnets (nw_enr_domain n) then n <| nw_enr_subnets := subnets |> else n.

(** [Discovery::update_enr_domain_type] *)
Definition update_enr_domain_type (new_domain_type : DomainType) (n : Network) : outcome unit Network :=
  if decide (nw_enr_domain n = Some new_domain_type) then Ok n
  else if enr_fits (nw_enr_subnets n) (Some new_domain_type)
  then Ok (n <| nw_enr_domain := Some new_domain_type |>) else Err tt.

Definition update_subnet_membership (subnet : SubnetId) (subscribed : bool) (n : Network) : Network :=
  let n := discovery_set_subscribed subnet subscribed n in
  match metadata_set_subscribed subnet subscribed (hs_metadata (nw_handshake n)) with
  | Ok metadata => n <| nw_handshake := nw_handshake n <| hs_metadata := metadata |> |>
  | _ => n
  end.

Definition handle_connect_actions (connect_actions : ConnectActions) (n : Network) : Network :=
  let n := foldl (λ n peer, act (Dial peer) n) n (ca_dial connect_actions) in
  match ca_discover connect_actions with
  | [] => n
  | discover => act (SubnetQuery discover) n
  end.

(** [update_topic_score_for_subnet_with_rate] *)
Definition update_topic_score_for_subnet_with_rate (subnet : SubnetId) (topic : string) (message_rate : f64)
    (n : Network) : Network := act (SetTopicParams subnet topic message_rate) n.

(** ** Topic events *)

(** [on_topic_event], with the lifecycle the peer manager reads. *)
Definition on_topic_event (lifecycle : ForkLifecycle) (event : TopicEvent) (n : Network) : Network :=
  match event with
  | Subscribe topic subnet message_rate =>
      match gossip_subscribe topic n with
      | Ok n =>
          let n := match message_rate with
                   | Some rate => update_topic_score_for_subnet_with_rate subnet topic rate n
                   | None => n
                   end in
          let is_first := negb (bool_decide (is_Some (nw_subnet_subscription_counts n !! subnet))) in
          let n :=
            if is_first then
              let '(actions, pm) := join_subnet subnet is_dynamic_target_peers lifecycle (nw_peer_manager n) in
              let n := handle_connect_actions actions (n <| nw_peer_manager := pm |>) in
              update_subnet_membership subnet true n
            else n in
          n <| nw_subnet_subscription_counts :=
            <[subnet := (default 0 (nw_subnet_subscription_counts n !! subnet) + 1)%N]>
              (nw_subnet_subscription_counts n) |>
      | _ => n
      end
  | Unsubscribe topic subnet =>
      let n := gossip_unsubscribe topic n in
      let '(should_leave, n) :=
        match nw_subnet_subscription_counts n !! subnet with
        | Some count =>
            if (1 <? count)%N
            then (false, n <| nw_subnet_subscription_counts :=
                   <[subnet := (count - 1)%N]> (nw_subnet_subscription_counts n) |>)
            else (true, n <| nw_subnet_subscription_counts :=
                   delete subnet (nw_subnet_subscription_counts n) |>)
        | None => (false, n)
        end in
      if should_leave : bool then
        let n := n <| nw_peer_manager := leave_subnet subnet is_dynamic_target_peers (nw_peer_manager n) |> in
        update_subnet_membership subnet false n
      else n
  | RateUpdate topic message_rate =>
      match extract_subnet_id topic with
      | Some subnet => update_topic_score_for_subnet_with_rate subnet topic message_rate n
      | None => n
      end
  end.

(** ** The other handlers *)

(** [handle_outbound_message], [handle_validation_outcome]: a closed channel ends the loop. *)
Definition handle_outbound_message (event : option (string * bytes)) (n : Network) : Network :=
  match event with
  | Some (topic, message) => act (Publish topic message) n
  | None => n <| nw_stopped := true |>
  end.

Definition handle_validation_outcome (event : option (bytes * PeerId * option bool)) (n : Network) : Network :=
  match event with
  | Some (message_id, source, accepted) => act (ReportOutcome message_id source accepted) n
  | None => n <| nw_stopped := true |>
  end.

(** [on_lifecycle_changed]: a record that cannot follow the fork stops the node. *)
Definition on_lifecycle_changed (lifecycle : ForkLifecycle) (n : Network) : Network :=
  match update_enr_domain_type (fc_domain_type (current_fork_config lifecycle)) n with
  | Ok n => n
  | _ => act RequestShutdown n <| nw_stopped := true |>
  end.

(** The gossip events: messages and subscriptions of peers. *)
Inductive GossipEvent :=
  | GossipMessage (source : PeerId) (message_id : bytes) (topic : string) (data : bytes)
  | PeerSubscribed (peer_id : PeerId) (topic : string)
  | PeerUnsubscribed (peer_id : PeerId) (topic : string).

(** [handle_gossipsub_event] and [handle_gossipsub_message] *)
Definition handle_gossipsub_event (event : GossipEvent) (n : Network) : Network :=
  match event with
  | GossipMessage source message_id topic data =>
      match parse_topic_str topic with
      | Some parsed => act (Deliver source message_id data parsed) n
      | None => n
      end
  | PeerSubscribed peer_id topic =>
      match parse_topic_str topic with
      | Some parsed => n <| nw_peer_manager :=
          set_peer_subscription peer_id (pt_fork parsed) (pt_subnet_id parsed) true (nw_peer_manager n) |>
      | None => n
      end
  | PeerUnsubscribed peer_id topic =>
      match parse_topic_str topic with
      | Some parsed => n <| nw_peer_manager :=
          set_peer_subscription peer_id (pt_fork parsed) (pt_subnet_id parsed) false (nw_peer_manager n) |>
      | None => n
      end
  end.

(** [on_discovered_peers] *)
Definition on_discovered_peers (lifecycle : ForkLifecycle) (peers : list Enr) (n : Network) : Network :=
  let '(to_dial, pm) := foldl (λ '(dials, pm) enr,
        let '(dial, pm) := report_discovered_peer enr lifecycle pm in (dials ++ option_list dial, pm))
        ([], nw_peer_manager n) peers in
  foldl (λ n dial, act (Dial dial) n) (n <| nw_peer_manager := pm |>) to_dial.

(** [handle_handshake_result] *)
Definition handle_handshake_result (event : HandshakeEvent) (n : Network) : Network :=
  match event with
  | Completed peer_id their_info =>
      match ni_metadata their_info with
      | Some metadata => n <| nw_peer_manager :=
          handle_handshake_completed peer_id (nm_node_version metadata) (nw_peer_manager n) |>
      | None => n
      end
  | Failed peer_id _ => act (Disconnect peer_id) n
  end.

(** [GRAYLIST_THRESHOLD] *)
Definition GRAYLIST_THRESHOLD : f64 := SFopp (as_f64 16000).

(** [f64::total_cmp] as an order; a score is not NaN. *)
Definition score_le (a b : PeerId * f64) : Prop :=
  match SFcompare a.2 b.2 with
  | Some Gt => False
  | Some Eq => match a.2, b.2 with S754_zero false, S754_zero true => False | _, _ => True end
  | _ => True
  end.
#[export] Instance score_le_dec a b : Decision (score_le a b).
Proof. unfold score_le. destruct (SFcompare a.2 b.2) as [[]|], a.2 as [[]| | |], b.2 as [[]| | |]; apply _. Defined.

(** [check_block_and_prune_peers_by_score], from the connected peers and their scores. *)
Definition check_block_and_prune_peers_by_score (now : N) (connected : list (PeerId * option f64))
    (n : Network) : Network :=
  let peer_scores := omap (λ p, pair p.1 <$> p.2) connected in
  let peers_to_block_and_disconnect := (filter (λ p, SFltb p.2 GRAYLIST_THRESHOLD = true) peer_scores).*1 in
  let target := cm_target_peers (pm_connection_manager (nw_peer_manager n)) in
  let excess := (len connected - target)%N in
  let n := foldl (λ n peer_id,
        act (Disconnect peer_id) (n <| nw_peer_manager := block_peer now peer_id (nw_peer_manager n) |>))
        n peers_to_block_and_disconnect in
  if (0 <? excess)%N then
    let to_disconnect := take (N.to_nat excess)
      (filter (λ p, p.1 ∉ peers_to_block_and_disconnect) (merge_sort score_le peer_scores)) in
    foldl (λ n p, act (Disconnect p.1) n) n to_disconnect
  else n.

(** The heartbeat of the peer manager and [handle_peer_manager_heartbeat]. *)
Definition handle_peer_manager_heartbeat (now : N) (lifecycle : ForkLifecycle)
    (connected : list (PeerId * option f64)) (n : Network) : Network :=
  let '(connect_actions, pm) := heartbeat now lifecycle (nw_peer_manager n) in
  let n := n <| nw_peer_manager := pm |> in
  let n := match connect_actions with Some actions => handle_connect_actions actions n | None => n end in
  let n := check_block_and_prune_peers_by_score now connected n in
  let cm := pm_connection_manager (nw_peer_manager n) in
  let needed_subnets := elements (pm_needed_subnets (nw_peer_manager n)) in
  let n :=
    if (N.of_nat (size (cm_connected cm)) <? cm_target_peers cm)%N then
      match needed_subnets with [] => n | _ => act (SubnetQuery needed_subnets) n end
    else n in
  match needed_subnets with
  | [] => n
  | _ => foldl (λ n peer_id, act (Disconnect peer_id) n) n
           (peers_to_disconnect_due_to_subnets lifecycle (nw_peer_manager n))
  end.

(** ** The loop *)

Inductive NetworkEvent :=
  | TopicArrives (lifecycle : ForkLifecycle) (event : TopicEvent)
  | OutboundMessage (event : option (string * bytes))
  | ValidationOutcome (event : option (bytes * PeerId * option bool))
  | LifecycleArrives (lifecycle : ForkLifecycle)
  | GossipArrives (event : GossipEvent)
  | PeersDiscovered (lifecycle : ForkLifecycle) (peers : list Enr)
  | HandshakeEnds (event : HandshakeEvent)
  | HeartbeatTick (now : N) (lifecycle : ForkLifecycle) (connected : list (PeerId * option f64))
  | ConnectionChanges (event : SwarmEvent).

Definition network_event (n : Network) (e : NetworkEvent) : Network :=
  if nw_stopped n then n
  else
    match e with
    | TopicArrives lifecycle event => on_topic_event lifecycle event n
    | OutboundMessage event => handle_outbound_message event n
    | ValidationOutcome event => handle_validation_outcome event n
    | LifecycleArrives lifecycle => on_lifecycle_changed lifecycle n
    | GossipArrives event => handle_gossipsub_event event n
    | PeersDiscovered lifecycle peers => on_discovered_peers lifecycle peers n
    | HandshakeEnds event => handle_handshake_result event n
    | HeartbeatTick now lifecycle connected => handle_peer_manager_heartbeat now lifecycle connected n
    | ConnectionChanges event => n <| nw_peer_manager := on_swarm_event event (nw_peer_manager n) |>
    end.

(** A new network: a fresh node record with the domain of the lifecycle at start
    ([build_enr], [reconcile_enr_domain]) and metadata without subnets. *)
Definition network_new (lifecycle : ForkLifecycle) (node_version : string) (pm : PeerManager) : Network :=
  {| nw_gossip := ∅;
     nw_subnet_subscription_counts := ∅;
     nw_enr_subnets := ∅;
     nw_enr_domain := Some (fc_domain_type (current_fork_config lifecycle));
     nw_handshake := mkBehaviour (mkNodeMetadata node_version "geth/v1.10.8" "lighthouse/v1.5.0"
                                    "00000000000000000000000000000000") [];
     nw_peer_manager := pm;
     nw_actions := [];
     nw_stopped := false |}.

(** [subnet_predicate] of the discovery queries. *)
Definition subnet_predicate (subnets : list SubnetId) (enr : Enr) : bool :=
  match committee_bitfield enr with
  | None => false
  | Some bitfield => existsb (λ s, bool_decide (s ∈ bitfield)) subnets
  end.

(** ** What topics touch *)

(** The parts of the state that only topic events change. *)
Definition topic_view (n : Network) :=
  (nw_gossip n, nw_subnet_subscription_counts n, nw_enr_subnets n, hs_metadata (nw_handshake n),
   pm_needed_subnets (nw_peer_manager n)).

Lemma foldl_view {A} (f : Network → A → Network) l n :
  (∀ n x, topic_view (f n x) = topic_view n) → topic_view (foldl f n l) = topic_view n.
Proof. intros Hf. revert n. induction l as [|x l IH]; intros n; cbn; [done|]. by rewrite IH, Hf. Qed.

Lemma connect_actions_view a n : topic_view (handle_connect_actions a n) = topic_view n.
Proof.
  unfold handle_connect_actions. destruct (ca_discover a); [|change (topic_view (act ?x ?y)) with (topic_view y)];
    by apply foldl_view.
Qed.

Lemma discovered_view lifecycle peers n : topic_view (on_discovered_peers lifecycle peers n) = topic_view n.
Proof.
  unfold on_discovered_peers.
  assert (∀ dials pm, pm_needed_subnets (foldl (λ '(dials, pm) enr,
        let '(dial, pm) := report_discovered_peer enr lifecycle pm in (dials ++ option_list dial, pm))
        (dials, pm) peers).2 = pm_needed_subnets pm) as H.
  { induction peers as [|enr peers IH]; intros dials pm; cbn [foldl]; [done|].
    unfold report_discovered_peer at 2. destruct (process_discovered_peer _ _ _ _ _ _). by rewrite IH. }
  specialize (H [] (nw_peer_manager n)). destruct (foldl _ _ peers) as [to_dial pm]. cbn [snd] in H.
  rewrite foldl_view by done. unfold topic_view. unfold setter. cbn. by rewrite H.
Qed.

Lemma prune_view now connected n :
  topic_view (check_block_and_prune_peers_by_score now connected n) = topic_view n.
Proof.
  unfold check_block_and_prune_peers_by_score. destruct (0 <? _)%N; [rewrite foldl_view by done|];
    by apply foldl_view.
Qed.

Lemma heartbeat_view now lifecycle connected n :
  topic_view (handle_peer_manager_heartbeat now lifecycle connected n) = topic_view n.
Proof.
  unfold handle_peer_manager_heartbeat, heartbeat.
  set (n1 := n <| nw_peer_manager := _ |>).
  set (n2 := match check_subnet_peers _ _ _ _ _ with Some _ => _ | None => n1 end).
  assert (topic_view n2 = topic_view n) as H2.
  { unfold n2. destruct (check_subnet_peers _ _ _ _ _); [by rewrite connect_actions_view|done]. }
  rewrite <- H2, <- (prune_view now connected n2).
  set (n3 := check_block_and_prune_peers_by_score now connected n2).
  destruct (elements _); [by destruct (_ <? _)%N|]. rewrite foldl_view by done. by destruct (_ <? _)%N.
Qed.

(** Events other than topic events leave them alone. *)
Lemma other_event_view n e :
  (∀ l t, e ≠ TopicArrives l t) → topic_view (network_event n e) = topic_view n.
Proof.
  intros He. unfold network_event. destruct (nw_stopped n); [done|]. destruct e as [l t|ev|ev|l|ev|l ps|ev|now l cs|ev].
  - by destruct (He l t).
  - by destruct ev as [[]|].
  - by destruct ev as [[[]]|].
  - unfold on_lifecycle_changed, update_enr_domain_type. case_decide; [done|]. by destruct (enr_fits _ _).
  - destruct ev; cbn; by destruct (parse_topic_str _).
  - apply discovered_view.
  - destruct ev as [p i|p]; [|done]. cbn. by destruct (ni_metadata i).
  - apply heartbeat_view.
  - done.
Qed.

Lemma stopped_event n e : nw_stopped n = true → network_event n e = n.
Proof. unfold network_event. by intros ->. Qed.

Lemma join_needed s dyn l pm : pm_needed_subnets (join_subnet s dyn l pm).2 = {[s]} ∪ pm_needed_subnets pm.
Proof. unfold join_subnet, retarget. by destruct dyn. Qed.

Lemma leave_needed s dyn pm : pm_needed_subnets (leave_subnet s dyn pm) = pm_needed_subnets pm ∖ {[s]}.
Proof. unfold leave_subnet, retarget. by destruct dyn. Qed.

(** ** Following the topics *)

(** How many topics of a subnet there are. *)
Definition topics_on (X : gset (string * SubnetId)) (s : SubnetId) : nat := size (filter (λ p, p.2 = s) X).

Definition subnets_of (X : gset (string * SubnetId)) : gset SubnetId := set_map snd X.

(** The node record has room for what it is asked to hold. *)
Definition record_has_room : Prop := ∀ X d, enr_fits X d = true.

(** The state is that of the topics told; the node record follows if it has room. *)
Record follows (X : gset (string * SubnetId)) (n : Network) : Prop := {
  fo_gossip : nw_gossip n = set_map fst X;
  fo_counts : ∀ s, nw_subnet_subscription_counts n !! s =
    match topics_on X s with O => None | S k => Some (N.of_nat (S k)) end;
  fo_enr : record_has_room → nw_enr_subnets n = subnets_of X;
  fo_needed : pm_needed_subnets (nw_peer_manager n) = subnets_of X;
  fo_metadata : metadata_names (hs_metadata (nw_handshake n)) (subnets_of X);
}.

Lemma follows_view X n n' : topic_view n' = topic_view n → follows X n → follows X n'.
Proof.
  unfold topic_view. intros [= E1 E2 E3 E4 E5] [H1 H2 H3 H4 H5].
  split; rewrite ?E1, ?E2, ?E3, ?E4, ?E5; done.
Qed.

Lemma topics_on_insert X t s x :
  (t, s) ∉ X → topics_on ({[(t, s)]} ∪ X) x = (if decide (x = s) then 1 else 0) + topics_on X x.
Proof.
  intros Hn. unfold topics_on. case_decide as Hx; subst.
  - assert (filter (λ p, p.2 = s) ({[(t, s)]} ∪ X) = {[(t, s)]} ∪ filter (λ p, p.2 = s) X) as -> by set_solver.
    rewrite size_union, size_singleton; [done|]. set_solver.
  - f_equal. assert (filter (λ p, p.2 = x) ({[(t, s)]} ∪ X) = filter (λ p, p.2 = x) X) as -> by set_solver. done.
Qed.

Lemma topics_on_delete X t s x :
  (t, s) ∈ X → topics_on X x = (if decide (x = s) then 1 else 0) + topics_on (X ∖ {[(t, s)]}) x.
Proof.
  intros Hin. rewrite <- (topics_on_insert (X ∖ {[(t, s)]}) t s x) by set_solver.
  f_equal. by rewrite <- union_difference_singleton_L.
Qed.

Lemma elem_of_subnets_of X s : s ∈ subnets_of X ↔ ∃ t, (t, s) ∈ X.
Proof.
  unfold subnets_of. rewrite elem_of_map. split; [intros ([t s'] & -> & ?); by exists t|].
  intros (t & ?). by exists (t, s).
Qed.

Lemma topics_on_zero X s : topics_on X s = 0 ↔ s ∉ subnets_of X.
Proof.
  unfold topics_on. rewrite elem_of_subnets_of. split.
  - intros He%size_empty_inv (t & Ht). apply (not_elem_of_empty (C:=gset (string * SubnetId)) (t, s)), He. by apply elem_of_filter.
  - intros Hn. apply size_empty_iff. intros [t s']. split; [|done].
    intros [Hs Hx]%elem_of_filter. cbn in Hs. subst. destruct Hn. eauto.
Qed.

(** The membership of a subnet changes in the record, the metadata and the search. *)
Lemma membership_ok s on n X :
  (s < SUBNET_COUNT)%N →
  (record_has_room → nw_enr_subnets n = X) → metadata_names (hs_metadata (nw_handshake n)) X →
  let n' := update_subnet_membership s on n in
  let X' := if on then {[s]} ∪ X else X ∖ {[s]} in
  nw_gossip n' = nw_gossip n ∧ nw_subnet_subscription_counts n' = nw_subnet_subscription_counts n ∧
  nw_peer_manager n' = nw_peer_manager n ∧
  (record_has_room → nw_enr_subnets n' = X') ∧ metadata_names (hs_metadata (nw_handshake n')) X'.
Proof.
  intros Hs HX Hm. unfold update_subnet_membership, discovery_set_subscribed.
  destruct (N.leb_spec bitfield_len s) as [Hle|_]; [unfold SUBNET_COUNT, bitfield_len in *; lia|].
  destruct (metadata_set_subscribed_spec _ _ s on Hm Hs) as (m & Hset & _ & Hm').
  set (n1 := if enr_fits _ _ then _ else n).
  assert (hs_metadata (nw_handshake n1) = hs_metadata (nw_handshake n)) as -> by (unfold n1; by destruct (enr_fits _ _)).
  rewrite Hset. unfold n1. split_and!; [by destruct (enr_fits _ _)..| |done].
  intros Hfit. rewrite Hfit, <- (HX Hfit). by destruct on.
Qed.

Lemma follows_subscribe l X t s rate n :
  follows X n →
  topic_hash t ∈ whitelist_topic_hashes topic_hash schedule → (s < SUBNET_COUNT)%N → (t, s) ∉ X →
  follows ({[(t, s)]} ∪ X) (on_topic_event l (Subscribe t s rate) n).
Proof.
  intros [H1 H2 H3 H4 H5] Hw Hs Hn. cbn [on_topic_event]. unfold gossip_subscribe. rewrite bool_decide_true by done.
  set (n1 := match rate with Some _ => _ | None => _ end).
  assert (topic_view n1 = ({[t]} ∪ nw_gossip n, nw_subnet_subscription_counts n, nw_enr_subnets n,
    hs_metadata (nw_handshake n), pm_needed_subnets (nw_peer_manager n))) as Hv by by destruct rate.
  injection Hv as V1 V2 V3 V4 V5. rewrite V2, (H2 s).
  set (n2 := if negb _ then _ else n1).
  assert (nw_gossip n2 = {[t]} ∪ nw_gossip n ∧ nw_subnet_subscription_counts n2 = nw_subnet_subscription_counts n ∧
    pm_needed_subnets (nw_peer_manager n2) = subnets_of ({[(t, s)]} ∪ X) ∧
    (record_has_room → nw_enr_subnets n2 = subnets_of ({[(t, s)]} ∪ X)) ∧
    metadata_names (hs_metadata (nw_handshake n2)) (subnets_of ({[(t, s)]} ∪ X))) as (K1 & K2 & K3 & K4 & K5).
  { assert (subnets_of ({[(t, s)]} ∪ X) = {[s]} ∪ subnets_of X) as HX.
    { unfold subnets_of. by rewrite set_map_union_L, set_map_singleton_L. }
    rewrite HX. unfold n2. pose proof (topics_on_zero X s) as Hz. destruct (topics_on X s) as [|k];
      [rewrite bool_decide_false by (by intros [? ?])|rewrite bool_decide_true by done]; cbn [negb].
    - pose proof (join_needed s is_dynamic_target_peers l (nw_peer_manager n1)) as Hj.
      destruct (join_subnet s is_dynamic_target_peers l (nw_peer_manager n1)) as [actions pm]. cbn [snd] in Hj.
      set (n3 := n1 <| nw_peer_manager := pm |>).
      pose proof (connect_actions_view actions n3) as Hc. unfold topic_view in Hc. injection Hc as C1 C2 C3 C4 C5.
      destruct (membership_ok s true (handle_connect_actions actions n3) (subnets_of X) Hs) as (M1 & M2 & M3 & M4 & M5).
      { by rewrite C3, V3. } { rewrite C4. change (metadata_names (hs_metadata (nw_handshake n1)) (subnets_of X)). by rewrite V4. }
      rewrite M1, M2, M3, C1, C2, C5. split_and!; [done|done| |done|done]. cbn. by rewrite Hj, V5, H4.
    - assert (s ∈ subnets_of X) as Hin by (destruct (decide (s ∈ subnets_of X)) as [|Hx%Hz]; done).
      assert ({[s]} ∪ subnets_of X = subnets_of X) as ->
        by by apply subseteq_union_1_L, singleton_subseteq_l. rewrite V5, V4, V3, V2, V1. by split_and!. }
  split; try done.
  - unfold setter. cbn. rewrite K1, H1, set_map_union_L, set_map_singleton_L. done.
  - intros x. unfold setter. cbn [nw_subnet_subscription_counts]. rewrite K2, topics_on_insert by done.
    destruct (decide (x = s)) as [->|Hne]; [rewrite lookup_insert_eq, H2|rewrite lookup_insert_ne, H2 by done; done].
    destruct (topics_on X s); cbn; f_equal; lia.
Qed.

Lemma topics_without (X : gset (string * SubnetId)) t s :
  (∀ s', (t, s') ∈ X → s' = s) → (set_map fst (X ∖ {[(t, s)]}) : gset string) = set_map fst X ∖ {[t]}.
Proof.
  intros Hfun. apply set_eq. intros t'. rewrite elem_of_difference, elem_of_singleton, !elem_of_map.
  setoid_rewrite elem_of_difference. setoid_rewrite elem_of_singleton. split.
  - intros ([t1 s1] & -> & Hx & Hne). split; [by exists (t1, s1)|]. intros Ht. cbn in Ht. subst. apply Hne.
    by rewrite (Hfun s1 Hx).
  - intros [([t1 s1] & -> & Hx) Hne]. exists (t1, s1). split; [done|]. split; [done|]. by intros [= -> _].
Qed.

Lemma subnets_without X t s :
  subnets_of (X ∖ {[(t, s)]}) =
    if decide (topics_on (X ∖ {[(t, s)]}) s = 0) then subnets_of X ∖ {[s]} else subnets_of X.
Proof.
  pose proof (topics_on_zero (X ∖ {[(t, s)]}) s) as Hz. apply set_eq. intros x. case_decide as Hk.
  - apply Hz in Hk. rewrite elem_of_difference, elem_of_singleton, !elem_of_subnets_of in *. split.
    + intros (t' & Ht'). split; [exists t'; set_solver|]. intros ->. apply Hk. by exists t'.
    + intros [(t' & Ht') Hne]. exists t'. set_solver.
  - assert (s ∈ subnets_of (X ∖ {[(t, s)]})) as (t0 & Ht0)%elem_of_subnets_of
      by (destruct (decide (s ∈ subnets_of (X ∖ {[(t, s)]}))) as [|Hn%Hz]; done).
    rewrite !elem_of_subnets_of. split; intros (t' & Ht'); [exists t'; set_solver|].
    destruct (decide (x = s)) as [->|Hne]; [by exists t0|]. exists t'. set_solver.
Qed.

Lemma follows_unsubscribe l X t s n :
  follows X n → (s < SUBNET_COUNT)%N → (t, s) ∈ X →
  (∀ s', (t, s') ∈ X → s' = s) →
  follows (X ∖ {[(t, s)]}) (on_topic_event l (Unsubscribe t s) n).
Proof.
  intros [H1 H2 H3 H4 H5] Hs Hin Hfun. cbn [on_topic_event].
  set (n1 := gossip_unsubscribe t n).
  change (nw_subnet_subscription_counts n1) with (nw_subnet_subscription_counts n).
  assert (nw_gossip n ∖ {[t]} = set_map fst (X ∖ {[(t, s)]})) as Hg by by rewrite H1, topics_without.
  pose proof (λ x, topics_on_delete X t s x Hin) as Hd. rewrite (H2 s), (Hd s), decide_True by done.
  cbn [Nat.add]. set (k := topics_on (X ∖ {[(t, s)]}) s).
  pose proof (subnets_without X t s) as HX. fold k in HX.
  destruct (N.ltb_spec 1 (N.of_nat (S k))) as [Hk|Hk].
  - rewrite decide_False in HX by lia. split; unfold setter; cbn; rewrite ?HX; try done.
    intros x. destruct (decide (x = s)) as [->|Hne].
    + rewrite lookup_insert_eq. fold k. destruct k; [lia|]. f_equal. lia.
    + rewrite lookup_insert_ne, H2, (Hd x), decide_False by done. done.
  - rewrite decide_True in HX by lia.
    set (n2 := n1 <| nw_subnet_subscription_counts := delete s (nw_subnet_subscription_counts n) |>).
    set (n3 := n2 <| nw_peer_manager := leave_subnet s is_dynamic_target_peers (nw_peer_manager n2) |>).
    destruct (membership_ok s false n3 (subnets_of X) Hs H3 H5) as (M1 & M2 & M3 & M4 & M5).
    split; rewrite ?M1, ?M2, ?M3, ?HX; try done.
    + intros x. change (delete s (nw_subnet_subscription_counts n) !! x = match topics_on (X ∖ {[(t, s)]}) x with
        0 => None | S k => Some (N.of_nat (S k)) end). destruct (decide (x = s)) as [->|Hne].
      * rewrite lookup_delete_eq. fold k. by destruct k; [|lia].
      * rewrite lookup_delete_ne, H2, (Hd x), decide_False by done. done.
    + change (pm_needed_subnets (leave_subnet s is_dynamic_target_peers (nw_peer_manager n)) = subnets_of X ∖ {[s]}).
      by rewrite leave_needed, H4.
Qed.

Lemma follows_new lifecycle version pm : pm_needed_subnets pm = ∅ → follows ∅ (network_new lifecycle version pm).
Proof.
  intros Hpm. split; cbn; try done. by apply metadata_names_zeros.
Qed.

End network.

(** ** The subnet service and the network together *)

Section together.
Context {PL : PeerLib} {HL : HandshakeLib} {C : Crypto} {HO : HashOrder}.
Context (powf : f64 → f64 → f64) (sv : SubnetService) (topic_hash : string → string).
Context (enr_fits : gset SubnetId → option DomainType → bool) (dynamic : bool).

Definition net_event : Network → NetworkEvent → Network :=
  network_event (tr_fork_schedule (sv_router sv)) topic_hash enr_fits dynamic.

(** The topic events among the events of the loop. *)
Definition topic_part (e : NetworkEvent) : option TopicEvent :=
  match e with TopicArrives _ t => Some t | _ => None end.

Lemma told_snoc l e :
  told (l ++ [e]) = match event_entry e with Some x => entry_step (told l) x | None => told l end.
Proof.
  unfold told. rewrite omap_app, foldl_app. cbn [omap list_omap]. by destruct (event_entry e).
Qed.

Lemma stopped_run n nes : nw_stopped n = true → foldl net_event n nes = n.
Proof.
  intros Hs. induction nes as [|e nes IH]; [done|]. cbn [foldl]. unfold net_event at 2.
  by rewrite stopped_event.
Qed.

(** The topics told are those of scheduled forks. *)
Definition topics_known (X : gset (string * SubnetId)) : Prop :=
  ∀ t s, (t, s) ∈ X → ∃ f, (s < SUBNET_COUNT)%N ∧ t = fork_topic sv f s.

Lemma topic_event_follows n l e X Y :
  follows enr_fits X n → topics_known X → event_wf sv e →
  match event_entry e with Some x => entry_step (Some X) x | None => Some X end = Some Y →
  follows enr_fits Y (on_topic_event (tr_fork_schedule (sv_router sv)) topic_hash enr_fits dynamic l e n) ∧ topics_known Y.
Proof.
  intros Hn HX He Hstep. destruct e as [t s rate|t s|t rate]; cbn [event_entry] in Hstep.
  - destruct He as (f & Hf & Hs & ->). cbn [entry_step mbind option_bind fst snd] in Hstep.
    case_decide as Hin; [done|]. injection Hstep as <-. split.
    + apply follows_subscribe; [done| |done|done]. apply elem_of_whitelist. by exists f, s.
    + intros t' s' [[= -> ->]%elem_of_singleton|?]%elem_of_union; [by exists f|by apply HX].
  - destruct He as (f & Hf & Hs & ->). cbn [entry_step mbind option_bind fst snd] in Hstep.
    case_decide as Hin; [|done]. injection Hstep as <-. split.
    + apply follows_unsubscribe; [done..|]. intros s' (f' & Hs' & Ht)%HX. symmetry. by eapply fork_topic_subnet.
    + intros t' s' [? _]%elem_of_difference. by apply HX.
  - injection Hstep as <-. split; [|done]. cbn [on_topic_event].
    destruct (extract_subnet_id t); [by eapply follows_view; [|exact Hn]|done].
Qed.

Lemma network_follows n0 nes X :
  follows enr_fits ∅ n0 →
  Forall (event_wf sv) (omap topic_part nes) → told (omap topic_part nes) = Some X →
  nw_stopped (foldl net_event n0 nes) = false →
  follows enr_fits X (foldl net_event n0 nes) ∧ topics_known X.
Proof.
  intros H0. revert X. induction nes as [|e nes IH] using rev_ind; intros X Hwf Ht Hst.
  { injection Ht as <-. split; [done|]. by intros t s ?%elem_of_empty. }
  rewrite omap_app in Hwf, Ht. apply Forall_app in Hwf as [Hwf He]. rewrite foldl_app in *. cbn [foldl] in *.
  set (n := foldl net_event n0 nes) in *.
  assert (nw_stopped n = false) as Hn.
  { destruct (nw_stopped n) eqn:E; [|done]. unfold net_event in Hst. rewrite stopped_event in Hst; congruence. }
  destruct (topic_part e) as [te|] eqn:Hp; cbn [omap list_omap] in He, Ht; rewrite Hp in He, Ht.
  - destruct e as [l te'| | | | | | | |]; try done. injection Hp as ->. apply Forall_cons_1 in He as [He _].
    rewrite told_snoc in Ht. destruct (told (omap topic_part nes)) as [Y|] eqn:HY; [|by destruct (event_entry te)].
    destruct (IH Y Hwf eq_refl Hn) as [HfY HkY]. unfold net_event at 1, network_event. rewrite Hn.
    by apply (topic_event_follows n l te Y).
  - rewrite app_nil_r in Ht. destruct (IH X Hwf Ht Hn) as [HfX HkX]. split; [|done].
    eapply follows_view; [|exact HfX]. apply other_event_view. intros l t ->. done.
Qed.

(** C34: a node is where its committees talk.  Let the subnet service run from its start
    beside any writes of the database, published lifecycles of the schedule and other
    events, and let the network take the events it was sent, among any others.  Consider a
    moment when the service has no pending notification, the network has taken all events,
    both still run, and no own cluster that is not liquidated is without members.  Then
    gossip is subscribed to exactly the topics of the own clusters that are not liquidated
    (or of all subnets, if so configured) under the forks of the lifecycle; the search for
    peers and the handshake metadata name exactly the subnets of these topics, and so does
    the node record if none of its updates ran out of room.  For every such cluster
    and any slot of a fork of the lifecycle, the topic on which the committee's messages of
    that slot are published is among them; if the fork is Alan, this needs the members
    of the cluster to be stored in increasing order, which the code does not check. *)
Theorem subscriptions_reach_network w0 es lifecycle version pm nes :
  let w := service_run powf sv w0 es in
  let n := foldl net_event (network_new lifecycle version pm) nes in
  starts sv w0 es → quiet sv w → w_listening w = true →
  (∀ c, active_cluster (w_db w) c → cl_cluster_members c ≠ []) →
  pm_needed_subnets pm = ∅ → omap topic_part nes = w_events w → nw_stopped n = false →
  let listening f s := f ∈ forks_of (w_lifecycle w) ∧ target_subnet sv (w_db w) f s in
  (∀ t, t ∈ nw_gossip n ↔ ∃ f s, listening f s ∧ t = fork_topic sv f s) ∧
  (∀ s, s ∈ pm_needed_subnets (nw_peer_manager n) ↔ ∃ f, listening f s) ∧
  metadata_names (hs_metadata (nw_handshake n)) (pm_needed_subnets (nw_peer_manager n)) ∧
  (record_has_room enr_fits → nw_enr_subnets n = pm_needed_subnets (nw_peer_manager n)) ∧
  (∀ c slot f, active_cluster (w_db w) c → (f = Alan → StronglySorted N.le (cl_cluster_members c)) →
     active_fork_at_slot (sv_router sv) slot = Some f → f ∈ forks_of (w_lifecycle w) →
     ∃ subnet t, subnet_for_committee_with_operators_at_slot sha256 (sv_router sv)
         (committee_id_of_vec sha256 (cl_cluster_members c)) (cl_cluster_members c) slot = Ok subnet ∧
       topic_for_subnet_at_slot (sv_router sv) subnet slot = Some t ∧ t ∈ nw_gossip n).
Proof.
  intros w n Hst Hq Hl Hne Hpm Hev Hs listening.
  pose proof (service_run_ok powf sv w0 es (sa_events _ _ _ Hst)) as Hok. fold w in Hok.
  pose proof (service_run_wf powf sv w0 es Hst) as Hwf. fold w in Hwf.
  pose proof (quiet_topics sv w Hok Hl Hq Hne) as Hquiet.
  assert (follows enr_fits (tracked sv (st_forks (w_state w))) n) as [H1 H2 H3 H4 H5].
  { apply network_follows; [by apply follows_new| | |done]; rewrite Hev;
      [by apply (ww_events _ _ Hwf)|by apply (so_told _ _ Hok)]. }
  assert (∀ t, t ∈ nw_gossip n ↔ ∃ f s, listening f s ∧ t = fork_topic sv f s) as Hg.
  { intros t. rewrite H1, elem_of_map. split.
    - intros ([t' s] & -> & (f & ? & ? & ->)%Hquiet). by exists f, s.
    - intros (f & s & [? ?] & ->). exists (fork_topic sv f s, s). split; [done|]. apply Hquiet. eauto. }
  split_and!; [done| |by rewrite H4|by rewrite H4|].
  - intros s. rewrite H4, elem_of_subnets_of. setoid_rewrite Hquiet. unfold listening. naive_solver.
  - intros c slot f Hc Hsort Hf Hlf.
    destruct (subscribed_subnet_is_routed sha256 (sv_router sv) (cl_cluster_members c) slot f Hf (Hne c Hc) Hsort)
      as (subnet & Hsub & Hroute & Hlt).
    exists subnet, (fork_topic sv f subnet). split; [done|]. split.
    + unfold topic_for_subnet_at_slot, topic_for_subnet_at_epoch, active_fork_at_slot, active_fork in *.
      destruct (active_fork_config _ _) as [config|]; [|done]. cbn in Hf |- *. injection Hf as <-. done.
    + apply Hg. exists f, subnet. split; [|done]. split; [done|]. unfold target_subnet.
      destruct (sv_subscribe_all_subnets sv); [done|]. by exists c.
Qed.

End together.

(** ** A concrete instance *)

Module SampleNetwork.
Import SampleHandshake SampleRules.

#[export] Program Instance sample_order : HashOrder :=
  {| subnet_order s := elements s; fork_order s := elements s |}.
Next Obligation. done. Qed.
Next Obligation. done. Qed.

(** Records without peers. *)
#[export] Program Instance sample_peers : PeerLib :=
  {| Enr := unit; Multiaddr := unit; enr_peer_id _ := 0%N; committee_bitfield _ := None;
     dialable_multiaddrs _ := []; Store := unit; get_custom_data _ _ := None;
     insert_custom_data _ _ s := s; new_external_addr _ _ s := s; addresses_of_peer _ _ := [];
     record_iter _ := []; shuffle l := l |}.
Next Obligation. done. Qed.

Definition sample_service : SubnetService :=
  mkSubnetService false false SampleRate.mainnet sample_router.

Definition warm_up : ForkLifecycle :=
  WarmUp (mkForkConfig Alan 0 [x00; x00; x00; x01]) (mkForkConfig Boole 100 [x00; x00; x00; x02]).

Definition sample_cluster : Cluster := mkCluster 7 1 1 false [1; 2; 3; 4]%N.

(** The database before and after our first cluster. *)
Definition empty_db : NetworkState :=
  mkNetworkState (mkMultiState mi_new mi_new mi_new) (mkSingleState (Some 1%N) 0 ∅ ∅ ∅ None).
Definition cluster_db : NetworkState :=
  mkNetworkState (mkMultiState mi_new mi_new (cluster_insert 7 [] 1 [] sample_cluster mi_new))
    (mkSingleState (Some 1%N) 0 ∅ {[7%N]} ∅ None).

Definition start : World :=
  mkWorld (mkServiceState ∅ Alan) empty_db false true warm_up false true true [] [] false.

Definition sample_events : list ServiceEvent := [Others (DbWrite cluster_db); Iterate DbChanged].

Definition sample_world : World := service_run (λ b _, b) sample_service start sample_events.

Definition sample_network_events : list NetworkEvent := TopicArrives warm_up <$> w_events sample_world.

Definition sample_manager : PeerManager := peer_manager_new (PL:=sample_peers) tt None 384000000000.

Definition sample_network : Network :=
  foldl (net_event sample_service id (λ _ _, true) true)
    (network_new warm_up "Anchor/v1" sample_manager) sample_network_events.

Lemma sample_starts : starts sample_service start sample_events.
Proof.
  split; [done| |constructor|by repeat constructor]. intros f Hf. unfold scheduled.
  destruct f; vm_compute; by eexists.
Qed.

Lemma sample_db : w_db sample_world = cluster_db.
Proof. by vm_compute. Qed.

Lemma sample_clusters c : active_cluster (w_db sample_world) c ↔ c = sample_cluster.
Proof.
  rewrite sample_db. split.
  - intros (cid & Hin & Hget & _). change (cid ∈ ({[7%N]} : gset N)) in Hin. apply elem_of_singleton in Hin as ->.
    vm_compute in Hget. by injection Hget as <-.
  - intros ->. exists 7%N. split; [by apply elem_of_singleton|]. split; [by vm_compute|done].
Qed.

Lemma subscriptions_reach_network_witness :
  nw_enr_subnets sample_network = pm_needed_subnets (nw_peer_manager sample_network) ∧
  metadata_names (hs_metadata (nw_handshake sample_network)) (pm_needed_subnets (nw_peer_manager sample_network)) ∧
  ∃ subnet t, subnet_for_committee_with_operators_at_slot id sample_router
      (committee_id_of_vec id [1; 2; 3; 4]%N) [1; 2; 3; 4]%N 64 = Ok subnet ∧
    topic_for_subnet_at_slot sample_router subnet 64 = Some t ∧ t ∈ nw_gossip sample_network.
Proof.
  destruct (subscriptions_reach_network (PL:=sample_peers) (λ b _, b) sample_service id (λ _ _, true) true
    start sample_events warm_up "Anchor/v1" sample_manager sample_network_events)
    as (_ & _ & H3 & H4 & H5).
  - exact sample_starts.
  - by vm_compute.
  - by vm_compute.
  - intros c ->%sample_clusters. done.
  - done.
  - by vm_compute.
  - by vm_compute.
  - split; [exact (H4 (λ _ _, eq_refl))|]. split; [exact H3|]. apply (H5 sample_cluster 64%N Alan); clear H3 H4 H5.
    + exact (proj2 (sample_clusters _) eq_refl).
    + intros _. repeat constructor; by vm_compute.
    + by vm_compute.
    + by vm_compute.
Defined.

End SampleNetwork.
