(* ===== verification/BeaconTypes.v ===== *)
(** * Beacon chain types

    What the code uses of the consensus client's crates [types], [eth2],
    [slashing_protection] and [slot_clock], none of which is part of the repository: the
    forks and their order, the plain containers whose fields the code reads or writes, the
    domains, and, as interfaces, the opaque containers with their SSZ decoders
    ([BeaconLib]) and the slashing protection database ([SlashingLib]).  [SlashingLaws]
    states the documented behaviour of that database; [SampleSlashing] shows that it can
    hold. *)

From S2P Require Import Prelude SsvTypes ValidatorRules.

(** ** Forks *)

Module ForkName.
Inductive ForkName :=
  | Base | Altair | Bellatrix | Capella | Deneb | Electra | Fulu | Gloas | Heze.

#[global] Instance ForkName_eq_dec : EqDecision ForkName.
Proof. solve_decision. Defined.

(** The derived order. *)
Definition index (f : ForkName) : N :=
  match f with
  | Base => 0 | Altair => 1 | Bellatrix => 2 | Capella => 3 | Deneb => 4
  | Electra => 5 | Fulu => 6 | Gloas => 7 | Heze => 8
  end.
Definition ge (f g : ForkName) : bool := (index g <=? index f)%N.
Definition gloas_enabled (f : ForkName) : bool := ge f Gloas.
End ForkName.
Abbreviation ForkName := ForkName.ForkName (only parsing).

(** ** Containers *)

Record Checkpoint := mkCheckpoint { cp_epoch : Epoch; cp_root : Hash256 }.
#[export] Instance Checkpoint_eq_dec : EqDecision Checkpoint.
Proof. solve_decision. Defined.

Record AttestationData := mkAttestationData {
  ad_slot : Slot;
  ad_index : N;
  ad_beacon_block_root : Hash256;
  ad_source : Checkpoint;
  ad_target : Checkpoint;
}.
#[export] Instance AttestationData_eq_dec : EqDecision AttestationData.
Proof. solve_decision. Defined.
#[export] Instance AttestationData_eta : Eta AttestationData := λ d,
  mkAttestationData (ad_slot d) (ad_index d) (ad_beacon_block_root d) (ad_source d) (ad_target d).

Record BeaconBlockHeader := mkHeader {
  bh_slot : Slot;
  bh_proposer_index : N;
  bh_parent_root : Hash256;
  bh_state_root : Hash256;
  bh_body_root : Hash256;
}.
#[export] Instance BeaconBlockHeader_eq_dec : EqDecision BeaconBlockHeader.
Proof. solve_decision. Defined.

(** The constructors of [Domain] the code names. *)
Module Domain.
Inductive Domain :=
  | BeaconProposer | BeaconAttester | BeaconBuilder | Randao | SelectionProof | SyncCommittee
  | SyncCommitteeSelectionProof | ContributionAndProof | AggregateAndProof | PTCAttester
  | ProposerPreferences.
#[global] Instance Domain_eq_dec : EqDecision Domain.
Proof. solve_decision. Defined.
End Domain.
Abbreviation Domain := Domain.Domain (only parsing).

(** The functions of [ChainSpec] that depend on the fork; [bs_get_domain epoch d root] is
    [spec.get_domain(epoch, d, &spec.fork_at_epoch(epoch), root)]. *)
Record BeaconSpec := {
  bs_fork_name_at_epoch : Epoch → ForkName;
  bs_get_domain : Epoch → Domain → Hash256 → Hash256;
}.

(** [spec.fork_name_at_slot::<E>(slot)] *)
Definition fork_name_at_slot (spec : BeaconSpec) (spe : positive) (slot : Slot) : ForkName :=
  bs_fork_name_at_epoch spec (slot_epoch slot spe).

(** [types::consts::gloas::BUILDER_INDEX_SELF_BUILD] is [u64::MAX]. *)
Definition BUILDER_INDEX_SELF_BUILD : N := u64_max.

(** ** The opaque containers *)

Class BeaconLib := {
  (** attestations and aggregates, one type per wire shape *)
  AttestationBase : Type;
  AttestationElectra : Type;
  AttestationGloas : Type;
  attestation_base_from_ssz : bytes → outcome DecodeError AttestationBase;
  attestation_electra_from_ssz : bytes → outcome DecodeError AttestationElectra;
  attestation_gloas_from_ssz : bytes → outcome DecodeError AttestationGloas;
  AggregateAndProofBase : Type;
  AggregateAndProofElectra : Type;
  AggregateAndProofGloas : Type;
  aggregate_base_from_ssz : bytes → outcome DecodeError AggregateAndProofBase;
  aggregate_electra_from_ssz : bytes → outcome DecodeError AggregateAndProofElectra;
  aggregate_gloas_from_ssz : bytes → outcome DecodeError AggregateAndProofGloas;
  (** [SyncCommitteeContribution] and BLS signatures *)
  SyncCommitteeContribution : Type;
  subcommittee_index : SyncCommitteeContribution → N;
  BlsSignature : Type;
  (** blocks: [BlindedBeaconBlock], [BeaconBlock] and [BeaconBlockGloas]; the KZG proofs and
      blobs that go with a block *)
  BlindedBeaconBlock : Type;
  blinded_from_ssz_for_fork : ForkName → bytes → outcome DecodeError BlindedBeaconBlock;
  blinded_block_header : BlindedBeaconBlock → BeaconBlockHeader;
  BeaconBlock : Type;
  full_block_header : BeaconBlock → BeaconBlockHeader;
  ProofsAndBlobs : Type;
  contents_from_ssz_for_fork :
    ForkName → bytes → outcome DecodeError (BeaconBlock * option ProofsAndBlobs);
  BeaconBlockGloas : Type;
  gloas_block_header : BeaconBlockGloas → BeaconBlockHeader;
  (** [block.body.signed_execution_payload_bid.message.builder_index] *)
  gloas_builder_index : BeaconBlockGloas → N;
}.

(** [enum FullBlockContents]: [BlockContents] comes with proofs and blobs, [Block] without. *)
Definition FullBlockContents `{BeaconLib} : Type := BeaconBlock * option ProofsAndBlobs.
Definition contents_block_header `{BeaconLib} (c : FullBlockContents) : BeaconBlockHeader :=
  full_block_header c.1.

(** [enum Attestation] and [enum AggregateAndProof] *)
Inductive Attestation `{BeaconLib} :=
  | AttBase (a : AttestationBase)
  | AttElectra (a : AttestationElectra)
  | AttGloas (a : AttestationGloas).
Inductive AggregateAndProof_ `{BeaconLib} :=
  | AggBase (a : AggregateAndProofBase)
  | AggElectra (a : AggregateAndProofElectra)
  | AggGloas (a : AggregateAndProofGloas).

(** ** The slashing protection database *)

Inductive Safe := SafeValid | SafeSameData.
Inductive CheckSlashability := CheckYes | CheckNo.

Class SlashingLib := {
  SlashingDatabase : Type;
  NotSafe : Type;
  preliminary_check_block_proposal :
    SlashingDatabase → PublicKeyBytes → BeaconBlockHeader → Hash256 → outcome NotSafe unit;
  preliminary_check_attestation :
    SlashingDatabase → PublicKeyBytes → AttestationData → Hash256 → outcome NotSafe unit;
  check_and_insert_block_proposal :
    SlashingDatabase → PublicKeyBytes → BeaconBlockHeader → Hash256 →
    outcome NotSafe Safe * SlashingDatabase;
  check_and_insert_attestations :
    SlashingDatabase → list (AttestationData * PublicKeyBytes * Hash256 * CheckSlashability) →
    outcome NotSafe (list (outcome NotSafe Safe)) * SlashingDatabase;
  prune_all_signed_attestations :
    SlashingDatabase → list PublicKeyBytes → Epoch → outcome NotSafe unit * SlashingDatabase;
  prune_all_signed_blocks :
    SlashingDatabase → list PublicKeyBytes → Slot → outcome NotSafe unit * SlashingDatabase;
}.

(** Two attestations of one validator are slashable together: they vote for one target, or
    one surrounds the other (the consensus rules, and what the database protects from). *)
Definition surrounds (a b : AttestationData) : Prop :=
  (cp_epoch (ad_source a) < cp_epoch (ad_source b))%N ∧ (cp_epoch (ad_target b) < cp_epoch (ad_target a))%N.
Definition slashable_pair (a b : AttestationData) : Prop :=
  cp_epoch (ad_target a) = cp_epoch (ad_target b) ∨ surrounds a b ∨ surrounds b a.

#[export] Instance surrounds_dec a b : Decision (surrounds a b).
Proof. unfold surrounds. apply _. Defined.
#[export] Instance slashable_pair_dec a b : Decision (slashable_pair a b).
Proof. unfold slashable_pair. apply _. Defined.

(** [db_le]: what one call of the database turns it into. *)
Inductive slashing_step `{SlashingLib} (db : SlashingDatabase) : SlashingDatabase → Prop :=
  | step_block pk header domain :
      slashing_step db (check_and_insert_block_proposal db pk header domain).2
  | step_attestations l : slashing_step db (check_and_insert_attestations db l).2
  | step_prune_attestations pks epoch :
      slashing_step db (prune_all_signed_attestations db pks epoch).2
  | step_prune_blocks pks slot : slashing_step db (prune_all_signed_blocks db pks slot).2.

(** The documented promise: a slot for which a block was found valid stays taken, and no
    other block of that slot is found valid; an attestation that was found valid under the
    check keeps protecting from those slashable together with it; the answers of a batch
    are in order, and each accounts for those before it. *)
Class SlashingLaws `{SlashingLib} := {
  slot_taken : SlashingDatabase → PublicKeyBytes → Slot → Prop;
  slot_taken_step db db' pk slot : slashing_step db db' → slot_taken db pk slot → slot_taken db' pk slot;
  block_valid db pk header domain db' :
    check_and_insert_block_proposal db pk header domain = (Ok SafeValid, db') →
    ¬ slot_taken db pk (bh_slot header) ∧ slot_taken db' pk (bh_slot header);
  protects : SlashingDatabase → PublicKeyBytes → AttestationData → Prop;
  protects_step db db' pk d : slashing_step db db' → protects db pk d → protects db' pk d;
  attestations_length db l results db' :
    check_and_insert_attestations db l = (Ok results, db') → length results = length l;
  attestation_valid db l results db' i d pk domain :
    check_and_insert_attestations db l = (Ok results, db') →
    l !! i = Some (d, pk, domain, CheckYes) → results !! i = Some (Ok SafeValid) →
    protects db' pk d ∧ (∀ d', protects db pk d' → ¬ slashable_pair d d') ∧
    (∀ j d' domain', j < i → l !! j = Some (d', pk, domain', CheckYes) →
       results !! j = Some (Ok SafeValid) → ¬ slashable_pair d d');
}.

(** ** A database that keeps the promise *)

Module SampleSlashing.
Record Db := mkDb {
  db_blocks : list (PublicKeyBytes * Slot * Hash256);
  db_attestations : list (PublicKeyBytes * AttestationData);
}.
#[local] Instance Db_eta : Eta Db := λ d, mkDb (db_blocks d) (db_attestations d).

Definition check_block (db : Db) (pk : PublicKeyBytes) (h : BeaconBlockHeader) : outcome unit Safe :=
  if decide ((pk, bh_slot h, bh_body_root h) ∈ db_blocks db) then Ok SafeSameData
  else if decide ((pk, bh_slot h) ∈ fst <$> db_blocks db) then Err tt else Ok SafeValid.

Definition check_attestation (db : Db) (pk : PublicKeyBytes) (d : AttestationData) : outcome unit Safe :=
  if decide ((pk, d) ∈ db_attestations db) then Ok SafeSameData
  else if decide (Exists (λ e, e.1 = pk ∧ slashable_pair d e.2) (db_attestations db)) then Err tt
  else Ok SafeValid.

(** The unchecked kind is recorded without a look. *)
Definition insert_attestation (db : Db) (x : AttestationData * PublicKeyBytes * Hash256 * CheckSlashability)
    : outcome unit Safe * Db :=
  let '(d, pk, _, check) := x in
  let r := match check with CheckYes => check_attestation db pk d | CheckNo => Ok SafeValid end in
  match r with
  | Ok SafeValid => (r, db <| db_attestations := (pk, d) :: db_attestations db |>)
  | _ => (r, db)
  end.

Fixpoint insert_attestations (db : Db) (l : list (AttestationData * PublicKeyBytes * Hash256 * CheckSlashability))
    : list (outcome unit Safe) * Db :=
  match l with
  | [] => ([], db)
  | x :: l =>
      let '(r, db) := insert_attestation db x in
      let '(rs, db) := insert_attestations db l in (r :: rs, db)
  end.

#[export] Instance slashing_lib : SlashingLib := {|
  SlashingDatabase := Db;
  NotSafe := unit;
  preliminary_check_block_proposal db pk h _ := _ ← check_block db pk h; Ok tt;
  preliminary_check_attestation db pk d _ := _ ← check_attestation db pk d; Ok tt;
  check_and_insert_block_proposal db pk h _ :=
    match check_block db pk h with
    | Ok SafeValid => (Ok SafeValid, db <| db_blocks := (pk, bh_slot h, bh_body_root h) :: db_blocks db |>)
    | r => (r, db)
    end;
  check_and_insert_attestations db l :=
    let '(rs, db) := insert_attestations db l in (Ok rs, db);
  prune_all_signed_attestations db _ _ := (Ok tt, db);
  prune_all_signed_blocks db _ _ := (Ok tt, db);
|}.

Lemma insert_attestation_mono db x p :
  p ∈ db_attestations db → p ∈ db_attestations (insert_attestation db x).2.
Proof.
  destruct x as [[[d pk] dom] c]. cbn. intros Hp.
  destruct (match c with CheckYes => _ | CheckNo => _ end) as [[]| |]; cbn; try done. by right.
Qed.

Lemma insert_attestations_mono l db p :
  p ∈ db_attestations db → p ∈ db_attestations (insert_attestations db l).2.
Proof.
  revert db. induction l as [|x l IH]; intros db Hp; [done|]. cbn [insert_attestations].
  pose proof (insert_attestation_mono db x p Hp) as Hx.
  destruct (insert_attestation db x) as [r db1]. specialize (IH db1 Hx).
  by destruct (insert_attestations db1 l).
Qed.

Lemma insert_attestations_blocks l db : db_blocks (insert_attestations db l).2 = db_blocks db.
Proof.
  revert db. induction l as [|x l IH]; intros db; [done|]. cbn [insert_attestations].
  assert (db_blocks (insert_attestation db x).2 = db_blocks db) as Hx.
  { destruct x as [[[d pk] dom] c]. cbn.
    by destruct (match c with CheckYes => _ | CheckNo => _ end) as [[]| |]. }
  destruct (insert_attestation db x) as [r db1]. cbn [snd] in Hx. specialize (IH db1).
  destruct (insert_attestations db1 l). cbn [snd] in *. congruence.
Qed.

Lemma insert_attestations_length l db : length (insert_attestations db l).1 = length l.
Proof.
  revert db. induction l as [|x l IH]; intros db; [done|]. cbn [insert_attestations].
  destruct (insert_attestation db x) as [r db1]. specialize (IH db1).
  destruct (insert_attestations db1 l). cbn in *. congruence.
Qed.

(** What is found valid is recorded, and not slashable with anything recorded before. *)
Lemma insert_attestations_valid l db i d pk dom :
  l !! i = Some (d, pk, dom, CheckYes) → (insert_attestations db l).1 !! i = Some (Ok SafeValid) →
  (pk, d) ∈ db_attestations (insert_attestations db l).2 ∧
  (∀ d', (pk, d') ∈ db_attestations db → ¬ slashable_pair d d') ∧
  (∀ j d' dom', j < i → l !! j = Some (d', pk, dom', CheckYes) →
     (insert_attestations db l).1 !! j = Some (Ok SafeValid) → ¬ slashable_pair d d').
Proof.
  revert db i. induction l as [|x l IH]; intros db i Hl Hr; [done|]. cbn [insert_attestations] in *.
  destruct (insert_attestation db x) as [r db1] eqn:Hx. specialize (IH db1).
  pose proof (insert_attestations_mono l db1) as Hmono.
  destruct (insert_attestations db1 l) as [rs db2]. cbn [fst snd] in *. destruct i as [|i]; cbn in Hl, Hr.
  - injection Hl as ->. injection Hr as ->. cbn in Hx. unfold check_attestation in Hx.
    repeat case_decide; try done. injection Hx as <-. split; [apply Hmono; by left|]. split; [|lia].
    intros d' Hd' Hs. destruct select (¬ Exists _ _). apply Exists_exists. by exists (pk, d').
  - destruct (IH i Hl Hr) as (H1 & H2 & H3). split; [done|]. split.
    + intros d' Hd'. apply H2. pose proof (insert_attestation_mono db x _ Hd') as Hm. by rewrite Hx in Hm.
    + intros [|j] d' dom' Hj Hlj Hrj; cbn in Hlj, Hrj; [|by apply (H3 j d' dom'); [lia|..]].
      injection Hlj as ->. injection Hrj as ->. apply H2. cbn in Hx. unfold check_attestation in Hx.
      repeat case_decide; try done. injection Hx as <-. by left.
Qed.

#[export] Program Instance slashing_laws : SlashingLaws := {|
  slot_taken db pk slot := (pk, slot) ∈ fst <$> db_blocks db;
  protects db pk d := (pk, d) ∈ db_attestations db;
|}.
Next Obligation.
  intros db db' pk slot [pk' h dom|l| | ] Ht; cbn -[insert_attestations]; try done.
  - destruct (check_block db pk' h) as [[]| |]; try done. by right.
  - pose proof (insert_attestations_blocks l db) as Hb. destruct (insert_attestations db l). cbn in *. by rewrite Hb.
Qed.
Next Obligation.
  intros db pk h dom db'. cbn. unfold check_block. repeat case_decide; try done.
  intros [= <-]. split; [done|]. by left.
Qed.
Next Obligation.
  intros db db' pk d [pk' h dom|l| | ] Ht; cbn -[insert_attestations]; try done.
  - by destruct (check_block db pk' h) as [[]| |].
  - pose proof (insert_attestations_mono l db _ Ht) as Hb. by destruct (insert_attestations db l).
Qed.
Next Obligation.
  intros db l rs db'. cbn. pose proof (insert_attestations_length l db) as Hl.
  destruct (insert_attestations db l). by intros [= <- <-].
Qed.
Next Obligation.
  intros db l rs db' i d pk dom. cbn. pose proof (insert_attestations_valid l db i d pk dom) as Hv.
  destruct (insert_attestations db l). by intros [= <- <-].
Qed.
End SampleSlashing.

(** ** Containers for the examples *)

(** Numbers for containers: an encoding spells the number, which for a block is also its
    slot. *)
Module SampleBeacon.
Definition number (bs : bytes) : outcome DecodeError N :=
  match bs with [] => Err OtherDecodeError | _ => Ok (from_le_bytes bs) end.
Definition header_of (n : N) : BeaconBlockHeader := mkHeader n 0 0 0 n.

#[export] Instance beacon_lib : BeaconLib := {|
  AttestationBase := N;
  AttestationElectra := N;
  AttestationGloas := N;
  attestation_base_from_ssz := number;
  attestation_electra_from_ssz := number;
  attestation_gloas_from_ssz := number;
  AggregateAndProofBase := N;
  AggregateAndProofElectra := N;
  AggregateAndProofGloas := N;
  aggregate_base_from_ssz := number;
  aggregate_electra_from_ssz := number;
  aggregate_gloas_from_ssz := number;
  SyncCommitteeContribution := N;
  subcommittee_index := id;
  BlsSignature := N;
  BlindedBeaconBlock := N;
  blinded_from_ssz_for_fork _ := number;
  blinded_block_header := header_of;
  BeaconBlock := N;
  full_block_header := header_of;
  ProofsAndBlobs := N;
  contents_from_ssz_for_fork _ bs := n ← number bs; Ok (n, None);
  BeaconBlockGloas := N;
  gloas_block_header := header_of;
  gloas_builder_index _ := 0%N;
|}.
End SampleBeacon.
