(* ===== verification/ConsensusData.v ===== *)
(** * Consensus values and their validation

    The values the QBFT instances decide on, from
    [anchor/common/ssv_types/src/consensus.rs]: proposer data, beacon votes before and
    from Gloas on, the committee's aggregation data, the fork-aware decoding of their
    payloads, and the three validators an instance asks about a proposed value.  The
    theorems characterise what each validator accepts. *)

From S2P Require Import Prelude SsvTypes ValidatorRules BeaconTypes.

(** ** [DataVersion] *)

(** [struct DataVersion(ForkName)] *)
Abbreviation DataVersion := ForkName.ForkName (only parsing).

Definition data_version_num (v : DataVersion) : N :=
  match v with
  | ForkName.Base => 1
  | ForkName.Altair => 2
  | ForkName.Bellatrix => 3
  | ForkName.Capella => 4
  | ForkName.Deneb => 5
  | ForkName.Electra => 6
  | ForkName.Fulu => 7
  | ForkName.Gloas => 8
  | ForkName.Heze => 9
  end.

(** [impl Encode for DataVersion]: the number as a [u64]. *)
Definition data_version_encode (v : DataVersion) : bytes := to_le_bytes 8 (data_version_num v).

(** [impl Decode for DataVersion] *)
Definition data_version_decode (bs : bytes) : outcome DecodeError DataVersion :=
  if decide (length bs = 8) then
    match from_le_bytes bs with
    | 1%N => Ok ForkName.Base
    | 2%N => Ok ForkName.Altair
    | 3%N => Ok ForkName.Bellatrix
    | 4%N => Ok ForkName.Capella
    | 5%N => Ok ForkName.Deneb
    | 6%N => Ok ForkName.Electra
    | 7%N => Ok ForkName.Fulu
    | 8%N => Ok ForkName.Gloas
    | 9%N => Ok ForkName.Heze
    | _ => Err NoMatchingVariant
    end
  else Err (InvalidByteLength (length bs) 8).

Inductive ForkDecodeError :=
  | FDDecode (e : DecodeError)
  | UnsupportedFork (f : ForkName).

Inductive WireShape := ShapeBase | ShapeElectra | ShapeGloas.
#[export] Instance WireShape_eq_dec : EqDecision WireShape.
Proof. solve_decision. Defined.

Definition wire_shape (v : DataVersion) : outcome ForkDecodeError WireShape :=
  match v with
  | ForkName.Base | ForkName.Altair | ForkName.Bellatrix | ForkName.Capella | ForkName.Deneb =>
      Ok ShapeBase
  | ForkName.Electra | ForkName.Fulu => Ok ShapeElectra
  | ForkName.Gloas => Ok ShapeGloas
  | ForkName.Heze => Err (UnsupportedFork ForkName.Heze)
  end.

Section beacon.
Context `{BL : BeaconLib}.

Definition for_attestation_shape (attestation : Attestation) : DataVersion :=
  match attestation with
  | AttBase _ => ForkName.Base
  | AttElectra _ => ForkName.Electra
  | AttGloas _ => ForkName.Gloas
  end.

Definition decode_attestation (v : DataVersion) (bs : bytes) : outcome ForkDecodeError Attestation :=
  shape ← wire_shape v;
  match shape with
  | ShapeBase => map_err FDDecode (a ← attestation_base_from_ssz bs; Ok (AttBase a))
  | ShapeElectra => map_err FDDecode (a ← attestation_electra_from_ssz bs; Ok (AttElectra a))
  | ShapeGloas => map_err FDDecode (a ← attestation_gloas_from_ssz bs; Ok (AttGloas a))
  end.

Definition decode_aggregate_and_proof (v : DataVersion) (bs : bytes)
    : outcome ForkDecodeError AggregateAndProof_ :=
  shape ← wire_shape v;
  match shape with
  | ShapeBase => map_err FDDecode (a ← aggregate_base_from_ssz bs; Ok (AggBase a))
  | ShapeElectra => map_err FDDecode (a ← aggregate_electra_from_ssz bs; Ok (AggElectra a))
  | ShapeGloas => map_err FDDecode (a ← aggregate_gloas_from_ssz bs; Ok (AggGloas a))
  end.

(** ** Duties *)

(** [struct BeaconRole(u64)] *)
Abbreviation BeaconRole := N (only parsing).
Definition BEACON_ROLE_ATTESTER : BeaconRole := 0.
Definition BEACON_ROLE_AGGREGATOR : BeaconRole := 1.
Definition BEACON_ROLE_PROPOSER : BeaconRole := 2.
Definition BEACON_ROLE_SYNC_COMMITTEE : BeaconRole := 3.
Definition BEACON_ROLE_SYNC_COMMITTEE_CONTRIBUTION : BeaconRole := 4.
Definition BEACON_ROLE_VALIDATOR_REGISTRATION : BeaconRole := 5.
Definition BEACON_ROLE_VOLUNTARY_EXIT : BeaconRole := 6.
Definition BEACON_ROLE_UNKNOWN : BeaconRole := u64_max.

Record ValidatorDuty := mkValidatorDuty {
  vd_type : BeaconRole;
  vd_pub_key : PublicKeyBytes;
  vd_slot : Slot;
  vd_validator_index : ValidatorIndex;
  vd_committee_index : N;
  vd_committee_length : N;
  vd_committees_at_slot : N;
  vd_validator_committee_index : N;
  vd_validator_sync_committee_indices : list N;
}.

Record ProposerConsensusData := mkProposerConsensusData {
  pcd_duty : ValidatorDuty;
  pcd_version : DataVersion;
  pcd_data_ssz : bytes;
}.

(** ** Proposals *)

Record GloasProposalData := mkGloasProposal {
  gp_block : BeaconBlockGloas;
  gp_payload_root : Hash256;
}.

(** The derived decoders of [GloasProposalData] and [Contributions]. *)
Context (gloas_proposal_from_ssz : bytes → outcome DecodeError GloasProposalData).
Context {Contributions : Type} (contributions_from_ssz : bytes → outcome DecodeError Contributions).

Definition validate_payload_root (p : GloasProposalData) : outcome DecodeError unit :=
  let self_build := bool_decide (gloas_builder_index (gp_block p) = BUILDER_INDEX_SELF_BUILD) in
  if bool_decide (self_build = bool_decide (gp_payload_root p = 0%N))
  then Err (BytesInvalid "payload root must be nonzero exactly for a self-build bid")
  else Ok tt.

Definition decode_blinded_block (d : ProposerConsensusData) : outcome DecodeError BlindedBeaconBlock :=
  let fork := pcd_version d in
  if ForkName.ge fork ForkName.Gloas then Err NoMatchingVariant
  else blinded_from_ssz_for_fork fork (pcd_data_ssz d).

Definition decode_block_contents (d : ProposerConsensusData) : outcome DecodeError FullBlockContents :=
  contents_from_ssz_for_fork (pcd_version d) (pcd_data_ssz d).

Definition decode_gloas_proposal (d : ProposerConsensusData) : outcome DecodeError GloasProposalData :=
  _ ← ensure (bool_decide (pcd_version d = ForkName.Gloas)) NoMatchingVariant;
  proposal ← gloas_proposal_from_ssz (pcd_data_ssz d);
  _ ← validate_payload_root proposal;
  mret proposal.

(** [result.or_else(|_| other)] *)
Definition or_else {E A} (m : outcome E A) (other : outcome E A) : outcome E A :=
  match m with Ok a => Ok a | Err _ => other | Panic => Panic end.

Context `{SL : SlashingLib}.

Inductive DataValidationError :=
  | DVDecodeError (e : DecodeError)
  | DVForkDecode (e : ForkDecodeError)
  | InvalidDutyType (role : BeaconRole)
  | SlotMismatch (expected got : Slot)
  | RoleMismatch (expected got : BeaconRole)
  | PubKeyMismatch (expected got : PublicKeyBytes)
  | IndexMismatch (expected got : ValidatorIndex)
  | DVVersionMismatch (expected got : ForkName)
  | BlockSlotMismatch (expected got : Slot)
  | BlockProposerIndexMismatch (expected got : N)
  | SlashableBlockProposal (e : NotSafe).

(** [struct ProposerConsensusDataValidator]; the database is read when a value is checked,
    so it is an argument of the methods. *)
Record ProposerConsensusDataValidator := {
  pv_disable_slashing_protection : bool;
  pv_spec : BeaconSpec;
  pv_validator_pubkey : PublicKeyBytes;
  pv_genesis_validators_root : Hash256;
}.

(** [E::slots_per_epoch()] *)
Context (spe : positive).

(** The header of the proposed block: from Gloas on of the committed proposal, before it of
    the blinded block or, if that does not decode, of the full contents. *)
Definition proposal_header (value : ProposerConsensusData) : outcome DecodeError BeaconBlockHeader :=
  if ForkName.ge (pcd_version value) ForkName.Gloas then
    proposal ← decode_gloas_proposal value; mret (gloas_block_header (gp_block proposal))
  else
    or_else (block ← decode_blinded_block value; mret (blinded_block_header block))
            (block ← decode_block_contents value; mret (contents_block_header block)).

Definition validate_block_proposal (v : ProposerConsensusDataValidator) (db : SlashingDatabase)
    (value : ProposerConsensusData) : outcome DataValidationError unit :=
  let expected := fork_name_at_slot (pv_spec v) spe (vd_slot (pcd_duty value)) in
  let fork := pcd_version value in
  _ ← ensure (bool_decide (fork = expected)) (DVVersionMismatch expected fork);
  header ← map_err DVDecodeError (proposal_header value);
  _ ← ensure (bh_slot header =? vd_slot (pcd_duty value))%N
        (BlockSlotMismatch (vd_slot (pcd_duty value)) (bh_slot header));
  let duty_validator_index := vd_validator_index (pcd_duty value) in
  _ ← ensure (negb (ForkName.ge fork ForkName.Gloas
                    && negb (bh_proposer_index header =? duty_validator_index)%N))
        (BlockProposerIndexMismatch duty_validator_index (bh_proposer_index header));
  if pv_disable_slashing_protection v then Ok tt
  else
    let epoch := slot_epoch (bh_slot header) spe in
    let domain_hash := bs_get_domain (pv_spec v) epoch Domain.BeaconProposer
                         (pv_genesis_validators_root v) in
    map_err SlashableBlockProposal
      (preliminary_check_block_proposal db (pv_validator_pubkey v) header domain_hash).

Definition proposer_do_validation (v : ProposerConsensusDataValidator) (db : SlashingDatabase)
    (value our_value : ProposerConsensusData) : outcome DataValidationError unit :=
  let duty := pcd_duty value in
  let ours := pcd_duty our_value in
  _ ← ensure (vd_slot duty =? vd_slot ours)%N (SlotMismatch (vd_slot ours) (vd_slot duty));
  _ ← ensure (vd_type duty =? vd_type ours)%N (RoleMismatch (vd_type ours) (vd_type duty));
  _ ← ensure (bool_decide (vd_pub_key duty = vd_pub_key ours))
        (PubKeyMismatch (vd_pub_key ours) (vd_pub_key duty));
  _ ← ensure (vd_validator_index duty =? vd_validator_index ours)%N
        (IndexMismatch (vd_validator_index ours) (vd_validator_index duty));
  if (vd_type duty =? BEACON_ROLE_AGGREGATOR)%N then
    let expected := fork_name_at_slot (pv_spec v) spe (vd_slot duty) in
    expected_shape ← map_err DVForkDecode (wire_shape expected);
    proposed_shape ← map_err DVForkDecode (wire_shape (pcd_version value));
    _ ← ensure (bool_decide (proposed_shape = expected_shape))
          (DVVersionMismatch expected (pcd_version value));
    _ ← map_err DVForkDecode (decode_aggregate_and_proof (pcd_version value) (pcd_data_ssz value));
    mret tt
  else if (vd_type duty =? BEACON_ROLE_PROPOSER)%N then validate_block_proposal v db value
  else if (vd_type duty =? BEACON_ROLE_SYNC_COMMITTEE_CONTRIBUTION)%N then
    _ ← map_err DVDecodeError (contributions_from_ssz (pcd_data_ssz value)); mret tt
  else Err (InvalidDutyType (vd_type duty)).

(** [impl QbftDataValidator for ProposerConsensusDataValidator] *)
Definition proposer_validate (v : ProposerConsensusDataValidator) (db : SlashingDatabase)
    (value our_value : ProposerConsensusData) : bool :=
  is_ok (proposer_do_validation v db value our_value).

(** ** Aggregation data of a committee *)

Record AssignedAggregator := mkAssignedAggregator {
  aa_validator_index : ValidatorIndex;
  aa_selection_proof : BlsSignature;
  aa_committee_index : N;
}.

Record AggregatorCommitteeConsensusData := mkAggregatorData {
  ac_version : DataVersion;
  ac_aggregators : list AssignedAggregator;
  ac_aggregator_committee_indexes : list N;
  ac_aggregated_attestations : list bytes;
  ac_contributors : list AssignedAggregator;
  ac_sync_committee_contributions : list SyncCommitteeContribution;
}.

Inductive AggregatorCommitteeValidationError :=
  | CommitteeIndexCountMismatch (indexes attestations : N)
  | DuplicateCommitteeIndex (index : N)
  | AggregatorCommitteeIndexMissing (index : N)
  | AggregatorCommitteeUnusedIndex
  | DuplicateSyncSubcommittee (index : N)
  | ContributorSubcommitteeMissing (index : N)
  | SyncSubcommitteeUnusedIndex
  | NoValidatorsAssigned
  | AttestationDecodeError (e : ForkDecodeError)
  | ACVersionMismatch (expected got : ForkName).

(** The loop that refuses duplicates: [seen] is the slice before the current element. *)
Fixpoint check_distinct {E} (err : N → E) (seen indexes : list N) : outcome E unit :=
  match indexes with
  | [] => Ok tt
  | x :: indexes =>
      if decide (x ∈ seen) then Err (err x) else check_distinct err (seen ++ [x]) indexes
  end.

(** The loop that marks the position of each assigned index as used. *)
Fixpoint mark_used {E} (err : N → E) (indexes assigned : list N) (used : list bool)
    : outcome E (list bool) :=
  match assigned with
  | [] => Ok used
  | x :: assigned =>
      match list_find (λ ci, ci = x) indexes with
      | Some (pos, _) => mark_used err indexes assigned (<[pos := true]> used)
      | None => Err (err x)
      end
  end.

(** [AggregatorCommitteeDataValidator::do_validation] *)
Definition aggregator_do_validation (value : AggregatorCommitteeConsensusData)
    : outcome AggregatorCommitteeValidationError unit :=
  _ ← ensure (negb (bool_decide (ac_aggregators value = []) && bool_decide (ac_contributors value = [])))
        NoValidatorsAssigned;
  let indexes := ac_aggregator_committee_indexes value in
  _ ← ensure (len indexes =? len (ac_aggregated_attestations value))%N
        (CommitteeIndexCountMismatch (len indexes) (len (ac_aggregated_attestations value)));
  _ ← check_distinct DuplicateCommitteeIndex [] indexes;
  used_agg_committees ← mark_used AggregatorCommitteeIndexMissing indexes
                          (aa_committee_index <$> ac_aggregators value)
                          (replicate (length indexes) false);
  _ ← ensure (forallb id used_agg_committees) AggregatorCommitteeUnusedIndex;
  _ ← try_for_each (λ att_bytes,
        _ ← map_err AttestationDecodeError (decode_attestation (ac_version value) att_bytes); mret tt)
        (ac_aggregated_attestations value);
  let subcommittees := subcommittee_index <$> ac_sync_committee_contributions value in
  _ ← check_distinct DuplicateSyncSubcommittee [] subcommittees;
  used_sc_subnets ← mark_used ContributorSubcommitteeMissing subcommittees
                      (aa_committee_index <$> ac_contributors value)
                      (replicate (length subcommittees) false);
  ensure (forallb id used_sc_subnets) SyncSubcommitteeUnusedIndex.

(** [impl QbftDataValidator for AggregatorCommitteeDataValidator] *)
Definition aggregator_validate (value our_value : AggregatorCommitteeConsensusData) : bool :=
  is_ok (if decide (ac_version value = ac_version our_value) then aggregator_do_validation value
         else Err (ACVersionMismatch (ac_version our_value) (ac_version value))).

(** ** Beacon votes *)

Record BeaconVote := mkBeaconVote {
  bv_block_root : Hash256;
  bv_source : Checkpoint;
  bv_target : Checkpoint;
}.
#[export] Instance BeaconVote_eq_dec : EqDecision BeaconVote.
Proof. solve_decision. Defined.

Record GloasBeaconVote := mkGloasVote {
  gv_block_root : Hash256;
  gv_source : Checkpoint;
  gv_target : Checkpoint;
  gv_attestation_data_index : N;
}.
#[export] Instance GloasBeaconVote_eq_dec : EqDecision GloasBeaconVote.
Proof. solve_decision. Defined.

Inductive BeaconVoteValidationError :=
  | BadSlotClock
  | FarFutureTargetEpoch (current target : Epoch)
  | TargetNotAfterSource (source target : Epoch)
  | CheckpointMismatch (our_source proposed_source our_target proposed_target : Checkpoint)
  | EpochMismatch (our_source_epoch proposed_source_epoch our_target_epoch proposed_target_epoch : Epoch)
  | SlashableAttestation (e : NotSafe)
  | IndexOutOfRange (index : N)
  | SameSlotFullIndex (root : Hash256).

(** [struct BeaconVoteValidator]; [bvv_slashing] tells whether it holds the database, which
    is [None] if protection is disabled. *)
Record BeaconVoteValidator := {
  bvv_slot : Slot;
  bvv_slashing : bool;
  bvv_spec : BeaconSpec;
  bvv_validator_attestation_committees : gmap PublicKeyBytes N;
  bvv_genesis_validators_root : Hash256;
  bvv_strict_mfp : bool;
}.

Definition epoch_majority_fork_protection (source target our_source our_target : Checkpoint)
    : outcome BeaconVoteValidationError unit :=
  ensure (negb (negb (cp_epoch source =? cp_epoch our_source)%N
                || negb (cp_epoch target =? cp_epoch our_target)%N))
    (EpochMismatch (cp_epoch our_source) (cp_epoch source) (cp_epoch our_target) (cp_epoch target)).

Definition strict_majority_fork_protection (source target our_source our_target : Checkpoint)
    : outcome BeaconVoteValidationError unit :=
  ensure (negb (negb (bool_decide (source = our_source)) || negb (bool_decide (target = our_target))))
    (CheckpointMismatch our_source source our_target target).

(** The checks on epochs that both validators begin with. *)
Definition check_epochs (slot : Slot) (source target : Checkpoint)
    : outcome BeaconVoteValidationError unit :=
  let current_epoch := slot_epoch slot spe in
  _ ← ensure (negb (slot_add current_epoch 1 <? cp_epoch target)%N)
        (FarFutureTargetEpoch current_epoch (cp_epoch target));
  ensure (negb ((cp_epoch target <=? cp_epoch source)%N
                && (negb (cp_epoch source =? 0)%N || negb (cp_epoch target =? 0)%N)))
    (TargetNotAfterSource (cp_epoch source) (cp_epoch target)).

(** [BeaconVoteValidator::check_attestation_slashing]; the order in which the map is walked
    only decides which refusal is reported. *)
Definition check_attestation_slashing (v : BeaconVoteValidator) (db : SlashingDatabase)
    (value : BeaconVote) : outcome BeaconVoteValidationError unit :=
  if bvv_slashing v then
    let attestation_data := mkAttestationData (bvv_slot v) 0 (bv_block_root value)
                              (bv_source value) (bv_target value) in
    let epoch := slot_epoch (bvv_slot v) spe in
    let domain_hash := bs_get_domain (bvv_spec v) epoch Domain.BeaconAttester
                         (bvv_genesis_validators_root v) in
    try_for_each (λ '(validator_pubkey, committee_index),
        map_err SlashableAttestation
          (preliminary_check_attestation db validator_pubkey
             (attestation_data <| ad_index := committee_index |>) domain_hash))
      (map_to_list (bvv_validator_attestation_committees v))
  else Ok tt.

(** [BeaconVoteValidator::do_validation] *)
Definition vote_do_validation (v : BeaconVoteValidator) (db : SlashingDatabase)
    (value our_value : BeaconVote) : outcome BeaconVoteValidationError unit :=
  _ ← check_epochs (bvv_slot v) (bv_source value) (bv_target value);
  _ ← (if bvv_strict_mfp v
       then strict_majority_fork_protection (bv_source value) (bv_target value)
              (bv_source our_value) (bv_target our_value)
       else epoch_majority_fork_protection (bv_source value) (bv_target value)
              (bv_source our_value) (bv_target our_value));
  check_attestation_slashing v db value.

Definition vote_validate (v : BeaconVoteValidator) (db : SlashingDatabase)
    (value our_value : BeaconVote) : bool :=
  is_ok (vote_do_validation v db value our_value).

(** [struct GloasBeaconVoteValidator] *)
Record GloasBeaconVoteValidator := {
  gvv_base : BeaconVoteValidator;
  gvv_same_slot_head_root : option Hash256;
}.

(** [GloasBeaconVoteValidator::check_attestation_slashing]: one index for all validators. *)
Definition gloas_check_attestation_slashing (v : GloasBeaconVoteValidator) (db : SlashingDatabase)
    (value : GloasBeaconVote) : outcome BeaconVoteValidationError unit :=
  let b := gvv_base v in
  if bvv_slashing b then
    let attestation_data := mkAttestationData (bvv_slot b) (gv_attestation_data_index value)
                              (gv_block_root value) (gv_source value) (gv_target value) in
    let epoch := slot_epoch (bvv_slot b) spe in
    let domain_hash := bs_get_domain (bvv_spec b) epoch Domain.BeaconAttester
                         (bvv_genesis_validators_root b) in
    try_for_each (λ validator_pubkey,
        map_err SlashableAttestation
          (preliminary_check_attestation db validator_pubkey attestation_data domain_hash))
      (map_to_list (bvv_validator_attestation_committees b)).*1
  else Ok tt.

(** [GloasBeaconVoteValidator::do_validation] *)
Definition gloas_do_validation (v : GloasBeaconVoteValidator) (db : SlashingDatabase)
    (value our_value : GloasBeaconVote) : outcome BeaconVoteValidationError unit :=
  let b := gvv_base v in
  _ ← check_epochs (bvv_slot b) (gv_source value) (gv_target value);
  _ ← ensure (negb (2 <=? gv_attestation_data_index value)%N)
        (IndexOutOfRange (gv_attestation_data_index value));
  _ ← ensure (negb ((gv_attestation_data_index value =? 1)%N
                    && bool_decide (gvv_same_slot_head_root v = Some (gv_block_root value))))
        (SameSlotFullIndex (gv_block_root value));
  _ ← (if bvv_strict_mfp b
       then strict_majority_fork_protection (gv_source value) (gv_target value)
              (gv_source our_value) (gv_target our_value)
       else epoch_majority_fork_protection (gv_source value) (gv_target value)
              (gv_source our_value) (gv_target our_value));
  gloas_check_attestation_slashing v db value.

Definition gloas_validate (v : GloasBeaconVoteValidator) (db : SlashingDatabase)
    (value our_value : GloasBeaconVote) : bool :=
  is_ok (gloas_do_validation v db value our_value).

(** ** Batch identifiers *)

(** [struct SelectionProofBatchId] and its [hash]; [sha256] is the [sha2] crate's. *)
Record SelectionProofBatchId := mkBatchId {
  sb_slot : Slot;
  sb_committee_id : CommitteeId;
}.

Definition batch_id_preimage (b : SelectionProofBatchId) : bytes :=
  PartialSignatureKind.kind_encode PartialSignatureKind.AggregatorCommitteePartialSig
  ++ to_le_bytes 8 (sb_slot b) ++ sb_committee_id b.

Definition batch_id_hash (sha256 : bytes → bytes) (b : SelectionProofBatchId) : Hash256 :=
  from_le_bytes (sha256 (batch_id_preimage b)).

(** ** What the aggregation validator accepts *)

Lemma check_distinct_ok {E} (err : N → E) seen indexes :
  check_distinct err seen indexes = Ok tt ↔ NoDup indexes ∧ ∀ x, x ∈ indexes → x ∉ seen.
Proof.
  revert seen. induction indexes as [|x indexes IH]; intros seen; cbn.
  { split; [|done]. intros _. split; [constructor|]. by intros x ?%elem_of_nil. }
  rewrite NoDup_cons. case_decide as Hx.
  - split; [done|]. intros [_ Hs]. exfalso. apply (Hs x); [by left|done].
  - rewrite IH. split.
    + intros [Hnd Hs]. split; [split; [|done]|].
      * intros Hin. apply (Hs x Hin). apply elem_of_app. right. by left.
      * intros y [->|Hy]%elem_of_cons; [done|]. intros Hy'. apply (Hs y Hy), elem_of_app. by left.
    + intros [[Hx' Hnd] Hs]. split; [done|]. intros y Hy Hy'. apply elem_of_app in Hy' as [Hy'|Hy'].
      { by apply (Hs y); [right|]. }
      apply list_elem_of_singleton in Hy' as ->. done.
Qed.

Lemma mark_used_ok {E} (err : N → E) indexes assigned used used' :
  NoDup indexes → length used = length indexes → mark_used err indexes assigned used = Ok used' →
  length used' = length indexes ∧ assigned ⊆ indexes ∧
  ∀ i x, indexes !! i = Some x → (used' !! i = Some true ↔ used !! i = Some true ∨ x ∈ assigned).
Proof.
  intros Hnd. revert used. induction assigned as [|y assigned IH]; intros used Hlen; cbn.
  { intros [= <-]. split; [done|]. split; [by intros ? ?%elem_of_nil|]. intros i x _.
    rewrite elem_of_nil. tauto. }
  destruct (list_find _ indexes) as [[pos z]|] eqn:Hf; [|done].
  apply list_find_Some in Hf as (Hpos & -> & _). intros Hm.
  destruct (IH (<[pos := true]> used)) as (H1 & H2 & H3); [by rewrite length_insert|done|].
  split; [done|]. split.
  { intros x [->|Hx]%elem_of_cons; [by eapply list_elem_of_lookup_2|by apply H2]. }
  intros i x Hi. rewrite (H3 i x Hi), elem_of_cons. destruct (decide (i = pos)) as [->|Hne].
  - rewrite list_lookup_insert_eq by (rewrite Hlen; by eapply lookup_lt_Some).
    assert (x = y) as -> by congruence. naive_solver.
  - rewrite list_lookup_insert_ne by done.
    assert (x ≠ y) by (intros ->; by destruct (Hne (NoDup_lookup _ _ _ _ Hnd Hi Hpos))). naive_solver.
Qed.

Lemma mark_used_total {E} (err : N → E) indexes assigned used :
  assigned ⊆ indexes → ∃ used', mark_used err indexes assigned used = Ok used'.
Proof.
  revert used. induction assigned as [|y assigned IH]; intros used Hs; cbn; [by eexists|].
  destruct (list_find _ indexes) as [[pos z]|] eqn:Hf.
  - apply IH. set_solver.
  - apply list_find_None in Hf. rewrite Forall_forall in Hf. exfalso. by apply (Hf y); [apply Hs; left|].
Qed.

(** Marking and the test for unused positions together compare two sets of indexes. *)
Lemma same_indexes {E} (err : N → E) (unused : E) indexes assigned :
  NoDup indexes →
  (used ← mark_used err indexes assigned (replicate (length indexes) false);
   ensure (forallb id used) unused) = Ok tt ↔ ∀ x, x ∈ indexes ↔ x ∈ assigned.
Proof.
  intros Hnd. rewrite bind_ok. setoid_rewrite ensure_ok. split.
  - intros (used & Hm & Hall). rewrite forallb_forall in Hall.
    apply mark_used_ok in Hm as (Hlen & Hs & Hu); [|done|apply length_replicate].
    intros x. split; [|apply Hs]. intros [i Hi]%list_elem_of_lookup.
    assert (i < length used) as [b Hb]%lookup_lt_is_Some by (rewrite Hlen; by eapply lookup_lt_Some).
    assert (b = true) as -> by (apply Hall, list_elem_of_In; by eapply list_elem_of_lookup_2).
    apply (Hu i x Hi) in Hb as [Hr|?]; [|done]. by apply lookup_replicate in Hr as [? _].
  - intros Heq. destruct (mark_used_total err indexes assigned (replicate (length indexes) false))
      as [used Hm]; [intros x; apply Heq|]. exists used. split; [done|].
    apply mark_used_ok in Hm as (Hlen & Hs & Hu); [|done|apply length_replicate].
    apply forallb_forall. intros b [i Hb]%list_elem_of_In%list_elem_of_lookup.
    assert (i < length indexes) as [x Hx]%lookup_lt_is_Some by (rewrite <- Hlen; by eapply lookup_lt_Some).
    assert (used !! i = Some true) as Ht.
    { apply (Hu i x Hx). right. apply Heq. by eapply list_elem_of_lookup_2. }
    by simplify_eq.
Qed.

(** The indexes are without repetition and are exactly those assigned. *)
Definition index_sets_match (indexes assigned : list N) : Prop :=
  NoDup indexes ∧ ∀ x, x ∈ indexes ↔ x ∈ assigned.

(** the aggregation data a committee agrees on is consistent.  The check accepts a value
    exactly if it assigns some validator, has one attestation per committee index, every
    attestation decodes in the shape of the version, and both for attestations and for sync
    contributions the indexes are distinct and are exactly those of the assigned
    validators. *)
Theorem aggregator_data_valid_iff value :
  aggregator_do_validation value = Ok tt ↔
  (ac_aggregators value ≠ [] ∨ ac_contributors value ≠ []) ∧
  length (ac_aggregator_committee_indexes value) = length (ac_aggregated_attestations value) ∧
  index_sets_match (ac_aggregator_committee_indexes value) (aa_committee_index <$> ac_aggregators value) ∧
  Forall (λ b, ∃ a, decode_attestation (ac_version value) b = Ok a) (ac_aggregated_attestations value) ∧
  index_sets_match (subcommittee_index <$> ac_sync_committee_contributions value)
    (aa_committee_index <$> ac_contributors value).
Proof.
  unfold aggregator_do_validation, index_sets_match.
  set (indexes := ac_aggregator_committee_indexes value).
  set (subs := subcommittee_index <$> _). set (atts := ac_aggregated_attestations value).
  assert (∀ (o : outcome AggregatorCommitteeValidationError unit), (∃ a, o = Ok a) ↔ o = Ok tt) as Hu
    by (intros o; split; [by intros [[] ?]|by exists tt]).
  assert ((negb (bool_decide (ac_aggregators value = []) && bool_decide (ac_contributors value = [])) = true)
    ↔ (ac_aggregators value ≠ [] ∨ ac_contributors value ≠ [])) as Hne.
  { rewrite negb_true_iff, andb_false_iff, !bool_decide_eq_false. done. }
  assert ((len indexes =? len atts)%N = true ↔ length indexes = length atts) as Hl
    by (unfold len; rewrite N.eqb_eq; lia).
  assert (∀ l, try_for_each (λ att_bytes, _ ← map_err AttestationDecodeError
      (decode_attestation (ac_version value) att_bytes); mret tt) l = Ok tt ↔
      Forall (λ b, ∃ a, decode_attestation (ac_version value) b = Ok a) l) as Hatt.
  { intros l. rewrite try_for_each_ok. split; intros H; (eapply Forall_impl; [exact H|]); cbn.
    - intros b [a [Ha%map_err_ok _]]%bind_ok. by exists a.
    - intros b [a Ha]. apply bind_ok. exists a. by rewrite map_err_ok. }
  pose proof (λ asg, same_indexes AggregatorCommitteeIndexMissing AggregatorCommitteeUnusedIndex indexes asg) as Hs1.
  pose proof (λ asg, same_indexes ContributorSubcommitteeMissing SyncSubcommitteeUnusedIndex subs asg) as Hs2.
  pose proof (check_distinct_ok DuplicateCommitteeIndex [] indexes) as Hd1.
  pose proof (check_distinct_ok DuplicateSyncSubcommittee [] subs) as Hd2.
  assert (∀ (l : list N) x, x ∈ l → x ∉ []) as Hnil by (intros ? ? ? ?%elem_of_nil; done).
  clearbody indexes subs atts. clear Hu. split.
  - intros ([] & H1%ensure_ok & ([] & H2%ensure_ok & ([] & H3 & (u1 & H4 & ([] & H5 & ([] & H6 & ([] & H7 &
      H8)%bind_ok)%bind_ok)%bind_ok)%bind_ok)%bind_ok)%bind_ok)%bind_ok.
    apply Hd1 in H3 as [H3 _]. apply Hd2 in H7 as [H7 _]. split; [by apply Hne|]. split; [by apply Hl|].
    split; [split; [done|]|split; [by apply Hatt|split; [done|]]].
    + apply (Hs1 _ H3). apply bind_ok. by exists u1.
    + by apply (Hs2 _ H7).
  - intros (H1%Hne & H2%Hl & [H3 H4] & H5%Hatt & [H6 H7]).
    apply (Hs1 _ H3) in H4 as (u & Hu1 & Hu2)%bind_ok. apply (Hs2 _ H6) in H7 as H7.
    apply bind_ok. exists tt. split; [by apply ensure_ok|]. apply bind_ok. exists tt. split; [by apply ensure_ok|].
    apply bind_ok. exists tt. split; [by apply Hd1; eauto|]. apply bind_ok. exists u. split; [done|].
    apply bind_ok. exists tt. split; [done|]. apply bind_ok. exists tt. split; [done|].
    apply bind_ok. exists tt. split; [by apply Hd2; eauto|done].
Qed.

(** ** What the vote validators accept *)

(** The part of the rules that does not depend on the slashing database. *)
Definition vote_acceptable (v : BeaconVoteValidator) (source target our_source our_target : Checkpoint)
    : Prop :=
  (cp_epoch target <= slot_add (slot_epoch (bvv_slot v) spe) 1)%N ∧
  ((cp_epoch source < cp_epoch target)%N ∨ cp_epoch source = 0%N ∧ cp_epoch target = 0%N) ∧
  if bvv_strict_mfp v then source = our_source ∧ target = our_target
  else cp_epoch source = cp_epoch our_source ∧ cp_epoch target = cp_epoch our_target.

Lemma check_epochs_ok slot source target :
  check_epochs slot source target = Ok tt ↔
  (cp_epoch target <= slot_add (slot_epoch slot spe) 1)%N ∧
  ((cp_epoch source < cp_epoch target)%N ∨ cp_epoch source = 0%N ∧ cp_epoch target = 0%N).
Proof.
  unfold check_epochs. generalize (slot_add (slot_epoch slot spe) 1) as e. intros e.
  set (s := cp_epoch source). set (t := cp_epoch target).
  assert (negb (e <? t)%N = true ↔ (t <= e)%N) as H1 by (rewrite negb_true_iff, N.ltb_ge; done).
  assert (negb ((t <=? s)%N && (negb (s =? 0)%N || negb (t =? 0)%N)) = true ↔
    ((s < t)%N ∨ s = 0%N ∧ t = 0%N)) as H2.
  { destruct (N.leb_spec t s), (N.eqb_spec s 0), (N.eqb_spec t 0); cbn; split; intros ?; try done; lia. }
  rewrite bind_ok, <- H1, <- H2. split.
  - intros ([] & K1%ensure_ok & K2%ensure_ok). done.
  - intros [K1 K2]. exists tt. by rewrite !ensure_ok.
Qed.

Lemma fork_protection_ok v source target our_source our_target :
  (if bvv_strict_mfp v then strict_majority_fork_protection source target our_source our_target
   else epoch_majority_fork_protection source target our_source our_target) = Ok tt ↔
  if bvv_strict_mfp v then source = our_source ∧ target = our_target
  else cp_epoch source = cp_epoch our_source ∧ cp_epoch target = cp_epoch our_target.
Proof.
  destruct (bvv_strict_mfp v); unfold strict_majority_fork_protection, epoch_majority_fork_protection;
    rewrite ensure_ok.
  - repeat case_bool_decide; cbn; naive_solver.
  - destruct (N.eqb_spec (cp_epoch source) (cp_epoch our_source)),
      (N.eqb_spec (cp_epoch target) (cp_epoch our_target)); cbn; naive_solver.
Qed.

Lemma acceptable_ok v source target our_source our_target (k : outcome BeaconVoteValidationError unit) :
  (_ ← check_epochs (bvv_slot v) source target;
   _ ← (if bvv_strict_mfp v then strict_majority_fork_protection source target our_source our_target
        else epoch_majority_fork_protection source target our_source our_target); k) = Ok tt ↔
  vote_acceptable v source target our_source our_target ∧ k = Ok tt.
Proof.
  unfold vote_acceptable. rewrite bind_ok. split.
  - intros ([] & [H1 H2]%check_epochs_ok & ([] & H3%fork_protection_ok & H4)%bind_ok). done.
  - intros ((H1 & H2 & H3) & H4). exists tt. rewrite check_epochs_ok. split; [done|].
    apply bind_ok. exists tt. by rewrite fork_protection_ok.
Qed.

(** The vote of every attesting validator, each with its own committee index. *)
Lemma vote_accepted_iff v db value our :
  vote_do_validation v db value our = Ok tt ↔
  vote_acceptable v (bv_source value) (bv_target value) (bv_source our) (bv_target our) ∧
  (bvv_slashing v = true → ∀ pk index, bvv_validator_attestation_committees v !! pk = Some index →
     preliminary_check_attestation db pk
       (mkAttestationData (bvv_slot v) index (bv_block_root value) (bv_source value) (bv_target value))
       (bs_get_domain (bvv_spec v) (slot_epoch (bvv_slot v) spe) Domain.BeaconAttester
          (bvv_genesis_validators_root v)) = Ok tt).
Proof.
  unfold vote_do_validation. rewrite acceptable_ok. apply and_iff_compat_l.
  unfold check_attestation_slashing. destruct (bvv_slashing v); [|naive_solver].
  rewrite try_for_each_ok, Forall_forall. split.
  - intros H _ pk index Hpk. apply elem_of_map_to_list in Hpk. apply H in Hpk as Hc. cbn in Hc.
    by apply map_err_ok in Hc.
  - intros H [pk index] Hpk. cbn. apply map_err_ok. apply H; [done|]. by apply elem_of_map_to_list.
Qed.

(** From Gloas on all validators are checked with the one decided index, which has two
    values, and is not that of a full payload for a block known to be of this slot. *)
Lemma gloas_accepted_iff v db value our :
  gloas_do_validation v db value our = Ok tt ↔
  vote_acceptable (gvv_base v) (gv_source value) (gv_target value) (gv_source our) (gv_target our) ∧
  (gv_attestation_data_index value < 2)%N ∧
  (gv_attestation_data_index value = 1%N → gvv_same_slot_head_root v ≠ Some (gv_block_root value)) ∧
  (bvv_slashing (gvv_base v) = true →
   ∀ pk, is_Some (bvv_validator_attestation_committees (gvv_base v) !! pk) →
     preliminary_check_attestation db pk
       (mkAttestationData (bvv_slot (gvv_base v)) (gv_attestation_data_index value)
          (gv_block_root value) (gv_source value) (gv_target value))
       (bs_get_domain (bvv_spec (gvv_base v)) (slot_epoch (bvv_slot (gvv_base v)) spe)
          Domain.BeaconAttester (bvv_genesis_validators_root (gvv_base v))) = Ok tt).
Proof.
  unfold gloas_do_validation. set (b := gvv_base v). set (i := gv_attestation_data_index value).
  assert (negb (2 <=? i)%N = true ↔ (i < 2)%N) as H1 by (rewrite negb_true_iff, N.leb_gt; done).
  assert (negb ((i =? 1)%N && bool_decide (gvv_same_slot_head_root v = Some (gv_block_root value))) = true ↔
    (i = 1%N → gvv_same_slot_head_root v ≠ Some (gv_block_root value))) as H2.
  { destruct (N.eqb_spec i 1); case_bool_decide; cbn; naive_solver. }
  assert (gloas_check_attestation_slashing v db value = Ok tt ↔ (bvv_slashing b = true →
    ∀ pk, is_Some (bvv_validator_attestation_committees b !! pk) →
    preliminary_check_attestation db pk
      (mkAttestationData (bvv_slot b) i (gv_block_root value) (gv_source value) (gv_target value))
      (bs_get_domain (bvv_spec b) (slot_epoch (bvv_slot b) spe) Domain.BeaconAttester
         (bvv_genesis_validators_root b)) = Ok tt)) as H3.
  { unfold gloas_check_attestation_slashing. fold b. fold i. destruct (bvv_slashing b); [|naive_solver].
    rewrite try_for_each_ok, Forall_forall. split.
    - intros H _ pk [index Hpk%elem_of_map_to_list]. apply (map_err_ok SlashableAttestation). apply H.
      apply list_elem_of_fmap. by exists (pk, index).
    - intros H pk ([pk' index] & -> & Hpk%elem_of_map_to_list)%list_elem_of_fmap. apply map_err_ok.
      apply H; [done|]. by exists index. }
  rewrite <- H1, <- H2, <- H3. pose proof (acceptable_ok b (gv_source value) (gv_target value)
    (gv_source our) (gv_target our) (gloas_check_attestation_slashing v db value)) as Ha.
  rewrite bind_ok in Ha. rewrite bind_ok. split.
  - intros ([] & K1 & ([] & K2%ensure_ok & ([] & K3%ensure_ok & K4)%bind_ok)%bind_ok).
    destruct Ha as [Ha _]. destruct Ha as [Ha1 Ha2]; [by exists tt|]. done.
  - intros (K1 & K2 & K3 & K4). destruct (proj2 Ha (conj K1 K4)) as ([] & K5 & K6).
    exists tt. split; [done|]. apply bind_ok. exists tt. rewrite ensure_ok. split; [done|].
    apply bind_ok. exists tt. by rewrite ensure_ok.
Qed.

(** ** What the proposer validator accepts *)

(** An accepted proposal is for our own duty, of the fork of its slot, and pins the block. *)
Lemma accepted_proposal v db value our :
  proposer_do_validation v db value our = Ok tt → vd_type (pcd_duty our) = BEACON_ROLE_PROPOSER →
  pcd_version value = fork_name_at_slot (pv_spec v) spe (vd_slot (pcd_duty our)) ∧
  vd_pub_key (pcd_duty value) = vd_pub_key (pcd_duty our) ∧
  ∃ header, proposal_header value = Ok header ∧ bh_slot header = vd_slot (pcd_duty our) ∧
    (ForkName.ge (pcd_version value) ForkName.Gloas = true →
       bh_proposer_index header = vd_validator_index (pcd_duty our)) ∧
    (pv_disable_slashing_protection v = false →
       preliminary_check_block_proposal db (pv_validator_pubkey v) header
         (bs_get_domain (pv_spec v) (slot_epoch (bh_slot header) spe) Domain.BeaconProposer
            (pv_genesis_validators_root v)) = Ok tt).
Proof.
  unfold proposer_do_validation.
  intros ([] & Hs%ensure_ok%N.eqb_eq & ([] & Ht%ensure_ok%N.eqb_eq & ([] & Hp%ensure_ok%bool_decide_eq_true &
    ([] & Hi%ensure_ok%N.eqb_eq & H)%bind_ok)%bind_ok)%bind_ok)%bind_ok Hty.
  rewrite Ht, Hty in H. cbn -[validate_block_proposal] in H. unfold validate_block_proposal in H.
  apply bind_ok in H as ([] & Hv%ensure_ok%bool_decide_eq_true & (header & Hh%map_err_ok &
    ([] & Hbs%ensure_ok%N.eqb_eq & ([] & Hbp%ensure_ok & Hsl)%bind_ok)%bind_ok)%bind_ok).
  rewrite <- Hs, <- Hi. split; [done|]. split; [done|]. exists header. split; [done|]. split; [done|]. split.
  - intros Hg. rewrite Hg in Hbp. cbn in Hbp. rewrite negb_involutive in Hbp. by apply N.eqb_eq.
  - intros Hdis. rewrite Hdis in Hsl. by apply map_err_ok in Hsl.
Qed.
End beacon.

(** The version codec accepts exactly the encodings. *)
Lemma data_version_codec bs v : data_version_decode bs = Ok v ↔ bs = data_version_encode v.
Proof.
  split.
  - unfold data_version_decode. case_decide as Hlen; [|done]. intros He.
    rewrite <- (to_from_le_bytes bs), Hlen. unfold data_version_encode. f_equal.
    repeat case_match; simplify_eq; done.
  - intros ->. by destruct v.
Qed.

(** Batches of different slots or committees have different hashes, if the hash has no
    collision on their preimages. *)
Lemma batch_id_inj sha256 (a b : SelectionProofBatchId) :
  (∀ x y, from_le_bytes (sha256 x) = from_le_bytes (sha256 y) → x = y) →
  (sb_slot a < 2 ^ 64)%N → (sb_slot b < 2 ^ 64)%N →
  batch_id_hash sha256 a = batch_id_hash sha256 b → a = b.
Proof.
  intros Hinj Ha Hb He%Hinj. destruct a as [sa ca], b as [sb cb]. unfold batch_id_preimage in He.
  cbn [sb_slot sb_committee_id] in *. apply app_inj_1 in He as [_ He]; [|done]. apply app_inj_1 in He as [He ->]; [|by rewrite !length_to_le_bytes].
  f_equal. by rewrite <- (from_to_le_bytes 8 sa), He, from_to_le_bytes.
Qed.
