(* ===== verification/Voting.v ===== *)
(** * Votes, assignments and the slot pipeline

    The data a slot's duties share, from [anchor/validator_store/src/lib.rs] ([SlotVote],
    [VotingContext], [VotingAssignments]), and how the metadata service
    ([metadata_service.rs]) builds it: which validators vote, the choice among the answers
    of several beacon nodes, the requests for aggregates, and the aggregation data a
    committee member proposes.  The theorems: an honest member's proposal passes every
    member's check, and depends only on the set of candidates; sync positions are counted
    without repetition; the weighted choice is one of the best answers. *)

From Stdlib Require Import SpecFloat.
From S2P Require Import Prelude SsvTypes ValidatorRules MessageRate BeaconTypes ConsensusData.

(** ** Sorting *)

(** [Ord] on [Hash256] compares the bytes from the first, those of the hash being in the
    order [from_le_bytes] reads them. *)
Definition hash256_ord (h : Hash256) : N := from_le_bytes (reverse (to_le_bytes 32 h)).

Definition pair_le (a b : N * N) : Prop := (a.1 < b.1)%N ∨ a.1 = b.1 ∧ (a.2 <= b.2)%N.
#[export] Instance pair_le_dec a b : Decision (pair_le a b).
Proof. unfold pair_le. apply _. Defined.

(** [sort_unstable_by_key]; elements with equal keys may come in any order, here the given
    one. *)
Definition sort_by_pair {A} (key : A → N * N) (l : list A) : list A :=
  merge_sort (λ x y, pair_le (key x) (key y)) l.

#[export] Instance pair_le_preorder : PreOrder pair_le.
Proof. unfold pair_le. split; [intros x; lia|intros x y z; lia]. Qed.
#[export] Instance pair_le_total : Total pair_le.
Proof. intros [a b] [c d]. unfold pair_le. cbn. lia. Qed.
#[export] Instance pair_le_antisymm : AntiSymm (=) pair_le.
Proof. intros [a b] [c d]. unfold pair_le. cbn. intros ? ?. f_equal; lia. Qed.

Lemma sort_by_pair_permutation {A} (key : A → N * N) l : sort_by_pair key l ≡ₚ l.
Proof. apply merge_sort_Permutation. Qed.

Lemma sort_by_pair_sorted {A} (key : A → N * N) l : StronglySorted pair_le (key <$> sort_by_pair key l).
Proof.
  assert (StronglySorted (λ x y, pair_le (key x) (key y)) (sort_by_pair key l)) as Hs.
  { assert (Transitive (λ x y, pair_le (key x) (key y))) by (intros x y z; apply transitivity).
    assert (Total (λ x y, pair_le (key x) (key y))) by (intros x y; apply pair_le_total).
    apply (StronglySorted_merge_sort _). }
  induction Hs as [|x l' Hs IH Hf]; cbn; [constructor|]. constructor; [done|]. by apply Forall_fmap.
Qed.

(** A list is determined by the set of its elements and the list of their distinct keys. *)
Lemma permutation_keys_eq {A K} (key : A → K) (l1 l2 : list A) :
  l1 ≡ₚ l2 → NoDup (key <$> l1) → key <$> l1 = key <$> l2 → l1 = l2.
Proof.
  revert l2. induction l1 as [|x l1 IH]; intros l2 Hp Hnd Hk.
  { by apply Permutation_nil in Hp. }
  destruct l2 as [|y l2]; [done|]. cbn in Hk. injection Hk as Hxy Hk. cbn in Hnd. apply NoDup_cons in Hnd as [Hx Hnd].
  assert (x = y) as ->.
  { assert (x ∈ y :: l2) as [->|Hin]%elem_of_cons by (rewrite <- Hp; by left); [done|].
    exfalso. apply Hx. rewrite Hk. apply list_elem_of_fmap. by exists x. }
  f_equal. apply IH; [by eapply Permutation_cons_inv|done|done].
Qed.

Lemma sort_by_pair_unique {A} (key : A → N * N) (l1 l2 : list A) :
  l1 ≡ₚ l2 → NoDup (key <$> l1) → sort_by_pair key l1 = sort_by_pair key l2.
Proof.
  intros Hp Hnd. apply (permutation_keys_eq key).
  - by rewrite !sort_by_pair_permutation.
  - by rewrite sort_by_pair_permutation.
  - apply (StronglySorted_unique pair_le); [apply sort_by_pair_sorted..|].
    by rewrite !sort_by_pair_permutation, Hp.
Qed.

(** ** [SlotVote] *)

Section voting.
Context `{BL : BeaconLib}.

(** [hash] of the two votes: SHA-256 of the derived encoding. *)
Context (beacon_vote_hash : BeaconVote → Hash256) (gloas_vote_hash : GloasBeaconVote → Hash256).
(** [AttestationData::tree_hash_root], from the [tree_hash] crate. *)
Context (attestation_data_root : AttestationData → Hash256).
(** [E::slots_per_epoch()] and [E::SyncSubcommitteeSize]. *)
Context (spe : positive) (sync_subcommittee_size : positive).

Inductive SlotVote :=
  | VoteBase (v : BeaconVote)
  | VoteGloas (v : GloasBeaconVote).
#[export] Instance SlotVote_eq_dec : EqDecision SlotVote.
Proof. solve_decision. Defined.

Definition sv_block_root (v : SlotVote) : Hash256 :=
  match v with VoteBase v => bv_block_root v | VoteGloas v => gv_block_root v end.
Definition sv_source (v : SlotVote) : Checkpoint :=
  match v with VoteBase v => bv_source v | VoteGloas v => gv_source v end.
Definition sv_target (v : SlotVote) : Checkpoint :=
  match v with VoteBase v => bv_target v | VoteGloas v => gv_target v end.
Definition sv_index (v : SlotVote) : N :=
  match v with VoteBase _ => 0 | VoteGloas v => gv_attestation_data_index v end.
Definition decided_index (v : SlotVote) : option N :=
  match v with VoteBase _ => None | VoteGloas v => Some (gv_attestation_data_index v) end.
Definition qbft_hash (v : SlotVote) : Hash256 :=
  match v with VoteBase v => beacon_vote_hash v | VoteGloas v => gloas_vote_hash v end.

(** ** [VotingAssignments] *)

Record VotingAssignments := mkVotingAssignments {
  va_slot : Slot;
  va_attesting_validators : list ValidatorIndex;
  va_attesting_committees : gmap PublicKeyBytes N;
  va_sync_validators_by_subnet : gmap ValidatorIndex (gmap N nat);
}.

Definition sync_validators (a : VotingAssignments) : list ValidatorIndex :=
  (map_to_list (va_sync_validators_by_subnet a)).*1.

(** One for an attesting validator, one per subnet for a validator in the sync committee. *)
Definition selection_proof_count_for_committee (a : VotingAssignments) (is_in_committee : ValidatorIndex → bool)
    : nat :=
  let count := foldl (λ count idx, if is_in_committee idx then count + 1 else count) 0
                 (va_attesting_validators a) in
  foldl (λ count '(idx, subnets), if is_in_committee idx then count + size (subnets : gmap N nat) else count)
    count (map_to_list (va_sync_validators_by_subnet a)).

(** One for an attesting validator, one for a validator in the sync committee. *)
Definition voting_message_count_for_committee (a : VotingAssignments) (is_in_committee : ValidatorIndex → bool)
    : nat :=
  let count := foldl (λ count idx, if is_in_committee idx then count + 1 else count) 0
                 (va_attesting_validators a) in
  foldl (λ count idx, if is_in_committee idx then count + 1 else count) count (sync_validators a).

(** ** [VotingContext] *)

(** The context is shared by reference: [vc_id] names it, and its locked map of decided
    votes lives in the store under that name. *)
Record VotingContext := mkVotingContext {
  vc_id : N;
  vc_voting_assignments : VotingAssignments;
  vc_vote : SlotVote;
  vc_same_slot_head_root : option Hash256;
}.

(** [SpecificError::CommitteeDecisionConflict] *)
Record CommitteeDecisionConflict := mkDecisionConflict {
  dc_slot : Slot;
  dc_committee_id : CommitteeId;
  dc_existing_decided_hash : Hash256;
  dc_new_decided_hash : Hash256;
}.

Definition remember_decided_vote (vc : VotingContext) (committee_id : CommitteeId) (vote : SlotVote)
    (decided_votes : gmap CommitteeId SlotVote)
    : outcome CommitteeDecisionConflict unit * gmap CommitteeId SlotVote :=
  match decided_votes !! committee_id with
  | None => (Ok tt, <[committee_id := vote]> decided_votes)
  | Some existing =>
      if decide (existing = vote) then (Ok tt, decided_votes)
      else (Err (mkDecisionConflict (va_slot (vc_voting_assignments vc)) committee_id
                   (qbft_hash existing) (qbft_hash vote)), decided_votes)
  end.

Definition vote_for_committee (vc : VotingContext) (decided_votes : gmap CommitteeId SlotVote)
    (committee_id : CommitteeId) : SlotVote :=
  default (vc_vote vc) (decided_votes !! committee_id).

(** ** Sync committee positions *)

(** The union of the positions reported for a validator. *)
Definition add_positions (m : gmap ValidatorIndex (gset N)) (duty : ValidatorIndex * list N)
    : gmap ValidatorIndex (gset N) :=
  <[duty.1 := default ∅ (m !! duty.1) ∪ list_to_set duty.2]> m.
Definition positions_by_validator (duties : list (ValidatorIndex * list N))
    : gmap ValidatorIndex (gset N) := foldl add_positions ∅ duties.

(** [*position_counts.entry(subnet_id).or_default() += 1] *)
Definition count_position (counts : gmap N nat) (position : N) : gmap N nat :=
  let subnet_id := (position `div` N.pos sync_subcommittee_size)%N in
  <[subnet_id := default 0 (counts !! subnet_id) + 1]> counts.

Definition build_sync_validator_assignments (duties : list (ValidatorIndex * list N))
    : gmap ValidatorIndex (gmap N nat) :=
  (λ positions : gset N, foldl count_position ∅ (elements positions)) <$> positions_by_validator duties.

(** An attester duty of the duties service: the validator, its key, the committee index and,
    for an aggregator, the selection proof. *)
Record DutyAndProof := mkDutyAndProof {
  dp_validator_index : N;
  dp_pubkey : PublicKeyBytes;
  dp_committee_index : N;
  dp_selection_proof : option BlsSignature;
}.

(** [MetadataService::update_voting_assignments]: what is published at the start of a slot;
    [sync_duties] are those of the slot, if known. *)
Definition update_voting_assignments (slot : Slot) (attesters : list DutyAndProof)
    (sync_duties : option (list (ValidatorIndex * list N))) : VotingAssignments :=
  mkVotingAssignments slot (dp_validator_index <$> attesters)
    (foldl (λ m d, <[dp_pubkey d := dp_committee_index d]> m) ∅ attesters)
    (default ∅ (build_sync_validator_assignments <$> sync_duties)).

(** ** Weighted attestation data *)

Record AttestationScore := mkAttestationScore {
  as_score : f64;
  as_base_score : f64;
  as_distance : option N;
  as_bonus : option f64;
}.

(** The sums are of [u64]s and wrap. *)
Definition calculate_attestation_score (attestation_data : AttestationData) (head_slot : option Slot)
    : AttestationScore :=
  let base_score := as_f64 (wrap64 (cp_epoch (ad_source attestation_data)
                                    + cp_epoch (ad_target attestation_data))) in
  match head_slot with
  | Some head_slot =>
      if (head_slot <=? ad_slot attestation_data)%N then
        let distance := (ad_slot attestation_data - head_slot)%N in
        let bonus := (as_f64 1 / as_f64 (wrap64 (1 + distance)))%f64 in
        mkAttestationScore (base_score + bonus)%f64 base_score (Some distance) (Some bonus)
      else mkAttestationScore base_score base_score None None
  | None => mkAttestationScore base_score base_score None None
  end.

Record ScoredAttestationData := mkScored {
  sa_client_addr : string;
  sa_attestation_data : AttestationData;
  sa_score : f64;
}.

(** [fetch_and_score], from the two answers of the beacon node. *)
Definition fetch_and_score (client_addr : string) (attestation_data : outcome string AttestationData)
    (head_slot : option Slot) : outcome string ScoredAttestationData :=
  data ← attestation_data;
  mret (mkScored client_addr data (as_score (calculate_attestation_score data head_slot))).

(** What the [select!] of [weighted_calculation] can take: the next finished request, or a
    timer. *)
Inductive WadEvent :=
  | Fetched (addr : string) (result : outcome string ScoredAttestationData)
  | SoftTimeout
  | HardTimeout.

Record WadState := mkWad {
  wad_succeeded : nat;
  wad_failed : nat;
  wad_best_data : option ScoredAttestationData;
  wad_soft_timeout_hit : bool;
}.
#[export] Instance WadState_eta : Eta WadState := λ w,
  mkWad (wad_succeeded w) (wad_failed w) (wad_best_data w) (wad_soft_timeout_hit w).

(** [Some(current) if current.score >= scored.score => current, _ => scored] *)
Definition better (best : option ScoredAttestationData) (scored : ScoredAttestationData)
    : ScoredAttestationData :=
  match best with
  | Some current => if SFleb (sa_score scored) (sa_score current) then current else scored
  | None => scored
  end.

(** One pass of the loop: the new state, and whether it breaks. *)
Definition wad_step (num_clients : nat) (w : WadState) (e : WadEvent) : WadState * bool :=
  match e with
  | Fetched addr result =>
      let w := match result with
               | Ok scored => w <| wad_succeeded := wad_succeeded w + 1 |>
                                <| wad_best_data := Some (better (wad_best_data w) scored) |>
               | _ => w <| wad_failed := wad_failed w + 1 |>
               end in
      (w, bool_decide (wad_succeeded w + wad_failed w = num_clients))
  | SoftTimeout =>
      if wad_soft_timeout_hit w then (w, false)
      else (w <| wad_soft_timeout_hit := true |>, bool_decide (is_Some (wad_best_data w)))
  | HardTimeout => (w, true)
  end.

(** The loop over what happens; [None] while it still waits.  The rest is not looked at. *)
Fixpoint wad_loop (num_clients : nat) (w : WadState) (events : list WadEvent)
    : option (WadState * list WadEvent) :=
  match events with
  | [] => None
  | e :: events =>
      let '(w, done) := wad_step num_clients w e in
      if done then Some (w, events) else wad_loop num_clients w events
  end.

Definition weighted_calculation (num_clients : nat) (events : list WadEvent)
    : option (outcome string AttestationData) :=
  '(w, _) ← wad_loop num_clients (mkWad 0 0 None false) events;
  Some (match wad_best_data w with
        | Some scored => Ok (sa_attestation_data scored)
        | None => Err "No attestation data from beacon nodes"
        end).

(** ** The vote of a slot *)

Definition slot_vote_from_attestation_data (spec : BeaconSpec) (slot : Slot) (d : AttestationData) : SlotVote :=
  if ForkName.gloas_enabled (fork_name_at_slot spec spe slot)
  then VoteGloas (mkGloasVote (ad_beacon_block_root d) (ad_source d) (ad_target d) (ad_index d))
  else VoteBase (mkBeaconVote (ad_beacon_block_root d) (ad_source d) (ad_target d)).

(** [HeadEvent], of the beacon-node fallback. *)
Record HeadEvent := mkHeadEvent {
  he_slot : Slot;
  he_beacon_block_root : Hash256;
  he_beacon_node_index : N;
}.

Definition same_slot_head_root (slot : Slot) (head_event : option HeadEvent) : option Hash256 :=
  event ← head_event;
  if (he_slot event =? slot)%N then Some (he_beacon_block_root event) else None.

(** [fetch_attestation_data_from_event], from the answer of the node that fired the event. *)
Definition fetch_attestation_data_from_event (answer : outcome string AttestationData) (event : HeadEvent)
    : option AttestationData :=
  match answer with
  | Ok data => if (ad_beacon_block_root data =? he_beacon_block_root event)%N then Some data else None
  | _ => None
  end.

(** [update_voting_context], from the answers of the beacon nodes: of the node that fired
    the event, if there was one, and of the fallback; the context gets the fresh name
    [id]. *)
Definition update_voting_context (spec : BeaconSpec) (slot : Slot) (voting_assignments : VotingAssignments)
    (head_event : option HeadEvent) (event_answer fallback_answer : outcome string AttestationData) (id : N)
    : outcome string VotingContext :=
  let same_slot_head_root := same_slot_head_root slot head_event in
  attestation_data ← match head_event with
                     | Some event =>
                         match fetch_attestation_data_from_event event_answer event with
                         | Some data => Ok data
                         | None => fallback_answer
                         end
                     | None => fallback_answer
                     end;
  let vote := slot_vote_from_attestation_data spec slot attestation_data in
  mret (mkVotingContext id voting_assignments vote same_slot_head_root).

(** ** Requests for aggregates *)

Definition aggregate_fetch_attestation_data (spec : BeaconSpec) (slot : Slot) (vote : SlotVote)
    (committee_index : N) : AttestationData :=
  let fork_name := fork_name_at_slot spec spe slot in
  mkAttestationData slot (if ForkName.ge fork_name ForkName.Electra then sv_index vote else committee_index)
    (sv_block_root vote) (sv_source vote) (sv_target vote).

(** [AggregateFetchKey] and [SyncContributionFetchKey] are pairs. *)
Abbreviation AggregateFetchKey := (N * N)%type (only parsing).
Abbreviation SyncContributionFetchKey := (N * N)%type (only parsing).

Definition aggregate_fetch_key (spec : BeaconSpec) (slot : Slot) (vote : SlotVote) (committee_index : N)
    : AggregateFetchKey :=
  (attestation_data_root (aggregate_fetch_attestation_data spec slot vote committee_index), committee_index).

Definition sync_contribution_fetch_key (vote : SlotVote) (subnet_id : N) : SyncContributionFetchKey :=
  (sv_block_root vote, subnet_id).

Record SyncAggregatorData := mkSyncAggregator {
  sy_validator_index : N;
  sy_pubkey : PublicKeyBytes;
  sy_selection_proof : BlsSignature;
}.

Record ResolvedCommitteeRequests := mkResolved {
  rr_votes : gmap CommitteeId SlotVote;
  rr_aggregate_attestation_keys : gset AggregateFetchKey;
  rr_sync_contribution_keys : gset SyncContributionFetchKey;
}.

Definition resolve_committee_requests (spec : BeaconSpec) (slot : Slot) (voting_context : VotingContext)
    (decided_votes : gmap CommitteeId SlotVote)
    (attesters_by_ssv_committee : gmap CommitteeId (list DutyAndProof))
    (sync_by_ssv_committee : gmap CommitteeId (list (N * SyncAggregatorData)))
    : ResolvedCommitteeRequests :=
  let ssv_committees := dom attesters_by_ssv_committee ∪ dom sync_by_ssv_committee in
  foldl (λ acc ssv_committee_id,
    let vote := vote_for_committee voting_context decided_votes ssv_committee_id in
    mkResolved (<[ssv_committee_id := vote]> (rr_votes acc))
      (rr_aggregate_attestation_keys acc ∪
         list_to_set ((λ attester, aggregate_fetch_key spec slot vote (dp_committee_index attester))
                        <$> default [] (attesters_by_ssv_committee !! ssv_committee_id)))
      (rr_sync_contribution_keys acc ∪
         list_to_set ((λ entry, sync_contribution_fetch_key vote entry.1)
                        <$> default [] (sync_by_ssv_committee !! ssv_committee_id))))
    (mkResolved ∅ ∅ ∅) (elements ssv_committees).

(** ** Aggregation data *)

(** [MetadataService::update_aggregation_assignments], the pass over the attesters:
    [committee_of] is [get_validator_and_cluster(..).ok().map(|(_, c)| c.committee_id())]. *)
Definition group_attesters (committee_of : PublicKeyBytes → option CommitteeId) (attesters : list DutyAndProof)
    : gmap PublicKeyBytes N * gmap CommitteeId (list DutyAndProof) :=
  foldl (λ '(committees, by_committee) attester,
    match dp_selection_proof attester, committee_of (dp_pubkey attester) with
    | Some _, Some ssv_committee_id =>
        (<[dp_pubkey attester := dp_committee_index attester]> committees,
         <[ssv_committee_id := default [] (by_committee !! ssv_committee_id) ++ [attester]]> by_committee)
    | _, _ => (committees, by_committee)
    end) (∅, ∅) attesters.

(** The pass over the sync aggregators, by subnet. *)
Definition group_sync (committee_of : PublicKeyBytes → option CommitteeId)
    (aggregators : list (N * list SyncAggregatorData))
    : gmap PublicKeyBytes nat * gmap CommitteeId (list (N * SyncAggregatorData)) :=
  foldl (λ acc '(subnet_id, subnet_aggregators),
    foldl (λ '(counts, by_committee) sync_aggregator,
      match committee_of (sy_pubkey sync_aggregator) with
      | Some ssv_committee_id =>
          (<[sy_pubkey sync_aggregator := default 0 (counts !! sy_pubkey sync_aggregator) + 1]> counts,
           <[ssv_committee_id := default [] (by_committee !! ssv_committee_id)
                                 ++ [(subnet_id, sync_aggregator)]]> by_committee)
      | None => (counts, by_committee)
      end) acc subnet_aggregators) (∅, ∅) aggregators.

(** The validators that aggregate on several subnets, with the size of their barrier. *)
Definition multi_sync_aggregators (validator_subnet_counts : gmap PublicKeyBytes nat)
    : gmap PublicKeyBytes nat :=
  filter (λ p, 1 < p.2) validator_subnet_counts.

(** An [IndexSet] keeps the first of equal elements, in order. *)
Definition index_set_insert (acc : list N) (x : N) : list N :=
  if decide (x ∈ acc) then acc else acc ++ [x].
Definition index_set (l : list N) : list N := foldl index_set_insert [] l.

(** [AggregationFetchResults] *)
Record AggregationFetchResults := mkFetchResults {
  fr_aggregated_attestations : gmap AggregateFetchKey Attestation;
  fr_sync_contributions : gmap SyncContributionFetchKey SyncCommitteeContribution;
}.

(** The derived SSZ encoding of an attestation. *)
Context (attestation_as_ssz : Attestation → bytes).

Definition MaxAggregators : N := 3000.
Definition MaxContributors : N := 2048.
Definition MaxCommitteeIndexes : N := 64.
Definition MaxSyncContributions : N := 4.
Definition MaxAggregatedAttestationBytes : N := 131308.

Definition sort_aggregators_by_validator_index : list AssignedAggregator → list AssignedAggregator :=
  sort_by_pair (λ a, (aa_validator_index a, 0%N)).

Definition sort_contributors_by_signing_root_then_validator_index
    : list (Hash256 * AssignedAggregator) → list (Hash256 * AssignedAggregator) :=
  sort_by_pair (λ c, (hash256_ord c.1, aa_validator_index c.2)).

Definition build_consensus_data_from_candidates (spec : BeaconSpec) (slot : Slot) (vote : SlotVote)
    (aggregators : list AssignedAggregator) (contributors_with_roots : list (Hash256 * AssignedAggregator))
    (fetch_results : AggregationFetchResults) : outcome string (option AggregatorCommitteeConsensusData) :=
  let aggregators := sort_aggregators_by_validator_index aggregators in
  let aggregators := filter (λ a, is_Some (fr_aggregated_attestations fetch_results !!
                                aggregate_fetch_key spec slot vote (aa_committee_index a))) aggregators in
  let contributors_with_roots :=
    sort_contributors_by_signing_root_then_validator_index contributors_with_roots in
  let contributors_with_roots :=
    filter (λ c, is_Some (fr_sync_contributions fetch_results !!
                    sync_contribution_fetch_key vote (aa_committee_index c.2))) contributors_with_roots in
  let contributors := contributors_with_roots.*2 in
  if decide (aggregators = [] ∧ contributors = []) then Ok None
  else
    let attestation_committee_indexes := index_set (aa_committee_index <$> aggregators) in
    attestations_bytes ←
      try_map (λ attestation,
          try_to_variable_list MaxAggregatedAttestationBytes (λ _ _, "Failed to create attestation bytes"%string)
            (attestation_as_ssz attestation))
        (omap (λ committee_index, fr_aggregated_attestations fetch_results !!
                 aggregate_fetch_key spec slot vote committee_index) attestation_committee_indexes);
    let subnet_ids := index_set (aa_committee_index <$> contributors) in
    let contributions := omap (λ id, fr_sync_contributions fetch_results !!
                                 sync_contribution_fetch_key vote id) subnet_ids in
    let version := bs_fork_name_at_epoch spec (slot_epoch slot spe) in
    aggregators ← try_to_variable_list MaxAggregators (λ _ _, "aggregators"%string) aggregators;
    indexes ← try_to_variable_list MaxCommitteeIndexes (λ _ _, "aggregator_committee_indexes"%string)
                attestation_committee_indexes;
    attestations ← try_to_variable_list MaxCommitteeIndexes (λ _ _, "aggregated_attestations"%string)
                     attestations_bytes;
    contributors ← try_to_variable_list MaxContributors (λ _ _, "contributors"%string) contributors;
    contributions ← try_to_variable_list MaxSyncContributions (λ _ _, "sync_committee_contributions"%string)
                      contributions;
    mret (Some (mkAggregatorData version aggregators indexes attestations contributors contributions)).

Section committees.
(** [AnchorValidatorStore::compute_sync_selection_root]: [SyncAggregatorSelectionData] and
    its signing root are the [types] crate's. *)
Context (sync_selection_signing_root : Slot → N → Hash256 → Hash256).

Definition compute_sync_selection_root (spec : BeaconSpec) (genesis_validators_root : Hash256)
    (slot : Slot) (subnet_id : N) : Hash256 :=
  let epoch := slot_epoch slot spe in
  let domain := bs_get_domain spec epoch Domain.SyncCommitteeSelectionProof genesis_validators_root in
  sync_selection_signing_root slot subnet_id domain.

Definition build_consensus_data_for_committee (spec : BeaconSpec) (genesis_validators_root : Hash256)
    (slot : Slot) (ssv_committee_attesters : option (list DutyAndProof))
    (ssv_committee_sync : option (list (N * SyncAggregatorData))) (vote : SlotVote)
    (fetch_results : AggregationFetchResults) : outcome string (option AggregatorCommitteeConsensusData) :=
  let aggregators :=
    omap (λ d, proof ← dp_selection_proof d;
               Some (mkAssignedAggregator (dp_validator_index d) proof (dp_committee_index d)))
      (default [] ssv_committee_attesters) in
  let contributors_with_roots :=
    (λ '(subnet_id, a),
       (compute_sync_selection_root spec genesis_validators_root slot subnet_id,
        mkAssignedAggregator (sy_validator_index a) (sy_selection_proof a) subnet_id))
      <$> default [] ssv_committee_sync in
  build_consensus_data_from_candidates spec slot vote aggregators contributors_with_roots fetch_results.

(** [build_consensus_data_for_all_committees], from the fetched answers. *)
Definition build_consensus_data_for_all_committees (spec : BeaconSpec) (genesis_validators_root : Hash256)
    (slot : Slot) (requests : ResolvedCommitteeRequests)
    (attesters_by_ssv_committee : gmap CommitteeId (list DutyAndProof))
    (sync_by_ssv_committee : gmap CommitteeId (list (N * SyncAggregatorData)))
    (fetch_results : AggregationFetchResults)
    : outcome string (list (CommitteeId * AggregatorCommitteeConsensusData)) :=
  data ← try_map (λ '(ssv_committee_id, vote),
           data ← build_consensus_data_for_committee spec genesis_validators_root slot
                    (attesters_by_ssv_committee !! ssv_committee_id)
                    (sync_by_ssv_committee !! ssv_committee_id) vote fetch_results;
           Ok (match data with Some d => [(ssv_committee_id, d)] | None => [] end))
         (map_to_list (rr_votes requests));
  mret (concat data).
End committees.

(** ** Index sets *)

Lemma index_set_foldl acc l :
  NoDup acc → NoDup (foldl index_set_insert acc l) ∧
  ∀ x, x ∈ foldl index_set_insert acc l ↔ x ∈ acc ∨ x ∈ l.
Proof.
  revert acc. induction l as [|y l IH]; intros acc Hnd; cbn.
  { split; [done|]. intros x. rewrite elem_of_nil. tauto. }
  unfold index_set_insert at 2 4. case_decide as Hy.
  - destruct (IH acc Hnd) as [H1 H2]. split; [done|]. intros x. rewrite H2, elem_of_cons. naive_solver.
  - destruct (IH (acc ++ [y])) as [H1 H2].
    { apply NoDup_app. split; [done|]. split; [|apply NoDup_singleton].
      intros x Hx ->%list_elem_of_singleton. done. }
    split; [done|]. intros x. rewrite H2, elem_of_app, list_elem_of_singleton, elem_of_cons. tauto.
Qed.

Lemma index_set_NoDup l : NoDup (index_set l).
Proof. apply index_set_foldl. constructor. Qed.
Lemma elem_of_index_set l x : x ∈ index_set l ↔ x ∈ l.
Proof.
  pose proof (proj2 (index_set_foldl [] l (NoDup_nil_2)) x) as H. unfold index_set.
  rewrite H, elem_of_nil. tauto.
Qed.

(** ** Aggregation data *)

(** What the data takes from the answers of the beacon nodes fits: the attestations decode in
    the shape of the slot's fork, and the contributions are, in some order, of the
    subcommittees that were asked for. *)
Definition answers_fit (spec : BeaconSpec) (slot : Slot) (data : AggregatorCommitteeConsensusData) : Prop :=
  Forall (λ bs, ∃ a, decode_attestation (bs_fork_name_at_epoch spec (slot_epoch slot spe)) bs = Ok a)
    (ac_aggregated_attestations data) ∧
  subcommittee_index <$> ac_sync_committee_contributions data
    ≡ₚ index_set (aa_committee_index <$> ac_contributors data).

(** Every index has its object, so the look-ups keep all of them. *)
Lemma omap_lookup_all {V} (f : N → option V) l :
  (∀ x, x ∈ l → is_Some (f x)) → ∃ vs, omap f l = vs ∧ length vs = length l ∧
  Forall2 (λ x v, f x = Some v) l vs.
Proof.
  induction l as [|x l IH]; intros H; cbn; [by exists []|].
  destruct (H x) as [v Hv]; [by left|]. destruct IH as (vs & H1 & H2 & H3); [intros y Hy; apply H; by right|].
  rewrite Hv, H1. exists (v :: vs). cbn. split; [done|]. split; [congruence|]. by constructor.
Qed.

Lemma build_consensus_data_inv spec slot vote aggs cons r data :
  build_consensus_data_from_candidates spec slot vote aggs cons r = Ok (Some data) →
  (ac_aggregators data ≠ [] ∨ ac_contributors data ≠ []) ∧
  ac_version data = bs_fork_name_at_epoch spec (slot_epoch slot spe) ∧
  ac_aggregator_committee_indexes data = index_set (aa_committee_index <$> ac_aggregators data) ∧
  (∀ a, a ∈ ac_aggregators data → a ∈ aggs ∧ is_Some (fr_aggregated_attestations r !!
     aggregate_fetch_key spec slot vote (aa_committee_index a))) ∧
  ac_aggregated_attestations data = attestation_as_ssz <$>
    omap (λ i, fr_aggregated_attestations r !! aggregate_fetch_key spec slot vote i)
      (ac_aggregator_committee_indexes data) ∧
  (∀ c, c ∈ ac_contributors data → c ∈ cons.*2 ∧ is_Some (fr_sync_contributions r !!
     sync_contribution_fetch_key vote (aa_committee_index c))) ∧
  ac_sync_committee_contributions data =
    omap (λ id, fr_sync_contributions r !! sync_contribution_fetch_key vote id)
      (index_set (aa_committee_index <$> ac_contributors data)).
Proof.
  unfold build_consensus_data_from_candidates. case_decide as Hemp; [done|].
  set (aggs' := filter _ (sort_aggregators_by_validator_index aggs)) in *.
  set (cons' := filter _ (sort_contributors_by_signing_root_then_validator_index cons)) in *.
  intros (atts & Hatts & (? & [-> _]%try_to_variable_list_ok & (? & [-> _]%try_to_variable_list_ok &
    (? & [-> _]%try_to_variable_list_ok & (? & [-> _]%try_to_variable_list_ok &
    (? & [-> _]%try_to_variable_list_ok & [= <-])%bind_ok)%bind_ok)%bind_ok)%bind_ok)%bind_ok)%bind_ok.
  cbn [ac_version ac_aggregators ac_aggregator_committee_indexes ac_aggregated_attestations ac_contributors
    ac_sync_committee_contributions]. split.
  { destruct (decide (aggs' = [])); [right|by left]. intros ?. by apply Hemp. }
  split; [done|]. split; [done|]. split.
  { intros a [H1 H2]%list_elem_of_filter. split; [|done].
    unfold sort_aggregators_by_validator_index in H2. by rewrite sort_by_pair_permutation in H2. }
  split.
  { apply try_map_ok in Hatts. clear -Hatts. induction Hatts as [|a b l k Hab _ IH]; [done|].
    apply try_to_variable_list_ok in Hab as [-> _]. cbn. by rewrite IH. }
  split; [|done]. intros c ([root c'] & -> & [H1 H2]%list_elem_of_filter)%list_elem_of_fmap. split; [|done].
  unfold sort_contributors_by_signing_root_then_validator_index in H2. rewrite sort_by_pair_permutation in H2.
  apply list_elem_of_fmap. by exists (root, c').
Qed.

(** The check of built data only depends on the answers. *)
Lemma built_data_valid spec slot vote aggs cons r data :
  build_consensus_data_from_candidates spec slot vote aggs cons r = Ok (Some data) →
  aggregator_do_validation data = Ok tt ↔ answers_fit spec slot data.
Proof.
  intros (Hne & Hv & Hi & Ha & Hatt & Hc & Hcon)%build_consensus_data_inv.
  destruct (omap_lookup_all (λ i, fr_aggregated_attestations r !! aggregate_fetch_key spec slot vote i)
    (ac_aggregator_committee_indexes data)) as (vs & H1 & H2 & _).
  { intros x. rewrite Hi, elem_of_index_set. intros (a & -> & Hin)%list_elem_of_fmap. by apply Ha. }
  assert (length (ac_aggregator_committee_indexes data) = length (ac_aggregated_attestations data)) as Hlen.
  { rewrite Hatt, H1, length_fmap. congruence. }
  assert (index_sets_match (ac_aggregator_committee_indexes data) (aa_committee_index <$> ac_aggregators data)) as Hm.
  { rewrite Hi. split; [apply index_set_NoDup|]. intros x. apply elem_of_index_set. }
  assert (∀ l : list N, index_sets_match l (aa_committee_index <$> ac_contributors data) ↔
            l ≡ₚ index_set (aa_committee_index <$> ac_contributors data)) as Hs.
  { intros l. split.
    - intros [Hn He]. apply NoDup_Permutation; [done|apply index_set_NoDup|]. intros x. by rewrite He, elem_of_index_set.
    - intros Hp. split; [rewrite Hp; apply index_set_NoDup|]. intros x. by rewrite Hp, elem_of_index_set. }
  rewrite aggregator_data_valid_iff, Hs, Hv. unfold answers_fit. tauto.
Qed.

(** Answers to what was asked: attestations of the slot's fork, and contributions of the
    subcommittee in the request. *)
Definition fetched_ok (spec : BeaconSpec) (slot : Slot) (r : AggregationFetchResults) : Prop :=
  (∀ k a, fr_aggregated_attestations r !! k = Some a →
     ∃ a', decode_attestation (bs_fork_name_at_epoch spec (slot_epoch slot spe)) (attestation_as_ssz a) = Ok a') ∧
  (∀ root id c, fr_sync_contributions r !! (root, id) = Some c → subcommittee_index c = id).

Lemma fetched_ok_fit spec slot vote aggs cons r data :
  fetched_ok spec slot r →
  build_consensus_data_from_candidates spec slot vote aggs cons r = Ok (Some data) → answers_fit spec slot data.
Proof.
  intros [Hf1 Hf2] (_ & _ & _ & _ & Hatt & Hc & Hcon)%build_consensus_data_inv. split.
  - rewrite Hatt. apply Forall_fmap, Forall_forall. intros a (i & _ & Hi)%list_elem_of_omap. by eapply Hf1.
  - destruct (omap_lookup_all (λ id, fr_sync_contributions r !! sync_contribution_fetch_key vote id)
      (index_set (aa_committee_index <$> ac_contributors data))) as (cs & K1 & _ & K3).
    { intros x. rewrite elem_of_index_set. intros (a & -> & Hin)%list_elem_of_fmap. by apply Hc. }
    rewrite K1 in Hcon. rewrite Hcon. clear -K3 Hf2. induction K3 as [|x c l k Hx _ IH]; [done|].
    cbn. rewrite IH. by rewrite (Hf2 _ _ _ Hx).
Qed.

(** C39: operators agree on aggregation data.  When two operators have built data for a slot,
    the second accepts what the first built exactly if the answers of the beacon nodes that
    went into it fit: its attestations decode in the shape of the slot's fork, and its
    contributions are of the subcommittees that were asked for.  Nothing else the first
    operator selected or fetched can make the check fail.  And with distinct validators,
    and distinct validators per signing root of the contributors, the data does not depend
    on the order in which they were selected. *)
Theorem aggregation_data_agrees spec slot vote aggs cons r data vote' aggs' cons' r' our :
  build_consensus_data_from_candidates spec slot vote aggs cons r = Ok (Some data) →
  build_consensus_data_from_candidates spec slot vote' aggs' cons' r' = Ok (Some our) →
  (aggregator_validate data our = true ↔ answers_fit spec slot data) ∧
  ∀ aggs2 cons2, aggs ≡ₚ aggs2 → cons ≡ₚ cons2 → NoDup (aa_validator_index <$> aggs) →
    NoDup ((λ c, (hash256_ord c.1, aa_validator_index c.2)) <$> cons) →
    build_consensus_data_from_candidates spec slot vote aggs2 cons2 r = Ok (Some data).
Proof.
  intros Hb Hb'. split.
  - pose proof (built_data_valid _ _ _ _ _ _ _ Hb) as Hv.
    apply build_consensus_data_inv in Hb as (_ & Hb & _). apply build_consensus_data_inv in Hb' as (_ & Hb' & _).
    unfold aggregator_validate. rewrite decide_True by congruence. rewrite <- Hv.
    destruct (aggregator_do_validation data) as [[]| |]; split; intros H; done.
  - intros aggs2 cons2 Ha Hc Hna Hnc. revert Hb. unfold build_consensus_data_from_candidates.
    unfold sort_aggregators_by_validator_index, sort_contributors_by_signing_root_then_validator_index.
    rewrite (sort_by_pair_unique _ aggs aggs2 Ha), (sort_by_pair_unique _ cons cons2 Hc Hnc); [done|].
    apply (NoDup_fmap_1 fst). rewrite <- list_fmap_compose. exact Hna.
Qed.

(** ** Sync positions *)

(** The positions all duties report for a validator. *)
Definition reported_positions (duties : list (ValidatorIndex * list N)) (v : ValidatorIndex) : gset N :=
  list_to_set (concat ((λ d, if decide (d.1 = v) then d.2 else []) <$> duties)).

Lemma positions_by_validator_spec duties v :
  default ∅ (positions_by_validator duties !! v) = reported_positions duties v.
Proof.
  unfold positions_by_validator, reported_positions.
  assert (∀ m, default ∅ (foldl add_positions m duties !! v)
    = default ∅ (m !! v) ∪ list_to_set (concat ((λ d, if decide (d.1 = v) then d.2 else []) <$> duties))) as H.
  { induction duties as [|[i ps] duties IH]; intros m; cbn; [set_solver|]. rewrite IH. unfold add_positions. cbn.
    destruct (decide (i = v)) as [->|Hi].
    - rewrite lookup_insert_eq. cbn. rewrite list_to_set_app_L. set_solver.
    - by rewrite lookup_insert_ne. }
  rewrite H. rewrite lookup_empty. cbn. set_solver.
Qed.

Lemma count_positions l counts s :
  default 0 (foldl count_position counts l !! s) =
  default 0 (counts !! s) + length (filter (λ p, (p `div` N.pos sync_subcommittee_size)%N = s) l).
Proof.
  revert counts. induction l as [|p l IH]; intros counts; cbn [foldl]; [cbn; lia|].
  rewrite IH, filter_cons. unfold count_position. case_decide as Hp.
  - subst s. rewrite lookup_insert_eq. cbn. lia.
  - by rewrite lookup_insert_ne.
Qed.

(** A subnet counts the distinct positions of the validator in it, however often and in
    whatever order they were reported. *)
Lemma sync_positions_counted duties v s :
  default 0 (build_sync_validator_assignments duties !! v ≫= (.!! s)) =
  size (filter (λ p, (p `div` N.pos sync_subcommittee_size)%N = s) (reported_positions duties v)).
Proof.
  unfold build_sync_validator_assignments. rewrite lookup_fmap, <- positions_by_validator_spec.
  destruct (positions_by_validator duties !! v) as [ps|]; cbn.
  - rewrite count_positions, lookup_empty. cbn.
    by rewrite <- (size_list_to_set (C:=gset N) (filter _ (elements ps))) by (apply NoDup_filter, NoDup_elements).
  - done.
Qed.

(** ** Scores are numbers *)

Lemma shr_1_nonneg r : (0 <= shr_m r)%Z → (0 <= shr_m (shr_1 r))%Z.
Proof. destruct r as [[|[]|[]] r' s]; cbn; lia. Qed.

Lemma shr_nonneg r e n : (0 <= shr_m r)%Z → (0 <= shr_m (shr r e n).1)%Z.
Proof.
  intros Hr. destruct n as [|p|p]; cbn; [done| |done]. revert r Hr.
  induction p as [p IH|p IH|]; intros r Hr; cbn;
    repeat first [done|apply IH|apply shr_1_nonneg].
Qed.

Lemma shr_fexp_nonneg m e l : (0 <= m)%Z → (0 <= shr_m (shr_fexp 53 1024 m e l).1)%Z.
Proof. intros Hm. apply shr_nonneg. by destruct l as [|[]]. Qed.

Definition is_number (f : f64) : Prop := f ≠ S754_nan.
Definition positive_sign (f : f64) : Prop :=
  match f with
  | S754_zero s | S754_infinity s | S754_finite s _ _ => s = false
  | S754_nan => False
  end.

Lemma binary_round_aux_number s m e l :
  (0 <= m)%Z → match binary_round_aux 53 1024 s m e l with
               | S754_zero s' | S754_infinity s' | S754_finite s' _ _ => s' = s
               | S754_nan => False
               end.
Proof.
  intros Hm. unfold binary_round_aux. pose proof (shr_fexp_nonneg m e l Hm) as H1.
  destruct (shr_fexp 53 1024 m e l) as [r1 e1]. cbn [fst] in H1.
  assert (0 <= round_nearest_even (shr_m r1) (loc_of_shr_record r1))%Z as H2.
  { destruct (loc_of_shr_record r1) as [|[]]; cbn; try destruct (Z.even _); lia. }
  pose proof (shr_fexp_nonneg _ e1 loc_Exact H2) as H3.
  destruct (shr_fexp 53 1024 _ e1 loc_Exact) as [r2 e2]. cbn [fst] in H3.
  destruct (shr_m r2); [done| |lia]. by destruct (_ <=? _)%Z.
Qed.

Lemma binary_normalize_positive p e : positive_sign (binary_normalize 53 1024 (Z.pos p) e false).
Proof.
  unfold binary_normalize, binary_round. destruct (shl_align p e _) as [m e'].
  pose proof (binary_round_aux_number false (Z.pos m) e' loc_Exact) as H.
  destruct (binary_round_aux 53 1024 false (Z.pos m) e' loc_Exact); cbn; apply H; lia.
Qed.

Lemma as_f64_positive n : positive_sign (as_f64 n).
Proof. destruct n as [|p]; [done|]. apply binary_normalize_positive. Qed.

Lemma f64_add_positive a b : positive_sign a → positive_sign b → positive_sign (f64_add a b).
Proof.
  destruct a as [[]|[]| |[] ma ea], b as [[]|[]| |[] mb eb]; try done. intros _ _.
  apply (binary_normalize_positive
    (fst (shl_align ma ea (Z.min ea eb)) + fst (shl_align mb eb (Z.min ea eb)))).
Qed.

Lemma f64_div_positive a b : positive_sign a → positive_sign b → (∃ m e, a = S754_finite false m e) →
  positive_sign (f64_div a b).
Proof.
  intros _ Hb (m & e & ->). destruct b as [[]|[]| |[] mb eb]; try done. unfold f64_div, SFdiv.
  destruct (SFdiv_core_binary 53 1024 (Z.pos m) e (Z.pos mb) eb) as [[mz ez] lz] eqn:Hc.
  assert (0 <= mz)%Z as Hmz.
  { unfold SFdiv_core_binary in Hc. set (e' := Z.min _ _) in Hc.
    set (m' := match (e - eb - e')%Z with Z0 => _ | Z.pos _ => _ | Z.neg _ => _ end) in Hc.
    assert (0 <= m')%Z by (unfold m'; destruct (e - eb - e')%Z; [lia| |lia]; apply Z.shiftl_nonneg; lia).
    pose proof (Z.div_pos m' (Z.pos mb)) as Hd. unfold Z.div in Hd. destruct (Z.div_eucl m' (Z.pos mb)) as [q r'].
    injection Hc as <- _ _. apply Hd; lia. }
  pose proof (binary_round_aux_number false mz ez lz Hmz) as H. cbn [xorb].
  by destruct (binary_round_aux 53 1024 false mz ez lz).
Qed.

Lemma score_positive d head_slot : positive_sign (as_score (calculate_attestation_score d head_slot)).
Proof.
  unfold calculate_attestation_score. destruct head_slot as [h|]; [|apply as_f64_positive].
  destruct (h <=? ad_slot d)%N; [|apply as_f64_positive].
  apply f64_add_positive; [apply as_f64_positive|].
  apply f64_div_positive; [apply as_f64_positive..|]. vm_compute. by eexists _, _.
Qed.

(** On such numbers the comparison is a total preorder. *)
Definition rank (f : f64) : Z * Z * Z :=
  match f with
  | S754_finite _ m e => (1, e, Z.pos m)
  | S754_infinity _ => (2, 0, 0)
  | _ => (0, 0, 0)
  end%Z.

Definition rank_le (a b : Z * Z * Z) : Prop :=
  (a.1.1 < b.1.1 ∨ a.1.1 = b.1.1 ∧ (a.1.2 < b.1.2 ∨ a.1.2 = b.1.2 ∧ a.2 <= b.2))%Z.

Lemma SFleb_rank a b : positive_sign a → positive_sign b → SFleb a b = true ↔ rank_le (rank a) (rank b).
Proof.
  unfold rank_le. destruct a as [sa|sa| |sa ma ea], b as [sb|sb| |sb mb eb]; try done; cbn; intros -> ->; cbn;
    try (split; intros; (done || lia)).
  unfold SFleb. cbn. change (Pos.compare_cont Eq ma mb) with (Pos.compare ma mb).
  destruct (Z.compare_spec ea eb); cbn; [destruct (Pos.compare_spec ma mb)| |]; split; intros; try done; lia.
Qed.

Lemma better_max best scored :
  positive_sign (sa_score scored) → (∀ b, best = Some b → positive_sign (sa_score b)) →
  let c := better best scored in
  positive_sign (sa_score c) ∧ (c = scored ∨ best = Some c) ∧
  SFleb (sa_score scored) (sa_score c) = true ∧ (∀ b, best = Some b → SFleb (sa_score b) (sa_score c) = true).
Proof.
  intros Hs Hb. assert (∀ f, positive_sign f → SFleb f f = true) as Hr.
  { intros f Hf. apply SFleb_rank; [done..|]. unfold rank_le. lia. }
  destruct best as [b|]; cbn; [|split; [done|]; split; [by left|]; split; [by apply Hr|done]]. specialize (Hb b eq_refl).
  destruct (SFleb (sa_score scored) (sa_score b)) eqn:Hle.
  - split; [done|]. split; [by right|]. split; [done|]. intros ? [= <-]. by apply Hr.
  - split; [done|]. split; [by left|]. split; [by apply Hr|]. intros ? [= <-].
    apply SFleb_rank; [done..|]. apply not_true_iff_false in Hle. rewrite SFleb_rank in Hle by done.
    unfold rank_le in *. lia.
Qed.

(** The answers the loop took from the beacon nodes. *)
Definition fetched (events : list WadEvent) : list ScoredAttestationData :=
  omap (λ e, match e with Fetched _ (Ok scored) => Some scored | _ => None end) events.

(** [w] is the state after [events]: it holds a best answer as soon as there is one. *)
Definition wad_inv (events : list WadEvent) (w : WadState) : Prop :=
  match wad_best_data w with
  | Some b => b ∈ fetched events ∧ positive_sign (sa_score b) ∧
      ∀ s, s ∈ fetched events → SFleb (sa_score s) (sa_score b) = true
  | None => fetched events = []
  end.

Lemma wad_step_inv num events w e :
  Forall (λ s, positive_sign (sa_score s)) (fetched (events ++ [e])) →
  wad_inv events w → wad_inv (events ++ [e]) (wad_step num w e).1.
Proof.
  unfold wad_inv, fetched. rewrite omap_app. intros Hp Hw.
  destruct e as [addr [scored|err|]| |]; cbn [omap list_omap wad_step]; rewrite ?app_nil_r;
    [|exact Hw|exact Hw|destruct (wad_soft_timeout_hit w); exact Hw|exact Hw].
  apply Forall_app in Hp as [Hps Hp]. apply Forall_cons_1 in Hp as [Hp _].
  cbn [fst wad_best_data]. unfold setter. cbn [wad_best_data WadState_eta eta].
  destruct (better_max (wad_best_data w) scored Hp) as (B1 & B2 & B3 & B4).
  { intros b Hb. rewrite Hb in Hw. by destruct Hw as (_ & ? & _). }
  set (c := better (wad_best_data w) scored) in *. split.
  { rewrite elem_of_app, list_elem_of_singleton. destruct B2 as [->|B2]; [by right|].
    rewrite B2 in Hw. left. by destruct Hw. }
  split; [done|]. intros s Hs. apply elem_of_app in Hs as [Hs|Hs]; [|by apply list_elem_of_singleton in Hs as ->].
  destruct (wad_best_data w) as [b|]; [|rewrite Hw in Hs; by apply elem_of_nil in Hs].
  destruct Hw as (Hb1 & Hb2 & Hb3). specialize (Hb3 s Hs). specialize (B4 b eq_refl).
  rewrite Forall_forall in Hps. specialize (Hps s Hs).
  apply SFleb_rank in Hb3, B4; try done. apply SFleb_rank; [done..|]. unfold rank_le in *. lia.
Qed.

Lemma wad_loop_inv num events taken w w' rest :
  Forall (λ s, positive_sign (sa_score s)) (fetched (taken ++ events)) →
  wad_inv taken w → wad_loop num w events = Some (w', rest) →
  ∃ more, events = more ++ rest ∧ wad_inv (taken ++ more) w'.
Proof.
  revert taken w. induction events as [|e events IH]; intros taken w Hp Hw; cbn [wad_loop]; [done|].
  assert (Forall (λ s, positive_sign (sa_score s)) (fetched (taken ++ [e]))) as Hp1.
  { revert Hp. unfold fetched. rewrite !omap_app. cbn. rewrite !Forall_app.
    destruct e as [? []| |]; cbn; rewrite ?Forall_cons; naive_solver. }
  pose proof (wad_step_inv num taken w e Hp1 Hw) as Hs. destruct (wad_step num w e) as [w1 done].
  cbn [fst] in Hs. destruct done.
  - intros [= <- <-]. exists [e]. done.
  - intros Hl. destruct (IH (taken ++ [e]) w1) as (more & -> & Hm); [by rewrite <- app_assoc|done|done|].
    exists (e :: more). split; [done|]. by rewrite <- app_assoc in Hm.
Qed.

(** the weighted choice among beacon nodes.  When the search ends, it has looked at the
    answers up to some point; if there was one, the data chosen is one of them, and none of
    them has a higher score. *)
Theorem weighted_choice_best num events result :
  (∀ s, s ∈ fetched events → ∃ head_slot,
     sa_score s = as_score (calculate_attestation_score (sa_attestation_data s) head_slot)) →
  weighted_calculation num events = Some result →
  ∃ taken rest, events = taken ++ rest ∧
    match result with
    | Ok d => ∃ best, best ∈ fetched taken ∧ sa_attestation_data best = d ∧
        ∀ s, s ∈ fetched taken → SFleb (sa_score s) (sa_score best) = true
    | _ => fetched taken = []
    end.
Proof.
  intros Hsc. unfold weighted_calculation. destruct (wad_loop _ _ _) as [[w rest]|] eqn:Hl; cbn; [|done].
  intros [= <-]. apply (wad_loop_inv num events [] _ w rest) in Hl as (taken & -> & Hw); [| |done].
  - exists taken, rest. split; [done|]. unfold wad_inv in Hw. cbn [app] in Hw.
    destruct (wad_best_data w) as [b|]; [|done]. destruct Hw as (H1 & _ & H3). by exists b.
  - apply Forall_forall. intros s Hs. destruct (Hsc s Hs) as [h ->]. apply score_positive.
Qed.
End voting.

(** ** Examples *)

Module SampleVoting.
Import SampleBeacon.

Definition spec : BeaconSpec :=
  {| bs_fork_name_at_epoch _ := ForkName.Electra; bs_get_domain _ _ _ := 0%N |}.
Definition as_ssz (a : Attestation) : bytes :=
  match a with AttBase n | AttElectra n | AttGloas n => to_le_bytes 8 n end.
Definition vote : SlotVote := VoteBase (mkBeaconVote 7 (mkCheckpoint 1 1) (mkCheckpoint 2 2)).
Definition data_root (d : AttestationData) : Hash256 := ad_index d.

(** Validators 3 and 5 aggregate for committee 1, validator 4 contributes to subnet 2. *)
Definition aggregators : list AssignedAggregator := [mkAssignedAggregator 5 50%N 1; mkAssignedAggregator 3 30%N 1].
Definition contributors : list (Hash256 * AssignedAggregator) := [(9%N, mkAssignedAggregator 4 40%N 2)].
Definition results : AggregationFetchResults :=
  mkFetchResults {[(0%N, 1%N) := AttElectra 6%N]} {[(7%N, 2%N) := 2%N]}.
Definition build (aggs : list AssignedAggregator) :=
  build_consensus_data_from_candidates data_root 32 as_ssz spec 64 vote aggs contributors results.

Lemma results_ok : fetched_ok 32 as_ssz spec 64 results.
Proof.
  split.
  - intros k a Hk. cbn [fr_aggregated_attestations results] in Hk. apply lookup_singleton_Some in Hk as [_ <-]. by eexists.
  - intros root id c Hk. cbn [fr_sync_contributions results] in Hk. apply lookup_singleton_Some in Hk as [[= _ <-] <-].
    done.
Qed.

Lemma aggregation_data_agrees_witness :
  ∃ data, build aggregators = Ok (Some data) ∧ aggregator_validate data data = true ∧
    build (reverse aggregators) = Ok (Some data).
Proof.
  destruct (build aggregators) as [[data|]| |] eqn:Hb; [|exfalso; revert Hb; by vm_compute..].
  exists data. split; [done|].
  destruct (aggregation_data_agrees data_root 32 as_ssz spec 64 vote aggregators contributors results data
    vote aggregators contributors results data Hb Hb) as [H1 H2].
  split; [apply H1; by eapply fetched_ok_fit; [apply results_ok|exact Hb]|].
  apply H2; [by rewrite reverse_Permutation|done|..]; by apply (bool_decide_unpack _); vm_compute.
Defined.

(** A contribution of another subcommittee than the one asked for is built into the data,
    which the check then refuses. *)
Lemma wrong_contribution_refused :
  ∃ data, build_consensus_data_from_candidates data_root 32 as_ssz spec 64 vote aggregators contributors
      (mkFetchResults {[(0%N, 1%N) := AttElectra 6%N]} {[(7%N, 2%N) := 3%N]}) = Ok (Some data) ∧
    aggregator_validate data data = false.
Proof. eexists. split; vm_compute; reflexivity. Qed.

(** Two nodes: the first knows that its head is of the attestation's slot. *)
Definition attestation (source target : N) : AttestationData :=
  mkAttestationData 64 0 7 (mkCheckpoint source 1) (mkCheckpoint target 2).
Definition scored (addr : string) (d : AttestationData) (head_slot : option Slot) : ScoredAttestationData :=
  mkScored addr d (as_score (calculate_attestation_score d head_slot)).

Lemma weighted_choice_best_witness :
  ∃ taken rest best, [Fetched "a" (Ok (scored "a" (attestation 1 2) (Some 64%N))); SoftTimeout] = taken ++ rest ∧
    best ∈ fetched taken ∧ sa_attestation_data best = attestation 1 2.
Proof.
  destruct (weighted_choice_best 2
    [Fetched "a" (Ok (scored "a" (attestation 1 2) (Some 64%N))); SoftTimeout] (Ok (attestation 1 2)))
    as (taken & rest & He & best & H1 & H2 & _).
  - intros s Hs. cbn [fetched omap list_omap] in Hs. apply list_elem_of_singleton in Hs as ->.
    by exists (Some 64%N).
  - by vm_compute.
  - by exists taken, rest, best.
Defined.

(** The bonus for a head of the attestation's own slot is a full epoch: an answer with older
    checkpoints that comes first is kept against one with newer checkpoints whose head could
    not be looked up. *)
Lemma bonus_outweighs_epoch :
  let older := scored "a" (attestation 4 5) (Some 64%N) in
  let newer := scored "b" (attestation 5 5) None in
  better (Some older) newer = older.
Proof. by vm_compute. Qed.
End SampleVoting.
