(* ===== verification/StoreTypes.v ===== *)
(** * The validator store: types and pure steps

    From [anchor/validator_store/src/lib.rs], [envelope.rs] and [instrumentation.rs]: the
    errors, the contexts of decided blocks that bind a Gloas envelope to its block, the
    choice of what to publish, the timing rules, and the descriptors of the batches a
    validator signs for several sync subnets.  The operations that wait are in
    [ValidatorStore.v].

    The theorems: a stored decision is only replaced after later slots evicted it; all
    callbacks of one validator build the same batch, which fits a message. *)

From S2P Require Import Prelude SsvTypes Messages QbftTypes ForkSchedule ValidationTypes DutyState.
From S2P Require Import ValidatorRules ConsensusValidation PartialValidation Subnet Validator MultiIndex.
From S2P Require Import NetworkState Sql CollectorState SignatureCollector RoundTimeout QbftManager.
From S2P Require Import BeaconTypes ConsensusData Voting.

Definition SLASHING_PROTECTION_HISTORY_EPOCHS : N := 512.
Definition MAX_DECIDED_ROOT_AGE_SLOTS : N := 4.
Definition MAX_VALIDATORS_PER_OPERATOR : nat := 3000.
Definition PROPOSER_PREFERENCES_COLLECTION_TIMEOUT_SLOTS : N := 2.
Definition REQUEST_AUTH_COLLECTION_TIMEOUT_SLOTS : N := 2.
Definition REQUEST_AUTH_PROPOSAL_SLOT_TIMEOUT : N := secs 1.
(** [ssv_types::MAX_SYNC_COMMITTEE_POSITIONS] *)
Definition MAX_SYNC_COMMITTEE_POSITIONS : N := 13.

(** ** Messages of the [types] crate

    The containers the store signs.  Their [signing_root]s and encodings, and the
    conversions between blocks, are the crate's. *)

(** The execution payload bid of a Gloas block. *)
Record PayloadBid := mkBid {
  bid_execution_requests_root : Hash256;
  bid_builder_index : N;
  bid_block_hash : Hash256;
}.

Record ValidatorRegistrationData := mkRegistrationData {
  vr_fee_recipient : Address;
  vr_gas_limit : N;
  vr_timestamp : N;
  vr_pubkey : PublicKeyBytes;
}.
#[export] Instance ValidatorRegistrationData_eta : Eta ValidatorRegistrationData := λ d,
  mkRegistrationData (vr_fee_recipient d) (vr_gas_limit d) (vr_timestamp d) (vr_pubkey d).

(** [struct BlindedExecutionPayloadEnvelope] of [envelope.rs] *)
Record BlindedExecutionPayloadEnvelope := mkBlindedEnvelope {
  en_payload_root : Hash256;
  en_execution_requests_root : Hash256;
  en_builder_index : N;
  en_beacon_block_root : Hash256;
  en_parent_beacon_block_root : Hash256;
}.

Class SigningLib `{BL : BeaconLib} := {
  (** [BeaconBlock<E, FullPayload>] *)
  full_fork_name : BeaconBlock → ForkName;
  full_signing_root : BeaconBlock → Hash256 → Hash256;
  full_canonical_root : BeaconBlock → Hash256;
  full_payload_bid : BeaconBlock → option PayloadBid;
  full_of_gloas : BeaconBlockGloas → BeaconBlock;
  to_blinded : BeaconBlock → BlindedBeaconBlock;
  (** [BeaconBlock<E, BlindedPayload>]; [blinded_gloas] is the block of the [Gloas] variant *)
  blinded_fork_name : BlindedBeaconBlock → ForkName;
  blinded_signing_root : BlindedBeaconBlock → Hash256 → Hash256;
  blinded_tree_hash_root : BlindedBeaconBlock → Hash256;
  blinded_as_ssz : BlindedBeaconBlock → bytes;
  blinded_gloas : BlindedBeaconBlock → option BeaconBlockGloas;
  gloas_proposal_as_ssz : GloasProposalData → bytes;
  gloas_proposal_from_ssz : bytes → outcome DecodeError GloasProposalData;
  (** attestations and aggregates *)
  attestation_data : Attestation → AttestationData;
  attestation_signing_root : AttestationData → Hash256 → Hash256;
  from_attestation : N → Attestation → BlsSignature → AggregateAndProof_;
  aggregate_attestation : AggregateAndProof_ → Attestation;
  aggregate_as_ssz : AggregateAndProof_ → bytes;
  aggregate_signing_root : AggregateAndProof_ → Hash256 → Hash256;
  (** sync contributions; [contribution_signing_root aggregator_index contribution proof] is of
      the [ContributionAndProof] with these fields *)
  contribution_slot : SyncCommitteeContribution → Slot;
  contribution_signing_root : N → SyncCommitteeContribution → BlsSignature → Hash256 → Hash256;
  contributions_as_ssz : list (BlsSignature * SyncCommitteeContribution) → bytes;
  contributions_from_ssz : bytes → outcome DecodeError (list (BlsSignature * SyncCommitteeContribution));
  (** the other signed messages *)
  epoch_signing_root : Epoch → Hash256 → Hash256;
  slot_signing_root : Slot → Hash256 → Hash256;
  hash_signing_root : Hash256 → Hash256 → Hash256;
  sync_selection_signing_root : Slot → N → Hash256 → Hash256;
  registration_signing_root : ValidatorRegistrationData → Hash256 → Hash256;
  PayloadAttestationData : Type;
  pa_slot : PayloadAttestationData → Slot;
  payload_attestation_signing_root : PayloadAttestationData → Hash256 → Hash256;
  ProposerPreferences : Type;
  pp_proposal_slot : ProposerPreferences → Slot;
  preferences_signing_root : ProposerPreferences → Hash256 → Hash256;
  RequestAuth : Type;
  ra_slot : RequestAuth → Slot;
  request_auth_signing_root : RequestAuth → Hash256 → Hash256;
  VoluntaryExit : Type;
  exit_signing_root : VoluntaryExit → Hash256 → Hash256;
  exit_domain : VoluntaryExit → Hash256 → Hash256;
  (** [ExecutionPayloadEnvelope]; the payload and the execution requests through their roots *)
  ExecutionPayloadEnvelope : Type;
  ep_slot : ExecutionPayloadEnvelope → Slot;
  ep_payload_tree_hash_root : ExecutionPayloadEnvelope → Hash256;
  ep_payload_block_hash : ExecutionPayloadEnvelope → Hash256;
  ep_execution_requests_tree_hash_root : ExecutionPayloadEnvelope → Hash256;
  ep_builder_index : ExecutionPayloadEnvelope → N;
  ep_beacon_block_root : ExecutionPayloadEnvelope → Hash256;
  ep_parent_beacon_block_root : ExecutionPayloadEnvelope → Hash256;
  blinded_envelope_signing_root : BlindedExecutionPayloadEnvelope → Hash256 → Hash256;
  (** [SigningData { object_root, domain }.tree_hash_root()] *)
  signing_data_root : Hash256 → Hash256 → Hash256;
}.

(** The due times of [ChainSpec], in nanoseconds, and its domains without a fork. *)
Record DutySpec := {
  slot_duration : N;
  attestation_due : Slot → N;
  aggregate_attestation_due : Slot → N;
  contribution_message_due : Slot → N;
  payload_due : N;
  builder_application_domain : Hash256;
  request_auth_domain : Hash256;
}.

(** [BlindedExecutionPayloadEnvelope::from_full] *)
Definition from_full `{SigningLib} (full : ExecutionPayloadEnvelope) : BlindedExecutionPayloadEnvelope :=
  mkBlindedEnvelope (ep_payload_tree_hash_root full) (ep_execution_requests_tree_hash_root full)
    (ep_builder_index full) (ep_beacon_block_root full) (ep_parent_beacon_block_root full).

(** ** Errors *)

Inductive SyncSelectionProofAssignmentError :=
  | AssignmentEmpty
  | MissingCallbackSubnet (subnet_id : N)
  | OutOfRangeSubnet (subnet_id subnet_count : N)
  | TooManyPositions (count max : N).

Record DecidedRootConflict := mkRootConflict {
  rc_validator_pubkey : PublicKeyBytes;
  rc_slot : Slot;
  rc_existing_root : Hash256;
  rc_new_root : Hash256;
}.

Inductive SpecificError :=
  | Unsupported
  | SignatureCollectionFailed (e : Collection.CollectionError)
  | CollectionPendingPeerEmission (proposal_slot peers_expected_from_slot : Slot)
  | SpecificArithError
  | SpecificQbftError (e : ManagerError)
  | SpecificTimeout
  | InvalidQbftData (e : DecodeError)
  | UnsupportedForkData (fork : ForkName)
  | TooManySyncSubnetsToSign
  | NoDataAgreed
  | MetadataError
  | MissingIndex
  | SlotClockError
  | NotSynced
  | InconsistentDatabase
  | ValidatorClusterMismatch (validator_pubkey : PublicKeyBytes) (cluster_id : ClusterId)
  | KeyShareDecryptionFailed
  | DataTooLarge (provided max : N)
  | ClusterLiquidated
  | MetadataSlotPassed
  | MetadataChannelClosed
  | AggregatorInfoSlotPassed
  | AggregatorInfoChannelClosed
  | ValidatorNotAttesting (validator_pubkey : PublicKeyBytes) (slot : Slot)
  | ValidatorNotInSyncCommittee (validator_pubkey : PublicKeyBytes) (slot : Slot)
  | InvalidSyncSelectionProofAssignment (validator_pubkey : PublicKeyBytes) (slot : Slot)
      (reason : SyncSelectionProofAssignmentError)
  | ConsensusDataNotFound
  | CommitteeDecisionConflictError (conflict : CommitteeDecisionConflict)
  | AggregateNotInConsensus (index : N)
  | ContributionNotInConsensus (index : N)
  | ValidatorNotInConsensus (index : ValidatorIndex)
  | SlotTooFarAhead (data_slot current_slot : Slot)
  | DecidedRootConflictError (conflict : DecidedRootConflict)
  | DecidedRootUnavailable (validator_pubkey : PublicKeyBytes) (slot : Slot)
  | DecidedRootStale (validator_pubkey : PublicKeyBytes) (slot current_slot : Slot)
  | EnvelopeBeforeGloas (slot : Slot) (fork : ForkName)
  | EnvelopeNotSelfBuild (builder_index : N)
  | EnvelopeExternalBuild (builder_index : N)
  | EnvelopeNotLocal (slot : Slot)
  | MissingLocalPayloadRoot
  | EnvelopeDeadlinePassed (slot : Slot)
  | EnvelopeBindingMismatch (field : string)
  | EnvelopeBuilderInconsistent (local decided : Hash256)
  | PostConsensusAborted.

(** [impl From<ForkDecodeError> for SpecificError] *)
Definition specific_of_fork_decode (e : ForkDecodeError) : SpecificError :=
  match e with
  | FDDecode e => InvalidQbftData e
  | UnsupportedFork fork => UnsupportedForkData fork
  end.

(** [ValidatorStoreError], of the constructors the store uses. *)
Inductive StoreError `{SlashingLib} :=
  | UnknownPubkey (pubkey : PublicKeyBytes)
  | Slashable (e : NotSafe)
  | SameData
  | GreaterThanCurrentSlot (slot current_slot : Slot)
  | ExecutorError
  | Specific (e : SpecificError).

Definition convert_slashing_result `{SlashingLib} (value : outcome NotSafe Safe) : outcome StoreError unit :=
  match value with
  | Ok SafeValid => Ok tt
  | Ok SafeSameData => Err SameData
  | Err not_safe => Err (Slashable not_safe)
  | Panic => Panic
  end.

Inductive CollectionFailureClass := NoSignature | Infra | NonCollection.

(** [instrumentation::classify_collection_failure] *)
Definition classify_collection_failure `{SlashingLib} (error : StoreError) : CollectionFailureClass :=
  match error with
  | Specific (SignatureCollectionFailed e) =>
      match e with
      | Collection.QueueClosedError | Collection.CollectionTimeout => NoSignature
      | Collection.QueueFullError | Collection.OwnOperatorIdUnknown | Collection.InvalidProposerPacket
      | Collection.EmptySignature | Collection.RecoverError => Infra
      end
  | _ => NonCollection
  end.

(** ** Decided blocks *)

Record DecidedBlockContext := mkDecidedBlock {
  db_payload_root : Hash256;
  db_beacon_block_root : Hash256;
  db_parent_block_root : Hash256;
  db_execution_requests_root : Hash256;
  db_builder_index : N;
  db_block_hash : Hash256;
  db_built_locally : bool;
}.
#[export] Instance DecidedBlockContext_eq_dec : EqDecision DecidedBlockContext.
Proof. solve_decision. Defined.
#[export] Instance DecidedBlockContext_eta : Eta DecidedBlockContext := λ c,
  mkDecidedBlock (db_payload_root c) (db_beacon_block_root c) (db_parent_block_root c)
    (db_execution_requests_root c) (db_builder_index c) (db_block_hash c) (db_built_locally c).

Definition validate_blinded (c : DecidedBlockContext) (blinded : BlindedExecutionPayloadEnvelope)
    : outcome SpecificError unit :=
  _ ← ensure (en_payload_root blinded =? db_payload_root c)%N (EnvelopeBindingMismatch "payload_root");
  _ ← ensure (en_beacon_block_root blinded =? db_beacon_block_root c)%N
        (EnvelopeBindingMismatch "beacon_block_root");
  _ ← ensure (en_parent_beacon_block_root blinded =? db_parent_block_root c)%N
        (EnvelopeBindingMismatch "parent_beacon_block_root");
  _ ← ensure (db_builder_index c =? BUILDER_INDEX_SELF_BUILD)%N
        (EnvelopeBindingMismatch "context_builder_index");
  _ ← ensure (en_builder_index blinded =? db_builder_index c)%N (EnvelopeBindingMismatch "builder_index");
  ensure (en_execution_requests_root blinded =? db_execution_requests_root c)%N
    (EnvelopeBindingMismatch "execution_requests_root").

Definition blinded_envelope (c : DecidedBlockContext) : BlindedExecutionPayloadEnvelope :=
  mkBlindedEnvelope (db_payload_root c) (db_execution_requests_root c) (db_builder_index c)
    (db_beacon_block_root c) (db_parent_block_root c).

Definition same_decision (c other : DecidedBlockContext) : bool :=
  (db_payload_root c =? db_payload_root other)%N
  && (db_beacon_block_root c =? db_beacon_block_root other)%N
  && (db_parent_block_root c =? db_parent_block_root other)%N
  && (db_execution_requests_root c =? db_execution_requests_root other)%N
  && (db_builder_index c =? db_builder_index other)%N
  && (db_block_hash c =? db_block_hash other)%N.

(** [HashMap<DecidedBlockKey, DecidedBlockContext>] *)
Abbreviation DecidedBlocks := (gmap (list byte * N) DecidedBlockContext) (only parsing).

(** [record_decided_block_context], under the lock. *)
Definition record_decided_block_context (validator_pubkey : PublicKeyBytes) (slot : Slot)
    (context : DecidedBlockContext) (m : DecidedBlocks) : outcome SpecificError unit * DecidedBlocks :=
  let key := (validator_pubkey, slot) in
  let m := filter (λ kv, (slot <= slot_add kv.1.2 MAX_DECIDED_ROOT_AGE_SLOTS)%N) m in
  match m !! key with
  | None => (Ok tt, <[key := context]> m)
  | Some existing =>
      if same_decision existing context
      then (Ok tt, <[key := existing <| db_built_locally :=
                              db_built_locally existing || db_built_locally context |>]> m)
      else (Err (DecidedRootConflictError
                   (mkRootConflict validator_pubkey slot (db_beacon_block_root existing)
                      (db_beacon_block_root context))), m)
  end.

(** [get_decided_block_context], from the clock and the map. *)
Definition get_decided_block_context (now : option Slot) (validator_pubkey : PublicKeyBytes) (slot : Slot)
    (m : DecidedBlocks) : outcome SpecificError DecidedBlockContext :=
  current_slot ← ok_or now SlotClockError;
  _ ← ensure (negb (slot_add slot MAX_DECIDED_ROOT_AGE_SLOTS <? current_slot)%N)
        (DecidedRootStale validator_pubkey slot current_slot);
  ok_or (m !! (validator_pubkey, slot)) (DecidedRootUnavailable validator_pubkey slot).

(** ** Timing *)

(** [pending_peer_emission]; the difference of [u64]s wraps. *)
Definition pending_peer_emission (now : option Slot) (proposal_slot : Slot) (slots_per_epoch : positive)
    : option SpecificError :=
  let proposal_epoch := slot_epoch proposal_slot slots_per_epoch in
  if (proposal_epoch =? 0)%N then None
  else
    let peers_expected_from_slot :=
      slot_add (start_slot (proposal_epoch - 1) slots_per_epoch)
        (wrap64 (N.pos slots_per_epoch `div` 2 + u64_max)) in
    match now with
    | Some now =>
        if (now <=? peers_expected_from_slot)%N
        then Some (CollectionPendingPeerEmission proposal_slot peers_expected_from_slot) else None
    | None => None
    end.

(** [elapsed_in_slot], from [start_of(slot)] and [now_duration()]. *)
Definition elapsed_in_slot (start now_duration : option N) : option N :=
  start ← start; now ← now_duration; checked_sub64 now start.

Inductive ProposerDelayDecision :=
  | DelayDisabled
  | DelayTargetPassed
  | DelayWaited (d : N)
  | DelayClockUnavailable.

Definition proposer_delay_decision_at (proposer_delay : N) (elapsed : option N) : ProposerDelayDecision :=
  if (proposer_delay =? 0)%N then DelayDisabled
  else match elapsed with
       | None => DelayClockUnavailable
       | Some elapsed =>
           match checked_sub64 proposer_delay elapsed with
           | Some remaining => if (remaining =? 0)%N then DelayTargetPassed else DelayWaited remaining
           | None => DelayTargetPassed
           end
       end.

(** [ProposerDelayDecision::wait] *)
Definition delay_wait (d : ProposerDelayDecision) : option N :=
  match d with DelayWaited d => Some d | _ => None end.

Record ProposerDelays := mkProposerDelays { pre_gloas_delay : N; gloas_delay : N }.

Definition proposer_delay_at_epoch (spec : BeaconSpec) (delays : ProposerDelays) (epoch : Epoch) : N :=
  if ForkName.gloas_enabled (bs_fork_name_at_epoch spec epoch)
  then gloas_delay delays else pre_gloas_delay delays.

(** [get_instant_in_slot], from the clock's answers and [Instant::now()]: a [Duration] or an
    [Instant] out of range panics. *)
Definition get_instant_in_slot (start now_duration : option N) (instant_now delay : N)
    : outcome SpecificError N :=
  start ← ok_or start SlotClockError;
  target ← expect (checked_add_to DURATION_MAX start delay);
  now ← ok_or now_duration SlotClockError;
  if (now <? target)%N then expect (checked_add_to INSTANT_MAX instant_now (target - now))
  else expect (checked_sub64 instant_now (now - target)).

Inductive RequestAuthCollectionBound := Bounded (d : N) | DeclinePastSlot.

(** [request_auth_collection_bound], from [slot_clock.now()]. *)
Definition request_auth_collection_bound (duty : DutySpec) (now : option Slot) (proposal_slot : Slot)
    : outcome SpecificError RequestAuthCollectionBound :=
  current_slot ← ok_or now SlotClockError;
  if (current_slot <? proposal_slot)%N
  then Ok (Bounded (slot_duration duty * REQUEST_AUTH_COLLECTION_TIMEOUT_SLOTS))
  else if (proposal_slot =? current_slot)%N then Ok (Bounded REQUEST_AUTH_PROPOSAL_SLOT_TIMEOUT)
  else Ok DeclinePastSlot.

(** [report_proposer_preferences_collection_failure] and its like for request auth: a timeout
    before the peers are expected to sign is reported as pending; the rest is for logs and
    metrics. *)
Definition report_collection_failure `{SlashingLib} (now : option Slot) (slots_per_epoch : positive)
    (error : StoreError) (proposal_slot : Slot) : StoreError :=
  match error with
  | Specific (SignatureCollectionFailed Collection.CollectionTimeout) =>
      match pending_peer_emission now proposal_slot slots_per_epoch with
      | Some pending => Specific pending
      | None => error
      end
  | _ => error
  end.

(** ** Key shares *)

(** The value of a hexadecimal digit. *)
Definition hex_digit (b : byte) : option N :=
  let n := Byte.to_N b in
  if ((48 <=? n) && (n <=? 57))%N then Some (n - 48)%N
  else if ((97 <=? n) && (n <=? 102))%N then Some (n - 87)%N
  else if ((65 <=? n) && (n <=? 70))%N then Some (n - 55)%N
  else None.

(** [hex::decode_to_slice] into [len] bytes. *)
Fixpoint hex_decode_to (len : nat) (text : bytes) : option bytes :=
  match len, text with
  | O, [] => Some []
  | S len, hi :: lo :: text =>
      hi ← hex_digit hi; lo ← hex_digit lo; rest ← hex_decode_to len text;
      Some (byte_of_N (16 * hi + lo) :: rest)
  | _, _ => None
  end.

(** [key_hex.strip_prefix(..).unwrap_or(key_hex)] of the prefix [0x]. *)
Definition strip_0x (text : bytes) : bytes :=
  match text with
  | x30 :: x78 :: rest => rest
  | _ => text
  end.

Section key_share.
Context {SecretKey : Type}.
(** RSA decryption under the operator's key, and [SecretKey::deserialize]. *)
Context (private_decrypt : bytes → option bytes) (sk_deserialize : bytes → option SecretKey).

(** [decrypt_key_share]; text that decodes is ASCII, so it is UTF-8. *)
Definition decrypt_key_share (encrypted_private_key : bytes) : option SecretKey :=
  key_hex ← private_decrypt encrypted_private_key;
  secret_key ← hex_decode_to 32 (strip_0x key_hex);
  sk_deserialize secret_key.

(** [LruCache::try_get_or_insert]: the most recently used entry comes first. *)
Definition lru_try_get_or_insert (capacity : nat) (key : bytes) (make : option SecretKey)
    (cache : list (bytes * SecretKey)) : option SecretKey * list (bytes * SecretKey) :=
  match list_find (λ e, e.1 = key) cache with
  | Some (i, e) => (Some e.2, e :: (take i cache ++ drop (S i) cache))
  | None =>
      match make with
      | Some sk => (Some sk, take capacity ((key, sk) :: cache))
      | None => (None, cache)
      end
  end.

(** A cache of decrypted keys holds nothing else. *)
Definition cache_ok (cache : list (bytes * SecretKey)) : Prop :=
  length cache ≤ MAX_VALIDATORS_PER_OPERATOR ∧
  Forall (λ e, decrypt_key_share e.1 = Some e.2) cache.
End key_share.

(** ** Signing requests *)

Inductive CollectionMode :=
  | ModeSingleValidator
  | ModeSingleValidatorBatch (subnet_id : N) (descriptor : list SyncCommitteeBatchEntry)
  | ModeCommittee (validator_partial_signature_batch_size : nat) (base_hash : Hash256).

Record SigningRequest (T : Type) := mkSigningRequest {
  sr_validator : ValidatorMetadata;
  sr_signing_root : Hash256;
  sr_duty_data : T;
}.
Arguments mkSigningRequest {T} _ _ _.
Arguments sr_validator {T} _.
Arguments sr_signing_root {T} _.
Arguments sr_duty_data {T} _.

Section requests.
Context `{BL : BeaconLib}.

(** [CollectedSignatures] *)
Abbreviation CollectedSignatures := (gmap (N * N) BlsSignature) (only parsing).

(** [SigningRequest::resolve] *)
Definition resolve {T} (req : SigningRequest T) (signatures : CollectedSignatures)
    : outcome PublicKeyBytes (T * BlsSignature) :=
  sig ← ok_or (idx ← md_index (sr_validator req); signatures !! (idx, sr_signing_root req))
          (md_public_key (sr_validator req));
  mret (sr_duty_data req, sig).

(** [drain_signatures], from the results in the order in which they came. *)
Definition drain_signatures {E} (results : list (ValidatorIndex * Hash256 * outcome E BlsSignature))
    : CollectedSignatures :=
  foldl (λ signatures '(index, signing_root, result),
    match result with
    | Ok signature => <[(index, signing_root) := signature]> signatures
    | _ => signatures
    end) ∅ results.

(** [DecidedVote] *)
Record DecidedVote := mkDecidedVote {
  dv_block_root : Hash256;
  dv_source : Checkpoint;
  dv_target : Checkpoint;
  dv_decided_hash : Hash256;
  dv_decided_index : option N;
}.

(** ** Blocks *)

Context {SigL : SigningLib}.

(** [enum UnsignedBlock] and [enum SignedBlock] of the [validator_store] crate. *)
Inductive UnsignedBlock :=
  | UnsignedFull (contents : FullBlockContents)
  | UnsignedBlinded (block : BlindedBeaconBlock).

Inductive SignedBlock :=
  | SignedFull (block : BeaconBlock) (signature : BlsSignature) (proofs_and_blobs : option ProofsAndBlobs)
  | SignedBlinded (block : BlindedBeaconBlock) (signature : BlsSignature).

(** [trait SignableBlock]: of [as_block], the parts that are used. *)
Class SignableBlock (B : Type) := {
  as_block_header : B → BeaconBlockHeader;
  as_block_fork_name : B → ForkName;
  as_block_signing_root : B → Hash256 → Hash256;
  to_signed_block : B → BlsSignature → SignedBlock;
}.

#[export] Instance signable_contents : SignableBlock (BeaconBlock * ProofsAndBlobs) := {|
  as_block_header c := full_block_header c.1;
  as_block_fork_name c := full_fork_name c.1;
  as_block_signing_root c := full_signing_root c.1;
  to_signed_block c signature := SignedFull c.1 signature (Some c.2);
|}.

#[export] Instance signable_full : SignableBlock BeaconBlock := {|
  as_block_header := full_block_header;
  as_block_fork_name := full_fork_name;
  as_block_signing_root := full_signing_root;
  to_signed_block b signature := SignedFull b signature None;
|}.

#[export] Instance signable_blinded : SignableBlock BlindedBeaconBlock := {|
  as_block_header := blinded_block_header;
  as_block_fork_name := blinded_fork_name;
  as_block_signing_root := blinded_signing_root;
  to_signed_block b signature := SignedBlinded b signature;
|}.

Definition decode_decided_block (completed_data : ProposerConsensusData)
    : outcome DecodeError (UnsignedBlock * option Hash256) :=
  if ForkName.ge (pcd_version completed_data) ForkName.Gloas then
    proposal ← decode_gloas_proposal gloas_proposal_from_ssz completed_data;
    mret (UnsignedFull (full_of_gloas (gp_block proposal), None), Some (gp_payload_root proposal))
  else
    block ← or_else (block ← decode_blinded_block completed_data; mret (UnsignedBlinded block))
                    (contents ← decode_block_contents completed_data; mret (UnsignedFull contents));
    mret (block, None).

Inductive PublishPath :=
  | ReconstructedFullBlockAsLeader
  | BlindedBlockAsLeader
  | BlindedBlockNotLeader
  | FullBlockDirectly.

Record PublishDecision := mkPublishDecision {
  pd_signed_block : SignedBlock;
  pd_proposal_matched : bool;
  pd_publish_path : PublishPath;
}.

Definition select_publish_block (signed_block : SignedBlock) (original_blinded_block : BlindedBeaconBlock)
    (local_full_block : option FullBlockContents) : PublishDecision :=
  match signed_block with
  | SignedBlinded block signature =>
      let proposal_matched :=
        bool_decide (blinded_block_header block = blinded_block_header original_blinded_block) in
      if negb proposal_matched
      then mkPublishDecision (SignedBlinded block signature) proposal_matched BlindedBlockNotLeader
      else match local_full_block with
           | Some (full_block, proofs_and_blobs) =>
               mkPublishDecision (SignedFull full_block signature proofs_and_blobs) proposal_matched
                 ReconstructedFullBlockAsLeader
           | None => mkPublishDecision (SignedBlinded block signature) proposal_matched BlindedBlockAsLeader
           end
  | SignedFull _ _ _ => mkPublishDecision signed_block false FullBlockDirectly
  end.

(** ** Batches of a validator in several sync subnets *)

(** [sync_selection_proof_descriptor]: [selection_root] is [compute_sync_selection_root] at
    the slot, [subnet_count] is [E::SyncCommitteeSubnetCount]. *)
Definition sync_selection_proof_descriptor (subnet_count : N) (selection_root : N → Hash256)
    (callback_subnet : N) (position_counts : gmap N nat)
    : outcome SyncSelectionProofAssignmentError (list SyncCommitteeBatchEntry) :=
  let counts := map_to_list position_counts in
  _ ← ensure (negb (bool_decide (counts = []))) AssignmentEmpty;
  _ ← ensure (bool_decide (is_Some (position_counts !! callback_subnet)))
        (MissingCallbackSubnet callback_subnet);
  _ ← match filter (λ subnet_id, subnet_count <= subnet_id)%N counts.*1 with
      | [] => Ok tt
      | s :: l => Err (OutOfRangeSubnet (foldl N.min s l) subnet_count)
      end;
  let expanded_positions :=
    foldl (λ acc n, N.min u64_max (acc + N.of_nat n)) 0%N counts.*2 in
  _ ← ensure (negb (MAX_SYNC_COMMITTEE_POSITIONS <? expanded_positions)%N)
        (TooManyPositions expanded_positions MAX_SYNC_COMMITTEE_POSITIONS);
  mret (sort_by_pair (λ e, (be_subnet_id e, 0%N))
          ((λ '(subnet_id, position_count),
              mkBatchEntry subnet_id (selection_root subnet_id) position_count) <$> counts)).

(** The loop that joins equal neighbours. *)
Definition collapse_entry (collapsed : list SyncCommitteeBatchEntry) (entry : SyncCommitteeBatchEntry)
    : list SyncCommitteeBatchEntry :=
  match last collapsed with
  | Some previous =>
      if bool_decide (be_subnet_id previous = be_subnet_id entry)
         && bool_decide (be_signing_root previous = be_signing_root entry)
      then removelast collapsed ++
             [mkBatchEntry (be_subnet_id previous) (be_signing_root previous)
                (be_multiplicity previous + be_multiplicity entry)]
      else collapsed ++ [entry]
  | None => collapsed ++ [entry]
  end.

(** [ContributionAndProof] *)
Record ContributionAndProof := mkContributionAndProof {
  cap_aggregator_index : N;
  cap_contribution : SyncCommitteeContribution;
  cap_selection_proof : BlsSignature;
}.
Definition contribution_and_proof_root (m : ContributionAndProof) (domain : Hash256) : Hash256 :=
  contribution_signing_root (cap_aggregator_index m) (cap_contribution m) (cap_selection_proof m) domain.

Record PreparedSyncContributionBatch := mkPreparedBatch {
  pb_callback_message : ContributionAndProof;
  pb_callback_signing_root : Hash256;
  pb_descriptor : list SyncCommitteeBatchEntry;
}.

Definition entry_key (e : SyncCommitteeBatchEntry) : N * N :=
  (be_subnet_id e, hash256_ord (be_signing_root e)).

Definition contribution_entry (aggregator_index : N) (domain_hash : Hash256)
    (c : BlsSignature * SyncCommitteeContribution) : SyncCommitteeBatchEntry :=
  let message := mkContributionAndProof aggregator_index c.2 c.1 in
  mkBatchEntry (subcommittee_index c.2) (contribution_and_proof_root message domain_hash) 1.

Definition prepare_decided_sync_contributions (contributions : list (BlsSignature * SyncCommitteeContribution))
    (callback_subnet : N) (aggregator_index : N) (domain_hash : Hash256)
    : outcome SpecificError PreparedSyncContributionBatch :=
  let messages := (λ c, mkContributionAndProof aggregator_index c.2 c.1) <$> contributions in
  let descriptor := contribution_entry aggregator_index domain_hash <$> contributions in
  message ← ok_or (head (filter (λ m, subcommittee_index (cap_contribution m) = callback_subnet) messages))
              NoDataAgreed;
  mret (mkPreparedBatch message (contribution_and_proof_root message domain_hash)
          (foldl collapse_entry [] (sort_by_pair entry_key descriptor))).

Definition sync_committee_collection_mode (callback_subnet : N) (descriptor : list SyncCommitteeBatchEntry)
    : CollectionMode :=
  if bool_decide (sum_list (be_multiplicity <$> descriptor) = 1)
  then ModeSingleValidator else ModeSingleValidatorBatch callback_subnet descriptor.

(** The [SignatureRequester] of a mode, in [collect_signature]. *)
Definition requester_of (mode : CollectionMode) (pubkey : PublicKeyBytes) : SignatureRequester :=
  match mode with
  | ModeSingleValidator => SingleValidator pubkey
  | ModeSingleValidatorBatch subnet_id descriptor => SingleValidatorBatch pubkey subnet_id descriptor
  | ModeCommittee batch_size base_hash => Committee batch_size base_hash
  end.
End requests.

(** ** Decided blocks *)

Lemma same_decision_iff c d :
  same_decision c d = true ↔ blinded_envelope c = blinded_envelope d ∧ db_block_hash c = db_block_hash d.
Proof.
  unfold same_decision, blinded_envelope. rewrite !andb_true_iff, !N.eqb_eq.
  split; [by intros [[[[[-> ->] ->] ->] ->] ->]|]. by intros [[= -> -> -> -> ->] ->].
Qed.

(** An envelope passes exactly if it is the one the context stands for, of the proposer's
    own build: its signing root is the one signed along with the block. *)
Lemma validate_blinded_iff c blinded :
  validate_blinded c blinded = Ok tt ↔
  blinded = blinded_envelope c ∧ db_builder_index c = BUILDER_INDEX_SELF_BUILD.
Proof.
  unfold validate_blinded, blinded_envelope. destruct blinded as [p r b o q]. cbn.
  split.
  - intros H. repeat (apply bind_ok in H as ([] & ?%ensure_ok & H)). apply ensure_ok in H.
    rewrite !N.eqb_eq in *. subst. done.
  - intros [[= -> -> -> -> ->] Hb]. by rewrite Hb, !N.eqb_refl.
Qed.

Lemma record_keeps pk slot c m key existing :
  m !! key = Some existing → (slot <= slot_add key.2 MAX_DECIDED_ROOT_AGE_SLOTS)%N →
  ∃ kept, (record_decided_block_context pk slot c m).2 !! key = Some kept ∧
          blinded_envelope kept = blinded_envelope existing ∧ db_block_hash kept = db_block_hash existing.
Proof.
  intros Hm Hs. unfold record_decided_block_context.
  set (m' := filter _ m).
  assert (m' !! key = Some existing) as Hm' by (by apply map_lookup_filter_Some).
  clearbody m'. clear Hm. destruct (m' !! (pk, slot)) as [e|] eqn:He.
  - destruct (same_decision e c); [|by exists existing].
    destruct (decide (key = (pk, slot))) as [->|Hne].
    + rewrite He in Hm'. injection Hm' as ->. eexists. cbn [fst snd]. rewrite lookup_insert_eq. by split.
    + exists existing. cbn [fst snd]. by rewrite lookup_insert_ne.
  - assert (key ≠ (pk, slot)) by congruence. exists existing. cbn [fst snd]. by rewrite lookup_insert_ne.
Qed.

Lemma record_ok pk slot c m :
  (record_decided_block_context pk slot c m).1 = Ok tt →
  ∃ kept, (record_decided_block_context pk slot c m).2 !! (pk, slot) = Some kept ∧
          blinded_envelope kept = blinded_envelope c ∧ db_block_hash kept = db_block_hash c.
Proof.
  unfold record_decided_block_context. set (m' := filter _ m). clearbody m'.
  destruct (m' !! (pk, slot)) as [e|] eqn:He; cbn; intros Hok.
  - destruct (same_decision e c) eqn:Hs; [|done]. apply same_decision_iff in Hs as [H1 H2].
    eexists. cbn [fst snd]. rewrite lookup_insert_eq. by split.
  - exists c. cbn [fst snd]. by rewrite lookup_insert_eq.
Qed.

(** The calls made on the map, in the order in which they got the lock. *)
Definition record_calls (calls : list (PublicKeyBytes * Slot * DecidedBlockContext)) (m : DecidedBlocks)
    : DecidedBlocks :=
  foldl (λ m '(pk, slot, c), (record_decided_block_context pk slot c m).2) m calls.

Lemma record_calls_keep calls m key existing :
  m !! key = Some existing →
  Forall (λ '(_, slot, _), slot <= slot_add key.2 MAX_DECIDED_ROOT_AGE_SLOTS)%N calls →
  ∃ kept, record_calls calls m !! key = Some kept ∧
          blinded_envelope kept = blinded_envelope existing ∧ db_block_hash kept = db_block_hash existing.
Proof.
  revert m existing. induction calls as [|[[pk slot] c] calls IH]; intros m e Hm Hc; [by exists e|].
  apply Forall_cons in Hc as [Hs Hc]. destruct (record_keeps pk slot c m key e Hm Hs) as (k & Hk & H1 & H2).
  destruct (IH _ k Hk Hc) as (k' & Hk' & H1' & H2'). exists k'. rewrite H1', H2'. done.
Qed.

(** C40: one decided block per proposal: if two decisions for one validator and slot are both
    recorded with success, and no decision of a slot more than [MAX_DECIDED_ROOT_AGE_SLOTS]
    later was recorded between them, then they bind the same envelope, hence the same block
    root, parent, payload and builder, and the same execution block hash; in between the map
    answers with that decision. *)
Theorem decided_block_unique pk slot c d calls m :
  let m1 := (record_decided_block_context pk slot c m).2 in
  let m2 := record_calls calls m1 in
  (slot <= u64_max)%N → (record_decided_block_context pk slot c m).1 = Ok tt →
  Forall (λ '(_, s, _), s <= slot_add slot MAX_DECIDED_ROOT_AGE_SLOTS)%N calls →
  (∃ kept, m2 !! (pk, slot) = Some kept ∧ blinded_envelope kept = blinded_envelope c) ∧
  ((record_decided_block_context pk slot d m2).1 = Ok tt →
     blinded_envelope d = blinded_envelope c ∧ db_block_hash d = db_block_hash c).
Proof.
  cbv zeta. intros Hslot Hc Hcalls. destruct (record_ok _ _ _ _ Hc) as (k & Hk & H1 & H2).
  destruct (record_calls_keep calls _ (pk, slot) k Hk Hcalls) as (k' & Hk' & H1' & H2').
  split; [exists k'; split; [done|congruence]|]. intros Hd.
  destruct (record_ok _ _ _ _ Hd) as (k2 & Hk2 & H3 & H4).
  assert (slot <= slot_add slot MAX_DECIDED_ROOT_AGE_SLOTS)%N as Hs.
  { unfold slot_add, MAX_DECIDED_ROOT_AGE_SLOTS. lia. }
  destruct (record_keeps pk slot d _ (pk, slot) k' Hk' Hs) as (k3 & Hk3 & H5 & H6).
  rewrite Hk2 in Hk3. injection Hk3 as ->. split; congruence.
Qed.

(** ** Batches *)

Lemma from_le_bytes_inj a b : length a = length b → from_le_bytes a = from_le_bytes b → a = b.
Proof. intros Hl He. rewrite <- (to_from_le_bytes a), <- (to_from_le_bytes b), Hl, He. done. Qed.

Lemma hash256_ord_inj h h' : (h < 2 ^ 256)%N → (h' < 2 ^ 256)%N → hash256_ord h = hash256_ord h' → h = h'.
Proof.
  intros H H' He. unfold hash256_ord in He. apply from_le_bytes_inj in He.
  2: { by rewrite !length_reverse, !length_to_le_bytes. }
  apply (f_equal reverse) in He. rewrite !reverse_involutive in He.
  rewrite <- (from_to_le_bytes 32 h), <- (from_to_le_bytes 32 h'), He by done. done.
Qed.

(** The number of positions a list of entries stands for: in all, and of the subnets and
    roots selected by [f]. *)
Definition positions (l : list SyncCommitteeBatchEntry) : nat := sum_list (be_multiplicity <$> l).
Definition positions_at (f : N → Hash256 → bool) (l : list SyncCommitteeBatchEntry) : nat :=
  positions (filter (λ e, f (be_subnet_id e) (be_signing_root e) = true) l).

Lemma positions_app l1 l2 : positions (l1 ++ l2) = positions l1 + positions l2.
Proof. unfold positions. rewrite fmap_app. apply sum_list_with_app. Qed.
Lemma positions_at_app f l1 l2 : positions_at f (l1 ++ l2) = positions_at f l1 + positions_at f l2.
Proof. unfold positions_at. by rewrite filter_app, positions_app. Qed.

Lemma removelast_last {A} (l : list A) x : last l = Some x → l = removelast l ++ [x].
Proof.
  intros Hl. apply last_Some in Hl as [l' ->]. by rewrite removelast_last.
Qed.

Lemma collapse_entry_positions l e f :
  positions (collapse_entry l e) = positions (l ++ [e]) ∧
  positions_at f (collapse_entry l e) = positions_at f (l ++ [e]).
Proof.
  unfold collapse_entry. destruct (last l) as [p|] eqn:Hl; [|done].
  destruct (_ && _) eqn:Hb; [|done]. apply andb_true_iff in Hb as [H1%bool_decide_eq_true H2%bool_decide_eq_true].
  rewrite (removelast_last l p Hl) at 2 4. rewrite !positions_app, !positions_at_app. split; [cbn; lia|].
  unfold positions_at. rewrite !filter_cons, !filter_nil. cbn [be_subnet_id be_signing_root].
  rewrite <- H1, <- H2. case_decide; cbn; lia.
Qed.

Lemma collapse_positions l acc f :
  positions (foldl collapse_entry acc l) = positions acc + positions l ∧
  positions_at f (foldl collapse_entry acc l) = positions_at f acc + positions_at f l.
Proof.
  revert acc. induction l as [|e l IH]; intros acc; cbn [foldl].
  { unfold positions_at. rewrite filter_nil. cbn. lia. }
  destruct (IH (collapse_entry acc e)) as [-> ->]. destruct (collapse_entry_positions acc e f) as [-> ->].
  change (e :: l) with ([e] ++ l). rewrite !positions_app, !positions_at_app. lia.
Qed.

Definition entry_root_ok (e : SyncCommitteeBatchEntry) : Prop := (be_signing_root e < 2 ^ 256)%N.
Definition key_lt (a b : N * N) : Prop := pair_le a b ∧ a ≠ b.

Lemma Forall_one {A} (P : A → Prop) x : Forall P [x] → P x.
Proof. by intros [? _]%Forall_cons. Qed.

Lemma StronglySorted_snoc {A} (R : relation A) l x :
  StronglySorted R (l ++ [x]) ↔ StronglySorted R l ∧ Forall (λ y, R y x) l.
Proof.
  induction l as [|y l IH]; cbn.
  { split; [|repeat constructor]. intros _. by repeat constructor. }
  split.
  - intros [Hs Hf]%StronglySorted_inv. apply IH in Hs as [Hs Hx].
    apply Forall_app in Hf as [Hf Hyx]. apply Forall_one in Hyx.
    split; [by constructor|]. apply Forall_cons. by split.
  - intros [[Hs Hf]%StronglySorted_inv Hx]. apply Forall_cons in Hx as [Hyx Hx].
    constructor; [by apply IH|]. apply Forall_app. split; [done|]. by apply Forall_singleton.
Qed.

(** One step keeps the keys strictly increasing, if the new key is not below them. *)
Lemma collapse_entry_sorted acc e :
  StronglySorted key_lt (entry_key <$> acc) → Forall entry_root_ok (acc ++ [e]) →
  Forall (λ x, pair_le (entry_key x) (entry_key e)) acc →
  StronglySorted key_lt (entry_key <$> collapse_entry acc e) ∧ Forall entry_root_ok (collapse_entry acc e) ∧
  Forall (λ x, pair_le (entry_key x) (entry_key e)) (collapse_entry acc e).
Proof.
  intros Hs Hr Hle. pose proof Hr as [Hra Hre%Forall_one]%Forall_app. unfold collapse_entry.
  destruct (last acc) as [p|] eqn:Hl.
  2: { apply last_None in Hl as ->. cbn. split; [by repeat constructor|]. split; by repeat constructor. }
  rewrite (removelast_last acc p Hl) in Hs, Hle, Hra. set (acc' := removelast acc) in *.
  pose proof (removelast_last acc p Hl) as Hacc. fold acc' in Hacc. clearbody acc'. subst acc.
  rewrite fmap_app in Hs. cbn in Hs. apply StronglySorted_snoc in Hs as [Hs Hp].
  apply Forall_app in Hle as [Hle Hpe%Forall_one]. apply Forall_app in Hra as [Hra Hrp%Forall_one].
  destruct (_ && _) eqn:Hb.
  - apply andb_true_iff in Hb as [H1%bool_decide_eq_true H2%bool_decide_eq_true].
    rewrite fmap_app. split; [|split].
    + cbn. by apply StronglySorted_snoc.
    + apply Forall_app. split; [done|]. by apply Forall_singleton.
    + apply Forall_app. split; [done|]. apply Forall_singleton. unfold entry_key at 1. cbn. by rewrite H1, H2.
  - rewrite fmap_app. cbn [fmap list_fmap]. split; [|split; [done|]].
    + rewrite fmap_app. apply StronglySorted_snoc. split; [by apply StronglySorted_snoc|].
      assert (key_lt (entry_key p) (entry_key e)) as Hlt.
      { split; [done|]. intros [= Hs1 Hs2]. apply hash256_ord_inj in Hs2; [|done..].
        by rewrite Hs1, Hs2, !bool_decide_true in Hb. }
      apply Forall_app. split; [|by apply Forall_singleton].
      eapply Forall_impl; [exact Hp|]. cbn. intros k [Hk1 Hk2]. destruct Hlt as [Hl1 Hl2].
      split; [by etransitivity|]. intros ->. apply Hl2. by apply (anti_symm pair_le).
    + apply Forall_app. split; [|by apply Forall_singleton]. apply Forall_app. split; [done|]. by apply Forall_singleton.
Qed.

Lemma collapse_sorted l acc :
  StronglySorted key_lt (entry_key <$> acc) → StronglySorted pair_le (entry_key <$> l) →
  Forall (λ x, Forall (λ y, pair_le (entry_key x) (entry_key y)) l) acc →
  Forall entry_root_ok (acc ++ l) → StronglySorted key_lt (entry_key <$> foldl collapse_entry acc l).
Proof.
  revert acc. induction l as [|e l IH]; intros acc Hacc Hl Hle Hr; [done|]. cbn [foldl].
  cbn in Hl. apply StronglySorted_inv in Hl as [Hl Hel]. rewrite Forall_fmap in Hel.
  rewrite cons_middle, app_assoc in Hr. apply Forall_app in Hr as [Hr Hrl].
  destruct (collapse_entry_sorted acc e Hacc Hr) as (H1 & H2 & H3).
  { eapply Forall_impl; [exact Hle|]. cbn. by intros x [? _]%Forall_cons. }
  apply IH; [done|done| |by apply Forall_app].
  eapply Forall_impl; [exact H3|]. cbn. intros x Hx. eapply Forall_impl; [exact Hel|]. cbn.
  intros y Hy. by etransitivity.
Qed.

Lemma key_lt_NoDup (l : list (N * N)) : StronglySorted key_lt l → NoDup l.
Proof.
  induction 1 as [|k l Hs IH Hf]; constructor; [|done]. intros Hk.
  rewrite Forall_forall in Hf. by destruct (Hf k Hk).
Qed.

(** Expanding a descriptor: one message per position, by root. *)
Section expand.
Context {SecretKey : Type} (sk_sign : SecretKey → Hash256 → Signature).

Lemma expand_entries (data : ValidatorSigningData (SecretKey:=SecretKey)) signer l acc root :
  length (foldl (expand_entry sk_sign data signer) acc l).2 = length acc.2 + positions l ∧
  length (filter (λ m, signing_root m = root) (foldl (expand_entry sk_sign data signer) acc l).2) =
    length (filter (λ m, signing_root m = root) acc.2) +
    positions (filter (λ e, be_signing_root e = root) l).
Proof.
  revert acc. induction l as [|e l IH]; intros [inj exp]; cbn [foldl]; [cbn; lia|].
  assert (∃ inj' m, expand_entry sk_sign data signer (inj, exp) e = (inj', exp ++ replicate (be_multiplicity e) m) ∧
                    signing_root m = be_signing_root e) as (inj' & m & -> & Hm).
  { cbn. destruct (head (filter _ inj)) as [m|] eqn:Hh; [|by do 2 eexists].
    exists inj, m. split; [done|]. apply head_Some_elem_of in Hh. by apply list_elem_of_filter in Hh as [? _]. }
  destruct (IH (inj', exp ++ replicate (be_multiplicity e) m)) as [-> ->]. cbn [snd].
  rewrite filter_app, !length_app, length_replicate.
  assert (length (filter (λ m0, signing_root m0 = root) (replicate (be_multiplicity e) m)) =
          if decide (be_signing_root e = root) then be_multiplicity e else 0) as ->.
  { rewrite <- Hm. induction (be_multiplicity e) as [|n IHn]; cbn [replicate]; [by case_decide|].
    rewrite filter_cons. case_decide; cbn; lia. }
  rewrite filter_cons. unfold positions. split; [cbn; lia|]. case_decide; cbn; lia.
Qed.
End expand.

Section batches.
Context `{SigL : SigningLib}.
Context {SecretKey : Type} (sk_sign : SecretKey → Hash256 → Signature).

Definition contribution_root (aggregator_index : N) (domain : Hash256)
    (c : BlsSignature * SyncCommitteeContribution) : Hash256 :=
  contribution_signing_root aggregator_index c.2 c.1 domain.

Lemma contribution_positions agg dom f cs :
  positions (contribution_entry agg dom <$> cs) = length cs ∧
  positions_at f (contribution_entry agg dom <$> cs) =
    length (filter (λ c, f (subcommittee_index c.2) (contribution_root agg dom c) = true) cs).
Proof.
  unfold positions_at. induction cs as [|c cs (H1 & H2)]; [done|].
  cbn [fmap list_fmap]. rewrite !filter_cons.
  cbn [contribution_entry be_subnet_id be_signing_root].
  unfold contribution_root, contribution_and_proof_root in *. cbn in *. unfold positions in *.
  split; [cbn; lia|]. case_decide; cbn; lia.
Qed.

Lemma positions_perm l l' : l ≡ₚ l' → positions l = positions l'.
Proof. unfold positions. induction 1; cbn; lia. Qed.

(** The callback's contribution is among those counted. *)
Lemma callback_in_batch agg dom callback cs m d :
  ok_or (head (filter (λ m, subcommittee_index (cap_contribution m) = callback)
           ((λ c, mkContributionAndProof agg c.2 c.1) <$> cs))) NoDataAgreed = Ok m →
  (∀ f, positions_at f d = length (filter (λ c, f (subcommittee_index c.2) (contribution_root agg dom c) = true) cs)) →
  0 < positions_at (λ s r, bool_decide (s = callback ∧ r = contribution_and_proof_root m dom)) d.
Proof.
  intros Hm ->. destruct (head _) as [m'|] eqn:Hh; [|done]. injection Hm as ->.
  apply head_Some_elem_of, list_elem_of_filter in Hh as [Hs Hin]. apply list_elem_of_fmap in Hin as (c & -> & Hc).
  match goal with |- 0 < length ?l => assert (c ∈ l) as Hin end.
  { apply list_elem_of_filter. split; [|done]. by apply bool_decide_eq_true. }
  destruct (filter _ cs); [by apply elem_of_nil in Hin|]. cbn. lia.
Qed.

(** the batch of a validator that contributes to several sync subnets.  From the
    decided contributions every callback of the validator prepares the same descriptor,
    whose keys are strictly increasing, so no subnet and root comes twice; it stands for
    each subnet and root as often as the contributions hold it, and for the callback's own.
    What the signature collector expands it to is one message per contribution, with each
    root as often as it was decided. *)
Theorem prepared_batch_expands cs callback agg dom b (data : ValidatorSigningData (SecretKey:=SecretKey)) msg :
  prepare_decided_sync_contributions cs callback agg dom = Ok b →
  Forall (λ c, contribution_root agg dom c < 2 ^ 256)%N cs →
  let sent := (expand_batch sk_sign data msg (pb_descriptor b)).2 in
  (∀ callback' b', prepare_decided_sync_contributions cs callback' agg dom = Ok b' →
     pb_descriptor b' = pb_descriptor b) ∧
  StronglySorted key_lt (entry_key <$> pb_descriptor b) ∧
  (∀ f, positions_at f (pb_descriptor b) =
     length (filter (λ c, f (subcommittee_index c.2) (contribution_root agg dom c) = true) cs)) ∧
  0 < positions_at (λ s r, bool_decide (s = callback ∧ r = pb_callback_signing_root b)) (pb_descriptor b) ∧
  length sent = length cs ∧
  (∀ root, length (filter (λ m, signing_root m = root) sent) =
           length (filter (λ c, contribution_root agg dom c = root) cs)).
Proof.
  unfold prepare_decided_sync_contributions. intros H Hr.
  apply bind_ok in H as (m & Hm & [= <-]). cbn [pb_descriptor pb_callback_signing_root]. cbv zeta.
  set (l := contribution_entry agg dom <$> cs). set (d := foldl collapse_entry [] (sort_by_pair entry_key l)).
  pose proof (sort_by_pair_permutation entry_key l) as Hp.
  assert (∀ f, positions_at f d = length (filter (λ c, f (subcommittee_index c.2) (contribution_root agg dom c) = true) cs)) as Hc.
  { intros f. unfold d. destruct (collapse_positions (sort_by_pair entry_key l) [] f) as [_ ->].
    destruct (contribution_positions agg dom f cs) as (_ & <-). fold l. cbn. apply positions_perm. by rewrite Hp. }
  split; [intros callback' b' H'; by apply bind_ok in H' as (m' & _ & [= <-])|].
  split; [|split; [done|split; [by eapply callback_in_batch|]]].
  - apply collapse_sorted; [constructor|apply sort_by_pair_sorted|constructor|]. cbn. rewrite Hp.
    unfold l. rewrite Forall_fmap. done.
  - unfold expand_batch. split.
    + destruct (expand_entries sk_sign data (psm_signer msg) d ([msg], []) 0%N) as [-> _]. unfold d. cbn.
      destruct (collapse_positions (sort_by_pair entry_key l) [] (λ _ _, true)) as [-> _]. cbn.
      rewrite (positions_perm _ _ Hp). apply (contribution_positions agg dom (λ _ _, true) cs).
    + intros root. destruct (expand_entries sk_sign data (psm_signer msg) d ([msg], []) root) as [_ ->]. cbn.
      transitivity (positions_at (λ _ r, bool_decide (r = root)) d); [|rewrite Hc; f_equal];
        [unfold positions_at; f_equal|]; apply list_filter_iff; intros e; by rewrite bool_decide_eq_true.
Qed.
End batches.

(** ** Selection proofs of a validator in several sync subnets *)

Lemma saturating_sum ns acc :
  foldl (λ acc n, N.min u64_max (acc + N.of_nat n)) (N.min u64_max acc) ns =
  N.min u64_max (acc + N.of_nat (sum_list ns)).
Proof.
  revert acc. induction ns as [|n ns IH]; intros acc; cbn [foldl sum_list_with].
  { f_equal. cbn. lia. }
  replace (N.min u64_max (N.min u64_max acc + N.of_nat n)) with (N.min u64_max (acc + N.of_nat n)) by lia.
  rewrite IH. f_equal. cbn. lia.
Qed.

Definition selection_entries (selection_root : N → Hash256) (position_counts : gmap N nat)
    : list SyncCommitteeBatchEntry :=
  (λ '(subnet_id, n), mkBatchEntry subnet_id (selection_root subnet_id) n) <$> map_to_list position_counts.

Lemma selection_entries_positions root pc :
  positions (selection_entries root pc) = sum_list (map_to_list pc).*2.
Proof.
  unfold positions, selection_entries. rewrite <- list_fmap_compose. f_equal. apply list_fmap_ext. by intros ? [].
Qed.

(** A descriptor is built exactly for a validator with positions on the callback's subnet,
    on known subnets only, and at most as many as one message may hold; it lists the subnets
    in order, each with its positions. *)
Lemma selection_descriptor_iff subnet_count root callback pc d :
  sync_selection_proof_descriptor subnet_count root callback pc = Ok d ↔
  is_Some (pc !! callback) ∧ (∀ s n, pc !! s = Some n → (s < subnet_count)%N) ∧
  (N.of_nat (positions d) <= MAX_SYNC_COMMITTEE_POSITIONS)%N ∧
  d = sort_by_pair (λ e, (be_subnet_id e, 0%N)) (selection_entries root pc).
Proof.
  assert (Hr : filter (λ s, subnet_count <= s)%N (map_to_list pc).*1 = [] ↔
               ∀ s n, pc !! s = Some n → (s < subnet_count)%N).
  { split.
    - intros H s n Hs. apply N.nle_gt. intros Hle. apply (filter_nil_not_elem_of _ _ s H Hle).
      apply list_elem_of_fmap. exists (s, n). by rewrite elem_of_map_to_list.
    - intros H. apply elem_of_nil_inv. intros s [Hle Hin]%list_elem_of_filter.
      apply list_elem_of_fmap in Hin as ([s' n] & -> & Hin%elem_of_map_to_list). specialize (H s' n Hin).
      cbn in Hle. lia. }
  assert (Hsum : foldl (λ acc n, N.min u64_max (acc + N.of_nat n)) 0%N (map_to_list pc).*2 =
                 N.min u64_max (N.of_nat (positions (selection_entries root pc)))).
  { rewrite selection_entries_positions. apply (saturating_sum _ 0%N). }
  assert (Hd : positions (sort_by_pair (λ e, (be_subnet_id e, 0%N)) (selection_entries root pc)) =
               positions (selection_entries root pc)).
  { apply positions_perm, sort_by_pair_permutation. }
  unfold sync_selection_proof_descriptor. rewrite Hsum. fold (selection_entries root pc).
  assert (MAX_SYNC_COMMITTEE_POSITIONS < u64_max)%N as Hmax by done. split.
  - intros H. apply bind_ok in H as ([] & _ & H). apply bind_ok in H as ([] & H1%ensure_ok%bool_decide_eq_true & H).
    apply bind_ok in H as ([] & H2 & H). apply bind_ok in H as ([] & H3%ensure_ok & [= <-]).
    apply negb_true_iff, N.ltb_ge in H3. split; [done|]. rewrite Hd. split; [|split; [lia|done]].
    apply Hr. by destruct (filter _ _).
  - intros (H1 & H2%Hr & H3 & ->). rewrite Hd in H3. rewrite H2.
    assert (map_to_list pc ≠ []) as Hne.
    { destruct H1 as [n Hn]. intros Hnil. apply map_to_list_empty_iff in Hnil as ->. by rewrite lookup_empty in Hn. }
    rewrite (bool_decide_eq_false_2 (map_to_list pc = [])) by done. rewrite bool_decide_eq_true_2 by done.
    cbn [negb ensure mbind outcome_bind].
    assert ((MAX_SYNC_COMMITTEE_POSITIONS <? N.min u64_max (N.of_nat (positions (selection_entries root pc))))%N = false) as ->.
    { apply N.ltb_ge. lia. }
    done.
Qed.

(** ** Decrypted keys *)

Section keys.
Context {SecretKey : Type} (private_decrypt : bytes → option bytes) (sk_deserialize : bytes → option SecretKey).

(** The cache only ever answers with the decryption of the share, and stays bounded. *)
Lemma lru_ok key cache :
  cache_ok private_decrypt sk_deserialize cache →
  let r := lru_try_get_or_insert MAX_VALIDATORS_PER_OPERATOR key
             (decrypt_key_share private_decrypt sk_deserialize key) cache in
  r.1 = decrypt_key_share private_decrypt sk_deserialize key ∧ cache_ok private_decrypt sk_deserialize r.2.
Proof.
  intros [Hl Hf]. cbv zeta. unfold lru_try_get_or_insert.
  destruct (list_find _ cache) as [[i e]|] eqn:Hfind.
  - apply list_find_Some in Hfind as (Hi & <- & _). pose proof (Forall_lookup_1 _ _ _ _ Hf Hi) as He.
    split; [done|]. split.
    + cbn. rewrite length_app, length_take, length_drop. apply lookup_lt_Some in Hi. lia.
    + cbn. constructor; [done|]. apply Forall_app. split; [by apply Forall_take|by apply Forall_drop].
  - destruct (decrypt_key_share _ _ key) as [sk|] eqn:Hk; cbn [fst snd]; [|done].
    split; [done|]. split; [rewrite length_take; lia|]. apply Forall_take. by constructor.
Qed.
End keys.

(** ** Proposer delay *)

(** A proposer never waits past the configured offset from the start of the slot, and waits
    for exactly what is missing. *)
Lemma proposer_delay_exact delay elapsed w :
  delay_wait (proposer_delay_decision_at delay elapsed) = Some w ↔
  ∃ e, elapsed = Some e ∧ (e < delay)%N ∧ (e + w = delay)%N.
Proof.
  unfold proposer_delay_decision_at, checked_sub64. destruct (N.eqb_spec delay 0) as [->|Hd]; cbn.
  { split; [done|]. intros (e & _ & ? & _). lia. }
  destruct elapsed as [e|]; cbn; [|naive_solver].
  destruct (N.leb_spec e delay); cbn; [|split; [done|]; intros (? & [= <-] & ? & _); lia].
  destruct (N.eqb_spec (delay - e) 0); cbn; split; try done.
  - intros (? & [= <-] & ? & _). lia.
  - intros [= <-]. exists e. split; [done|lia].
  - intros (? & [= <-] & ? & ?). f_equal. lia.
Qed.

(** ** Containers for the examples

    Messages are numbers again; a signing root adds the domain. *)

Module SampleSigning.
Export SampleBeacon.

#[export] Instance signing_lib : SigningLib (BL:=beacon_lib) := {|
  full_fork_name _ := ForkName.Electra;
  full_signing_root b d := (b + d)%N;
  full_canonical_root b := b;
  full_payload_bid _ := None;
  full_of_gloas b := b;
  to_blinded b := b;
  blinded_fork_name _ := ForkName.Electra;
  blinded_signing_root b d := (b + d)%N;
  blinded_tree_hash_root b := b;
  blinded_as_ssz b := to_le_bytes 8 b;
  blinded_gloas _ := None;
  gloas_proposal_as_ssz p := to_le_bytes 8 (gp_block p);
  gloas_proposal_from_ssz bs := n ← number bs; Ok (mkGloasProposal n 0%N);
  attestation_data _ := mkAttestationData 0 0 0 (mkCheckpoint 0 0) (mkCheckpoint 0 0);
  attestation_signing_root a d := (ad_slot a + ad_beacon_block_root a + d)%N;
  from_attestation i a _ := AggBase i;
  aggregate_attestation a := AttBase 0%N;
  aggregate_as_ssz a := [];
  aggregate_signing_root a d := d;
  contribution_slot c := 0%N;
  contribution_signing_root i c p d := (c + d)%N;
  contributions_as_ssz _ := [];
  contributions_from_ssz _ := Ok [];
  epoch_signing_root e d := (e + d)%N;
  slot_signing_root s d := (s + d)%N;
  hash_signing_root h d := (h + d)%N;
  sync_selection_signing_root s i d := (s + i + d)%N;
  registration_signing_root r d := (vr_timestamp r + d)%N;
  PayloadAttestationData := N;
  pa_slot := id;
  payload_attestation_signing_root a d := (a + d)%N;
  ProposerPreferences := N;
  pp_proposal_slot := id;
  preferences_signing_root p d := (p + d)%N;
  RequestAuth := N;
  ra_slot := id;
  request_auth_signing_root r d := (r + d)%N;
  VoluntaryExit := N;
  exit_signing_root e d := (e + d)%N;
  exit_domain _ d := d;
  ExecutionPayloadEnvelope := N;
  ep_slot := id;
  ep_payload_tree_hash_root := id;
  ep_payload_block_hash := id;
  ep_execution_requests_tree_hash_root := id;
  ep_builder_index _ := BUILDER_INDEX_SELF_BUILD;
  ep_beacon_block_root := id;
  ep_parent_beacon_block_root := id;
  blinded_envelope_signing_root e d := (en_payload_root e + d)%N;
  signing_data_root r d := (r + d)%N;
|}.

Definition context (root : Hash256) : DecidedBlockContext :=
  mkDecidedBlock root root 1 2 BUILDER_INDEX_SELF_BUILD 3 true.

(** Slot 10, then decisions up to slot 14; a different block for slot 10 is refused. *)
Lemma decided_block_unique_witness :
  let calls := [([], 12%N, context 8); ([], 14%N, context 9)] in
  let m := record_calls calls (record_decided_block_context [] 10 (context 7) ∅).2 in
  (∃ kept, m !! ([], 10%N) = Some kept ∧ blinded_envelope kept = blinded_envelope (context 7)) ∧
  (record_decided_block_context [] 10 (context 6) m).1 ≠ Ok tt.
Proof.
  cbv zeta.
  destruct (decided_block_unique [] 10 (context 7) (context 6) [([], 12%N, context 8); ([], 14%N, context 9)] ∅)
    as [H1 H2].
  - vm_compute. congruence.
  - vm_compute. reflexivity.
  - repeat constructor; vm_compute; congruence.
  - split; [exact H1|]. intros H. apply H2 in H as [H _]. vm_compute in H. congruence.
Defined.

(** Two subnets, the second contribution repeated. *)
Lemma prepared_batch_expands_witness :
  let cs := [(1%N, 3%N); (1%N, 2%N); (1%N, 3%N)] in
  ∃ b, prepare_decided_sync_contributions (SigL:=signing_lib) cs 2 5 100 = Ok b ∧
       pb_descriptor b = [mkBatchEntry 2 102 1; mkBatchEntry 3 103 2] ∧
       length (expand_batch (SecretKey:=unit) (λ _ _, [])
                 {| sd_root := 102%N; sd_index := 0%N; sd_validator_pubkey := []; sd_share := None |}
                 {| partial_signature := []; signing_root := 102%N; psm_signer := 1%N; validator_index := 0%N |}
                 (pb_descriptor b)).2 = 3.
Proof.
  cbv zeta. eexists. split; [vm_compute; reflexivity|]. split; [reflexivity|].
  match goal with |- length (expand_batch ?sk ?data ?msg (pb_descriptor ?b)).2 = _ =>
    destruct (prepared_batch_expands (SigL:=signing_lib) sk [(1%N, 3%N); (1%N, 2%N); (1%N, 3%N)] 2 5 100 b data msg)
      as (_ & _ & _ & _ & Hl & _)
  end.
  - vm_compute. reflexivity.
  - repeat constructor; vm_compute; reflexivity.
  - exact Hl.
Defined.
End SampleSigning.
