(* ===== verification/StoreEffects.v ===== *)
(** * Operations that wait, and their interleavings

    The operations of the validator store ([anchor/validator_store/src/lib.rs]) are
    asynchronous: many run at once over one store, and each can be suspended wherever it
    waits.  Here are the memory they share, the calls they make on what surrounds the store
    (clock, slashing database, QBFT instances, signature collector, executor), programs
    made of such calls, and the runs of a pool of programs, in which between any two calls
    of one program others may run.

    Answers from outside are arbitrary; those of the memory and of the slashing
    database follow from their state.  [protocol] is the discipline the safety theorems
    of [StoreSafety.v] are proved with: each program holds permits, earned and spent by its
    calls, and an invariant relates the permits of all programs to the machine. *)

From S2P Require Import Prelude SsvTypes Messages QbftTypes ForkSchedule ValidationTypes DutyState.
From S2P Require Import ValidatorRules ConsensusValidation PartialValidation Subnet Validator MultiIndex.
From S2P Require Import NetworkState Sql CollectorState SignatureCollector RoundTimeout QbftManager.
From S2P Require Import BeaconTypes ConsensusData Voting StoreTypes.

Section effects.
Context `{BL : BeaconLib} {SigL : SigningLib} `{SL : SlashingLib} {C : Crypto} {SecretKey : Type}.
Context (beacon_vote_hash : BeaconVote → Hash256) (gloas_vote_hash : GloasBeaconVote → Hash256).

(** ** The memory of the store *)

(** [AggregationAssignments]; [ag_id] names the shared value, under which the waiters'
    contributions are found, and [ag_multi_sync_aggregators] has the sizes of the barriers. *)
Record AggregationAssignments := mkAggregation {
  ag_id : N;
  ag_slot : Slot;
  ag_aggregator_committees : gmap PublicKeyBytes N;
  ag_multi_sync_aggregators : gmap PublicKeyBytes nat;
  ag_consensus_data_by_ssv_committee : gmap CommitteeId AggregatorCommitteeConsensusData;
}.
#[export] Instance AggregationAssignments_eta : Eta AggregationAssignments := λ a,
  mkAggregation (ag_id a) (ag_slot a) (ag_aggregator_committees a) (ag_multi_sync_aggregators a)
    (ag_consensus_data_by_ssv_committee a).

(** The fields of [AnchorValidatorStore] that change (the voting context is in [Machine]),
    with the database it reads and the flag [is_synced]; [mem_contributions] is the [data] of the [ContributionWaiter]s, and
    [mem_next_id] names the next value to be shared. *)
Record Memory := mkMemory {
  mem_network : NetworkState;
  mem_is_synced : bool;
  mem_decrypted_keys : list (bytes * SecretKey);
  mem_decided_block_contexts : DecidedBlocks;
  mem_voting_assignments : option VotingAssignments;
  mem_aggregation_assignments : option AggregationAssignments;
  mem_contributions : gmap (N * PublicKeyBytes) (list (BlsSignature * SyncCommitteeContribution));
  mem_slashing_protection_last_prune : Epoch;
  mem_aggregator_post_consensus : gset (CommitteeId * Slot);
  mem_next_id : N;
}.
#[export] Instance Memory_eta : Eta Memory := λ m,
  mkMemory (mem_network m) (mem_is_synced m) (mem_decrypted_keys m) (mem_decided_block_contexts m)
    (mem_voting_assignments m) (mem_aggregation_assignments m)
    (mem_contributions m) (mem_slashing_protection_last_prune m) (mem_aggregator_post_consensus m)
    (mem_next_id m).

(** The watched value for a slot: the first that is of this slot or a later one. *)
Definition for_slot {X} (value_slot : X → Slot) (slot : Slot) (value : option X) : option X :=
  v ← value; if (slot <=? value_slot v)%N then Some v else None.

(** ** Calls *)

(** The requests that make the signature collector sign. *)
Inductive SignCall :=
  | CallSignAndCollect (metadata : SignatureMetadata) (requester : SignatureRequester)
      (data : ValidatorSigningData (SecretKey:=SecretKey))
  | CallSignProposerPacket (metadata : SignatureMetadata) (pubkey : PublicKeyBytes)
      (block : ValidatorSigningData (SecretKey:=SecretKey))
      (envelope : option (ValidatorSigningData (SecretKey:=SecretKey))).

Inductive effect : Type → Type :=
  (** one use of the memory, under its lock *)
  | Access {X} (f : Memory → X * Memory) : effect X
  (** [slot_clock.now()], [slot_clock.now_duration()], [Instant::now()] *)
  | ClockNow : effect (option Slot)
  | ClockNowDuration : effect (option N)
  | InstantNow : effect N
  (** the slashing database *)
  | CheckBlockProposal (pubkey : PublicKeyBytes) (header : BeaconBlockHeader) (domain : Hash256)
      : effect (outcome NotSafe Safe)
  | CheckAttestations (l : list (AttestationData * PublicKeyBytes * Hash256 * CheckSlashability))
      : effect (outcome NotSafe (list (outcome NotSafe Safe)))
  | PruneSignedAttestations (pubkeys : list PublicKeyBytes) (epoch : Epoch) : effect (outcome NotSafe unit)
  | PruneSignedBlocks (pubkeys : list PublicKeyBytes) (slot : Slot) : effect (outcome NotSafe unit)
  (** [voting_context_tx.send_replace(..)], and the locked map of a shared context *)
  | PublishVotingContext (vc : VotingContext) : effect unit
  | RememberVote (vc : VotingContext) (committee_id : CommitteeId) (vote : SlotVote)
      : effect (outcome CommitteeDecisionConflict unit)
  (** a request to the signature collector, up to its first wait *)
  | Sign (call : SignCall) : effect unit
  (** whether the executor takes a task, and whether it delivers its result *)
  | ExecutorTakes : effect bool
  | ExecutorDelivers : effect bool
  (** whether a write to the database succeeds *)
  | DatabaseWrites : effect bool
  (** the waits: for a signature, for a watched value, for time *)
  | AwaitSignature : effect (outcome Collection.CollectionError BlsSignature)
  | AwaitRegistered (metadata : SignatureMetadata) (index : ValidatorIndex) (pubkey : PublicKeyBytes)
      (root : Hash256) (required_companion : option Hash256)
      : effect (outcome Collection.CollectionError BlsSignature)
  | WaitVotingContext (slot : Slot) : effect (option VotingContext)
  | WaitFor {X} (f : Memory → option X) : effect (option X)
  | Sleep (duration : N) : effect unit
  | BarrierWait (id : N) (pubkey : PublicKeyBytes) : effect unit
  (** the QBFT instances *)
  | DecideProposer (id : ProposerInstanceId) (data : ProposerConsensusData)
      (validator : ProposerConsensusDataValidator) (mode : TimeoutMode) (members : list OperatorId)
      : effect (outcome ManagerError (Completed ProposerConsensusData))
  | DecideVote (id : CommitteeInstanceId) (data : BeaconVote) (validator : BeaconVoteValidator)
      (mode : TimeoutMode) (members : list OperatorId) : effect (outcome ManagerError (Completed BeaconVote))
  | DecideGloasVote (id : CommitteeInstanceId) (data : GloasBeaconVote) (validator : GloasBeaconVoteValidator)
      (mode : TimeoutMode) (members : list OperatorId)
      : effect (outcome ManagerError (Completed GloasBeaconVote))
  | DecideAggregator (id : AggregatorCommitteeInstanceId) (data : AggregatorCommitteeConsensusData)
      (mode : TimeoutMode) (members : list OperatorId)
      : effect (outcome ManagerError (Completed AggregatorCommitteeConsensusData))
  (** a wait that a deadline may cut short *)
  | Within {X} (e : effect X) : effect (option X).

(** Where a program can be suspended. *)
Fixpoint awaits {X} (e : effect X) : bool :=
  match e with
  | AwaitSignature | AwaitRegistered _ _ _ _ _ | WaitVotingContext _ | WaitFor _ | Sleep _ | BarrierWait _ _
  | DecideProposer _ _ _ _ _ | DecideVote _ _ _ _ _ | DecideGloasVote _ _ _ _ _ | DecideAggregator _ _ _ _
  | ExecutorDelivers => true
  | Within e => awaits e
  | _ => false
  end.

(** ** Programs *)

(** [Par] is [join_all] and [FuturesUnordered]: the programs run side by side, and the rest
    gets their results in the order in which they come. *)
Inductive prog (A : Type) : Type :=
  | Ret (a : A)
  | Call {X : Type} (e : effect X) (k : X → prog A)
  | Par {X : Type} (ps : list (prog X)) (k : list X → prog A).
#[global] Arguments Ret {A} a.
#[global] Arguments Call {A X} e k.
#[global] Arguments Par {A X} ps k.

Fixpoint prog_bind {A B} (p : prog A) (f : A → prog B) : prog B :=
  match p with
  | Ret a => f a
  | Call e k => Call e (λ x, prog_bind (k x) f)
  | Par ps k => Par ps (λ xs, prog_bind (k xs) f)
  end.

(** All results, or none. *)
Fixpoint all_some {A} (l : list (option A)) : option (list A) :=
  match l with
  | [] => Some []
  | o :: l => x ← o; xs ← all_some l; Some (x :: xs)
  end.

(** [tokio::time::timeout] and [select!] with a [sleep]: at every wait the time may be up. *)
Fixpoint race {A} (p : prog A) : prog (option A) :=
  match p with
  | Ret a => Ret (Some a)
  | @Call _ X e k =>
      if awaits e
      then Call (Within e) (λ o, match o with Some x => race (k x) | None => Ret None end)
      else Call e (λ x, race (k x))
  | Par ps k =>
      Par (map (λ p, race p) ps)
        (λ xs, match all_some xs with Some xs => race (k xs) | None => Ret None end)
  end.

(** Programs that return a [Result]. *)
Definition async (A : Type) : Type := prog (outcome StoreError A).

#[export] Instance async_ret : MRet async := λ A a, Ret (Ok a).
#[export] Instance async_bind : MBind async := λ A B f p,
  prog_bind p (λ r, match r with Ok a => f a | Err e => Ret (Err e) | Panic => Ret Panic end).

Definition call {X} (e : effect X) : async X := Call e (λ x, Ret (Ok x)).
(** [result?], and [result.map_err(SpecificError::from)?] *)
Definition sync {A} (r : outcome StoreError A) : async A := Ret r.
Definition sync_specific {A} (r : outcome SpecificError A) : async A := Ret (map_err Specific r).
Definition fail {A} (e : SpecificError) : async A := Ret (Err (Specific e)).
(** One use of the memory. *)
Definition read {X} (f : Memory → X) : async X := call (Access (λ m, (f m, m))).
Definition update (f : Memory → Memory) : async unit := call (Access (λ m, (tt, f m))).
(** The results of programs run side by side, in the order of completion. *)
Definition par {X} (ps : list (prog X)) : async (list X) := Par ps (λ xs, Ret (Ok xs)).

(** ** The machine *)

(** What happened: requests for signatures, what the slashing database let pass under its
    check, and the voting contexts published. *)
Inductive Event :=
  | EvSign (call : SignCall)
  | EvBlockCleared (pubkey : PublicKeyBytes) (header : BeaconBlockHeader)
  | EvAttestationCleared (pubkey : PublicKeyBytes) (data : AttestationData)
  | EvContext (vc : VotingContext).

(** The memory, the slashing database, the last voting context sent on its watch channel
    with the votes remembered under the contexts sent ([mc_next_context] names the next), and
    what happened so far. *)
Record Machine := mkMachine {
  mc_memory : Memory;
  mc_slashing : SlashingDatabase;
  mc_voting_context : option VotingContext;
  mc_next_context : N;
  mc_decided_votes : gmap N (gmap CommitteeId SlotVote);
  mc_log : list Event;
}.
#[export] Instance Machine_eta : Eta Machine := λ m,
  mkMachine (mc_memory m) (mc_slashing m) (mc_voting_context m) (mc_next_context m) (mc_decided_votes m) (mc_log m).

Definition emit (evs : list Event) (m : Machine) : Machine := m <| mc_log := mc_log m ++ evs |>.

(** What the surroundings answer; that a wait is never answered is a program that makes no
    further step. *)
Record Handler := {
  h_now : option Slot;
  h_now_duration : option N;
  h_instant : N;
  h_executor : bool;
  h_database : bool;
  h_signature : outcome Collection.CollectionError BlsSignature;
  h_proposer : ProposerConsensusData → outcome ManagerError (Completed ProposerConsensusData);
  h_vote : BeaconVote → outcome ManagerError (Completed BeaconVote);
  h_gloas_vote : GloasBeaconVote → outcome ManagerError (Completed GloasBeaconVote);
  h_aggregator : AggregatorCommitteeConsensusData →
                 outcome ManagerError (Completed AggregatorCommitteeConsensusData);
  h_channel_closed : bool;
  h_elapsed : bool;
}.

Definition cleared_block (pubkey : PublicKeyBytes) (header : BeaconBlockHeader) (r : outcome NotSafe Safe)
    : list Event :=
  match r with Ok SafeValid => [EvBlockCleared pubkey header] | _ => [] end.

Definition cleared_attestation
    (x : AttestationData * PublicKeyBytes * Hash256 * CheckSlashability) (r : outcome NotSafe Safe)
    : option (PublicKeyBytes * AttestationData) :=
  match x, r with
  | (data, pubkey, _, CheckYes), Ok SafeValid => Some (pubkey, data)
  | _, _ => None
  end.
Definition cleared_attestations (l : list (AttestationData * PublicKeyBytes * Hash256 * CheckSlashability))
    (r : outcome NotSafe (list (outcome NotSafe Safe))) : list (PublicKeyBytes * AttestationData) :=
  match r with Ok results => omap id (zip_with cleared_attestation l results) | _ => [] end.

Definition publish_context (vc : VotingContext) (m : Machine) : Machine :=
  let id := mc_next_context m in
  let vc := mkVotingContext id (vc_voting_assignments vc) (vc_vote vc) (vc_same_slot_head_root vc) in
  emit [EvContext vc]
    (m <| mc_voting_context := Some vc |> <| mc_next_context := (id + 1)%N |>).

Definition remember (vc : VotingContext) (committee_id : CommitteeId) (vote : SlotVote) (m : Machine)
    : outcome CommitteeDecisionConflict unit * Machine :=
  let '(r, votes) := remember_decided_vote beacon_vote_hash gloas_vote_hash vc committee_id vote
                       (default ∅ (mc_decided_votes m !! vc_id vc)) in
  (r, m <| mc_decided_votes := <[vc_id vc := votes]> (mc_decided_votes m) |>).

(** The answer to a call and the machine after it; [None] while a watched value is not
    there. *)
Fixpoint respond {X} (h : Handler) (m : Machine) (e : effect X) : option (X * Machine) :=
  match e with
  | Access f => let '(x, mem) := f (mc_memory m) in Some (x, m <| mc_memory := mem |>)
  | ClockNow => Some (h_now h, m)
  | ClockNowDuration => Some (h_now_duration h, m)
  | InstantNow => Some (h_instant h, m)
  | CheckBlockProposal pubkey header domain =>
      let '(r, db) := check_and_insert_block_proposal (mc_slashing m) pubkey header domain in
      Some (r, emit (cleared_block pubkey header r) (m <| mc_slashing := db |>))
  | CheckAttestations l =>
      let '(r, db) := check_and_insert_attestations (mc_slashing m) l in
      Some (r, emit ((λ x, EvAttestationCleared x.1 x.2) <$> cleared_attestations l r)
                 (m <| mc_slashing := db |>))
  | PruneSignedAttestations pubkeys epoch =>
      let '(r, db) := prune_all_signed_attestations (mc_slashing m) pubkeys epoch in
      Some (r, m <| mc_slashing := db |>)
  | PruneSignedBlocks pubkeys slot =>
      let '(r, db) := prune_all_signed_blocks (mc_slashing m) pubkeys slot in
      Some (r, m <| mc_slashing := db |>)
  | PublishVotingContext vc => Some (tt, publish_context vc m)
  | RememberVote vc committee_id vote => Some (remember vc committee_id vote m)
  | Sign call => Some (tt, emit [EvSign call] m)
  | ExecutorTakes => Some (h_executor h, m)
  | ExecutorDelivers => Some (h_executor h, m)
  | DatabaseWrites => Some (h_database h, m)
  | AwaitSignature => Some (h_signature h, m)
  | AwaitRegistered _ _ _ _ _ => Some (h_signature h, m)
  | WaitVotingContext slot =>
      if h_channel_closed h then Some (None, m)
      else match for_slot (λ vc, va_slot (vc_voting_assignments vc)) slot (mc_voting_context m) with
           | Some vc => Some (Some vc, m)
           | None => None
           end
  | WaitFor f =>
      if h_channel_closed h then Some (None, m)
      else match f (mc_memory m) with Some x => Some (Some x, m) | None => None end
  | Sleep _ => Some (tt, m)
  | BarrierWait _ _ => Some (tt, m)
  | DecideProposer _ data _ _ _ => Some (h_proposer h data, m)
  | DecideVote _ data _ _ _ => Some (h_vote h data, m)
  | DecideGloasVote _ data _ _ _ => Some (h_gloas_vote h data, m)
  | DecideAggregator _ data _ _ => Some (h_aggregator h data, m)
  | Within e =>
      if h_elapsed h then Some (None, m)
      else match respond h m e with Some (x, m) => Some (Some x, m) | None => None end
  end.

(** A wait leaves the machine as it is. *)
Lemma respond_awaits {X} h m (e : effect X) x m' :
  awaits e = true → respond h m e = Some (x, m') → m' = m.
Proof.
  revert m m' x. induction e; intros m m' x Ha Hr; cbn in *; try done; try congruence.
  - destruct (h_channel_closed h); [congruence|]. destruct (for_slot _ _ _); congruence.
  - destruct (h_channel_closed h); [congruence|]. destruct (f _); congruence.
  - destruct (h_elapsed h); [congruence|]. destruct (respond h m e) as [[y m1]|] eqn:He; [|done].
    injection Hr as <- <-. by eapply IHe.
Qed.

(** ** Steps of a program *)

(** One step: a call is answered, one of the programs side by side makes a step, or, when
    all have returned, the rest gets their results. *)
Fixpoint pstep {A} (m : Machine) (p : prog A) (m' : Machine) (p' : prog A) : Prop :=
  match p with
  | Ret _ => False
  | Call e k => ∃ h x, respond h m e = Some (x, m') ∧ p' = k x
  | @Par _ X ps k =>
      (fix one (done rest : list (prog X)) : Prop :=
         match rest with
         | [] => False
         | q :: rest =>
             (∃ q', pstep m q m' q' ∧ p' = Par (done ++ q' :: rest) k) ∨ one (done ++ [q]) rest
         end) [] ps
      ∨ ∃ xs ys, ps = Ret <$> xs ∧ xs ≡ₚ ys ∧ p' = k ys ∧ m' = m
  end.

(** The step of one among several. *)
Fixpoint one_steps {A} (m m' : Machine) (ps ps' : list (prog A)) : Prop :=
  match ps with
  | [] => False
  | q :: ps => (∃ q', pstep m q m' q' ∧ ps' = q' :: ps) ∨ ∃ ps0, one_steps m m' ps ps0 ∧ ps' = q :: ps0
  end.

Lemma pstep_par {A X} m (ps : list (prog X)) (k : list X → prog A) m' p' :
  pstep m (Par ps k) m' p' ↔
  (∃ ps', one_steps m m' ps ps' ∧ p' = Par ps' k) ∨
  (∃ xs ys, ps = Ret <$> xs ∧ xs ≡ₚ ys ∧ p' = k ys ∧ m' = m).
Proof.
  cbn [pstep]. apply or_iff_compat_r.
  assert (∀ done rest,
    (fix one (done rest : list (prog X)) : Prop :=
         match rest with
         | [] => False
         | q :: rest =>
             (∃ q', pstep m q m' q' ∧ p' = Par (done ++ q' :: rest) k) ∨ one (done ++ [q]) rest
         end) done rest ↔ ∃ ps', one_steps m m' rest ps' ∧ p' = Par (done ++ ps') k) as H.
  2: { apply (H [] ps). }
  intros done rest. revert done. induction rest as [|q rest IH]; intros done.
  { cbn. split; [done|]. by intros (? & ? & _). }
  rewrite IH. cbn [one_steps]. split.
  - intros [(q' & H & ->)|(ps' & H & ->)]; [exists (q' :: rest); naive_solver|].
    exists (q :: ps'). rewrite <- app_assoc. naive_solver.
  - intros (ps' & [(q' & H & ->)|(ps0 & H & ->)] & ->); [naive_solver|]. right. exists ps0.
    by rewrite <- app_assoc.
Qed.

Section prog_ind.
Context (P : ∀ A, prog A → Prop).
Context (Hret : ∀ A (a : A), P A (Ret a)).
Context (Hcall : ∀ A X (e : effect X) (k : X → prog A), (∀ x, P A (k x)) → P A (Call e k)).
Context (Hpar : ∀ A X (ps : list (prog X)) (k : list X → prog A),
  Forall (P X) ps → (∀ xs, P A (k xs)) → P A (Par ps k)).

(** Induction that also covers the programs run side by side. *)
Fixpoint prog_ind' A (p : prog A) {struct p} : P A p :=
  match p with
  | Ret a => Hret A a
  | Call e k => Hcall A _ e k (λ x, prog_ind' A (k x))
  | @Par _ X ps k =>
      Hpar A X ps k
        ((fix all (ps : list (prog X)) : Forall (P X) ps :=
            match ps with
            | [] => Forall_nil_2 _
            | p :: ps => Forall_cons_2 _ _ _ (prog_ind' X p) (all ps)
            end) ps)
        (λ xs, prog_ind' A (k xs))
  end.
End prog_ind.

(** ** Pools of operations *)

Section pools.
Context {Op Res : Type} (program : Op → prog Res).

Record Pool := mkPool {
  pool_machine : Machine;
  pool_threads : list (Op * prog Res);
}.

(** An operation is called, one makes a step, or the surroundings change what they own of
    the memory: the database, and whether the node is synced. *)
Inductive pool_step : Pool → Pool → Prop :=
  | pool_start m ts op : pool_step (mkPool m ts) (mkPool m (ts ++ [(op, program op)]))
  | pool_thread m ts i op p m' p' :
      ts !! i = Some (op, p) → pstep m p m' p' →
      pool_step (mkPool m ts) (mkPool m' (<[i := (op, p')]> ts))
  | pool_environment m ts network synced :
      pool_step (mkPool m ts)
        (mkPool (m <| mc_memory := mc_memory m <| mem_network := network |>
                                               <| mem_is_synced := synced |> |>) ts).

Definition reachable (m0 : Machine) (pool : Pool) : Prop := rtc pool_step (mkPool m0 []) pool.

(** ** The discipline of permits *)

Section protocol.
Context {Tok : Type}.
(** [call_ok T e F]: with the permits [T] the call [e] may be made, and [F x] are the permits
    after the answer [x]. *)
Context (call_ok : ∀ X, list Tok → effect X → (X → list Tok) → Prop).

(** A program that keeps to it, and what it establishes of the permits it ends with and its
    result. *)
Fixpoint ok {A} (T : list Tok) (p : prog A) (Q : list Tok → A → Prop) : Prop :=
  match p with
  | Ret a => ∃ T0, T ≡ₚ T0 ∧ Q T0 a
  | Call e k => ∃ T0 F, T ≡ₚ T0 ∧ call_ok _ T0 e F ∧ ∀ x, ok (F x) (k x) Q
  | @Par _ X ps k =>
      ∃ Ts T' (Q' : list Tok → X → Prop),
        T ≡ₚ concat Ts ++ T' ∧
        (fix all (Ts : list (list Tok)) (ps : list (prog X)) {struct ps} : Prop :=
           match ps, Ts with
           | [], [] => True
           | p :: ps, T :: Ts => ok T p Q' ∧ all Ts ps
           | _, _ => False
           end) Ts ps ∧
        ∀ Ts' xs, Forall2 Q' Ts' xs → ok (concat Ts' ++ T') (k xs) Q
  end.

Lemma ok_par_iff {A X} T (ps : list (prog X)) (k : list X → prog A) Q :
  ok T (Par ps k) Q ↔
  ∃ Ts T' (Q' : list Tok → X → Prop),
    T ≡ₚ concat Ts ++ T' ∧ Forall2 (λ T p, ok T p Q') Ts ps ∧
    ∀ Ts' xs, Forall2 Q' Ts' xs → ok (concat Ts' ++ T') (k xs) Q.
Proof.
  cbn [ok]. do 3 (apply exist_proper; intros ?). apply and_iff_compat_l, and_iff_compat_r.
  match goal with |- ?f ?Ts ps ↔ _ => generalize Ts end. clear T k Q.
  induction ps as [|p ps IH]; intros [|T Ts]; cbn.
  - by split; [constructor|].
  - split; [done|]. by inversion 1.
  - split; [done|]. by inversion 1.
  - rewrite Forall2_cons, IH. done.
Qed.

Lemma ok_perm {A} T T' (p : prog A) Q : T ≡ₚ T' → ok T p Q → ok T' p Q.
Proof.
  intros Hp. destruct p as [a|X e k|X ps k]; cbn.
  - intros (T0 & ? & ?). exists T0. by rewrite <- Hp.
  - intros (T0 & F & ? & ?). exists T0, F. by rewrite <- Hp.
  - intros (Ts & T0 & Q' & ? & ?). exists Ts, T0, Q'. by rewrite <- Hp.
Qed.

Lemma ok_mono {A} T (p : prog A) Q Q' : (∀ T a, Q T a → Q' T a) → ok T p Q → ok T p Q'.
Proof.
  intros HQ. revert T. induction p as [a|X e k IH|X ps k IH]; intros T; cbn.
  - naive_solver.
  - intros (T0 & F & ? & ? & ?). exists T0, F. naive_solver.
  - intros (Ts & T0 & Q0 & ? & ? & ?). exists Ts, T0, Q0. naive_solver.
Qed.

(** Sequencing. *)
Lemma ok_bind {A B} T (p : prog A) (f : A → prog B) Q :
  ok T p (λ T a, ok T (f a) Q) → ok T (prog_bind p f) Q.
Proof.
  revert T. induction p as [a|X e k IH|X ps k IH]; intros T; cbn.
  - intros (T0 & Hp & H). by eapply ok_perm.
  - intros (T0 & F & ? & ? & ?). exists T0, F. naive_solver.
  - intros (Ts & T0 & Q0 & ? & ? & ?). exists Ts, T0, Q0. naive_solver.
Qed.

(** A deadline around a program: a wait that may be made may be cut short, with the permits
    as they were. *)
Context (call_ok_within : ∀ X T (e : effect X) F, awaits e = true → call_ok X T e F →
  call_ok _ T (Within e) (λ o, match o with Some x => F x | None => T end)).

Lemma all_some_Forall2 {X} (Q : list Tok → X → Prop) Ts (xs : list (option X)) ys :
  Forall2 (λ T o, match o with Some x => Q T x | None => True end) Ts xs →
  all_some xs = Some ys → Forall2 Q Ts ys.
Proof.
  intros H. revert ys. induction H as [|T o Ts xs Ho H IH]; intros ys Hy; cbn in Hy.
  { injection Hy as <-. constructor. }
  destruct o as [x|]; [|done]. cbn in Hy. destruct (all_some xs) as [ys0|]; [|done]. cbn in Hy.
  injection Hy as <-. constructor; auto.
Qed.

Lemma ok_race {A} (p : prog A) : ∀ T Q,
  ok T p Q → ok T (race p) (λ T o, match o with Some a => Q T a | None => True end).
Proof.
  induction p as [A a|A X e k IH|A X ps k IHps IHk] using prog_ind'; intros T Q Hok.
  - done.
  - destruct Hok as (T0 & F & Hp & Hc & Hk). cbn. destruct (awaits e) eqn:Ha.
    + exists T0. eexists. split; [done|]. split; [by apply call_ok_within|].
      intros [x|]; [by apply IH|]. by exists T0.
    + exists T0, F. split; [done|]. split; [done|]. intros x. by apply IH.
  - apply ok_par_iff in Hok as (Ts & T' & Q' & Hp & Hps & Hk). cbn [race]. apply ok_par_iff.
    exists Ts, T', (λ T o, match o with Some a => Q' T a | None => True end). split; [done|]. split.
    + clear Hp Hk. induction Hps as [|T0 p Ts ps H Hps IH]; [constructor|].
      apply Forall_cons in IHps as [IHp IHps]. constructor; [by apply IHp|by apply IH].
    + intros Ts' xs H. destruct (all_some xs) as [ys|] eqn:Hy.
      * apply IHk, Hk. by eapply all_some_Forall2.
      * by eexists.
Qed.

(** An invariant of the machine and of all permits, however listed, that every allowed call
    and every change from outside keeps. *)
Context (Inv : Machine → list Tok → Prop).
Context (Inv_perm : ∀ m T T', T ≡ₚ T' → Inv m T → Inv m T').
Context (Inv_call : ∀ X T (e : effect X) F R h m x m',
  call_ok X T e F → Inv m (T ++ R) → respond h m e = Some (x, m') → Inv m' (F x ++ R)).
Context (Inv_environment : ∀ m T network synced,
  Inv m T → Inv (m <| mc_memory := mc_memory m <| mem_network := network |> <| mem_is_synced := synced |> |>) T).

(** What one program does keeps the invariant, whatever permits [R] the others hold. *)
Lemma pstep_ok {A} (p : prog A) : ∀ T R Q m m' p',
  ok T p Q → Inv m (T ++ R) → pstep m p m' p' → ∃ T', ok T' p' Q ∧ Inv m' (T' ++ R).
Proof.
  induction p as [A a|A X e k IH|A X ps k IHps IHk] using prog_ind'; intros T R Q m m' p' Hok HI Hs.
  - done.
  - destruct Hok as (T0 & F & Hp & Hc & Hk). destruct Hs as (h & x & Hr & ->).
    exists (F x). split; [done|]. eapply Inv_call; [done| |done]. eapply Inv_perm; [|done]. by rewrite Hp.
  - apply ok_par_iff in Hok as (Ts & T' & Q' & Hp & Hps & Hk). apply pstep_par in Hs as [(ps' & Hs & ->)|Hs].
    + assert (∃ Ts', Forall2 (λ T p, ok T p Q') Ts' ps' ∧ Inv m' (concat Ts' ++ T' ++ R)) as (Ts' & Hps' & HI').
      { clear Hk IHk. assert (Inv m (concat Ts ++ T' ++ R)) as HI'.
        { eapply Inv_perm; [|exact HI]. by rewrite Hp, app_assoc. }
        clear HI Hp. revert ps' Hs IHps HI'. generalize (T' ++ R) as R'. clear R T' T.
        induction Hps as [|T p Ts ps Hp Hps IH]; intros R' ps' Hs IHps HI; [done|]. cbn in HI.
        apply Forall_cons in IHps as [IHp IHps]. destruct Hs as [(q' & Hs & ->)|(ps0 & Hs & ->)].
        - rewrite <- app_assoc in HI. destruct (IHp _ _ _ _ _ _ Hp HI Hs) as (T1 & ? & HI1).
          exists (T1 :: Ts). split; [by constructor|]. cbn. by rewrite <- app_assoc.
        - destruct (IH (T ++ R') ps0 Hs IHps) as (Ts1 & ? & HI1).
          { eapply Inv_perm; [|exact HI]. rewrite !app_assoc. by rewrite (Permutation_app_comm T). }
          exists (T :: Ts1). split; [by constructor|]. eapply Inv_perm; [|exact HI1].
          cbn. rewrite !app_assoc. by rewrite (Permutation_app_comm T). }
      exists (concat Ts' ++ T'). rewrite <- app_assoc. split; [|done].
      apply ok_par_iff. by exists Ts', T', Q'.
    + destruct Hs as (xs & ys & -> & Hxy & -> & ->).
      assert (∃ Ts', Forall2 Q' Ts' xs ∧ concat Ts ≡ₚ concat Ts') as (Ts1 & HQ1 & Hc1).
      { clear -Hps. remember (Ret <$> xs) as ps eqn:Hx. revert xs Hx.
        induction Hps as [|T p Ts ps Hp Hps IH]; intros [|x xs] Hx; try done; [by exists []|].
        cbn in Hx. injection Hx as -> ->. destruct Hp as (T0 & HT & HQ). destruct (IH xs eq_refl) as (Ts1 & ? & ?).
        exists (T0 :: Ts1). split; [by constructor|]. cbn. by f_equiv. }
      apply Forall2_flip in HQ1. destruct (Permutation_Forall2 Hxy HQ1) as (Ts2 & Hp2 & HQ2).
      apply Forall2_flip in HQ2.
      exists (concat Ts2 ++ T'). split; [by apply Hk|]. eapply Inv_perm; [|exact HI].
      by rewrite Hp, Hc1, Hp2.
Qed.

Context (Q : Op → list Tok → Res → Prop) (program_ok : ∀ op, ok [] (program op) (Q op)).

(** In every pool that can be reached the invariant holds, and each operation still keeps to
    the discipline. *)
Lemma protocol_sound m0 pool :
  Inv m0 [] → reachable m0 pool →
  ∃ Ts, Forall2 (λ T t, ok T t.2 (Q t.1)) Ts (pool_threads pool) ∧ Inv (pool_machine pool) (concat Ts).
Proof.
  intros H0 Hr. unfold reachable in Hr.
  refine (rtc_ind_r (λ pool, ∃ Ts, Forall2 (λ T t, ok T t.2 (Q t.1)) Ts (pool_threads pool) ∧
            Inv (pool_machine pool) (concat Ts)) _ _ _ pool Hr).
  { exists []. by split; [constructor|]. }
  clear pool Hr. intros pool pool' _ Hstep (Ts & Hok & HI).
  destruct Hstep as [m ts op|m ts i op p m' p' Hi Hs|m ts network synced]; cbn [pool_threads pool_machine] in *.
  - exists (Ts ++ [[]]). split; [apply Forall2_app; [done|]; constructor; [apply program_ok|constructor]|].
    by rewrite concat_app, app_nil_r.
  - destruct (Forall2_lookup_r _ _ _ _ _ Hok Hi) as (T & HT & Hp). cbn in Hp.
    apply list_elem_of_split_length in HT as (Ts1 & Ts2 & -> & ->).
    rewrite concat_app in HI. cbn in HI.
    destruct (pstep_ok p T (concat Ts1 ++ concat Ts2) (Q op) m m' p' Hp) as (T' & Hp' & HI'); [|done|].
    { eapply Inv_perm; [|exact HI]. rewrite !app_assoc. by rewrite (Permutation_app_comm (concat Ts1)). }
    exists (Ts1 ++ T' :: Ts2). split.
    + replace (Ts1 ++ T' :: Ts2) with (<[length Ts1 := T']> (Ts1 ++ T :: Ts2)); [by apply Forall2_insert|].
      by rewrite insert_app_r_alt, Nat.sub_diag.
    + eapply Inv_perm; [|exact HI']. rewrite concat_app. cbn. rewrite !app_assoc.
      by rewrite (Permutation_app_comm (concat Ts1)).
  - exists Ts. auto.
Qed.
End protocol.
End pools.

(** ** Running a program to its end

    With the same answers throughout, and the programs side by side one after the other. *)

Fixpoint interp {A} (h : Handler) (m : Machine) (p : prog A) : option (A * Machine) :=
  match p with
  | Ret a => Some (a, m)
  | Call e k => match respond h m e with Some (x, m) => interp h m (k x) | None => None end
  | @Par _ X ps k =>
      match (fix all (m : Machine) (ps : list (prog X)) : option (list X * Machine) :=
               match ps with
               | [] => Some ([], m)
               | p :: ps =>
                   match interp h m p with
                   | Some (x, m) => match all m ps with Some (xs, m) => Some (x :: xs, m) | None => None end
                   | None => None
                   end
               end) m ps with
      | Some (xs, m) => interp h m (k xs)
      | None => None
      end
  end.

Definition psteps {A} : relation (Machine * prog A) := rtc (λ a b, pstep a.1 a.2 b.1 b.2).

Lemma psteps_par {A X} m m' (ps ps' : list (prog X)) (k : list X → prog A) :
  rtc (λ a b, one_steps a.1 b.1 a.2 b.2) (m, ps) (m', ps') → psteps (m, Par ps k) (m', Par ps' k).
Proof.
  intros H. change (psteps ((λ a : Machine * list (prog X), (a.1, Par a.2 k)) (m, ps))
    ((λ a : Machine * list (prog X), (a.1, Par a.2 k)) (m', ps'))).
  induction H as [a|a b c Hab _ IH]; [done|]. eapply rtc_l; [|exact IH]. cbn [fst snd]. apply pstep_par.
  left. by exists b.2.
Qed.

Lemma one_steps_head {X} m m' (p p' : prog X) ps :
  psteps (m, p) (m', p') → rtc (λ a b, one_steps a.1 b.1 a.2 b.2) (m, p :: ps) (m', p' :: ps).
Proof.
  intros H. change (rtc (λ a b, one_steps a.1 b.1 a.2 b.2)
    ((λ a : Machine * prog X, (a.1, a.2 :: ps)) (m, p)) ((λ a : Machine * prog X, (a.1, a.2 :: ps)) (m', p'))).
  induction H as [a|a b c Hab _ IH]; [done|]. eapply rtc_l; [|exact IH]. cbn. left. by exists b.2.
Qed.

Lemma one_steps_tail {X} m m' (p : prog X) ps ps' :
  rtc (λ a b, one_steps a.1 b.1 a.2 b.2) (m, ps) (m', ps') →
  rtc (λ a b, one_steps a.1 b.1 a.2 b.2) (m, p :: ps) (m', p :: ps').
Proof.
  intros H. change (rtc (λ a b, one_steps a.1 b.1 a.2 b.2)
    ((λ a : Machine * list (prog X), (a.1, p :: a.2)) (m, ps))
    ((λ a : Machine * list (prog X), (a.1, p :: a.2)) (m', ps'))).
  induction H as [a|a b c Hab _ IH]; [done|]. eapply rtc_l; [|exact IH]. cbn. right. by exists b.2.
Qed.

Lemma interp_psteps {A} (p : prog A) : ∀ h m a m',
  interp h m p = Some (a, m') → psteps (m, p) (m', Ret a).
Proof.
  induction p as [A a|A X e k IH|A X ps k IHps IHk] using prog_ind'; intros h m r m' Hi; cbn in Hi.
  - injection Hi as -> ->. done.
  - destruct (respond h m e) as [[x m1]|] eqn:Hr; [|done].
    eapply rtc_l; [|by eapply IH]. cbn. by exists h, x.
  - match type of Hi with match ?r with _ => _ end = _ => destruct r as [[xs m1]|] eqn:Hall; [|done] end.
    assert (rtc (λ a b, one_steps a.1 b.1 a.2 b.2) (m, ps) (m1, Ret <$> xs)) as Hs.
    { clear Hi IHk. revert m xs m1 Hall. induction ps as [|p ps IH]; intros m xs m1 Hall.
      - by injection Hall as <- <-.
      - apply Forall_cons in IHps as [IHp IHps]. destruct (interp h m p) as [[x m2]|] eqn:Hp; [|done].
        match type of Hall with match ?r with _ => _ end = _ => destruct r as [[xs' m3]|] eqn:Hrest; [|done] end.
        injection Hall as <- <-. cbn. etransitivity; [apply one_steps_head; by eapply IHp|].
        apply one_steps_tail. by eapply IH. }
    etransitivity; [by apply psteps_par|]. eapply rtc_l; [|by eapply IHk]. cbn [fst snd].
    apply pstep_par. right. by exists xs, xs.
Qed.

Lemma list_insert_middle_eq {A} (l1 : list A) x y l2 : <[length l1 := y]> (l1 ++ x :: l2) = l1 ++ y :: l2.
Proof. by rewrite insert_app_r_alt, Nat.sub_diag. Qed.

(** So an operation run to its end reaches a pool. *)
Lemma reachable_interp {Op Res} (program : Op → prog Res) m0 m ts op h r m' :
  reachable program m0 (mkPool m ts) → interp h m (program op) = Some (r, m') →
  reachable program m0 (mkPool m' (ts ++ [(op, Ret r)])).
Proof.
  unfold reachable. intros Hm Hi. apply interp_psteps in Hi. etransitivity; [exact Hm|]. eapply rtc_l; [apply (pool_start _ _ _ op)|].
  change (rtc (pool_step program)
    ((λ a : Machine * prog Res, mkPool a.1 (ts ++ [(op, a.2)])) (m, program op))
    ((λ a : Machine * prog Res, mkPool a.1 (ts ++ [(op, a.2)])) (m', Ret r))).
  induction Hi as [a|a b c Hab _ IH]; [done|]. eapply rtc_l; [|exact IH]. cbn [fst snd].
  rewrite <- (list_insert_middle_eq ts (op, a.2) (op, b.2) []). apply (pool_thread _ _ _ _ op a.2); [|done].
  by rewrite list_lookup_middle.
Qed.
End effects.
