(* ===== verification/PostConsensus.v ===== *)
(** * Signing the decided aggregation data of a committee

    From [anchor/validator_store/src/aggregator_post_consensus.rs]: which executions a
    slot's assignments start, the list of roots this operator signs of a decided value, and
    what is published of them.

    The theorems: an execution of a committee and slot is started once, as long as slots do
    not fall back behind the retained window; the list of roots is exactly the first
    resolvable entry of each identity this operator can sign, so that all members sign the
    same root for an identity, and no validator gets more than five. *)

From S2P Require Import Prelude SsvTypes Messages QbftTypes ForkSchedule ValidationTypes DutyState.
From S2P Require Import ValidatorRules ConsensusValidation PartialValidation Subnet Validator MultiIndex.
From S2P Require Import NetworkState Sql CollectorState SignatureCollector RoundTimeout QbftManager.
From S2P Require Import BeaconTypes ConsensusData Voting StoreTypes.

Definition AGGREGATOR_POST_CONSENSUS_RETAIN_EPOCHS : N := 2.

(** ** Executions *)

Section executions.
Context {D : Type} (spe : positive).

(** One pass of the loop: [executions.insert(..)], and the execution if the key was new. *)
Definition start_one (slot : Slot) (acc : list (CommitteeId * D) * gset (CommitteeId * Slot))
    (entry : CommitteeId * D) : list (CommitteeId * D) * gset (CommitteeId * Slot) :=
  let '(new_executions, executions) := acc in
  if decide ((entry.1, slot) ∈ executions) then (new_executions, executions)
  else (new_executions ++ [entry], {[(entry.1, slot)]} ∪ executions).

(** [start_aggregator_post_consensus], under the lock: the committees whose execution is
    registered by this call. *)
Definition start_aggregator_post_consensus (slot : Slot) (consensus_data : list (CommitteeId * D))
    (executions : gset (CommitteeId * Slot)) : list (CommitteeId * D) * gset (CommitteeId * Slot) :=
  let cutoff := (slot - AGGREGATOR_POST_CONSENSUS_RETAIN_EPOCHS * N.pos spe)%N in
  let executions := filter (λ k, cutoff <= k.2)%N executions in
  foldl (start_one slot) ([], executions) consensus_data.
End executions.

(** ** The roots to sign *)

Section worklist.
Context `{BL : BeaconLib} {SigL : SigningLib} {C : Crypto}.

Record DecidedWorklist := mkWorklist {
  wl_aggregates : gmap ValidatorIndex (SigningRequest AggregateAndProof_);
  wl_contributions : gmap (ValidatorIndex * N) (SigningRequest ContributionAndProof);
}.

(** [committee_cluster] *)
Definition committee_cluster (st : NetworkState) (committee_id : CommitteeId) : option Cluster :=
  head (omap (λ validator,
      cluster ← get_by (md_cluster_id validator) (ms_clusters (ns_multi st));
      if cl_liquidated cluster then None else Some cluster)
    (get_all_by_quaternary committee_id (ms_validator_metadata (ns_multi st)))).

Definition resolve_decided_aggregate (decided_data : AggregatorCommitteeConsensusData)
    (decided_aggregator : AssignedAggregator) (validator : ValidatorMetadata) (slot : Slot)
    (domain_hash : Hash256) : outcome string (SigningRequest AggregateAndProof_) :=
  let aggregator_index := aa_validator_index decided_aggregator in
  let committee_index := aa_committee_index decided_aggregator in
  decided_aggregate_idx ←
    ok_or (fst <$> list_find (λ idx, idx = committee_index) (ac_aggregator_committee_indexes decided_data))
      "Committee index not found in decided data"%string;
  decided_aggregate_bytes ←
    ok_or (ac_aggregated_attestations decided_data !! decided_aggregate_idx)
      "Aggregate attestation bytes not found in decided data"%string;
  decided_aggregate ←
    map_err (λ _, "Failed to decode decided aggregate"%string)
      (decode_attestation (ac_version decided_data) decided_aggregate_bytes);
  _ ← ensure (ad_slot (attestation_data decided_aggregate) =? slot)%N
        "Decided aggregate slot does not match duty slot"%string;
  let message := from_attestation aggregator_index decided_aggregate (aa_selection_proof decided_aggregator) in
  mret (mkSigningRequest validator (aggregate_signing_root message domain_hash) message).

Definition resolve_decided_contribution (decided_data : AggregatorCommitteeConsensusData)
    (decided_contributor : AssignedAggregator) (validator : ValidatorMetadata) (slot : Slot)
    (domain_hash : Hash256) : outcome string (SigningRequest ContributionAndProof) :=
  let subcommittee := aa_committee_index decided_contributor in
  decided_contribution ←
    ok_or (snd <$> list_find (λ c, subcommittee_index c = subcommittee)
             (ac_sync_committee_contributions decided_data))
      "Contribution not in consensus data - likely filtered due to beacon API failure"%string;
  _ ← ensure (contribution_slot decided_contribution =? slot)%N
        "Decided contribution slot does not match duty slot"%string;
  let message := mkContributionAndProof (aa_validator_index decided_contributor) decided_contribution
                   (aa_selection_proof decided_contributor) in
  mret (mkSigningRequest validator (contribution_and_proof_root message domain_hash) message).

(** The decided validators of the committee this operator can sign for, from one snapshot. *)
Definition local_validators (st : NetworkState) (committee_id : CommitteeId)
    (decided_indices : gset ValidatorIndex) : gmap ValidatorIndex ValidatorMetadata :=
  list_to_map (reverse (omap (λ validator,
      index ← md_index validator;
      if decide (index ∈ decided_indices) then
        cluster ← get_by (md_cluster_id validator) (ms_clusters (ns_multi st));
        if cl_liquidated cluster then None
        else _ ← get_by (md_public_key validator) (ms_shares (ns_multi st)); Some (index, validator)
      else None)
    (get_all_by_quaternary committee_id (ms_validator_metadata (ns_multi st))))).

(** The loops over the decided entries: an entry of a validator that is not local or that
    does not resolve is skipped, and of several for one identity the first is kept. *)
Definition keep_first {K V} `{Countable K} (entry : AssignedAggregator → option (K * V))
    (entries : list AssignedAggregator) : gmap K V :=
  foldl (λ m a,
    match entry a with
    | Some (k, v) => match m !! k with None => <[k := v]> m | Some _ => m end
    | None => m
    end) ∅ entries.

Definition ok_option {E A} (r : outcome E A) : option A := match r with Ok a => Some a | _ => None end.

(** [build_decided_worklist]; the two domains are those of the slot's epoch. *)
Definition build_decided_worklist (st : NetworkState) (decided_data : AggregatorCommitteeConsensusData)
    (committee_id : CommitteeId) (slot : Slot) (aggregate_domain contribution_domain : Hash256)
    : DecidedWorklist :=
  let decided_indices : gset ValidatorIndex :=
    list_to_set (aa_validator_index <$> (ac_aggregators decided_data ++ ac_contributors decided_data)) in
  let locals := local_validators st committee_id decided_indices in
  mkWorklist
    (keep_first (λ a,
       validator ← locals !! aa_validator_index a;
       request ← ok_option (resolve_decided_aggregate decided_data a validator slot aggregate_domain);
       Some (aa_validator_index a, request)) (ac_aggregators decided_data))
    (keep_first (λ a,
       validator ← locals !! aa_validator_index a;
       request ← ok_option (resolve_decided_contribution decided_data a validator slot contribution_domain);
       Some ((aa_validator_index a, aa_committee_index a), request)) (ac_contributors decided_data)).

(** The number of partial signatures submitted for a worklist. *)
Definition worklist_size (w : DecidedWorklist) : nat := size (wl_aggregates w) + size (wl_contributions w).

(** ** Publication *)

(** How the wait for a root's signature ends: it is there, it failed, or the deadline came. *)
Inductive RootSignature :=
  | RootSigned (signature : BlsSignature)
  | RootFailed
  | RootDeadline.

(** [await_root_signature] *)
Definition await_root_signature (r : RootSignature) : option BlsSignature :=
  match r with RootSigned signature => Some signature | RootFailed | RootDeadline => None end.

(** [publish_one_root] and [publish_one_contribution]: what is handed to [publish]. *)
Definition publish_one_root (fork_name : ForkName) (request : SigningRequest AggregateAndProof_)
    (r : RootSignature) : option (ForkName * AggregateAndProof_ * BlsSignature) :=
  signature ← await_root_signature r; Some (fork_name, sr_duty_data request, signature).
Definition publish_one_contribution (request : SigningRequest ContributionAndProof) (r : RootSignature)
    : option (ContributionAndProof * BlsSignature) :=
  signature ← await_root_signature r; Some (sr_duty_data request, signature).

(** [publish_committee_aggregates]: every root on its own, from how its wait ends. *)
Definition publish_committee_aggregates (fork_name : ForkName) (w : DecidedWorklist)
    (aggregate_result : ValidatorIndex → RootSignature)
    (contribution_result : ValidatorIndex * N → RootSignature)
    : list (ForkName * AggregateAndProof_ * BlsSignature) * list (ContributionAndProof * BlsSignature) :=
  (omap (λ kv, publish_one_root fork_name kv.2 (aggregate_result kv.1)) (map_to_list (wl_aggregates w)),
   omap (λ kv, publish_one_contribution kv.2 (contribution_result kv.1)) (map_to_list (wl_contributions w))).
End worklist.

(** ** Each execution starts once *)

Section once.
Context {D : Type} (spe : positive).
Abbreviation start := (start_aggregator_post_consensus (D:=D) spe).

(** The keys started by a sequence of calls, in the order in which they got the lock. *)
Fixpoint started (calls : list (Slot * list (CommitteeId * D))) (executions : gset (CommitteeId * Slot))
    : list (CommitteeId * Slot) :=
  match calls with
  | [] => []
  | (slot, data) :: calls =>
      let '(new_executions, executions) := start slot data executions in
      ((λ x, (x.1, slot)) <$> new_executions) ++ started calls executions
  end.

(** One call: the new keys are distinct, were not there and are there now; what is kept is
    still there. *)
Lemma start_spec slot data executions new_executions executions' :
  NoDup data.*1 → start slot data executions = (new_executions, executions') →
  NoDup ((λ x, (x.1, slot)) <$> new_executions) ∧
  (∀ k, k ∈ ((λ x, (x.1, slot)) <$> new_executions) → k ∉ executions ∧ k ∈ executions' ∧ k.2 = slot) ∧
  (∀ k, k ∈ executions → (slot - AGGREGATOR_POST_CONSENSUS_RETAIN_EPOCHS * N.pos spe <= k.2)%N → k ∈ executions').
Proof.
  intros Hnd. unfold start_aggregator_post_consensus.
  set (kept := filter _ executions).
  assert (∀ (l : list (CommitteeId * D)) new ex,
    foldl (start_one slot) (new, ex) l = (new_executions, executions') → NoDup l.*1 →
    NoDup ((λ x, (x.1, slot)) <$> new) →
    (∀ k, k ∈ ((λ x : CommitteeId * D, (x.1, slot)) <$> new) → k ∉ kept ∧ k ∈ ex ∧ k.2 = slot) → kept ⊆ ex →
    NoDup ((λ x, (x.1, slot)) <$> new_executions) ∧
    (∀ k, k ∈ ((λ x, (x.1, slot)) <$> new_executions) → k ∉ kept ∧ k ∈ executions' ∧ k.2 = slot) ∧
    kept ⊆ executions') as Hloop.
  { intros l. induction l as [|[c d] l IH]; intros new ex; cbn [foldl start_one fst].
    { intros [= -> ->]. done. }
    intros Hf Hl Hn Hk Hsub. apply NoDup_cons in Hl as [_ Hl]. case_decide as Hin; [by apply (IH new ex)|].
    refine (IH _ _ Hf Hl _ _ _); [| |set_solver].
    - rewrite fmap_app. apply NoDup_app. split; [done|]. split; [|apply NoDup_singleton].
      intros k Hk1 Hk2. apply list_elem_of_singleton in Hk2 as ->. by apply Hk in Hk1 as (_ & ? & _).
    - intros k. rewrite fmap_app, elem_of_app. intros [H|H].
      + apply Hk in H as (? & ? & ?). set_solver.
      + apply list_elem_of_singleton in H as ->. cbn. split; [|set_solver]. intros H. by apply Hsub in H. }
  intros Hf. destruct (Hloop data [] kept Hf Hnd) as (H1 & H2 & H3); [constructor|by intros ? ?%elem_of_nil|done|].
  split; [done|]. split.
  - intros k Hk. destruct (H2 k Hk) as (Hn & Hi & Hs). split; [|done]. intros He. apply Hn. unfold kept.
    apply elem_of_filter. split; [|done]. rewrite Hs. lia.
  - intros k Hk Hc. apply H3. unfold kept. by apply elem_of_filter.
Qed.

Lemma started_slots calls executions k :
  Forall (λ call, NoDup call.2.*1) calls → k ∈ started calls executions → k.2 ∈ calls.*1.
Proof.
  intros Hnd. revert executions. induction Hnd as [|[slot data] calls Hd Hnd IH]; intros ex; cbn.
  { by intros ?%elem_of_nil. }
  destruct (start slot data ex) as [new ex'] eqn:Hs. destruct (start_spec _ _ _ _ _ Hd Hs) as (_ & H & _).
  intros [Hk|Hk]%elem_of_app; [|right; by eapply IH]. apply H in Hk as (_ & _ & ->). by left.
Qed.

Lemma started_fresh calls executions :
  Forall (λ call, NoDup call.2.*1) calls →
  StronglySorted (λ a b, a.1 - AGGREGATOR_POST_CONSENSUS_RETAIN_EPOCHS * N.pos spe <= b.1)%N calls →
  NoDup (started calls executions) ∧ ∀ k, k ∈ started calls executions → k ∉ executions.
Proof.
  intros Hnd. revert executions. induction Hnd as [|[slot data] calls Hd Hnd IH]; intros ex Hsort; cbn.
  { split; [constructor|]. by intros k ?%elem_of_nil. }
  apply StronglySorted_inv in Hsort as [Hsort Hf].
  destruct (start slot data ex) as [new ex'] eqn:Hs. destruct (start_spec _ _ _ _ _ Hd Hs) as (H1 & H2 & H3).
  destruct (IH ex' Hsort) as [IH1 IH2]. split.
  - apply NoDup_app. split; [done|]. split; [|done]. intros k Hk Hk'. apply IH2 in Hk'. by apply H2 in Hk as (_ & ? & _).
  - intros k [Hk|Hk]%elem_of_app Hex; [by apply H2 in Hk as (? & _)|].
    pose proof (started_slots _ _ _ Hnd Hk) as Hsl. apply IH2 in Hk. apply Hk, H3; [done|].
    apply list_elem_of_fmap in Hsl as (b & -> & Hb). rewrite Forall_forall in Hf. apply (Hf b Hb).
Qed.

(** post-consensus runs once per committee and slot: however often assignments are
    published, in whatever order of slots as long as none is more than
    [AGGREGATOR_POST_CONSENSUS_RETAIN_EPOCHS] epochs behind an earlier one, no committee and
    slot gets a second execution, hence no second QBFT round and committee message. *)
Theorem execution_started_once (calls : list (Slot * list (CommitteeId * D))) :
  Forall (λ call, NoDup call.2.*1) calls →
  StronglySorted (λ a b, a.1 - AGGREGATOR_POST_CONSENSUS_RETAIN_EPOCHS * N.pos spe <= b.1)%N calls →
  NoDup (started calls ∅).
Proof. intros Hnd Hs. by apply started_fresh. Qed.
End once.

(** ** The roots to sign *)

Section keep_first.
Context `{BL : BeaconLib} {K V : Type} `{Countable K}.
Implicit Types (f : AssignedAggregator → option (K * V)).

Lemma keep_first_foldl f l (m : gmap K V) k :
  foldl (λ m a, match f a with
                | Some (k, v) => match m !! k with None => <[k := v]> m | Some _ => m end
                | None => m
                end) m l !! k =
  match m !! k with
  | Some v => Some v
  | None => snd <$> head (filter (λ kv, kv.1 = k) (omap f l))
  end.
Proof.
  revert m. induction l as [|a l IH]; intros m; cbn [foldl omap list_omap].
  { by destruct (m !! k). }
  destruct (f a) as [[k' v]|]; [|apply IH]. rewrite IH, filter_cons. cbn [fst].
  destruct (decide (k' = k)) as [->|Hne].
  - destruct (m !! k) eqn:Hk; [by rewrite Hk|]. by rewrite lookup_insert_eq.
  - destruct (m !! k'); [done|]. by rewrite lookup_insert_ne.
Qed.

Lemma keep_first_lookup f l k :
  keep_first f l !! k = snd <$> head (filter (λ kv, kv.1 = k) (omap f l)).
Proof. unfold keep_first. by rewrite keep_first_foldl, lookup_empty. Qed.

Lemma keep_first_Some f l k v : keep_first f l !! k = Some v → ∃ a, a ∈ l ∧ f a = Some (k, v).
Proof.
  rewrite keep_first_lookup. destruct (head _) as [[k' v']|] eqn:Hh; [|done]. intros [= <-].
  apply head_Some_elem_of, list_elem_of_filter in Hh as [Hk Hin]. cbn in Hk. subst k'.
  by apply list_elem_of_omap in Hin as (a & ? & ?); exists a.
Qed.

(** Two runs whose entries for a key agree up to [h] keep related values. *)
Lemma keep_first_agree f g (h : V → V) l k :
  (∀ a v, (∃ w, f a = Some (k, w)) ∨ (∃ w, g a = Some (k, w)) → f a = Some (k, v) → g a = Some (k, h v)) →
  (∀ a w, g a = Some (k, w) → ∃ v, f a = Some (k, v)) →
  keep_first g l !! k = h <$> (keep_first f l !! k).
Proof.
  intros Hfg Hgf. rewrite !keep_first_lookup. induction l as [|a l IH]; [done|]. cbn [omap list_omap].
  destruct (f a) as [[k1 v]|] eqn:Hf.
  - destruct (decide (k1 = k)) as [->|Hne].
    + rewrite (Hfg a v); [|by left; eexists|done]. rewrite !filter_cons_True by done. done.
    + rewrite (filter_cons_False _ (k1, v)) by done. destruct (g a) as [[k2 w]|] eqn:Hg; [|done].
      destruct (decide (k2 = k)) as [->|Hne2]; [|by rewrite filter_cons_False].
      destruct (Hgf a w Hg) as [v' Hv']. congruence.
  - destruct (g a) as [[k2 w]|] eqn:Hg; [|done].
    destruct (decide (k2 = k)) as [->|Hne2]; [|by rewrite filter_cons_False].
    destruct (Hgf a w Hg) as [v' Hv']. congruence.
Qed.
End keep_first.

Section worklist_proofs.
Context `{BL : BeaconLib} {SigL : SigningLib} {C : Crypto}.

(** The validator only labels a request. *)
Definition relabel {T} (validator : ValidatorMetadata) (r : SigningRequest T) : SigningRequest T :=
  mkSigningRequest validator (sr_signing_root r) (sr_duty_data r).

Lemma resolve_aggregate_relabel d a v v' slot dom :
  ok_option (resolve_decided_aggregate d a v' slot dom) =
  relabel v' <$> ok_option (resolve_decided_aggregate d a v slot dom).
Proof.
  unfold resolve_decided_aggregate. destruct (ok_or (fst <$> _) _) as [i| |]; [cbn|done..].
  destruct (ok_or (ac_aggregated_attestations d !! i) _) as [bs| |]; [cbn|done..].
  destruct (map_err _ (decode_attestation _ bs)) as [att| |]; [cbn|done..]. by destruct (ensure _ _).
Qed.

Lemma resolve_contribution_relabel d a v v' slot dom :
  ok_option (resolve_decided_contribution d a v' slot dom) =
  relabel v' <$> ok_option (resolve_decided_contribution d a v slot dom).
Proof.
  unfold resolve_decided_contribution. destruct (ok_or (snd <$> _) _) as [c| |]; [cbn|done..].
  by destruct (ensure _ _).
Qed.

(** The loops of two members over one decided value, whatever else their databases hold. *)
Lemma entries_agree {T K} `{Countable K} (res : AssignedAggregator → ValidatorMetadata → option (SigningRequest T))
    (key : AssignedAggregator → K) (l1 l2 : gmap ValidatorIndex ValidatorMetadata) entries k r1 r2 :
  (∀ a v v', res a v' = relabel v' <$> res a v) →
  (∀ a b, key a = key b → aa_validator_index a = aa_validator_index b) →
  let f l a := v ← l !! aa_validator_index a; r ← res a v; Some (key a, r) in
  keep_first (f l1) entries !! k = Some r1 → keep_first (f l2) entries !! k = Some r2 →
  sr_signing_root r1 = sr_signing_root r2 ∧ sr_duty_data r1 = sr_duty_data r2.
Proof.
  cbv zeta. intros Hres Hkey H1 H2.
  destruct (keep_first_Some _ _ _ _ H1) as (a1 & _ & Ha1).
  destruct (l1 !! aa_validator_index a1) as [v1|] eqn:Hv1; [|done]. cbn in Ha1.
  destruct (keep_first_Some _ _ _ _ H2) as (a2 & _ & Ha2).
  destruct (l2 !! aa_validator_index a2) as [v2|] eqn:Hv2; [|done]. cbn in Ha2.
  assert (key a1 = k) as <- by (destruct (res a1 v1); cbn in Ha1; congruence).
  assert (key a2 = key a1) as Hk by (destruct (res a2 v2); cbn in Ha2; congruence).
  assert (∀ a, key a = key a1 → l1 !! aa_validator_index a = Some v1) as Hl1.
  { intros a Ha. by rewrite (Hkey a a1). }
  assert (∀ a, key a = key a1 → l2 !! aa_validator_index a = Some v2) as Hl2.
  { intros a Ha. rewrite (Hkey a a2); [done|congruence]. }
  assert (keep_first (λ a, v ← l2 !! aa_validator_index a; r ← res a v; Some (key a, r)) entries !! key a1 =
          relabel v2 <$> (keep_first (λ a, v ← l1 !! aa_validator_index a; r ← res a v; Some (key a, r)) entries !! key a1))
    as He.
  { apply keep_first_agree.
    - intros a v _ Hf. destruct (l1 !! aa_validator_index a) as [v0|] eqn:Hl; [|done]. cbn in Hf.
      destruct (res a v0) as [r|] eqn:Hr; [|done]. cbn in Hf. injection Hf as Hka <-.
      rewrite (Hl2 a Hka). cbn. by rewrite (Hres a v0 v2), Hr, Hka.
    - intros a w Hg. destruct (l2 !! aa_validator_index a) as [v0|] eqn:Hl; [|done]. cbn in Hg.
      destruct (res a v0) as [r|] eqn:Hr; [|done]. cbn in Hg. injection Hg as Hka <-.
      exists (relabel v1 r). rewrite (Hl1 a Hka). cbn. by rewrite (Hres a v0 v1), Hr, Hka. }
  rewrite H1, H2 in He. cbn in He. injection He as ->. done.
Qed.

(** This operator can sign for the validator: it is of the committee, its cluster is active,
    and there is a share. *)
Definition signable (st : NetworkState) (committee_id : CommitteeId) (index : ValidatorIndex)
    (validator : ValidatorMetadata) : Prop :=
  md_index validator = Some index ∧
  validator ∈ get_all_by_quaternary committee_id (ms_validator_metadata (ns_multi st)) ∧
  (∃ cluster, get_by (md_cluster_id validator) (ms_clusters (ns_multi st)) = Some cluster ∧
              cl_liquidated cluster = false) ∧
  is_Some (get_by (md_public_key validator) (ms_shares (ns_multi st))).

Lemma local_validators_signable st committee_id indices index validator :
  local_validators st committee_id indices !! index = Some validator →
  signable st committee_id index validator.
Proof.
  unfold local_validators. intros Hl%elem_of_list_to_map_2.
  apply elem_of_reverse, list_elem_of_omap in Hl as (v & Hv & Hf).
  destruct (md_index v) as [i|] eqn:Hi; [|done]. cbn in Hf. case_decide; [|done].
  destruct (get_by (md_cluster_id v) _) as [c|] eqn:Hc; [|done]. cbn in Hf.
  destruct (cl_liquidated c) eqn:Hlq; [done|].
  destruct (get_by (md_public_key v) _) as [sh|] eqn:Hsh; [|done]. cbn in Hf. injection Hf as -> ->.
  split; [done|]. split; [done|]. split; [by exists c|by eexists].
Qed.

(** C37: what the members of a committee sign of one decided value agrees: for every identity
    that two of them sign, whatever their databases otherwise hold, the message and its root
    are the same; and each request is for a validator of the committee that the operator
    holds a share of, in an active cluster. *)
Theorem members_sign_same_roots st1 st2 data committee_id slot da dc :
  let w1 := build_decided_worklist st1 data committee_id slot da dc in
  let w2 := build_decided_worklist st2 data committee_id slot da dc in
  (∀ v r1, wl_aggregates w1 !! v = Some r1 →
     signable st1 committee_id v (sr_validator r1) ∧
     ∀ r2, wl_aggregates w2 !! v = Some r2 →
       sr_signing_root r1 = sr_signing_root r2 ∧ sr_duty_data r1 = sr_duty_data r2) ∧
  (∀ v s r1, wl_contributions w1 !! (v, s) = Some r1 →
     signable st1 committee_id v (sr_validator r1) ∧
     ∀ r2, wl_contributions w2 !! (v, s) = Some r2 →
       sr_signing_root r1 = sr_signing_root r2 ∧ sr_duty_data r1 = sr_duty_data r2).
Proof.
  cbv zeta. unfold build_decided_worklist. cbn [wl_aggregates wl_contributions]. split.
  - intros v r1 H1. split.
    + apply keep_first_Some in H1 as (a & _ & Ha). destruct (local_validators _ _ _ !! _) as [v0|] eqn:Hl; [|done].
      cbn in Ha. apply local_validators_signable in Hl.
      destruct (resolve_decided_aggregate _ _ _ _ _) as [r| |] eqn:Hr; [|done..]. cbn in Ha. injection Ha as <- <-.
      unfold resolve_decided_aggregate in Hr. by repeat apply bind_ok in Hr as (? & _ & Hr); injection Hr as <-.
    + intros r2 H2. refine (entries_agree _ _ _ _ _ _ _ _ _ _ H1 H2); [|done].
      intros a v1 v2. apply resolve_aggregate_relabel.
  - intros v s r1 H1. split.
    + apply keep_first_Some in H1 as (a & _ & Ha). destruct (local_validators _ _ _ !! _) as [v0|] eqn:Hl; [|done].
      cbn in Ha. apply local_validators_signable in Hl.
      destruct (resolve_decided_contribution _ _ _ _ _) as [r| |] eqn:Hr; [|done..]. cbn in Ha. injection Ha as <- <- <-.
      unfold resolve_decided_contribution in Hr. by repeat apply bind_ok in Hr as (? & _ & Hr); injection Hr as <-.
    + intros r2 H2. refine (entries_agree _ _ _ _ _ _ _ _ _ _ H1 H2); [|by intros a b [= ? _]].
      intros a v1 v2. apply resolve_contribution_relabel.
Qed.

(** ** The packet is one the receivers take *)

Lemma check_index_occurrences_complete limit l counts :
  (∀ v, default 0 (counts !! v) + occurrences v l ≤ limit) →
  check_index_occurrences limit counts l = Ok tt.
Proof.
  revert counts. induction l as [|x l IH]; intros counts Hv; cbn [check_index_occurrences]; [done|].
  rewrite decide_False.
  - apply IH. intros v. specialize (Hv v). rewrite occurrences_cons in Hv.
    destruct (decide (validator_index x = v)) as [->|Hne].
    + rewrite lookup_insert_eq. cbn [default from_option id]. lia.
    + rewrite lookup_insert_ne by done. lia.
  - specialize (Hv (validator_index x)). rewrite occurrences_cons, decide_True in Hv by done. lia.
Qed.

(** The validators of the partial signatures submitted for a worklist. *)
Definition worklist_validators (w : DecidedWorklist) : list ValidatorIndex :=
  (map_to_list (wl_aggregates w)).*1 ++ (map_to_list (wl_contributions w)).*1.*1.

Lemma NoDup_filter_eq {A} `{EqDecision A} (l : list A) x : NoDup l → length (filter (λ y, y = x) l) ≤ 1.
Proof.
  induction 1 as [|y l Hy Hnd IH]; [cbn; lia|]. rewrite filter_cons. case_decide as Hxy; [|done]. subst y.
  enough (filter (λ y, y = x) l = []) as -> by (cbn; lia).
  apply elem_of_nil_inv. by intros z [-> Hz]%list_elem_of_filter.
Qed.

Lemma length_filter_fmap {A B} (f : A → B) (y : B) `{EqDecision B} (l : list A) :
  length (filter (λ z, z = y) (f <$> l)) = length (filter (λ x, f x = y) l).
Proof. induction l as [|x l IH]; [done|]. cbn [fmap list_fmap]. rewrite !filter_cons. case_decide; cbn; auto. Qed.

(** The subcommittees a validator contributes to are among those decided. *)
Lemma contributions_per_validator st data committee_id slot da dc v :
  let w := build_decided_worklist st data committee_id slot da dc in
  length (filter (λ k, k.1 = v) (map_to_list (wl_contributions w)).*1) ≤
  length (ac_sync_committee_contributions data).
Proof.
  cbv zeta. set (w := build_decided_worklist _ _ _ _ _ _).
  set (ks := filter (λ k, k.1 = v) (map_to_list (wl_contributions w)).*1).
  assert (NoDup ks) as Hnd by (by apply NoDup_filter, NoDup_fst_map_to_list).
  assert (NoDup ks.*2) as Hnd2.
  { apply NoDup_fmap_2_strong; [|done]. intros [a b] [c d] [Ha _]%list_elem_of_filter [Hc _]%list_elem_of_filter Hbd.
    cbn in *. congruence. }
  assert (ks.*2 ⊆ subcommittee_index <$> ac_sync_committee_contributions data) as Hsub.
  { intros s Hs. apply list_elem_of_fmap in Hs as ([v' s'] & -> & Hk). cbn.
    apply list_elem_of_filter in Hk as [_ Hk]. apply list_elem_of_fmap in Hk as ([k r] & Hk & Hin). cbn in Hk. subst k.
    apply elem_of_map_to_list in Hin. unfold w, build_decided_worklist in Hin. cbn [wl_contributions] in Hin.
    apply keep_first_Some in Hin as (a & _ & Ha). destruct (local_validators _ _ _ !! _); [|done]. cbn in Ha.
    destruct (resolve_decided_contribution _ _ _ _ _) as [r0| |] eqn:Hr; [|done..]. cbn in Ha. injection Ha as _ <- _.
    unfold resolve_decided_contribution in Hr. apply bind_ok in Hr as (c & Hc & _).
    destruct (list_find _ _) as [[i c']|] eqn:Hf; [|done]. injection Hc as <-.
    apply list_find_Some in Hf as (Hi & <- & _). apply list_elem_of_fmap. exists c'. split; [done|].
    by eapply list_elem_of_lookup_2. }
  rewrite <- (length_fmap snd ks), <- (length_fmap subcommittee_index (ac_sync_committee_contributions data)).
  apply submseteq_length, NoDup_submseteq; done.
Qed.

(** C38: the message a committee member sends for a decided value passes the receivers'
    limit of five partial signatures per validator, in whatever order the signatures were
    batched: a validator has at most one aggregate and one contribution per subcommittee. *)
Theorem worklist_within_limits st data committee_id slot da dc (packet : list PartialSignatureMessage) :
  let w := build_decided_worklist st data committee_id slot da dc in
  (len (ac_sync_committee_contributions data) <= MaxSyncContributions)%N →
  validator_index <$> packet ≡ₚ worklist_validators w →
  length packet = worklist_size w ∧ check_index_occurrences 5 ∅ packet = Ok tt.
Proof.
  cbv zeta. set (w := build_decided_worklist _ _ _ _ _ _). intros Hc Hp. split.
  { apply Permutation_length in Hp. rewrite length_fmap in Hp. rewrite Hp. unfold worklist_validators, worklist_size.
    rewrite length_app, !length_fmap. by rewrite !length_map_to_list. }
  apply check_index_occurrences_complete. intros v. rewrite lookup_empty. cbn [default from_option id].
  assert (occurrences v packet = length (filter (λ y, y = v) (worklist_validators w))) as ->.
  { rewrite <- Hp. unfold occurrences. by rewrite length_filter_fmap. }
  unfold worklist_validators. rewrite filter_app, length_app, (length_filter_fmap fst v (map_to_list (wl_contributions w)).*1).
  pose proof (NoDup_filter_eq (map_to_list (wl_aggregates w)).*1 v (NoDup_fst_map_to_list _)) as H1.
  pose proof (contributions_per_validator st data committee_id slot da dc v) as H2. cbv zeta in H2. fold w in H2.
  unfold len, MaxSyncContributions in Hc.
  lia.
Qed.
End worklist_proofs.

(** ** Examples *)

Module SamplePostConsensus.
Export SampleSigning.

#[export] Instance store_crypto : Crypto :=
  {| PubKey := N; rsa_verify := λ _ _ _, true; ssv_as_ssz := λ m, msg_id m; sha256 := λ bs, bs;
     pk_deserialize := Some |}.

(** One validator, number 5, with a share of ours. *)
Definition cluster : Cluster := mkCluster 7 1 1 false [1; 2; 3; 4]%N.
Definition validator : ValidatorMetadata := mkValidatorMetadata [x01] 7 (Some 5%N) [].
Definition db : NetworkState :=
  mkNetworkState
    (insert_validator_multi cluster validator (Some (mkShare [x01] 1 7 [x02] [x03]))
       (mkMultiState mi_new mi_new mi_new))
    (mkSingleState (Some 1%N) 0 ∅ {[7%N]} ∅ None).

(** An aggregate and contributions to subnets 1 and 2, one of them listed twice, for
    validator 5, and one entry for a validator that is not ours. *)
Definition data : AggregatorCommitteeConsensusData :=
  mkAggregatorData ForkName.Electra
    [mkAssignedAggregator 5 0%N 3; mkAssignedAggregator 9 0%N 3] [3%N] [[x00]]
    [mkAssignedAggregator 5 0%N 1; mkAssignedAggregator 5 0%N 2; mkAssignedAggregator 5 1%N 1] [1%N; 2%N].
Definition worklist : DecidedWorklist :=
  build_decided_worklist db data (cluster_committee_id cluster) 0 0 0.

Definition partial (root : Hash256) : PartialSignatureMessage :=
  {| partial_signature := []; signing_root := root; psm_signer := 1%N; validator_index := 5%N |}.

Lemma worklist_within_limits_witness :
  worklist_size worklist = 3 ∧ check_index_occurrences 5 ∅ [partial 0; partial 1; partial 2] = Ok tt.
Proof.
  destruct (worklist_within_limits db data (cluster_committee_id cluster) 0 0 0 [partial 0; partial 1; partial 2])
    as [H1 H2].
  - vm_compute. congruence.
  - assert (worklist_validators (build_decided_worklist db data (cluster_committee_id cluster) 0 0 0) =
            [5%N; 5%N; 5%N]) as -> by (vm_compute; reflexivity). reflexivity.
  - split; [symmetry; exact H1|exact H2].
Defined.

(** Slots 100 to 102, with 101 published twice, and 100 once more at the end. *)
Definition calls : list (Slot * list (CommitteeId * unit)) :=
  [(100%N, [([x01], tt); ([x02], tt)]); (101%N, [([x01], tt)]); (101%N, [([x01], tt); ([x02], tt)]);
   (102%N, [([x01], tt)]); (100%N, [([x01], tt)])].

Lemma execution_started_once_witness :
  started 32 calls ∅ = [([x01], 100%N); ([x02], 100%N); ([x01], 101%N); ([x02], 101%N); ([x01], 102%N)] ∧
  NoDup (started 32 calls ∅).
Proof.
  split; [vm_compute; reflexivity|]. apply (execution_started_once 32 calls).
  - repeat (constructor; [apply (bool_decide_unpack _); vm_compute; exact I|]). constructor.
  - repeat constructor; vm_compute; congruence.
Defined.
End SamplePostConsensus.
