(* ===== verification/ValidatorStore.v ===== *)
(** * The validator store

    [AnchorValidatorStore] of [anchor/validator_store/src/lib.rs]: each operation of
    [impl ValidatorStore] and the methods behind it as a program over the calls of
    [StoreEffects.v], statement by statement.  Spans, logs, metrics and timers
    have no effect on the results and are left out.

    [operation] and [program] gather the operations, so that [StoreSafety.v] can speak of
    all of them running at once. *)

From S2P Require Import Prelude SsvTypes Messages QbftTypes ForkSchedule ValidationTypes DutyState.
From S2P Require Import ValidatorRules ConsensusValidation PartialValidation Subnet Validator MultiIndex.
From S2P Require Import NetworkState Sql CollectorState SignatureCollector RoundTimeout QbftManager.
From S2P Require Import BeaconTypes ConsensusData Voting StoreTypes StoreEffects PostConsensus.

(** ** Requests of the validator client *)

(** [ProposerConsensusDataLen] *)
Definition ProposerConsensusDataLen : N := 2 ^ 23.
(** The capacity of [Contributions]. *)
Definition MaxContributions : N := 13.

(** [AttestationToSign], [SyncMessageToSign], [AggregateToSign] and [ContributionToSign] of
    the [validator_store] crate, and the messages of [types] returned for the first two. *)
Record AttestationToSign := mkAttestationToSign {
  ats_pubkey : PublicKeyBytes;
  ats_attester_index : N;
  ats_committee_index : N;
  ats_data : AttestationData;
}.
#[export] Instance AttestationToSign_eta : Eta AttestationToSign := λ a,
  mkAttestationToSign (ats_pubkey a) (ats_attester_index a) (ats_committee_index a) (ats_data a).

Record SyncMessageToSign := mkSyncMessageToSign {
  sms_pubkey : PublicKeyBytes;
  sms_slot : Slot;
  sms_validator_index : N;
}.

Section store.
Context `{BL : BeaconLib} {SigL : SigningLib} `{SL : SlashingLib} {C : Crypto} {SecretKey : Type}.
(** [hash] of the values that are decided, and [SecretKey::deserialize]. *)
Context (beacon_vote_hash : BeaconVote → Hash256) (gloas_vote_hash : GloasBeaconVote → Hash256).
Context (aggregator_data_hash : AggregatorCommitteeConsensusData → Hash256).
Context (sk_deserialize : bytes → option SecretKey).

Abbreviation Memory := (StoreEffects.Memory (SecretKey:=SecretKey)).
Abbreviation prog := (StoreEffects.prog (SL:=SL) (SecretKey:=SecretKey)).
Abbreviation async := (StoreEffects.async (SL:=SL) (SecretKey:=SecretKey)).
Abbreviation signing_data := (ValidatorSigningData (SecretKey:=SecretKey)).

Record AggregateToSign := mkAggregateToSign {
  agg_pubkey : PublicKeyBytes;
  agg_aggregator_index : N;
  agg_aggregate : Attestation;
  agg_selection_proof : BlsSignature;
}.

Record ContributionToSign := mkContributionToSign {
  cts_aggregator_index : N;
  cts_aggregator_pubkey : PublicKeyBytes;
  cts_contribution : SyncCommitteeContribution;
  cts_selection_proof : BlsSignature;
}.

Record SingleAttestation := mkSingleAttestation {
  sat_committee_index : N;
  sat_attester_index : N;
  sat_data : AttestationData;
  sat_signature : BlsSignature;
}.

Record SyncCommitteeMessage := mkSyncCommitteeMessage {
  scm_slot : Slot;
  scm_beacon_block_root : Hash256;
  scm_validator_index : N;
  scm_signature : BlsSignature;
}.

Record ProposalData := mkProposalData {
  pdt_validator_index : option N;
  pdt_fee_recipient : option Address;
  pdt_gas_limit : N;
  pdt_builder_proposals : bool;
}.

(** The fields of [AnchorValidatorStore] that do not change.  [cfg_private_decrypt] is RSA
    decryption under the operator's key, if there is one; [cfg_start_of] and [cfg_slot_of]
    are those of the slot clock. *)
Record StoreConfig := {
  cfg_disable_slashing_protection : bool;
  cfg_spec : BeaconSpec;
  cfg_duty_spec : DutySpec;
  cfg_slots_per_epoch : positive;
  cfg_sync_committee_subnet_count : N;
  cfg_genesis_validators_root : Hash256;
  cfg_private_decrypt : option (bytes → option bytes);
  cfg_fork_schedule : ForkSchedule;
  cfg_gas_limit : N;
  cfg_builder_boost_factor : option N;
  cfg_prefer_builder_proposals : bool;
  cfg_proposer_delays : ProposerDelays;
  cfg_proposer_round_timeout : N;
  cfg_strict_mfp : bool;
  cfg_start_of : Slot → option N;
  cfg_slot_of : N → option Slot;
}.

(** [AnchorValidatorStore::new] *)
Definition store_new (network : NetworkState) (is_synced : bool) : Memory :=
  mkMemory network is_synced [] ∅ None None ∅ 0 ∅ 0.

Context (cfg : StoreConfig).
Abbreviation spe := (cfg_slots_per_epoch cfg).

(** ** Reading the database *)

Definition get_validator_and_cluster (st : NetworkState) (validator_pubkey : PublicKeyBytes)
    : outcome StoreError (ValidatorMetadata * Cluster) :=
  validator ← ok_or (get_by validator_pubkey (ms_validator_metadata (ns_multi st)))
                (UnknownPubkey validator_pubkey);
  match get_by (md_cluster_id validator) (ms_clusters (ns_multi st)) with
  | Some cluster =>
      if cl_liquidated cluster then Err (Specific ClusterLiquidated) else Ok (validator, cluster)
  | None => Err (Specific (ValidatorClusterMismatch validator_pubkey (md_cluster_id validator)))
  end.

Definition validator_and_cluster (validator_pubkey : PublicKeyBytes) : async (ValidatorMetadata * Cluster) :=
  r ← read (λ m, get_validator_and_cluster (mem_network m) validator_pubkey); sync r.

Definition get_domain (epoch : Epoch) (domain : Domain) : Hash256 :=
  bs_get_domain (cfg_spec cfg) epoch domain (cfg_genesis_validators_root cfg).

Definition get_committee_validator_indices (st : NetworkState) (committee_id : CommitteeId)
    : gset ValidatorIndex :=
  list_to_set (omap md_index (get_all_by_quaternary committee_id (ms_validator_metadata (ns_multi st)))).

Definition is_index_in (indices : gset ValidatorIndex) (i : ValidatorIndex) : bool := bool_decide (i ∈ indices).

(** [group_by_committee]: the database is locked anew for every item. *)
Fixpoint group_by_committee {I} (get_pubkey : I → PublicKeyBytes) (items : list I)
    (mapping : gmap CommitteeId (Cluster * list (ValidatorMetadata * I)))
    : async (gmap CommitteeId (Cluster * list (ValidatorMetadata * I))) :=
  match items with
  | [] => mret mapping
  | item :: items =>
      r ← read (λ m, get_validator_and_cluster (mem_network m) (get_pubkey item));
      match r with
      | Ok (validator, cluster) =>
          let committee_id := cluster_committee_id cluster in
          let '(first, validators) := default (cluster, []) (mapping !! committee_id) in
          group_by_committee get_pubkey items
            (<[committee_id := (first, validators ++ [(validator, item)])]> mapping)
      | Err _ => group_by_committee get_pubkey items mapping
      | Panic => sync Panic
      end
  end.

(** [get_attesting_validators_in_committee] *)
Definition get_attesting_validators_in_committee (st : NetworkState) (vc : VotingContext)
    (committee_id : CommitteeId) : gmap PublicKeyBytes N :=
  let committee_validators : gset PublicKeyBytes :=
    list_to_set (md_public_key <$>
      get_all_by_quaternary committee_id (ms_validator_metadata (ns_multi st))) in
  filter (λ kv, kv.1 ∈ committee_validators) (va_attesting_committees (vc_voting_assignments vc)).

(** The queries of [impl ValidatorStore]. *)
Definition store_validator_index (st : NetworkState) (pubkey : PublicKeyBytes) : option N :=
  v ← get_by pubkey (ms_validator_metadata (ns_multi st)); md_index v.

(** [voting_pubkeys]; [filter_func] is applied to [SigningEnabled] of each key. *)
Definition voting_pubkeys (st : NetworkState) (filter_func : PublicKeyBytes → option PublicKeyBytes)
    : list PublicKeyBytes :=
  filter (λ pk, from_option (λ c, negb (cl_liquidated c)) false
                  (get_by_secondary pk (ms_clusters (ns_multi st))) = true)
    (omap (λ s, filter_func (sh_validator_pubkey s)) (mi_values (ms_shares (ns_multi st)))).

Definition num_voting_validators (st : NetworkState) : nat :=
  length (mi_values (ms_shares (ns_multi st))).

Definition store_graffiti (st : NetworkState) (pubkey : PublicKeyBytes) : option Graffiti :=
  md_graffiti <$> get_by pubkey (ms_validator_metadata (ns_multi st)).

Definition get_fee_recipient (st : NetworkState) (pubkey : PublicKeyBytes) : option Address :=
  v ← get_by pubkey (ms_validator_metadata (ns_multi st));
  cl_fee_recipient <$> get_by (md_cluster_id v) (ms_clusters (ns_multi st)).

Definition determine_builder_boost_factor : option N :=
  if cfg_prefer_builder_proposals cfg then Some u64_max else cfg_builder_boost_factor cfg.

Definition proposal_data (st : NetworkState) (pubkey : PublicKeyBytes) : option ProposalData :=
  validator ← get_by pubkey (ms_validator_metadata (ns_multi st));
  Some (mkProposalData (md_index validator)
          (cl_fee_recipient <$> get_by (md_cluster_id validator) (ms_clusters (ns_multi st)))
          (cfg_gas_limit cfg) true).

(** [set_validator_index] *)
Definition set_validator_index (validator_pubkey : PublicKeyBytes) (index : N) : async unit :=
  validator ← read (λ m, get_by validator_pubkey (ms_validator_metadata (ns_multi (mem_network m))));
  match md_index <$> validator with
  | None | Some (Some _) => mret tt
  | Some None =>
      written ← call DatabaseWrites;
      if written : bool
      then update (λ m, m <| mem_network := set_indices [(validator_pubkey, index)] (mem_network m) |>)
      else mret tt
  end.

(** ** Clock *)

Definition instant_in_slot (slot : Slot) (delay : N) : async N :=
  now_duration ← call ClockNowDuration;
  instant ← call InstantNow;
  sync_specific (get_instant_in_slot (cfg_start_of cfg slot) now_duration instant delay).

(** [envelope_deadline] *)
Definition envelope_deadline (slot : Slot) : async N :=
  deadline ← instant_in_slot slot (payload_due (cfg_duty_spec cfg));
  now ← call InstantNow;
  if (deadline <=? now)%N then fail (EnvelopeDeadlinePassed slot) else mret deadline.

(** [await_proposer_delay] *)
Definition await_proposer_delay (proposer_delay : N) (elapsed : option N) : async unit :=
  match delay_wait (proposer_delay_decision_at proposer_delay elapsed) with
  | Some planned => call (Sleep planned)
  | None => mret tt
  end.

(** [timeout_within_slot]: of the two branches of the [select!] the timer may be looked at
    first. *)
Definition timeout_within_slot {O} (slot : Slot) (delay : N) (future : async O) : async O :=
  timeout_time ← match cfg_start_of cfg slot with
                 | Some start =>
                     now ← call ClockNowDuration;
                     match now with
                     | Some now =>
                         target ← sync (expect (checked_add_to DURATION_MAX start delay));
                         mret (target - now)%N
                     | None => mret delay
                     end
                 | None => mret delay
                 end;
  early ← call (Within (Sleep timeout_time));
  match early with
  | None => fail SpecificTimeout
  | Some _ =>
      prog_bind (race future) (λ o, match o with Some r => Ret r | None => fail SpecificTimeout end)
  end.

(** [collect_within] *)
Definition collect_within (bound : N) (collect : async BlsSignature) : async BlsSignature :=
  let timed_out := SignatureCollectionFailed Collection.CollectionTimeout in
  if (bound =? 0)%N then fail timed_out
  else prog_bind (race collect) (λ o, match o with Some r => Ret r | None => fail timed_out end).

(** ** Collecting a signature *)

(** [signature_metadata]: [safe_mul] and [safe_add] on [u64]. *)
Definition signature_metadata (kind : PartialSignatureKind) (role : Role) (cluster : Cluster) (slot : Slot)
    : outcome StoreError SignatureMetadata :=
  let f := N.of_nat (get_f (length (cl_cluster_members cluster))) in
  threshold ← ok_or (x ← checked_mul64 f 2; checked_add_to u64_max x 1) (Specific SpecificArithError);
  mret {| md_kind := kind; md_role := role; md_threshold := threshold; md_slot := slot;
          md_committee_id := cluster_committee_id cluster |}.

(** [validator_signing_data] *)
Definition validator_signing_data (validator : ValidatorMetadata) (root : Hash256) : async signing_data :=
  share ← read (λ m, get_by (md_public_key validator) (ms_shares (ns_multi (mem_network m))));
  share ← sync (ok_or share (UnknownPubkey (md_public_key validator)));
  let encrypted := sh_encrypted_private_key share in
  share ← match cfg_private_decrypt cfg with
          | Some private_decrypt =>
              sk ← call (Access (λ m,
                     let '(sk, keys) := lru_try_get_or_insert MAX_VALIDATORS_PER_OPERATOR encrypted
                                          (decrypt_key_share private_decrypt sk_deserialize encrypted)
                                          (mem_decrypted_keys m) in
                     (sk, m <| mem_decrypted_keys := keys |>)));
              sk ← sync (ok_or sk (Specific KeyShareDecryptionFailed));
              mret (Some sk)
          | None => mret None
          end;
  index ← sync (ok_or (md_index validator) (Specific MissingIndex));
  mret {| sd_root := root; sd_index := index; sd_validator_pubkey := md_public_key validator;
          sd_share := share |}.

(** [collect_signature] *)
Definition collect_signature (kind : PartialSignatureKind) (role : Role) (mode : CollectionMode)
    (validator : ValidatorMetadata) (cluster : Cluster) (signing_root : Hash256) (slot : Slot)
    : async BlsSignature :=
  metadata ← sync (signature_metadata kind role cluster slot);
  let requester := requester_of mode (md_public_key validator) in
  data ← validator_signing_data validator signing_root;
  _ ← call (Sign (CallSignAndCollect metadata requester data));
  signature ← call AwaitSignature;
  sync_specific (map_err SignatureCollectionFailed signature).

(** [collect_prepared_signatures]: a request without an index is left out. *)
Definition collect_prepared_signatures {D} (role : Role) (slot : Slot) (cluster : Cluster)
    (batch_size : nat) (data_hash : Hash256) (prepared : list (SigningRequest D))
    : async (gmap (N * N) BlsSignature) :=
  let mode := ModeCommittee batch_size data_hash in
  results ← par (omap (λ item : SigningRequest D,
                  index ← md_index (sr_validator item);
                  Some (prog_bind (collect_signature PartialSignatureKind.PostConsensus role mode
                                     (sr_validator item) cluster (sr_signing_root item) slot)
                          (λ result, Ret (index, sr_signing_root item, result)))) prepared);
  mret (drain_signatures results).

(** ** Blocks *)

Definition create_proposer_consensus_data_validator (validator_pubkey : PublicKeyBytes)
    : ProposerConsensusDataValidator :=
  {| pv_disable_slashing_protection := cfg_disable_slashing_protection cfg; pv_spec := cfg_spec cfg;
     pv_validator_pubkey := validator_pubkey;
     pv_genesis_validators_root := cfg_genesis_validators_root cfg |}.

(** [Completed] of a QBFT instance, or the error. *)
Definition completed {D} (r : outcome ManagerError (Completed D)) : async D :=
  c ← sync_specific (map_err SpecificQbftError r);
  match c with
  | QbftTypes.TimedOut => fail SpecificTimeout
  | QbftTypes.Success data => mret data
  end.

(** The bytes to agree on: from Gloas on the block with the root of its payload. *)
Definition proposal_bytes (block : BlindedBeaconBlock) (local_payload_root : option Hash256)
    : outcome SpecificError bytes :=
  match blinded_gloas block with
  | Some gloas =>
      payload_root ← match local_payload_root with
                     | Some root => Ok root
                     | None =>
                         if (gloas_builder_index gloas =? BUILDER_INDEX_SELF_BUILD)%N
                         then Err MissingLocalPayloadRoot else Ok 0%N
                     end;
      let proposal := mkGloasProposal gloas payload_root in
      _ ← map_err InvalidQbftData (validate_payload_root proposal);
      mret (gloas_proposal_as_ssz proposal)
  | None => Ok (blinded_as_ssz block)
  end.

(** The context to record for a decided block. *)
Definition decided_context (block : BlindedBeaconBlock) (decided : UnsignedBlock) (payload_root : option Hash256)
    : option DecidedBlockContext :=
  payload_root ← payload_root;
  match decided with
  | UnsignedFull (decided_block, None) =>
      bid ← full_payload_bid decided_block;
      let decided_root := full_canonical_root decided_block in
      Some (mkDecidedBlock payload_root decided_root (bh_parent_root (full_block_header decided_block))
              (bid_execution_requests_root bid) (bid_builder_index bid) (bid_block_hash bid)
              (blinded_tree_hash_root block =? decided_root)%N)
  | _ => None
  end.

Definition decide_abstract_block (validator : ValidatorMetadata) (cluster : Cluster)
    (signable_block : BlindedBeaconBlock) (local_payload_root : option Hash256) : async UnsignedBlock :=
  let slot := bh_slot (blinded_block_header signable_block) in
  start ← instant_in_slot slot 0;
  let timeout_mode := Relative start (cfg_proposer_round_timeout cfg) in
  let instance_id := {| pi_validator := md_public_key validator; pi_duty := DutyProposal;
                        pi_instance_height := slot |} in
  validator_index ← sync (ok_or (md_index validator) (Specific MissingIndex));
  let block_version := blinded_fork_name signable_block in
  let duty := mkValidatorDuty BEACON_ROLE_PROPOSER (md_public_key validator) slot validator_index 0 0 0 0 [] in
  bytes ← sync_specific (proposal_bytes signable_block local_payload_root);
  data_ssz ← sync_specific (try_to_variable_list ProposerConsensusDataLen DataTooLarge bytes);
  result ← call (DecideProposer instance_id (mkProposerConsensusData duty block_version data_ssz)
                   (create_proposer_consensus_data_validator (md_public_key validator)) timeout_mode
                   (cl_cluster_members cluster));
  completed_data ← completed result;
  '(unsigned_block, payload_root) ← sync_specific (map_err InvalidQbftData (decode_decided_block completed_data));
  _ ← match decided_context signable_block unsigned_block payload_root with
      | Some context =>
          r ← call (Access (λ m,
                let '(r, contexts) := record_decided_block_context (md_public_key validator) slot context
                                        (mem_decided_block_contexts m) in
                (r, m <| mem_decided_block_contexts := contexts |>)));
          sync_specific r
      | None => mret tt
      end;
  mret unsigned_block.

Definition decided_block_context (validator_pubkey : PublicKeyBytes) (slot : Slot)
    : async DecidedBlockContext :=
  now ← call ClockNow;
  r ← read (λ m, get_decided_block_context now validator_pubkey slot (mem_decided_block_contexts m));
  sync_specific r.

Definition sign_abstract_block {B} `{!SignableBlock B} (validator : ValidatorMetadata) (cluster : Cluster)
    (block : B) (current_slot : Slot) : async SignedBlock :=
  let header := as_block_header block in
  _ ← sync (ensure (negb (current_slot <? bh_slot header)%N)
              (GreaterThanCurrentSlot (bh_slot header) current_slot));
  let epoch := slot_epoch (bh_slot header) spe in
  let domain_hash := get_domain epoch Domain.BeaconProposer in
  _ ← (if cfg_disable_slashing_protection cfg then mret tt
       else
         r ← call (CheckBlockProposal (md_public_key validator) header domain_hash);
         sync (convert_slashing_result r));
  let signing_root := as_block_signing_root block domain_hash in
  signature ←
    (if ForkName.ge (as_block_fork_name block) ForkName.Gloas then
       context ← decided_block_context (md_public_key validator) (bh_slot header);
       metadata ← sync (signature_metadata PartialSignatureKind.PostConsensus Role.Proposer cluster (bh_slot header));
       block_data ← validator_signing_data validator signing_root;
       envelope_data ←
         (if (db_builder_index context =? BUILDER_INDEX_SELF_BUILD)%N then
            let domain := get_domain epoch Domain.BeaconBuilder in
            data ← validator_signing_data validator
                     (blinded_envelope_signing_root (blinded_envelope context) domain);
            mret (Some data)
          else mret None);
       _ ← call (Sign (CallSignProposerPacket metadata (md_public_key validator) block_data envelope_data));
       signature ← call AwaitSignature;
       sync_specific (map_err SignatureCollectionFailed signature)
     else
       collect_signature PartialSignatureKind.PostConsensus Role.Proposer ModeSingleValidator validator
         cluster signing_root (bh_slot header));
  mret (to_signed_block block signature).

Definition sign_block (validator_pubkey : PublicKeyBytes) (block : UnsignedBlock) (current_slot : Slot)
    (local_payload_root : option Hash256) : async SignedBlock :=
  synced ← read mem_is_synced;
  _ ← sync (ensure synced (Specific NotSynced));
  '(validator, cluster) ← validator_and_cluster validator_pubkey;
  let '(blinded_block, local_full_block) :=
    match block with
    | UnsignedFull contents => (to_blinded contents.1, Some contents)
    | UnsignedBlinded block => (block, None)
    end in
  decided_block ← decide_abstract_block validator cluster blinded_block local_payload_root;
  signed_block ← match decided_block with
                 | UnsignedBlinded block => sign_abstract_block validator cluster block current_slot
                 | UnsignedFull contents => sign_abstract_block validator cluster contents.1 current_slot
                 end;
  mret (pd_signed_block (select_publish_block signed_block blinded_block local_full_block)).

(** ** Published assignments *)

Definition get_voting_context (slot : Slot) : async VotingContext :=
  metadata ← call (WaitVotingContext slot);
  match metadata with
  | None => fail MetadataError
  | Some metadata =>
      if (va_slot (vc_voting_assignments metadata) =? slot)%N then mret metadata else fail MetadataError
  end.

Definition get_voting_assignments (slot : Slot) : async VotingAssignments :=
  assignments ← call (WaitFor (λ m : Memory, for_slot va_slot slot (mem_voting_assignments m)));
  match assignments with
  | None => fail MetadataChannelClosed
  | Some assignments => if (va_slot assignments =? slot)%N then mret assignments else fail MetadataSlotPassed
  end.

Definition get_aggregation_assignments (slot : Slot) : async AggregationAssignments :=
  info ← call (WaitFor (λ m : Memory, for_slot ag_slot slot (mem_aggregation_assignments m)));
  match info with
  | None => fail AggregatorInfoChannelClosed
  | Some info => if (ag_slot info =? slot)%N then mret info else fail AggregatorInfoSlotPassed
  end.

Definition update_voting_context (vc : VotingContext) : async unit := call (PublishVotingContext vc).

Definition update_voting_assignments (assignments : VotingAssignments) : async unit :=
  update (λ m, m <| mem_voting_assignments := Some assignments |>).

(** ** The committee's vote *)

Definition create_beacon_vote_validator (slot : Slot) (committees : gmap PublicKeyBytes N)
    : BeaconVoteValidator :=
  {| bvv_slot := slot; bvv_slashing := negb (cfg_disable_slashing_protection cfg); bvv_spec := cfg_spec cfg;
     bvv_validator_attestation_committees := committees;
     bvv_genesis_validators_root := cfg_genesis_validators_root cfg; bvv_strict_mfp := cfg_strict_mfp cfg |}.

Definition create_gloas_beacon_vote_validator (slot : Slot) (voting_context : VotingContext)
    (committees : gmap PublicKeyBytes N) : GloasBeaconVoteValidator :=
  {| gvv_base := create_beacon_vote_validator slot committees;
     gvv_same_slot_head_root := vc_same_slot_head_root voting_context |}.

Definition decide_committee_vote (committee_id : CommitteeId) (slot : Slot) (voting_context : VotingContext)
    (committees : gmap PublicKeyBytes N) (cluster_members : list OperatorId) : async DecidedVote :=
  origin ← instant_in_slot slot (attestation_due (cfg_duty_spec cfg) slot);
  let timeout_mode := SlotTime origin in
  let instance_id := {| ci_committee := committee_id; ci_instance_height := slot |} in
  decided_vote ←
    match vc_vote voting_context with
    | VoteGloas seed =>
        result ← call (DecideGloasVote instance_id seed
                         (create_gloas_beacon_vote_validator slot voting_context committees) timeout_mode
                         cluster_members);
        decided ← completed result; mret (VoteGloas decided)
    | VoteBase seed =>
        result ← call (DecideVote instance_id seed (create_beacon_vote_validator slot committees) timeout_mode
                         cluster_members);
        decided ← completed result; mret (VoteBase decided)
    end;
  remembered ← call (RememberVote voting_context committee_id decided_vote);
  _ ← sync_specific (map_err CommitteeDecisionConflictError remembered);
  mret (mkDecidedVote (sv_block_root decided_vote) (sv_source decided_vote) (sv_target decided_vote)
          (qbft_hash beacon_vote_hash gloas_vote_hash decided_vote) (decided_index decided_vote)).

(** The number of partial signatures of the committee's message, by the assignments. *)
Definition voting_batch_size (committee_id : CommitteeId) (assignments : VotingAssignments) : async nat :=
  indices ← read (λ m, get_committee_validator_indices (mem_network m) committee_id);
  mret (voting_message_count_for_committee assignments (is_index_in indices)).

(** [sign_committee_sync_committee_signatures] *)
Definition sign_committee_sync_committee_signatures (committee_id : CommitteeId) (cluster : Cluster)
    (messages : list (ValidatorMetadata * SyncMessageToSign)) : async (list SyncCommitteeMessage) :=
  match messages with
  | [] => mret []
  | (_, first) :: _ =>
      let slot := sms_slot first in
      let epoch := slot_epoch slot spe in
      voting_context ← get_voting_context slot;
      committees ← read (λ m, get_attesting_validators_in_committee (mem_network m) voting_context committee_id);
      decided ← decide_committee_vote committee_id slot voting_context committees (cl_cluster_members cluster);
      let domain := get_domain epoch Domain.SyncCommittee in
      let signing_root := hash_signing_root (dv_block_root decided) domain in
      let prepared := (λ '(validator, msg), mkSigningRequest validator signing_root (sms_validator_index msg))
                        <$> messages in
      batch_size ← voting_batch_size committee_id (vc_voting_assignments voting_context);
      signatures ← collect_prepared_signatures Role.Committee slot cluster batch_size
                     (dv_decided_hash decided) prepared;
      mret (omap (λ req : SigningRequest N,
        match resolve req signatures with
        | Ok (validator_index, signature) =>
            Some (mkSyncCommitteeMessage slot (dv_block_root decided) validator_index signature)
        | _ => None
        end) prepared)
  end.

(** The attestation to sign, with the decided vote. *)
Definition with_decided (decided : DecidedVote) (att : AttestationToSign) : AttestationToSign :=
  let data := ats_data att <| ad_beacon_block_root := dv_block_root decided |>
                           <| ad_source := dv_source decided |> <| ad_target := dv_target decided |> in
  att <| ats_data := match dv_decided_index decided with
                     | Some index => data <| ad_index := index |>
                     | None => data
                     end |>.

(** [sign_committee_attestations]; the comparison of each duty with the metadata is only
    counted and logged. *)
Definition sign_committee_attestations (committee_id : CommitteeId) (cluster : Cluster)
    (attestations : list (ValidatorMetadata * AttestationToSign))
    : async (list (SingleAttestation * PublicKeyBytes)) :=
  match attestations with
  | [] => mret []
  | (_, first_attestation) :: _ =>
      let slot := ad_slot (ats_data first_attestation) in
      voting_context ← get_voting_context slot;
      committees ← read (λ m, get_attesting_validators_in_committee (mem_network m) voting_context committee_id);
      decided ← decide_committee_vote committee_id slot voting_context committees (cl_cluster_members cluster);
      let domain_hash := get_domain (cp_epoch (dv_target decided)) Domain.BeaconAttester in
      let prepared := (λ '(validator, att),
                         let att := with_decided decided att in
                         mkSigningRequest validator (attestation_signing_root (ats_data att) domain_hash) att)
                        <$> attestations in
      batch_size ← voting_batch_size committee_id (vc_voting_assignments voting_context);
      signatures ← collect_prepared_signatures Role.Committee slot cluster batch_size
                     (dv_decided_hash decided) prepared;
      mret (omap (λ req : SigningRequest AttestationToSign,
        match resolve req signatures with
        | Ok (att, signature) =>
            Some (mkSingleAttestation (ats_committee_index att) (ats_attester_index att) (ats_data att) signature,
                  ats_pubkey att)
        | _ => None
        end) prepared)
  end.

(** [slashing_protection_attestations] *)
Definition slashing_protection_attestations (attestations : list (SingleAttestation * PublicKeyBytes))
    : async (list SingleAttestation) :=
  let attestations_to_check :=
    (λ '(attestation, pubkey),
       (sat_data attestation, pubkey,
        get_domain (cp_epoch (ad_target (sat_data attestation))) Domain.BeaconAttester,
        if cfg_disable_slashing_protection cfg then CheckNo else CheckYes)) <$> attestations in
  r ← call (CheckAttestations attestations_to_check);
  results ← sync (map_err Slashable r);
  mret (omap id (zip_with (λ '(attestation, _) status,
                  match convert_slashing_result status with Ok _ => Some attestation | _ => None end)
                attestations results)).

(** One committee of [sign_attestations]; the check runs on a blocking thread of the
    executor. *)
Definition sign_attestations_committee (committee_id : CommitteeId) (cluster : Cluster)
    (attestations : list (ValidatorMetadata * AttestationToSign)) : async (list SingleAttestation) :=
  prog_bind (sign_committee_attestations committee_id cluster attestations) (λ r,
    match r with
    | Ok [] | Err _ => Ret (Ok [])
    | Ok signed =>
        taken ← call ExecutorTakes;
        _ ← sync (ensure taken ExecutorError);
        prog_bind (slashing_protection_attestations signed) (λ result,
          delivered ← call ExecutorDelivers;
          _ ← sync (ensure delivered ExecutorError);
          sync result)
    | Panic => Ret Panic
    end).

(** The items of the stream [sign_attestations] returns, in the order in which they come. *)
Definition sign_attestations (attestations : list AttestationToSign)
    : async (list (outcome StoreError (list SingleAttestation))) :=
  synced ← read mem_is_synced;
  if negb synced then mret [Err (Specific NotSynced)]
  else
    mapping ← group_by_committee ats_pubkey attestations ∅;
    par ((λ '(committee_id, (cluster, attestations)),
            sign_attestations_committee committee_id cluster attestations) <$> map_to_list mapping).

(** [run_committee_signing]: a failed committee yields nothing. *)
Definition run_committee_signing {T} (fut : async (list T)) : async (list T) :=
  prog_bind fut (λ r, match r with Ok signed => Ret (Ok signed) | Err _ => Ret (Ok []) | Panic => Ret Panic end).

Definition sign_sync_committee_signatures (messages : list SyncMessageToSign)
    : async (list (outcome StoreError (list SyncCommitteeMessage))) :=
  mapping ← group_by_committee sms_pubkey messages ∅;
  par ((λ '(committee_id, (cluster, messages)),
          run_committee_signing (sign_committee_sync_committee_signatures committee_id cluster messages))
         <$> map_to_list mapping).

(** ** Aggregates and contributions before Boole *)

Definition sign_single_aggregate_and_proof (aggregate : AggregateToSign)
    : async (AggregateAndProof_ * BlsSignature) :=
  let signing_epoch := cp_epoch (ad_target (attestation_data (agg_aggregate aggregate))) in
  '(validator, cluster) ← validator_and_cluster (agg_pubkey aggregate);
  let version := for_attestation_shape (agg_aggregate aggregate) in
  let message := from_attestation (agg_aggregator_index aggregate) (agg_aggregate aggregate)
                   (agg_selection_proof aggregate) in
  let data := attestation_data (aggregate_attestation message) in
  let slot := ad_slot data in
  origin ← instant_in_slot slot (aggregate_attestation_due (cfg_duty_spec cfg) slot);
  let timeout_mode := SlotTime origin in
  validator_index ← sync (ok_or (md_index validator) (Specific MissingIndex));
  data_ssz ← sync_specific (try_to_variable_list ProposerConsensusDataLen DataTooLarge (aggregate_as_ssz message));
  result ← call (DecideProposer
                   {| pi_validator := agg_pubkey aggregate; pi_duty := DutyAggregator; pi_instance_height := slot |}
                   (mkProposerConsensusData
                      (mkValidatorDuty BEACON_ROLE_AGGREGATOR (agg_pubkey aggregate) slot validator_index
                         (ad_index data) 0 0 0 []) version data_ssz)
                   (create_proposer_consensus_data_validator (agg_pubkey aggregate)) timeout_mode
                   (cl_cluster_members cluster));
  data ← completed result;
  message ← sync_specific (map_err specific_of_fork_decode
                             (decode_aggregate_and_proof (pcd_version data) (pcd_data_ssz data)));
  let domain_hash := get_domain signing_epoch Domain.AggregateAndProof in
  let signing_root := aggregate_signing_root message domain_hash in
  signature ← collect_signature PartialSignatureKind.PostConsensus Role.Aggregator ModeSingleValidator validator
                cluster signing_root (ad_slot (attestation_data (aggregate_attestation message)));
  mret (message, signature).

(** [active_fork(epoch)]; [None] is its [expect]. *)
Definition fork_at (epoch : Epoch) : async Fork := sync (expect (active_fork (cfg_fork_schedule cfg) epoch)).

(** [lighthouse_owns_publication] *)
Definition lighthouse_owns_publication (epoch : Epoch) : async bool :=
  fork ← fork_at epoch; mret (negb (fork_le Boole fork)).

(** The results that succeeded. *)
Definition successes {A} (results : list (outcome StoreError A)) : list A := omap ok_option results.

Definition sign_aggregate_and_proofs (aggregates : list AggregateToSign)
    : async (list (AggregateAndProof_ * BlsSignature)) :=
  match aggregates with
  | [] => mret []
  | first :: _ =>
      owns ← lighthouse_owns_publication (cp_epoch (ad_target (attestation_data (agg_aggregate first))));
      if negb owns then mret []
      else results ← par (sign_single_aggregate_and_proof <$> aggregates); mret (successes results)
  end.

(** [ContributionWaiter::submit_and_wait]; the barrier, or one second, ends the wait. *)
Definition submit_and_wait (id : N) (pubkey : PublicKeyBytes) (data : BlsSignature * SyncCommitteeContribution)
    : async (list (BlsSignature * SyncCommitteeContribution)) :=
  _ ← update (λ m, m <| mem_contributions :=
                <[(id, pubkey) := default [] (mem_contributions m !! (id, pubkey)) ++ [data]]>
                  (mem_contributions m) |>);
  _ ← call (BarrierWait id pubkey);
  read (λ m, default [] (mem_contributions m !! (id, pubkey))).

Definition sign_single_sync_committee_contribution (contribution : ContributionToSign)
    : async (ContributionAndProof * BlsSignature) :=
  let slot := contribution_slot (cts_contribution contribution) in
  let epoch := slot_epoch slot spe in
  let aggregator_index := cts_aggregator_index contribution in
  let aggregator_pubkey := cts_aggregator_pubkey contribution in
  let subcommittee := subcommittee_index (cts_contribution contribution) in
  '(validator, cluster) ← validator_and_cluster aggregator_pubkey;
  let own := (cts_selection_proof contribution, cts_contribution contribution) in
  aggregator_info ← get_aggregation_assignments slot;
  signing ← match ag_multi_sync_aggregators aggregator_info !! aggregator_pubkey with
            | None => mret [own]
            | Some _ =>
                data ← submit_and_wait (ag_id aggregator_info) aggregator_pubkey own;
                mret (sort_by_pair (λ d, (subcommittee_index d.2, 0%N)) data)
            end;
  data ← sync_specific (try_to_variable_list MaxContributions (λ _ _, TooManySyncSubnetsToSign) signing);
  origin ← instant_in_slot slot (contribution_message_due (cfg_duty_spec cfg) slot);
  let timeout_mode := SlotTime origin in
  validator_index ← sync (ok_or (md_index validator) (Specific MissingIndex));
  data_ssz ← sync_specific (try_to_variable_list ProposerConsensusDataLen DataTooLarge (contributions_as_ssz data));
  result ← call (DecideProposer
                   {| pi_validator := aggregator_pubkey; pi_duty := DutySyncCommitteeAggregator;
                      pi_instance_height := slot |}
                   (mkProposerConsensusData
                      (mkValidatorDuty BEACON_ROLE_SYNC_COMMITTEE_CONTRIBUTION aggregator_pubkey slot
                         validator_index 0 0 0 aggregator_index []) ForkName.Altair data_ssz)
                   (create_proposer_consensus_data_validator aggregator_pubkey) timeout_mode
                   (cl_cluster_members cluster));
  data ← completed result;
  data ← sync_specific (map_err InvalidQbftData (contributions_from_ssz (pcd_data_ssz data)));
  let domain_hash := get_domain epoch Domain.ContributionAndProof in
  batch ← sync_specific (prepare_decided_sync_contributions data subcommittee aggregator_index domain_hash);
  let mode := sync_committee_collection_mode subcommittee (pb_descriptor batch) in
  signature ← collect_signature PartialSignatureKind.PostConsensus Role.SyncCommittee mode validator cluster
                (pb_callback_signing_root batch) slot;
  mret (pb_callback_message batch, signature).

Definition sign_sync_committee_contributions (contributions : list ContributionToSign)
    : async (list (ContributionAndProof * BlsSignature)) :=
  match contributions with
  | [] => mret []
  | first :: _ =>
      owns ← lighthouse_owns_publication (slot_epoch (contribution_slot (cts_contribution first)) spe);
      if negb owns then mret []
      else results ← par (sign_single_sync_committee_contribution <$> contributions); mret (successes results)
  end.

(** ** Selection proofs *)

(** The committee's batch of selection proofs for a slot. *)
Definition selection_batch (committee_id : CommitteeId) (slot : Slot) (assignments : VotingAssignments)
    : async CollectionMode :=
  indices ← read (λ m, get_committee_validator_indices (mem_network m) committee_id);
  mret (ModeCommittee (selection_proof_count_for_committee assignments (is_index_in indices))
          (batch_id_hash sha256 (mkBatchId slot committee_id))).

Definition produce_selection_proof (validator_pubkey : PublicKeyBytes) (slot : Slot) : async BlsSignature :=
  let epoch := slot_epoch slot spe in
  let domain_hash := get_domain epoch Domain.SelectionProof in
  let signing_root := slot_signing_root slot domain_hash in
  '(validator, cluster) ← validator_and_cluster validator_pubkey;
  let delay := aggregate_attestation_due (cfg_duty_spec cfg) slot in
  fork ← fork_at epoch;
  if fork_le Boole fork then
    let committee_id := cluster_committee_id cluster in
    voting_assignments ← get_voting_assignments slot;
    _ ← sync (ensure (bool_decide (is_Some (va_attesting_committees voting_assignments !! validator_pubkey)))
                (Specific (ValidatorNotAttesting validator_pubkey slot)));
    mode ← selection_batch committee_id slot voting_assignments;
    timeout_within_slot slot delay
      (collect_signature PartialSignatureKind.AggregatorCommitteePartialSig Role.AggregatorCommittee mode
         validator cluster signing_root slot)
  else
    timeout_within_slot slot delay
      (collect_signature PartialSignatureKind.SelectionProofPartialSig Role.Aggregator ModeSingleValidator
         validator cluster signing_root slot).

Definition sync_selection_root (slot : Slot) (subnet_id : N) : Hash256 :=
  compute_sync_selection_root spe sync_selection_signing_root (cfg_spec cfg)
    (cfg_genesis_validators_root cfg) slot subnet_id.

Definition produce_sync_selection_proof (validator_pubkey : PublicKeyBytes) (slot : Slot) (subnet_id : N)
    : async BlsSignature :=
  let epoch := slot_epoch slot spe in
  let signing_root := sync_selection_root slot subnet_id in
  '(validator, cluster) ← validator_and_cluster validator_pubkey;
  let delay := contribution_message_due (cfg_duty_spec cfg) slot in
  let not_in_committee := Specific (ValidatorNotInSyncCommittee validator_pubkey slot) in
  fork ← fork_at epoch;
  if fork_le Boole fork then
    let committee_id := cluster_committee_id cluster in
    voting_assignments ← get_voting_assignments slot;
    validator_index ← sync (ok_or (md_index validator) (Specific MissingIndex));
    _ ← sync (ensure (bool_decide (is_Some (va_sync_validators_by_subnet voting_assignments !! validator_index)))
                not_in_committee);
    mode ← selection_batch committee_id slot voting_assignments;
    timeout_within_slot slot delay
      (collect_signature PartialSignatureKind.AggregatorCommitteePartialSig Role.AggregatorCommittee mode
         validator cluster signing_root slot)
  else
    timeout_within_slot slot delay
      (validator_index ← sync (ok_or (md_index validator) (Specific MissingIndex));
       voting_assignments ← get_voting_assignments slot;
       position_counts ← sync (ok_or (va_sync_validators_by_subnet voting_assignments !! validator_index)
                                 not_in_committee);
       descriptor ← sync_specific (map_err (InvalidSyncSelectionProofAssignment validator_pubkey slot)
                      (sync_selection_proof_descriptor (cfg_sync_committee_subnet_count cfg)
                         (sync_selection_root slot) subnet_id position_counts));
       collect_signature PartialSignatureKind.ContributionProofs Role.SyncCommittee
         (sync_committee_collection_mode subnet_id descriptor) validator cluster signing_root slot).

(** ** The other messages *)

Definition randao_reveal (validator_pubkey : PublicKeyBytes) (signing_epoch : Epoch) : async BlsSignature :=
  now ← call ClockNow;
  clock_slot ← sync (ok_or now (Specific SlotClockError));
  let domain_hash := get_domain signing_epoch Domain.Randao in
  let signing_root := epoch_signing_root signing_epoch domain_hash in
  '(validator, cluster) ← validator_and_cluster validator_pubkey;
  signature ← collect_signature PartialSignatureKind.RandaoPartialSig Role.Proposer ModeSingleValidator
                validator cluster signing_root clock_slot;
  now_duration ← call ClockNowDuration;
  let randao_completed := elapsed_in_slot (cfg_start_of cfg clock_slot) now_duration in
  let proposer_delay := proposer_delay_at_epoch (cfg_spec cfg) (cfg_proposer_delays cfg) signing_epoch in
  _ ← await_proposer_delay proposer_delay randao_completed;
  mret signature.

Definition sign_validator_registration_data (data : ValidatorRegistrationData)
    : async (ValidatorRegistrationData * BlsSignature) :=
  let domain_hash := builder_application_domain (cfg_duty_spec cfg) in
  '(validator, cluster) ← validator_and_cluster (vr_pubkey data);
  duty_slot ← sync (ok_or (cfg_slot_of cfg (secs (vr_timestamp data))) (Specific SlotClockError));
  let epoch_start_slot := start_slot (slot_epoch duty_slot spe) spe in
  duration ← sync (ok_or (cfg_start_of cfg epoch_start_slot) (Specific SlotClockError));
  let data := data <| vr_timestamp := (duration `div` secs 1)%N |> in
  let signing_root := registration_signing_root data domain_hash in
  signature ← collect_signature PartialSignatureKind.ValidatorRegistration Role.ValidatorRegistration
                ModeSingleValidator validator cluster signing_root duty_slot;
  mret (data, signature).

Definition collect_voluntary_exit_partial_signatures (validator_pubkey : PublicKeyBytes)
    (voluntary_exit : VoluntaryExit) (slot : Slot) : async (VoluntaryExit * BlsSignature) :=
  let domain_hash := exit_domain voluntary_exit (cfg_genesis_validators_root cfg) in
  let signing_root := exit_signing_root voluntary_exit domain_hash in
  '(validator, cluster) ← validator_and_cluster validator_pubkey;
  signature ← collect_signature PartialSignatureKind.VoluntaryExit Role.VoluntaryExit ModeSingleValidator
                validator cluster signing_root slot;
  mret (voluntary_exit, signature).

Definition sign_execution_payload_envelope (validator_pubkey : PublicKeyBytes) (envelope : ExecutionPayloadEnvelope)
    : async (ExecutionPayloadEnvelope * BlsSignature) :=
  let slot := ep_slot envelope in
  synced ← read mem_is_synced;
  _ ← sync (ensure synced (Specific NotSynced));
  '(validator, cluster) ← validator_and_cluster validator_pubkey;
  validator_index ← sync (ok_or (md_index validator) (Specific MissingIndex));
  let fork := fork_name_at_slot (cfg_spec cfg) spe slot in
  _ ← sync (ensure (ForkName.gloas_enabled fork) (Specific (EnvelopeBeforeGloas slot fork)));
  _ ← sync (ensure (ep_builder_index envelope =? BUILDER_INDEX_SELF_BUILD)%N
              (Specific (EnvelopeNotSelfBuild (ep_builder_index envelope))));
  now ← call ClockNow;
  current_slot ← sync (ok_or now (Specific SlotClockError));
  _ ← sync (ensure (negb (current_slot <? slot)%N) (GreaterThanCurrentSlot slot current_slot));
  context ← decided_block_context validator_pubkey slot;
  _ ← sync (ensure (db_builder_index context =? BUILDER_INDEX_SELF_BUILD)%N
              (Specific (EnvelopeExternalBuild (db_builder_index context))));
  _ ← sync (ensure (db_built_locally context) (Specific (EnvelopeNotLocal slot)));
  deadline ← envelope_deadline slot;
  _ ← sync (ensure (ep_payload_block_hash envelope =? db_block_hash context)%N
              (Specific (EnvelopeBuilderInconsistent (ep_payload_block_hash envelope) (db_block_hash context))));
  let local_blinded := from_full envelope in
  _ ← sync_specific (validate_blinded context local_blinded);
  let epoch := slot_epoch slot spe in
  let domain_hash := get_domain epoch Domain.BeaconBuilder in
  let signing_root := blinded_envelope_signing_root local_blinded domain_hash in
  now ← call InstantNow;
  let remaining := (deadline - now)%N in
  signature ← collect_within remaining
    (metadata ← sync (signature_metadata PartialSignatureKind.PostConsensus Role.Proposer cluster slot);
     let block_signing_root := signing_data_root (db_beacon_block_root context)
                                 (get_domain epoch Domain.BeaconProposer) in
     signature ← call (AwaitRegistered metadata validator_index validator_pubkey signing_root
                         (Some block_signing_root));
     sync_specific (map_err SignatureCollectionFailed signature));
  mret (envelope, signature).

Definition sign_payload_attestation (validator_pubkey : PublicKeyBytes) (data : PayloadAttestationData)
    : async (ValidatorIndex * PayloadAttestationData * BlsSignature) :=
  '(validator, cluster) ← validator_and_cluster validator_pubkey;
  validator_index ← sync (ok_or (md_index validator) (Specific MissingIndex));
  let epoch := slot_epoch (pa_slot data) spe in
  let domain_hash := get_domain epoch Domain.PTCAttester in
  let signing_root := payload_attestation_signing_root data domain_hash in
  now ← call ClockNowDuration;
  now ← sync (ok_or now (Specific SlotClockError));
  current_slot ← sync (ok_or (cfg_slot_of cfg now) (Specific SlotClockError));
  _ ← sync (ensure (negb (slot_add current_slot 1 <? pa_slot data)%N)
              (Specific (SlotTooFarAhead (pa_slot data) current_slot)));
  slot_end ← sync (ok_or (cfg_start_of cfg (slot_add (pa_slot data) 1)) (Specific SlotClockError));
  let remaining := (slot_end - now)%N in
  signature ← collect_within remaining
                (collect_signature PartialSignatureKind.PTCAttester Role.PTCAttester ModeSingleValidator
                   validator cluster signing_root (pa_slot data));
  mret (validator_index, data, signature).

(** A collection whose failure is reported as pending while the peers are not expected to
    have signed. *)
Definition collect_reported (bound : N) (proposal_slot : Slot) (collect : async BlsSignature)
    : async BlsSignature :=
  prog_bind (collect_within bound collect) (λ collected,
    match collected with
    | Ok signature => Ret (Ok signature)
    | Err err => now ← call ClockNow; Ret (Err (report_collection_failure now spe err proposal_slot))
    | Panic => Ret Panic
    end).

Definition sign_proposer_preferences (validator_pubkey : PublicKeyBytes) (preferences : ProposerPreferences)
    : async (ProposerPreferences * BlsSignature) :=
  '(validator, cluster) ← validator_and_cluster validator_pubkey;
  now ← call ClockNow;
  current_slot ← sync (ok_or now (Specific SlotClockError));
  let proposal_slot := pp_proposal_slot preferences in
  _ ← sync (ensure (negb (proposal_slot <? current_slot)%N)
              (Specific (SignatureCollectionFailed Collection.CollectionTimeout)));
  let epoch := slot_epoch proposal_slot spe in
  let domain := get_domain epoch Domain.ProposerPreferences in
  let signing_root := preferences_signing_root preferences domain in
  let collection_timeout :=
    (slot_duration (cfg_duty_spec cfg) * PROPOSER_PREFERENCES_COLLECTION_TIMEOUT_SLOTS)%N in
  signature ← collect_reported collection_timeout proposal_slot
                (collect_signature PartialSignatureKind.ProposerPreferences Role.ProposerPreferences
                   ModeSingleValidator validator cluster signing_root proposal_slot);
  mret (preferences, signature).

Definition sign_request_auth_v1 (validator_pubkey : PublicKeyBytes) (request_auth : RequestAuth)
    : async (RequestAuth * BlsSignature) :=
  '(validator, cluster) ← validator_and_cluster validator_pubkey;
  let domain_hash := request_auth_domain (cfg_duty_spec cfg) in
  let signing_root := request_auth_signing_root request_auth domain_hash in
  let proposal_slot := ra_slot request_auth in
  now ← call ClockNow;
  bound ← sync_specific (request_auth_collection_bound (cfg_duty_spec cfg) now proposal_slot);
  match bound with
  | DeclinePastSlot => fail (SignatureCollectionFailed Collection.CollectionTimeout)
  | Bounded bound =>
      signature ← collect_reported bound proposal_slot
                    (collect_signature PartialSignatureKind.RequestAuth Role.ProposerPreferences
                       ModeSingleValidator validator cluster signing_root proposal_slot);
      mret (request_auth, signature)
  end.

(** ** Pruning *)

(** [prune_slashing_protection_db]; the lock on the last epoch is held throughout. *)
Definition prune_slashing_protection_db (current_epoch : Epoch) : async unit :=
  last_prune ← read mem_slashing_protection_last_prune;
  if (current_epoch `div` SLASHING_PROTECTION_HISTORY_EPOCHS
      <=? last_prune `div` SLASHING_PROTECTION_HISTORY_EPOCHS)%N then mret tt
  else
    let new_min_target_epoch := (current_epoch - SLASHING_PROTECTION_HISTORY_EPOCHS)%N in
    let new_min_slot := start_slot new_min_target_epoch spe in
    all_pubkeys ← read (λ m, voting_pubkeys (mem_network m) Some);
    pruned ← call (PruneSignedAttestations all_pubkeys new_min_target_epoch);
    match pruned with
    | Ok _ =>
        pruned ← call (PruneSignedBlocks all_pubkeys new_min_slot);
        match pruned with
        | Ok _ => update (λ m, m <| mem_slashing_protection_last_prune := current_epoch |>)
        | _ => mret tt
        end
    | _ => mret tt
    end.

(** ** Aggregates and contributions from Boole on *)

(** [AggregatorPostConsensusOutcome], with how each root's collection ended. *)
Record PostConsensusOutcome := mkPostConsensusOutcome {
  po_fork_name : ForkName;
  po_worklist : DecidedWorklist;
  po_signatures : list ((ValidatorIndex + ValidatorIndex * N) * outcome StoreError BlsSignature);
}.

Definition run_aggregator_committee_consensus (committee_id : CommitteeId) (slot : Slot) (cluster : Cluster)
    (our_consensus_data : AggregatorCommitteeConsensusData) : async AggregatorCommitteeConsensusData :=
  origin ← instant_in_slot slot (aggregate_attestation_due (cfg_duty_spec cfg) slot);
  result ← call (DecideAggregator {| ai_committee := committee_id; ai_instance_height := slot |}
                   our_consensus_data (SlotTime origin) (cl_cluster_members cluster));
  completed result.

(** [spawn_shared]: a task that was not taken, or whose result is lost, is aborted. *)
Definition spawn_shared {A} (fut : async A) : async A :=
  taken ← call ExecutorTakes;
  _ ← sync (ensure taken (Specific PostConsensusAborted));
  prog_bind fut (λ result,
    delivered ← call ExecutorDelivers;
    _ ← sync (ensure delivered (Specific PostConsensusAborted));
    sync result).

(** [spawn_root_collection], with the identity of the root. *)
Definition spawn_root_collection {K} (key : K) (mode : CollectionMode) (validator : ValidatorMetadata)
    (cluster : Cluster) (signing_root : Hash256) (slot : Slot) : prog (K * outcome StoreError BlsSignature) :=
  prog_bind (spawn_shared (collect_signature PartialSignatureKind.PostConsensus Role.AggregatorCommittee mode
                             validator cluster signing_root slot))
    (λ r, Ret (key, r)).

(** [run_aggregator_post_consensus]; the tasks of the roots ([prepare_roots]) run side by
    side. *)
Definition run_aggregator_post_consensus (committee_id : CommitteeId) (slot : Slot)
    (our_consensus_data : AggregatorCommitteeConsensusData) : async PostConsensusOutcome :=
  cluster ← read (λ m, committee_cluster (mem_network m) committee_id);
  match cluster with
  | None => mret (mkPostConsensusOutcome (ac_version our_consensus_data) (mkWorklist ∅ ∅) [])
  | Some cluster =>
      decided_data ← run_aggregator_committee_consensus committee_id slot cluster our_consensus_data;
      let epoch := slot_epoch slot spe in
      worklist ← read (λ m, build_decided_worklist (mem_network m) decided_data committee_id slot
                              (get_domain epoch Domain.AggregateAndProof)
                              (get_domain epoch Domain.ContributionAndProof));
      let mode := ModeCommittee (worklist_size worklist) (aggregator_data_hash decided_data) in
      signatures ← par (
        ((λ '(k, r), spawn_root_collection (inl k) mode (sr_validator r) cluster (sr_signing_root r) slot)
           <$> map_to_list (wl_aggregates worklist)) ++
        ((λ '(k, r), spawn_root_collection (inr k) mode (sr_validator r) cluster (sr_signing_root r) slot)
           <$> map_to_list (wl_contributions worklist)));
      mret (mkPostConsensusOutcome (ac_version decided_data) worklist signatures)
  end.

(** [update_aggregation_assignments], with the executions it starts, which run on their
    own. *)
Definition update_aggregation_assignments (info : AggregationAssignments)
    : async (list (CommitteeId * outcome StoreError PostConsensusOutcome)) :=
  new_executions ← call (Access (λ m : Memory,
    let '(new_executions, executions) :=
      start_aggregator_post_consensus spe (ag_slot info)
        (map_to_list (ag_consensus_data_by_ssv_committee info)) (mem_aggregator_post_consensus m) in
    (new_executions, m <| mem_aggregator_post_consensus := executions |>)));
  _ ← update (λ m, m <| mem_aggregation_assignments := Some (info <| ag_id := mem_next_id m |>) |>
                     <| mem_next_id := (mem_next_id m + 1)%N |>);
  par ((λ '(committee_id, data),
          prog_bind (spawn_shared (run_aggregator_post_consensus committee_id (ag_slot info) data))
            (λ r, Ret (committee_id, r))) <$> new_executions).

(** ** All operations *)

Inductive Operation :=
  | OpSetValidatorIndex (pubkey : PublicKeyBytes) (index : N)
  | OpRandaoReveal (pubkey : PublicKeyBytes) (epoch : Epoch)
  | OpSignBlock (pubkey : PublicKeyBytes) (block : UnsignedBlock) (current_slot : Slot)
      (local_payload_root : option Hash256)
  | OpSignRegistration (data : ValidatorRegistrationData)
  | OpSignAggregates (aggregates : list AggregateToSign)
  | OpSelectionProof (pubkey : PublicKeyBytes) (slot : Slot)
  | OpSyncSelectionProof (pubkey : PublicKeyBytes) (slot : Slot) (subnet_id : N)
  | OpSignSyncMessages (messages : list SyncMessageToSign)
  | OpSignContributions (contributions : list ContributionToSign)
  | OpPrune (epoch : Epoch)
  | OpSignAttestations (attestations : list AttestationToSign)
  | OpSignEnvelope (pubkey : PublicKeyBytes) (envelope : ExecutionPayloadEnvelope)
  | OpSignPayloadAttestation (pubkey : PublicKeyBytes) (data : PayloadAttestationData)
  | OpSignPreferences (pubkey : PublicKeyBytes) (preferences : ProposerPreferences)
  | OpSignRequestAuth (pubkey : PublicKeyBytes) (request_auth : RequestAuth)
  | OpVoluntaryExit (pubkey : PublicKeyBytes) (exit : VoluntaryExit) (slot : Slot)
  | OpUpdateVotingContext (vc : VotingContext)
  | OpUpdateVotingAssignments (assignments : VotingAssignments)
  | OpUpdateAggregationAssignments (info : AggregationAssignments).

Inductive OpResult :=
  | ResDone (r : outcome StoreError unit)
  | ResSignature (r : outcome StoreError BlsSignature)
  | ResBlock (r : outcome StoreError SignedBlock)
  | ResRegistration (r : outcome StoreError (ValidatorRegistrationData * BlsSignature))
  | ResAggregates (r : outcome StoreError (list (AggregateAndProof_ * BlsSignature)))
  | ResSyncMessages (r : outcome StoreError (list (outcome StoreError (list SyncCommitteeMessage))))
  | ResContributions (r : outcome StoreError (list (ContributionAndProof * BlsSignature)))
  | ResAttestations (r : outcome StoreError (list (outcome StoreError (list SingleAttestation))))
  | ResEnvelope (r : outcome StoreError (ExecutionPayloadEnvelope * BlsSignature))
  | ResPayloadAttestation (r : outcome StoreError (ValidatorIndex * PayloadAttestationData * BlsSignature))
  | ResPreferences (r : outcome StoreError (ProposerPreferences * BlsSignature))
  | ResRequestAuth (r : outcome StoreError (RequestAuth * BlsSignature))
  | ResExit (r : outcome StoreError (VoluntaryExit * BlsSignature))
  | ResPostConsensus (r : outcome StoreError (list (CommitteeId * outcome StoreError PostConsensusOutcome))).

Definition returning {A} (res : outcome StoreError A → OpResult) (p : async A) : prog OpResult :=
  prog_bind p (λ r, Ret (res r)).

Definition program (op : Operation) : prog OpResult :=
  match op with
  | OpSetValidatorIndex pk index => returning ResDone (set_validator_index pk index)
  | OpRandaoReveal pk epoch => returning ResSignature (randao_reveal pk epoch)
  | OpSignBlock pk block slot root => returning ResBlock (sign_block pk block slot root)
  | OpSignRegistration data => returning ResRegistration (sign_validator_registration_data data)
  | OpSignAggregates l => returning ResAggregates (sign_aggregate_and_proofs l)
  | OpSelectionProof pk slot => returning ResSignature (produce_selection_proof pk slot)
  | OpSyncSelectionProof pk slot subnet => returning ResSignature (produce_sync_selection_proof pk slot subnet)
  | OpSignSyncMessages l => returning ResSyncMessages (sign_sync_committee_signatures l)
  | OpSignContributions l => returning ResContributions (sign_sync_committee_contributions l)
  | OpPrune epoch => returning ResDone (prune_slashing_protection_db epoch)
  | OpSignAttestations l => returning ResAttestations (sign_attestations l)
  | OpSignEnvelope pk e => returning ResEnvelope (sign_execution_payload_envelope pk e)
  | OpSignPayloadAttestation pk d => returning ResPayloadAttestation (sign_payload_attestation pk d)
  | OpSignPreferences pk p => returning ResPreferences (sign_proposer_preferences pk p)
  | OpSignRequestAuth pk r => returning ResRequestAuth (sign_request_auth_v1 pk r)
  | OpVoluntaryExit pk e slot => returning ResExit (collect_voluntary_exit_partial_signatures pk e slot)
  | OpUpdateVotingContext vc => returning ResDone (update_voting_context vc)
  | OpUpdateVotingAssignments a => returning ResDone (update_voting_assignments a)
  | OpUpdateAggregationAssignments info => returning ResPostConsensus (update_aggregation_assignments info)
  end.
End store.
