(* ===== verification/StoreSafety.v ===== *)
(** * Safety of the validator store

    What holds of every run of the operations of [ValidatorStore.v], with any number of
    them interleaved, whatever the clock, the QBFT instances and the signature collector
    answer, and however the network database changes meanwhile; the slashing database keeps
    its documented promise ([SlashingLaws]):

    - with slashing protection on, at most one block signature is ever requested per
      validator and slot;
    - the attestations returned for publication passed the slashing database, and no two of
      one validator are slashable together;
    - the votes a committee signs under one voting context are all for one decided vote.

    Each is proved with the permits of [StoreEffects.v]. *)

From S2P Require Import Prelude SsvTypes Messages QbftTypes ForkSchedule ValidationTypes DutyState.
From S2P Require Import ValidatorRules ConsensusValidation PartialValidation Subnet Validator MultiIndex.
From S2P Require Import NetworkState Sql CollectorState SignatureCollector RoundTimeout QbftManager.
From S2P Require Import BeaconTypes ConsensusData Voting StoreTypes StoreEffects PostConsensus ValidatorStore.

Section safety.
Context `{BL : BeaconLib} {SigL : SigningLib} `{SL : SlashingLib} {C : Crypto} {SecretKey : Type}.
Context (beacon_vote_hash : BeaconVote → Hash256) (gloas_vote_hash : GloasBeaconVote → Hash256).
Context (aggregator_data_hash : AggregatorCommitteeConsensusData → Hash256).
Context (sk_deserialize : bytes → option SecretKey).

Abbreviation effect := (StoreEffects.effect (SL:=SL) (SecretKey:=SecretKey)).
Abbreviation prog := (StoreEffects.prog (SL:=SL) (SecretKey:=SecretKey)).
Abbreviation async := (StoreEffects.async (SL:=SL) (SecretKey:=SecretKey)).
Abbreviation Machine := (StoreEffects.Machine (SL:=SL) (SecretKey:=SecretKey)).
Abbreviation Event := (StoreEffects.Event (SecretKey:=SecretKey)).
Abbreviation SignCall := (StoreEffects.SignCall (SecretKey:=SecretKey)).
Abbreviation respond := (StoreEffects.respond beacon_vote_hash gloas_vote_hash).

(** ** Programs that make only calls of a kind *)

Section quiet.
Context (neutral : ∀ X, effect X → bool).

Fixpoint quiet {A} (p : prog A) : Prop :=
  match p with
  | Ret _ => True
  | Call e k => neutral _ e = true ∧ ∀ x, quiet (k x)
  | @Par _ _ _ _ _ X ps k =>
      (fix all (ps : list (prog X)) : Prop :=
         match ps with [] => True | p :: ps => quiet p ∧ all ps end) ps ∧ ∀ xs, quiet (k xs)
  end.

Lemma quiet_par_iff {A X} (ps : list (prog X)) (k : list X → prog A) :
  quiet (Par ps k) ↔ Forall quiet ps ∧ ∀ xs, quiet (k xs).
Proof.
  cbn [quiet]. apply and_iff_compat_r. clear k. induction ps as [|p ps IH]; [by split|].
  rewrite IH. by rewrite Forall_cons.
Qed.

Lemma quiet_bind {A B} (p : prog A) (f : A → prog B) :
  quiet p → (∀ a, quiet (f a)) → quiet (prog_bind p f).
Proof.
  revert A p f.
  apply (prog_ind' (λ A p, ∀ f : A → prog B, quiet p → (∀ a, quiet (f a)) → quiet (prog_bind p f)));
    [intros A a f Hp Hf|intros A X e k IH f Hp Hf|intros A X ps k _ IHk f Hp Hf].
  - apply Hf.
  - destruct Hp as [? ?]. split; [done|]. intros x. by apply IH.
  - apply quiet_par_iff in Hp as [? ?]. cbn [prog_bind]. apply quiet_par_iff. split; [done|].
    intros xs. by apply IHk.
Qed.

Lemma quiet_async_bind {A B} (p : async A) (f : A → async B) :
  quiet p → (∀ a, quiet (f a)) → quiet (p ≫= f).
Proof. intros Hp Hf. apply quiet_bind; [done|]. by intros []. Qed.

Lemma quiet_par {X} (ps : list (prog X)) : Forall quiet ps → quiet (par ps).
Proof. intros H. unfold par. by apply quiet_par_iff. Qed.

Context (neutral_within : ∀ X (e : effect X), neutral X e = true → neutral _ (Within e) = true).
Lemma quiet_race {A} (p : prog A) : quiet p → quiet (race p).
Proof.
  revert A p. apply (prog_ind' (λ A p, quiet p → quiet (race p)));
    [intros A a Hp|intros A X e k IH Hp|intros A X ps k IHps IHk Hp].
  - done.
  - destruct Hp as [He Hk]. cbn [race]. destruct (awaits e); cbn.
    + split; [by apply neutral_within|]. intros [x|]; [by apply IH|done].
    + split; [done|]. intros x. by apply IH.
  - apply quiet_par_iff in Hp as [Hps Hk]. cbn [race]. apply quiet_par_iff. split.
    + clear Hk IHk. induction ps as [|p ps IH]; [constructor|].
      apply Forall_cons in IHps as [IHp IHps]. apply Forall_cons in Hps as [Hp Hps]. cbn [map].
      apply Forall_cons. split; [by apply IHp|by apply IH].
    + intros xs. destruct (all_some xs); [by apply IHk|done].
Qed.
End quiet.

(** What a program returns, whatever is answered. *)
Fixpoint returns {A} (p : prog A) (P : A → Prop) : Prop :=
  match p with
  | Ret a => P a
  | Call e k => ∀ x, returns (k x) P
  | Par ps k => ∀ xs, returns (k xs) P
  end.

Lemma returns_mono {A} (p : prog A) (P P' : A → Prop) : (∀ a, P a → P' a) → returns p P → returns p P'.
Proof.
  intros HP. revert A p P P' HP.
  apply (prog_ind' (λ A p, ∀ P P' : A → Prop, (∀ a, P a → P' a) → returns p P → returns p P')); cbn; eauto.
Qed.

Lemma returns_bind {A B} (p : prog A) (f : A → prog B) P :
  returns p (λ a, returns (f a) P) → returns (prog_bind p f) P.
Proof.
  revert A p f.
  apply (prog_ind' (λ A p, ∀ f : A → prog B, returns p (λ a, returns (f a) P) → returns (prog_bind p f) P)); cbn; eauto.
Qed.

(** The part of a result that concerns success. *)
Definition on_ok {A} (P : A → Prop) (r : outcome StoreError A) : Prop := ∀ a, r = Ok a → P a.

Lemma returns_async_bind {A B} (p : async A) (f : A → async B) (P' : A → Prop) (P : B → Prop) :
  returns p (on_ok P') → (∀ a, P' a → returns (f a) (on_ok P)) → returns (p ≫= f) (on_ok P).
Proof.
  intros Hp Hf. apply returns_bind. eapply returns_mono; [|exact Hp]. intros [a|e|] Ha; [by apply Hf, Ha|done..].
Qed.

Lemma returns_any {A} (p : prog A) (P : A → Prop) : (∀ a, P a) → returns p P.
Proof.
  revert A p P. apply (prog_ind' (λ A p, ∀ P : A → Prop, (∀ a, P a) → returns p P)); cbn; eauto.
Qed.

(** The usual step: what comes before does not matter. *)
Lemma returns_async_next {A B} (p : async A) (f : A → async B) (P : B → Prop) :
  (∀ a, returns (f a) (on_ok P)) → returns (p ≫= f) (on_ok P).
Proof. intros Hf. apply (returns_async_bind p f (λ _, True)); [by apply returns_any|auto]. Qed.

(** A protocol in which the calls of a kind leave the permits as they are. *)
Section quiet_ok.
Context {Tok : Type} (call_ok : ∀ X, list Tok → effect X → (X → list Tok) → Prop).
Context (neutral : ∀ X, effect X → bool).
Context (call_ok_neutral : ∀ X T (e : effect X), neutral X e = true → call_ok X T e (λ _, T)).

Lemma quiet_ok {A} (p : prog A) : quiet neutral p → ∀ T, ok call_ok T p (λ T' _, T' = T).
Proof.
  revert A p. apply (prog_ind' (λ A p, quiet neutral p → ∀ T, ok call_ok T p (λ T' _, T' = T)));
    [intros A a Hp T|intros A X e k IH Hp T|intros A X ps k IHps IHk Hp T].
  - by exists T.
  - destruct Hp as [He Hk]. exists T, (λ _, T). split; [done|]. split; [by apply call_ok_neutral|].
    intros x. by apply IH.
  - apply quiet_par_iff in Hp as [Hps Hk]. apply ok_par_iff.
    exists (replicate (length ps) []), T, (λ T' _, T' = []). split; [|split].
    + by induction (length ps).
    + clear Hk IHk. induction ps as [|p ps IH]; [constructor|].
      apply Forall_cons in IHps as [IHp IHps]. apply Forall_cons in Hps as [Hp Hps].
      constructor; [by apply IHp|by apply IH].
    + intros Ts' xs Hxs. assert (concat Ts' = []) as ->; [|by apply IHk].
      by induction Hxs as [|T' x Ts' xs -> _ IH].
Qed.

Lemma quiet_returns_ok {A} (p : prog A) (P : A → Prop) :
  quiet neutral p → returns p P → ∀ T, ok call_ok T p (λ T' a, T' = T ∧ P a).
Proof.
  revert A p P.
  apply (prog_ind' (λ A p, ∀ P : A → Prop, quiet neutral p → returns p P → ∀ T, ok call_ok T p (λ T' a, T' = T ∧ P a)));
    [intros A a P Hp Hr T|intros A X e k IH P Hp Hr T|intros A X ps k _ IHk P Hp Hr T].
  - by exists T.
  - destruct Hp as [He Hk]. exists T, (λ _, T). split; [done|]. split; [by apply call_ok_neutral|].
    intros x. by apply IH.
  - apply quiet_par_iff in Hp as [Hps Hk]. apply ok_par_iff.
    exists (replicate (length ps) []), T, (λ T' _, T' = []). split; [|split].
    + by induction (length ps).
    + clear Hr Hk IHk. induction Hps as [|p ps Hp Hps IH]; [constructor|]. constructor; [by apply quiet_ok|done].
    + intros Ts' xs Hxs. assert (concat Ts' = []) as ->; [|by apply IHk].
      by induction Hxs as [|T' x Ts' xs -> _ IH].
Qed.

(** The rule for [?]: an error ends the program. *)
Lemma ok_async_bind {A B} T (p : async A) (f : A → async B) Q :
  ok call_ok T p (λ T r, match r with
                         | Ok a => ok call_ok T (f a) Q
                         | Err e => ok call_ok T (Ret (Err e)) Q
                         | Panic => ok call_ok T (Ret Panic) Q
                         end) →
  ok call_ok T (p ≫= f) Q.
Proof. intros H. apply ok_bind. eapply ok_mono; [|exact H]. by intros T' []. Qed.

(** A quiet part: the permits are the same after it. *)
Lemma ok_quiet_bind {A B} T (p : prog A) (f : A → prog B) Q :
  quiet neutral p → (∀ a, ok call_ok T (f a) Q) → ok call_ok T (prog_bind p f) Q.
Proof.
  intros Hp Hf. apply ok_bind. eapply ok_mono; [|by apply quiet_ok]. by intros T' a ->.
Qed.

Lemma ok_quiet_async {A B} T (p : async A) (f : A → async B) Q :
  quiet neutral p → (∀ a, ok call_ok T (f a) Q) → (∀ e, Q T (Err e)) → Q T Panic →
  ok call_ok T (p ≫= f) Q.
Proof. intros Hp Hf He Hpn. apply ok_quiet_bind; [done|]. intros [a|e|]; [done| |]; by exists T. Qed.
End quiet_ok.

Lemma ok_quiet_returns {Tok} (call_ok : ∀ X, list Tok → effect X → (X → list Tok) → Prop) neutral
    {A B} T (p : async A) (f : A → async B) (P : A → Prop) Q :
  (∀ X T (e : effect X), neutral X e = true → call_ok X T e (λ _, T)) →
  quiet neutral p → returns p (on_ok P) → (∀ a, P a → ok call_ok T (f a) Q) →
  (∀ e, Q T (Err e)) → Q T Panic → ok call_ok T (p ≫= f) Q.
Proof.
  intros Hc Hp Hr Hf He Hpn. apply ok_bind. eapply ok_mono; [|by eapply quiet_returns_ok].
  intros T' [a|e|] [-> Ha]; [by apply Hf, Ha| |]; by exists T.
Qed.

(** ** Which operations make which calls *)

(** Calls that no protocol here looks at. *)
Fixpoint plain {X} (e : effect X) : bool :=
  match e with
  | CheckBlockProposal _ _ _ | CheckAttestations _ | RememberVote _ _ _ | WaitVotingContext _ | Sign _ => false
  | Within e => plain e
  | _ => true
  end.

(** A partial signature that is neither on a proposed block nor on a committee's vote. *)
Definition other_kind (kind : PartialSignatureKind) (role : Role) : bool :=
  negb (bool_decide (kind = PartialSignatureKind.PostConsensus)
        && (bool_decide (role = Role.Proposer) || bool_decide (role = Role.Committee))).

Section calls.
Context (cfg : StoreConfig).
Context (neutral : ∀ X, effect X → bool).
Context (neutral_plain : ∀ X (e : effect X), plain e = true → neutral X e = true).
Context (neutral_within : ∀ X (e : effect X), neutral X e = true → neutral _ (Within e) = true).
Context (neutral_other : ∀ metadata requester data,
  other_kind (md_kind metadata) (md_role metadata) = true →
  neutral _ (Sign (CallSignAndCollect metadata requester data)) = true).

Lemma quiet_call {X} (e : effect X) : neutral X e = true → quiet neutral (call e).
Proof. by intros He. Qed.
Lemma quiet_plain {X} (e : effect X) : plain e = true → quiet neutral (call e).
Proof. intros He. by apply quiet_call, neutral_plain. Qed.

Ltac quiet_step :=
  match goal with
  | |- ∀ _, _ => intro
  | |- let _ := _ in _ => cbv zeta
  | |- quiet _ (let _ := _ in _) => cbv zeta
  | |- quiet _ (Ret _) => exact I
  | |- quiet _ (mret _) => exact I
  | |- quiet _ (fail _) => exact I
  | |- quiet _ (sync _) => exact I
  | |- quiet _ (sync_specific _) => exact I
  | |- quiet _ (read _) => apply quiet_plain; reflexivity
  | |- quiet _ (update _) => apply quiet_plain; reflexivity
  | |- quiet _ (_ ≫= _) => apply quiet_async_bind
  | |- quiet _ (prog_bind _ _) => apply quiet_bind
  | |- quiet _ (race _) => apply (quiet_race neutral neutral_within)
  | |- quiet _ (par _) => apply quiet_par
  | |- quiet _ (match ?x with _ => _ end) => destruct x
  | |- quiet _ _ => solve [eauto with quiet]
  | |- quiet _ (call _) => apply quiet_plain; reflexivity
  end.
Ltac quiet_tac := repeat quiet_step; try done.

Create HintDb quiet.

Lemma validator_and_cluster_quiet pk : quiet neutral (validator_and_cluster pk).
Proof. unfold validator_and_cluster. quiet_tac. Qed.
Lemma instant_in_slot_quiet slot delay : quiet neutral (instant_in_slot cfg slot delay).
Proof. unfold instant_in_slot. quiet_tac. Qed.
Lemma completed_quiet {D} (r : outcome ManagerError (Completed D)) : quiet neutral (completed r).
Proof. unfold completed. quiet_tac. Qed.
Lemma validator_signing_data_quiet validator root :
  quiet neutral (validator_signing_data sk_deserialize cfg validator root).
Proof. unfold validator_signing_data. quiet_tac. Qed.
Hint Resolve validator_and_cluster_quiet instant_in_slot_quiet completed_quiet validator_signing_data_quiet : quiet.

(** A collection is quiet if the request it makes is. *)
Lemma collect_signature_quiet kind role mode validator cluster root slot :
  (∀ metadata requester data, md_kind metadata = kind → md_role metadata = role →
     neutral _ (Sign (CallSignAndCollect metadata requester data)) = true) →
  quiet neutral (collect_signature sk_deserialize cfg kind role mode validator cluster root slot).
Proof.
  intros Hs. unfold collect_signature.
  destruct (signature_metadata kind role cluster slot) as [metadata|e|] eqn:Hm; [|done..].
  apply bind_ok in Hm as (t & _ & [= <-]). change (sync (Ok ?a) ≫= ?f) with (f a). cbv beta. quiet_tac.
  by apply quiet_call, Hs.
Qed.

Lemma collect_other_quiet kind role mode validator cluster root slot :
  other_kind kind role = true →
  quiet neutral (collect_signature sk_deserialize cfg kind role mode validator cluster root slot).
Proof. intros Ho. apply collect_signature_quiet. intros md r d <- <-. by apply neutral_other. Qed.
Hint Extern 1 (quiet _ (collect_signature _ _ _ _ _ _ _ _ _)) => apply collect_other_quiet; reflexivity : quiet.

Lemma collect_within_quiet bound p : quiet neutral p → quiet neutral (collect_within bound p).
Proof. intros Hp. unfold collect_within. quiet_tac. Qed.
Lemma collect_reported_quiet bound slot p : quiet neutral p → quiet neutral (collect_reported cfg bound slot p).
Proof. intros Hp. unfold collect_reported. quiet_tac. by apply collect_within_quiet. Qed.
Lemma timeout_within_slot_quiet {O} slot delay (p : async O) :
  quiet neutral p → quiet neutral (timeout_within_slot cfg slot delay p).
Proof. intros Hp. unfold timeout_within_slot. quiet_tac. Qed.
Hint Resolve collect_within_quiet collect_reported_quiet timeout_within_slot_quiet : quiet.

Lemma decided_block_context_quiet pk slot : quiet neutral (decided_block_context pk slot).
Proof. unfold decided_block_context. quiet_tac. Qed.
Lemma decide_abstract_block_quiet validator cluster block root :
  quiet neutral (decide_abstract_block cfg validator cluster block root).
Proof. unfold decide_abstract_block. quiet_tac. Qed.
Lemma group_by_committee_quiet {I} (get : I → PublicKeyBytes) items mapping :
  quiet neutral (group_by_committee get items mapping).
Proof. revert mapping. induction items as [|i items IH]; intros mapping; cbn [group_by_committee]; quiet_tac. Qed.
Lemma get_voting_assignments_quiet slot : quiet neutral (get_voting_assignments slot).
Proof. unfold get_voting_assignments. quiet_tac. Qed.
Lemma get_aggregation_assignments_quiet slot : quiet neutral (get_aggregation_assignments slot).
Proof. unfold get_aggregation_assignments. quiet_tac. Qed.
Lemma selection_batch_quiet id slot a : quiet neutral (selection_batch id slot a).
Proof. unfold selection_batch. quiet_tac. Qed.
Lemma voting_batch_size_quiet id a : quiet neutral (voting_batch_size id a).
Proof. unfold voting_batch_size. quiet_tac. Qed.
Lemma spawn_shared_quiet {A} (p : async A) : quiet neutral p → quiet neutral (spawn_shared p).
Proof. intros Hp. unfold spawn_shared. quiet_tac. Qed.
Hint Resolve decided_block_context_quiet decide_abstract_block_quiet group_by_committee_quiet
  get_voting_assignments_quiet get_aggregation_assignments_quiet selection_batch_quiet
  voting_batch_size_quiet spawn_shared_quiet : quiet.

Abbreviation program := (ValidatorStore.program beacon_vote_hash gloas_vote_hash aggregator_data_hash sk_deserialize cfg).

(** Signing a block asks the slashing database and requests the block's signature. *)
Section block_calls.
Context (neutral_check : ∀ pk header domain, neutral _ (CheckBlockProposal pk header domain) = true).
Context (neutral_proposer : ∀ metadata requester data, md_role metadata = Role.Proposer →
  neutral _ (Sign (CallSignAndCollect metadata requester data)) = true).
Context (neutral_packet : ∀ metadata pk block_data envelope_data,
  neutral _ (Sign (CallSignProposerPacket metadata pk block_data envelope_data)) = true).

Lemma sign_abstract_block_quiet {B} `{!SignableBlock B} validator cluster (block : B) slot :
  quiet neutral (sign_abstract_block sk_deserialize cfg validator cluster block slot).
Proof.
  unfold sign_abstract_block.
  assert (∀ pk header domain, quiet neutral (call (CheckBlockProposal pk header domain))) by (intros; by apply quiet_call).
  assert (∀ md pk a b, quiet neutral (call (Sign (CallSignProposerPacket md pk a b)))) by (intros; by apply quiet_call).
  quiet_tac. apply collect_signature_quiet. intros md r d _ Hr. by apply neutral_proposer.
Qed.

Lemma sign_block_quiet pk block slot root : quiet neutral (sign_block sk_deserialize cfg pk block slot root).
Proof.
  unfold sign_block. quiet_tac; apply sign_abstract_block_quiet.
Qed.
End block_calls.

(** So do a committee's votes, which also remember what was decided. *)
Section votes.
Context (neutral_remember : ∀ vc id vote, neutral _ (RememberVote vc id vote) = true).
Context (neutral_context : ∀ slot, neutral _ (WaitVotingContext slot) = true).
Context (neutral_sign : ∀ metadata requester data, md_role metadata = Role.Committee →
  neutral _ (Sign (CallSignAndCollect metadata requester data)) = true).

Lemma get_voting_context_quiet slot : quiet neutral (get_voting_context slot).
Proof. unfold get_voting_context. quiet_tac. Qed.
Lemma decide_committee_vote_quiet id slot vc committees members :
  quiet neutral (decide_committee_vote beacon_vote_hash gloas_vote_hash cfg id slot vc committees members).
Proof. unfold decide_committee_vote. quiet_tac. Qed.
Lemma collect_prepared_quiet {D} slot cluster n h (prepared : list (SigningRequest D)) :
  quiet neutral (collect_prepared_signatures sk_deserialize cfg Role.Committee slot cluster n h prepared).
Proof.
  unfold collect_prepared_signatures. quiet_tac. apply Forall_forall. intros p Hp.
  apply list_elem_of_omap in Hp as (item & _ & Hi). destruct (md_index _); [|done].
  cbv beta iota delta [mbind option_bind] in Hi. injection Hi as <-.
  quiet_tac. apply collect_signature_quiet. intros md r d _ Hr. by apply neutral_sign.
Qed.
Hint Resolve get_voting_context_quiet decide_committee_vote_quiet collect_prepared_quiet : quiet.

Lemma sign_committee_attestations_quiet id cluster l :
  quiet neutral (sign_committee_attestations beacon_vote_hash gloas_vote_hash sk_deserialize cfg id cluster l).
Proof. unfold sign_committee_attestations. quiet_tac. Qed.
Lemma sign_committee_sync_quiet id cluster l :
  quiet neutral (sign_committee_sync_committee_signatures beacon_vote_hash gloas_vote_hash sk_deserialize cfg
                   id cluster l).
Proof. unfold sign_committee_sync_committee_signatures. quiet_tac. Qed.

Lemma sign_sync_messages_quiet l :
  quiet neutral (sign_sync_committee_signatures beacon_vote_hash gloas_vote_hash sk_deserialize cfg l).
Proof.
  unfold sign_sync_committee_signatures. quiet_tac. apply Forall_fmap, Forall_forall.
  intros [id [cluster ms]] _. cbv beta iota delta [compose]. unfold run_committee_signing.
  apply quiet_bind; [apply sign_committee_sync_quiet|]. quiet_tac.
Qed.

Lemma sign_attestations_quiet l :
  (∀ l, neutral _ (CheckAttestations l) = true) →
  quiet neutral (sign_attestations beacon_vote_hash gloas_vote_hash sk_deserialize cfg l).
Proof.
  intros Hc. unfold sign_attestations. quiet_tac. apply Forall_fmap, Forall_forall.
  intros [id [cluster ms]] _. cbv beta iota delta [compose]. unfold sign_attestations_committee.
  apply quiet_bind; [apply sign_committee_attestations_quiet|].
  assert (∀ l, quiet neutral (slashing_protection_attestations cfg l)) as Hsp.
  { intros l'. unfold slashing_protection_attestations. quiet_tac. }
  quiet_tac.
Qed.
End votes.

Lemma update_aggregation_quiet info :
  quiet neutral (update_aggregation_assignments aggregator_data_hash sk_deserialize cfg info).
Proof.
  unfold update_aggregation_assignments. quiet_tac. apply Forall_fmap, Forall_forall. intros [id data] _. cbv beta iota delta [compose].
  apply quiet_bind; [|quiet_tac]. apply spawn_shared_quiet.
  unfold run_aggregator_post_consensus, run_aggregator_committee_consensus. quiet_tac.
  apply Forall_app. split; apply Forall_fmap, Forall_forall; intros [k r] _; cbv beta iota delta [compose];
    unfold spawn_root_collection; quiet_tac; apply spawn_shared_quiet; quiet_tac.
Qed.

(** All other operations are quiet. *)
Definition is_block (op : Operation) : bool := match op with OpSignBlock _ _ _ _ => true | _ => false end.
Definition is_vote (op : Operation) : bool :=
  match op with OpSignAttestations _ | OpSignSyncMessages _ => true | _ => false end.

Lemma other_program_quiet op : is_block op = false → is_vote op = false → quiet neutral (program op).
Proof.
  intros Hb Hv. destruct op; try done; cbn [ValidatorStore.program]; unfold returning;
    (apply quiet_bind; [|quiet_tac]).
  - unfold set_validator_index. quiet_tac.
  - unfold randao_reveal, await_proposer_delay. quiet_tac.
  - unfold sign_validator_registration_data. quiet_tac.
  - unfold sign_aggregate_and_proofs, lighthouse_owns_publication, fork_at. quiet_tac.
    apply Forall_fmap, Forall_forall. intros agg _. unfold compose, sign_single_aggregate_and_proof. quiet_tac.
  - unfold produce_selection_proof, fork_at. quiet_tac.
  - unfold produce_sync_selection_proof, fork_at. quiet_tac. apply timeout_within_slot_quiet. quiet_tac.
  - unfold sign_sync_committee_contributions, lighthouse_owns_publication, fork_at. quiet_tac.
    apply Forall_fmap, Forall_forall. intros agg _. unfold compose, sign_single_sync_committee_contribution, submit_and_wait.
    quiet_tac.
  - unfold prune_slashing_protection_db. quiet_tac.
  - unfold sign_execution_payload_envelope, envelope_deadline. quiet_tac. apply collect_within_quiet. quiet_tac.
  - unfold sign_payload_attestation. quiet_tac.
  - unfold sign_proposer_preferences. quiet_tac.
  - unfold sign_request_auth_v1. quiet_tac.
  - unfold collect_voluntary_exit_partial_signatures. quiet_tac.
  - unfold update_voting_context. quiet_tac.
  - unfold update_voting_assignments. quiet_tac.
  - apply update_aggregation_quiet.
Qed.
End calls.

(** ** What a call can add to the log *)

Fixpoint may_emit {X} (e : effect X) (ev : Event) : Prop :=
  match e, ev with
  | CheckBlockProposal _ _ _, EvBlockCleared _ _ => True
  | CheckAttestations _, EvAttestationCleared _ _ => True
  | Sign call, EvSign call' => call' = call
  | PublishVotingContext _, EvContext _ => True
  | Within e, _ => may_emit e ev
  | _, _ => False
  end.

(** The log grows by the call's own events, and the slashing database moves by its own steps. *)
Lemma respond_frame X (e : effect X) : ∀ h m x m',
  respond h m e = Some (x, m') →
  ∃ evs, mc_log m' = mc_log m ++ evs ∧ Forall (may_emit e) evs ∧
    (mc_slashing m' = mc_slashing m ∨ slashing_step (mc_slashing m) (mc_slashing m')).
Proof.
  induction e; intros h m x0 m' Hr; cbn in Hr;
    try (injection Hr as <- <-; exists []; rewrite app_nil_r; by auto).
  - destruct (f _) as [y mem]. injection Hr as <- <-. exists []. rewrite app_nil_r. by auto.
  - destruct (check_and_insert_block_proposal _ pubkey header domain) as [r db] eqn:Hc. injection Hr as <- <-.
    pose proof (step_block (mc_slashing m) pubkey header domain) as Hs. rewrite Hc in Hs.
    exists (cleared_block pubkey header r). split; [done|]. split; [|by right].
    destruct r as [[]|e|]; by repeat constructor.
  - destruct (check_and_insert_attestations _ l) as [r db] eqn:Hc. injection Hr as <- <-.
    pose proof (step_attestations (mc_slashing m) l) as Hs. rewrite Hc in Hs.
    eexists. split; [reflexivity|]. split; [|by right]. apply Forall_fmap, Forall_true. done.
  - destruct (prune_all_signed_attestations _ pubkeys epoch) as [r db] eqn:Hc. injection Hr as <- <-.
    pose proof (step_prune_attestations (mc_slashing m) pubkeys epoch) as Hs. rewrite Hc in Hs.
    exists []. rewrite app_nil_r. by auto.
  - destruct (prune_all_signed_blocks _ pubkeys slot) as [r db] eqn:Hc. injection Hr as <- <-.
    pose proof (step_prune_blocks (mc_slashing m) pubkeys slot) as Hs. rewrite Hc in Hs.
    exists []. rewrite app_nil_r. by auto.
  - injection Hr as <- <-. eexists. split; [reflexivity|]. split; [by repeat constructor|by left].
  - unfold remember in Hr. destruct (remember_decided_vote _ _ _ _ _ _) as [r votes]. injection Hr as <- <-.
    exists []. rewrite app_nil_r. by auto.
  - injection Hr as <- <-. eexists. split; [reflexivity|]. split; [by repeat constructor|by left].
  - exists []. rewrite app_nil_r. destruct (h_channel_closed h); [by injection Hr as <- <-; auto|].
    destruct (for_slot _ _ _); [|done]. by injection Hr as <- <-; auto.
  - exists []. rewrite app_nil_r. destruct (h_channel_closed h); [by injection Hr as <- <-; auto|].
    destruct (f _); [|done]. by injection Hr as <- <-; auto.
  - destruct (h_elapsed h); [injection Hr as <- <-; exists []; rewrite app_nil_r; by auto|].
    destruct (respond h m e) as [[y m1]|] eqn:He; [|done]. injection Hr as <- <-. by eapply IHe.
Qed.

(** A view of the log that none of the call's events belong to does not change. *)
Lemma quiet_view {X B} (f : Event → option B) (e : effect X) evs :
  (∀ ev, may_emit e ev → f ev = None) → Forall (may_emit e) evs → omap f evs = [].
Proof. intros Hf. induction 1 as [|ev evs Hev _ IH]; [done|]. cbn. by rewrite (Hf ev Hev). Qed.

(** ** One block signature per validator and slot *)

(** The validator and slot a request asks a block signature for. *)
Definition block_key (call : SignCall) : option (PublicKeyBytes * Slot) :=
  match call with
  | CallSignAndCollect metadata _ data =>
      if bool_decide (md_kind metadata = PartialSignatureKind.PostConsensus)
         && bool_decide (md_role metadata = Role.Proposer)
      then Some (sd_validator_pubkey data, md_slot metadata) else None
  | CallSignProposerPacket metadata pubkey _ _ => Some (pubkey, md_slot metadata)
  end.

Definition event_block_key (ev : Event) : option (PublicKeyBytes * Slot) :=
  match ev with EvSign call => block_key call | _ => None end.
Definition block_requests (log : list Event) : list (PublicKeyBytes * Slot) := omap event_block_key log.

Section blocks.
Context (cfg : StoreConfig).
Abbreviation program := (ValidatorStore.program beacon_vote_hash gloas_vote_hash aggregator_data_hash sk_deserialize cfg).

Fixpoint block_neutral {X} (e : effect X) : bool :=
  match e with
  | CheckBlockProposal _ _ _ => false
  | Sign call => match block_key call with Some _ => false | None => true end
  | Within e => block_neutral e
  | _ => true
  end.

(** A permit for a validator and slot is earned when the slashing database finds a block of
    that slot valid, and spent by the request for the block's signature. *)
Definition block_special {X} (T : list (PublicKeyBytes * Slot)) (e : effect X) : (X → list (PublicKeyBytes * Slot)) → Prop :=
  match e in StoreEffects.effect X return (X → list (PublicKeyBytes * Slot)) → Prop with
  | CheckBlockProposal pk header _ => λ F,
      ∀ r, F r = match r with Ok SafeValid => (pk, bh_slot header) :: T | _ => T end
  | Sign call => λ F, ∃ k, block_key call = Some k ∧ T = k :: F tt
  | _ => λ _, False
  end.
Definition block_call_ok X (T : list (PublicKeyBytes * Slot)) (e : effect X) F : Prop :=
  (block_neutral e = true ∧ ∀ x, F x = T) ∨ block_special T e F.

Lemma block_call_neutral X T (e : effect X) : block_neutral e = true → block_call_ok X T e (λ _, T).
Proof. by left. Qed.

Abbreviation bok := (ok block_call_ok).
Abbreviation bquiet := (quiet (λ X, block_neutral (X:=X))).

Lemma block_plain X (e : effect X) : plain e = true → block_neutral e = true.
Proof. induction e; cbn; auto; done. Qed.
Lemma block_other md r d : other_kind (md_kind md) (md_role md) = true →
  block_neutral (Sign (CallSignAndCollect md r d)) = true.
Proof.
  unfold other_kind. cbn. intros Ho. destruct (bool_decide (md_kind md = _)); [|done]. cbn in *.
  by destruct (bool_decide (md_role md = Role.Proposer)).
Qed.

Hint Resolve block_plain block_other block_call_neutral : core.

Lemma signing_data_returns validator root :
  returns (validator_signing_data sk_deserialize cfg validator root)
    (on_ok (λ d, sd_validator_pubkey d = md_public_key validator)).
Proof.
  unfold validator_signing_data. do 2 (apply returns_async_next; intros ?). cbv zeta.
  apply returns_async_next. intros share. apply returns_async_next. intros index d [= <-]. done.
Qed.

Lemma block_signing_quiet validator root :
  bquiet (validator_signing_data sk_deserialize cfg validator root).
Proof. apply validator_signing_data_quiet, block_plain. Qed.

(** The request of a block's signature, and the rest, spends the permit. *)
Lemma request_ok {A} T k call (rest : unit → async A) :
  block_key call = Some k → bquiet (rest tt) → bok (k :: T) (StoreEffects.call (Sign call) ≫= rest) (λ _ _, True).
Proof.
  intros Hk Hr. exists (k :: T), (λ _, T). split; [done|]. split; [right; by exists k|]. intros [].
  eapply ok_mono; [|by eapply (quiet_ok _ _ block_call_neutral)]. done.
Qed.

(** With the permit, the block's signature may be requested. *)
Lemma collect_block_ok validator cluster root slot :
  bok [(md_public_key validator, slot)]
    (collect_signature sk_deserialize cfg PartialSignatureKind.PostConsensus Role.Proposer ModeSingleValidator
       validator cluster root slot) (λ _ _, True).
Proof.
  unfold collect_signature. cbn [requester_of].
  destruct (signature_metadata _ _ cluster slot) as [md|e|] eqn:Hm; [|by eexists..].
  apply bind_ok in Hm as (t & _ & [= <-]). change (sync (Ok ?a) ≫= ?f) with (f a). cbv beta zeta.
  apply (ok_quiet_returns _ _ _ _ _ _ _ block_call_neutral (block_signing_quiet _ _) (signing_data_returns _ _));
    [|done|done].
  intros data Hd. apply request_ok; [by rewrite <- Hd|]. split; [done|]. by intros [].
Qed.

(** The packet of a Gloas block spends it as well. *)
Lemma packet_ok validator cluster slot root epoch :
  bok [(md_public_key validator, slot)]
    (context ← decided_block_context (md_public_key validator) slot;
     metadata ← sync (signature_metadata PartialSignatureKind.PostConsensus Role.Proposer cluster slot);
     block_data ← validator_signing_data sk_deserialize cfg validator root;
     envelope_data ←
       (if (db_builder_index context =? BUILDER_INDEX_SELF_BUILD)%N then
          let domain := get_domain cfg epoch Domain.BeaconBuilder in
          data ← validator_signing_data sk_deserialize cfg validator
                   (blinded_envelope_signing_root (blinded_envelope context) domain);
          mret (Some data)
        else mret None);
     _ ← call (Sign (CallSignProposerPacket metadata (md_public_key validator) block_data envelope_data));
     signature ← call AwaitSignature;
     sync_specific (map_err SignatureCollectionFailed signature)) (λ _ _, True).
Proof.
  apply (ok_quiet_async _ _ block_call_neutral); [by apply decided_block_context_quiet, block_plain| |done..].
  intros context. destruct (signature_metadata _ _ cluster slot) as [md|e|] eqn:Hm; [|by eexists..].
  apply bind_ok in Hm as (t & _ & [= <-]). change (sync (Ok ?a) ≫= ?f) with (f a). cbv beta.
  apply (ok_quiet_async _ _ block_call_neutral); [by apply block_signing_quiet| |done..]. intros block_data.
  apply (ok_quiet_async _ _ block_call_neutral); [|intros envelope|done..].
  - destruct (_ =? _)%N; [|done]. apply quiet_async_bind; [apply block_signing_quiet|done].
  - apply request_ok; [done|]. split; [done|]. by intros [].
Qed.

Context (protection : cfg_disable_slashing_protection cfg = false).

Lemma sign_abstract_block_ok {B} `{!SignableBlock B} validator cluster (block : B) slot :
  bok [] (sign_abstract_block sk_deserialize cfg validator cluster block slot) (λ _ _, True).
Proof.
  unfold sign_abstract_block. cbv zeta. rewrite protection.
  apply (ok_quiet_async _ _ block_call_neutral); [done| |done..]. intros _. apply ok_async_bind.
  set (pk := md_public_key validator). set (header := as_block_header block).
  exists [], (λ r, match r with Ok SafeValid => [(pk, bh_slot header)] | _ => [] end).
  split; [done|]. split; [by right|]. intros [[]|e|]; cbn [convert_slashing_result]; [|by eexists; split; [|eexists]..].
  exists [(pk, bh_slot header)]. split; [done|]. cbv beta iota. apply ok_async_bind.
  apply (ok_mono _ _ _ (λ _ _, True)); [by intros T [] _; eexists|].
  destruct (ForkName.ge _ _); [apply packet_ok|apply collect_block_ok].
Qed.

Lemma sign_block_ok pk block slot root :
  bok [] (sign_block sk_deserialize cfg pk block slot root) (λ _ _, True).
Proof.
  unfold sign_block. do 2 (apply (ok_quiet_async _ _ block_call_neutral); [done| |done..]; intros ?).
  apply (ok_quiet_async _ _ block_call_neutral); [by apply validator_and_cluster_quiet, block_plain| |done..].
  intros [validator cluster]. destruct (match block with UnsignedFull _ => _ | UnsignedBlinded _ => _ end) as [blinded local].
  apply (ok_quiet_async _ _ block_call_neutral); [by apply decide_abstract_block_quiet, block_plain| |done..].
  intros decided. apply ok_async_bind. apply (ok_mono _ _ _ (λ _ _, True)); [by intros T [] _; eexists|].
  destruct decided as [contents|b]; apply sign_abstract_block_ok.
Qed.

Lemma block_program_ok op : bok [] (program op) (λ _ _, True).
Proof.
  destruct (is_block op) eqn:Hb.
  { destruct op; try done. cbn [ValidatorStore.program]. unfold returning. apply ok_bind.
    apply (ok_mono _ _ _ (λ _ _, True)); [by intros T r _; eexists|]. apply sign_block_ok. }
  eapply ok_mono; [done|]. apply (quiet_ok _ _ block_call_neutral). destruct (is_vote op) eqn:Hv.
  - assert (∀ md r d, md_role md = Role.Committee → block_neutral (Sign (CallSignAndCollect md r d)) = true) as Hs.
    { intros md r d Hr. cbn. rewrite Hr. by destruct (bool_decide (md_kind md = _)). }
    destruct op; try done; cbn [ValidatorStore.program]; unfold returning; (apply quiet_bind; [|done]).
    + apply sign_sync_messages_quiet; auto.
    + apply sign_attestations_quiet; auto.
  - apply other_program_quiet; auto.
Qed.

(** ** The invariant: permits and requests are for slots taken, each once *)

Context {Laws : SlashingLaws}.

Definition cleared (log : list Event) (k : PublicKeyBytes * Slot) : Prop :=
  ∃ header, EvBlockCleared k.1 header ∈ log ∧ bh_slot header = k.2.
Definition block_inv (m : Machine) (T : list (PublicKeyBytes * Slot)) : Prop :=
  NoDup (T ++ block_requests (mc_log m)) ∧
  Forall (λ k, slot_taken (mc_slashing m) k.1 k.2 ∧ cleared (mc_log m) k) (T ++ block_requests (mc_log m)).

Lemma block_inv_perm m T T' : T ≡ₚ T' → block_inv m T → block_inv m T'.
Proof. intros Hp [H1 H2]. split; by rewrite <- Hp. Qed.

(** The database only moves by its own steps, and the log only grows. *)
Lemma block_inv_step m m' T evs :
  block_requests evs = [] → mc_log m' = mc_log m ++ evs →
  (mc_slashing m' = mc_slashing m ∨ slashing_step (mc_slashing m) (mc_slashing m')) →
  block_inv m T → block_inv m' T.
Proof.
  intros He Hl Hs [H1 H2]. unfold block_inv, block_requests. rewrite Hl, omap_app.
  unfold block_requests in He. rewrite He, app_nil_r. split; [done|].
  eapply Forall_impl; [exact H2|]. intros k [Ht (header & Hin & Hsl)]. split.
  - destruct Hs as [->|Hs]; [done|]. by eapply slot_taken_step.
  - exists header. split; [|done]. apply elem_of_app. by left.
Qed.

Lemma block_silent X (e : effect X) ev : block_neutral e = true → may_emit e ev → event_block_key ev = None.
Proof.
  induction e; destruct ev; cbn; intros Hn Hm; try done; auto. subst call0. by destruct (block_key call).
Qed.

Lemma respond_neutral_inv X (e : effect X) h m x m' T :
  block_neutral e = true → block_inv m T → respond h m e = Some (x, m') → block_inv m' T.
Proof.
  intros Hn HI Hr. apply respond_frame in Hr as (evs & Hl & He & Hs).
  eapply block_inv_step; [|exact Hl|exact Hs|exact HI]. eapply quiet_view; [|exact He].
  intros ev. by apply block_silent.
Qed.

Lemma block_inv_call X T (e : effect X) F R h m x m' :
  block_call_ok X T e F → block_inv m (T ++ R) → respond h m e = Some (x, m') → block_inv m' (F x ++ R).
Proof.
  intros [[Hn HF]|Hs] HI Hr; [rewrite HF; by eapply respond_neutral_inv|].
  destruct e; try done; cbn in Hs, Hr.
  - destruct (check_and_insert_block_proposal _ pubkey header domain) as [r db] eqn:Hc. injection Hr as <- <-.
    rewrite Hs. assert (slashing_step (mc_slashing m) db) as Hstep.
    { pose proof (step_block (mc_slashing m) pubkey header domain) as Hst. by rewrite Hc in Hst. }
    destruct r as [[]|e|]; try (eapply (block_inv_step m _ _ []); [done|done|by right|exact HI]).
    apply block_valid in Hc as [Hnt Ht].
    assert (block_inv (emit [EvBlockCleared pubkey header] (m <| mc_slashing := db |>)) (T ++ R)) as [H1 H2].
    { eapply (block_inv_step m _ _ [_]); [|reflexivity|by right|exact HI]. done. }
    split; cbn [app].
    + constructor; [|done]. intros Hin. apply Hnt.
      destruct HI as [_ HI]. rewrite Forall_forall in HI.
      apply (HI (pubkey, bh_slot header)). revert Hin. rewrite !elem_of_app. unfold block_requests. cbn.
      rewrite omap_app, elem_of_app. cbn. rewrite elem_of_nil. tauto.
    + constructor; [|done]. split; [done|]. exists header. split; [|done]. cbn. apply elem_of_app. right. by left.
  - destruct Hs as (k & Hk & ->). injection Hr as <- <-. destruct HI as [H1 H2].
    assert (((k :: F ()) ++ R) ++ block_requests (mc_log m) ≡ₚ (F () ++ R) ++ block_requests (mc_log m ++ [EvSign call])) as Hp.
    { unfold block_requests. rewrite omap_app. cbn. rewrite Hk. cbn. rewrite <- !app_assoc.
      by rewrite Permutation_middle, <- !Permutation_middle, app_nil_r. }
    split; cbn [mc_log emit]; [by rewrite <- Hp|]. rewrite <- Hp. eapply Forall_impl; [exact H2|].
    intros k' [? (header & ? & ?)]. split; [done|]. exists header. split; [|done]. cbn. apply elem_of_app. by left.
Qed.

(** C8: with slashing protection on and a slashing database that keeps its promise
    ([SlashingLaws]), whatever operations run interleaved and whatever the clock, the
    consensus and the collector answer, at most one block signature is ever requested for a validator and
    slot, of the collector and of the proposer packet together; and it is requested after
    the slashing database found a block of that slot valid for that validator. *)
Theorem one_block_signature_per_slot m0 pool :
  mc_log m0 = [] → reachable beacon_vote_hash gloas_vote_hash program m0 pool →
  let log := mc_log (pool_machine pool) in
  NoDup (block_requests log) ∧
  ∀ pk slot, (pk, slot) ∈ block_requests log →
    ∃ header, EvBlockCleared pk header ∈ log ∧ bh_slot header = slot.
Proof.
  intros H0 Hr. cbv zeta.
  destruct (protocol_sound _ _ program block_call_ok block_inv block_inv_perm block_inv_call) with
    (Q := λ (_ : Operation) (_ : list (PublicKeyBytes * Slot)) (_ : OpResult), True) (m0 := m0) (pool := pool)
    as (Ts & _ & H1 & H2).
  - done.
  - apply block_program_ok.
  - unfold block_inv. rewrite H0. by split; constructor.
  - done.
  - apply NoDup_app in H1 as (_ & _ & H1). split; [done|]. intros pk slot Hin.
    rewrite Forall_forall in H2. by destruct (H2 (pk, slot)) as [_ ?]; [apply elem_of_app; by right|].
Qed.
End blocks.

(** ** The attestations returned were cleared *)

Definition event_attestation (ev : Event) : option (PublicKeyBytes * AttestationData) :=
  match ev with EvAttestationCleared pk data => Some (pk, data) | _ => None end.
Definition cleared_log (log : list Event) : list (PublicKeyBytes * AttestationData) := omap event_attestation log.

(** Two cleared attestations of one validator do not make it slashable. *)
Definition compatible (a b : PublicKeyBytes * AttestationData) : Prop :=
  a.1 = b.1 → ¬ slashable_pair b.2 a.2.

Lemma omap_id_sorted {A} (R : relation A) (l : list (option A)) :
  (∀ i j x y, i < j → l !! i = Some (Some x) → l !! j = Some (Some y) → R x y) →
  StronglySorted R (omap id l).
Proof.
  induction l as [|o l IH]; intros H; cbn; [constructor|].
  assert (StronglySorted R (omap id l)) as Hs.
  { apply IH. intros i j x y Hij Hi Hj. by apply (H (S i) (S j)); [lia|..]. }
  destruct o as [x|]; [|done]. cbn. constructor; [done|]. apply Forall_forall. intros y Hy.
  apply list_elem_of_omap in Hy as (o & Ho & Hoy). cbn in Hoy. subst o.
  apply list_elem_of_lookup in Ho as [j Hj]. by apply (H 0 (S j)); [lia|..].
Qed.

Lemma on_ok_intro {A} (P : A → Prop) a : P a → on_ok P (Ok a).
Proof. by intros H ? [= <-]. Qed.

(** The committees are keyed by their identifiers and hold items that were given. *)
Lemma group_by_committee_returns {I} (get_pubkey : I → PublicKeyBytes) (all : list I) items mapping :
  let P := map_Forall (λ id '(cluster, l), cluster_committee_id cluster = id ∧ ∀ x, x ∈ l.*2 → x ∈ all)
             : gmap CommitteeId (Cluster * list (ValidatorMetadata * I)) → Prop in
  items ⊆ all → P mapping → returns (group_by_committee get_pubkey items mapping) (on_ok P).
Proof.
  intros P. revert mapping. induction items as [|item items IH]; intros mapping Hall HP; cbn [group_by_committee].
  { by apply on_ok_intro. }
  apply returns_async_next. intros [[validator cluster]|e|]; [|apply IH; set_solver|done]. cbv zeta.
  destruct (default _ _) as [first validators] eqn:Hd. apply IH; [set_solver|]. apply map_Forall_insert_2; [|done].
  destruct (mapping !! cluster_committee_id cluster) as [[c l]|] eqn:Hm; cbn in Hd; injection Hd as <- <-.
  - apply HP in Hm as [Hc Hl]. split; [done|]. intros x. rewrite fmap_app, elem_of_app. cbn.
    rewrite list_elem_of_singleton. intros [?| ->]; [by apply Hl|set_solver].
  - split; [done|]. cbn. intros x Hx. apply list_elem_of_singleton in Hx as ->. set_solver.
Qed.

Lemma cleared_lookup l (results : list (outcome NotSafe Safe)) i pk d :
  zip_with cleared_attestation l results !! i = Some (Some (pk, d)) →
  (∃ dom, l !! i = Some (d, pk, dom, CheckYes)) ∧ results !! i = Some (Ok SafeValid).
Proof.
  rewrite lookup_zip_with. destruct (l !! i) as [[[[d' pk'] dom] c]|]; [|done].
  destruct (results !! i) as [r|]; [|done]. cbn. destruct c, r as [[]| |]; try done.
  intros [= <- <-]. split; [by exists dom|done].
Qed.

Section attestations.
Context (cfg : StoreConfig).
Abbreviation program := (ValidatorStore.program beacon_vote_hash gloas_vote_hash aggregator_data_hash sk_deserialize cfg).
Abbreviation Tok := (PublicKeyBytes * AttestationData)%type.

Fixpoint att_neutral {X} (e : effect X) : bool :=
  match e with CheckAttestations _ => false | Within e => att_neutral e | _ => true end.

(** A permit to publish is earned when the slashing database finds the attestation valid. *)
Definition att_special {X} (T : list Tok) (e : effect X) : (X → list Tok) → Prop :=
  match e in StoreEffects.effect X return (X → list Tok) → Prop with
  | CheckAttestations l => λ F, ∀ r, F r = cleared_attestations l r ++ T
  | _ => λ _, False
  end.
Definition att_call_ok X (T : list Tok) (e : effect X) F : Prop :=
  (att_neutral e = true ∧ ∀ x, F x = T) ∨ att_special T e F.

Lemma att_call_neutral X T (e : effect X) : att_neutral e = true → att_call_ok X T e (λ _, T).
Proof. by left. Qed.
Lemma att_plain X (e : effect X) : plain e = true → att_neutral e = true.
Proof. induction e; cbn; auto; done. Qed.
Hint Resolve att_plain att_call_neutral : core.

Abbreviation aok := (ok att_call_ok).
Abbreviation aquiet := (quiet (λ X, att_neutral (X:=X))).

(** An attestation comes from one of the requests. *)
Definition from_request (reqs : list AttestationToSign) (att : SingleAttestation) (pk : PublicKeyBytes) : Prop :=
  ∃ req, req ∈ reqs ∧ ats_pubkey req = pk ∧ sat_attester_index att = ats_attester_index req ∧
         sat_committee_index att = ats_committee_index req.

Lemma sign_committee_attestations_returns id cluster l :
  returns (sign_committee_attestations beacon_vote_hash gloas_vote_hash sk_deserialize cfg id cluster l)
    (on_ok (λ signed, ∀ att pk, (att, pk) ∈ signed → from_request l.*2 att pk)).
Proof.
  unfold sign_committee_attestations. destruct l as [|[v0 a0] l].
  { intros signed [= <-] att pk Hin. by apply elem_of_nil in Hin. }
  cbv zeta. do 5 (apply returns_async_next; intros ?). apply on_ok_intro. intros att pk Hin.
  apply list_elem_of_omap in Hin as (req & Hreq & Hr). apply list_elem_of_fmap in Hreq as ([v r] & -> & Hin).
  unfold resolve in Hr. cbn [sr_duty_data] in Hr. destruct (ok_or _ _) as [sig| |]; [|done..].
  cbn in Hr. injection Hr as <- <-. exists r. split; [|done]. apply list_elem_of_fmap. by exists (v, r).
Qed.

Context (protection : cfg_disable_slashing_protection cfg = false).

(** What the check lets through holds its permit. *)
Lemma slashing_protection_ok reqs signed :
  (∀ att pk, (att, pk) ∈ signed → from_request reqs att pk) →
  aok [] (slashing_protection_attestations cfg signed)
    (λ T r, ∀ atts att, r = Ok atts → att ∈ atts → ∃ pk, from_request reqs att pk ∧ (pk, sat_data att) ∈ T).
Proof.
  intros Hfrom. unfold slashing_protection_attestations. rewrite protection. cbv zeta.
  set (l := (λ '(attestation, pubkey), _) <$> signed).
  exists [], (λ r, cleared_attestations l r ++ []). split; [done|]. split; [by right|].
  intros r. rewrite app_nil_r. destruct r as [results|e|]; [|by eexists; split; [done|]..].
  eexists. split; [done|]. intros atts att [= <-] Hin.
  apply list_elem_of_omap in Hin as (o & Ho & Hoa). cbn in Hoa. subst o.
  apply list_elem_of_lookup in Ho as [i Hi]. rewrite lookup_zip_with in Hi.
  destruct (signed !! i) as [[att' pk]|] eqn:Hs; [|done]. cbn in Hi.
  destruct (results !! i) as [status|] eqn:Hst; [|done]. cbn in Hi.
  destruct status as [[]| |]; try done. cbn in Hi. injection Hi as ->.
  exists pk. split; [apply Hfrom; by eapply list_elem_of_lookup_2|].
  apply list_elem_of_omap. exists (Some (pk, sat_data att)). split; [|done].
  apply list_elem_of_lookup. exists i. rewrite lookup_zip_with. unfold l. rewrite list_lookup_fmap, Hs. cbn.
  by rewrite Hst.
Qed.

Lemma sign_committee_attestations_quiet' id cluster l :
  aquiet (sign_committee_attestations beacon_vote_hash gloas_vote_hash sk_deserialize cfg id cluster l).
Proof. apply sign_committee_attestations_quiet; auto. Qed.

Lemma sign_attestations_committee_ok reqs id cluster l :
  (∀ x, x ∈ l.*2 → x ∈ reqs) →
  aok [] (sign_attestations_committee beacon_vote_hash gloas_vote_hash sk_deserialize cfg id cluster l)
    (λ T r, ∀ atts att, r = Ok atts → att ∈ atts → ∃ pk, from_request reqs att pk ∧ (pk, sat_data att) ∈ T).
Proof.
  intros Hl. unfold sign_attestations_committee. apply ok_bind.
  eapply ok_mono; [|apply (quiet_returns_ok _ _ att_call_neutral); [apply sign_committee_attestations_quiet'|
    apply sign_committee_attestations_returns]].
  intros T [[|x signed]|e|] [-> Hr]; [by eexists; split; [|intros ?? [= <-] Hin; apply elem_of_nil in Hin]| |
    by eexists; split; [|intros ?? [= <-] Hin; apply elem_of_nil in Hin]|by eexists].
  do 2 (apply (ok_quiet_async _ _ att_call_neutral); [done| |done..]; intros ?).
  apply ok_bind. eapply ok_mono; [|apply (slashing_protection_ok reqs)].
  - intros T r HT. apply (ok_quiet_async _ _ att_call_neutral); [done| |done..]. intros delivered.
    apply (ok_quiet_async _ _ att_call_neutral); [done| |done..]. intros []. by exists T.
  - intros att pk Hin. destruct (Hr _ eq_refl att pk Hin) as (req & Hreq & ? & ? & ?). exists req. auto.
Qed.

Lemma sign_attestations_ok reqs :
  aok [] (sign_attestations beacon_vote_hash gloas_vote_hash sk_deserialize cfg reqs)
    (λ T r, ∀ items atts att, r = Ok items → Ok atts ∈ items → att ∈ atts →
       ∃ pk, from_request reqs att pk ∧ (pk, sat_data att) ∈ T).
Proof.
  unfold sign_attestations. apply (ok_quiet_async _ _ att_call_neutral); [done| |done..]. intros synced.
  destruct synced; cbn [negb].
  2: { eexists. split; [done|]. intros items atts att [= <-] Hin. apply list_elem_of_singleton in Hin. done. }
  apply (ok_quiet_returns _ _ _ _ _ _ _ att_call_neutral
    (group_by_committee_quiet _ att_plain _ _ _) (group_by_committee_returns _ reqs reqs ∅ ltac:(done) (map_Forall_empty _))); [|done|done].
  intros mapping Hm. apply ok_par_iff.
  exists (replicate (length (map_to_list mapping)) []), [],
    (λ T r, ∀ atts att, r = Ok atts → att ∈ atts → ∃ pk, from_request reqs att pk ∧ (pk, sat_data att) ∈ T).
  split; [by induction (length _)|]. split.
  - apply Forall2_fmap_r, Forall2_replicate_l; [done|]. apply Forall_forall. intros [id [cluster l]] Hin.
    apply sign_attestations_committee_ok. apply elem_of_map_to_list in Hin. by apply Hm in Hin as [_ Hin].
  - intros Ts' xs Hxs. eexists. split; [done|]. intros items atts att [= <-] Hin Hatt.
    apply list_elem_of_lookup in Hin as [i Hi]. destruct (Forall2_lookup_r _ _ _ _ _ Hxs Hi) as (T & HT & HQ).
    destruct (HQ atts att eq_refl Hatt) as (pk & Hpk & Hin). exists pk. split; [done|].
    rewrite app_nil_r. apply list_elem_of_In, in_concat. exists T. split; [|by apply list_elem_of_In].
    apply list_elem_of_In. by eapply list_elem_of_lookup_2.
Qed.

Definition att_post (op : Operation) (T : list Tok) (res : OpResult) : Prop :=
  ∀ reqs items atts att, op = OpSignAttestations reqs →
    res = ResAttestations (Ok items) → Ok atts ∈ items → att ∈ atts →
    ∃ pk, from_request reqs att pk ∧ (pk, sat_data att) ∈ T.

Lemma att_program_ok op : aok [] (program op) (att_post op).
Proof.
  destruct (is_block op) eqn:Hb; [|destruct (is_vote op) eqn:Hv].
  - destruct op; try done. cbn [ValidatorStore.program]. unfold returning. apply (ok_quiet_bind _ _ att_call_neutral).
    + apply sign_block_quiet; auto.
    + intros r. by eexists.
  - destruct op; try done; cbn [ValidatorStore.program]; unfold returning.
    + apply (ok_quiet_bind _ _ att_call_neutral); [apply sign_sync_messages_quiet; auto|]. intros r. by eexists.
    + apply ok_bind. eapply ok_mono; [|apply sign_attestations_ok]. intros T r HT. exists T. split; [done|].
      intros reqs items atts att [= <-] [= ->]. by apply HT.
  - eapply ok_mono; [|apply (quiet_ok _ _ att_call_neutral), other_program_quiet; auto].
    intros T r _ reqs items atts att ->. done.
Qed.

(** ** The invariant: what was cleared is protected, and no two of a validator clash *)

Context {Laws : SlashingLaws}.

Definition att_inv (m : Machine) (T : list Tok) : Prop :=
  let log := cleared_log (mc_log m) in
  T ⊆ log ∧ StronglySorted compatible log ∧ Forall (λ a, protects (mc_slashing m) a.1 a.2) log.

Lemma att_inv_perm m T T' : T ≡ₚ T' → att_inv m T → att_inv m T'.
Proof. intros Hp (H1 & H2 & H3). split; [|done]. intros x Hx. apply H1. by rewrite Hp. Qed.

Lemma att_inv_step m m' T evs :
  cleared_log evs = [] → mc_log m' = mc_log m ++ evs →
  (mc_slashing m' = mc_slashing m ∨ slashing_step (mc_slashing m) (mc_slashing m')) →
  att_inv m T → att_inv m' T.
Proof.
  intros He Hl Hs (H1 & H2 & H3). unfold att_inv, cleared_log. rewrite Hl, omap_app.
  unfold cleared_log in He. rewrite He, app_nil_r. split; [done|]. split; [done|].
  eapply Forall_impl; [exact H3|]. intros a Ha. destruct Hs as [->|Hs]; [done|]. by eapply protects_step.
Qed.

Lemma att_silent X (e : effect X) ev : att_neutral e = true → may_emit e ev → event_attestation ev = None.
Proof. induction e; destruct ev; cbn; intros Hn Hm; try done; auto. Qed.

Lemma att_neutral_inv X (e : effect X) h m x m' T :
  att_neutral e = true → att_inv m T → respond h m e = Some (x, m') → att_inv m' T.
Proof.
  intros Hn HI Hr. apply respond_frame in Hr as (evs & Hl & He & Hs).
  eapply att_inv_step; [|exact Hl|exact Hs|exact HI]. eapply quiet_view; [|exact He].
  intros ev. by apply att_silent.
Qed.

(** What a batch clears is compatible with what was cleared before, and within itself. *)
Lemma cleared_batch db l results db' old :
  check_and_insert_attestations db l = (Ok results, db') →
  StronglySorted compatible old → Forall (λ a, protects db a.1 a.2) old →
  let new := cleared_attestations l (Ok results) in
  StronglySorted compatible (old ++ new) ∧ Forall (λ a, protects db' a.1 a.2) (old ++ new).
Proof.
  intros Hc Hs Hp new.
  assert (slashing_step db db') as Hstep.
  { pose proof (step_attestations db l) as Hst. by rewrite Hc in Hst. }
  assert (∀ a, a ∈ new → protects db' a.1 a.2 ∧ ∀ d', protects db a.1 d' → ¬ slashable_pair a.2 d') as Hnew.
  { intros [pk d] Hin. apply list_elem_of_omap in Hin as (o & Ho & Hoa). cbn in Hoa. subst o.
    apply list_elem_of_lookup in Ho as [i Hi]. apply cleared_lookup in Hi as [[dom Hi] Hr].
    by destruct (attestation_valid _ _ _ _ _ _ _ _ Hc Hi Hr) as (? & ? & _). }
  split.
  - apply StronglySorted_app_2; [|done|].
    + intros x1 x2 H1 H2 He. rewrite Forall_forall in Hp. apply Hp in H1. apply Hnew in H2 as [_ H2].
      apply H2. by rewrite <- He.
    + apply omap_id_sorted. intros i j [pk1 d1] [pk2 d2] Hij Hi Hj He. cbn in He. subst pk2.
      apply cleared_lookup in Hi as [[dom1 Hi] Hri]. apply cleared_lookup in Hj as [[dom2 Hj] Hrj].
      destruct (attestation_valid _ _ _ _ _ _ _ _ Hc Hj Hrj) as (_ & _ & Hb). by eapply Hb.
  - apply Forall_app. split.
    + eapply Forall_impl; [exact Hp|]. intros a Ha. by eapply protects_step.
    + apply Forall_forall. intros a Ha. by apply Hnew in Ha as [? _].
Qed.

Lemma cleared_log_batch (l : list Tok) :
  cleared_log ((λ x, EvAttestationCleared x.1 x.2) <$> l) = l.
Proof. unfold cleared_log. induction l as [|[pk d] l IH]; [done|]. cbn. by f_equal. Qed.

Lemma att_inv_call X T (e : effect X) F R h m x m' :
  att_call_ok X T e F → att_inv m (T ++ R) → respond h m e = Some (x, m') → att_inv m' (F x ++ R).
Proof.
  intros [[Hn HF]|Hs] HI Hr; [rewrite HF; by eapply att_neutral_inv|].
  destruct e; try done; cbn in Hs, Hr.
  destruct (check_and_insert_attestations _ l) as [r db] eqn:Hc. injection Hr as <- <-. rewrite Hs.
  destruct HI as (H1 & H2 & H3).
  set (evs := _ <$> cleared_attestations l r).
  assert (cleared_log (mc_log (emit evs (m <| mc_slashing := db |>)))
          = cleared_log (mc_log m) ++ cleared_attestations l r) as Hlog.
  { etransitivity; [apply omap_app|]. f_equal. apply cleared_log_batch. }
  unfold att_inv. cbv zeta. rewrite Hlog.
  change (mc_slashing (emit evs (m <| mc_slashing := db |>))) with db.
  split; [set_solver|]. destruct r as [results|e|]; [by eapply cleared_batch|..]; cbn [cleared_attestations];
    rewrite app_nil_r; (split; [done|]); (eapply Forall_impl; [exact H3|]); intros a Ha;
    (eapply protects_step; [|exact Ha]); pose proof (step_attestations (mc_slashing m) l) as Hst; by rewrite Hc in Hst.
Qed.

(** C9: with slashing protection on and a slashing database that keeps its promise
    ([SlashingLaws]), whatever operations run interleaved, every attestation
    that a finished [sign_attestations] hands out answers one of its requests, and the
    slashing database found exactly its data valid for the requesting validator; and of all
    that was ever found valid no two attestations of one validator are slashable together. *)
Theorem attestations_not_slashable m0 pool :
  mc_log m0 = [] → reachable beacon_vote_hash gloas_vote_hash program m0 pool →
  let log := cleared_log (mc_log (pool_machine pool)) in
  StronglySorted compatible log ∧
  ∀ reqs items atts att,
    (OpSignAttestations reqs, Ret (ResAttestations (Ok items))) ∈ pool_threads pool →
    Ok atts ∈ items → att ∈ atts → ∃ pk, from_request reqs att pk ∧ (pk, sat_data att) ∈ log.
Proof.
  intros H0 Hr. cbv zeta.
  destruct (protocol_sound _ _ program att_call_ok att_inv att_inv_perm att_inv_call) with
    (Q := att_post) (m0 := m0) (pool := pool) as (Ts & Hts & H1 & H2 & _);
    [done|apply att_program_ok|unfold att_inv; rewrite H0; by repeat constructor|done|].
  split; [done|]. intros reqs items atts att Hin Hitem Hatt.
  apply list_elem_of_lookup in Hin as [i Hi]. destruct (Forall2_lookup_r _ _ _ _ _ Hts Hi) as (T & HT & Hok).
  destruct Hok as (T0 & Hp & HQ). destruct (HQ reqs items atts att) as (pk & Hpk & Hin); [done..|].
  exists pk. split; [done|]. apply H1. apply list_elem_of_In, in_concat. exists T.
  split; apply list_elem_of_In; [by eapply list_elem_of_lookup_2|by rewrite Hp].
Qed.
End attestations.

(** ** The votes of a committee follow one decision *)

(** The committee, slot and requester of a request for the signature on a committee's vote:
    an attestation or a sync committee message. *)
Definition vote_key (call : SignCall) : option (CommitteeId * Slot * SignatureRequester) :=
  match call with
  | CallSignAndCollect metadata requester _ =>
      if bool_decide (md_kind metadata = PartialSignatureKind.PostConsensus)
         && bool_decide (md_role metadata = Role.Committee)
      then Some (md_committee_id metadata, md_slot metadata, requester) else None
  | CallSignProposerPacket _ _ _ _ => None
  end.

Definition context_slot (vc : VotingContext) : Slot := va_slot (vc_voting_assignments vc).
Abbreviation vote_hash := (qbft_hash beacon_vote_hash gloas_vote_hash).

Section committee_votes.
Context (cfg : StoreConfig).
Abbreviation program := (ValidatorStore.program beacon_vote_hash gloas_vote_hash aggregator_data_hash sk_deserialize cfg).

(** Knowing a context that was published, and a vote remembered under it. *)
Inductive VotePermit :=
  | KnowsContext (vc : VotingContext)
  | KnowsVote (vc : VotingContext) (committee_id : CommitteeId) (vote : SlotVote).

Fixpoint vote_neutral {X} (e : effect X) : bool :=
  match e with
  | WaitVotingContext _ | RememberVote _ _ _ => false
  | Sign call => match vote_key call with Some _ => false | None => true end
  | Within e => vote_neutral e
  | _ => true
  end.

Definition vote_special {X} (T : list VotePermit) (e : effect X) : (X → list VotePermit) → Prop :=
  match e in StoreEffects.effect X return (X → list VotePermit) → Prop with
  | WaitVotingContext slot => λ F,
      ∀ r, F r ⊆ match r with Some vc => KnowsContext vc :: T | None => T end
  | RememberVote vc id vote => λ F,
      KnowsContext vc ∈ T ∧ ∀ r, F r ⊆ match r with Ok _ => KnowsVote vc id vote :: T | _ => T end
  | Sign call => λ F,
      (∃ n vc id vote, vote_key call = Some (id, context_slot vc, Committee n (vote_hash vote)) ∧
                       KnowsVote vc id vote ∈ T) ∧ F tt ⊆ T
  | _ => λ _, False
  end.
Definition vote_call_ok X (T : list VotePermit) (e : effect X) F : Prop :=
  (vote_neutral e = true ∧ ∀ x, F x = T) ∨ vote_special T e F.

Lemma vote_call_neutral X T (e : effect X) : vote_neutral e = true → vote_call_ok X T e (λ _, T).
Proof. by left. Qed.

Abbreviation vok := (ok vote_call_ok).
Abbreviation vquiet := (quiet (λ X, vote_neutral (X:=X))).

Lemma vote_plain X (e : effect X) : plain e = true → vote_neutral e = true.
Proof. induction e; cbn; auto; done. Qed.
Lemma vote_other md r d : other_kind (md_kind md) (md_role md) = true →
  vote_neutral (Sign (CallSignAndCollect md r d)) = true.
Proof.
  unfold other_kind. cbn. intros Ho. destruct (bool_decide (md_kind md = _)); [|done]. cbn in *.
  destruct (bool_decide (md_role md = Role.Committee)); [|done]. by rewrite orb_true_r in Ho.
Qed.
Hint Resolve vote_plain vote_other vote_call_neutral : core.

Lemma get_voting_context_ok slot :
  vok [] (get_voting_context slot)
    (λ T r, ∀ vc, r = Ok vc → T = [KnowsContext vc] ∧ context_slot vc = slot).
Proof.
  unfold get_voting_context. exists [], (λ r, match r with Some vc => [KnowsContext vc] | None => [] end).
  split; [done|]. split; [right; by intros []|]. intros [vc|]; [|by eexists].
  cbv beta iota delta [mbind async_bind]. cbn [prog_bind].
  destruct (N.eqb_spec (va_slot (vc_voting_assignments vc)) slot) as [<-|]; [|by eexists].
  eexists. split; [done|]. by intros ? [= <-].
Qed.

(** A decision is signed only when it is the one remembered. *)
Lemma decide_committee_vote_ok n id slot vc committees members :
  vok [KnowsContext vc] (decide_committee_vote beacon_vote_hash gloas_vote_hash cfg id slot vc committees members)
    (λ T r, ∀ d, r = Ok d → ∃ vote, T = replicate n (KnowsVote vc id vote) ∧ dv_decided_hash d = vote_hash vote).
Proof.
  unfold decide_committee_vote. cbv zeta.
  apply (ok_quiet_async _ _ vote_call_neutral); [apply instant_in_slot_quiet; auto| |done..]. intros origin.
  apply (ok_quiet_async _ _ vote_call_neutral); [| |done..].
  - destruct (vc_vote vc); (split; [done|]); intros r; apply quiet_async_bind; try done; apply completed_quiet.
  - intros vote. apply ok_async_bind.
    exists [KnowsContext vc], (λ r, match r with Ok _ => replicate n (KnowsVote vc id vote) | _ => [] end).
    split; [done|]. split.
    + right. split; [by left|]. intros [[]|e|]; [|set_solver..]. intros t Ht.
      apply elem_of_replicate_inv in Ht as ->. by left.
    + intros [[]|e|]; [|by eexists; split; [|eexists]..]. eexists. split; [done|]. eexists. split; [done|].
      intros d [= <-]. by exists vote.
Qed.

Lemma collect_vote_ok n vc vote validator cluster root :
  vok [KnowsVote vc (cluster_committee_id cluster) vote]
    (collect_signature sk_deserialize cfg PartialSignatureKind.PostConsensus Role.Committee
       (ModeCommittee n (vote_hash vote)) validator cluster root (context_slot vc)) (λ _ _, True).
Proof.
  unfold collect_signature. cbn [requester_of].
  destruct (signature_metadata _ _ cluster _) as [md|e|] eqn:Hm; [|by eexists..].
  apply bind_ok in Hm as (t & _ & [= <-]). change (sync (Ok ?a) ≫= ?f) with (f a). cbv beta zeta.
  apply (ok_quiet_async _ _ vote_call_neutral); [apply validator_signing_data_quiet, vote_plain| |done..].
  intros data. set (p := KnowsVote _ _ _). exists [p], (λ _, [p]). split; [done|]. split.
  - right. split; [|done]. exists n, vc, (cluster_committee_id cluster), vote. split; [done|by left].
  - intros []. eapply ok_mono; [|apply (quiet_ok _ _ vote_call_neutral)]; [done|]. split; [done|]. by intros [].
Qed.

Lemma omap_length_le {A B} (f : A → option B) (l : list A) : length (omap f l) ≤ length l.
Proof. induction l as [|x l IH]; [done|]. cbn. destruct (f x); cbn; lia. Qed.

Lemma collect_prepared_ok {D} k n vc vote cluster (prepared : list (SigningRequest D)) :
  length prepared = k →
  vok (replicate k (KnowsVote vc (cluster_committee_id cluster) vote))
    (collect_prepared_signatures sk_deserialize cfg Role.Committee (context_slot vc) cluster n (vote_hash vote) prepared)
    (λ _ _, True).
Proof.
  intros Hk. unfold collect_prepared_signatures. cbv zeta. set (p := KnowsVote _ _ _).
  apply (ok_bind _ _ _ (λ r, match r with Ok results => _ | Err e => _ | Panic => _ end)).
  set (ps := omap _ prepared).
  assert (length ps ≤ k) as Hl by (subst k; apply omap_length_le).
  apply ok_par_iff. exists (replicate (length ps) [p]), (replicate (k - length ps) p), (λ _ _, True).
  split; [|split].
  - assert (concat (replicate (length ps) [p]) = replicate (length ps) p) as -> by (clear; by induction (length ps); cbn; f_equal).
    rewrite <- replicate_add. by replace (length ps + (k - length ps)) with k by lia.
  - apply Forall2_replicate_l; [done|]. apply Forall_forall. intros q Hq.
    apply list_elem_of_omap in Hq as (item & _ & Hq). apply bind_Some in Hq as (index & _ & [= <-]).
    apply ok_bind. eapply ok_mono; [|apply collect_vote_ok]. by intros T r _; eexists.
  - intros Ts' xs _. eexists. split; [done|]. by eexists.
Qed.

(** From the context to the requests of one committee. *)
Lemma committee_requests_ok {D A : Type} (slot : Slot) (id : CommitteeId) (cluster : Cluster) (members : list OperatorId) (k : nat)
    (committees : VotingContext → async (gmap PublicKeyBytes N))
    (prepare : DecidedVote → list (SigningRequest D)) (batch : VotingContext → async nat)
    (rest : VotingContext → DecidedVote → gmap (N * N) BlsSignature → async A) :
  cluster_committee_id cluster = id → (∀ d, length (prepare d) = k) →
  (∀ vc, vquiet (committees vc)) → (∀ vc, vquiet (batch vc)) → (∀ vc d s, vquiet (rest vc d s)) →
  vok [] (voting_context ← get_voting_context slot;
          committees ← committees voting_context;
          decided ← decide_committee_vote beacon_vote_hash gloas_vote_hash cfg id slot voting_context committees members;
          batch_size ← batch voting_context;
          signatures ← collect_prepared_signatures sk_deserialize cfg Role.Committee slot cluster batch_size
                         (dv_decided_hash decided) (prepare decided);
          rest voting_context decided signatures) (λ _ _, True).
Proof.
  intros <- Hk Hc Hb Hr. apply ok_async_bind. eapply ok_mono; [|apply get_voting_context_ok].
  intros T [vc|e|] HT; [|by eexists..]. destruct (HT vc eq_refl) as [-> <-].
  apply (ok_quiet_async _ _ vote_call_neutral); [done| |done..]. intros cs.
  apply ok_async_bind. eapply ok_mono; [|apply (decide_committee_vote_ok k)].
  intros T [d|e|] Hd; [|by eexists..]. destruct (Hd d eq_refl) as (vote & -> & Hh). rewrite Hh.
  apply (ok_quiet_async _ _ vote_call_neutral); [done| |done..]. intros n.
  apply ok_async_bind. eapply ok_mono; [|by apply collect_prepared_ok].
  intros T [s|e|] _; [|by eexists..]. eapply ok_mono; [|by apply (quiet_ok _ _ vote_call_neutral)]. done.
Qed.

Lemma sign_committee_sync_ok id cluster l :
  cluster_committee_id cluster = id →
  vok [] (sign_committee_sync_committee_signatures beacon_vote_hash gloas_vote_hash sk_deserialize cfg id cluster l) (λ _ _, True).
Proof.
  intros Hid. unfold sign_committee_sync_committee_signatures. destruct l as [|[v0 a0] l]; [by eexists|]. cbv zeta.
  set (all := (v0, a0) :: l).
  apply (committee_requests_ok (sms_slot a0) id cluster (cl_cluster_members cluster) (length all)
    (λ vc, read _) (λ d, _ <$> all) (λ vc, voting_batch_size id (vc_voting_assignments vc)) (λ vc d s, _)); try done.
  intros d. apply length_fmap.
Qed.

Lemma sign_committee_attestations_ok id cluster l :
  cluster_committee_id cluster = id →
  vok [] (sign_committee_attestations beacon_vote_hash gloas_vote_hash sk_deserialize cfg id cluster l) (λ _ _, True).
Proof.
  intros Hid. unfold sign_committee_attestations. destruct l as [|[v0 a0] l]; [by eexists|]. cbv zeta.
  set (all := (v0, a0) :: l).
  apply (committee_requests_ok (ad_slot (ats_data a0)) id cluster (cl_cluster_members cluster) (length all)
    (λ vc, read _) (λ d, _ <$> all) (λ vc, voting_batch_size id (vc_voting_assignments vc)) (λ vc d s, _)); try done.
  intros d. apply length_fmap.
Qed.

(** Committees side by side, each with its own permits. *)
Lemma par_committees_ok {I X : Type} (mapping : gmap CommitteeId (Cluster * list (ValidatorMetadata * I))) (f : CommitteeId * (Cluster * list (ValidatorMetadata * I)) → prog X) :
  (∀ id cluster l, mapping !! id = Some (cluster, l) → vok [] (f (id, (cluster, l))) (λ _ _, True)) →
  vok [] (par (f <$> map_to_list mapping)) (λ _ _, True).
Proof.
  intros Hf. apply ok_par_iff. exists (replicate (length (map_to_list mapping)) []), [], (λ _ _, True).
  split; [by induction (length _)|]. split; [|by intros Ts' xs _; eexists].
  apply Forall2_fmap_r, Forall2_replicate_l; [done|]. apply Forall_forall. intros [id [cluster l]] Hin.
  apply Hf. by apply elem_of_map_to_list in Hin.
Qed.

Lemma grouped_ok {I X : Type} (get_pubkey : I → PublicKeyBytes) (items : list I) (f : CommitteeId * (Cluster * list (ValidatorMetadata * I)) → prog X) :
  (∀ id cluster l, cluster_committee_id cluster = id → vok [] (f (id, (cluster, l))) (λ _ _, True)) →
  vok [] (mapping ← group_by_committee get_pubkey items ∅; par (f <$> map_to_list mapping)) (λ _ _, True).
Proof.
  intros Hf.
  apply (ok_quiet_returns _ _ _ _ _ _ _ vote_call_neutral (group_by_committee_quiet _ vote_plain _ _ _)
    (group_by_committee_returns _ items items ∅ ltac:(done) (map_Forall_empty _))); [|done|done].
  intros mapping Hm. apply par_committees_ok. intros id cluster l Hl. apply Hm in Hl as [Hc _]. by apply Hf.
Qed.

Lemma vote_program_ok op : vok [] (program op) (λ _ _, True).
Proof.
  destruct (is_block op) eqn:Hb; [|destruct (is_vote op) eqn:Hv].
  - destruct op; try done. cbn [ValidatorStore.program]. unfold returning. apply (ok_quiet_bind _ _ vote_call_neutral).
    + apply sign_block_quiet; auto. intros md r d Hr. cbn. rewrite Hr. by destruct (bool_decide (md_kind md = _)).
    + intros r. by eexists.
  - destruct op; try done; cbn [ValidatorStore.program]; unfold returning; apply ok_bind;
      apply (ok_mono _ _ _ (λ _ _, True)); try (by intros T r _; eexists).
    + unfold sign_sync_committee_signatures. apply grouped_ok. intros id cluster l Hid. unfold run_committee_signing.
      apply ok_bind. eapply ok_mono; [|by apply sign_committee_sync_ok]. by intros T [] _; eexists.
    + unfold sign_attestations. apply (ok_quiet_async _ _ vote_call_neutral); [done| |done..].
      intros synced. destruct (negb synced); [by eexists|]. apply grouped_ok. intros id cluster l Hid.
      unfold sign_attestations_committee. apply ok_bind. eapply ok_mono; [|by apply sign_committee_attestations_ok].
      intros T r _. apply (ok_mono _ _ _ (λ T' _, T' = T)); [done|]. apply (quiet_ok _ _ vote_call_neutral).
      destruct r as [[|x signed]|e|]; try done. repeat (split; [done|]; intros []); by repeat (split; [done|]; intros []).
  - apply (ok_mono _ _ _ (λ T' _, T' = [])); [done|].
    apply (quiet_ok _ _ vote_call_neutral), other_program_quiet; auto.
Qed.

(** ** The invariant: what is signed was remembered under a published context *)

Definition remembered (m : Machine) (vc : VotingContext) (id : CommitteeId) : option SlotVote :=
  default ∅ (mc_decided_votes m !! vc_id vc) !! id.
Definition known (m : Machine) (t : VotePermit) : Prop :=
  match t with
  | KnowsContext vc => EvContext vc ∈ mc_log m
  | KnowsVote vc id vote => EvContext vc ∈ mc_log m ∧ remembered m vc id = Some vote
  end.

(** The request is made with a vote remembered under a context published for its slot. *)
Definition justified (m : Machine) (key : CommitteeId * Slot * SignatureRequester) : Prop :=
  ∃ n vc vote, known m (KnowsVote vc key.1.1 vote) ∧ context_slot vc = key.1.2 ∧ key.2 = Committee n (vote_hash vote).

Definition event_vote_key (ev : Event) : option (CommitteeId * Slot * SignatureRequester) :=
  match ev with EvSign call => vote_key call | _ => None end.
Definition vote_requests (log : list Event) := omap event_vote_key log.

Record vote_inv (m : Machine) (T : list VotePermit) : Prop := {
  vi_current vc : mc_voting_context m = Some vc → EvContext vc ∈ mc_log m;
  vi_permits : Forall (known m) T;
  vi_requests : Forall (justified m) (vote_requests (mc_log m));
}.

Lemma vote_inv_perm m T T' : T ≡ₚ T' → vote_inv m T → vote_inv m T'.
Proof. intros Hp []. split; [done..|by rewrite <- Hp|done]. Qed.

(** What is known stays known. *)
Definition extends (m m' : Machine) : Prop :=
  mc_log m ⊆ mc_log m' ∧ ∀ vc id vote, remembered m vc id = Some vote → remembered m' vc id = Some vote.
Lemma known_extends m m' t : extends m m' → known m t → known m' t.
Proof. intros [Hl Hv]. destruct t; cbn; [apply Hl|]. intros []. auto. Qed.
Lemma justified_extends m m' key : extends m m' → justified m key → justified m' key.
Proof. intros He (n & vc & vote & Hk & ? & ?). exists n, vc, vote. split; [by eapply known_extends|done]. Qed.

Lemma vote_inv_extends m m' T T' evs :
  vote_inv m T → extends m m' → mc_log m' = mc_log m ++ evs →
  (mc_voting_context m' = mc_voting_context m ∨ ∃ vc, mc_voting_context m' = Some vc ∧ EvContext vc ∈ evs) →
  Forall (known m') T' → Forall (justified m') (vote_requests evs) → vote_inv m' T'.
Proof.
  intros [H2 H3 H4] He Hl Hc Ht Hj. split.
  - intros vc Hvc. rewrite Hl, elem_of_app. destruct Hc as [Hc|(vc' & Hc & Hin)]; [left; apply H2; congruence|].
    right. by replace vc with vc' by congruence.
  - done.
  - unfold vote_requests. rewrite Hl, omap_app. apply Forall_app. split; [|done].
    eapply Forall_impl; [exact H4|]. intros key. by apply justified_extends.
Qed.

(** A neutral call leaves the contexts and votes as they are, or publishes a context. *)
Lemma respond_voting X (e : effect X) : ∀ h m x m',
  vote_neutral e = true → respond h m e = Some (x, m') →
  mc_decided_votes m' = mc_decided_votes m ∧
  (mc_voting_context m' = mc_voting_context m ∨ ∃ vc, m' = publish_context vc m).
Proof.
  induction e; intros h m x0 m' Hn Hr; cbn in Hr, Hn; try done;
    try (injection Hr as <- <-; by auto); try (injection Hr as <- <-; by eauto).
  - destruct (f _) as [y mem]. injection Hr as <- <-. by auto.
  - destruct (check_and_insert_block_proposal _ pubkey header domain) as [r db]. injection Hr as <- <-. by auto.
  - destruct (check_and_insert_attestations _ l) as [r db]. injection Hr as <- <-. by auto.
  - destruct (prune_all_signed_attestations _ pubkeys epoch) as [r db]. injection Hr as <- <-. by auto.
  - destruct (prune_all_signed_blocks _ pubkeys slot) as [r db]. injection Hr as <- <-. by auto.
  - destruct (h_channel_closed h); [injection Hr as <- <-; by auto|]. destruct (f _); [|done]. injection Hr as <- <-. by auto.
  - destruct (h_elapsed h); [injection Hr as <- <-; by auto|].
    destruct (respond h m e) as [[y m1]|] eqn:He; [|done]. injection Hr as <- <-. by eapply IHe.
Qed.

Lemma vote_silent X (e : effect X) ev : vote_neutral e = true → may_emit e ev → event_vote_key ev = None.
Proof. induction e; destruct ev; cbn; intros Hn Hm; try done; auto. subst call0. by destruct (vote_key call). Qed.

Lemma vote_neutral_inv X (e : effect X) h m x m' T :
  vote_neutral e = true → vote_inv m T → respond h m e = Some (x, m') → vote_inv m' T.
Proof.
  intros Hn HI Hr. destruct (respond_voting _ _ _ _ _ _ Hn Hr) as [Hv Hc].
  apply respond_frame in Hr as (evs & Hl & He & _).
  assert (extends m m') as Hx.
  { split; [rewrite Hl; set_solver|]. intros vc id vote. unfold remembered. by rewrite Hv. }
  eapply vote_inv_extends; [exact HI|exact Hx|exact Hl| | |].
  - destruct Hc as [Hc|[vc ->]]; [by left|right]. eexists. split; [reflexivity|].
    cbn in Hl. apply app_inv_head in Hl as <-. by left.
  - eapply Forall_impl; [apply HI|]. intros t. by apply known_extends.
  - unfold vote_requests. erewrite quiet_view; [constructor| |exact He]. intros ev. by apply vote_silent.
Qed.

Lemma vote_inv_weaken m T T' : T' ⊆ T → vote_inv m T → vote_inv m T'.
Proof.
  intros Hs [H1 H2 H3]. split; [done| |done]. rewrite Forall_forall in *. auto.
Qed.

(** The first vote of a committee is kept. *)
Lemma remember_keeps vc id vote votes r votes' :
  remember_decided_vote beacon_vote_hash gloas_vote_hash vc id vote votes = (r, votes') →
  votes ⊆ votes' ∧ (r = Ok tt → votes' !! id = Some vote).
Proof.
  unfold remember_decided_vote. destruct (votes !! id) as [existing|] eqn:He; [case_decide; subst|]; intros [= <- <-].
  - done.
  - by split.
  - split; [by apply insert_subseteq|]. by rewrite lookup_insert_eq.
Qed.

Lemma remember_extends m vc id vote r m' :
  remember beacon_vote_hash gloas_vote_hash vc id vote m = (r, m') →
  extends m m' ∧ mc_log m' = mc_log m ∧ mc_voting_context m' = mc_voting_context m ∧
  (r = Ok tt → remembered m' vc id = Some vote).
Proof.
  unfold remember. destruct (remember_decided_vote _ _ _ _ _ _) as [r' votes] eqn:Hr. intros [= -> <-].
  apply remember_keeps in Hr as [Hs Hv]. split; [|split; [done|split; [done|]]].
  - split; [done|]. intros vc' id' vote'. unfold remembered. cbn.
    destruct (decide (vc_id vc' = vc_id vc)) as [->|]; [|by rewrite lookup_insert_ne].
    rewrite lookup_insert_eq. intros Hi. by eapply lookup_weaken.
  - unfold remembered. cbn. by rewrite lookup_insert_eq.
Qed.

Lemma vote_inv_call X T (e : effect X) F R h m x m' :
  vote_call_ok X T e F → vote_inv m (T ++ R) → respond h m e = Some (x, m') → vote_inv m' (F x ++ R).
Proof.
  intros [[Hn HF]|Hs] HI Hr; [rewrite HF; by eapply vote_neutral_inv|].
  destruct e; try done; cbn in Hs, Hr.
  - destruct Hs as [Hk HF]. destruct (remember _ _ _ _ _ m) as [r m1] eqn:Hm. injection Hr as <- <-.
    apply remember_extends in Hm as (Hx & Hl & Hc & Hv).
    apply (vote_inv_weaken _ (match r with Ok _ => KnowsVote vc committee_id vote :: T | _ => T end ++ R));
      [specialize (HF r); set_solver|].
    assert (Forall (known m1) (T ++ R)) as Ht.
    { eapply Forall_impl; [apply HI|]. intros t. by apply known_extends. }
    eapply (vote_inv_extends m _ _ _ []); [exact HI|exact Hx|by rewrite app_nil_r|by left| |constructor].
    destruct r as [[]|e|]; [|done..]. constructor; [|done]. split; [|by apply Hv].
    apply Forall_app in Ht as [Ht _]. rewrite Forall_forall in Ht. by apply Ht in Hk.
  - destruct Hs as [(n & vc & id & vote & Hkey & Hin) HF]. injection Hr as <- <-.
    assert (extends m (emit [EvSign call] m)) as Hx by (split; [cbn; set_solver|done]).
    assert (Forall (known (emit [EvSign call] m)) (T ++ R)) as Ht.
    { eapply Forall_impl; [apply HI|]. intros t. by apply known_extends. }
    apply (vote_inv_weaken _ (T ++ R)); [set_solver|].
    eapply (vote_inv_extends m _ _ _ [EvSign call]); [exact HI|exact Hx|done|by left|done|].
    unfold vote_requests. cbn. rewrite Hkey. cbn. constructor; [|constructor].
    exists n, vc, vote. split; [|done]. rewrite Forall_forall in Ht. apply Ht, elem_of_app. by left.
  - destruct (h_channel_closed h); [injection Hr as <- <-; apply (vote_inv_weaken _ (T ++ R)); [specialize (Hs None); set_solver|done]|].
    destruct (for_slot _ _ _) as [vc|] eqn:Hf; [|done]. injection Hr as <- <-.
    apply (vote_inv_weaken _ (KnowsContext vc :: T ++ R)); [specialize (Hs (Some vc)); set_solver|].
    destruct HI as [H1 H2 H3]. split; [done| |done]. constructor; [|done]. apply H1.
    apply bind_Some in Hf as (vc' & Hvc & Hif). destruct (_ <=? _)%N; [|done]. by injection Hif as <-.
Qed.

(** C10: whatever operations run interleaved, every request for the signature on a committee's
    vote, an attestation or a sync committee message, carries the hash of a vote remembered
    for that committee under a voting context published for that slot; when one context was
    published for a slot, all these requests of a committee and slot carry one hash, so
    that a committee never signs two decisions for a slot. *)
Theorem committee_votes_agree m0 pool :
  mc_log m0 = [] → mc_voting_context m0 = None →
  reachable beacon_vote_hash gloas_vote_hash program m0 pool →
  let m := pool_machine pool in
  Forall (justified m) (vote_requests (mc_log m)) ∧
  ∀ id slot r1 r2,
    (∀ vc1 vc2, EvContext vc1 ∈ mc_log m → EvContext vc2 ∈ mc_log m →
       context_slot vc1 = slot → context_slot vc2 = slot → vc1 = vc2) →
    (id, slot, r1) ∈ vote_requests (mc_log m) → (id, slot, r2) ∈ vote_requests (mc_log m) →
    ∃ n1 n2 hash, r1 = Committee n1 hash ∧ r2 = Committee n2 hash.
Proof.
  intros H0 Hc Hr. cbv zeta.
  destruct (protocol_sound _ _ program vote_call_ok vote_inv vote_inv_perm vote_inv_call) with
    (Q := λ (_ : Operation) (_ : list VotePermit) (_ : OpResult), True) (m0 := m0) (pool := pool)
    as (Ts & _ & [_ _ H3]).
  - intros m T network synced [H1 H2 H3]. by split.
  - apply vote_program_ok.
  - split; rewrite ?H0, ?Hc; by repeat constructor.
  - done.
  - split; [done|]. intros id slot r1 r2 Hu Hr1 Hr2. rewrite Forall_forall in H3.
    destruct (H3 _ Hr1) as (n1 & vc1 & v1 & [Hl1 Hv1] & Hs1 & Hq1).
    destruct (H3 _ Hr2) as (n2 & vc2 & v2 & [Hl2 Hv2] & Hs2 & Hq2). cbn in *.
    assert (vc1 = vc2) as -> by (by apply Hu). assert (v1 = v2) as -> by congruence. eauto.
Qed.
End committee_votes.
End safety.

(** ** A run

    One validator attests and sends a sync committee message under one published context,
    proposes two blocks, and asks again for the first. *)

Module SampleSafety.
Export SamplePostConsensus.
Import SampleSlashing.

Definition cfg : StoreConfig := {|
  cfg_disable_slashing_protection := false;
  cfg_spec := {| bs_fork_name_at_epoch _ := ForkName.Electra; bs_get_domain _ _ _ := 0%N |};
  cfg_duty_spec := {| slot_duration := 12000; attestation_due _ := 4000; aggregate_attestation_due _ := 8000;
                      contribution_message_due _ := 8000; payload_due := 9000;
                      builder_application_domain := 0; request_auth_domain := 0 |}%N;
  cfg_slots_per_epoch := 32;
  cfg_sync_committee_subnet_count := 4;
  cfg_genesis_validators_root := 0;
  cfg_private_decrypt := None;
  cfg_fork_schedule := mkForkSchedule ∅ "sample";
  cfg_gas_limit := 0;
  cfg_builder_boost_factor := None;
  cfg_prefer_builder_proposals := false;
  cfg_proposer_delays := mkProposerDelays 0 0;
  cfg_proposer_round_timeout := 1000;
  cfg_strict_mfp := false;
  cfg_start_of := λ slot, Some (slot * 12000)%N;
  cfg_slot_of := λ t, Some (t / 12000)%N;
|}.

Definition vote_hash (v : BeaconVote) : Hash256 := bv_block_root v.
Definition gloas_hash (v : GloasBeaconVote) : Hash256 := 0%N.
Definition data_hash (d : AggregatorCommitteeConsensusData) : Hash256 := 0%N.
Definition sk_deserialize (bs : bytes) : option N := Some 0%N.
Definition store_program (op : Operation) : prog OpResult := program vote_hash gloas_hash data_hash sk_deserialize cfg op.

Definition m0 : Machine (SecretKey:=N) := mkMachine (store_new db true) (mkDb [] []) None 0 ∅ [].

(** Each consensus instance decides what was proposed here, and each collection succeeds. *)
Definition handler : Handler := {|
  h_now := Some 64%N; h_now_duration := Some 768000%N; h_instant := 0%N; h_executor := true; h_database := true;
  h_signature := Ok 99%N;
  h_proposer := λ d, Ok (QbftTypes.Success d); h_vote := λ d, Ok (QbftTypes.Success d);
  h_gloas_vote := λ d, Ok (QbftTypes.Success d); h_aggregator := λ d, Ok (QbftTypes.Success d);
  h_channel_closed := false; h_elapsed := false;
|}.

Definition attestation_data : AttestationData := mkAttestationData 64 0 1 (mkCheckpoint 0 0) (mkCheckpoint 0 0).
Definition attestation_request : AttestationToSign := mkAttestationToSign [x01] 5 0 attestation_data.
Definition voting_context : VotingContext :=
  mkVotingContext 0 (mkVotingAssignments 64 [5%N] {[ [x01] := 0%N ]} ∅)
    (VoteBase (mkBeaconVote 7 (mkCheckpoint 1 1) (mkCheckpoint 2 2))) None.
Definition operations : list Operation :=
  [OpUpdateVotingContext voting_context; OpSignAttestations [attestation_request];
   OpSignSyncMessages [mkSyncMessageToSign [x01] 64 5];
   OpSignBlock [x01] (UnsignedFull (70%N, None)) 70 None; OpSignBlock [x01] (UnsignedFull (71%N, None)) 71 None;
   OpSignBlock [x01] (UnsignedFull (70%N, None)) 70 None].

(** The operations one after the other; one that does not come to its end is left out. *)
Definition run (pool : Pool) (op : Operation) : Pool :=
  match interp vote_hash gloas_hash handler (pool_machine pool) (store_program op) with
  | Some (r, m) => mkPool m (pool_threads pool ++ [(op, Ret r)])
  | None => pool
  end.
Definition final : Pool := foldl run (mkPool m0 []) operations.

Lemma final_reachable : reachable vote_hash gloas_hash store_program m0 final.
Proof.
  assert (∀ ops pool, reachable vote_hash gloas_hash store_program m0 pool →
            reachable vote_hash gloas_hash store_program m0 (foldl run pool ops)) as H; [|apply H; constructor].
  induction ops as [|op ops IH]; intros [m ts] Hr; cbn [foldl]; [done|]. apply IH. unfold run. cbn [pool_machine].
  destruct (interp _ _ handler m (store_program op)) as [[r m']|] eqn:Hi; [|done].
  eapply reachable_interp; [exact Hr|exact Hi].
Qed.

Lemma one_block_signature_per_slot_witness :
  block_requests (mc_log (pool_machine final)) = [([x01], 70%N); ([x01], 71%N)] ∧
  NoDup (block_requests (mc_log (pool_machine final))).
Proof.
  split; [vm_compute; reflexivity|].
  apply (one_block_signature_per_slot vote_hash gloas_hash data_hash sk_deserialize cfg eq_refl m0 final eq_refl final_reachable).
Defined.

(** The attestation handed out, with the decided vote. *)
Definition signed_attestation : SingleAttestation :=
  mkSingleAttestation 0 5 (mkAttestationData 64 0 7 (mkCheckpoint 1 1) (mkCheckpoint 2 2)) 99%N.

Definition finished (t : Operation * prog (SecretKey:=N) OpResult) :=
  match t with
  | (OpSignAttestations reqs, Ret (ResAttestations (Ok items))) => Some (reqs, items)
  | _ => None
  end.
Lemma finished_attestations (ts : list (Operation * prog (SecretKey:=N) OpResult)) (i : nat) reqs items :
  ts !! i ≫= finished = Some (reqs, items) → (OpSignAttestations reqs, Ret (ResAttestations (Ok items))) ∈ ts.
Proof.
  intros Hi. apply bind_Some in Hi as ([op p] & Hi & Hf). eapply list_elem_of_lookup_2. rewrite Hi. f_equal.
  destruct op; try done. destruct p as [[]| |]; try done. destruct r; try done. by injection Hf as -> ->.
Qed.

Lemma attestations_not_slashable_witness :
  ∃ pk, from_request [attestation_request] signed_attestation pk ∧
        (pk, sat_data signed_attestation) ∈ cleared_log (mc_log (pool_machine final)).
Proof.
  destruct (attestations_not_slashable vote_hash gloas_hash data_hash sk_deserialize cfg eq_refl m0 final eq_refl
              final_reachable) as [_ H].
  apply (H [attestation_request] [Ok [signed_attestation]] [signed_attestation] signed_attestation); [|left..].
  apply (finished_attestations _ 1). vm_compute. reflexivity.
Defined.

Lemma committee_votes_agree_witness :
  vote_requests (mc_log (pool_machine final)) =
    [(cluster_committee_id cluster, 64%N, Committee 1 7); (cluster_committee_id cluster, 64%N, Committee 1 7)] ∧
  Forall (justified vote_hash gloas_hash (pool_machine final)) (vote_requests (mc_log (pool_machine final))).
Proof.
  split; [vm_compute; reflexivity|].
  apply (committee_votes_agree vote_hash gloas_hash data_hash sk_deserialize cfg m0 final eq_refl eq_refl final_reachable).
Defined.
End SampleSafety.
